(* ===== verification/_CoqProject ===== *)
-Q . S2P
Prelude.v
Decimal.v
Arena.v
Errno.v
Bitmap.v
Heap.v
MapIface.v
MapHash.v
MapTree.v
MapFlat.v
Map.v
Ring.v
Grow.v
Buf.v
Hex.v
Base64.v
Base58.v
Wire.v
Flag.v
FlagSet.v
FlagParse.v
FlagSafe.v
FlagSyntax.v
FlagNum.v
Sse.v
SseSafe.v
SseStream.v
DnsName.v
Dns.v
DnsCache.v
Md.v
Hash.v
Sha1.v
Sha256.v
Md5.v
Hmac.v
Crc32.v
Stun.v
StunTxn.v
TurnChannel.v
Ice.v
IOBlock.v
IOBuf.v
IOTake.v
IOWorld.v
Treiber.v
Mpsc.v
Event.v
EventTimer.v
EventSafe.v
EventLoop.v
ByteQueue.v
WsFrame.v
WsParse.v
WsSafe.v
WsIO.v
IOStream.v
WsMem.v
WsConn.v
WsConnSafe.v
WsConnRx.v
WsConnTalk.v
JsonTok.v
Json.v
JsonPrint.v
JsonText.v
JsonRound.v
JsonSafe.v
JsonSax.v
JsonDom.v
