(* ===== verification/Prelude.v ===== *)
(** * libx, verified

    A model of the core of libx, the C library under [src/libx/x/]: its
    containers, byte buffers, digests, codecs, protocol formats and the state
    machines built on them.  Each function of the source is one definition
    that follows it branch by branch, errors included; the theorems are about
    these definitions.

    ** How the program's parts fit together

    [base/] holds the containers, codecs and the flag parser that everything
    else uses.  [buf/io.c] provides the chained buffers, whose blocks come from
    a lock-free pool and may be shared between buffers; the WebSocket code of
    [http/] parses frames from one and writes to another.  The
    server-sent-event client parses out of the growable buffer of [buf/buf.c].
    The DNS client keeps a TTL cache in a map of [base/map.c], which is a
    table of functions over one of three backends.  STUN messages of [p2p/]
    are authenticated with [crypto/hmac.c], which works over any digest, and
    sent by the transactions of [stun_txn.c] under a retransmission timer.
    The event loop of [base/event_run.c] keeps its timers in the heap of
    [base/heap.c] and its posts in the queue of [base/mpsc.c].
    The JSON library allocates from an arena of [base/arena.c].

    Where a part uses another, the client is proved against a type class with
    the contract and the provider discharges it: [XMap]/[XMapOk] of MapIface
    (clients: the DNS cache), [xHashVtable]/[HashOk] of Hash (client: HMAC),
    [ByteQueue] and [ByteStream] of ByteQueue (clients: the frame parser and
    the WebSocket connection).

    ** Conventions

    A C integer is a [Z] with its wrap written out ([u8] to [u64], [size_t]
    being [u64]); a block of memory is the list of its bytes, and an access
    outside it is undefined behaviour, the [None] of a computation of type
    [ub].  A failing allocation is the choice of an [oracle] (by size) or of a
    function of the number of the attempt; memory that [malloc] returns holds
    whatever the parameter [junk] says.  Leaks are counted where the code
    allocates small objects (the [heap] of Wire).  Callbacks, system calls,
    timers and clocks are parameters or events.  Code that interleaves is a
    step relation over its atomic operations, sequentially consistent.

    ** Files and what they model

    - Prelude, Decimal, Grow, Wire: integers, memory, monads and numbers as
      text; the doubling rule of [buf.c] and [array.c]; big-endian fields and
      C strings.
    - Errno: [base/error.h].  Bitmap: [base/bitmap.c].  Heap: [base/heap.c].
      Arena: [base/arena.c].  Mpsc: [base/mpsc.c], each atomic operation a
      step of a thread.
    - MapIface, MapHash, MapTree, MapFlat, Map: [base/map.h], [map_hash.c],
      [map_tree.c] (the tree as a zipper), [map_flat.c], [map.c].
    - Flag (data and registration of [base/flag.c]), FlagSet (a set and its
      storage), FlagParse ([xFlagParse] and the help text), FlagSafe,
      FlagSyntax, FlagNum (proofs).
    - Event: [base/event_timer.c], [event_run.c], [event_post.c],
      [event_private.c] and the common part of [event_epoll.c]; a callback is
      a tree of the API calls it makes.  EventTimer, EventSafe, EventLoop: proofs.
    - Ring: [buf/ring.c].  Buf: [buf/buf.c].  IOBlock, IOBuf, IOTake, IOWorld:
      [buf/io.c], one buffer and then all buffers of a program with the blocks
      they share.  Treiber: the pool of [buf/io.c] with its threads interleaved.
    - Hex, Base64, Base58: [base/].  Crc32, Sha1, Sha256, Md5 (over Md, the
      buffering they share), Hash, Hmac: [crypto/].
    - DnsName, Dns: [dns/dns_packet.c].  DnsCache: [dns/dns_cache.c] and
      [cache_results] of [dns_client.c].
    - Stun: [p2p/stun_msg.c], [stun_attr.c].  StunTxn: [stun_txn.c].
      TurnChannel: [turn_channel.c].  Ice: [ice_candidate.c], [ice_pair.c].
    - ByteQueue: the interface.  WsFrame (definitions), WsParse, WsSafe, WsIO
      (proofs): [http/ws_frame.c].  IOStream, WsMem, WsConn (definitions),
      WsConnSafe, WsConnRx, WsConnTalk (proofs): [http/ws.c].
    - Sse (definitions), SseSafe, SseStream (proofs): [http/sse.c].
    - JsonTok: [json/json_parse.c].  Json, JsonPrint, JsonDom: [json/json.c]
      (parser, serializer, documents).  JsonSax: [json/json_sax.c].  JsonText,
      JsonRound, JsonSafe: proofs.

    ** What the theorems show

    - Containers implement their abstract data types: the map API is a finite
      map over every backend, and the red-black tree stays balanced; the heap
      returns a minimum and keeps every recorded index right; ring and buffers
      are bounded or unbounded byte queues, the chained ones also when buffers
      share blocks; queue and pool keep their nodes under any interleaving.
    - Codecs invert: hex, base-64, base-58, domain names, DNS responses, STUN
      attributes and addresses, WebSocket frames, JSON documents.
    - Parsers are total on arbitrary bytes, read nothing outside the input and
      leak nothing: names, DNS packets, frames, JSON, command lines, events.
    - Digests are independent of how the message is cut, HMAC is the formula of
      RFC 2104 over any of them, the CRC table is the bitwise definition, a
      signed STUN message verifies and an altered one is a different message.
    - State machines: a WebSocket connection keeps its invariant, delivers the
      messages of the stream in order, and two ends talk to each other up to
      the answered Close; a STUN transaction is in exactly one state, calls
      back once while it lives and times out after the documented schedule;
      server-sent events are delivered once each, in order, however the stream
      is cut.
    - The event loop fires exactly the expired timers, in order and once,
      whatever the callbacks do; it never sleeps past a timer, runs posts in
      order, and knows when nothing is left to do.  The module Trouble of
      EventLoop shows where it fails: a timer read after it was freed, posts
      left in the queue of a sleeping loop, a repeating timer lost.
    - The flag parser understands each documented way to write an argument,
      keeps its storage well typed and succeeds only when what is required
      was given.

    ** Fuel

    Each fuel is more than the loop can use, and a theorem says so: 65
    doublings of a capacity ([Grow]); [66 * (len + 1)] steps in a DNS name (65
    labels between two jumps, and at most [len] jumps); the length plus one
    for appends, lines of events, reads of a script and queued frames;
    [2 * len + 1] for JSON values and [2 * len + 2] for frames; [argc]
    arguments; the count of transactions.  [MAX_BYTES] (2^58) bounds a chained
    buffer, [2^62] a growing one: beyond these the sizes of the code wrap.
    Numbers print within the digits of their type.  The theorems on
    connections assume that queued bytes fit in the transport's buffer type
    ([q_fits]), which holds of every byte queue without a bound.

    ** Not modelled

    - Kernel interfaces: the other back ends of the event loop, sockets, files,
      processes, threads, clocks, randomness ([base/event_kqueue.c],
      [event_poll.c], [event_wsapoll.c], [socket.c], [command_*.c], [thread.c],
      [time.c], [fs/]); their results are parameters of the models that use
      them.  The environment of the event loop acts while the loop waits.
    - Code whose behaviour is in the callbacks of libraries that are not part
      of the repository: [http/client.c], [server.c], [proto_h1.c],
      [proto_h2.c] (libcurl, llhttp, nghttp2), TLS, DTLS and SCTP, [ws_deflate.c]
      (zlib), the digest back ends on OpenSSL and mbedTLS; of [sse.c] the set-up
      of the request.
    - The drivers on top of both: [ice_agent.c], [nat_probe.c], [turn_client.c],
      [dns_client.c] beyond its cache, [dns_server.c], the peer connection, the
      handshakes of the WebSocket code and the list of connections a server keeps.
    - The list under Planned.
    - The C++ bindings of libxpp and the proxy of libdlproxy.
    - Weak memory orders of the atomics.

    ** Planned

    Task groups and the work the event loop offloads to them, slabs, arrays
    and strings, URLs, UUIDs, session descriptions ([p2p/sdp.c]). *)

From Stdlib Require Export ZArith Lia.
From stdpp Require Export base numbers list gmap.

(** ** Machine integers

    C's unsigned integers are [Z]s kept in range; every operation of the code
    that can leave the range is followed by the wrap of its type.  [size_t] is
    64 bits wide ([SIZE_MAX] as on the LP64 targets of the build). *)

Definition u8 (z : Z) : Z := (z mod 2 ^ 8)%Z.
Definition u16 (z : Z) : Z := (z mod 2 ^ 16)%Z.
Definition u32 (z : Z) : Z := (z mod 2 ^ 32)%Z.
Definition u64 (z : Z) : Z := (z mod 2 ^ 64)%Z.
Definition SIZE_MAX : Z := (2 ^ 64 - 1)%Z.

Definition byte_ok (b : Z) : Prop := (0 <= b < 256)%Z.
Abbreviation bytes_ok := (Forall byte_ok).

#[export] Instance byte_ok_dec b : Decision (byte_ok b).
Proof. unfold byte_ok. apply _. Defined.

(** A computation of type [ub A] is a C computation that may have undefined
    behaviour (an access outside an object): [None] is the undefined outcome. *)
Abbreviation ub := option.

(** The allocator is the environment's: an [oracle] says which request sizes
    succeed in the call at hand. *)
Definition oracle : Type := Z -> bool.

(** [calloc(n, sz)] fails when the product overflows. *)
Definition calloc_ok (alloc : oracle) (n sz : Z) : bool := (n * sz <=? SIZE_MAX)%Z && alloc (n * sz)%Z.

(** C functions that report failure: [None] is undefined behaviour, [Some None]
    the error return, [Some (Some x)] success.  [x ⇐ e; k] goes on with [k] on
    success only. *)
Abbreviation fallible A := (ub (option A)).

Definition fbind {A B} (f : A -> fallible B) (m : fallible A) : fallible B :=
  match m with
  | None => None
  | Some None => Some None
  | Some (Some x) => f x
  end.

Definition ok {A} (x : A) : fallible A := Some (Some x).
Definition fail {A} : fallible A := Some None.

(** A step that cannot fail but may be undefined. *)
Definition lift {A} (m : ub A) : fallible A := Some <$> m.

Lemma lift_Some {A} (x : A) : lift (Some x) = ok x.
Proof. reflexivity. Qed.

Lemma fbind_ok {A B} (f : A -> fallible B) x : fbind f (ok x) = f x.
Proof. reflexivity. Qed.

Declare Scope libx_scope.
Notation "x ⇐ e ; k" := (fbind (fun x => k) e)
  (at level 20, e at level 100, k at level 200, only parsing) : libx_scope.
Notation "' p ⇐ e ; k" := (fbind (fun x => let p := x in k) e)
  (at level 20, p pattern, e at level 100, k at level 200, only parsing) : libx_scope.
Open Scope libx_scope.

(** ** Memory blocks as lists *)

Section memory.
Context {A : Type}.

(** [memcpy] of [src] to offset [pos] of [m], undefined when it does not fit. *)
Definition mem_write (m : list A) (pos : nat) (src : list A) : ub (list A) :=
  if decide (pos + length src <= length m)
  then Some (take pos m ++ src ++ drop (pos + length src) m)
  else None.

(** [n] elements read from offset [pos] of [m], undefined when out of range. *)
Definition mem_read (m : list A) (pos n : nat) : ub (list A) :=
  if decide (pos + n <= length m) then Some (take n (drop pos m)) else None.

(** One element written at offset [i]. *)
Definition mem_set (m : list A) (i : nat) (x : A) : ub (list A) :=
  if decide (i < length m) then Some (<[i := x]> m) else None.

Lemma mem_write_Some m pos src :
  pos + length src <= length m ->
  mem_write m pos src = Some (take pos m ++ src ++ drop (pos + length src) m).
Proof. intros H. unfold mem_write. by rewrite decide_True. Qed.

Lemma mem_write_length m pos src m' :
  mem_write m pos src = Some m' -> length m' = length m.
Proof.
  unfold mem_write. case_decide; intros; simplify_eq.
  rewrite !length_app, length_take, length_drop. lia.
Qed.

Lemma mem_read_Some m pos n :
  pos + n <= length m -> mem_read m pos n = Some (take n (drop pos m)).
Proof. intros H. unfold mem_read. by rewrite decide_True. Qed.

Lemma mem_set_Some m i x :
  i < length m -> mem_set m i x = Some (<[i := x]> m).
Proof. intros H. unfold mem_set. by rewrite decide_True. Qed.

Lemma lookup_mem_write m pos src m' j :
  mem_write m pos src = Some m' ->
  m' !! j = if decide (pos <= j < pos + length src) then src !! (j - pos) else m !! j.
Proof.
  unfold mem_write. case_decide; intros; simplify_eq.
  destruct (decide (j < pos)).
  { rewrite lookup_app_l by (rewrite length_take; lia).
    rewrite lookup_take_lt by lia. by rewrite decide_False by lia. }
  rewrite lookup_app_r by (rewrite length_take; lia).
  rewrite length_take, Nat.min_l by lia.
  case_decide.
  - by rewrite lookup_app_l by lia.
  - rewrite lookup_app_r by lia. rewrite lookup_drop. f_equal. lia.
Qed.

End memory.

(** ** Writing through a cursor: [dst[out++] = c] *)

Definition put (w : list Z * nat) (c : Z) : ub (list Z * nat) :=
  d ← mem_set w.1 w.2 c; Some (d, S w.2).

Fixpoint puts (w : list Z * nat) (cs : list Z) : ub (list Z * nat) :=
  match cs with
  | [] => Some w
  | c :: cs => w' ← put w c; puts w' cs
  end.

Lemma puts_app w cs1 cs2 : puts w (cs1 ++ cs2) = (w' ← puts w cs1; puts w' cs2).
Proof.
  revert w. induction cs1 as [|c cs1 IH]; intros w; [done|]. cbn [app puts].
  destruct (put w c) as [w'|]; [|done]. cbn [mbind option_bind]. apply IH.
Qed.

(** A run of writes that fits is one block copy. *)
Lemma puts_Some d out cs :
  out + length cs <= length d ->
  puts (d, out) cs = Some (take out d ++ cs ++ drop (out + length cs) d, out + length cs).
Proof.
  revert d out. induction cs as [|c cs IH]; intros d out H; cbn [puts length] in *.
  { rewrite Nat.add_0_r. cbn [app]. by rewrite take_drop. }
  unfold put. cbn [fst snd]. rewrite mem_set_Some by lia. cbn [mbind option_bind].
  rewrite IH by (rewrite length_insert; lia). f_equal. f_equal; [|lia].
  assert (take (S out) (<[out := c]> d) = take out d ++ [c]) as ->.
  { rewrite (take_S_r _ _ c) by (apply list_lookup_insert_eq; lia).
    by rewrite take_insert_ge by lia. }
  rewrite drop_insert_lt by lia. rewrite <- app_assoc. cbn [app].
  by replace (out + S (length cs)) with (S out + length cs) by lia.
Qed.

Lemma put_Some d out c :
  out < length d -> put (d, out) c = Some (<[out := c]> d, S out).
Proof. intros. unfold put. cbn [fst snd]. by rewrite mem_set_Some. Qed.

(** The block with [out] at its front. *)
Definition block_with (dst out : list Z) : list Z := out ++ drop (length out) dst.

(** A text written from the start of the block, and the NUL after it. *)
Lemma puts_nul dst cs :
  length cs < length dst ->
  exists d, puts (dst, 0) cs = Some (d, length cs) /\
    mem_set d (length cs) 0%Z = Some (block_with dst (cs ++ [0%Z])).
Proof.
  intros H. rewrite puts_Some by lia. eexists. split; [done|].
  pose proof (puts_Some dst 0 (cs ++ [0%Z])) as HA. rewrite length_app in HA. simpl length in HA.
  rewrite puts_app, puts_Some in HA by lia. cbn [mbind option_bind puts Nat.add] in HA.
  unfold put in HA. cbn [fst snd] in HA. cbn [Nat.add].
  destruct (mem_set _ (length cs) 0%Z) as [d|]; cbn [mbind option_bind] in HA;
    specialize (HA ltac:(lia)); [|done].
  injection HA as ->. unfold block_with. by rewrite length_app.
Qed.

Lemma puts_block dst cs :
  length cs <= length dst -> puts (dst, 0) cs = Some (block_with dst cs, length cs).
Proof. intros H. by rewrite puts_Some by lia. Qed.

(** The outcome of the text codecs: the C value [-1], or the destination block
    and the length stored through [dst_len]. *)
Inductive codec_result :=
  | CodecErr
  | CodecOk (dst : list Z) (dst_len : Z).

(** ** Bit facts *)

Lemma u8_byte z : byte_ok (u8 z).
Proof. unfold byte_ok, u8. apply Z.mod_pos_bound. lia. Qed.

Lemma u8_id b : byte_ok b -> u8 b = b.
Proof. unfold byte_ok, u8. intros. apply Z.mod_small. lia. Qed.

Lemma land_bound a b : (0 <= a)%Z -> (0 <= b)%Z -> (0 <= Z.land a b <= b)%Z.
Proof.
  intros Ha Hb. rewrite <- (Z2N.id a), <- (Z2N.id b) by done.
  rewrite <- N2Z.inj_land. pose proof (N.land_le_r (Z.to_N a) (Z.to_N b)). lia.
Qed.

(** Every byte, as a list to enumerate. *)
Definition all_bytes : list Z := seqZ 0 256.

Lemma all_bytes_spec b : byte_ok b -> b ∈ all_bytes.
Proof. unfold byte_ok, all_bytes. intros. apply elem_of_seqZ. lia. Qed.

(** A decidable property of bytes is proved by evaluating it on all of them. *)
Lemma byte_exhaust (P : Z -> bool) :
  forallb P all_bytes = true -> forall b, byte_ok b -> P b = true.
Proof.
  intros H b Hb. apply forallb_forall with (x := b) in H; [done|].
  apply list_elem_of_In, all_bytes_spec, Hb.
Qed.

(** Likewise below any bound, and for pairs. *)
Lemma range_exhaust n (P : Z -> bool) :
  forallb P (seqZ 0 n) = true -> forall x, (0 <= x < n)%Z -> P x = true.
Proof.
  intros H x Hx. apply forallb_forall with (x := x) in H; [done|].
  apply list_elem_of_In, elem_of_seqZ. lia.
Qed.

Lemma range_exhaust2 n m (P : Z -> Z -> bool) :
  forallb (fun x => forallb (P x) (seqZ 0 m)) (seqZ 0 n) = true ->
  forall x y, (0 <= x < n)%Z -> (0 <= y < m)%Z -> P x y = true.
Proof.
  intros H x y Hx Hy. apply (range_exhaust m (P x)); [|done].
  by apply (range_exhaust n (fun x => forallb (P x) (seqZ 0 m))).
Qed.

(** The bits of a byte, least significant first. *)
Definition byte_bits (b : Z) : list bool := Z.testbit b <$> seqZ 0 8.

Lemma length_byte_bits b : length (byte_bits b) = 8.
Proof. reflexivity. Qed.

Lemma lookup_byte_bits b i :
  i < 8 -> byte_bits b !! i = Some (Z.testbit b (Z.of_nat i)).
Proof.
  intros Hi. unfold byte_bits. rewrite list_lookup_fmap.
  rewrite lookup_seqZ_lt by lia. reflexivity.
Qed.

#[global] Opaque byte_bits.

(** ** Uniform concatenation: an array of [k]-element cells, flattened *)

Lemma lookup_bind_uniform {A B} (f : A -> list B) (k : nat) (l : list A) (i : nat) :
  0 < k -> (forall x, length (f x) = k) ->
  (l ≫= f) !! i = (l !! (i / k) ≫= fun x => f x !! (i mod k)).
Proof.
  intros Hk Hf. revert i. induction l as [|x l IH]; intros i; [done|].
  change ((x :: l) ≫= f) with (f x ++ (l ≫= f)).
  destruct (decide (i < k)).
  - rewrite lookup_app_l by (rewrite Hf; lia).
    rewrite Nat.div_small, Nat.mod_small by lia. reflexivity.
  - rewrite lookup_app_r by (rewrite Hf; lia). rewrite IH, Hf.
    assert (i / k = S ((i - k) / k)) as ->.
    { replace i with (k + (i - k)) at 1 by lia.
      rewrite <- (Nat.mul_1_l k) at 1. rewrite Nat.div_add_l by lia. lia. }
    assert (i mod k = (i - k) mod k) as ->.
    { replace i with ((i - k) + 1 * k) at 1 by lia. apply Nat.Div0.mod_add. }
    reflexivity.
Qed.

Lemma length_bind_uniform {A B} (f : A -> list B) (k : nat) (l : list A) :
  (forall x, length (f x) = k) -> length (l ≫= f) = k * length l.
Proof.
  intros Hf. induction l as [|x l IH]; [simpl; lia|].
  change ((x :: l) ≫= f) with (f x ++ (l ≫= f)).
  rewrite length_app, Hf, IH. simpl. lia.
Qed.

(** ** Counting *)

(** How many elements of a list of booleans are true. *)
Fixpoint count_true (l : list bool) : nat :=
  match l with
  | [] => 0
  | b :: l => (if b then 1 else 0) + count_true l
  end.

Lemma count_true_app l1 l2 : count_true (l1 ++ l2) = count_true l1 + count_true l2.
Proof. induction l1 as [|b l1 IH]; simpl; [done|]. rewrite IH. lia. Qed.

Lemma count_true_le l : count_true l <= length l.
Proof. induction l as [|[] l IH]; simpl; lia. Qed.

Lemma count_true_full l : count_true l = length l <-> Forall (eq true) l.
Proof.
  induction l as [|b l IH]; simpl; [split; auto|].
  pose proof (count_true_le l). rewrite Forall_cons, <- IH.
  destruct b; split; intros; simpl in *; intuition (try done; lia).
Qed.

Lemma count_true_zero l : count_true l = 0 <-> Forall (eq false) l.
Proof.
  induction l as [|b l IH]; simpl; [split; auto|].
  rewrite Forall_cons, <- IH. destruct b; intuition (try done; lia).
Qed.

Lemma count_true_replicate n b : count_true (replicate n b) = if b then n else 0.
Proof. induction n as [|n IH]; destruct b; simpl; try done; by rewrite IH. Qed.

Lemma alter_const {A} (x : A) i (l : list A) : alter (fun _ => x) i l = <[i := x]> l.
Proof. revert i. induction l as [|y l IH]; intros [|i]; try done. cbn. by f_equal. Qed.

(** ** Replacing one part of a concatenation *)

Lemma concat_insert {A} (b : list (list A)) i c :
  b !! i = Some c ->
  exists L R, L = concat (take i b) /\ R = concat (drop (S i) b) /\ concat b = L ++ c ++ R /\
    forall c', concat (<[i := c']> b) = L ++ c' ++ R.
Proof.
  intros Hc. pose proof (lookup_lt_Some _ _ _ Hc).
  exists (concat (take i b)), (concat (drop (S i) b)). split; [done|]. split; [done|]. split.
  - rewrite <- (take_drop_middle b i c Hc) at 1. by rewrite concat_app.
  - intros c'. rewrite insert_take_drop by done. by rewrite concat_app.
Qed.

(** ** Automation *)

Create HintDb libx.
Create Rewrite HintDb len.
#[export] Hint Resolve u8_byte u8_id : libx.
#[export] Hint Rewrite @length_app @length_take @length_drop @length_insert
  @length_fmap @length_replicate @length_reverse : len.

(** Lengths first, then arithmetic. *)
Ltac len := autorewrite with len in *; simpl length in *; lia.

(** Run a [ub] computation whose guard [H] discharges. *)
Ltac ub_step := first
  [ rewrite mem_write_Some by len
  | rewrite mem_read_Some by len
  | rewrite mem_set_Some by len ]; simpl.

(** ** Consecutive and empty writes *)

Lemma mem_write_app {A} (m : list A) p a b :
  mem_write m p (a ++ b) = (m ← mem_write m p a; mem_write m (p + length a) b).
Proof.
  destruct (decide (p + length (a ++ b) <= length m)) as [H|H].
  - rewrite (mem_write_Some m p (a ++ b)) by done. rewrite length_app in H |- *.
    rewrite (mem_write_Some m p a) by lia. cbn [mbind option_bind].
    rewrite mem_write_Some by (autorewrite with len; lia). f_equal.
    rewrite (app_assoc (take p m) a), take_app_length' by (autorewrite with len; lia).
    rewrite drop_app_ge by (autorewrite with len; lia).
    rewrite drop_drop, <- !app_assoc. do 4 f_equal. autorewrite with len. lia.
  - unfold mem_write at 1. rewrite decide_False by done. rewrite length_app in H.
    destruct (mem_write m p a) as [m1|] eqn:E; [|done]. apply mem_write_length in E. cbn [mbind option_bind].
    unfold mem_write. by rewrite decide_False by lia.
Qed.

Lemma mem_write_nil {A} (m : list A) p : p <= length m -> mem_write m p [] = Some m.
Proof.
  intros H. rewrite mem_write_Some by (cbn; lia). cbn [length app]. by rewrite Nat.add_0_r, take_drop.
Qed.

(** One element of a list and the rest, whatever is stored in its place. *)
Lemma insert_split {A} (l : list A) i x :
  l !! i = Some x -> exists rest, l ≡ₚ x :: rest /\ forall y, <[i := y]> l ≡ₚ y :: rest.
Proof.
  intros Hi. exists (take i l ++ drop (S i) l). split.
  - rewrite <- (take_drop_middle l i x Hi) at 1. by rewrite Permutation_middle.
  - intros y. rewrite insert_take_drop by (by eapply lookup_lt_Some). by rewrite Permutation_middle.
Qed.
