(* ===== verification/Decimal.v ===== *)
(** * Decimal: numbers as text in the C library

    The decimal conversions of [snprintf] and [strtoll], shared by the
    components that print or read numbers. *)

From S2P Require Import Prelude.

Definition is_digit (c : Z) : bool := (48 <=? c)%Z && (c <=? 57)%Z.

Lemma is_digit_spec c : is_digit c = true <-> (48 <= c <= 57)%Z.
Proof. unfold is_digit. rewrite andb_true_iff, !Z.leb_le. done. Qed.

(** [%u]: decimal digits, [fuel] the most there can be. *)
Fixpoint print_u (fuel : nat) (n : Z) : list Z :=
  match fuel with
  | 0 => []
  | S fuel => if (n <? 10)%Z then [48 + n]%Z else print_u fuel (n / 10) ++ [48 + n mod 10]%Z
  end.

(** [%lld]: a 64-bit number has at most nineteen digits. *)
Definition print_lld (z : Z) : list Z := if (z <? 0)%Z then 45%Z :: print_u 19 (- z) else print_u 19 z.

(** The value of a run of digits. *)
Definition digits_value (ds : list Z) : Z := fold_left (fun acc c => acc * 10 + (c - 48))%Z ds 0%Z.

Lemma length_print_u fuel n : length (print_u fuel n) <= fuel.
Proof.
  revert n. induction fuel as [|fuel IH]; intros n; cbn [print_u]; [cbn; lia|]. destruct (n <? 10)%Z; [cbn; lia|].
  rewrite length_app. cbn. specialize (IH (n / 10)%Z). lia.
Qed.

Lemma print_u_digits fuel n : (0 <= n)%Z -> Forall (fun c => 48 <= c <= 57)%Z (print_u fuel n).
Proof.
  revert n. induction fuel as [|fuel IH]; intros n Hn; cbn [print_u]; [done|].
  destruct (Z.ltb_spec n 10); [by constructor; [lia|]|].
  apply Forall_app. split; [apply IH, Z.div_pos; lia|]. constructor; [|done].
  pose proof (Z.mod_pos_bound n 10). lia.
Qed.

Lemma pow10_div fuel n :
  (10 <= n < 10 ^ Z.of_nat (S fuel))%Z -> (1 <= n / 10 < 10 ^ Z.of_nat fuel)%Z.
Proof.
  intros Hn. rewrite Nat2Z.inj_succ, Z.pow_succ_r in Hn by lia. split.
  - apply Z.div_le_lower_bound; lia.
  - apply Z.div_lt_upper_bound; lia.
Qed.

Lemma print_u_value fuel n : (0 <= n < 10 ^ Z.of_nat fuel)%Z -> digits_value (print_u fuel n) = n.
Proof.
  revert n. induction fuel as [|fuel IH]; intros n Hn; cbn [print_u].
  { change (10 ^ Z.of_nat 0)%Z with 1%Z in Hn. cbn. lia. }
  destruct (Z.ltb_spec n 10); [cbn; lia|]. unfold digits_value in *.
  pose proof (pow10_div fuel n ltac:(lia)). rewrite fold_left_app, IH by lia.
  cbn [fold_left]. pose proof (Z.div_mod n 10). lia.
Qed.

(** A number has a first digit, which is 0 only when it is the whole number. *)
Lemma print_u_first fuel n :
  (0 <= n < 10 ^ Z.of_nat fuel)%Z -> 0 < fuel ->
  exists c cs, print_u fuel n = c :: cs /\ (c = 48%Z -> cs = []).
Proof.
  revert n. induction fuel as [|fuel IH]; intros n Hn Hf; [lia|]. cbn [print_u].
  destruct (Z.ltb_spec n 10); [by eexists _, []|].
  pose proof (pow10_div fuel n ltac:(lia)) as Hd.
  destruct (decide (fuel = 0)) as [->|]; [change (10 ^ Z.of_nat 0)%Z with 1%Z in Hd; lia|].
  destruct (IH (n / 10)%Z ltac:(lia) ltac:(lia)) as (c & cs & E & Hc).
  rewrite E. eexists c, _. split; [reflexivity|]. intros ->. exfalso.
  pose proof (print_u_value fuel (n / 10) ltac:(lia)) as Hv. rewrite E, (Hc eq_refl) in Hv. cbn in Hv. lia.
Qed.

(** ** [strtoll] *)

Definition INT64_MIN : Z := - 2 ^ 63.
Definition INT64_MAX : Z := 2 ^ 63 - 1.

Definition int64_ok (z : Z) : Prop := (INT64_MIN <= z <= INT64_MAX)%Z.

(** The digits are read up to the first byte that is none; a run that reaches
    the end of the memory is undefined. *)
Fixpoint digits_run (s : list Z) (acc : Z) : ub Z :=
  match s with
  | [] => None
  | c :: s => if is_digit c then digits_run s (acc * 10 + (c - 48)) else Some acc
  end.

(** Base 10, on a text that starts with a digit or a sign; a value out of
    range saturates. *)
Definition strtoll (s : list Z) : ub Z :=
  v ← (match s with
       | c :: s' => if (c =? 45)%Z then Z.opp <$> digits_run s' 0 else digits_run s 0
       | [] => None
       end);
  Some (Z.max INT64_MIN (Z.min INT64_MAX v)).

Lemma digits_run_spec ds c rest acc :
  Forall (fun c => 48 <= c <= 57)%Z ds -> is_digit c = false ->
  digits_run (ds ++ c :: rest) acc = Some (fold_left (fun acc c => acc * 10 + (c - 48)) ds acc)%Z.
Proof.
  intros Hds Hc. revert acc. induction Hds as [|d ds Hd Hds IH]; intros acc; cbn [app digits_run fold_left].
  - by rewrite Hc.
  - rewrite (proj2 (is_digit_spec d)) by lia. apply IH.
Qed.

Lemma print_lld_shape z :
  int64_ok z ->
  exists sign ds, print_lld z = sign ++ ds /\ (sign = [] \/ sign = [45%Z]) /\
    Forall (fun c => 48 <= c <= 57)%Z ds /\ (exists c cs, ds = c :: cs /\ (c = 48%Z -> cs = [])) /\
    z = (if decide (sign = []) then digits_value ds else - digits_value ds)%Z.
Proof.
  unfold int64_ok, INT64_MIN, INT64_MAX, print_lld. intros Hz.
  assert (forall n, (0 <= n <= 2 ^ 63)%Z -> (0 <= n < 10 ^ Z.of_nat 19)%Z) as Hp.
  { intros n Hn. change (10 ^ Z.of_nat 19)%Z with 10000000000000000000%Z. lia. }
  destruct (Z.ltb_spec z 0).
  - pose proof (Hp (- z)%Z ltac:(lia)) as Hn. exists [45%Z], (print_u 19 (- z)). split; [reflexivity|]. split; [by right|].
    split; [apply print_u_digits; lia|]. split; [by apply print_u_first; [|lia]|].
    rewrite decide_False by done. rewrite print_u_value by done. lia.
  - pose proof (Hp z ltac:(lia)) as Hn. exists [], (print_u 19 z). split; [reflexivity|]. split; [by left|].
    split; [apply print_u_digits; lia|]. split; [by apply print_u_first; [|lia]|].
    rewrite decide_True by done. by rewrite print_u_value.
Qed.

(** What is printed is read back, up to the first byte that is no digit. *)
Lemma strtoll_print z c rest :
  int64_ok z -> is_digit c = false -> strtoll (print_lld z ++ c :: rest) = Some z.
Proof.
  intros Hz Hc. destruct (print_lld_shape z Hz) as (sign & ds & -> & Hs & Hds & (d & ds' & -> & _) & Hv).
  rewrite <- app_assoc.
  assert (Z.max INT64_MIN (Z.min INT64_MAX z) = z) as Hclamp by (unfold int64_ok in Hz; lia).
  unfold strtoll, digits_value in *. destruct Hs as [-> | ->].
  - rewrite decide_True in Hv by done. cbn [app].
    rewrite (proj2 (Z.eqb_neq d 45)) by (apply Forall_inv in Hds; lia).
    change (d :: ds' ++ c :: rest) with ((d :: ds') ++ c :: rest).
    rewrite digits_run_spec by done. cbn [mbind option_bind]. by rewrite <- Hv, Hclamp.
  - rewrite decide_False in Hv by done. cbn [app]. rewrite Z.eqb_refl.
    change (d :: ds' ++ c :: rest) with ((d :: ds') ++ c :: rest).
    rewrite digits_run_spec by done. cbn [fmap option_fmap option_map mbind option_bind]. by rewrite <- Hv, Hclamp.
Qed.
