(* ===== verification/Arena.v ===== *)
(** * Arena: the bump allocator ([libx/x/base/arena.c])

    The buffer is a range of addresses; a request moves [pos] past an aligned
    block.  What [malloc] answers is the environment's. *)

From S2P Require Import Prelude.

Definition XARENA_DEFAULT_ALIGN : Z := 16.

Record xArena := Arena {
  a_begin : Z;
  a_pos : Z;
  a_end : Z;
}.

Definition arena_align_up (p align : Z) : Z :=
  Z.land (u64 (u64 (p + align) - 1)) (u64 (Z.lnot (u64 (align - 1)))).

(** [malloc] gives the buffer an address or fails, then the struct or fails
    (the buffer is freed again). *)
Definition xArenaCreate (malloc : Z -> option Z) (alloc : oracle) (capacity : Z) : option xArena :=
  buf ← malloc capacity;
  if alloc 24%Z then Some (Arena buf buf (u64 (buf + capacity))) else None.

Definition xArenaAllocAligned (a : xArena) (size align : Z) : option (Z * xArena) :=
  let align := if (align =? 0)%Z then XARENA_DEFAULT_ALIGN else align in
  let p := arena_align_up (a_pos a) align in
  if (a_end a <? u64 (p + size))%Z then None
  else Some (p, Arena (a_begin a) (u64 (p + size)) (a_end a)).

Definition xArenaAlloc (a : xArena) (size : Z) : option (Z * xArena) :=
  xArenaAllocAligned a size XARENA_DEFAULT_ALIGN.

Definition xArenaCapacity (a : xArena) : Z := u64 (a_end a - a_begin a).
Definition xArenaUsed (a : xArena) : Z := u64 (a_pos a - a_begin a).
Definition xArenaRemaining (a : xArena) : Z := u64 (a_end a - a_pos a).
Definition xArenaOwns (a : xArena) (p : Z) : bool := (a_begin a <=? p)%Z && (p <? a_end a)%Z.
Definition xArenaReset (a : xArena) : xArena := Arena (a_begin a) (a_begin a) (a_end a).

(** A sequence of requests; the blocks in order, as soon as one is refused
    nothing. *)
Fixpoint alloc_all (a : xArena) (reqs : list (Z * Z)) : option (list (Z * Z) * xArena) :=
  match reqs with
  | [] => Some ([], a)
  | (size, align) :: reqs =>
      '(p, a) ← xArenaAllocAligned a size align;
      '(bs, a) ← alloc_all a reqs;
      Some ((p, size) :: bs, a)
  end.

(** ** Rounding up *)

Definition power_of_two (align : Z) : Prop := exists k, (0 <= k < 64)%Z /\ align = (2 ^ k)%Z.

(** The least multiple of [align] from [p] on. *)
Definition align_up (p align : Z) : Z := ((p + align - 1) / align * align)%Z.

Lemma land_not_low x k :
  (0 <= x < 2 ^ 64)%Z -> (0 <= k)%Z -> Z.land x (u64 (Z.lnot (2 ^ k - 1))) = (x / 2 ^ k * 2 ^ k)%Z.
Proof.
  intros Hx Hk. unfold u64. rewrite <- !Z.land_ones by lia.
  rewrite (Z.land_comm (Z.lnot _)), Z.land_assoc, Z.land_ones by lia. rewrite (Z.mod_small x) by done.
  replace (2 ^ k - 1)%Z with (Z.ones k) by (rewrite Z.ones_equiv; lia).
  rewrite <- Z.ldiff_land, Z.ldiff_ones_r by done. by rewrite Z.shiftr_div_pow2, Z.shiftl_mul_pow2 by done.
Qed.

Lemma arena_align_up_spec p align :
  power_of_two align -> (0 <= p)%Z -> (p + align < 2 ^ 64)%Z -> arena_align_up p align = align_up p align.
Proof.
  intros (k & Hk & ->) Hp Hs. assert (0 < 2 ^ k)%Z by (apply Z.pow_pos_nonneg; lia).
  unfold arena_align_up, align_up.
  assert (u64 (u64 (p + 2 ^ k) - 1) = p + 2 ^ k - 1)%Z as -> by (unfold u64; rewrite (Z.mod_small (p + 2 ^ k)) by lia; rewrite Z.mod_small; lia).
  assert (u64 (2 ^ k - 1) = 2 ^ k - 1)%Z as -> by (unfold u64; rewrite Z.mod_small; lia).
  by rewrite land_not_low by lia.
Qed.

Lemma align_up_bounds p align :
  (0 < align)%Z -> (p <= align_up p align < p + align)%Z /\ (align_up p align mod align = 0)%Z.
Proof.
  intros Ha. unfold align_up. pose proof (Z.div_mod (p + align - 1) align ltac:(lia)).
  pose proof (Z.mod_pos_bound (p + align - 1) align Ha). split; [lia|]. apply Z.mod_mul. lia.
Qed.

(** No smaller address would do. *)
Lemma align_up_least p align q :
  (0 < align)%Z -> (p <= q)%Z -> (q mod align = 0)%Z -> (align_up p align <= q)%Z.
Proof.
  intros Ha Hpq Hq. pose proof (Z.div_mod q align ltac:(lia)) as Hd. rewrite Hq in Hd.
  unfold align_up. assert ((p + align - 1) / align <= q / align)%Z; [|nia].
  rewrite Hd, Z.add_0_r, (Z.mul_comm align (q / align)).
  apply Z.lt_succ_r, Z.div_lt_upper_bound; [done|]. rewrite Z.div_mul by lia. nia.
Qed.

Lemma align_up_aligned p align : (0 < align)%Z -> (p mod align = 0)%Z -> align_up p align = p.
Proof.
  intros Ha Hp. pose proof (align_up_least p align p Ha ltac:(lia) Hp). pose proof (align_up_bounds p align Ha). lia.
Qed.

(** ** The blocks of one arena *)

Definition arena_ok (a : xArena) : Prop := (0 <= a_begin a <= a_pos a)%Z /\ (a_pos a <= a_end a < 2 ^ 64)%Z.

(** A request whose end stays inside the address space. *)
Definition in_space (a : xArena) (req : Z * Z) : Prop :=
  power_of_two req.2 /\ (0 <= req.1)%Z /\ (a_end a + req.2 + req.1 < 2 ^ 64)%Z.

Lemma alloc_aligned_spec a size align :
  arena_ok a -> in_space a (size, align) ->
  xArenaAllocAligned a size align =
    let p := align_up (a_pos a) align in
    if (a_end a <? p + size)%Z then None else Some (p, Arena (a_begin a) (p + size) (a_end a)).
Proof.
  intros [Hb He] (Hal & Hsz & Hs). cbn [fst snd] in *.
  assert (0 < align)%Z as Hpos by (destruct Hal as (k & Hk & ->); apply Z.pow_pos_nonneg; lia).
  unfold xArenaAllocAligned. rewrite (proj2 (Z.eqb_neq align 0)) by lia.
  rewrite arena_align_up_spec by (done || lia). cbn zeta. pose proof (align_up_bounds (a_pos a) align Hpos).
  unfold u64. rewrite Z.mod_small by lia. done.
Qed.

Lemma alloc_aligned_ok a size align p a' :
  arena_ok a -> in_space a (size, align) -> xArenaAllocAligned a size align = Some (p, a') ->
  p = align_up (a_pos a) align /\ a' = Arena (a_begin a) (p + size) (a_end a) /\
  (a_pos a <= p)%Z /\ (p + size <= a_end a)%Z /\ (p mod align = 0)%Z /\ arena_ok a'.
Proof.
  intros Ha Hs E. rewrite (alloc_aligned_spec a size align Ha Hs) in E. cbn zeta in E.
  destruct Hs as ((k & Hk & Hal) & Hsz & Hs). cbn [fst snd] in *.
  assert (0 < align)%Z as Hpos by (rewrite Hal; apply Z.pow_pos_nonneg; lia).
  destruct (Z.ltb_spec (a_end a) (align_up (a_pos a) align + size)); [done|]. injection E as <- <-.
  pose proof (align_up_bounds (a_pos a) align Hpos). destruct Ha.
  repeat split; cbn [a_begin a_pos a_end]; lia.
Qed.

(** Blocks laid out one after the other between two addresses. *)
Fixpoint laid_out (lo hi : Z) (bs : list (Z * Z)) : Prop :=
  match bs with
  | [] => (lo <= hi)%Z
  | (p, size) :: bs => (lo <= p)%Z /\ laid_out (p + size) hi bs
  end.

Lemma laid_out_hi lo hi hi' bs : laid_out lo hi bs -> (hi <= hi')%Z -> laid_out lo hi' bs.
Proof.
  revert lo. induction bs as [|[p size] bs IH]; intros lo; cbn [laid_out]; [lia|].
  intros [? ?] ?. split; [done|]. by apply IH.
Qed.

Lemma alloc_all_laid_out a reqs bs a' :
  arena_ok a -> Forall (in_space a) reqs -> alloc_all a reqs = Some (bs, a') ->
  laid_out (a_pos a) (a_pos a') bs /\ arena_ok a' /\ a_begin a' = a_begin a /\ a_end a' = a_end a /\
  Forall2 (fun b req => b.2 = req.1 /\ b.1 mod req.2 = 0)%Z bs reqs.
Proof.
  revert a bs. induction reqs as [|[size align] reqs IH]; intros a bs Ha Hs E; cbn [alloc_all] in E.
  { injection E as <- <-. cbn [laid_out]. repeat split; (done || apply Ha || lia). }
  inversion Hs as [|? ? Hs1 Hs2]; subst.
  destruct (xArenaAllocAligned a size align) as [[p a1]|] eqn:E1; [|done]. cbn [mbind option_bind] in E.
  destruct (alloc_all a1 reqs) as [[bs' a2]|] eqn:E2; [|done]. injection E as <- <-.
  destruct (alloc_aligned_ok a size align p a1 Ha Hs1 E1) as (_ & -> & ? & ? & ? & Hok).
  destruct (IH _ bs' Hok Hs2 E2) as (? & ? & ? & ? & ?). cbn [a_begin a_pos a_end laid_out] in *.
  do 4 (split; [by auto|]). by constructor.
Qed.

(** Two blocks share no byte. *)
Definition apart (b1 b2 : Z * Z) : Prop := (b1.1 + b1.2 <= b2.1)%Z \/ (b2.1 + b2.2 <= b1.1)%Z.

Lemma laid_out_inside lo hi bs i b :
  Forall (fun b => 0 <= b.2)%Z bs -> laid_out lo hi bs -> bs !! i = Some b ->
  (lo <= b.1)%Z /\ (b.1 + b.2 <= hi)%Z.
Proof.
  revert lo i. induction bs as [|[p size] bs IH]; intros lo i Hsz H Hi; [done|].
  inversion Hsz; subst. destruct H as [Hp H]. cbn [fst snd] in *.
  assert (p + size <= hi)%Z.
  { clear - H H3. revert H. generalize (p + size)%Z. induction bs as [|[q s] bs IH]; intros x H; [done|].
    inversion H3; subst. destruct H as [? H]. cbn [fst snd] in *. specialize (IH H4 _ H). lia. }
  destruct i as [|i]; cbn in Hi; [injection Hi as <-; cbn; lia|].
  destruct (IH (p + size)%Z i) as [? ?]; [done..|]. lia.
Qed.

Lemma laid_out_apart lo hi bs i j b c :
  Forall (fun b => 0 <= b.2)%Z bs -> laid_out lo hi bs -> i < j -> bs !! i = Some b -> bs !! j = Some c ->
  (b.1 + b.2 <= c.1)%Z.
Proof.
  revert lo i j. induction bs as [|[p size] bs IH]; intros lo i j Hsz H Hij Hi Hj; [done|].
  inversion Hsz; subst. destruct H as [Hp H]. destruct j as [|j]; [lia|]. cbn in Hj.
  destruct i as [|i]; cbn in Hi.
  - injection Hi as <-. cbn [fst snd]. by destruct (laid_out_inside _ _ _ _ _ H3 H Hj).
  - apply (IH (p + size)%Z i j); (done || lia).
Qed.



(** ** A request near the end of the address space *)

(** The bound test wraps: a request of almost [2^64] bytes is granted by
    an arena of 160 bytes, and the next block starts before the buffer. *)
Theorem arena_huge_request_granted :
  let a := Arena 4096 4112 4256 in
  xArenaAlloc a (2 ^ 64 - 4112) = Some (4112%Z, Arena 4096 0 4256) /\
  (p ← fst <$> xArenaAlloc (Arena 4096 0 4256) 8; Some (xArenaOwns a p)) = Some false.
Proof. split; vm_compute; reflexivity. Qed.

(** ** The default alignment, from an aligned buffer *)

(** [malloc] aligns for every type, and no buffer reaches the end of the
    address space. *)
Definition arena16 (a : xArena) : Prop := arena_ok a /\ (a_begin a mod 16 = 0)%Z /\ (a_end a < 2 ^ 62)%Z.

(** The offset where a block of the default alignment starts. *)
Definition pad16 (n : Z) : Z := align_up n 16.

Lemma pad16_bounds n : (n <= pad16 n < n + 16)%Z.
Proof. by destruct (align_up_bounds n 16). Qed.

Lemma align_up_shift b n : (b mod 16 = 0)%Z -> align_up (b + n) 16 = (b + pad16 n)%Z.
Proof.
  intros Hb. unfold pad16, align_up. pose proof (Z.div_mod b 16 ltac:(lia)) as Hd. rewrite Hb, Z.add_0_r in Hd.
  replace (b + n + 16 - 1)%Z with (n + 16 - 1 + (b / 16) * 16)%Z by lia.
  rewrite Z.div_add by lia. lia.
Qed.

Definition used (a : xArena) : Z := a_pos a - a_begin a.
Definition capacity (a : xArena) : Z := a_end a - a_begin a.

(** The arena with [n] bytes used. *)
Definition at_used (a : xArena) (n : Z) : xArena := Arena (a_begin a) (a_begin a + n) (a_end a).

Lemma used_at_used a n : used (at_used a n) = n.
Proof. unfold used, at_used. cbn. lia. Qed.

Lemma xArenaAlloc_used a size :
  arena16 a -> (0 <= size < 2 ^ 62)%Z ->
  snd <$> xArenaAlloc a size =
    let n := (pad16 (used a) + size)%Z in if (capacity a <? n)%Z then None else Some (at_used a n).
Proof.
  intros (Hok & Hal & He) Hs. unfold xArenaAlloc, XARENA_DEFAULT_ALIGN.
  rewrite alloc_aligned_spec; [|done|].
  - cbn zeta. pose proof (align_up_shift (a_begin a) (used a) Hal) as Hp.
    replace (a_begin a + used a)%Z with (a_pos a) in Hp by (unfold used; lia). rewrite Hp. unfold capacity.
    destruct (Z.ltb_spec (a_end a) (a_begin a + pad16 (used a) + size)).
    + rewrite (proj2 (Z.ltb_lt _ _)) by lia. done.
    + rewrite (proj2 (Z.ltb_ge _ _)) by lia. cbn. unfold at_used. do 2 f_equal. lia.
  - destruct Hok. split; [|cbn; lia]. exists 4%Z. split; [lia|reflexivity].
Qed.

Lemma arena16_at_used a n : arena16 a -> (0 <= n <= capacity a)%Z -> arena16 (at_used a n).
Proof. unfold arena16, arena_ok, at_used, capacity. cbn. lia. Qed.
