(* ===== verification/Errno.v ===== *)
(** * Errno: the error codes of the library ([libx/x/base/error.h])

    [xErrno] is the enumeration every fallible operation of the library
    returns; [xErrno_code] gives the C values, which is what the operations
    that return a negated code compute with. *)

From S2P Require Import Prelude.

Inductive xErrno : Type :=
  | xErrno_Ok | xErrno_Unknown | xErrno_InvalidArg | xErrno_NoMemory
  | xErrno_InvalidState | xErrno_SysError | xErrno_NotFound
  | xErrno_AlreadyExists | xErrno_Cancelled | xErrno_NotSupported
  | xErrno_DnsNotFound | xErrno_DnsTempFail | xErrno_DnsError
  | xErrno_Timeout | xErrno_Again | xErrno_Busy | xErrno_InProgress
  | xErrno_InvalidContext | xErrno_Pending | xErrno_PromptTooLong.

#[export] Instance xErrno_eq_dec : EqDecision xErrno.
Proof. solve_decision. Defined.

Definition xErrno_code (e : xErrno) : Z :=
  match e with
  | xErrno_Ok => 0 | xErrno_Unknown => 1 | xErrno_InvalidArg => 2
  | xErrno_NoMemory => 3 | xErrno_InvalidState => 4 | xErrno_SysError => 5
  | xErrno_NotFound => 6 | xErrno_AlreadyExists => 7 | xErrno_Cancelled => 8
  | xErrno_NotSupported => 9 | xErrno_DnsNotFound => 10
  | xErrno_DnsTempFail => 11 | xErrno_DnsError => 12 | xErrno_Timeout => 13
  | xErrno_Again => 14 | xErrno_Busy => 15 | xErrno_InProgress => 16
  | xErrno_InvalidContext => 17 | xErrno_Pending => 18
  | xErrno_PromptTooLong => 19
  end%Z.

(** Distinct errors have distinct codes, and only success is zero. *)
Lemma xErrno_code_inj e1 e2 : xErrno_code e1 = xErrno_code e2 -> e1 = e2.
Proof. destruct e1, e2; done. Qed.
