(* ===== verification/Bitmap.v ===== *)
(** * Bitmap: the general-purpose bitmap ([libx/x/base/bitmap.c])

    [xBitmap] is the C struct: the backing bytes ([None] is the NULL pointer),
    the bit count, the byte count and the ownership flag.  A [bm] argument is
    an [option]: [None] is a NULL handle.  Accesses to [data] are memory
    accesses, so the operations run in [ub].

    The contract is the list of bits [bits bm]; the theorems show that every
    operation on a well-formed bitmap is defined, keeps it well formed and is
    the list operation its name says, and where the two constructors break
    that contract. *)

From S2P Require Import Prelude Errno.
Local Open Scope Z_scope.

Record xBitmap := mkBitmap {
  data : option (list Z);
  nbits : Z;
  nbytes : Z;
  owned : bool;
}.

Definition set_data (bm : xBitmap) (d : list Z) : xBitmap :=
  mkBitmap (Some d) (nbits bm) (nbytes bm) (owned bm).

(** ** Helpers *)

Definition bits_to_bytes (n : Z) : Z := u32 (n + 7) / 8.

(** [(uint8_t)((1u << tail) - 1)], the mask of the [tail] low bits. *)
Definition low_mask (tail : Z) : Z := u8 (Z.shiftl 1 tail - 1).

(** [a & (uint8_t)~mask] on bytes. *)
Definition and_not (b mask : Z) : Z := Z.land b (255 - mask).

Definition get_byte (d : list Z) (i : Z) : ub Z := d !! Z.to_nat i.
Definition put_byte (d : list Z) (i v : Z) : ub (list Z) := mem_set d (Z.to_nat i) v.

Definition sanitise_tail (bm : xBitmap) : ub xBitmap :=
  let tail := nbits bm mod 8 in
  if negb (tail =? 0) && (0 <? nbytes bm) then
    d ← data bm;
    last ← get_byte d (nbytes bm - 1);
    d' ← put_byte d (nbytes bm - 1) (Z.land last (low_mask tail));
    Some (set_data bm d')
  else Some bm.

(** ** Lifecycle *)

Definition xBitmapInit (alloc : oracle) (bm : option xBitmap) (n : Z)
    : xErrno * option xBitmap :=
  match bm with
  | None => (xErrno_InvalidArg, bm)
  | Some _ =>
      if n =? 0 then (xErrno_InvalidArg, bm)
      else
        let nb := bits_to_bytes n in
        if alloc nb
        then (xErrno_Ok, Some (mkBitmap (Some (replicate (Z.to_nat nb) 0)) n nb true))
        else (xErrno_NoMemory, bm)
  end.

Definition xBitmapInitStatic (bm : option xBitmap) (d : option (list Z)) (nb n : Z)
    : xErrno * option xBitmap :=
  match bm, d with
  | Some _, Some d =>
      if n =? 0 then (xErrno_InvalidArg, bm)
      else if nb <? bits_to_bytes n then (xErrno_InvalidArg, bm)
      else (xErrno_Ok, Some (mkBitmap (Some d) n nb false))
  | _, _ => (xErrno_InvalidArg, bm)
  end.

Definition xBitmapFree (bm : option xBitmap) : option xBitmap :=
  match bm with
  | None => None
  | Some _ => Some (mkBitmap None 0 0 false)
  end.

(** ** Single-bit operations *)

(** The read-modify-write of byte [i / 8] all three mutators perform. *)
Definition update_byte (bm : xBitmap) (i : Z) (f : Z -> Z) : ub xBitmap :=
  d ← data bm;
  b ← get_byte d (i / 8);
  d' ← put_byte d (i / 8) (f b);
  Some (set_data bm d').

Definition xBitmapSet (bm : option xBitmap) (i : Z) : ub (option xBitmap) :=
  match bm with
  | None => Some bm
  | Some b =>
      if nbits b <=? i then Some bm
      else Some <$> update_byte b i (fun v => Z.lor v (u8 (Z.shiftl 1 (i mod 8))))
  end.

Definition xBitmapClear (bm : option xBitmap) (i : Z) : ub (option xBitmap) :=
  match bm with
  | None => Some bm
  | Some b =>
      if nbits b <=? i then Some bm
      else Some <$> update_byte b i (fun v => and_not v (u8 (Z.shiftl 1 (i mod 8))))
  end.

Definition xBitmapTest (bm : option xBitmap) (i : Z) : ub bool :=
  match bm with
  | None => Some false
  | Some b =>
      if nbits b <=? i then Some false
      else
        d ← data b;
        v ← get_byte d (i / 8);
        Some (negb (Z.land v (Z.shiftl 1 (i mod 8)) =? 0))
  end.

Definition xBitmapToggle (bm : option xBitmap) (i : Z) : ub (option xBitmap) :=
  match bm with
  | None => Some bm
  | Some b =>
      if nbits b <=? i then Some bm
      else Some <$> update_byte b i (fun v => Z.lxor v (u8 (Z.shiftl 1 (i mod 8))))
  end.

(** ** Bulk operations *)

(** [memset(bm->data, v, bm->nbytes)]. *)
Definition fill (bm : xBitmap) (v : Z) : ub xBitmap :=
  d ← data bm;
  d' ← mem_write d 0 (replicate (Z.to_nat (nbytes bm)) v);
  Some (set_data bm d').

Definition xBitmapSetAll (bm : option xBitmap) : ub (option xBitmap) :=
  match bm with
  | Some b =>
      match data b with
      | None => Some bm
      | Some _ => b' ← fill b 255; Some <$> sanitise_tail b'
      end
  | None => Some bm
  end.

Definition xBitmapClearAll (bm : option xBitmap) : ub (option xBitmap) :=
  match bm with
  | Some b =>
      match data b with
      | None => Some bm
      | Some _ => Some <$> fill b 0
      end
  | None => Some bm
  end.

(** Kernighan's loop; [None] when the fuel runs out before [b] is zero. *)
Fixpoint popcount8_loop (fuel : nat) (b c : Z) : option Z :=
  if b =? 0 then Some c
  else
    match fuel with
    | O => None
    | S fuel => popcount8_loop fuel (Z.land b (u8 (b - 1))) (u32 (c + 1))
    end.

(** A byte has eight bits to clear. *)
Definition popcount8 (b : Z) : option Z := popcount8_loop 8 b 0.

Definition count_bytes (d : list Z) (n : nat) : ub Z :=
  foldl (fun acc i =>
           count ← acc;
           b ← d !! i;
           p ← popcount8 b;
           Some (u32 (count + p)))
    (Some 0) (seq 0 n).

Definition xBitmapCount (bm : option xBitmap) : ub Z :=
  match bm with
  | Some b =>
      match data b with
      | None => Some 0
      | Some d =>
          count ← count_bytes d (Z.to_nat (nbytes b));
          let tail := nbits b mod 8 in
          if tail =? 0 then Some count
          else
            last ← get_byte d (nbytes b - 1);
            p ← popcount8 (and_not last (low_mask tail));
            Some (u32 (count - p))
      end
  | None => Some 0
  end.

(** The scan both predicates share: bytes [i], [i+1], ... up to [n] of them
    must all be [v]. *)
Fixpoint all_equal (d : list Z) (i n : nat) (v : Z) : ub bool :=
  match n with
  | O => Some true
  | S n =>
      b ← d !! i;
      if negb (b =? v) then Some false else all_equal d (S i) n v
  end.

Definition xBitmapFull (bm : option xBitmap) : ub bool :=
  match bm with
  | Some b =>
      match data b with
      | None => Some false
      | Some d =>
          ok ← all_equal d 0 (Z.to_nat (nbits b / 8)) 255;
          if negb ok then Some false
          else
            let tail := nbits b mod 8 in
            if tail =? 0 then Some true
            else
              let mask := low_mask tail in
              last ← get_byte d (nbytes b - 1);
              Some (Z.land last mask =? mask)
      end
  | None => Some false
  end.

Definition xBitmapEmpty (bm : option xBitmap) : ub bool :=
  match bm with
  | Some b =>
      match data b with
      | None => Some true
      | Some d =>
          ok ← all_equal d 0 (Z.to_nat (nbits b / 8)) 0;
          if negb ok then Some false
          else
            let tail := nbits b mod 8 in
            if tail =? 0 then Some true
            else
              let mask := low_mask tail in
              last ← get_byte d (nbytes b - 1);
              Some (Z.land last mask =? 0)
      end
  | None => Some true
  end.

(** [xBitmapData]: the returned pointer and the length stored through
    [nbytes]. *)
Definition xBitmapData (bm : option xBitmap) : option (list Z) * Z :=
  match bm with
  | Some b =>
      match data b with
      | None => (None, 0)
      | Some d => (Some d, nbytes b)
      end
  | None => (None, 0)
  end.

(** * The contract: a list of bits *)

(** What the bitmap means: the first [nbits] bits of its bytes, low bit first. *)
Definition bits (bm : xBitmap) : list bool :=
  match data bm with
  | Some d => take (Z.to_nat (nbits bm)) (d ≫= byte_bits)
  | None => []
  end.

(** The invariant [xBitmapInit] is meant to establish: exactly
    [ceil (nbits / 8)] bytes behind [data]. *)
Record wf (bm : xBitmap) (d : list Z) : Prop := {
  wf_data : data bm = Some d;
  wf_bytes : bytes_ok d;
  wf_len : Z.of_nat (length d) = nbytes bm;
  wf_pos : 0 < nbits bm < 2 ^ 32;
  wf_ceil : nbytes bm = (nbits bm + 7) / 8;
}.

Lemma wf_bounds bm d :
  wf bm d -> 8 * (nbytes bm - 1) < nbits bm <= 8 * nbytes bm /\ 0 < nbytes bm.
Proof. intros [_ _ _ ? ->]. Z.to_euclidean_division_equations. lia. Qed.

Lemma length_bits bm d : wf bm d -> Z.of_nat (length (bits bm)) = nbits bm.
Proof.
  intros W. destruct (wf_bounds _ _ W). destruct W as [Hd _ Hl ? _].
  unfold bits. rewrite Hd, length_take.
  rewrite (length_bind_uniform _ 8) by apply length_byte_bits. lia.
Qed.

Lemma lookup_bits bm d i :
  wf bm d -> 0 <= i < nbits bm ->
  bits bm !! Z.to_nat i =
    (d !! Z.to_nat (i / 8) ≫= fun b => Some (Z.testbit b (i mod 8))).
Proof.
  intros W Hi. unfold bits. rewrite (wf_data _ _ W), lookup_take_lt by lia.
  rewrite (lookup_bind_uniform _ 8) by (lia || apply length_byte_bits).
  replace (Z.to_nat (i / 8)) with (Z.to_nat i / 8)%nat
    by (rewrite Z2Nat.inj_div by lia; reflexivity).
  destruct (d !! _) as [b|]; [|done].
  etransitivity; [apply lookup_byte_bits, Nat.mod_upper_bound; lia|].
  rewrite Nat2Z.inj_mod, Z2Nat.id by lia. reflexivity.
Qed.

(** The byte holding bit [i] is inside the block. *)
Lemma byte_in_range bm d i :
  wf bm d -> 0 <= i < nbits bm ->
  (Z.to_nat (i / 8) < length d)%nat.
Proof.
  intros W Hi. destruct (wf_bounds _ _ W). destruct W as [_ _ Hl _ _].
  Z.to_euclidean_division_equations. lia.
Qed.

Lemma get_byte_lookup bm d i :
  wf bm d -> 0 <= i < nbits bm ->
  exists b, get_byte d (i / 8) = Some b /\ byte_ok b
            /\ bits bm !! Z.to_nat i = Some (Z.testbit b (i mod 8)).
Proof.
  intros W Hi. pose proof (byte_in_range _ _ _ W Hi) as Hr.
  destruct (lookup_lt_is_Some_2 _ _ Hr) as [b Hb].
  exists b. split; [done|]. split.
  - exact (Forall_lookup_1 _ _ _ _ (wf_bytes _ _ W) Hb).
  - rewrite (lookup_bits _ _ _ W Hi), Hb. done.
Qed.

(** ** The single-bit operations *)

(** [f] changes bit [k] of a byte to [g] of it and no other bit. *)
Definition sets_bit (k : Z) (f : Z -> Z) (g : bool -> bool) : Prop :=
  forall b, byte_ok b ->
    byte_ok (f b) /\
    forall j, 0 <= j < 8 ->
      Z.testbit (f b) j = if j =? k then g (Z.testbit b k) else Z.testbit b j.

Definition sets_bit_check (k : Z) (f : Z -> Z) (g : bool -> bool) : bool :=
  forallb (fun b =>
    bool_decide (byte_ok (f b)) &&
    forallb (fun j =>
      Bool.eqb (Z.testbit (f b) j)
        (if j =? k then g (Z.testbit b k) else Z.testbit b j)) (seqZ 0 8))
    all_bytes.

Lemma sets_bit_by_check k f g : sets_bit_check k f g = true -> sets_bit k f g.
Proof.
  intros H b Hb.
  pose proof (byte_exhaust _ H b Hb) as E. apply andb_prop in E as [E1 E2].
  split; [by apply bool_decide_eq_true in E1|].
  intros j Hj. apply eqb_prop.
  assert (j ∈ seqZ 0 8) as Hin by (apply elem_of_seqZ; lia).
  apply list_elem_of_In in Hin. exact (proj1 (forallb_forall _ _) E2 j Hin).
Qed.

Ltac eight k := let H := fresh in
  assert (H : k = 0 \/ k = 1 \/ k = 2 \/ k = 3 \/ k = 4 \/ k = 5 \/ k = 6 \/ k = 7) by lia;
  destruct H as [->|[->|[->|[->|[->|[->|[->| ->]]]]]]].

Lemma set_sets_bit k :
  0 <= k < 8 -> sets_bit k (fun v => Z.lor v (u8 (Z.shiftl 1 k))) (fun _ => true).
Proof. intros. apply sets_bit_by_check. eight k; vm_compute; reflexivity. Qed.

Lemma clear_sets_bit k :
  0 <= k < 8 -> sets_bit k (fun v => and_not v (u8 (Z.shiftl 1 k))) (fun _ => false).
Proof. intros. apply sets_bit_by_check. eight k; vm_compute; reflexivity. Qed.

Lemma toggle_sets_bit k :
  0 <= k < 8 -> sets_bit k (fun v => Z.lxor v (u8 (Z.shiftl 1 k))) negb.
Proof. intros. apply sets_bit_by_check. eight k; vm_compute; reflexivity. Qed.

Lemma update_byte_spec bm d i f g :
  wf bm d -> 0 <= i < nbits bm -> sets_bit (i mod 8) f g ->
  exists bm' d', update_byte bm i f = Some bm' /\ wf bm' d' /\ nbits bm' = nbits bm
    /\ bits bm' = alter g (Z.to_nat i) (bits bm).
Proof.
  intros W Hi Hf. destruct (get_byte_lookup _ _ _ W Hi) as (b & Hb & Hok & Hbit).
  pose proof (byte_in_range _ _ _ W Hi) as Hr.
  destruct (Hf b Hok) as [Hfok Hfbits].
  set (d' := <[Z.to_nat (i / 8) := f b]> d).
  exists (set_data bm d'), d'.
  assert (W' : wf (set_data bm d') d').
  { destruct W. split; simpl; try done.
    - by apply Forall_insert.
    - unfold d'. by rewrite length_insert. }
  split.
  { unfold update_byte. rewrite (wf_data _ _ W). simpl. rewrite Hb. simpl.
    unfold put_byte. by rewrite mem_set_Some. }
  split; [exact W'|]. split; [done|].
  apply list_eq. intros j.
  pose proof (length_bits _ _ W) as L. pose proof (length_bits _ _ W') as L'.
  simpl in L'.
  destruct (decide (Z.of_nat j < nbits bm)) as [Hj|Hj].
  2: { rewrite !lookup_ge_None_2; [done|rewrite length_alter; lia|lia]. }
  assert (Hj' : 0 <= Z.of_nat j < nbits bm) by lia.
  pose proof (lookup_bits _ _ _ W' Hj') as E'. pose proof (lookup_bits _ _ _ W Hj') as E.
  rewrite Nat2Z.id in E, E'. rewrite E'.
  destruct (decide (Z.of_nat j / 8 = i / 8)) as [Heq|Hne].
  - rewrite Heq. unfold d'. rewrite list_lookup_insert_eq by done. simpl.
    rewrite Hfbits by (apply Z.mod_pos_bound; lia).
    destruct (decide (Z.of_nat j = i)) as [<-|Hji].
    + rewrite Z.eqb_refl, Nat2Z.id, list_lookup_alter, decide_True by done.
      rewrite Nat2Z.id in Hbit. by rewrite Hbit.
    + assert ((Z.of_nat j mod 8 =? i mod 8) = false) as ->.
      { apply Z.eqb_neq. intros Hm. apply Hji.
        rewrite (Z.div_mod (Z.of_nat j) 8), (Z.div_mod i 8), Heq, Hm; lia. }
      rewrite list_lookup_alter, decide_False by lia.
      rewrite E, Heq. unfold get_byte in Hb. by rewrite Hb.
  - unfold d'. rewrite list_lookup_insert_ne.
    2: { intros Hc. apply Hne. apply Z2Nat.inj in Hc; Z.to_euclidean_division_equations; lia. }
    rewrite list_lookup_alter, decide_False by (intros Hc; apply Hne; f_equal; lia).
    by rewrite E.
Qed.

(** What a mutator must do to bit [i]: it is defined, keeps the bitmap well
    formed and applies [g] to that bit alone. *)
Definition mutates (op : option xBitmap -> Z -> ub (option xBitmap)) (g : bool -> bool)
    (bm : xBitmap) (i : Z) : Prop :=
  exists bm' d', op (Some bm) i = Some (Some bm') /\ wf bm' d'
    /\ nbits bm' = nbits bm /\ bits bm' = alter g (Z.to_nat i) (bits bm).

Ltac mutator lem :=
  match goal with
  | W : wf ?bm ?d, H : 0 <= ?i < nbits ?bm |- _ =>
      destruct (update_byte_spec _ _ i _ _ W H (lem (i mod 8) (Z.mod_pos_bound i 8 eq_refl)))
        as (bm' & d' & E & ? & ? & ?);
      exists bm', d'; rewrite (proj2 (Z.leb_gt _ _)) by lia; rewrite E; done
  end.

Lemma xBitmapSet_mutates bm d i :
  wf bm d -> 0 <= i < nbits bm -> mutates xBitmapSet (fun _ => true) bm i.
Proof. intros W Hi. unfold mutates, xBitmapSet. mutator set_sets_bit. Qed.

Lemma xBitmapClear_mutates bm d i :
  wf bm d -> 0 <= i < nbits bm -> mutates xBitmapClear (fun _ => false) bm i.
Proof. intros W Hi. unfold mutates, xBitmapClear. mutator clear_sets_bit. Qed.

Lemma xBitmapToggle_mutates bm d i :
  wf bm d -> 0 <= i < nbits bm -> mutates xBitmapToggle negb bm i.
Proof. intros W Hi. unfold mutates, xBitmapToggle. mutator toggle_sets_bit. Qed.

Lemma land_pow2_test b k :
  0 <= k -> negb (Z.land b (Z.shiftl 1 k) =? 0) = Z.testbit b k.
Proof.
  intros Hk. rewrite Z.shiftl_1_l. destruct (Z.testbit b k) eqn:E.
  - apply negb_true_iff, Z.eqb_neq. intros H0.
    apply (f_equal (fun z => Z.testbit z k)) in H0.
    rewrite Z.land_spec, E, Z.pow2_bits_true, Z.bits_0 in H0 by lia. done.
  - apply negb_false_iff, Z.eqb_eq. apply Z.bits_inj'. intros j Hj.
    rewrite Z.land_spec, Z.bits_0, Z.pow2_bits_eqb by lia.
    destruct (Z.eqb_spec k j) as [->|]; [by rewrite E|apply andb_false_r].
Qed.

Lemma xBitmapTest_bits bm d i :
  wf bm d -> 0 <= i < nbits bm -> xBitmapTest (Some bm) i = bits bm !! Z.to_nat i.
Proof.
  intros W Hi. destruct (get_byte_lookup _ _ _ W Hi) as (b & Hb & _ & ->).
  unfold xBitmapTest. rewrite (proj2 (Z.leb_gt _ _)), (wf_data _ _ W) by lia.
  simpl. rewrite Hb. simpl.
  rewrite land_pow2_test by (apply Z.mod_pos_bound; lia). done.
Qed.

(** On a well-formed bitmap, every in-range single-bit operation is free
    of undefined behaviour and is exactly the list operation its name says:
    set writes true, clear writes false, toggle negates bit [i] and nothing
    else, and test reads bit [i]. *)
Theorem bitmap_single_bit_refines bm d i :
  wf bm d -> 0 <= i < nbits bm ->
  mutates xBitmapSet (fun _ => true) bm i /\
  mutates xBitmapClear (fun _ => false) bm i /\
  mutates xBitmapToggle negb bm i /\
  xBitmapTest (Some bm) i = bits bm !! Z.to_nat i.
Proof.
  intros W Hi. split; [|split; [|split]].
  - by apply (xBitmapSet_mutates _ d).
  - by apply (xBitmapClear_mutates _ d).
  - by apply (xBitmapToggle_mutates _ d).
  - by apply (xBitmapTest_bits _ d).
Qed.

(** ** The bulk operations *)

(** A well-formed bitmap is its complete bytes plus, when [nbits] is not a
    multiple of eight, one partial byte. *)
Lemma wf_split bm d :
  wf bm d ->
  let tail := nbits bm mod 8 in
  (tail = 0 /\ length d = Z.to_nat (nbits bm / 8) /\ bits bm = d ≫= byte_bits) \/
  (0 < tail < 8 /\ exists init last, d = init ++ [last] /\ byte_ok last /\
     length init = Z.to_nat (nbits bm / 8) /\ nbytes bm - 1 = Z.of_nat (length init) /\
     bits bm = (init ≫= byte_bits) ++ take (Z.to_nat tail) (byte_bits last)).
Proof.
  intros W. destruct (wf_bounds _ _ W) as [B1 B2]. simpl.
  destruct (W) as [Hd Hb Hl Hp Hc]. unfold bits. rewrite Hd.
  pose proof (Z.div_mod (nbits bm) 8 ltac:(lia)) as Hdm.
  pose proof (Z.mod_pos_bound (nbits bm) 8 ltac:(lia)) as Hm.
  destruct (decide (nbits bm mod 8 = 0)) as [H0|H0]; [left|right].
  - split; [done|]. split; [lia|]. apply take_ge.
    rewrite (length_bind_uniform _ 8) by apply length_byte_bits. lia.
  - split; [lia|].
    destruct d as [|last init _] using rev_ind; [simpl in Hl; lia|].
    exists init, last. rewrite length_app in Hl. simpl in Hl.
    apply Forall_app in Hb as [_ Hlast]. inversion_clear Hlast.
    split; [done|]. split; [done|]. split; [lia|]. split; [lia|].
    rewrite bind_app, take_app, (length_bind_uniform _ 8) by apply length_byte_bits.
    rewrite take_ge by (rewrite (length_bind_uniform _ 8) by apply length_byte_bits; lia).
    f_equal. rewrite bind_singleton. f_equal. lia.
Qed.

(** Facts about one byte, decided on all of them. *)
Definition popcount_check (b : Z) : bool :=
  bool_decide (popcount8 b = Some (Z.of_nat (count_true (byte_bits b)))).

Lemma popcount8_spec b :
  byte_ok b -> popcount8 b = Some (Z.of_nat (count_true (byte_bits b))).
Proof.
  intros Hb. refine (bool_decide_eq_true_1 _ (byte_exhaust popcount_check _ b Hb)).
  vm_compute. reflexivity.
Qed.

Definition tail_check (b : Z) : bool :=
  forallb (fun t =>
    let k := Z.to_nat t in
    bool_decide (popcount8 (and_not b (low_mask t))
                 = Some (Z.of_nat (count_true (drop k (byte_bits b))))) &&
    Bool.eqb (Z.land b (low_mask t) =? low_mask t)
             (bool_decide (count_true (take k (byte_bits b)) = k)) &&
    Bool.eqb (Z.land b (low_mask t) =? 0)
             (bool_decide (count_true (take k (byte_bits b)) = 0%nat)) &&
    bool_decide (take k (byte_bits (Z.land b (low_mask t))) = take k (byte_bits b)) &&
    bool_decide (byte_ok (Z.land b (low_mask t))))
    (seqZ 1 7).

Lemma tail_facts b t :
  byte_ok b -> 0 < t < 8 ->
  let k := Z.to_nat t in
  popcount8 (and_not b (low_mask t)) = Some (Z.of_nat (count_true (drop k (byte_bits b)))) /\
  (Z.land b (low_mask t) =? low_mask t) = bool_decide (count_true (take k (byte_bits b)) = k) /\
  (Z.land b (low_mask t) =? 0) = bool_decide (count_true (take k (byte_bits b)) = 0%nat) /\
  take k (byte_bits (Z.land b (low_mask t))) = take k (byte_bits b) /\
  byte_ok (Z.land b (low_mask t)).
Proof.
  intros Hb Ht k.
  assert (E : tail_check b = true) by (apply byte_exhaust; [vm_compute; reflexivity|done]).
  unfold tail_check in E. rewrite forallb_forall in E.
  specialize (E t). rewrite <- list_elem_of_In, elem_of_seqZ in E.
  specialize (E ltac:(lia)). rewrite !andb_true_iff, !bool_decide_eq_true in E.
  destruct E as [[[[E1 E2%eqb_prop] E3%eqb_prop] E4] E5]. done.
Qed.

Lemma count_bytes_spec d n :
  bytes_ok d -> (n <= length d)%nat -> Z.of_nat (8 * length d) < 2 ^ 32 ->
  count_bytes d n = Some (Z.of_nat (count_true (take n d ≫= byte_bits))).
Proof.
  intros Hb Hn Hlt. unfold count_bytes. induction n as [|n IH]; [done|].
  rewrite seq_S, foldl_app, IH by lia. simpl.
  destruct (lookup_lt_is_Some_2 d n ltac:(lia)) as [b Eb]. rewrite Eb. simpl.
  rewrite popcount8_spec by exact (Forall_lookup_1 _ _ _ _ Hb Eb). simpl.
  rewrite (take_S_r _ _ _ Eb), bind_app, bind_singleton, count_true_app. f_equal.
  unfold u32. rewrite Z.mod_small; [lia|].
  pose proof (count_true_le ((take n d ≫= byte_bits) ++ byte_bits b)) as Hle.
  rewrite count_true_app, length_app, length_byte_bits, (length_bind_uniform _ 8),
    length_take in Hle by apply length_byte_bits. lia.
Qed.

(** on a well-formed bitmap [xBitmapCount] is defined and returns the
    number of set bits, although it first counts whole bytes and then
    subtracts the padding bits of the last one. *)
Theorem bitmap_count_spec bm d :
  wf bm d -> 8 * nbytes bm < 2 ^ 32 ->
  xBitmapCount (Some bm) = Some (Z.of_nat (count_true (bits bm))).
Proof.
  intros W Hlt. pose proof (wf_split _ _ W) as S. simpl in S.
  pose proof (wf_len _ _ W) as Hl.
  unfold xBitmapCount. rewrite (wf_data _ _ W).
  rewrite count_bytes_spec by (done || lia || exact (wf_bytes _ _ W)).
  rewrite take_ge by lia. simpl.
  destruct S as [(-> & _ & ->)|(Ht & init & last & -> & Hok & Hi & Hn & ->)].
  { rewrite Z.eqb_refl. done. }
  rewrite (proj2 (Z.eqb_neq _ _)) by lia.
  unfold get_byte. rewrite Hn, Nat2Z.id, lookup_app_r, Nat.sub_diag by lia. simpl.
  destruct (tail_facts _ _ Hok Ht) as (-> & _). simpl. f_equal.
  rewrite bind_app, bind_singleton, !count_true_app.
  rewrite <- (take_drop (Z.to_nat (nbits bm mod 8)) (byte_bits last)) at 1.
  rewrite count_true_app. unfold u32. rewrite Z.mod_small; [lia|].
  pose proof (count_true_le (init ≫= byte_bits)) as L1.
  pose proof (count_true_le (take (Z.to_nat (nbits bm mod 8)) (byte_bits last))) as L2.
  rewrite (length_bind_uniform _ 8) in L1 by apply length_byte_bits.
  rewrite length_take, length_byte_bits in L2. rewrite length_app in Hl. simpl in Hl. lia.
Qed.

Lemma bits_replicate n v :
  byte_ok v -> byte_bits v = replicate 8 (Z.testbit v 0) ->
  replicate n v ≫= byte_bits = replicate (8 * n) (Z.testbit v 0).
Proof.
  intros Hv Hr. induction n as [|n IH]; [done|].
  change (replicate (S n) v ≫= byte_bits) with (byte_bits v ++ (replicate n v ≫= byte_bits)).
  rewrite IH, Hr, <- replicate_add. f_equal. lia.
Qed.

Lemma fill_spec bm d v :
  wf bm d -> byte_ok v -> byte_bits v = replicate 8 (Z.testbit v 0) ->
  exists bm', fill bm v = Some bm' /\ wf bm' (replicate (length d) v)
    /\ nbits bm' = nbits bm
    /\ bits bm' = replicate (Z.to_nat (nbits bm)) (Z.testbit v 0).
Proof.
  intros W Hv Hr. destruct (wf_bounds _ _ W) as [B _]. destruct W as [Hd Hb Hl Hp Hc].
  exists (set_data bm (replicate (length d) v)). unfold fill. rewrite Hd. simpl.
  rewrite mem_write_Some by (rewrite length_replicate; lia).
  rewrite length_replicate, <- Hl, Nat2Z.id, Nat.add_0_l, drop_all, app_nil_r.
  split; [done|]. split; [|split; [done|]].
  - split; simpl; try done; [by apply Forall_replicate|by rewrite length_replicate].
  - unfold bits. simpl. rewrite bits_replicate, take_replicate by done. f_equal. lia.
Qed.

(** Clearing the padding bits leaves the meaning alone. *)
Lemma sanitise_tail_spec bm d :
  wf bm d ->
  exists bm' d', sanitise_tail bm = Some bm' /\ wf bm' d' /\ nbits bm' = nbits bm
    /\ bits bm' = bits bm.
Proof.
  intros W. destruct (wf_bounds _ _ W) as [B1 B2].
  pose proof (wf_split _ _ W) as S. simpl in S. unfold sanitise_tail.
  destruct S as [(-> & _ & _)|(Ht & init & last & -> & Hok & Hi & Hn & Hbits)].
  { rewrite Z.eqb_refl. by exists bm, d. }
  rewrite (proj2 (Z.eqb_neq _ _)), (proj2 (Z.ltb_lt _ _)) by lia. simpl.
  rewrite (wf_data _ _ W). simpl. unfold get_byte, put_byte.
  rewrite Hn, Nat2Z.id, lookup_app_r, Nat.sub_diag by lia. simpl.
  rewrite mem_set_Some by (rewrite length_app; simpl; lia). simpl.
  rewrite insert_app_r_alt, Nat.sub_diag by lia. simpl.
  destruct (tail_facts _ _ Hok Ht) as (_ & _ & _ & Et & Hok').
  set (last' := Z.land _ _) in *.
  exists (set_data bm (init ++ [last'])), (init ++ [last']).
  split; [done|].
  assert (W' : wf (set_data bm (init ++ [last'])) (init ++ [last'])).
  { destruct W as [_ Hb Hl Hp Hc]. apply Forall_app in Hb as [Hb _].
    split; simpl; try done; [apply Forall_app; auto|].
    rewrite length_app in *. done. }
  split; [exact W'|]. split; [done|].
  pose proof (wf_split _ _ W') as S. simpl in S.
  destruct S as [(H0 & _)|(_ & init' & last'' & E & _ & _ & _ & ->)]; [simpl in *; lia|].
  apply app_inj_tail in E as [<- <-]. rewrite Hbits. f_equal. done.
Qed.

Lemma all_equal_spec d i n v :
  (i + n <= length d)%nat ->
  all_equal d i n v = Some (bool_decide (Forall (eq v) (take n (drop i d)))).
Proof.
  revert i. induction n as [|n IH]; intros i Hi; simpl; [done|].
  destruct (lookup_lt_is_Some_2 d i ltac:(lia)) as [b Eb]. rewrite Eb. simpl.
  rewrite (drop_S _ _ _ Eb). simpl. rewrite IH by lia.
  destruct (Z.eqb_spec b v) as [->|Hne]; simpl; f_equal; symmetry.
  - apply bool_decide_ext. rewrite Forall_cons. intuition.
  - apply bool_decide_eq_false. rewrite Forall_cons. intuition congruence.
Qed.

Definition extreme_check (b : Z) : bool :=
  Bool.eqb (bool_decide (count_true (byte_bits b) = 8%nat)) (b =? 255) &&
  Bool.eqb (bool_decide (count_true (byte_bits b) = 0%nat)) (b =? 0).

Lemma extreme_bytes b :
  byte_ok b -> (count_true (byte_bits b) = 8%nat <-> 255 = b)
               /\ (count_true (byte_bits b) = 0%nat <-> 0 = b).
Proof.
  intros Hb.
  assert (E : extreme_check b = true) by (apply byte_exhaust; [vm_compute; reflexivity|done]).
  apply andb_prop in E as [E1%eqb_prop E2%eqb_prop]. split.
  - destruct (Z.eqb_spec b 255); [apply bool_decide_eq_true in E1|apply bool_decide_eq_false in E1]; intuition congruence.
  - destruct (Z.eqb_spec b 0); [apply bool_decide_eq_true in E2|apply bool_decide_eq_false in E2]; intuition congruence.
Qed.

Lemma bytes_all_ones d :
  bytes_ok d -> (count_true (d ≫= byte_bits) = (8 * length d)%nat <-> Forall (eq 255) d).
Proof.
  induction d as [|b d IH]; intros Hb; [split; auto|]. inversion_clear Hb as [|?? B1 B2].
  change ((b :: d) ≫= byte_bits) with (byte_bits b ++ (d ≫= byte_bits)).
  rewrite count_true_app, Forall_cons, <- IH by done. rewrite <- (proj1 (extreme_bytes b B1)).
  pose proof (count_true_le (byte_bits b)) as L1. rewrite length_byte_bits in L1.
  pose proof (count_true_le (d ≫= byte_bits)) as L2.
  rewrite (length_bind_uniform _ 8) in L2 by apply length_byte_bits. simpl. lia.
Qed.

Lemma bytes_all_zero d :
  bytes_ok d -> (count_true (d ≫= byte_bits) = 0%nat <-> Forall (eq 0) d).
Proof.
  induction d as [|b d IH]; intros Hb; [split; auto|]. inversion_clear Hb as [|?? B1 B2].
  change ((b :: d) ≫= byte_bits) with (byte_bits b ++ (d ≫= byte_bits)).
  rewrite count_true_app, Forall_cons, <- IH by done. rewrite <- (proj2 (extreme_bytes b B1)).
  simpl. lia.
Qed.

(** Both predicates scan the complete bytes and mask the partial one. *)
Ltac scan_partial :=
  rewrite (proj2 (Z.eqb_neq _ _)) by lia;
  unfold get_byte;
  match goal with H : nbytes _ - 1 = _ |- _ => rewrite H end;
  rewrite Nat2Z.id, lookup_app_r, Nat.sub_diag by lia; simpl.

Lemma xBitmapFull_spec bm d :
  wf bm d ->
  xBitmapFull (Some bm) = Some (bool_decide (count_true (bits bm) = Z.to_nat (nbits bm))).
Proof.
  intros W. pose proof (wf_split _ _ W) as S. simpl in S. pose proof (wf_bytes _ _ W) as Hb.
  unfold xBitmapFull. rewrite (wf_data _ _ W). pose proof (wf_bounds _ _ W) as B.
  pose proof (Z.div_mod (nbits bm) 8 ltac:(lia)).
  destruct S as [(Ht & Hl & ->)|(Ht & init & last & -> & Hok & Hi & Hn & ->)].
  - rewrite all_equal_spec by lia. rewrite drop_0, take_ge by lia. rewrite Ht. simpl.
    rewrite (bool_decide_ext (count_true _ = _) (Forall (eq 255) d))
      by (rewrite <- bytes_all_ones by done; lia).
    by destruct (bool_decide _).
  - apply Forall_app in Hb as [Hb _]. rewrite all_equal_spec by (rewrite length_app; simpl; lia).
    rewrite drop_0, take_app_length' by lia. simpl. scan_partial.
    destruct (tail_facts _ _ Hok Ht) as (_ & -> & _).
    rewrite (bool_decide_ext _ _ (iff_sym (bytes_all_ones _ Hb))), count_true_app.
    pose proof (count_true_le (init ≫= byte_bits)) as L1.
    pose proof (count_true_le (take (Z.to_nat (nbits bm mod 8)) (byte_bits last))) as L2.
    rewrite (length_bind_uniform _ 8) in L1 by apply length_byte_bits.
    rewrite length_take, length_byte_bits in L2.
    repeat case_bool_decide; simpl; done || lia.
Qed.

Lemma xBitmapEmpty_spec bm d :
  wf bm d -> xBitmapEmpty (Some bm) = Some (bool_decide (count_true (bits bm) = 0%nat)).
Proof.
  intros W. pose proof (wf_split _ _ W) as S. simpl in S. pose proof (wf_bytes _ _ W) as Hb.
  unfold xBitmapEmpty. rewrite (wf_data _ _ W). pose proof (wf_bounds _ _ W) as B.
  pose proof (Z.div_mod (nbits bm) 8 ltac:(lia)).
  destruct S as [(Ht & Hl & ->)|(Ht & init & last & -> & Hok & Hi & Hn & ->)].
  - rewrite all_equal_spec by lia. rewrite drop_0, take_ge by lia. rewrite Ht. simpl.
    rewrite (bool_decide_ext _ _ (bytes_all_zero _ Hb)). by destruct (bool_decide _).
  - apply Forall_app in Hb as [Hb _]. rewrite all_equal_spec by (rewrite length_app; simpl; lia).
    rewrite drop_0, take_app_length' by lia. simpl. scan_partial.
    destruct (tail_facts _ _ Hok Ht) as (_ & _ & -> & _).
    rewrite (bool_decide_ext _ _ (iff_sym (bytes_all_zero _ Hb))), count_true_app.
    repeat case_bool_decide; simpl; done || lia.
Qed.

(** The bulk operations agree with the list of bits: set-all makes every
    bit true and clear-all every bit false, keeping the bitmap well formed;
    full and empty hold exactly when all bits, respectively no bits, are set. *)
Lemma bitmap_bulk_refines bm d :
  wf bm d ->
  (exists bm' d', xBitmapSetAll (Some bm) = Some (Some bm') /\ wf bm' d' /\
     bits bm' = replicate (Z.to_nat (nbits bm)) true) /\
  (exists bm' d', xBitmapClearAll (Some bm) = Some (Some bm') /\ wf bm' d' /\
     bits bm' = replicate (Z.to_nat (nbits bm)) false) /\
  xBitmapFull (Some bm)
    = Some (bool_decide (count_true (bits bm) = Z.to_nat (nbits bm))) /\
  xBitmapEmpty (Some bm) = Some (bool_decide (count_true (bits bm) = 0%nat)).
Proof.
  intros W. unfold xBitmapSetAll, xBitmapClearAll. rewrite (wf_data _ _ W).
  split; [|split; [|split]].
  - destruct (fill_spec _ _ 255 W) as (b1 & -> & W1 & N1 & B1); [by vm_compute..|].
    simpl. destruct (sanitise_tail_spec _ _ W1) as (b2 & d2 & -> & W2 & _ & B2).
    exists b2, d2. by rewrite B2.
  - destruct (fill_spec _ _ 0 W) as (b1 & -> & W1 & N1 & B1); [by vm_compute..|].
    by exists b1, (replicate (length d) 0).
  - by apply (xBitmapFull_spec _ d).
  - by apply (xBitmapEmpty_spec _ d).
Qed.

(** ** The constructors *)

Lemma bits_to_bytes_exact n : 0 < n <= 2 ^ 32 - 8 -> bits_to_bytes n = (n + 7) / 8.
Proof. intros. unfold bits_to_bytes, u32. rewrite Z.mod_small by lia. done. Qed.

(** [xBitmapInit] either reports the failed allocation or establishes the
    invariant with every bit clear, for every bit count up to [2^32 - 8]. *)
Lemma xBitmapInit_wf alloc bm n :
  0 < n <= 2 ^ 32 - 8 -> alloc (bits_to_bytes n) = true ->
  exists bm' d, xBitmapInit alloc (Some bm) n = (xErrno_Ok, Some bm') /\ wf bm' d
    /\ nbits bm' = n /\ bits bm' = replicate (Z.to_nat n) false.
Proof.
  intros Hn Ha. unfold xBitmapInit. rewrite (proj2 (Z.eqb_neq _ _)), Ha by lia.
  pose proof (bits_to_bytes_exact _ Hn) as E. rewrite E.
  assert (0 <= (n + 7) / 8 /\ n <= 8 * ((n + 7) / 8)) as [H1 H2]
    by (Z.to_euclidean_division_equations; lia).
  eexists _, (replicate (Z.to_nat ((n + 7) / 8)) 0). split; [done|]. split; [|split; [done|]].
  - split; simpl; try lia; try done; [by apply Forall_replicate|].
    rewrite length_replicate. lia.
  - unfold bits. simpl. rewrite bits_replicate, take_replicate by (by vm_compute).
    f_equal. simpl. lia.
Qed.

(** Above that bound the byte count wraps to zero: the call succeeds and the
    first write to the new bitmap is out of bounds. *)
Lemma xBitmapInit_wraps :
  exists bm', xBitmapInit (fun _ => true) (Some (mkBitmap None 0 0 false)) (2 ^ 32 - 1)
              = (xErrno_Ok, Some bm')
    /\ nbytes bm' = 0 /\ xBitmapSet (Some bm') 0 = None.
Proof. eexists. split; [vm_compute; reflexivity|]. by vm_compute. Qed.

(** [xBitmapInitStatic] accepts a buffer longer than [ceil (nbits / 8)], but
    set-all fills all of it and count subtracts the padding of the last byte
    only: twelve bits are counted in a four-bit bitmap. *)
Lemma xBitmapInitStatic_oversized :
  exists bm, xBitmapInitStatic (Some (mkBitmap None 0 0 false)) (Some [0; 0]) 2 4
             = (xErrno_Ok, Some bm)
    /\ (xBitmapSetAll (Some bm) ≫= xBitmapCount) = Some 12.
Proof. eexists. split; [vm_compute; reflexivity|]. by vm_compute. Qed.

(** ** Witnesses: a twelve-bit bitmap *)

Definition demo : xBitmap := mkBitmap (Some [165; 9]) 12 2 true.

Lemma demo_wf : wf demo [165; 9].
Proof. split; simpl; try done; try lia. repeat constructor; done. Qed.

Lemma bitmap_single_bit_refines_witness :
  wf demo [165; 9] /\ mutates xBitmapSet (fun _ => true) demo 9 /\
  xBitmapTest (Some demo) 9 = Some false.
Proof.
  split; [apply demo_wf|].
  destruct (bitmap_single_bit_refines demo [165; 9] 9 demo_wf ltac:(simpl; lia))
    as (H & _ & _ & E).
  split; [exact H|]. rewrite E. vm_compute. reflexivity.
Defined.

Lemma bitmap_count_spec_witness : wf demo [165; 9] /\ xBitmapCount (Some demo) = Some 6.
Proof.
  split; [apply demo_wf|].
  rewrite (bitmap_count_spec demo [165; 9] demo_wf ltac:(simpl; lia)).
  vm_compute. reflexivity.
Defined.

Lemma bitmap_bulk_refines_witness :
  wf demo [165; 9] /\ xBitmapFull (Some demo) = Some false.
Proof.
  split; [apply demo_wf|].
  destruct (bitmap_bulk_refines demo [165; 9] demo_wf) as (_ & _ & E & _).
  rewrite E. vm_compute. reflexivity.
Defined.
