(* ===== verification/Heap.v ===== *)
(** * Heap: the generic min-heap ([libx/x/base/heap.c])

    [xHeap_] is the C struct with the comparison callback as a parameter of
    the section.  An element is the pointer the caller pushed; [setidx], the
    callback that stores an element's index inside the element, is the update
    of the map [idx] from elements to their recorded index (the timers of the
    event loop use it to cancel in logarithmic time).  Array accesses run in
    [ub]; the loops carry fuel and run out of it as [None], so every theorem
    that says an operation returns also says that its loops terminate. *)

From S2P Require Import Prelude Errno.

Record xHeap_ := mkHeap {
  data : list Z;
  size : nat;
  cap : nat;
  idx : gmap Z nat;
}.

Definition HEAP_DEFAULT_CAP : nat := 16.

Definition setidx (h : xHeap_) (elem : Z) (i : nat) : xHeap_ :=
  mkHeap (data h) (size h) (cap h) (<[elem := i]> (idx h)).

Definition with_data (h : xHeap_) (d : list Z) : xHeap_ :=
  mkHeap d (size h) (cap h) (idx h).

Definition with_size (h : xHeap_) (n : nat) : xHeap_ :=
  mkHeap (data h) n (cap h) (idx h).

Definition parent (j : nat) : nat := (j - 1) / 2.
#[global] Arguments parent : simpl never.

Section heap.
(** [cmp a b] is the C comparison: negative, zero or positive. *)
Context (cmp : Z -> Z -> Z).

Definition swap (h : xHeap_) (i j : nat) : ub xHeap_ :=
  a ← data h !! i;
  b ← data h !! j;
  d1 ← mem_set (data h) i b;
  d2 ← mem_set d1 j a;
  Some (setidx (setidx (with_data h d2) b i) a j).

Definition less (h : xHeap_) (i j : nat) : ub bool :=
  a ← data h !! i;
  b ← data h !! j;
  Some (cmp a b <? 0)%Z.

Fixpoint sift_up_loop (fuel : nat) (h : xHeap_) (i : nat) : ub xHeap_ :=
  match fuel with
  | O => None
  | S fuel =>
      if decide (i = 0) then Some h
      else
        lt ← less h i (parent i);
        if (lt : bool) then
          h' ← swap h i (parent i);
          sift_up_loop fuel h' (parent i)
        else Some h
  end.

(** The index decreases, so [i + 1] rounds suffice. *)
Definition sift_up (h : xHeap_) (i : nat) : ub xHeap_ := sift_up_loop (S i) h i.

(** [if (c < h->size && cmp(data[c], data[smallest]) < 0) smallest = c]. *)
Definition pick (h : xHeap_) (smallest c : nat) : ub nat :=
  if decide (c < size h) then
    lt ← less h c smallest;
    Some (if (lt : bool) then c else smallest)
  else Some smallest.

Fixpoint sift_down_loop (fuel : nat) (h : xHeap_) (i : nat) : ub xHeap_ :=
  match fuel with
  | O => None
  | S fuel =>
      s1 ← pick h i (2 * i + 1);
      smallest ← pick h s1 (2 * i + 2);
      if decide (smallest = i) then Some h
      else
        h' ← swap h i smallest;
        sift_down_loop fuel h' smallest
  end.

(** The index increases below [size], so [size] rounds suffice. *)
Definition sift_down (h : xHeap_) (i : nat) : ub xHeap_ := sift_down_loop (S (size h)) h i.

Definition next_cap (h : xHeap_) : nat :=
  if decide (cap h = 0) then HEAP_DEFAULT_CAP else cap h * 2.

(** [realloc] keeps the old slots; the new ones hold garbage, here zero. *)
Definition ensure_cap (alloc : oracle) (h : xHeap_) : bool * xHeap_ :=
  if decide (size h < cap h) then (true, h)
  else
    let new_cap := next_cap h in
    if alloc (8 * Z.of_nat new_cap)%Z
    then (true, mkHeap (data h ++ replicate (new_cap - cap h) 0%Z) (size h) new_cap (idx h))
    else (false, h).

(** ** Public API; [None] as a handle is NULL, the element zero is NULL *)

(** [callbacks] says whether both callbacks are given. *)
Definition xHeapCreate (alloc : oracle) (callbacks : bool) (c : nat) : option xHeap_ :=
  let c := if decide (c = 0) then HEAP_DEFAULT_CAP else c in
  if callbacks && alloc 40%Z && alloc (8 * Z.of_nat c)%Z
  then Some (mkHeap (replicate c 0%Z) 0 c ∅)
  else None.

Definition xHeapPush (alloc : oracle) (h : option xHeap_) (elem : Z)
    : ub (xErrno * option xHeap_) :=
  match h with
  | None => Some (xErrno_InvalidArg, h)
  | Some h0 =>
      if decide (elem = 0%Z) then Some (xErrno_InvalidArg, h)
      else
        match ensure_cap alloc h0 with
        | (false, h1) => Some (xErrno_NoMemory, Some h1)
        | (true, h1) =>
            let i := size h1 in
            d ← mem_set (data h1) i elem;
            let h2 := with_size (setidx (with_data h1 d) elem i) (S (size h1)) in
            h3 ← sift_up h2 i;
            Some (xErrno_Ok, Some h3)
        end
  end.

Definition xHeapPeek (h : option xHeap_) : ub Z :=
  match h with
  | None => Some 0%Z
  | Some h => if decide (size h = 0) then Some 0%Z else data h !! 0
  end.

Definition xHeapPop (h : option xHeap_) : ub (Z * option xHeap_) :=
  match h with
  | None => Some (0%Z, h)
  | Some h0 =>
      if decide (size h0 = 0) then Some (0%Z, h)
      else
        min ← data h0 !! 0;
        let h1 := with_size h0 (size h0 - 1) in
        if decide (0 < size h1) then
          last ← data h1 !! size h1;
          d ← mem_set (data h1) 0 last;
          h2 ← sift_down (setidx (with_data h1 d) last 0) 0;
          Some (min, Some h2)
        else Some (min, Some h1)
  end.

Definition xHeapRemove (h : option xHeap_) (i : nat) : ub (Z * option xHeap_) :=
  match h with
  | None => Some (0%Z, h)
  | Some h0 =>
      if decide (size h0 <= i) then Some (0%Z, h)
      else
        elem ← data h0 !! i;
        let h1 := with_size h0 (size h0 - 1) in
        if decide (i = size h1) then Some (elem, Some h1)
        else
          last ← data h1 !! size h1;
          d ← mem_set (data h1) i last;
          h2 ← sift_up (setidx (with_data h1 d) last i) i;
          h3 ← sift_down h2 i;
          Some (elem, Some h3)
  end.

Definition xHeapUpdate (h : option xHeap_) (i : nat) : ub (xErrno * option xHeap_) :=
  match h with
  | None => Some (xErrno_InvalidArg, h)
  | Some h0 =>
      if decide (size h0 <= i) then Some (xErrno_InvalidArg, h)
      else
        h1 ← sift_up h0 i;
        h2 ← sift_down h1 i;
        Some (xErrno_Ok, Some h2)
  end.

Definition xHeapSize (h : option xHeap_) : nat :=
  match h with None => 0 | Some h => size h end.

End heap.

(** * What the comparison must satisfy

    [x] may sit above [y] when [y] does not compare below [x]; the callback
    must be the strict part of a total preorder. *)
Class CmpOk (cmp : Z -> Z -> Z) : Prop := {
  cmp_asym a b : (cmp a b < 0)%Z -> (0 <= cmp b a)%Z;
  cmp_trans a b c : (0 <= cmp b a)%Z -> (0 <= cmp c b)%Z -> (0 <= cmp c a)%Z;
}.

(** Compute the record projections and the [ub] binds, nothing else. *)
Ltac fields := unfold setidx, with_data, with_size; cbn [mbind option_bind data size cap idx].
Ltac fields_in H :=
  unfold setidx, with_data, with_size in H; cbn [mbind option_bind data size cap idx] in H.

Section order.
Context (cmp : Z -> Z -> Z) `{!CmpOk cmp}.
Implicit Types (d : list Z) (h : xHeap_).

Definition above (x y : Z) : Prop := (0 <= cmp y x)%Z.

(** The entries at [i] and [j], when both exist, are in order. *)
Definition ordered_at d (i j : nat) : Prop :=
  forall a b, d !! i = Some a -> d !! j = Some b -> above a b.

(** The heap property of the first [n] slots. *)
Definition heap_ordered d (n : nat) : Prop :=
  forall j, 0 < j < n -> ordered_at d (parent j) j.

(** The property except around [i]: [i] may be out of order with its parent
    and with its children, but its children are in order with its parent. *)
Definition almost d (n i : nat) : Prop :=
  (forall j, 0 < j < n -> j <> i -> parent j <> i -> ordered_at d (parent j) j) /\
  (forall j, 0 < j < n -> 0 < i -> parent j = i -> ordered_at d (parent i) j).

(** [i] may only be out of order with its parent. *)
Definition up_broken d (n i : nat) : Prop :=
  (forall j, 0 < j < n -> j <> i -> ordered_at d (parent j) j) /\
  (forall j, 0 < j < n -> 0 < i -> parent j = i -> ordered_at d (parent i) j).

(** [i] may only be out of order with its children. *)
Definition down_broken d (n i : nat) : Prop :=
  (forall j, 0 < j < n -> parent j <> i -> ordered_at d (parent j) j) /\
  (forall j, 0 < j < n -> 0 < i -> parent j = i -> ordered_at d (parent i) j).

(** Every live element's recorded index is where it is. *)
Definition tracked h : Prop :=
  forall i a, i < size h -> data h !! i = Some a -> idx h !! a = Some i.

Record wf h : Prop := {
  wf_cap : length (data h) = cap h;
  wf_size : size h <= cap h;
  wf_tracked : tracked h;
}.

Definition live h : list Z := take (size h) (data h).

Lemma parent_lt j : 0 < j -> parent j < j.
Proof. intros. unfold parent. apply Nat.Div0.div_lt_upper_bound. lia. Qed.

Lemma parent_children i j : 0 < j -> parent j = i <-> j = 2 * i + 1 \/ j = 2 * i + 2.
Proof.
  intros. unfold parent. pose proof (Nat.div_mod_eq (j - 1) 2).
  pose proof (Nat.mod_upper_bound (j - 1) 2). lia.
Qed.

Lemma above_refl a : above a a.
Proof.
  unfold above. destruct (decide (0 <= cmp a a)%Z); [done|].
  apply cmp_asym. lia.
Qed.

Lemma above_of_less a b : (cmp a b < 0)%Z -> above a b.
Proof. apply cmp_asym. Qed.

Lemma above_trans a b c : above a b -> above b c -> above a c.
Proof. apply cmp_trans. Qed.

(** ** Swapping two slots *)

Definition swapped d (i j : nat) (a b : Z) : list Z := <[j := a]> (<[i := b]> d).

Lemma lookup_swapped d i j a b k :
  d !! i = Some a -> d !! j = Some b -> i <> j ->
  swapped d i j a b !! k = if decide (k = i) then Some b else if decide (k = j) then Some a else d !! k.
Proof.
  intros Hi Hj Hne. pose proof (lookup_lt_Some _ _ _ Hi). pose proof (lookup_lt_Some _ _ _ Hj).
  unfold swapped. destruct (decide (k = i)) as [->|Hki].
  - by rewrite list_lookup_insert_ne, list_lookup_insert_eq by (done || lia).
  - destruct (decide (k = j)) as [->|Hkj].
    + by rewrite list_lookup_insert_eq by (rewrite length_insert; lia).
    + by rewrite !list_lookup_insert_ne by done.
Qed.

Lemma insert_perm d i a b : d !! i = Some a -> a :: <[i := b]> d ≡ₚ b :: d.
Proof.
  revert i. induction d as [|x d IH]; intros [|i] Hi; simplify_eq/=; [constructor|].
  rewrite Permutation_swap, (IH i Hi). apply Permutation_swap.
Qed.

Lemma swapped_perm d i j a b :
  d !! i = Some a -> d !! j = Some b -> swapped d i j a b ≡ₚ d.
Proof.
  intros Hi Hj. unfold swapped. pose proof (lookup_lt_Some _ _ _ Hi).
  apply (Permutation_cons_inv (a := b)). etransitivity; [apply insert_perm|by apply insert_perm].
  rewrite list_lookup_insert. case_decide; [done|].
  destruct (decide (i = j)) as [->|]; naive_solver.
Qed.

Lemma live_lookup h i : wf h -> i < size h -> exists a, data h !! i = Some a.
Proof. intros [? ? _] ?. apply lookup_lt_is_Some_2. lia. Qed.

(** The same elements, still tracked. *)
Record same h h' : Prop := {
  same_wf : wf h';
  same_size : size h' = size h;
  same_cap : cap h' = cap h;
  same_live : live h' ≡ₚ live h;
  same_idx : forall x, is_Some (idx h' !! x) <-> is_Some (idx h !! x);
}.

Lemma same_refl h : wf h -> same h h.
Proof. by split. Qed.

Lemma same_trans h1 h2 h3 : same h1 h2 -> same h2 h3 -> same h1 h3.
Proof.
  intros [W1 S1 C1 L1 I1] [W2 S2 C2 L2 I2]. split; [done|congruence|congruence|by etransitivity|]. intros x. by rewrite I2.
Qed.

Lemma swap_spec h i j a b :
  wf h -> i < size h -> j < size h -> i <> j ->
  data h !! i = Some a -> data h !! j = Some b ->
  exists h', swap h i j = Some h' /\ same h h' /\ data h' = swapped (data h) i j a b.
Proof.
  intros W Hi Hj Hne Ea Eb. pose proof W as [Wc Ws Wt]. unfold swap.
  rewrite Ea. simpl. rewrite Eb. simpl.
  rewrite mem_set_Some by lia. simpl. rewrite mem_set_Some by (rewrite length_insert; lia). simpl.
  eexists. split; [done|]. split; [|done].
  split; simpl; try done.
  - split; simpl; [by rewrite !length_insert|done|].
    intros k c Hk. simpl in *. change (<[j:=a]> (<[i:=b]> (data h))) with (swapped (data h) i j a b).
    rewrite lookup_swapped by done.
    assert (a <> b) as Hab.
    { intros ->. pose proof (Wt _ _ Hi Ea). pose proof (Wt _ _ Hj Eb). congruence. }
    repeat case_decide; intros; simplify_eq.
    + rewrite lookup_insert_ne, lookup_insert_eq by done. done.
    + apply lookup_insert_eq.
    + pose proof (Wt _ _ Hk H1) as Hc. rewrite !lookup_insert_ne; [done|..].
      * intros ->. pose proof (Wt _ _ Hj Eb). congruence.
      * intros ->. pose proof (Wt _ _ Hi Ea). congruence.
  - unfold live. simpl. rewrite !take_insert_lt by lia.
    change (swapped (take (size h) (data h)) i j a b ≡ₚ take (size h) (data h)).
    apply swapped_perm; by rewrite lookup_take_lt by lia.
  - intros x. pose proof (Wt _ _ Hi Ea). pose proof (Wt _ _ Hj Eb). destruct (decide (x = a)) as [->|Ha].
    { rewrite lookup_insert_eq. naive_solver. }
    rewrite lookup_insert_ne by done. destruct (decide (x = b)) as [->|Hb]; [rewrite lookup_insert_eq; naive_solver|].
    by rewrite lookup_insert_ne.
Qed.

(** ** Sifting up *)

Lemma up_broken_swap d n i a b :
  0 < i < n -> d !! i = Some a -> d !! parent i = Some b -> (cmp a b < 0)%Z ->
  up_broken d n i -> up_broken (swapped d i (parent i) a b) n (parent i).
Proof.
  intros Hi Ea Eb Hlt [H1 H2]. pose proof (parent_lt i ltac:(lia)) as Hp.
  pose proof (above_of_less _ _ Hlt) as Hab.
  assert (L : forall k, swapped d i (parent i) a b !! k =
     if decide (k = i) then Some b else if decide (k = parent i) then Some a else d !! k)
    by (intros; apply lookup_swapped; done || lia).
  split; intros j Hj; unfold ordered_at; intros; rewrite L in *.
  - pose proof (parent_lt j ltac:(lia)). repeat case_decide; simplify_eq; try lia; auto.
    + exact (H2 j ltac:(lia) ltac:(lia) ltac:(done) _ _ Eb ltac:(done)).
    + apply (above_trans _ b); [done|].
      eapply (H1 j); [lia|done| |done]. congruence.
    + by eapply (H1 j).
  - pose proof (parent_lt (parent i) ltac:(lia)). repeat case_decide; simplify_eq; try lia.
    + by eapply (H1 (parent i)); [lia|lia|..].
    + apply (above_trans _ b).
      * by eapply (H1 (parent i)); [lia|lia|..].
      * eapply (H1 j); [lia|done| |done]. congruence.
Qed.

Lemma ordered_of_up_broken d n i :
  up_broken d n i -> (0 < i < n -> ordered_at d (parent i) i) -> heap_ordered d n.
Proof. intros [H1 _] H j Hj. destruct (decide (j = i)) as [->|]; auto. Qed.

Lemma sift_up_loop_spec fuel h i :
  i < fuel -> wf h -> i < size h -> up_broken (data h) (size h) i ->
  exists h', sift_up_loop cmp fuel h i = Some h' /\ same h h'
    /\ heap_ordered (data h') (size h').
Proof.
  revert h i. induction fuel as [|fuel IH]; intros h i Hf W Hi Hup; [lia|]. simpl.
  case_decide as H0.
  { subst i. exists h. split; [done|]. split; [by apply same_refl|].
    eapply ordered_of_up_broken; [done|lia]. }
  pose proof (parent_lt i ltac:(lia)) as Hp.
  destruct (live_lookup h i W Hi) as [a Ea].
  destruct (live_lookup h (parent i) W ltac:(lia)) as [b Eb].
  unfold less. rewrite Ea. simpl. rewrite Eb. simpl.
  destruct (Z.ltb_spec (cmp a b) 0).
  - destruct (swap_spec h i (parent i) a b) as (h1 & -> & S1 & D1); try done; try lia. simpl.
    destruct (IH h1 (parent i)) as (h2 & E2 & S2 & O2).
    + lia.
    + apply S1.
    + rewrite (same_size _ _ S1). lia.
    + rewrite (same_size _ _ S1), D1. apply up_broken_swap; done || lia.
    + exists h2. split; [done|]. split; [eauto using same_trans|done].
  - exists h. split; [done|]. split; [by apply same_refl|].
    eapply ordered_of_up_broken; [done|]. intros _ x y Ex Ey. simplify_eq. done.
Qed.

(** An entry below its parent is above the parent's other descendants. *)
Lemma almost_up_broken d n i a b :
  almost d n i -> d !! i = Some a -> d !! parent i = Some b -> 0 < i ->
  (cmp a b < 0)%Z -> up_broken d n i.
Proof.
  intros [H1 H2] Ea Eb Hi Hlt. split; [|done].
  intros j Hj Hne. destruct (decide (parent j = i)) as [E|]; [|auto].
  intros x y Ex Ey. rewrite E in Ex. simplify_eq.
  apply (above_trans _ b); [by apply above_of_less|]. by eapply (H2 j); [lia|done|done|..].
Qed.

Lemma down_of_ordered d n i : heap_ordered d n -> down_broken d n i.
Proof.
  intros H. split; [auto|]. intros j Hj Hi Hp x y Ex Ey.
  pose proof (parent_lt j ltac:(lia)).
  assert (exists z, d !! i = Some z) as [z Ez].
  { apply lookup_lt_is_Some_2. pose proof (lookup_lt_Some _ _ _ Ey). lia. }
  apply (above_trans _ z).
  - by apply (H i ltac:(lia)).
  - apply (H j ltac:(lia)); [by rewrite Hp|done].
Qed.

Lemma sift_up_spec h i :
  wf h -> i < size h -> almost (data h) (size h) i ->
  exists h', sift_up cmp h i = Some h' /\ same h h' /\ down_broken (data h') (size h') i.
Proof.
  intros W Hi Ha. destruct (decide (i = 0)) as [->|H0].
  { exists h. split; [done|]. split; [by apply same_refl|].
    destruct Ha as [H1 H2]. split; [|lia]. intros. apply H1; try done. lia. }
  pose proof (parent_lt i ltac:(lia)).
  destruct (live_lookup h i W Hi) as [a Ea].
  destruct (live_lookup h (parent i) W ltac:(lia)) as [b Eb].
  destruct (decide (cmp a b < 0)%Z) as [Hlt|Hge].
  - destruct (sift_up_loop_spec (S i) h i) as (h' & E & S & O); try done; try lia.
    { eapply almost_up_broken; eauto. lia. }
    exists h'. split; [done|]. split; [done|]. by apply down_of_ordered.
  - exists h. split; [|split; [by apply same_refl|]].
    + unfold sift_up. simpl. rewrite decide_False by done.
      unfold less. rewrite Ea. simpl. rewrite Eb. simpl.
      by rewrite (proj2 (Z.ltb_ge _ _)) by lia.
    + destruct Ha as [H1 H2]. split; [|done]. intros j Hj Hp.
      destruct (decide (j = i)) as [->|]; [|auto].
      intros x y Ex Ey. simplify_eq. unfold above. lia.
Qed.

(** ** Sifting down *)

Lemma pick_spec h s c :
  wf h -> s < size h ->
  exists s', pick cmp h s c = Some s' /\ s' < size h /\ (s' = s \/ s' = c)
    /\ ordered_at (data h) s' s /\ (c < size h -> ordered_at (data h) s' c).
Proof.
  intros W Hs. destruct (live_lookup h s W Hs) as [x Ex]. unfold pick.
  assert (R : forall k, ordered_at (data h) k k).
  { intros k a b Ea Eb. simplify_eq. apply above_refl. }
  case_decide as Hc; [|exists s; repeat split; auto; lia].
  destruct (live_lookup h c W Hc) as [y Ey]. unfold less. rewrite Ey. simpl. rewrite Ex. simpl.
  destruct (Z.ltb_spec (cmp y x) 0).
  - exists c. repeat split; auto. intros a b Ea Eb. simplify_eq. by apply above_of_less.
  - exists s. repeat split; auto. intros _ a b Ea Eb. simplify_eq. done.
Qed.

Lemma down_broken_swap d n i s a b :
  i < n -> s < n -> 0 < s -> parent s = i ->
  d !! i = Some a -> d !! s = Some b ->
  ordered_at d s i -> (forall c, 0 < c < n -> parent c = i -> ordered_at d s c) ->
  down_broken d n i -> down_broken (swapped d i s a b) n s.
Proof.
  intros Hi Hs Hs0 Hp Ea Eb Hba Hc [H1 H2]. pose proof (parent_lt s ltac:(lia)) as Hlt.
  pose proof (Hba _ _ Eb Ea) as Hab.
  assert (L : forall k, swapped d i s a b !! k =
     if decide (k = i) then Some b else if decide (k = s) then Some a else d !! k)
    by (intros; apply lookup_swapped; done || lia).
  split; intros j Hj; unfold ordered_at; intros; rewrite L in *;
    pose proof (parent_lt j ltac:(lia)); repeat case_decide; simplify_eq; try lia; auto.
  all: first
    [ by eapply (H2 s); [lia|lia|done|..]
    | by match goal with Eb : _ = Some ?x, E : _ = Some ?y |- above ?x ?y => eapply Hc; [ | |exact Eb|exact E] end
    | match goal with E : _ = Some ?x, E' : _ !! ?j = Some ?y |- above ?x ?y =>
        eapply (H1 j); [lia| |exact E|exact E']; (lia || congruence) end ].
Qed.

Lemma sift_down_loop_spec fuel h i :
  size h - i < fuel -> wf h -> i < size h -> down_broken (data h) (size h) i ->
  exists h', sift_down_loop cmp fuel h i = Some h' /\ same h h'
    /\ heap_ordered (data h') (size h').
Proof.
  revert h i. induction fuel as [|fuel IH]; intros h i Hf W Hi Hd; [lia|].
  cbn [sift_down_loop].
  destruct (pick_spec h i (2 * i + 1) W Hi) as (s1 & -> & L1 & C1 & O1 & N1). cbn [mbind option_bind].
  destruct (pick_spec h s1 (2 * i + 2) W L1) as (s & -> & L2 & C2 & O2 & N2). cbn [mbind option_bind].
  destruct (live_lookup h i W Hi) as [a Ea].
  destruct (live_lookup h s W L2) as [b Eb].
  destruct (live_lookup h s1 W L1) as [c Ec].
  assert (Hmin : forall k, 0 < k < size h -> parent k = i -> ordered_at (data h) s k).
  { intros k Hk Hp x y Ex Ey. apply (proj1 (parent_children i k ltac:(lia))) in Hp as [->| ->].
    - apply (above_trans _ c); [by apply O2|]. apply N1; [lia|done|done].
    - apply N2; [lia|done|done]. }
  assert (Hi' : ordered_at (data h) s i).
  { intros x y Ex Ey. apply (above_trans _ c); [by apply O2|by apply O1]. }
  case_decide as Hsi.
  - subst s. exists h. split; [done|]. split; [by apply same_refl|].
    intros j Hj. destruct (decide (parent j = i)) as [E|E]; [|by apply Hd].
    rewrite E. by apply Hmin.
  - assert (Hs0 : 0 < s /\ parent s = i).
    { rewrite parent_children by lia. lia. }
    destruct (swap_spec h i s a b) as (h1 & -> & S1 & D1); try done; try lia. cbn [mbind option_bind].
    pose proof (same_size _ _ S1) as Sz. pose proof (parent_lt s ltac:(lia)).
    destruct (IH h1 s) as (h2 & E2 & S2 & O2').
    + lia.
    + apply S1.
    + lia.
    + rewrite Sz, D1. apply down_broken_swap; done || lia.
    + exists h2. split; [done|]. eauto using same_trans.
Qed.

Lemma sift_down_spec h i :
  wf h -> i < size h -> down_broken (data h) (size h) i ->
  exists h', sift_down cmp h i = Some h' /\ same h h' /\ heap_ordered (data h') (size h').
Proof. intros. apply sift_down_loop_spec; done || lia. Qed.

(** Restoring the heap around one entry, as remove and update do. *)
Lemma resift_spec h i :
  wf h -> i < size h -> almost (data h) (size h) i ->
  exists h1 h2, sift_up cmp h i = Some h1 /\ sift_down cmp h1 i = Some h2 /\ same h h2
    /\ heap_ordered (data h2) (size h2).
Proof.
  intros W Hi Ha. destruct (sift_up_spec h i W Hi Ha) as (h1 & E1 & S1 & D1).
  destruct (sift_down_spec h1 i) as (h2 & E2 & S2 & O2).
  - apply S1.
  - rewrite (same_size _ _ S1). done.
  - rewrite (same_size _ _ S1) in *. done.
  - exists h1, h2. eauto using same_trans.
Qed.

(** ** The root is a minimum *)

Lemma root_above d n i a x :
  heap_ordered d n -> i < n -> n <= length d -> d !! 0 = Some a -> d !! i = Some x -> above a x.
Proof.
  intros O Hi Hn Ea. revert x. induction (lt_wf i) as [i _ IH]; intros x Ex.
  destruct (decide (i = 0)) as [->|]; [simplify_eq; apply above_refl|].
  pose proof (parent_lt i ltac:(lia)).
  destruct (lookup_lt_is_Some_2 d (parent i) ltac:(lia)) as [y Ey].
  apply (above_trans _ y); [by apply (IH (parent i)); [lia|lia|]|].
  by apply (O i ltac:(lia)).
Qed.

Lemma root_minimal h a :
  wf h -> heap_ordered (data h) (size h) -> data h !! 0 = Some a ->
  Forall (above a) (live h).
Proof.
  intros [Wc Ws _] O Ea. apply Forall_lookup. intros i x Hx.
  unfold live in Hx. apply lookup_take_Some in Hx as [Hx Hi].
  by eapply root_above; [apply O|done|lia|..].
Qed.

(** * The operations *)

(** What every operation relies on and re-establishes. *)
Record inv h : Prop := {
  inv_wf : wf h;
  inv_ordered : heap_ordered (data h) (size h);
}.

Lemma inv_of_same h h' : same h h' -> heap_ordered (data h') (size h') -> inv h'.
Proof. intros [] ?. by split. Qed.

Lemma live_snoc h n last :
  size h = S n -> data h !! n = Some last -> live h = take n (data h) ++ [last].
Proof. intros E L. unfold live. rewrite E. by apply take_S_r. Qed.

(** Moving the last entry into slot [i] of a heap one shorter. *)
Lemma replace_with_last h i elem last n :
  inv h -> size h = S n -> i < n -> data h !! i = Some elem -> data h !! n = Some last ->
  let h' := setidx (with_data (with_size h n) (<[i := last]> (data h))) last i in
  wf h' /\ elem :: live h' ≡ₚ live h /\ almost (data h') n i.
Proof.
  intros [[Wc Ws Wt] O] E Hi Ei El. cbn. split; [|split].
  - split; cbn; [by rewrite length_insert|lia|]. intros k c Hk Hc. cbn in *.
    destruct (decide (k = i)) as [->|Hne].
    + rewrite list_lookup_insert_eq in Hc by lia. simplify_eq. apply lookup_insert_eq.
    + rewrite list_lookup_insert_ne in Hc by done.
      rewrite lookup_insert_ne; [apply Wt; [lia|done]|]. intros ->.
      pose proof (Wt n _ ltac:(lia) El). pose proof (Wt k _ ltac:(lia) Hc).
      assert (k = n) by congruence. lia.
  - rewrite (live_snoc h n last E El). unfold live. cbn. rewrite take_insert_lt by lia.
    rewrite insert_perm by (by rewrite lookup_take_lt by lia). apply Permutation_cons_append.
  - rewrite E in O. split; intros j Hj.
    + intros Hne Hp x y. rewrite !list_lookup_insert_ne by congruence. apply (O j). lia.
    + intros Hi0 Hp x y. pose proof (parent_lt i ltac:(lia)). pose proof (parent_lt j ltac:(lia)).
      rewrite !list_lookup_insert_ne by lia.
      by apply (proj2 (down_of_ordered _ _ i O) j); [lia|..].
Qed.

(** There is a free slot, or [realloc] provides one. *)
Definition has_room (alloc : oracle) h : Prop :=
  size h < cap h \/ alloc (8 * Z.of_nat (next_cap h))%Z = true.

#[export] Instance has_room_dec alloc h : Decision (has_room alloc h).
Proof. unfold has_room. apply _. Defined.

Lemma ensure_cap_spec (alloc : oracle) h :
  wf h -> has_room alloc h ->
  exists h1, ensure_cap alloc h = (true, h1) /\ wf h1 /\ size h1 = size h /\ size h < cap h1
    /\ idx h1 = idx h /\ live h1 = live h
    /\ (forall i a, i < size h -> data h1 !! i = Some a -> data h !! i = Some a).
Proof.
  intros [Wc Ws Wt] Ha. unfold ensure_cap. case_decide as Hlt.
  { exists h. by repeat split. }
  destruct Ha as [?|Ha]; [lia|].
  assert (cap h < next_cap h) by (unfold next_cap, HEAP_DEFAULT_CAP; case_decide; lia).
  set (nc := next_cap h) in *. rewrite Ha.
  assert (L : forall i a, i < size h -> (data h ++ replicate (nc - cap h) 0%Z) !! i = Some a ->
                          data h !! i = Some a).
  { intros i a Hi Hl. by rewrite lookup_app_l in Hl by lia. }
  eexists. split; [done|]. repeat split; cbn; try done; try lia.
  - rewrite length_app, length_replicate. lia.
  - intros i a Hi Hl. cbn in *. apply Wt; [done|]. by apply L.
  - unfold live. cbn. by rewrite take_app_le by lia.
Qed.

Lemma idx_setidx h x i j (y : Z) : idx h !! x = Some j -> is_Some (<[x := i]> (idx h) !! y) <-> is_Some (idx h !! y).
Proof.
  intros H. destruct (decide (y = x)) as [->|]; [rewrite lookup_insert_eq; naive_solver|by rewrite lookup_insert_ne].
Qed.

(** Pushing an element that is not in the heap returns [xErrno_Ok],
    terminates inside the array, and keeps the heap ordered, its recorded
    indices exact and its elements those of before plus the new one; when the
    array is full and [realloc] fails it reports it and changes nothing. *)
Lemma xHeapPush_spec (alloc : oracle) h (elem : Z) :
  inv h -> elem <> 0%Z -> elem ∉ live h ->
  if decide (has_room alloc h)
  then exists h', xHeapPush cmp alloc (Some h) elem = Some (xErrno_Ok, Some h') /\ inv h'
         /\ live h' ≡ₚ elem :: live h /\ (forall x, is_Some (idx h' !! x) <-> x = elem \/ is_Some (idx h !! x))
  else xHeapPush cmp alloc (Some h) elem = Some (xErrno_NoMemory, Some h).
Proof.
  intros [W O] Hz Hnew. unfold xHeapPush. rewrite (decide_False (P := elem = 0%Z)) by done.
  case_decide as Ha.
  2: { unfold has_room in Ha. unfold ensure_cap. rewrite decide_False by naive_solver.
       destruct (alloc _) eqn:?; [|done]. naive_solver. }
  destruct (ensure_cap_spec alloc h W Ha) as (h1 & -> & [Wc Ws Wt] & Sz & Hcap & Hidx & Hl & Hd).
  rewrite mem_set_Some by lia. cbn [mbind option_bind].
  set (h2 := with_size _ _).
  assert (Hlen : size h < length (data h1)) by lia.
  assert (O1 : heap_ordered (data h1) (size h)).
  { intros j Hj x y Ex Ey. pose proof (parent_lt j ltac:(lia)).
    apply (O j ltac:(lia)); (apply Hd; [lia|done]). }
  assert (W2 : wf h2).
  { split; cbn; [by rewrite length_insert|lia|]. intros k c Hk Hc. cbn in *.
    destruct (decide (k = size h1)) as [->|Hne].
    - rewrite list_lookup_insert_eq in Hc by lia. simplify_eq. apply lookup_insert_eq.
    - rewrite list_lookup_insert_ne in Hc by done. rewrite lookup_insert_ne; [apply Wt; [lia|done]|].
      intros ->. apply Hnew. rewrite <- Hl. unfold live. apply list_elem_of_lookup. exists k.
      by rewrite lookup_take_lt by lia. }
  destruct (sift_up_loop_spec (S (size h1)) h2 (size h1)) as (h3 & E3 & S3 & O3);
    [lia|exact W2|cbn; lia| |].
  { cbn. rewrite Sz. split; intros j Hj.
    - intros Hne x y. pose proof (parent_lt j ltac:(lia)).
      rewrite !list_lookup_insert_ne by lia. apply (O1 j). lia.
    - intros Hs Hp. pose proof (parent_lt j ltac:(lia)). lia. }
  unfold sift_up. rewrite E3. cbn. exists h3. split; [done|]. split; [by eapply inv_of_same|].
  split.
  2: { intros x. rewrite (same_idx _ _ S3). subst h2. fields. rewrite Hidx. destruct (decide (x = elem)) as [->|].
       - rewrite lookup_insert_eq. naive_solver.
       - rewrite lookup_insert_ne by done. naive_solver. }
  rewrite (same_live _ _ S3).
  rewrite (live_snoc h2 (size h1) elem) by first [done | cbn; apply list_lookup_insert_eq; lia].
  cbn. rewrite take_insert_ge by lia. fold (live h1). rewrite Hl. symmetry. apply Permutation_cons_append.
Qed.

(** A pop takes a minimum out. *)
Lemma xHeapPop_spec h :
  inv h ->
  if decide (size h = 0) then xHeapPop cmp (Some h) = Some (0%Z, Some h)
  else exists min h', xHeapPop cmp (Some h) = Some (min, Some h') /\ inv h'
         /\ xHeapPeek (Some h) = Some min
         /\ min :: live h' ≡ₚ live h /\ Forall (above min) (live h)
         /\ (forall x, is_Some (idx h' !! x) <-> is_Some (idx h !! x)).
Proof.
  intros I. pose proof I as [W O]. unfold xHeapPop, xHeapPeek.
  destruct (decide (size h = 0)) as [?|Hn]; [done|].
  destruct (live_lookup h 0 W ltac:(lia)) as [min Emin]. rewrite Emin. cbn.
  pose proof (root_minimal h min W O Emin) as Hmin.
  destruct (size h) as [|n] eqn:En; [lia|]. rewrite Nat.sub_succ, Nat.sub_0_r.
  case_decide as Hpos.
  - destruct (live_lookup h n W ltac:(lia)) as [last El]. rewrite El. cbn.
    pose proof W as [Wc Ws _]. rewrite mem_set_Some by lia. cbn.
    destruct (replace_with_last h 0 min last n I En Hpos Emin El) as (W1 & P1 & A1).
    destruct (sift_down_spec _ 0 W1) as (h2 & E2 & S2 & O2); [done| |].
    { cbn. destruct A1 as [A1 A2]. split; [|lia]. intros. apply A1; [done|lia|done]. }
    cbn in E2. exists min, h2. rewrite E2. cbn. split; [done|]. split; [by eapply inv_of_same|].
    split; [done|]. split; [by rewrite (same_live _ _ S2)|]. split; [done|].
    intros x. rewrite (same_idx _ _ S2). fields. apply (idx_setidx h last _ n). apply (wf_tracked _ W n last); [lia|done].
  - assert (n = 0) as -> by lia. exists min, (with_size h 0). split; [done|].
    pose proof W as [Wc Ws Wt]. split; [|split; [done|split; [|done]]].
    + split; [split; cbn; [done|lia|]|]; [intros ???; cbn in *; lia|intros ??; cbn in *; lia].
    + by rewrite (live_snoc h 0 min).
Qed.

(** C3: pop on a non-empty heap returns a minimum of the live elements and
    removes exactly one copy of it, keeping order and indices; on an empty
    heap it returns NULL and changes nothing. *)
Theorem heap_pop_spec h :
  inv h ->
  if decide (size h = 0) then xHeapPop cmp (Some h) = Some (0%Z, Some h)
  else exists min h', xHeapPop cmp (Some h) = Some (min, Some h') /\ inv h'
         /\ xHeapPeek (Some h) = Some min
         /\ min :: live h' ≡ₚ live h /\ Forall (above min) (live h).
Proof.
  intros I. pose proof (xHeapPop_spec h I) as H. destruct (decide (size h = 0)); [done|].
  destruct H as (min & h' & ? & ? & ? & ? & ? & _). by exists min, h'.
Qed.

(** Removing slot [i], the index the heap itself recorded for its
    element, returns that element and leaves an ordered heap of the others;
    an index past the end returns NULL and changes nothing. *)
Lemma xHeapRemove_spec h i :
  inv h ->
  if decide (size h <= i) then xHeapRemove cmp (Some h) i = Some (0%Z, Some h)
  else exists elem h', xHeapRemove cmp (Some h) i = Some (elem, Some h') /\ inv h'
         /\ idx h !! elem = Some i /\ elem :: live h' ≡ₚ live h
         /\ (forall x, is_Some (idx h' !! x) <-> is_Some (idx h !! x)).
Proof.
  intros I. pose proof I as [W O]. unfold xHeapRemove.
  destruct (decide (size h <= i)) as [?|Hn]; [done|].
  destruct (live_lookup h i W ltac:(lia)) as [elem Ee]. rewrite Ee. fields.
  pose proof (wf_tracked _ W i elem ltac:(lia) Ee) as Ht.
  destruct (size h) as [|n] eqn:En; [lia|]. rewrite Nat.sub_succ, Nat.sub_0_r.
  pose proof W as [Wc Ws Wt]. case_decide as Hlast.
  - subst i. exists elem, (with_size h n). split; [done|]. split; [|split; [done|]].
    + split; [split; cbn; [done|lia|]|].
      * intros k c Hk. cbn in *. apply Wt. lia.
      * intros j Hj. cbn in *. apply O. lia.
    + split; [|done]. rewrite (live_snoc h n elem) by done. apply Permutation_cons_append.
  - destruct (live_lookup h n W ltac:(lia)) as [last El]. rewrite El. fields.
    rewrite mem_set_Some by lia. fields.
    destruct (replace_with_last h i elem last n I En ltac:(lia) Ee El) as (W1 & P1 & A1).
    destruct (resift_spec _ i W1) as (h1 & h2 & E1 & E2 & S2 & O2); [cbn; lia|done|].
    fields_in E1. rewrite E1. fields. rewrite E2. fields. exists elem, h2. split; [done|].
    split; [by eapply inv_of_same|]. split; [done|]. split; [by rewrite (same_live _ _ S2)|].
    intros x. rewrite (same_idx _ _ S2). fields. apply (idx_setidx h last _ n). apply (Wt n last); [lia|done].
Qed.

(** The caller changes one element's priority: only the order around its slot
    is lost. *)
Lemma almost_of_change (cmp0 : Z -> Z -> Z) h i e :
  (forall x y z, (0 <= cmp0 y x -> 0 <= cmp0 z y -> 0 <= cmp0 z x)%Z) ->
  wf h -> i < size h -> data h !! i = Some e ->
  (forall x y, x <> e -> y <> e -> cmp x y = cmp0 x y) ->
  (forall j, 0 < j < size h -> forall x y, data h !! parent j = Some x -> data h !! j = Some y ->
     (0 <= cmp0 y x)%Z) ->
  almost (data h) (size h) i.
Proof.
  intros Tr W Hi Ee Hag O0. pose proof W as [Wc Ws Wt].
  assert (Hne : forall k x, k < size h -> k <> i -> data h !! k = Some x -> x <> e).
  { intros k x Hk Hki Ex ->. pose proof (Wt _ _ Hk Ex). pose proof (Wt _ _ Hi Ee). congruence. }
  split; intros j Hj; pose proof (parent_lt j ltac:(lia)).
  - intros Hji Hp x y Ex Ey. unfold above.
    rewrite Hag by (eapply Hne; [| |eassumption]; lia). by eapply O0.
  - intros Hi0 Hp x y Ex Ey. pose proof (parent_lt i ltac:(lia)). unfold above.
    rewrite Hag by (eapply Hne; [| |eassumption]; lia).
    apply (Tr x e y); [by eapply (O0 i); [lia|..]|by eapply (O0 j); [lia|rewrite Hp|]].
Qed.

Lemma xHeapUpdate_spec h i :
  wf h -> i < size h -> almost (data h) (size h) i ->
  exists h', xHeapUpdate cmp (Some h) i = Some (xErrno_Ok, Some h') /\ inv h'
    /\ live h' ≡ₚ live h.
Proof.
  intros W Hi A. unfold xHeapUpdate. rewrite decide_False by lia.
  destruct (resift_spec h i W Hi A) as (h1 & h2 & -> & E2 & S2 & O2). fields. rewrite E2. fields.
  exists h2. split; [done|]. split; [by eapply inv_of_same|]. apply S2.
Qed.

End order.

(** after the caller has changed the priority of one element in either
    direction ([cmp0] is the comparison before, [cmp] the one after),
    [xHeapUpdate] at its slot restores the heap without losing an element. *)
Theorem heap_update_spec cmp0 cmp `{!CmpOk cmp0} `{!CmpOk cmp} h i e :
  inv cmp0 h -> i < size h -> data h !! i = Some e ->
  (forall x y, x <> e -> y <> e -> cmp x y = cmp0 x y) ->
  exists h', xHeapUpdate cmp (Some h) i = Some (xErrno_Ok, Some h') /\ inv cmp h'
    /\ live h' ≡ₚ live h.
Proof.
  intros [W O] Hi Ee Hag. apply xHeapUpdate_spec; [done..|].
  eapply (almost_of_change cmp cmp0); try done. apply cmp_trans.
Qed.

(** ** Witnesses: timers ordered by deadline *)

#[export] Instance sub_cmp_ok : CmpOk Z.sub.
Proof. split; intros; lia. Qed.

Definition demo : xHeap_ := 
  mkHeap [3; 7; 5; 9]%Z 4 4 (list_to_map [(3%Z, 0); (7%Z, 1); (5%Z, 2); (9%Z, 3)]).

Lemma demo_inv : inv Z.sub demo.
Proof.
  split; [split; [done|done|]|].
  - intros i a Hi. cbn in Hi. do 4 (destruct i as [|i]; [intros [= <-]; by vm_compute|]). lia.
  - intros j Hj. cbn in Hj. unfold ordered_at, above.
    do 4 (destruct j as [|j]; [intros a b; vm_compute; intros; simplify_eq; lia || done|]). lia.
Qed.

Lemma xHeapPush_demo :
  inv Z.sub demo /\ exists h', xHeapPush Z.sub (fun _ => true) (Some demo) 1 = Some (xErrno_Ok, Some h')
    /\ live h' ≡ₚ 1%Z :: live demo.
Proof.
  split; [apply demo_inv|].
  pose proof (xHeapPush_spec Z.sub (fun _ => true) demo 1 demo_inv ltac:(done)
    ltac:(by vm_compute; set_solver)) as H.
  rewrite decide_True in H by (right; reflexivity).
  destruct H as (h' & E & _ & P & _). by exists h'.
Defined.

Lemma heap_pop_spec_witness :
  inv Z.sub demo /\ exists h', xHeapPop Z.sub (Some demo) = Some (3%Z, Some h')
    /\ 3%Z :: live h' ≡ₚ live demo.
Proof.
  split; [apply demo_inv|].
  pose proof (heap_pop_spec Z.sub demo demo_inv) as H. rewrite decide_False in H by done.
  destruct H as (m & h' & E & _ & Ep & P & _). cbn in Ep. injection Ep as <-. by exists h'.
Defined.

Lemma xHeapRemove_demo :
  inv Z.sub demo /\ exists h', xHeapRemove Z.sub (Some demo) 1 = Some (7%Z, Some h')
    /\ 7%Z :: live h' ≡ₚ live demo.
Proof.
  split; [apply demo_inv|].
  pose proof (xHeapRemove_spec Z.sub demo 1 demo_inv) as H.
  rewrite decide_False in H by (cbn; lia).
  destruct H as (e & h' & E & _ & _ & P & _).
  assert (e = 7%Z) as ->; [|by exists h'].
  vm_compute in E. congruence.
Defined.

(** The timer 3 is postponed: it now compares as 8. *)
Definition postponed (x y : Z) : Z :=
  ((if x =? 3 then 8 else x) - (if y =? 3 then 8 else y))%Z.

#[export] Instance postponed_cmp_ok : CmpOk postponed.
Proof. split; unfold postponed; intros; lia. Qed.

Lemma heap_update_spec_witness :
  inv Z.sub demo /\ exists h', xHeapUpdate postponed (Some demo) 0 = Some (xErrno_Ok, Some h')
    /\ inv postponed h' /\ live h' ≡ₚ live demo.
Proof.
  split; [apply demo_inv|].
  apply (heap_update_spec Z.sub postponed demo 0 3%Z demo_inv); [cbn; lia|done|].
  intros x y Hx Hy. unfold postponed.
  by rewrite (proj2 (Z.eqb_neq x 3)), (proj2 (Z.eqb_neq y 3)) by done.
Defined.
