(* ===== verification/MapIface.v ===== *)
(** * MapIface: the contract of [xMap] ([libx/x/base/map.h], [map.c])

    An [xMap] associates void pointers to void pointers through a hash and an
    equality callback ([MapKey]).  The contract is an association list without
    equivalent keys, up to the order the backend iterates in: [XMapOk] states
    what each operation does to [entries], and the backends MapHash, MapFlat
    and MapTree are its instances.  Clients (the DNS cache) are proved against
    the class.

    Values are pointers; zero is NULL, which is also what a failed lookup
    returns. *)

From S2P Require Import Prelude Errno.

(** The callbacks of [xMapCreate]. *)
Class MapKey (K : Type) := {
  khash : K -> Z;
  keq : K -> K -> bool;
}.

(** What the library asks of them: an equivalence the hash respects, and a
    64-bit hash. *)
Class MapKeyOk (K : Type) `{!MapKey K} : Prop := {
  keq_refl k : keq k k = true;
  keq_sym k1 k2 : keq k1 k2 = keq k2 k1;
  keq_trans k1 k2 k3 : keq k1 k2 = true -> keq k2 k3 = true -> keq k1 k3 = true;
  khash_keq k1 k2 : keq k1 k2 = true -> khash k1 = khash k2;
  khash_range k : (0 <= khash k < 2 ^ 64)%Z;
}.

(** ** The abstract map: association lists without equivalent keys *)

Section spec.
Context {K : Type} `{!MapKey K, !MapKeyOk K}.
Implicit Types (l : list (K * Z)) (k : K) (v : Z).

Fixpoint spec_find k l : option Z :=
  match l with
  | [] => None
  | (k', v) :: l => if keq k' k then Some v else spec_find k l
  end.

(** What [get] returns: NULL when there is no entry. *)
Definition spec_get k l : Z := default 0%Z (spec_find k l).

(** Overwriting keeps the key pointer that is already in the map. *)
Fixpoint spec_replace k v l : list (K * Z) :=
  match l with
  | [] => []
  | (k', v') :: l => if keq k' k then (k', v) :: l else (k', v') :: spec_replace k v l
  end.

Definition spec_set k v l : list (K * Z) :=
  match spec_find k l with
  | Some _ => spec_replace k v l
  | None => (k, v) :: l
  end.

Fixpoint spec_del k l : list (K * Z) :=
  match l with
  | [] => []
  | (k', v') :: l => if keq k' k then l else (k', v') :: spec_del k l
  end.

(** No entry of [l] has a key equivalent to [k]. *)
Definition fresh k l : Prop := Forall (fun p => keq p.1 k = false) l.

Fixpoint uniq l : Prop :=
  match l with
  | [] => True
  | (k, _) :: l => fresh k l /\ uniq l
  end.

Lemma keq_cong k1 k2 k : keq k1 k2 = true -> keq k1 k = keq k2 k.
Proof.
  intros H. destruct (keq k2 k) eqn:E; [by apply (keq_trans _ k2)|].
  destruct (keq k1 k) eqn:E'; [|done].
  rewrite <- E. symmetry. apply (keq_trans _ k1); [by rewrite keq_sym|done].
Qed.

Lemma spec_find_fresh k l : fresh k l <-> spec_find k l = None.
Proof.
  unfold fresh. induction l as [|[k' v] l IH]; simpl; [by split|].
  rewrite Forall_cons, IH. simpl. destruct (keq k' k); intuition congruence.
Qed.

Lemma fresh_app k l1 l2 : fresh k (l1 ++ l2) <-> fresh k l1 /\ fresh k l2.
Proof. apply Forall_app. Qed.

Lemma fresh_cong k1 k2 l : keq k1 k2 = true -> fresh k1 l -> fresh k2 l.
Proof.
  intros H. unfold fresh. rewrite !Forall_forall. intros F p Hp.
  rewrite keq_sym, <- (keq_cong k1 k2 _ H), keq_sym. by apply F.
Qed.

#[export] Instance fresh_perm k : Proper ((≡ₚ) ==> iff) (fresh k).
Proof. intros l1 l2 H. unfold fresh. by rewrite H. Qed.

#[export] Instance uniq_perm : Proper ((≡ₚ) ==> iff) uniq.
Proof.
  intros l1 l2 H. induction H as [|[k v] l1 l2 HP IH|[k1 v1] [k2 v2] l|]; simpl; try done.
  - pose proof (fresh_perm k _ _ HP). tauto.
  - unfold fresh. rewrite !Forall_cons. simpl. rewrite (keq_sym k2 k1). tauto.
  - by etransitivity.
Qed.

Lemma uniq_app l1 l2 :
  uniq (l1 ++ l2) <-> uniq l1 /\ uniq l2 /\ Forall (fun p => fresh p.1 l2) l1.
Proof.
  induction l1 as [|[k v] l1 IH]; simpl; [split; intuition|].
  rewrite fresh_app, IH, Forall_cons. simpl. tauto.
Qed.

(** With unique keys a lookup does not depend on the order. *)
Lemma spec_find_perm k l1 l2 : l1 ≡ₚ l2 -> uniq l1 -> spec_find k l1 = spec_find k l2.
Proof.
  induction 1 as [|[k1 v1] l1 l2 HP IH|[k1 v1] [k2 v2] l|l1 l2 l3 H12 IH1 H23 IH2]; simpl; intros U.
  - done.
  - destruct U. by rewrite IH.
  - destruct U as [F _]. apply Forall_cons in F as [F _]. simpl in F.
    destruct (keq k1 k) eqn:E1, (keq k2 k) eqn:E2; try done.
    rewrite (keq_cong k1 k2 k2) in F; [by rewrite keq_refl in F|].
    apply (keq_trans _ k); [done|by rewrite keq_sym].
  - rewrite IH1 by done. apply IH2. by rewrite <- H12.
Qed.

Lemma spec_find_app k l1 l2 :
  spec_find k (l1 ++ l2) = match spec_find k l1 with Some v => Some v | None => spec_find k l2 end.
Proof. induction l1 as [|[k' v] l1 IH]; simpl; [done|]. by destruct (keq k' k). Qed.

Lemma spec_replace_fresh k v l : fresh k l -> spec_replace k v l = l.
Proof.
  unfold fresh. induction l as [|[k' v'] l IH]; simpl; [done|].
  rewrite Forall_cons. simpl. intros [-> H]. by rewrite IH.
Qed.

Lemma spec_del_fresh k l : fresh k l -> spec_del k l = l.
Proof.
  unfold fresh. induction l as [|[k' v'] l IH]; simpl; [done|].
  rewrite Forall_cons. simpl. intros [-> H]. by rewrite IH.
Qed.

(** Splitting at the entry of a key that is present. *)
Lemma spec_find_split k l v :
  spec_find k l = Some v ->
  exists l1 k' l2, l = l1 ++ (k', v) :: l2 /\ fresh k l1 /\ keq k' k = true.
Proof.
  induction l as [|[k' v'] l IH]; simpl; [done|].
  destruct (keq k' k) eqn:E; intros; simplify_eq.
  - exists [], k', l. split; [done|]. split; [constructor|done].
  - destruct (IH H) as (l1 & k1 & l2 & -> & F & E1). exists ((k', v') :: l1), k1, l2.
    split; [done|]. split; [|done]. by constructor.
Qed.

Lemma spec_replace_at k v l1 k' v' l2 :
  fresh k l1 -> keq k' k = true ->
  spec_replace k v (l1 ++ (k', v') :: l2) = l1 ++ (k', v) :: l2.
Proof.
  unfold fresh. induction l1 as [|[k1 v1] l1 IH]; simpl; [by intros _ ->|].
  rewrite Forall_cons. simpl. intros [-> F] E. by rewrite IH.
Qed.

Lemma spec_del_at k l1 k' v' l2 :
  fresh k l1 -> keq k' k = true -> spec_del k (l1 ++ (k', v') :: l2) = l1 ++ l2.
Proof.
  unfold fresh. induction l1 as [|[k1 v1] l1 IH]; simpl; [by intros _ ->|].
  rewrite Forall_cons. simpl. intros [-> F] E. by rewrite IH.
Qed.

(** In a list with unique keys the entry of a key is the only one, so the
    operations may be carried out wherever a backend finds it. *)
Lemma uniq_at_fresh k l1 k' v l2 :
  uniq (l1 ++ (k', v) :: l2) -> keq k' k = true -> fresh k l1 /\ fresh k l2.
Proof.
  rewrite uniq_app. simpl. intros (_ & (F2 & _) & F1) E. split.
  - unfold fresh. rewrite Forall_forall in *. intros p Hp. specialize (F1 p Hp).
    apply Forall_cons in F1 as [F1 _]. simpl in F1.
    rewrite keq_sym, <- (keq_cong _ _ _ E). done.
  - by apply (fresh_cong k').
Qed.

Lemma spec_find_at k l1 k' v l2 :
  uniq (l1 ++ (k', v) :: l2) -> keq k' k = true -> spec_find k (l1 ++ (k', v) :: l2) = Some v.
Proof.
  intros U E. destruct (uniq_at_fresh _ _ _ _ _ U E) as [F _].
  rewrite spec_find_app, (proj1 (spec_find_fresh _ _) F). simpl. by rewrite E.
Qed.

Lemma spec_set_at k v l1 k' v' l2 :
  uniq (l1 ++ (k', v') :: l2) -> keq k' k = true ->
  spec_set k v (l1 ++ (k', v') :: l2) = l1 ++ (k', v) :: l2.
Proof.
  intros U E. unfold spec_set. rewrite (spec_find_at _ _ _ _ _ U E).
  apply spec_replace_at; [by apply (uniq_at_fresh _ _ _ _ _ U E)|done].
Qed.

Lemma spec_set_fresh k v l : fresh k l -> spec_set k v l = (k, v) :: l.
Proof. intros F. unfold spec_set. by rewrite (proj1 (spec_find_fresh _ _) F). Qed.

Lemma uniq_replace_at l1 k v v' l2 : uniq (l1 ++ (k, v) :: l2) -> uniq (l1 ++ (k, v') :: l2).
Proof.
  rewrite !uniq_app. simpl. intros (U1 & U2 & F). split; [done|]. split; [done|].
  eapply Forall_impl; [exact F|]. intros p Hp. apply Forall_cons in Hp as [Hp ?]. by constructor.
Qed.

Lemma uniq_remove_at l1 p l2 : uniq (l1 ++ p :: l2) -> uniq (l1 ++ l2).
Proof. intros U. rewrite <- Permutation_middle in U. by destruct p as [? ?], U. Qed.

Lemma uniq_spec_set k v l : uniq l -> uniq (spec_set k v l).
Proof.
  intros U. destruct (spec_find k l) as [v0|] eqn:E.
  - destruct (spec_find_split _ _ _ E) as (l1 & k' & l2 & -> & F & Ek).
    rewrite (spec_set_at _ _ _ _ _ _ U Ek). by eapply uniq_replace_at.
  - apply spec_find_fresh in E. rewrite spec_set_fresh by done. by split.
Qed.

Lemma uniq_spec_del k l : uniq l -> uniq (spec_del k l).
Proof.
  intros U. destruct (spec_find k l) as [v0|] eqn:E.
  - destruct (spec_find_split _ _ _ E) as (l1 & k' & l2 & -> & F & Ek).
    rewrite (spec_del_at _ _ _ _ _ F Ek). by eapply uniq_remove_at.
  - apply spec_find_fresh in E. by rewrite spec_del_fresh.
Qed.

(** The operations carried out on the part [c] of the contents a key must be
    in. *)
Lemma spec_find_mid k A c B :
  fresh k A -> fresh k B -> spec_find k (A ++ c ++ B) = spec_find k c.
Proof.
  intros FA%spec_find_fresh FB%spec_find_fresh. rewrite !spec_find_app, FA, FB.
  by destruct (spec_find k c).
Qed.

Lemma spec_replace_mid k v A c B :
  fresh k A -> fresh k B -> spec_replace k v (A ++ c ++ B) = A ++ spec_replace k v c ++ B.
Proof.
  intros FA FB. unfold fresh in FA. induction FA as [|[k1 v1] A H FA IH]; simpl in *.
  - induction c as [|[k1 v1] c IH]; simpl; [by apply spec_replace_fresh|].
    destruct (keq k1 k); [done|]. by rewrite IH.
  - by rewrite H, IH.
Qed.

Lemma spec_del_mid k A c B :
  fresh k A -> fresh k B -> spec_del k (A ++ c ++ B) = A ++ spec_del k c ++ B.
Proof.
  intros FA FB. unfold fresh in FA. induction FA as [|[k1 v1] A H FA IH]; simpl in *.
  - induction c as [|[k1 v1] c IH]; simpl; [by apply spec_del_fresh|].
    destruct (keq k1 k); [done|]. by rewrite IH.
  - by rewrite H, IH.
Qed.

Lemma spec_set_mid k v v0 A c B :
  fresh k A -> fresh k B -> spec_find k c = Some v0 ->
  spec_set k v (A ++ c ++ B) = A ++ spec_replace k v c ++ B.
Proof.
  intros FA FB E. unfold spec_set. rewrite spec_find_mid, E by done. by apply spec_replace_mid.
Qed.

Lemma spec_set_perm k v l1 l2 : l1 ≡ₚ l2 -> uniq l1 -> spec_set k v l1 ≡ₚ spec_set k v l2.
Proof.
  intros HP U. pose proof (spec_find_perm k _ _ HP U) as E. unfold spec_set. rewrite <- E.
  destruct (spec_find k l1) as [v0|] eqn:Ef; [|by rewrite HP].
  destruct (spec_find_split _ _ _ Ef) as (a1 & k1 & b1 & -> & Fa & Ek1).
  destruct (spec_find_split k l2 v0) as (a2 & k2 & b2 & -> & Fa2 & Ek2); [done|].
  rewrite !spec_replace_at by done. rewrite <- !Permutation_middle in HP |- *.
  assert (k1 = k2) as ->.
  { assert ((k1, v0) ∈ (k2, v0) :: a2 ++ b2) as Hin by (rewrite <- HP; by left).
    apply elem_of_cons in Hin as [[= ->]|Hin]; [done|]. exfalso.
    assert (uniq (a2 ++ (k2, v0) :: b2)) as U2.
    { rewrite <- Permutation_middle in U |- *. by rewrite <- HP. }
    destruct (uniq_at_fresh k _ _ _ _ U2 Ek2) as [F1 F2].
    assert (fresh k (a2 ++ b2)) as F by (by apply fresh_app).
    unfold fresh in F. rewrite Forall_forall in F. specialize (F _ Hin). simpl in F. congruence. }
  apply Permutation_cons_inv in HP. by rewrite HP.
Qed.

Lemma length_spec_replace k v l : length (spec_replace k v l) = length l.
Proof. induction l as [|[k' v'] l IH]; simpl; [done|]. destruct (keq k' k); simpl; [done|by rewrite IH]. Qed.

Lemma length_spec_del k l v : spec_find k l = Some v -> S (length (spec_del k l)) = length l.
Proof.
  induction l as [|[k' v'] l IH]; simpl; [done|]. destruct (keq k' k); [done|].
  intros H. simpl. by rewrite IH.
Qed.

(** The keys stay the same objects. *)
Lemma spec_replace_keys k v l : (spec_replace k v l).*1 = l.*1.
Proof. induction l as [|[k' v'] l IH]; simpl; [done|]. destruct (keq k' k); simpl; [done|by f_equal]. Qed.

Lemma spec_del_keys k l : (spec_del k l).*1 ⊆ l.*1.
Proof.
  induction l as [|[k' v'] l IH]; simpl; [done|]. destruct (keq k' k); simpl; set_solver.
Qed.

(** ** Linked chains of entries

    Both map_hash.c (buckets) and map_tree.c (overflow lists) walk singly
    linked lists of key-value entries; [None] means the key was not met. *)

Fixpoint chain_set k v (e : list (K * Z)) : option (list (K * Z)) :=
  match e with
  | [] => None
  | (k', v') :: next =>
      if keq k' k then Some ((k', v) :: next)
      else next' ← chain_set k v next; Some ((k', v') :: next')
  end.

Fixpoint chain_get k (e : list (K * Z)) : option Z :=
  match e with
  | [] => None
  | (k', v') :: next => if keq k' k then Some v' else chain_get k next
  end.

Fixpoint chain_del k (e : list (K * Z)) : option (Z * list (K * Z)) :=
  match e with
  | [] => None
  | (k', v') :: next =>
      if keq k' k then Some (v', next)
      else r ← chain_del k next; Some (r.1, (k', v') :: r.2)
  end.

Lemma chain_set_spec k v e :
  chain_set k v e = (_ ← spec_find k e; Some (spec_replace k v e)).
Proof.
  induction e as [|[k' v'] e IH]; cbn; [done|]. destruct (keq k' k); [done|].
  rewrite IH. by destruct (spec_find k e).
Qed.

Lemma chain_get_spec k e : chain_get k e = spec_find k e.
Proof. induction e as [|[k' v'] e IH]; cbn; [done|]. by rewrite IH. Qed.

Lemma chain_del_spec k e :
  chain_del k e = (v ← spec_find k e; Some (v, spec_del k e)).
Proof.
  induction e as [|[k' v'] e IH]; cbn; [done|]. destruct (keq k' k); [done|].
  rewrite IH. by destruct (spec_find k e).
Qed.

End spec.

(** ** The interface *)

(** The virtual table of [map_private.h].  The operations that allocate take
    the allocator; [map_iterate] is the sequence of calls the callback gets
    when it never asks to stop. *)
Class XMap (K M : Type) := {
  map_set : oracle -> M -> K -> Z -> ub (xErrno * M);
  map_get : M -> K -> ub Z;
  map_del : M -> K -> ub (Z * M);
  map_len : M -> nat;
  map_iterate : M -> list (K * Z);
}.

(** What a backend promises.  [map_inv] is its representation invariant;
    every operation is defined on it and preserves it. *)
Class XMapOk (K M : Type) `{!MapKey K, !XMap K M} := {
  map_inv : M -> Prop;
  map_inv_uniq m : map_inv m -> uniq (map_iterate m);
  map_len_ok m : map_inv m -> map_len m = length (map_iterate m);
  map_get_ok m k : map_inv m -> map_get m k = Some (spec_get k (map_iterate m));
  map_set_ok alloc m k v :
    map_inv m -> exists e m', map_set alloc m k v = Some (e, m') /\ map_inv m' /\
      (e = xErrno_Ok /\ map_iterate m' ≡ₚ spec_set k v (map_iterate m) \/
       e = xErrno_NoMemory /\ map_iterate m' ≡ₚ map_iterate m);
  map_del_ok m k :
    map_inv m -> exists m', map_del m k = Some (spec_get k (map_iterate m), m') /\ map_inv m' /\
      map_iterate m' ≡ₚ spec_del k (map_iterate m);
}.

(** A backend whose insertions only fail when the allocator does (up to a
    number of entries far below what [size_t] products allow). *)
Class XMapTotal (K M : Type) `{!MapKey K, !XMap K M, !XMapOk K M} := {
  map_set_total m k v :
    map_inv m -> (Z.of_nat (length (map_iterate m)) < 2 ^ 32)%Z ->
    exists m', map_set (fun _ => true) m k v = Some (xErrno_Ok, m');
}.

(** ** [map.c]: dispatch and the built-in callbacks *)

Section dispatch.
Context {K M : Type} `{!XMap K M}.

Definition xMapSet (alloc : oracle) (m : option M) (k : K) (v : Z) : ub (xErrno * option M) :=
  match m with
  | None => Some (xErrno_InvalidArg, None)
  | Some m => r ← map_set alloc m k v; Some (r.1, Some r.2)
  end.

Definition xMapGet (m : option M) (k : K) : ub Z :=
  match m with None => Some 0%Z | Some m => map_get m k end.

Definition xMapDel (m : option M) (k : K) : ub (Z * option M) :=
  match m with
  | None => Some (0%Z, None)
  | Some m => r ← map_del m k; Some (r.1, Some r.2)
  end.

Definition xMapLen (m : option M) : nat :=
  match m with None => 0 | Some m => map_len m end.

Fixpoint iterate_until (fn : K -> Z -> bool) (l : list (K * Z)) : list (K * Z) :=
  match l with
  | [] => []
  | (k, v) :: l => (k, v) :: if fn k v then iterate_until fn l else []
  end.

(** The calls made when the callback answers [fn]: it stops at the first
    false. *)
Definition xMapIterate (m : option M) (fn : K -> Z -> bool) : list (K * Z) :=
  match m with None => [] | Some m => iterate_until fn (map_iterate m) end.

End dispatch.

(** FNV-1a over the bytes before the terminator. *)
Fixpoint xMapStrHash_loop (h : Z) (s : list Z) : Z :=
  match s with
  | [] => h
  | c :: s => xMapStrHash_loop (u64 (Z.lxor h c * 1099511628211)) s
  end.

Definition xMapStrHash (s : list Z) : Z := xMapStrHash_loop 14695981039346656037 s.

Definition xMapStrEq (a b : list Z) : bool := bool_decide (a = b).

Definition xMapIntHash (key : Z) : Z :=
  let x := u64 key in
  let x := Z.lxor x (Z.shiftr x 30) in
  let x := u64 (x * 0xbf58476d1ce4e5b9) in
  let x := Z.lxor x (Z.shiftr x 27) in
  let x := u64 (x * 0x94d049bb133111eb) in
  Z.lxor x (Z.shiftr x 31).

Definition xMapIntEq (a b : Z) : bool := (a =? b)%Z.
