(* ===== verification/MapHash.v ===== *)
(** * MapHash: the separate-chaining backend ([libx/x/base/map_hash.c])

    A bucket is the chain its head pointer starts, in order; the slab the
    entries come from is the allocator.  [hash_xmap] and [hash_xmap_ok] are the
    backend's virtual table and its contract. *)

From S2P Require Import Prelude Errno MapIface.

Section hash.
Context {K : Type} `{!MapKey K}.
Implicit Types (k : K) (v : Z).

Abbreviation xMapHashEntry := (list (K * Z)).

Record xMapHash := {
  h_buckets : list xMapHashEntry;
  h_size : Z;
  h_cap : Z;
}.

Definition sizeof_xMapHash : Z := 56.
Definition sizeof_entry : Z := 24.

(** [hash(key) & (cap - 1)] *)
Definition bucket_idx (cap : Z) k : nat := Z.to_nat (Z.land (khash k) (u64 (cap - 1))).

(** The chain [e] moved, entry by entry, to the heads of the new chains. *)
Fixpoint rehash_chain (new_cap : Z) (nb : list xMapHashEntry) (e : xMapHashEntry)
    : ub (list xMapHashEntry) :=
  match e with
  | [] => Some nb
  | p :: next =>
      let idx := bucket_idx new_cap p.1 in
      head ← nb !! idx;
      nb' ← mem_set nb idx (p :: head);
      rehash_chain new_cap nb' next
  end.

Fixpoint rehash (new_cap : Z) (nb : list xMapHashEntry) (old : list xMapHashEntry)
    : ub (list xMapHashEntry) :=
  match old with
  | [] => Some nb
  | e :: old => nb' ← rehash_chain new_cap nb e; rehash new_cap nb' old
  end.

Definition hash_resize (alloc : oracle) (h : xMapHash) : ub (xErrno * xMapHash) :=
  let new_cap := u64 (h_cap h * 2) in
  if calloc_ok alloc new_cap 8 then
    nb ← rehash new_cap (replicate (Z.to_nat new_cap) []) (h_buckets h);
    Some (xErrno_Ok, {| h_buckets := nb; h_size := h_size h; h_cap := new_cap |})
  else Some (xErrno_NoMemory, h).

Definition hash_insert (alloc : oracle) (h : xMapHash) k v : ub (xErrno * xMapHash) :=
  if alloc sizeof_entry then
    let idx := bucket_idx (h_cap h) k in
    c ← h_buckets h !! idx;
    b ← mem_set (h_buckets h) idx ((k, v) :: c);
    Some (xErrno_Ok, {| h_buckets := b; h_size := u64 (h_size h + 1); h_cap := h_cap h |})
  else Some (xErrno_NoMemory, h).

Definition hash_set (alloc : oracle) (h : xMapHash) k v : ub (xErrno * xMapHash) :=
  let idx := bucket_idx (h_cap h) k in
  c ← h_buckets h !! idx;
  match chain_set k v c with
  | Some c' =>
      b ← mem_set (h_buckets h) idx c';
      Some (xErrno_Ok, {| h_buckets := b; h_size := h_size h; h_cap := h_cap h |})
  | None =>
      if (u64 (h_cap h * 3) / 4 <? u64 (h_size h + 1))%Z then
        r ← hash_resize alloc h;
        match r.1 with
        | xErrno_Ok => hash_insert alloc r.2 k v
        | err => Some (err, r.2)
        end
      else hash_insert alloc h k v
  end.

Definition hash_get (h : xMapHash) k : ub Z :=
  c ← h_buckets h !! bucket_idx (h_cap h) k;
  Some (default 0%Z (chain_get k c)).

Definition hash_del (h : xMapHash) k : ub (Z * xMapHash) :=
  let idx := bucket_idx (h_cap h) k in
  c ← h_buckets h !! idx;
  match chain_del k c with
  | None => Some (0%Z, h)
  | Some (val, c') =>
      b ← mem_set (h_buckets h) idx c';
      Some (val, {| h_buckets := b; h_size := u64 (h_size h - 1); h_cap := h_cap h |})
  end.

Definition hash_len (h : xMapHash) : nat := Z.to_nat (h_size h).

(** The entries in the order [hash_iterate] visits them. *)
Definition hash_iterate (h : xMapHash) : list (K * Z) := concat (h_buckets h).

(** [xMapHashCreate]: the struct and the first bucket array are one block. *)
Definition xMapHashCreate (alloc : oracle) (cap : Z) : option xMapHash :=
  if alloc (u64 (sizeof_xMapHash + cap * 8)) then
    Some {| h_buckets := replicate (Z.to_nat cap) []; h_size := 0; h_cap := cap |}
  else None.

#[export] Instance hash_xmap : XMap K xMapHash := {
  map_set := hash_set;
  map_get := hash_get;
  map_del := hash_del;
  map_len := hash_len;
  map_iterate := hash_iterate;
}.

(** ** Buckets *)

Context `{!MapKeyOk K}.

Lemma bucket_idx_lt cap k : (0 < cap <= 2 ^ 64)%Z -> bucket_idx cap k < Z.to_nat cap.
Proof.
  intros H. unfold bucket_idx, u64. rewrite Z.mod_small by lia.
  pose proof (khash_range k). pose proof (land_bound (khash k) (cap - 1)). lia.
Qed.

(** ** The invariant *)

(** Every entry sits in the bucket of its hash. *)
Definition placed (cap : Z) (b : list xMapHashEntry) : Prop :=
  forall i c p, b !! i = Some c -> p ∈ c -> bucket_idx cap p.1 = i.

Record hash_inv (h : xMapHash) : Prop := {
  hi_cap : (0 < h_cap h)%Z /\ (h_cap h * 8 <= SIZE_MAX)%Z;
  hi_len : length (h_buckets h) = Z.to_nat (h_cap h);
  hi_size : h_size h = Z.of_nat (length (hash_iterate h));
  hi_load : (h_size h <= h_cap h * 3 / 4)%Z;
  hi_placed : placed (h_cap h) (h_buckets h);
  hi_uniq : uniq (hash_iterate h);
}.

Lemma placed_other cap b i k :
  placed cap b -> (forall c, b !! i = Some c -> bucket_idx cap k <> i) ->
  forall c, b !! i = Some c -> fresh k c.
Proof.
  intros P N c Hc. unfold fresh. apply Forall_forall. intros p Hp.
  destruct (keq p.1 k) eqn:E; [|done]. destruct (N c Hc).
  rewrite <- (P i c p Hc Hp). unfold bucket_idx. by rewrite (khash_keq _ _ E).
Qed.

Lemma fresh_concat k (b : list xMapHashEntry) :
  (forall i c, b !! i = Some c -> fresh k c) -> fresh k (concat b).
Proof.
  unfold fresh. induction b as [|c b IH]; intros H; [constructor|].
  simpl. apply Forall_app. split; [by apply (H 0)|]. apply IH. intros i. apply (H (S i)).
Qed.

(** The contents around the bucket of [k]. *)
Lemma placed_split cap b k c :
  placed cap b -> b !! bucket_idx cap k = Some c ->
  exists A B, concat b = A ++ c ++ B /\ fresh k A /\ fresh k B /\
    forall c', mem_set b (bucket_idx cap k) c' = Some (<[bucket_idx cap k := c']> b) /\
      concat (<[bucket_idx cap k := c']> b) = A ++ c' ++ B.
Proof.
  intros P Hc. pose proof (lookup_lt_Some _ _ _ Hc) as Hlt.
  set (i := bucket_idx cap k) in *.
  exists (concat (take i b)), (concat (drop (S i) b)).
  split; [by rewrite <- (take_drop_middle b i c Hc) at 1; rewrite concat_app|].
  split; [|split; [|intros c'; split]].
  - apply fresh_concat. intros j c0 Hj. apply lookup_take_Some in Hj as [Hj Hlt'].
    eapply (placed_other cap b j); [done| |done]. intros ? _. fold i. lia.
  - apply fresh_concat. intros j c0 Hj. rewrite lookup_drop in Hj.
    eapply (placed_other cap b (S i + j)); [done| |done]. intros ? _. fold i. lia.
  - by apply mem_set_Some.
  - rewrite insert_take_drop by done. by rewrite concat_app.
Qed.

Lemma placed_insert cap b i c' :
  placed cap b -> (forall p, p ∈ c' -> bucket_idx cap p.1 = i) -> placed cap (<[i := c']> b).
Proof.
  intros P H j c p. rewrite list_lookup_insert_Some.
  intros [(-> & <- & _)|[_ Hj]] Hp; [by apply H|by eapply P].
Qed.

Lemma rehash_chain_spec cap nb e :
  (0 < cap <= 2 ^ 64)%Z -> length nb = Z.to_nat cap -> placed cap nb ->
  exists nb', rehash_chain cap nb e = Some nb' /\ length nb' = Z.to_nat cap /\
    placed cap nb' /\ concat nb' ≡ₚ e ++ concat nb.
Proof.
  intros Hcap. revert nb. induction e as [|p e IH]; intros nb Hl P; cbn [rehash_chain].
  { by exists nb. }
  destruct (lookup_lt_is_Some_2 nb (bucket_idx cap p.1)) as [c Hc].
  { rewrite Hl. by apply bucket_idx_lt. }
  destruct (placed_split _ _ _ _ P Hc) as (A & B & E & _ & _ & Hset).
  destruct (Hset (p :: c)) as [Hm Hc'].
  rewrite Hc. cbn [mbind option_bind]. rewrite Hm. cbn [mbind option_bind].
  destruct (IH (<[bucket_idx cap p.1 := p :: c]> nb)) as (nb' & R & L & P' & Pe).
  - by rewrite length_insert.
  - apply placed_insert; [done|]. intros q [->|Hq]%elem_of_cons; [done|]. by eapply P.
  - exists nb'. split; [done|]. split; [done|]. split; [done|].
    rewrite Pe, Hc', E. solve_Permutation.
Qed.

Lemma rehash_spec cap nb old :
  (0 < cap <= 2 ^ 64)%Z -> length nb = Z.to_nat cap -> placed cap nb ->
  exists nb', rehash cap nb old = Some nb' /\ length nb' = Z.to_nat cap /\
    placed cap nb' /\ concat nb' ≡ₚ concat old ++ concat nb.
Proof.
  intros Hcap. revert nb. induction old as [|e old IH]; intros nb Hl P; cbn [rehash].
  { by exists nb. }
  destruct (rehash_chain_spec cap nb e Hcap Hl P) as (nb1 & -> & L1 & P1 & E1).
  cbn [mbind option_bind]. destruct (IH nb1 L1 P1) as (nb' & -> & L & P' & E).
  exists nb'. split; [done|]. split; [done|]. split; [done|].
  rewrite E, E1. simpl. solve_Permutation.
Qed.

Lemma concat_replicate_nil n : concat (replicate n ([] : xMapHashEntry)) = [].
Proof. by induction n. Qed.

Lemma placed_empty cap n : placed cap (replicate n []).
Proof. intros i c p [-> _]%lookup_replicate Hp. by apply not_elem_of_nil in Hp. Qed.

Lemma hash_resize_spec alloc h :
  hash_inv h -> exists e h', hash_resize alloc h = Some (e, h') /\ hash_inv h' /\
    hash_iterate h' ≡ₚ hash_iterate h /\
    (e = xErrno_Ok /\ h_cap h' = (h_cap h * 2)%Z \/ e = xErrno_NoMemory /\ h' = h) /\
    ((forall n, alloc n = true) -> (h_cap h <= 2 ^ 59)%Z -> e = xErrno_Ok).
Proof.
  intros I. pose proof I as [[Hc0 Hc1] Hl Hs Hld P U]. unfold hash_resize, SIZE_MAX in *.
  assert (u64 (h_cap h * 2) = h_cap h * 2)%Z as -> by (unfold u64; rewrite Z.mod_small; lia).
  destruct (calloc_ok alloc _ _) eqn:Ha.
  2: { exists xErrno_NoMemory, h. split; [done|]. split; [done|]. split; [done|].
       split; [by right|]. intros Hal Hc. unfold calloc_ok, SIZE_MAX in Ha.
       rewrite Hal, andb_true_r in Ha. lia. }
  apply andb_prop in Ha as [Hov%Z.leb_le _]. unfold SIZE_MAX in Hov.
  destruct (rehash_spec (h_cap h * 2) (replicate (Z.to_nat (h_cap h * 2)) []) (h_buckets h))
    as (nb & -> & L & P' & E); [lia|by rewrite length_replicate|apply placed_empty|].
  rewrite concat_replicate_nil, app_nil_r in E.
  eexists _, _. cbn [mbind option_bind]. split; [done|].
  split; [|split; [done|split; [by left|done]]].
  constructor; unfold hash_iterate; simpl; try done; unfold SIZE_MAX; try lia.
  - rewrite Hs. unfold hash_iterate. by rewrite E.
  - Z.to_euclidean_division_equations. lia.
  - by rewrite E.
Qed.

Lemma hash_insert_spec alloc h k v :
  hash_inv h -> fresh k (hash_iterate h) -> (h_size h + 1 <= h_cap h * 3 / 4)%Z ->
  exists e h', hash_insert alloc h k v = Some (e, h') /\ hash_inv h' /\
    (e = xErrno_Ok /\ hash_iterate h' ≡ₚ (k, v) :: hash_iterate h \/
     e = xErrno_NoMemory /\ hash_iterate h' ≡ₚ hash_iterate h) /\
    ((forall n, alloc n = true) -> e = xErrno_Ok).
Proof.
  intros I F Hld. pose proof I as [[Hc0 Hc1] Hl Hs _ P U]. unfold hash_insert, SIZE_MAX in *.
  destruct (alloc sizeof_entry) eqn:Ha.
  2: { exists xErrno_NoMemory, h. split; [done|]. split; [done|]. split; [by right|].
       intros H. by rewrite H in Ha. }
  destruct (lookup_lt_is_Some_2 (h_buckets h) (bucket_idx (h_cap h) k)) as [c Hc].
  { rewrite Hl. apply bucket_idx_lt. lia. }
  destruct (placed_split _ _ _ _ P Hc) as (A & B & E & _ & _ & Hset).
  destruct (Hset ((k, v) :: c)) as [Hm Hc'].
  rewrite Hc. cbn [mbind option_bind]. rewrite Hm. cbn [mbind option_bind].
  assert (concat (<[bucket_idx (h_cap h) k:=(k, v) :: c]> (h_buckets h))
    ≡ₚ (k, v) :: hash_iterate h) as HP.
  { rewrite Hc'. unfold hash_iterate. rewrite E. solve_Permutation. }
  eexists _, _. split; [done|]. split; [|split; [by left|done]].
  constructor; unfold hash_iterate in *; cbn [h_buckets h_size h_cap]; unfold SIZE_MAX; try done.
  - by rewrite length_insert.
  - rewrite HP. unfold u64. rewrite Z.mod_small; [|Z.to_euclidean_division_equations; lia].
    rewrite Hs. simpl length. lia.
  - unfold u64. rewrite Z.mod_small; [done|Z.to_euclidean_division_equations; lia].
  - apply placed_insert; [done|]. intros q [->|Hq]%elem_of_cons; [done|]. by eapply P.
  - rewrite HP. by split.
Qed.

Lemma hash_set_spec alloc h k v :
  hash_inv h -> exists e h', hash_set alloc h k v = Some (e, h') /\ hash_inv h' /\
    (e = xErrno_Ok /\ hash_iterate h' ≡ₚ spec_set k v (hash_iterate h) \/
     e = xErrno_NoMemory /\ hash_iterate h' ≡ₚ hash_iterate h) /\
    ((forall n, alloc n = true) -> (h_size h < 2 ^ 32)%Z -> e = xErrno_Ok).
Proof.
  intros I. pose proof I as [[Hc0 Hc1] Hl Hs Hld P U]. unfold hash_set, SIZE_MAX in *.
  destruct (lookup_lt_is_Some_2 (h_buckets h) (bucket_idx (h_cap h) k)) as [c Hc].
  { rewrite Hl. apply bucket_idx_lt. lia. }
  destruct (placed_split _ _ _ _ P Hc) as (A & B & E & FA & FB & Hset).
  rewrite Hc. cbn [mbind option_bind]. rewrite chain_set_spec.
  destruct (spec_find k c) as [v0|] eqn:Ef; cbn [mbind option_bind].
  - destruct (Hset (spec_replace k v c)) as [-> Hc'].
    cbn [mbind option_bind]. eexists _, _. split; [done|].
    destruct (spec_find_split _ _ _ Ef) as (c1 & k' & c2 & -> & F1 & Ek).
    rewrite (spec_replace_at _ _ _ _ _ _ F1 Ek) in Hc' |- *.
    unfold hash_iterate in *. rewrite E in U, Hs |- *.
    assert (A ++ (c1 ++ (k', v0) :: c2) ++ B = (A ++ c1) ++ (k', v0) :: (c2 ++ B)) as R
      by (by rewrite <- !app_assoc).
    assert (A ++ (c1 ++ (k', v) :: c2) ++ B = (A ++ c1) ++ (k', v) :: (c2 ++ B)) as R'
      by (by rewrite <- !app_assoc).
    rewrite R in U, Hs |- *. rewrite R' in Hc'. cbn [h_buckets]. rewrite Hc'.
    split; [|split; [left; split; [done|by rewrite spec_set_at]|done]].
    constructor; unfold hash_iterate; cbn [h_buckets h_size h_cap]; unfold SIZE_MAX; try done.
    + by rewrite length_insert.
    + rewrite Hc', Hs, !length_app. simpl. lia.
    + apply placed_insert; [done|]. intros p Hp.
      assert (exists q, q ∈ c1 ++ (k', v0) :: c2 /\ q.1 = p.1) as (q & Hq & <-).
      { rewrite elem_of_app, elem_of_cons in Hp. destruct Hp as [?|[->|?]].
        - exists p. set_solver.
        - exists (k', v0). set_solver.
        - exists p. set_solver. }
      by eapply P.
    + rewrite Hc'. by eapply uniq_replace_at.
  - apply spec_find_fresh in Ef. assert (fresh k (hash_iterate h)) as F.
    { unfold hash_iterate. rewrite E, !fresh_app. done. }
    rewrite (spec_set_fresh _ _ _ F).
    assert (0 <= h_size h)%Z by lia.
    assert (u64 (h_cap h * 3) = h_cap h * 3)%Z as -> by (unfold u64; rewrite Z.mod_small; lia).
    assert (u64 (h_size h + 1) = h_size h + 1)%Z as ->.
    { unfold u64. rewrite Z.mod_small; [done|]. Z.to_euclidean_division_equations. lia. }
    destruct (Z.ltb_spec (h_cap h * 3 / 4) (h_size h + 1)).
    + destruct (hash_resize_spec alloc h I) as (e & h' & -> & I' & E' & Hres & Htot).
      cbn [mbind option_bind fst snd].
      destruct Hres as [[-> Hcap]|[-> ->]].
      * rewrite <- E' in F. destruct (hash_insert_spec alloc h' k v I' F) as (e & h2 & -> & I2 & Ho & Ht).
        { pose proof (hi_size _ I') as Hs'. rewrite E', <- Hs in Hs'. rewrite Hs', Hcap.
          Z.to_euclidean_division_equations. lia. }
        exists e, h2. split; [done|]. split; [done|]. split; [|by auto].
        by rewrite <- E'.
      * exists xErrno_NoMemory, h. split; [done|]. split; [done|]. split; [by right|].
        intros Ha Hb. apply Htot; [done|]. Z.to_euclidean_division_equations. lia.
    + destruct (hash_insert_spec alloc h k v I F) as (e & h2 & -> & I2 & Ho & Ht); [lia|].
      exists e, h2. auto.
Qed.

Lemma hash_get_spec h k : hash_inv h -> hash_get h k = Some (spec_get k (hash_iterate h)).
Proof.
  intros [[Hc0 Hc1] Hl Hs Hld P U]. unfold hash_get, SIZE_MAX in *.
  destruct (lookup_lt_is_Some_2 (h_buckets h) (bucket_idx (h_cap h) k)) as [c Hc].
  { rewrite Hl. apply bucket_idx_lt. lia. }
  destruct (placed_split _ _ _ _ P Hc) as (A & B & E & FA & FB & _).
  rewrite Hc. cbn [mbind option_bind]. unfold spec_get, hash_iterate.
  rewrite chain_get_spec, E, !spec_find_app.
  rewrite (proj1 (spec_find_fresh _ _) FA), (proj1 (spec_find_fresh _ _) FB).
  by destruct (spec_find k c).
Qed.

Lemma hash_del_spec h k :
  hash_inv h -> exists h', hash_del h k = Some (spec_get k (hash_iterate h), h') /\
    hash_inv h' /\ hash_iterate h' ≡ₚ spec_del k (hash_iterate h).
Proof.
  intros I. pose proof I as [[Hc0 Hc1] Hl Hs Hld P U]. unfold hash_del, SIZE_MAX in *.
  destruct (lookup_lt_is_Some_2 (h_buckets h) (bucket_idx (h_cap h) k)) as [c Hc].
  { rewrite Hl. apply bucket_idx_lt. lia. }
  destruct (placed_split _ _ _ _ P Hc) as (A & B & E & FA & FB & Hset).
  rewrite Hc. cbn [mbind option_bind]. rewrite chain_del_spec.
  destruct (spec_find k c) as [v0|] eqn:Ef; cbn [mbind option_bind].
  - destruct (spec_find_split _ _ _ Ef) as (c1 & k' & c2 & -> & F1 & Ek).
    destruct (Hset (c1 ++ c2)) as [Hm Hc']. rewrite (spec_del_at _ _ _ _ _ F1 Ek).
    rewrite Hm. cbn [mbind option_bind]. eexists. unfold hash_iterate in *.
    assert (concat (h_buckets h) = (A ++ c1) ++ (k', v0) :: (c2 ++ B)) as R
      by (by rewrite E, <- !app_assoc).
    assert (A ++ (c1 ++ c2) ++ B = (A ++ c1) ++ (c2 ++ B)) as R' by (by rewrite <- !app_assoc).
    rewrite R' in Hc'. rewrite R in U, Hs |- *.
    unfold spec_get. rewrite (spec_find_at _ _ _ _ _ U Ek). split; [done|].
    cbn [h_buckets]. rewrite Hc'.
    split; [|by rewrite (spec_del_at _ _ _ _ _ (proj1 (uniq_at_fresh _ _ _ _ _ U Ek)) Ek)].
    rewrite length_app in Hs. simpl in Hs.
    assert (u64 (h_size h - 1) = h_size h - 1)%Z as ->.
    { unfold u64. rewrite Z.mod_small; [done|]. Z.to_euclidean_division_equations. lia. }
    constructor; unfold hash_iterate; cbn [h_buckets h_size h_cap]; unfold SIZE_MAX; try done.
    + by rewrite length_insert.
    + rewrite Hc', length_app. lia.
    + lia.
    + apply placed_insert; [done|]. intros p Hp. eapply P; [done|]. set_solver.
    + rewrite Hc'. by eapply uniq_remove_at.
  - apply spec_find_fresh in Ef. assert (fresh k (hash_iterate h)) as F.
    { unfold hash_iterate. rewrite E, !fresh_app. done. }
    exists h. unfold spec_get. rewrite (proj1 (spec_find_fresh _ _) F), spec_del_fresh by done.
    done.
Qed.

Lemma xMapHashCreate_spec alloc cap h :
  (0 < cap)%Z -> (cap * 8 <= SIZE_MAX)%Z -> xMapHashCreate alloc cap = Some h ->
  hash_inv h /\ hash_iterate h = [].
Proof.
  unfold xMapHashCreate. intros H1 H2 H. destruct (alloc _); simplify_eq.
  assert (concat (replicate (Z.to_nat cap) ([] : xMapHashEntry)) = []) as E
    by apply concat_replicate_nil.
  split; [|exact E]. constructor; unfold hash_iterate; cbn [h_buckets h_size h_cap]; rewrite ?E; try done.
  - by rewrite length_replicate.
  - apply Z.div_pos; lia.
  - apply placed_empty.
Qed.

#[export, refine] Instance hash_xmap_ok : XMapOk K xMapHash := {
  map_inv := hash_inv;
  map_inv_uniq h := hi_uniq h;
  map_len_ok := _;
  map_get_ok := hash_get_spec;
  map_set_ok := _;
  map_del_ok := hash_del_spec;
}.
Proof.
  - intros h I. simpl. unfold hash_len. rewrite (hi_size _ I). lia.
  - intros alloc h k v I. destruct (hash_set_spec alloc h k v I) as (e & h' & H1 & H2 & H3 & _).
    by exists e, h'.
Defined.

#[export] Instance hash_xmap_total : XMapTotal K xMapHash.
Proof.
  constructor. intros h k v I Hl.
  destruct (hash_set_spec (fun _ => true) h k v I) as (e & h' & H1 & _ & _ & H2).
  exists h'. simpl. rewrite H1, H2; try done. rewrite (hi_size _ I). exact Hl.
Qed.

End hash.

Arguments xMapHash K : clear implicits.
