(* ===== verification/MapTree.v ===== *)
(** * MapTree: the red-black tree backend ([libx/x/base/map_tree.c])

    Nodes are ordered by the hash of their keys; a node carries one primary
    entry and the chain of the others that collide with it.  The nodes of a map
    form a tree that nothing else points into, so the model is an inductive
    tree, and a pointer into it (with the [parent] links above it) is a subtree
    in a context: [ctx] lists, innermost first, the frames from the subtree up
    to the root.  A NULL pointer is [Leaf]; reading a field through it is the
    undefined outcome.

    The two fixups of the code spell out a case and its mirror image; here the
    side is a parameter [d]. *)

From stdpp Require Import sorting.
From S2P Require Import Prelude Errno MapIface.

Inductive xRBColor := RB_BLACK | RB_RED.

(** The side of a child. *)
Inductive dir := DLeft | DRight.

Definition flip (d : dir) : dir := match d with DLeft => DRight | DRight => DLeft end.

#[export] Instance xRBColor_eq_dec : EqDecision xRBColor.
Proof. solve_decision. Defined.
#[export] Instance dir_eq_dec : EqDecision dir.
Proof. solve_decision. Defined.

Section tree.
Context {K : Type}.

(** The fields of [xTreeNode] that are not links or the color. *)
Record entry := {
  e_hash : Z;
  e_key : K;
  e_val : Z;
  e_overflow : list (K * Z);
}.

Inductive xTreeNode :=
  | Leaf
  | Node (l : xTreeNode) (c : xRBColor) (e : entry) (r : xTreeNode).

(** One step towards the root: the hole is the child on side [f_dir]. *)
Record frame := {
  f_dir : dir;
  f_color : xRBColor;
  f_entry : entry;
  f_sib : xTreeNode;
}.

Abbreviation ctx := (list frame).
Implicit Types (t x w z : xTreeNode) (d : dir) (e : entry) (k : ctx).

(** A node given its child [a] on side [d] and its other child [b]. *)
Definition mk d (a : xTreeNode) (c : xRBColor) e (b : xTreeNode) : xTreeNode :=
  match d with DLeft => Node a c e b | DRight => Node b c e a end.

(** A node read from side [d]; undefined on NULL. *)
Definition view d t : ub (xTreeNode * xRBColor * entry * xTreeNode) :=
  match t with
  | Leaf => None
  | Node l c e r => Some (match d with DLeft => (l, c, e, r) | DRight => (r, c, e, l) end)
  end.

Definition plug_frame (f : frame) t : xTreeNode := mk (f_dir f) t (f_color f) (f_entry f) (f_sib f).

Fixpoint plug k t : xTreeNode :=
  match k with
  | [] => t
  | f :: k => plug k (plug_frame f t)
  end.

Definition is_red t : bool :=
  match t with Node _ RB_RED _ _ => true | _ => false end.

(** [if (n) n->color = c] *)
Definition set_color (c : xRBColor) t : xTreeNode :=
  match t with Leaf => Leaf | Node l _ e r => Node l c e r end.

Definition rotate_left x : ub xTreeNode :=
  match x with
  | Node a cx ex (Node b cy ey c) => Some (Node (Node a cx ex b) cy ey c)
  | _ => None
  end.

Definition rotate_right x : ub xTreeNode :=
  match x with
  | Node (Node a cy ey b) cx ex c => Some (Node a cy ey (Node b cx ex c))
  | _ => None
  end.

Definition rotate d : xTreeNode -> ub xTreeNode :=
  match d with DLeft => rotate_left | DRight => rotate_right end.

(** The loop of [insert_fixup] with [z] at [k]; it returns the whole tree. *)
Fixpoint insert_fixup_loop (fuel : nat) z k : ub xTreeNode :=
  match fuel with
  | 0 => None
  | S fuel =>
    match k with
    | [] => Some z
    | p :: k1 =>
      match f_color p with
      | RB_BLACK => Some (plug k z)
      | RB_RED =>
        match k1 with
        | [] => None
        | g :: k2 =>
          let d := f_dir g in
          let y := f_sib g in
          if is_red y then
            insert_fixup_loop fuel
              (mk d (mk (f_dir p) z RB_BLACK (f_entry p) (f_sib p)) RB_RED (f_entry g)
                 (set_color RB_BLACK y)) k2
          else
            t ← (if decide (f_dir p = flip d) then rotate d (plug_frame p z)
                 else Some (plug_frame p z));
            '(z1, _, ep, s) ← view d t;
            t ← rotate (flip d) (mk d (mk d z1 RB_BLACK ep s) RB_RED (f_entry g) y);
            '(z1, cp, ep, s) ← view d t;
            insert_fixup_loop fuel z1
              ({| f_dir := d; f_color := cp; f_entry := ep; f_sib := s |} :: k2)
        end
      end
    end
  end.

Definition insert_fixup z k : ub xTreeNode :=
  t ← insert_fixup_loop (S (length k)) z k;
  Some (set_color RB_BLACK t).

(** Case 1 of [delete_fixup], a red sibling, rotated away: the frame of
    [x_parent] and the path above it afterwards. *)
Definition delete_case1 x (p : frame) k1 : ub (frame * ctx) :=
  let d := f_dir p in
  if is_red (f_sib p) then
    t ← rotate d (mk d x RB_RED (f_entry p) (set_color RB_BLACK (f_sib p)));
    '(t, cw, ew, wr) ← view d t;
    '(_, cp, ep, w) ← view d t;
    Some ({| f_dir := d; f_color := cp; f_entry := ep; f_sib := w |},
          {| f_dir := d; f_color := cw; f_entry := ew; f_sib := wr |} :: k1)
  else Some (p, k1).

(** The loop of [delete_fixup] with [x] at [k]; it returns the final [x] and
    its position. *)
Fixpoint delete_fixup_loop (fuel : nat) x k : ub (xTreeNode * ctx) :=
  match fuel with
  | 0 => None
  | S fuel =>
    match k with
    | [] => Some (x, [])
    | p :: k1 =>
      if is_red x then Some (x, k) else
      let d := f_dir p in
      '(p, k1) ← delete_case1 x p k1;
      '(near, _, ew, far) ← view d (f_sib p);
      if negb (is_red near) && negb (is_red far) then
        delete_fixup_loop fuel (mk d x (f_color p) (f_entry p) (mk d near RB_RED ew far)) k1
      else
        w ← (if is_red far then Some (f_sib p)
             else rotate (flip d) (mk d (set_color RB_BLACK near) RB_RED ew far));
        '(near, _, ew, far) ← view d w;
        t ← rotate d (mk d x RB_BLACK (f_entry p)
                        (mk d near (f_color p) ew (set_color RB_BLACK far)));
        Some (plug k1 t, [])
    end
  end.

Definition delete_fixup x k : ub xTreeNode :=
  '(x, k) ← delete_fixup_loop (S (S (length k))) x k;
  Some (plug k (set_color RB_BLACK x)).

(** The leftmost node, as its color, entry and right child, with the path to
    it prepended to [k]. *)
Fixpoint tree_min t k : ub (xRBColor * entry * xTreeNode * ctx) :=
  match t with
  | Leaf => None
  | Node Leaf c e r => Some (c, e, r, k)
  | Node l c e r =>
      tree_min l ({| f_dir := DLeft; f_color := c; f_entry := e; f_sib := r |} :: k)
  end.

(** The search by hash of [find_node] and of [tree_set], with the way down. *)
Fixpoint find_node (h : Z) t k : xTreeNode * ctx :=
  match t with
  | Leaf => (Leaf, k)
  | Node l c e r =>
      if (h <? e_hash e)%Z then
        find_node h l ({| f_dir := DLeft; f_color := c; f_entry := e; f_sib := r |} :: k)
      else if (e_hash e <? h)%Z then
        find_node h r ({| f_dir := DRight; f_color := c; f_entry := e; f_sib := l |} :: k)
      else (t, k)
  end.

(** ** In-order contents *)

Fixpoint nodes t : list entry :=
  match t with
  | Leaf => []
  | Node l _ e r => nodes l ++ e :: nodes r
  end.

Fixpoint lefts k : list entry :=
  match k with
  | [] => []
  | f :: k =>
      lefts k ++ match f_dir f with DLeft => [] | DRight => nodes (f_sib f) ++ [f_entry f] end
  end.

Fixpoint rights k : list entry :=
  match k with
  | [] => []
  | f :: k =>
      match f_dir f with DLeft => f_entry f :: nodes (f_sib f) | DRight => [] end ++ rights k
  end.

Lemma nodes_plug k t : nodes (plug k t) = lefts k ++ nodes t ++ rights k.
Proof.
  revert t. induction k as [|[d c e s] k IH]; intros t; simpl; [by rewrite app_nil_r|].
  rewrite IH. destruct d; simpl; by rewrite <- ?app_assoc, ?app_nil_r.
Qed.

Lemma nodes_set_color c t : nodes (set_color c t) = nodes t.
Proof. by destruct t. Qed.

Lemma plug_app k1 k2 t : plug (k1 ++ k2) t = plug k2 (plug k1 t).
Proof. revert t. induction k1 as [|f k1 IH]; intros t; simpl; [done|]. by rewrite IH. Qed.

(** ** Red-black trees *)

(** [rb n t]: no red node has a red child, and [n] black nodes on every path. *)
Fixpoint rb (n : nat) t : Prop :=
  match t with
  | Leaf => n = 0
  | Node l RB_RED _ r => rb n l /\ rb n r /\ is_red l = false /\ is_red r = false
  | Node l RB_BLACK _ r => match n with 0 => False | S m => rb m l /\ rb m r end
  end.

Definition well_coloured t : Prop := is_red t = false /\ exists n, rb n t.

(** The node above the hole exists and is black. *)
Definition parent_black k : Prop :=
  match k with [] => False | f :: _ => f_color f = RB_BLACK end.

(** [rctx n k]: plugging a tree with [n] black nodes on every path keeps the
    discipline everywhere above it, the color of its own root aside. *)
Fixpoint rctx (n : nat) k : Prop :=
  match k with
  | [] => True
  | f :: k =>
      rb n (f_sib f) /\
      match f_color f with
      | RB_RED => is_red (f_sib f) = false /\ parent_black k /\ rctx n k
      | RB_BLACK => rctx (S n) k
      end
  end.

Lemma rb_mk_red n d a e b :
  rb n (mk d a RB_RED e b) <-> rb n a /\ rb n b /\ is_red a = false /\ is_red b = false.
Proof. destruct d; simpl; tauto. Qed.

Lemma rb_mk_black n d a e b : rb (S n) (mk d a RB_BLACK e b) <-> rb n a /\ rb n b.
Proof. destruct d; simpl; tauto. Qed.

Lemma rb_set_black n t : rb n t -> exists m, rb m (set_color RB_BLACK t).
Proof.
  destruct t as [|l [] e r]; simpl; [by exists 0|by exists n|].
  intros (? & ? & _). by exists (S n).
Qed.

Lemma rb_set_black_red n t : is_red t = true -> rb n t -> rb (S n) (set_color RB_BLACK t).
Proof. destruct t as [|l [] e r]; simpl; try done. tauto. Qed.

Lemma rb_set_black_black n t : is_red t = false -> rb n t -> rb n (set_color RB_BLACK t).
Proof. by destruct t as [|l [] e r]. Qed.

Lemma is_red_set_black t : is_red (set_color RB_BLACK t) = false.
Proof. by destruct t. Qed.

Lemma is_red_mk d a c e b : is_red (mk d a c e b) = match c with RB_RED => true | _ => false end.
Proof. by destruct d, c. Qed.

Lemma plug_rb n k t :
  rctx n k -> rb n t -> (is_red t = false \/ parent_black k \/ k = []) -> exists m, rb m (plug k t).
Proof.
  revert n t. induction k as [|[d c e s] k IH]; simpl; intros n t; [by exists n|].
  intros [Hs Hk] Ht Hc. destruct c.
  - apply (IH (S n)); [done|by apply rb_mk_black|]. left. unfold plug_frame. simpl. by destruct d.
  - destruct Hk as (Hr & Hp & Hk). apply (IH n); [done| |auto].
    apply rb_mk_red. simpl. intuition congruence.
Qed.

Lemma plug_root_black n k t : rctx n k -> k <> [] -> is_red (plug k t) = false.
Proof.
  revert n t. induction k as [|[d c e s] k IH]; intros n t Hk N; [done|].
  destruct Hk as [_ Hk]. destruct k as [|f k].
  - destruct c; [|by destruct Hk as (_ & [] & _)]. by destruct d.
  - destruct c; [by apply (IH (S n))|]. destruct Hk as (_ & _ & Hk). by apply (IH n).
Qed.

Lemma rotate_mk d a cx ex b cy ey c :
  rotate d (mk d a cx ex (mk d b cy ey c)) = Some (mk d (mk d a cx ex b) cy ey c).
Proof. by destruct d. Qed.

Lemma rotate_mk_flip d a cx ex b cy ey c :
  rotate (flip d) (mk d (mk d a cx ex b) cy ey c) = Some (mk d a cx ex (mk d b cy ey c)).
Proof. by destruct d. Qed.

Lemma view_mk d a c e b : view d (mk d a c e b) = Some (a, c, e, b).
Proof. by destruct d. Qed.

Lemma mk_flip d a c e b : mk (flip d) a c e b = mk d b c e a.
Proof. by destruct d. Qed.

Lemma mk_cases d t : t = Leaf \/ exists a c e b, t = mk d a c e b.
Proof. destruct t as [|l c e r]; [by left|right]. destruct d; by repeat eexists. Qed.

(** Rebuilding the tree around a hole does not depend on what fills it. *)
Lemma nodes_plug_cong k t t' : nodes t = nodes t' -> nodes (plug k t) = nodes (plug k t').
Proof. intros H. by rewrite !nodes_plug, H. Qed.

Lemma nodes_mk_cong d a a' c c' e b b' :
  nodes a = nodes a' -> nodes b = nodes b' -> nodes (mk d a c e b) = nodes (mk d a' c' e b').
Proof. intros Ha Hb. destruct d; simpl; by rewrite Ha, Hb. Qed.

Lemma nodes_mk_rotate d a c1 e1 b c2 e2 r c1' c2' :
  nodes (mk d (mk d a c1 e1 b) c2 e2 r) = nodes (mk d a c1' e1 (mk d b c2' e2 r)).
Proof. destruct d; simpl; by rewrite <- app_assoc. Qed.

(** Straightening: the child [z] of [p] becomes a child on side [d], after a
    rotation when it was on the other one. *)
Lemma straighten d n z p :
  is_red z = true -> rb n z -> f_color p = RB_RED -> rb n (f_sib p) -> is_red (f_sib p) = false ->
  exists z1 e1 s1,
    (if decide (f_dir p = flip d) then rotate d (plug_frame p z) else Some (plug_frame p z))
      = Some (mk d z1 RB_RED e1 s1) /\
    nodes (mk d z1 RB_RED e1 s1) = nodes (plug_frame p z) /\
    rb n z1 /\ is_red z1 = true /\ rb n s1 /\ is_red s1 = false.
Proof.
  intros Hz Hr Hp Hs Hsr. unfold plug_frame. destruct p as [dp cp ep sp]; simpl in *. subst cp.
  destruct (decide (dp = flip d)) as [->|Hd].
  - rewrite mk_flip. destruct (mk_cases d z) as [->|(a & c & e & b & ->)]; [done|].
    rewrite is_red_mk in Hz. destruct c; [done|]. apply rb_mk_red in Hr as (? & ? & ? & ?).
    rewrite rotate_mk. exists (mk d sp RB_RED ep a), e, b. split; [done|].
    split; [apply nodes_mk_rotate|]. rewrite rb_mk_red, is_red_mk. done.
  - assert (dp = d) as -> by (by destruct dp, d). by exists z, ep, sp.
Qed.

Lemma insert_fixup_loop_spec fuel n z k :
  length k < fuel -> rb n z -> is_red z = true -> rctx n k ->
  exists t, insert_fixup_loop fuel z k = Some t /\ nodes t = nodes (plug k z) /\ exists m, rb m t.
Proof.
  revert n z k. induction fuel as [|fuel IH]; intros n z k Hf Hr Hz Hk; [lia|].
  destruct k as [|p k1]; simpl; [by eauto|].
  destruct (f_color p) eqn:Ecp.
  { eexists. split; [done|]. split; [done|]. apply (plug_rb n (p :: k1)); auto. }
  destruct Hk as [Hs Hk]. rewrite Ecp in Hk. destruct Hk as (Hsr & Hpb & Hk1).
  destruct k1 as [|g k2]; [done|]. simpl in Hpb. destruct Hk1 as [Hy Hk2].
  rewrite Hpb in Hk2. simpl in Hf. destruct (is_red (f_sib g)) eqn:Ey.
  - destruct (IH (S n) (mk (f_dir g) (mk (f_dir p) z RB_BLACK (f_entry p) (f_sib p)) RB_RED
      (f_entry g) (set_color RB_BLACK (f_sib g))) k2) as (t & -> & Hn & Hm).
    + lia.
    + apply rb_mk_red. rewrite is_red_mk, is_red_set_black, rb_mk_black.
      split; [done|]. split; [by apply rb_set_black_red|done].
    + by rewrite is_red_mk.
    + done.
    + exists t. split; [done|]. split; [|done]. rewrite Hn. simpl. apply nodes_plug_cong.
      unfold plug_frame at 1. apply nodes_mk_cong; [by apply nodes_mk_cong|apply nodes_set_color].
  - destruct (straighten (f_dir g) n z p Hz Hr Ecp Hs Hsr)
      as (z1 & e1 & s1 & -> & Hn1 & Hz1 & Hzr1 & Hs1 & Hsr1).
    cbn [mbind option_bind]. rewrite view_mk. cbn [mbind option_bind].
    rewrite rotate_mk_flip. cbn [mbind option_bind]. rewrite view_mk. cbn [mbind option_bind].
    destruct (IH n z1 ({| f_dir := f_dir g; f_color := RB_BLACK; f_entry := e1;
      f_sib := mk (f_dir g) s1 RB_RED (f_entry g) (f_sib g) |} :: k2)) as (t & -> & Hn & Hm).
    + simpl. lia.
    + done.
    + done.
    + simpl. rewrite rb_mk_red. done.
    + exists t. split; [done|]. split; [|done]. rewrite Hn. simpl. apply nodes_plug_cong.
      unfold plug_frame at 1 2. simpl.
      rewrite <- (nodes_mk_rotate _ _ RB_RED _ _ (f_color g)). by apply nodes_mk_cong.
Qed.

Lemma insert_fixup_spec n z k :
  rb n z -> is_red z = true -> rctx n k ->
  exists t, insert_fixup z k = Some t /\ nodes t = nodes (plug k z) /\ well_coloured t.
Proof.
  intros Hr Hz Hk. destruct (insert_fixup_loop_spec (S (length k)) n z k)
    as (t & E & Hn & m & Hm); [lia|done..|].
  unfold insert_fixup. rewrite E. eexists. split; [done|].
  split; [by rewrite nodes_set_color|]. split; [apply is_red_set_black|by eapply rb_set_black].
Qed.

(** After case 1 the sibling is black and as high as the deficit asks for. *)
Lemma delete_case1_spec n x p k1 :
  rctx (S n) (p :: k1) ->
  exists p' k1', delete_case1 x p k1 = Some (p', k1') /\ f_dir p' = f_dir p /\
    is_red (f_sib p') = false /\ rctx (S n) (p' :: k1') /\
    nodes (plug (p' :: k1') x) = nodes (plug (p :: k1) x) /\
    (f_color p' = RB_RED /\ length k1' = S (length k1) \/ k1' = k1).
Proof.
  destruct p as [d c e s]. intros [Hs Hk]. unfold delete_case1. cbn [f_dir f_color f_entry f_sib] in *.
  destruct (is_red s) eqn:Es.
  2: { eexists _, _. split; [done|]. cbn [f_dir f_color f_entry f_sib].
       split; [done|]. split; [done|]. split; [simpl; by rewrite Es|]. split; [done|by right]. }
  destruct c; [|by destruct Hk].
  destruct (mk_cases d s) as [->|(a & cw & ew & b & ->)]; [done|].
  rewrite is_red_mk in Es. destruct cw; [done|]. apply rb_mk_red in Hs as (Ha & Hb & Har & Hbr).
  assert (set_color RB_BLACK (mk d a RB_RED ew b) = mk d a RB_BLACK ew b) as -> by (by destruct d).
  rewrite rotate_mk. cbn [mbind option_bind]. rewrite !view_mk. cbn [mbind option_bind].
  rewrite view_mk. cbn [mbind option_bind].
  eexists _, _. split; [done|]. cbn [f_dir f_color f_entry f_sib]. split; [done|]. split; [done|].
  split; [|split; [|by left]].
  - simpl. split_and!; try done.
  - simpl. apply nodes_plug_cong. unfold plug_frame. simpl. apply nodes_mk_rotate.
Qed.

(** The subtree that is one black node short; a red root makes up for it when
    it is blackened. *)
Definition deficit (n : nat) x : Prop :=
  if is_red x then rb (S n) (set_color RB_BLACK x) else rb n x.

Lemma delete_fixup_loop_spec fuel n x k :
  length k + (if is_red x then 0 else 1) < fuel -> deficit n x -> rctx (S n) k ->
  exists x' k', delete_fixup_loop fuel x k = Some (x', k') /\
    nodes (plug k' x') = nodes (plug k x) /\ well_coloured (plug k' (set_color RB_BLACK x')).
Proof.
  unfold deficit.
  revert n x k. induction fuel as [|fuel IH]; intros n x k Hf Hr Hk; [lia|].
  destruct k as [|p k1]; cbn [delete_fixup_loop].
  { exists x, []. split; [done|]. split; [done|]. split; [apply is_red_set_black|].
    destruct (is_red x); [by eexists|by eapply rb_set_black]. }
  destruct (is_red x) eqn:Ex.
  { exists x, (p :: k1). split; [done|]. split; [done|]. split; [by eapply plug_root_black|].
    eapply plug_rb; [done..|]. left. apply is_red_set_black. }
  destruct (delete_case1_spec n x p k1 Hk) as (p' & k1' & -> & Hd & Hb & Hk' & Hn & Hc).
  cbn [mbind option_bind]. rewrite <- Hd, <- Hn. clear Hk Hn Hd.
  destruct p' as [d c e s]. destruct Hk' as [Hs Hk]. cbn [f_dir f_color f_entry f_sib] in *.
  destruct (mk_cases d s) as [->|(a & cw & ew & b & ->)]; [done|].
  rewrite is_red_mk in Hb. destruct cw; [|done]. apply rb_mk_black in Hs as [Ha Hbb].
  rewrite view_mk. cbn [mbind option_bind].
  destruct (negb (is_red a) && negb (is_red b)) eqn:Eab.
  - (* case 2 *)
    apply andb_prop in Eab as [Ea%negb_true_iff Eb%negb_true_iff].
    assert (rb (S n) (mk d x RB_BLACK e (mk d a RB_RED ew b))) as Hm.
    { by rewrite rb_mk_black, rb_mk_red. }
    destruct (IH (if c is RB_BLACK then S n else n) (mk d x c e (mk d a RB_RED ew b)) k1')
      as (x' & k' & -> & Hn & Hw).
    + rewrite is_red_mk. simpl in Hf. destruct c, Hc as [[? ?]| ->]; try done; lia.
    + rewrite is_red_mk. destruct c; [done|]. by destruct d.
    + destruct c; [done|]. by destruct Hk as (_ & _ & ?).
    + exists x', k'. split; [done|]. split; [|done]. rewrite Hn. cbn [plug].
      apply nodes_plug_cong. apply nodes_mk_cong; [done|]. by apply nodes_mk_cong.
  - (* cases 3 and 4 *)
    assert (exists a1 e1 b1,
      (if is_red b then Some (mk d a RB_BLACK ew b)
       else rotate (flip d) (mk d (set_color RB_BLACK a) RB_RED ew b)) =
        Some (mk d a1 RB_BLACK e1 b1) /\
      rb n a1 /\ rb (S n) (set_color RB_BLACK b1) /\
      nodes (mk d a1 RB_BLACK e1 b1) = nodes (mk d a RB_BLACK ew b)) as (a1 & e1 & b1 & -> & Ha1 & Hb1 & Hn1).
    { destruct (is_red b) eqn:Eb.
      - exists a, ew, b. split; [done|]. split; [done|]. split; [by apply rb_set_black_red|done].
      - destruct (mk_cases d a) as [->|(a0 & ca & ea & b0 & ->)]; [done|].
        rewrite is_red_mk in Eab. destruct ca; [done|].
        apply rb_mk_red in Ha as (? & ? & ? & ?).
        assert (set_color RB_BLACK (mk d a0 RB_RED ea b0) = mk d a0 RB_BLACK ea b0) as ->
          by (by destruct d).
        rewrite rotate_mk_flip. exists a0, ea, (mk d b0 RB_RED ew b). split; [done|].
        split; [done|]. split; [|symmetry; apply nodes_mk_rotate].
        assert (set_color RB_BLACK (mk d b0 RB_RED ew b) = mk d b0 RB_BLACK ew b) as ->
          by (by destruct d). by apply rb_mk_black. }
    cbn [mbind option_bind]. rewrite view_mk. cbn [mbind option_bind].
    rewrite rotate_mk. cbn [mbind option_bind].
    eexists _, _. split; [done|]. cbn [plug]. split.
    + apply nodes_plug_cong. unfold plug_frame. cbn [f_dir f_color f_entry f_sib].
      rewrite (nodes_mk_rotate _ _ _ _ _ _ _ _ RB_BLACK RB_BLACK).
      apply nodes_mk_cong; [done|]. rewrite <- Hn1. apply nodes_mk_cong; [done|].
      apply nodes_set_color.
    + split; [apply is_red_set_black|].
      assert (exists m, rb m (plug k1' (mk d (mk d x RB_BLACK e a1) c e1 (set_color RB_BLACK b1))))
        as [m Hm]; [|by eapply rb_set_black].
      destruct c.
      * eapply plug_rb; [done|by rewrite rb_mk_black, rb_mk_black|]. left. by rewrite is_red_mk.
      * destruct Hk as (_ & Hp & Hk). eapply plug_rb; [done| |by right; left].
        rewrite rb_mk_red, rb_mk_black, is_red_mk, is_red_set_black. done.
Qed.

Lemma delete_fixup_spec n x k :
  deficit n x -> rctx (S n) k ->
  exists t, delete_fixup x k = Some t /\ nodes t = nodes (plug k x) /\ well_coloured t.
Proof.
  intros Hx Hk. destruct (delete_fixup_loop_spec (S (S (length k))) n x k)
    as (x' & k' & E & Hn & Hw); [destruct (is_red x); lia|done..|].
  unfold delete_fixup. rewrite E. eexists. split; [done|]. split; [|done].
  rewrite <- Hn. apply nodes_plug_cong, nodes_set_color.
Qed.

(** ** The search *)

Definition sorted (l : list entry) : Prop := StronglySorted (fun a b => (e_hash a < e_hash b)%Z) l.

Lemma find_node_spec h t k t' k' :
  find_node h t k = (t', k') ->
  plug k' t' = plug k t /\
  match t' with Leaf => True | Node _ _ e _ => e_hash e = h end /\
  (sorted (nodes t) -> Forall (fun e => (e_hash e < h)%Z) (lefts k) ->
   Forall (fun e => (h < e_hash e)%Z) (rights k) ->
   Forall (fun e => (e_hash e < h)%Z) (lefts k') /\ Forall (fun e => (h < e_hash e)%Z) (rights k')).
Proof.
  revert k. induction t as [|l IHl c e r IHr]; intros k; simpl; [intros; by simplify_eq|].
  destruct (Z.ltb_spec h (e_hash e)) as [Hlt|Hge];
    [|destruct (Z.ltb_spec (e_hash e) h) as [Hgt|Hle]].
  - intros (Hp & He & Hs)%IHl. split; [done|]. split; [done|].
    unfold sorted. rewrite StronglySorted_app, StronglySorted_cons.
    intros (_ & Sl & Fr & Sr) HL HR. apply Hs; simpl; [done|by rewrite app_nil_r|].
    constructor; [done|]. apply Forall_app. split; [|done].
    eapply Forall_impl; [exact Fr|]. simpl. lia.
  - intros (Hp & He & Hs)%IHr. split; [done|]. split; [done|].
    unfold sorted. rewrite StronglySorted_app, StronglySorted_cons.
    intros (C & Sl & Fr & Sr) HL HR. apply Hs; simpl; [done| |done].
    rewrite !Forall_app, Forall_singleton. split; [done|]. split; [|done].
    apply Forall_forall. intros x Hx. assert (e_hash x < e_hash e)%Z by (apply C; [done|by left]). lia.
  - intros [= <- <-]. split; [done|]. split; [lia|done].
Qed.

Lemma unplug_rb m k t :
  rb m (plug k t) -> is_red (plug k t) = false ->
  exists n, rb n t /\ rctx n k /\ (is_red t = true -> parent_black k).
Proof.
  revert t. induction k as [|[d c e s] k IH]; intros t H Hr; simpl in *.
  { exists m. split; [done|]. split; [done|]. congruence. }
  destruct (IH _ H Hr) as (n & Hn & Hk & Hp). unfold plug_frame in *. simpl in *.
  rewrite is_red_mk in Hp. destruct c.
  - destruct n as [|n]; [by destruct d|]. apply rb_mk_black in Hn as [? ?]. by exists n.
  - apply rb_mk_red in Hn as (? & ? & Ht & ?). exists n. split; [done|]. split; [auto|].
    by rewrite Ht.
Qed.

Lemma tree_min_spec l c e r k :
  exists c1 e1 r1 k1, tree_min (Node l c e r) k = Some (c1, e1, r1, k1 ++ k) /\
    plug k1 (Node Leaf c1 e1 r1) = Node l c e r /\ lefts k1 = [].
Proof.
  revert c e r k. induction l as [|l1 IH c0 e0 r0 _]; intros c e r k.
  { exists c, e, r, []. done. }
  destruct (IH c0 e0 r0 ({| f_dir := DLeft; f_color := c; f_entry := e; f_sib := r |} :: k))
    as (c1 & e1 & r1 & k1 & Hm & Hp & Hl).
  exists c1, e1, r1, (k1 ++ [{| f_dir := DLeft; f_color := c; f_entry := e; f_sib := r |}]).
  split; [|split].
  - change (tree_min (Node (Node l1 c0 e0 r0) c e r) k) with
      (tree_min (Node l1 c0 e0 r0) ({| f_dir := DLeft; f_color := c; f_entry := e; f_sib := r |} :: k)).
    by rewrite Hm, <- app_assoc.
  - by rewrite plug_app, Hp.
  - clear -Hl. induction k1 as [|f k1 IH]; [done|]. simpl in *.
    apply app_eq_nil in Hl as [Hl Hf]. by rewrite IH, Hf.
Qed.

(** The height of a red-black tree. *)
Fixpoint height t : nat :=
  match t with Leaf => 0 | Node l _ _ r => S (Nat.max (height l) (height r)) end.

Lemma rb_height n t : rb n t -> height t <= 2 * n + (if is_red t then 1 else 0).
Proof.
  revert n. induction t as [|l IHl [] e r IHr]; intros n; simpl; [lia| |].
  - destruct n as [|n]; [done|]. intros [Hl%IHl Hr%IHr]. destruct (is_red l), (is_red r); lia.
  - intros (Hl%IHl & Hr%IHr & El & Er). rewrite El in Hl. rewrite Er in Hr. lia.
Qed.

Lemma rb_size n t : rb n t -> 2 ^ n <= S (length (nodes t)).
Proof.
  revert n. induction t as [|l IHl [] e r IHr]; intros n; simpl.
  - intros ->. simpl. lia.
  - destruct n as [|n]; [done|]. intros [Hl%IHl Hr%IHr].
    rewrite length_app. simpl. lia.
  - intros (Hl%IHl & Hr%IHr & _). rewrite length_app. simpl. lia.
Qed.

End tree.

Arguments entry K : clear implicits.
Arguments xTreeNode K : clear implicits.
Arguments frame K : clear implicits.

(** ** The map *)

Section map.
Context {K : Type} `{!MapKey K}.

Record xMapTree := {
  t_root : xTreeNode K;
  t_size : Z;
}.

Definition sizeof_xTreeNode : Z := 64.
Definition sizeof_xTreeOverflow : Z := 24.
Definition sizeof_xMapTree : Z := 56.

(** Each entry is an object of its own, so their number, [size], cannot reach
    the width of [size_t]. *)
Definition tree_set (alloc : oracle) (m : xMapTree) (key : K) (val : Z) : ub (xErrno * xMapTree) :=
  let h := khash key in
  match find_node h (t_root m) [] with
  | (Leaf, k) =>
      if alloc sizeof_xTreeNode then
        root ← insert_fixup (Node Leaf RB_RED
          {| e_hash := h; e_key := key; e_val := val; e_overflow := [] |} Leaf) k;
        Some (xErrno_Ok, {| t_root := root; t_size := t_size m + 1 |})
      else Some (xErrno_NoMemory, m)
  | (Node l c cur r, k) =>
      let update cur n :=
        Some (xErrno_Ok, {| t_root := plug k (Node l c cur r); t_size := n |}) in
      if keq (e_key cur) key then
        update {| e_hash := e_hash cur; e_key := e_key cur; e_val := val;
                  e_overflow := e_overflow cur |} (t_size m)
      else
        match chain_set key val (e_overflow cur) with
        | Some o =>
            update {| e_hash := e_hash cur; e_key := e_key cur; e_val := e_val cur;
                      e_overflow := o |} (t_size m)
        | None =>
            if alloc sizeof_xTreeOverflow then
              update {| e_hash := e_hash cur; e_key := e_key cur; e_val := e_val cur;
                        e_overflow := (key, val) :: e_overflow cur |} (t_size m + 1)%Z
            else Some (xErrno_NoMemory, m)
        end
  end.

Definition tree_get (m : xMapTree) (key : K) : ub Z :=
  match (find_node (khash key) (t_root m) []).1 with
  | Leaf => Some 0%Z
  | Node _ _ n _ =>
      if keq (e_key n) key then Some (e_val n)
      else Some (default 0%Z (chain_get key (e_overflow n)))
  end.

(** The removal of the node [Node l c n r] at [k]: it is spliced out, or its
    in-order successor takes its place and color. *)
Definition tree_unlink (l : xTreeNode K) (c : xRBColor) (r : xTreeNode K) (n : entry K) (k : list (frame K))
    : ub (xTreeNode K) :=
  '(y_orig, x, xk) ←
    match l, r with
    | Leaf, _ => Some (c, r, k)
    | _, Leaf => Some (c, l, k)
    | _, _ =>
        '(y_orig, y, x, path) ← tree_min r [];
        Some (y_orig, x, path ++ {| f_dir := DRight; f_color := c; f_entry := y; f_sib := l |} :: k)
    end;
  match y_orig with
  | RB_BLACK => delete_fixup x xk
  | RB_RED => Some (plug xk x)
  end.

Definition tree_del (m : xMapTree) (key : K) : ub (Z * xMapTree) :=
  match find_node (khash key) (t_root m) [] with
  | (Leaf, _) => Some (0%Z, m)
  | (Node l c n r, k) =>
      if keq (e_key n) key then
        match e_overflow n with
        | (ok, ov) :: next =>
            Some (e_val n,
              {| t_root := plug k (Node l c {| e_hash := e_hash n; e_key := ok; e_val := ov;
                                              e_overflow := next |} r);
                 t_size := t_size m - 1 |})
        | [] =>
            root ← tree_unlink l c r n k;
            Some (e_val n, {| t_root := root; t_size := t_size m - 1 |})
        end
      else
        match chain_del key (e_overflow n) with
        | Some (val, o) =>
            Some (val,
              {| t_root := plug k (Node l c {| e_hash := e_hash n; e_key := e_key n;
                                              e_val := e_val n; e_overflow := o |} r);
                 t_size := t_size m - 1 |})
        | None => Some (0%Z, m)
        end
  end.

Definition tree_len (m : xMapTree) : nat := Z.to_nat (t_size m).

(** In order, a node's primary entry before its overflow chain. *)
Fixpoint iterate_subtree (n : xTreeNode K) : list (K * Z) :=
  match n with
  | Leaf => []
  | Node l _ e r => iterate_subtree l ++ (e_key e, e_val e) :: e_overflow e ++ iterate_subtree r
  end.

Definition tree_iterate (m : xMapTree) : list (K * Z) := iterate_subtree (t_root m).

(** The struct, then a slab of its own for nodes and for overflow entries. *)
Definition xMapTreeCreate (alloc slab : oracle) : option xMapTree :=
  if alloc sizeof_xMapTree && slab sizeof_xTreeNode && slab sizeof_xTreeOverflow then
    Some {| t_root := Leaf; t_size := 0 |}
  else None.

#[export] Instance tree_xmap : XMap K xMapTree := {
  map_set := tree_set;
  map_get := tree_get;
  map_del := tree_del;
  map_len := tree_len;
  map_iterate := tree_iterate;
}.

(** ** The invariant *)

Context `{!MapKeyOk K}.

Definition ents1 (e : entry K) : list (K * Z) := (e_key e, e_val e) :: e_overflow e.
Definition ents (l : list (entry K)) : list (K * Z) := concat (ents1 <$> l).

Lemma ents_app l1 l2 : ents (l1 ++ l2) = ents l1 ++ ents l2.
Proof. unfold ents. by rewrite fmap_app, concat_app. Qed.

Lemma iterate_subtree_ents n : iterate_subtree n = ents (nodes n).
Proof.
  induction n as [|l IHl c e r IHr]; simpl; [done|].
  change (e :: nodes r) with ([e] ++ nodes r). rewrite !ents_app, IHl, IHr.
  unfold ents at 4. simpl. by rewrite app_nil_r.
Qed.

(** All keys of a node have its hash. *)
Definition hash_ok (e : entry K) : Prop := Forall (fun key => khash key = e_hash e) (ents1 e).*1.

Definition content_ok (l : list (entry K)) : Prop := sorted l /\ Forall hash_ok l /\ uniq (ents l).

Record tree_inv (m : xMapTree) : Prop := {
  ti_rb : well_coloured (t_root m);
  ti_content : content_ok (nodes (t_root m));
  ti_size : t_size m = Z.of_nat (length (tree_iterate m));
}.

Lemma content_ok_mid h A M B M' :
  content_ok (A ++ M ++ B) -> Forall (fun e => (e_hash e < h)%Z) A ->
  Forall (fun e => (h < e_hash e)%Z) B -> uniq (ents (A ++ M' ++ B)) ->
  (M' = [] \/ exists e, M' = [e] /\ e_hash e = h /\ hash_ok e) -> content_ok (A ++ M' ++ B).
Proof.
  unfold content_ok, sorted. rewrite !StronglySorted_app, !Forall_app.
  intros ((_ & SA & _ & _ & SB) & (HA & _ & HB) & _) LA LB U HM. split_and!; try done.
  - intros a b Ha Hb. rewrite Forall_forall in LA, LB. apply elem_of_app in Hb as [Hb|Hb].
    + destruct HM as [->|(e & -> & <- & _)]; [by apply not_elem_of_nil in Hb|].
      apply list_elem_of_singleton in Hb as ->. by apply LA.
    + specialize (LA a Ha). specialize (LB b Hb). lia.
  - intros a b Ha Hb. rewrite Forall_forall in LB.
    destruct HM as [->|(e & -> & <- & _)]; [by apply not_elem_of_nil in Ha|].
    apply list_elem_of_singleton in Ha as ->. by apply LB.
  - destruct HM as [->|(e & -> & _)]; [constructor|]. by repeat constructor.
  - destruct HM as [->|(e & -> & _ & ?)]; [constructor|]. by apply Forall_singleton.
Qed.

(** Keys of another hash are not equivalent to [key]. *)
Lemma fresh_other_hash key l :
  Forall hash_ok l -> Forall (fun e => e_hash e <> khash key) l -> fresh key (ents l).
Proof.
  unfold fresh, ents. intros H1 H2. induction l as [|e l IH]; simpl; [constructor|].
  apply Forall_cons in H1 as [H1 ?]. apply Forall_cons in H2 as [H2 ?].
  change (Forall (fun p => keq p.1 key = false) (ents1 e ++ concat (ents1 <$> l))).
  apply Forall_app. split; [|by apply IH].
  unfold hash_ok in H1. rewrite Forall_fmap in H1.
  eapply Forall_impl; [exact H1|]. simpl. intros p Hp.
  destruct (keq p.1 key) eqn:E; [|done]. apply khash_keq in E. congruence.
Qed.

(** What the search finds, in terms of the contents. *)
Lemma tree_search m key t' k :
  tree_inv m -> find_node (khash key) (t_root m) [] = (t', k) ->
  exists L M R n, nodes (t_root m) = L ++ M ++ R /\
    Forall (fun e => (e_hash e < khash key)%Z) L /\
    Forall (fun e => (khash key < e_hash e)%Z) R /\
    fresh key (ents L) /\ fresh key (ents R) /\
    rb n t' /\ rctx n k /\ (is_red t' = true -> parent_black k) /\
    match t' with
    | Leaf => M = [] /\ L = lefts k /\ R = rights k
    | Node l c cur r =>
        M = [cur] /\ e_hash cur = khash key /\ hash_ok cur /\
        L = lefts k ++ nodes l /\ R = nodes r ++ rights k
    end.
Proof.
  intros [Hrb (Hs & Hh & Hu) _] Hf. destruct (find_node_spec _ _ _ _ _ Hf) as (Hp & He & Hb).
  destruct Hb as [HL HR]; [done|constructor..|]. simpl in Hp.
  destruct Hrb as [Hblack [n0 Hrb]]. rewrite <- Hp in Hblack, Hrb.
  destruct (unplug_rb _ _ _ Hrb Hblack) as (n & Hn & Hk & Hpb).
  rewrite <- Hp, nodes_plug in Hs, Hh |- *. clear Hp.
  assert (exists L M R, lefts k ++ nodes t' ++ rights k = L ++ M ++ R /\
    Forall (fun e => (e_hash e < khash key)%Z) L /\
    Forall (fun e => (khash key < e_hash e)%Z) R /\
    match t' with
    | Leaf => M = [] /\ L = lefts k /\ R = rights k
    | Node l c cur r =>
        M = [cur] /\ e_hash cur = khash key /\ hash_ok cur /\
        L = lefts k ++ nodes l /\ R = nodes r ++ rights k
    end) as (L & M & R & HE & HL' & HR' & HM).
  { destruct t' as [|l c cur r]; [by exists (lefts k), [], (rights k)|].
    exists (lefts k ++ nodes l), [cur], (nodes r ++ rights k). simpl in *.
    rewrite <- !app_assoc in Hs, Hh |- *. simpl in *. split; [by rewrite <- app_assoc|].
    rewrite !Forall_app, Forall_cons, Forall_app in Hh. destruct Hh as (_ & _ & Hc & _).
    unfold sorted in Hs. rewrite !StronglySorted_app, StronglySorted_cons, StronglySorted_app in Hs.
    destruct Hs as (_ & _ & C1 & _ & C2 & _). rewrite !Forall_app in *.
    destruct C2 as [C2 _]. split_and!; try done.
    - apply Forall_forall. intros e Hin. rewrite <- He. apply C1; [done|by left].
    - eapply Forall_impl; [exact C2|]. simpl. lia. }
  exists L, M, R, n. rewrite HE in Hh. rewrite !Forall_app in Hh. destruct Hh as (HhL & _ & HhR).
  split_and!; try done; apply fresh_other_hash; try done;
    (eapply Forall_impl; [eassumption|]); simpl; lia.
Qed.

(** A new node in the place of the one the search found. *)
Lemma tree_replace m key l c cur r k :
  tree_inv m -> find_node (khash key) (t_root m) [] = (Node l c cur r, k) ->
  exists A B, tree_iterate m = A ++ ents1 cur ++ B /\ fresh key A /\ fresh key B /\
    hash_ok cur /\ e_hash cur = khash key /\
    forall cur' n, let m' := {| t_root := plug k (Node l c cur' r); t_size := n |} in
      tree_iterate m' = A ++ ents1 cur' ++ B /\
      (e_hash cur' = khash key -> hash_ok cur' -> uniq (A ++ ents1 cur' ++ B) ->
       n = Z.of_nat (length (A ++ ents1 cur' ++ B)) -> tree_inv m').
Proof.
  intros I Hf. destruct (tree_search _ _ _ _ I Hf)
    as (L & M & R & n & HE & HL & HR & FL & FR & Hn & Hk & Hp & -> & He & Hh & -> & ->).
  assert (forall cur', nodes (plug k (Node l c cur' r)) =
    (lefts k ++ nodes l) ++ [cur'] ++ (nodes r ++ rights k)) as HN.
  { intros. rewrite nodes_plug. simpl. by rewrite <- !app_assoc. }
  assert (forall cur' n, tree_iterate {| t_root := plug k (Node l c cur' r); t_size := n |} =
    ents (lefts k ++ nodes l) ++ ents1 cur' ++ ents (nodes r ++ rights k)) as HI.
  { intros. unfold tree_iterate. simpl. rewrite iterate_subtree_ents, HN, !ents_app.
    unfold ents at 3. simpl. by rewrite app_nil_r. }
  exists (ents (lefts k ++ nodes l)), (ents (nodes r ++ rights k)).
  split.
  { unfold tree_iterate. rewrite iterate_subtree_ents, HE, !ents_app.
    unfold ents at 3. simpl. by rewrite app_nil_r. }
  split_and!; try done. intros cur' n' m'. split; [apply HI|].
  intros He' Hh' U Hsz. constructor.
  - unfold m'. simpl. destruct I as [[Hblack [n0 Hrb]] _ _].
    destruct (find_node_spec _ _ _ _ _ Hf) as (Hpl & _ & _). simpl in Hpl.
    rewrite <- Hpl in Hblack, Hrb. split.
    + destruct k as [|f k]; [done|]. by eapply plug_root_black.
    + eapply (plug_rb n); [done|done|]. destruct c; [by left|by right; left; apply Hp].
  - unfold m'. simpl. rewrite HN. eapply (content_ok_mid (khash key)); try done.
    + rewrite <- HE. apply (ti_content _ I).
    + rewrite !ents_app in *. unfold ents at 3. simpl. by rewrite app_nil_r.
    + right. by exists cur'.
  - unfold m'. rewrite HI. done.
Qed.

Lemma tree_get_spec m key : tree_inv m -> tree_get m key = Some (spec_get key (tree_iterate m)).
Proof.
  intros I. unfold tree_get. destruct (find_node _ _ _) as [t' k] eqn:Hf. cbn [fst].
  destruct t' as [|l c cur r].
  - destruct (tree_search _ _ _ _ I Hf) as (L & M & R & n & HE & _ & _ & FL & FR & _ & _ & _ & -> & _).
    unfold spec_get, tree_iterate. rewrite iterate_subtree_ents, HE, !ents_app, spec_find_mid by done.
    done.
  - destruct (tree_replace _ _ _ _ _ _ _ I Hf) as (A & B & HI & FA & FB & _).
    unfold spec_get. rewrite HI, spec_find_mid by done. simpl.
    destruct (keq (e_key cur) key); [done|]. by rewrite chain_get_spec.
Qed.

(** Changing the entries of a node to [cur'], whose keys are among those of
    the node and [key]. *)
Lemma hash_ok_keys key (cur cur' : entry K) :
  hash_ok cur -> e_hash cur = khash key -> e_hash cur' = khash key ->
  (ents1 cur').*1 ⊆ key :: (ents1 cur).*1 -> hash_ok cur'.
Proof.
  unfold hash_ok. rewrite !Forall_forall. intros H E E' Hs x Hx.
  apply Hs, elem_of_cons in Hx as [->|Hx]; [done|]. rewrite (H x Hx). congruence.
Qed.

(** The arguments below differ in the new contents of the node only: they are
    those of the abstract operation, which keeps keys unique. *)
Lemma tree_inv_intro m key l c cur r k cur' n spec :
  tree_inv m -> find_node (khash key) (t_root m) [] = (Node l c cur r, k) ->
  let m' := {| t_root := plug k (Node l c cur' r); t_size := n |} in
  (forall A B, fresh key A -> fresh key B -> A ++ ents1 cur' ++ B ≡ₚ spec (A ++ ents1 cur ++ B)) ->
  (forall x, uniq x -> uniq (spec x)) ->
  e_hash cur' = e_hash cur -> (ents1 cur').*1 ⊆ key :: (ents1 cur).*1 ->
  n = (t_size m + Z.of_nat (length (ents1 cur')) - Z.of_nat (length (ents1 cur)))%Z ->
  tree_inv m' /\ tree_iterate m' ≡ₚ spec (tree_iterate m).
Proof.
  intros I Hf m' HP HU He Hks Hn.
  destruct (tree_replace _ _ _ _ _ _ _ I Hf) as (A & B & HI & FA & FB & Hh & Eh & Hnew).
  destruct (Hnew cur' n) as [HI' Hinv]. specialize (HP A B FA FB). unfold m'.
  rewrite HI', HI. split; [|done]. apply Hinv.
  - congruence.
  - eapply hash_ok_keys; [done|done|congruence|done].
  - rewrite HP. apply HU. rewrite <- HI. unfold tree_iterate. rewrite iterate_subtree_ents.
    apply (ti_content _ I).
  - rewrite Hn, (ti_size _ I), HI, !length_app. lia.
Qed.

Lemma tree_set_spec alloc m key val :
  tree_inv m -> exists e m', tree_set alloc m key val = Some (e, m') /\ tree_inv m' /\
    (e = xErrno_Ok /\ tree_iterate m' ≡ₚ spec_set key val (tree_iterate m) \/
     e = xErrno_NoMemory /\ tree_iterate m' ≡ₚ tree_iterate m) /\
    ((forall n, alloc n = true) -> e = xErrno_Ok).
Proof.
  intros I. unfold tree_set. destruct (find_node _ _ _) as [t' k] eqn:Hf.
  assert (forall s, alloc s = false -> exists e m',
    Some (xErrno_NoMemory, m) = Some (e, m') /\ tree_inv m' /\
    (e = xErrno_Ok /\ tree_iterate m' ≡ₚ spec_set key val (tree_iterate m) \/
     e = xErrno_NoMemory /\ tree_iterate m' ≡ₚ tree_iterate m) /\
    ((forall n, alloc n = true) -> e = xErrno_Ok)) as HNM.
  { intros s Hs. exists xErrno_NoMemory, m. split_and!; [done|done|by right|].
    intros H. by rewrite H in Hs. }
  destruct t' as [|l c cur r].
  - destruct (alloc sizeof_xTreeNode) eqn:Ea; [|by apply (HNM sizeof_xTreeNode)].
    destruct (tree_search _ _ _ _ I Hf)
      as (L & M & R & n & HE & HL & HR & FL & FR & Hn & Hk & _ & -> & -> & ->).
    simpl in Hn. subst n.
    set (e := {| e_hash := khash key; e_key := key; e_val := val; e_overflow := [] |}).
    destruct (insert_fixup_spec 0 (Node Leaf RB_RED e Leaf) k) as (t & -> & Ht & Hw); [done..|].
    cbn [mbind option_bind]. rewrite nodes_plug in Ht. simpl in Ht.
    assert (tree_iterate m = ents (lefts k) ++ ents (rights k)) as HI.
    { unfold tree_iterate. by rewrite iterate_subtree_ents, HE, !ents_app. }
    assert (ents (nodes t) = ents (lefts k) ++ [(key, val)] ++ ents (rights k)) as HI'.
    { rewrite Ht. change (e :: rights k) with ([e] ++ rights k). by rewrite !ents_app. }
    assert (fresh key (tree_iterate m)) as F by (rewrite HI; by apply fresh_app).
    assert (ents (nodes t) ≡ₚ (key, val) :: tree_iterate m) as HP.
    { rewrite HI, HI'. solve_Permutation. }
    eexists _, _. split; [done|]. rewrite (spec_set_fresh _ _ _ F).
    unfold tree_iterate at 1. cbn [t_root]. rewrite iterate_subtree_ents.
    split; [|split; [by left|done]].
    assert (uniq (ents (nodes t))) as U.
    { rewrite HP. split; [done|]. unfold tree_iterate. rewrite iterate_subtree_ents.
      apply (ti_content _ I). }
    constructor; cbn [t_root t_size]; [done| |].
    + rewrite Ht. apply (content_ok_mid (khash key) _ [] _ [e]); try done.
      * rewrite <- HE. apply (ti_content _ I).
      * simpl. by rewrite <- Ht.
      * right. exists e. split_and!; [done..|]. by apply Forall_singleton.
    + unfold tree_iterate. cbn [t_root]. rewrite iterate_subtree_ents, HP, (ti_size _ I).
      simpl length. lia.
  - assert (forall cur' n, (forall A B, fresh key A -> fresh key B ->
        A ++ ents1 cur' ++ B ≡ₚ spec_set key val (A ++ ents1 cur ++ B)) ->
      e_hash cur' = e_hash cur -> (ents1 cur').*1 ⊆ key :: (ents1 cur).*1 ->
      n = (t_size m + Z.of_nat (length (ents1 cur')) - Z.of_nat (length (ents1 cur)))%Z ->
      exists e m', Some (xErrno_Ok, {| t_root := plug k (Node l c cur' r); t_size := n |}) = Some (e, m') /\
      tree_inv m' /\
      (e = xErrno_Ok /\ tree_iterate m' ≡ₚ spec_set key val (tree_iterate m) \/
       e = xErrno_NoMemory /\ tree_iterate m' ≡ₚ tree_iterate m) /\
      ((forall n, alloc n = true) -> e = xErrno_Ok)) as HUp.
    { intros cur' n HP He Hks Hn. eexists _, _. split; [done|].
      destruct (tree_inv_intro m key l c cur r k cur' n (spec_set key val) I Hf HP) as [H1 H2];
        [intros; by apply uniq_spec_set|done..|]. split; [done|]. split; [by left|done]. }
    destruct (keq (e_key cur) key) eqn:Ek; [|rewrite chain_set_spec;
      destruct (spec_find key (e_overflow cur)) as [v0|] eqn:Ef; cbn [mbind option_bind]].
    + apply HUp; [|done|simpl; set_solver|simpl; lia].
      intros A B FA FB. rewrite (spec_set_mid _ _ (e_val cur)); try done; unfold ents1; simpl; by rewrite Ek.
    + apply HUp; [|done|simpl; rewrite spec_replace_keys; set_solver|simpl; rewrite length_spec_replace; lia].
      intros A B FA FB. rewrite (spec_set_mid _ _ v0); try done; unfold ents1; simpl; by rewrite Ek.
    + destruct (alloc sizeof_xTreeOverflow) eqn:Ea; [|by apply (HNM sizeof_xTreeOverflow)].
      apply HUp; [|done|simpl; set_solver|simpl; lia].
      intros A B FA FB. rewrite spec_set_fresh; [unfold ents1; simpl; solve_Permutation|].
      apply spec_find_fresh. rewrite spec_find_mid by done. simpl. by rewrite Ek.
Qed.

(** ** Deletion *)

Lemma splice n d c e x (k : list (frame K)) :
  rb n (mk d Leaf c e x) -> rctx n k -> (c = RB_RED -> parent_black k) ->
  exists t, match c with RB_BLACK => delete_fixup x k | RB_RED => Some (plug k x) end = Some t /\
    nodes t = nodes (plug k x) /\ well_coloured t.
Proof.
  intros H Hk Hp. destruct c.
  - destruct n as [|n]; [by destruct d|]. apply rb_mk_black in H as [_ Hx].
    apply (delete_fixup_spec n); [|done]. unfold deficit.
    destruct (is_red x) eqn:E; [by apply rb_set_black_red|done].
  - apply rb_mk_red in H as (_ & Hx & _ & Hb). eexists. split; [done|]. split; [done|].
    split; [|eapply plug_rb; eauto]. eapply plug_root_black; [done|].
    intros ->. by apply Hp.
Qed.

Lemma rctx_entry n k1 d c e e' s (k : list (frame K)) :
  rctx n (k1 ++ {| f_dir := d; f_color := c; f_entry := e; f_sib := s |} :: k) ->
  rctx n (k1 ++ {| f_dir := d; f_color := c; f_entry := e'; f_sib := s |} :: k) /\
  (parent_black (k1 ++ {| f_dir := d; f_color := c; f_entry := e; f_sib := s |} :: k) ->
   parent_black (k1 ++ {| f_dir := d; f_color := c; f_entry := e'; f_sib := s |} :: k)).
Proof.
  revert n. induction k1 as [|f k1 IH]; intros n; simpl; [done|].
  intros [Hs Hk]. split; [|done]. split; [done|].
  destruct (f_color f); [by apply IH|]. destruct Hk as (? & Hp & Hk).
  destruct (IH _ Hk) as [? Himp]. auto.
Qed.

Lemma tree_unlink_spec n l c r e (k : list (frame K)) :
  rb n (Node l c e r) -> rctx n k -> (c = RB_RED -> parent_black k) ->
  is_red (plug k (Node l c e r)) = false ->
  exists t, tree_unlink l c r e k = Some t /\
    nodes t = lefts k ++ nodes l ++ nodes r ++ rights k /\ well_coloured t.
Proof.
  intros H Hk Hp Hb. unfold tree_unlink. destruct l as [|ll lc le lr].
  { cbn [mbind option_bind]. destruct (splice n DLeft c e r k H Hk Hp) as (t & -> & Ht & Hw).
    exists t. split; [done|]. split; [|done]. by rewrite Ht, nodes_plug. }
  destruct r as [|rl rc re rr].
  { cbn [mbind option_bind]. destruct (splice n DRight c e _ k H Hk Hp) as (t & -> & Ht & Hw).
    exists t. split; [done|]. split; [|done]. by rewrite Ht, nodes_plug. }
  set (L := Node ll lc le lr) in *.
  destruct (tree_min_spec rl rc re rr []) as (c1 & e1 & r1 & k1 & -> & Hpl & Hl).
  rewrite app_nil_r. cbn [mbind option_bind].
  set (fr := fun e => {| f_dir := DRight; f_color := c; f_entry := e; f_sib := L |}).
  assert (plug (k1 ++ fr e :: k) (Node Leaf c1 e1 r1) = plug k (Node L c e (Node rl rc re rr))) as HP.
  { rewrite plug_app, Hpl. done. }
  destruct (plug_rb n k _ Hk H) as [m Hm]. { destruct c; [by left|right; left; auto]. }
  rewrite <- HP in Hm, Hb. destruct (unplug_rb _ _ _ Hm Hb) as (n' & Hn' & Hk' & Hp').
  destruct (rctx_entry _ _ _ _ _ e1 _ _ Hk') as [Hk2 Hp2].
  destruct (splice n' DLeft c1 e1 r1 (k1 ++ fr e1 :: k) Hn' Hk2) as (t & Hs & Ht & Hw).
  { intros ->. by apply Hp2, Hp'. }
  unfold fr in Hs. rewrite Hs. clear Hs.
  exists t. split; [done|]. split; [|done]. rewrite Ht, <- Hpl, plug_app, !nodes_plug.
  rewrite Hl. simpl. rewrite <- !app_assoc. done.
Qed.

Lemma tree_del_spec m key :
  tree_inv m -> exists m', tree_del m key = Some (spec_get key (tree_iterate m), m') /\
    tree_inv m' /\ tree_iterate m' ≡ₚ spec_del key (tree_iterate m).
Proof.
  intros I. unfold tree_del. destruct (find_node _ _ _) as [t' k] eqn:Hf.
  destruct t' as [|l c cur r].
  - destruct (tree_search _ _ _ _ I Hf) as (L & M & R & n & HE & _ & _ & FL & FR & _ & _ & _ & -> & _).
    assert (fresh key (tree_iterate m)) as F.
    { unfold tree_iterate. rewrite iterate_subtree_ents, HE, !ents_app.
      apply fresh_app. split; [done|]. apply fresh_app. by split; [constructor|]. }
    exists m. unfold spec_get. by rewrite (proj1 (spec_find_fresh _ _) F), spec_del_fresh.
  - destruct (tree_replace _ _ _ _ _ _ _ I Hf) as (A & B & HI & FA & FB & _).
    assert (spec_get key (tree_iterate m) =
      default 0%Z (if keq (e_key cur) key then Some (e_val cur) else spec_find key (e_overflow cur))) as Hg.
    { unfold spec_get. by rewrite HI, spec_find_mid. }
    assert (forall cur' n, (forall A B, fresh key A -> fresh key B ->
        A ++ ents1 cur' ++ B ≡ₚ spec_del key (A ++ ents1 cur ++ B)) ->
      e_hash cur' = e_hash cur -> (ents1 cur').*1 ⊆ key :: (ents1 cur).*1 ->
      n = (t_size m + Z.of_nat (length (ents1 cur')) - Z.of_nat (length (ents1 cur)))%Z ->
      forall v, v = spec_get key (tree_iterate m) ->
      exists m', Some (v, {| t_root := plug k (Node l c cur' r); t_size := n |}) =
        Some (spec_get key (tree_iterate m), m') /\
        tree_inv m' /\ tree_iterate m' ≡ₚ spec_del key (tree_iterate m)) as HUp.
    { intros cur' n HP He Hks Hn v ->. eexists. split; [done|].
      apply (tree_inv_intro m key l c cur r k cur' n (spec_del key) I Hf HP);
        [intros; by apply uniq_spec_del|done..]. }
    destruct (keq (e_key cur) key) eqn:Ek.
    + destruct (e_overflow cur) as [|[ok ov] next] eqn:Eo.
      * destruct (tree_search _ _ _ _ I Hf)
          as (L & M & R & n & HE & HL & HR & FA' & FB' & Hn & Hk & Hp & -> & _ & _ & -> & ->).
        destruct (find_node_spec _ _ _ _ _ Hf) as (Hpl & _ & _). simpl in Hpl.
        destruct (tree_unlink_spec n l c r cur k) as (t & -> & Ht & Hw); try done.
        { intros ->. by apply Hp. } { rewrite Hpl. apply (ti_rb _ I). }
        cbn [mbind option_bind]. rewrite Hg. eexists. split; [done|].
        assert (nodes t = (lefts k ++ nodes l) ++ [] ++ (nodes r ++ rights k)) as Ht'.
        { by rewrite Ht, <- !app_assoc. }
        assert (ents (nodes t) = spec_del key (tree_iterate m)) as Hdel.
        { unfold tree_iterate.
          rewrite iterate_subtree_ents, HE, Ht', (ents_app _ ([] ++ _)), (ents_app _ ([cur] ++ _)),
            (ents_app []), (ents_app [cur]).
          assert (ents [cur] = [(e_key cur, e_val cur)]) as ->
            by (unfold ents; simpl; by rewrite Eo).
          rewrite spec_del_mid by done. simpl. by rewrite Ek. }
        assert (tree_iterate {| t_root := t; t_size := t_size m - 1 |} = spec_del key (tree_iterate m))
          as HI' by (unfold tree_iterate at 1; cbn [t_root]; by rewrite iterate_subtree_ents).
        split; [|by rewrite HI'].
        assert (uniq (ents (nodes t))) as U.
        { rewrite Hdel. apply uniq_spec_del. unfold tree_iterate. rewrite iterate_subtree_ents.
          apply (ti_content _ I). }
        constructor; cbn [t_root t_size]; [done| |].
        -- rewrite Ht'. apply (content_ok_mid (khash key) _ [cur]); try done.
           ++ rewrite <- HE. apply (ti_content _ I).
           ++ by rewrite <- Ht'.
           ++ by left.
        -- rewrite HI', (ti_size _ I).
           rewrite <- (length_spec_del key (tree_iterate m) (e_val cur)); [lia|].
           rewrite HI, spec_find_mid by done. simpl. by rewrite Ek.
      * apply HUp; [|done|unfold ents1; rewrite Eo; simpl; set_solver|unfold ents1; rewrite Eo; simpl; lia|by rewrite Hg].
        intros A' B' FA' FB'. rewrite spec_del_mid by done. unfold ents1. rewrite Eo. simpl.
        by rewrite Ek.
    + rewrite chain_del_spec.
      destruct (spec_find key (e_overflow cur)) as [v0|] eqn:Ef; cbn [mbind option_bind].
      * apply HUp; [|done| | |by rewrite Hg].
        -- intros A' B' FA' FB'. rewrite spec_del_mid by done. unfold ents1. simpl. by rewrite Ek.
        -- simpl. pose proof (spec_del_keys key (e_overflow cur)). set_solver.
        -- simpl. rewrite <- (length_spec_del _ _ _ Ef). lia.
      * exists m. rewrite Hg. split; [done|]. split; [done|].
        rewrite spec_del_fresh; [done|]. rewrite HI, !fresh_app. split_and!; try done.
        apply Forall_cons. split; [done|]. by apply spec_find_fresh.
Qed.

Lemma xMapTreeCreate_spec alloc slab m :
  xMapTreeCreate alloc slab = Some m -> tree_inv m /\ tree_iterate m = [].
Proof.
  unfold xMapTreeCreate. destruct (_ && _); intros; simplify_eq. split; [|done].
  constructor; [by split; [|exists 0]|repeat constructor|done].
Qed.

#[export, refine] Instance tree_xmap_ok : XMapOk K xMapTree := {
  map_inv := tree_inv;
  map_inv_uniq := _;
  map_len_ok := _;
  map_get_ok := tree_get_spec;
  map_set_ok := _;
  map_del_ok := tree_del_spec;
}.
Proof.
  - intros m I. simpl. unfold tree_iterate. rewrite iterate_subtree_ents. apply (ti_content _ I).
  - intros m I. simpl. unfold tree_len. rewrite (ti_size _ I). lia.
  - intros alloc m k v I. destruct (tree_set_spec alloc m k v I) as (e & m' & H1 & H2 & H3 & _).
    by exists e, m'.
Defined.

#[export] Instance tree_xmap_total : XMapTotal K xMapTree.
Proof.
  constructor. intros m k v I _.
  destruct (tree_set_spec (fun _ => true) m k v I) as (e & m' & H1 & _ & _ & H2).
  exists m'. simpl. by rewrite H1, H2.
Qed.

End map.

Arguments xMapTree K : clear implicits.
