(* ===== verification/MapFlat.v ===== *)
(** * MapFlat: the open-addressing backend ([libx/x/base/map_flat.c])

    The slots are probed linearly from the hash; a deleted slot becomes a
    tombstone that probes step over.  [flat_xmap] and [flat_xmap_ok] are the
    backend's virtual table and its contract, for the power-of-two capacities
    the code assumes. *)

From S2P Require Import Prelude Errno MapIface.

Section flat.
Context {K : Type} `{!MapKey K}.

(** [state] with the fields it guards; [calloc] gives empty slots. *)
Inductive xMapFlatSlot :=
  | SLOT_EMPTY
  | SLOT_OCCUPIED (key : K) (val : Z)
  | SLOT_TOMBSTONE.

Record xMapFlat := {
  f_slots : list xMapFlatSlot;
  f_size : Z;
  f_cap : Z;
}.

Definition sizeof_xMapFlatSlot : Z := 24.
Definition sizeof_xMapFlat : Z := 48.

Definition slot_idx (cap : Z) (key : K) : Z := Z.land (khash key) (u64 (cap - 1)).

(** [(idx + i) & (cap - 1)] *)
Definition probe (cap : Z) (key : K) (i : Z) : nat :=
  Z.to_nat (Z.land (u64 (slot_idx cap key + i)) (u64 (cap - 1))).

(** The [while] of [flat_resize], [idx] being the [i]-th slot probed. *)
Fixpoint free_slot (fuel : nat) (cap : Z) (slots : list xMapFlatSlot) (key : K) (i : Z) : ub nat :=
  match fuel with
  | 0 => None
  | S fuel =>
      s ← slots !! probe cap key i;
      match s with
      | SLOT_OCCUPIED _ _ => free_slot fuel cap slots key (i + 1)
      | _ => Some (probe cap key i)
      end
  end.

(** Occupied slots are rehashed, tombstones dropped. *)
Fixpoint flat_rehash (new_cap : Z) (new : list xMapFlatSlot) (old : list xMapFlatSlot)
    : ub (list xMapFlatSlot) :=
  match old with
  | [] => Some new
  | SLOT_OCCUPIED key val :: old =>
      idx ← free_slot (length new) new_cap new key 0;
      new ← mem_set new idx (SLOT_OCCUPIED key val);
      flat_rehash new_cap new old
  | _ :: old => flat_rehash new_cap new old
  end.

Definition flat_resize (alloc : oracle) (f : xMapFlat) : ub (xErrno * xMapFlat) :=
  let new_cap := u64 (f_cap f * 2) in
  if calloc_ok alloc new_cap sizeof_xMapFlatSlot then
    new ← flat_rehash new_cap (replicate (Z.to_nat new_cap) SLOT_EMPTY) (f_slots f);
    Some (xErrno_Ok, {| f_slots := new; f_size := f_size f; f_cap := new_cap |})
  else Some (xErrno_NoMemory, f).

(** How the probe loop of [flat_set] ends. *)
Inductive set_result :=
  | SetInsert (ins : nat)
  | SetUpdate (cur : nat) (k' : K)
  | SetFull.

Fixpoint flat_set_loop (n : nat) (f : xMapFlat) (key : K) (i : Z) (tombstone : option nat) : ub set_result :=
  match n with
  | 0 => Some SetFull
  | S n =>
      let cur := probe (f_cap f) key i in
      s ← f_slots f !! cur;
      match s with
      | SLOT_EMPTY => Some (SetInsert (default cur tombstone))
      | SLOT_TOMBSTONE =>
          flat_set_loop n f key (i + 1) (match tombstone with None => Some cur | t => t end)
      | SLOT_OCCUPIED k' _ =>
          if keq k' key then Some (SetUpdate cur k') else flat_set_loop n f key (i + 1) tombstone
      end
  end.

Definition flat_store (f : xMapFlat) (idx : nat) (s : xMapFlatSlot) (size : Z) : ub xMapFlat :=
  slots ← mem_set (f_slots f) idx s;
  Some {| f_slots := slots; f_size := size; f_cap := f_cap f |}.

Definition flat_set_probe (f : xMapFlat) (key : K) (val : Z) : ub (xErrno * xMapFlat) :=
  r ← flat_set_loop (Z.to_nat (f_cap f)) f key 0 None;
  match r with
  | SetInsert ins =>
      f' ← flat_store f ins (SLOT_OCCUPIED key val) (u64 (f_size f + 1));
      Some (xErrno_Ok, f')
  | SetUpdate cur k' =>
      f' ← flat_store f cur (SLOT_OCCUPIED k' val) (f_size f);
      Some (xErrno_Ok, f')
  | SetFull => Some (xErrno_NoMemory, f)
  end.

Definition flat_set (alloc : oracle) (f : xMapFlat) (key : K) (val : Z) : ub (xErrno * xMapFlat) :=
  if (u64 (f_cap f * 7) <? u64 ((f_size f + 1) * 10))%Z then
    r ← flat_resize alloc f;
    match r.1 with
    | xErrno_Ok => flat_set_probe r.2 key val
    | err => Some (err, r.2)
    end
  else flat_set_probe f key val.

(** The probe loop [flat_get] and [flat_del] share: the slot of [key]. *)
Fixpoint flat_find (n : nat) (f : xMapFlat) (key : K) (i : Z) : ub (option (nat * Z)) :=
  match n with
  | 0 => Some None
  | S n =>
      let cur := probe (f_cap f) key i in
      s ← f_slots f !! cur;
      match s with
      | SLOT_EMPTY => Some None
      | SLOT_OCCUPIED k' v => if keq k' key then Some (Some (cur, v)) else flat_find n f key (i + 1)
      | SLOT_TOMBSTONE => flat_find n f key (i + 1)
      end
  end.

Definition flat_get (f : xMapFlat) (key : K) : ub Z :=
  r ← flat_find (Z.to_nat (f_cap f)) f key 0;
  Some (match r with Some (_, v) => v | None => 0%Z end).

Definition flat_del (f : xMapFlat) (key : K) : ub (Z * xMapFlat) :=
  r ← flat_find (Z.to_nat (f_cap f)) f key 0;
  match r with
  | Some (cur, val) =>
      f' ← flat_store f cur SLOT_TOMBSTONE (u64 (f_size f - 1));
      Some (val, f')
  | None => Some (0%Z, f)
  end.

Definition flat_len (f : xMapFlat) : nat := Z.to_nat (f_size f).

Definition slot_ents (s : xMapFlatSlot) : list (K * Z) :=
  match s with SLOT_OCCUPIED k v => [(k, v)] | _ => [] end.

Definition flat_iterate (f : xMapFlat) : list (K * Z) := concat (slot_ents <$> f_slots f).

Definition xMapFlatCreate (alloc : oracle) (cap : Z) : option xMapFlat :=
  if alloc (u64 (sizeof_xMapFlat + cap * sizeof_xMapFlatSlot)) then
    Some {| f_slots := replicate (Z.to_nat cap) SLOT_EMPTY; f_size := 0; f_cap := cap |}
  else None.

#[export] Instance flat_xmap : XMap K xMapFlat := {
  map_set := flat_set;
  map_get := flat_get;
  map_del := flat_del;
  map_len := flat_len;
  map_iterate := flat_iterate;
}.

(** ** Probe sequences *)

Context `{!MapKeyOk K}.
Implicit Types (key : K) (slots : list xMapFlatSlot).

(** The capacities of the code: powers of two whose array fits in memory. *)
Definition cap_ok (cap : Z) : Prop :=
  exists p, (0 <= p)%Z /\ cap = (2 ^ p)%Z /\ (cap * sizeof_xMapFlatSlot <= SIZE_MAX)%Z.

Lemma cap_ok_range cap : cap_ok cap -> (1 <= cap < 2 ^ 60)%Z.
Proof. unfold cap_ok, sizeof_xMapFlatSlot, SIZE_MAX. intros (p & Hp & -> & H). lia. Qed.

Lemma probe_mod cap key i :
  cap_ok cap -> (0 <= i < 2 ^ 60)%Z -> probe cap key i = Z.to_nat ((khash key + i) mod cap).
Proof.
  intros Hc Hi. pose proof (cap_ok_range _ Hc). destruct Hc as (p & Hp & -> & _).
  unfold probe, slot_idx. pose proof (khash_range key).
  assert (u64 (2 ^ p - 1) = Z.ones p) as ->.
  { unfold u64. rewrite Z.mod_small by lia. rewrite Z.ones_equiv. lia. }
  rewrite !Z.land_ones by done.
  assert (0 <= khash key mod 2 ^ p < 2 ^ p)%Z by (apply Z.mod_pos_bound; lia).
  unfold u64. rewrite (Z.mod_small (_ + _)) by lia. by rewrite Z.add_mod_idemp_l by lia.
Qed.

Lemma probe_lt cap key i : cap_ok cap -> (0 <= i < 2 ^ 60)%Z -> probe cap key i < Z.to_nat cap.
Proof.
  intros Hc Hi. rewrite probe_mod by done. pose proof (cap_ok_range _ Hc).
  assert (0 <= (khash key + i) mod cap < cap)%Z by (apply Z.mod_pos_bound; lia). lia.
Qed.

(** The first [cap] probes visit every slot. *)
Lemma probe_surj cap key j :
  cap_ok cap -> j < Z.to_nat cap -> exists i, (0 <= i < cap)%Z /\ probe cap key i = j.
Proof.
  intros Hc Hj. pose proof (cap_ok_range _ Hc).
  exists ((Z.of_nat j - khash key) mod cap)%Z.
  assert (0 <= (Z.of_nat j - khash key) mod cap < cap)%Z by (apply Z.mod_pos_bound; lia).
  split; [done|]. rewrite probe_mod by (done || lia).
  rewrite Z.add_mod_idemp_r by lia. replace (khash key + (Z.of_nat j - khash key))%Z with (Z.of_nat j) by lia.
  rewrite Z.mod_small; lia.
Qed.

Lemma probe_keq cap k1 k2 i : keq k1 k2 = true -> probe cap k1 i = probe cap k2 i.
Proof. intros H. unfold probe, slot_idx. by rewrite (khash_keq _ _ H). Qed.

(** [key] is found from its hash at slot [j] without crossing an empty slot. *)
Definition reaches (cap : Z) slots key (j : nat) : Prop :=
  exists i, (0 <= i < cap)%Z /\ probe cap key i = j /\
    forall i', (0 <= i' < i)%Z -> slots !! probe cap key i' <> Some SLOT_EMPTY.

Definition reachable (cap : Z) slots : Prop :=
  forall j key v, slots !! j = Some (SLOT_OCCUPIED key v) -> reaches cap slots key j.

Record flat_inv (f : xMapFlat) : Prop := {
  fi_cap : cap_ok (f_cap f);
  fi_len : length (f_slots f) = Z.to_nat (f_cap f);
  fi_size : f_size f = Z.of_nat (length (flat_iterate f));
  fi_load : (f_size f * 10 <= f_cap f * 7)%Z;
  fi_reach : reachable (f_cap f) (f_slots f);
  fi_uniq : uniq (flat_iterate f);
}.

(** Filling a slot, or replacing an occupied one, keeps the others reachable. *)
Lemma reaches_insert cap slots key j idx s :
  s <> SLOT_EMPTY -> reaches cap slots key j -> reaches cap (<[idx := s]> slots) key j.
Proof.
  intros Hs (i & Hi & Hj & Hb). exists i. split; [done|]. split; [done|].
  intros i' Hi'. rewrite list_lookup_insert_Some. intros [(_ & E & _)|[_ E]]; [done|]. by apply (Hb i').
Qed.

Lemma reachable_insert cap slots idx s :
  reachable cap slots -> s <> SLOT_EMPTY ->
  (forall key v, s = SLOT_OCCUPIED key v -> reaches cap (<[idx := s]> slots) key idx) ->
  reachable cap (<[idx := s]> slots).
Proof.
  intros R Hs Hn j key v. rewrite list_lookup_insert_Some.
  intros [(-> & E & _)|[_ E]]; [by eapply Hn|]. apply reaches_insert; [done|]. by eapply R.
Qed.

Lemma slots_insert slots j s :
  slots !! j = Some s ->
  exists A B, concat (slot_ents <$> slots) = A ++ slot_ents s ++ B /\
    forall s', mem_set slots j s' = Some (<[j := s']> slots) /\
      concat (slot_ents <$> <[j := s']> slots) = A ++ slot_ents s' ++ B.
Proof.
  intros Hj. destruct (concat_insert (slot_ents <$> slots) j (slot_ents s)) as (A & B & _ & _ & E & H).
  { by rewrite list_lookup_fmap, Hj. }
  exists A, B. split; [done|]. intros s'. split; [apply mem_set_Some; by eapply lookup_lt_Some|].
  by rewrite list_fmap_insert.
Qed.

Lemma ents_lookup slots k v :
  (k, v) ∈ concat (slot_ents <$> slots) -> exists j, slots !! j = Some (SLOT_OCCUPIED k v).
Proof.
  rewrite list_elem_of_In, in_concat. intros (c & Hc & Hk).
  apply list_elem_of_In, list_elem_of_fmap in Hc as (s & -> & Hs).
  apply list_elem_of_lookup in Hs as [j Hj]. exists j.
  destruct s; simpl in Hk; try done. destruct Hk as [[= -> ->]|[]]. done.
Qed.

(** When every slot from the hash to an empty one holds another key, or all
    of them do, the key is not in the map. *)
Lemma probe_fresh cap slots key n :
  cap_ok cap -> length slots = Z.to_nat cap -> reachable cap slots -> (0 <= n <= cap)%Z ->
  (forall i k' v, (0 <= i < n)%Z -> slots !! probe cap key i = Some (SLOT_OCCUPIED k' v) -> keq k' key = false) ->
  (n = cap \/ slots !! probe cap key n = Some SLOT_EMPTY) ->
  fresh key (concat (slot_ents <$> slots)).
Proof.
  intros Hc Hl R Hn Hno Hend. unfold fresh. apply Forall_forall. intros [k' v] Hin. simpl.
  destruct (keq k' key) eqn:E; [|done].
  destruct (ents_lookup _ _ _ Hin) as [j Hj]. destruct (R j k' v Hj) as (i & Hi & Hp & Hb).
  rewrite (probe_keq _ _ _ _ E) in Hp.
  destruct (decide (i < n)%Z) as [Hlt|Hge].
  - rewrite <- Hp in Hj. by rewrite (Hno i k' v) in E by (done || lia).
  - destruct Hend as [->|He]; [lia|]. destruct (decide (i = n)) as [->|]; [congruence|].
    exfalso. apply (Hb n); [lia|]. by rewrite (probe_keq _ _ _ _ E).
Qed.

Lemma flat_find_spec f key n i :
  flat_inv f -> (Z.of_nat n + i = f_cap f)%Z -> (0 <= i)%Z ->
  (forall i', (0 <= i' < i)%Z -> f_slots f !! probe (f_cap f) key i' <> Some SLOT_EMPTY) ->
  (forall i' k' v, (0 <= i' < i)%Z -> f_slots f !! probe (f_cap f) key i' = Some (SLOT_OCCUPIED k' v) ->
     keq k' key = false) ->
  exists r, flat_find n f key i = Some r /\
    match r with
    | Some (cur, v) => exists k', f_slots f !! cur = Some (SLOT_OCCUPIED k' v) /\ keq k' key = true
    | None => fresh key (flat_iterate f)
    end.
Proof.
  intros I. pose proof I as [Hc Hl _ _ R _]. pose proof (cap_ok_range _ Hc).
  revert i. induction n as [|n IH]; intros i Hn Hi Hne Hno; cbn [flat_find].
  { eexists. split; [done|]. apply (probe_fresh (f_cap f) _ _ i); try done; [lia|left; lia]. }
  destruct (lookup_lt_is_Some_2 (f_slots f) (probe (f_cap f) key i)) as [s Hs].
  { rewrite Hl. apply probe_lt; [done|lia]. }
  rewrite Hs. cbn [mbind option_bind].
  assert (s <> SLOT_EMPTY -> (forall k' v, s = SLOT_OCCUPIED k' v -> keq k' key = false) ->
    exists r, flat_find n f key (i + 1) = Some r /\
    match r with
    | Some (cur, v) => exists k', f_slots f !! cur = Some (SLOT_OCCUPIED k' v) /\ keq k' key = true
    | None => fresh key (flat_iterate f)
    end) as Hnext.
  { intros H1 H2. apply IH; [lia..| |].
    - intros i' Hi'. destruct (decide (i' = i)) as [->|]; [congruence|]. apply Hne. lia.
    - intros i' k' v Hi'. destruct (decide (i' = i)) as [->|]; [|apply Hno; lia].
      rewrite Hs. intros [= ->]. by eapply H2. }
  destruct s as [|k' v|].
  - eexists. split; [done|]. apply (probe_fresh (f_cap f) _ _ i); try done; [lia|by right].
  - destruct (keq k' key) eqn:E; [|apply Hnext; [done|]; intros; by simplify_eq].
    eexists. split; [done|]. by exists k'.
  - by apply Hnext.
Qed.

Lemma flat_set_loop_spec f key n i t :
  flat_inv f -> (Z.of_nat n + i = f_cap f)%Z -> (0 <= i)%Z ->
  (forall i', (0 <= i' < i)%Z -> f_slots f !! probe (f_cap f) key i' <> Some SLOT_EMPTY) ->
  (forall i' k' v, (0 <= i' < i)%Z -> f_slots f !! probe (f_cap f) key i' = Some (SLOT_OCCUPIED k' v) ->
     keq k' key = false) ->
  (forall ins, t = Some ins -> f_slots f !! ins = Some SLOT_TOMBSTONE /\ reaches (f_cap f) (f_slots f) key ins) ->
  exists r, flat_set_loop n f key i t = Some r /\
    match r with
    | SetUpdate cur k' => exists v, f_slots f !! cur = Some (SLOT_OCCUPIED k' v) /\ keq k' key = true
    | SetInsert ins =>
        fresh key (flat_iterate f) /\ reaches (f_cap f) (f_slots f) key ins /\
        exists s, f_slots f !! ins = Some s /\ slot_ents s = []
    | SetFull => True
    end.
Proof.
  intros I. pose proof I as [Hc Hl _ _ R _]. pose proof (cap_ok_range _ Hc).
  revert i t. induction n as [|n IH]; intros i t Hn Hi Hne Hno Ht; cbn [flat_set_loop].
  { by eexists. }
  destruct (lookup_lt_is_Some_2 (f_slots f) (probe (f_cap f) key i)) as [s Hs].
  { rewrite Hl. apply probe_lt; [done|lia]. }
  rewrite Hs. cbn [mbind option_bind].
  assert (reaches (f_cap f) (f_slots f) key (probe (f_cap f) key i)) as Hreach.
  { exists i. split; [lia|]. split; [done|apply Hne]. }
  assert (s <> SLOT_EMPTY -> forall i', (0 <= i' < i + 1)%Z ->
    f_slots f !! probe (f_cap f) key i' <> Some SLOT_EMPTY) as Hne'.
  { intros H1 i' Hi'. destruct (decide (i' = i)) as [->|]; [congruence|]. apply Hne. lia. }
  assert ((forall k' v, s = SLOT_OCCUPIED k' v -> keq k' key = false) -> forall i' k' v,
    (0 <= i' < i + 1)%Z -> f_slots f !! probe (f_cap f) key i' = Some (SLOT_OCCUPIED k' v) ->
    keq k' key = false) as Hno'.
  { intros H2 i' k' v Hi'. destruct (decide (i' = i)) as [->|]; [|apply Hno; lia].
    rewrite Hs. intros [= ->]. by eapply H2. }
  destruct s as [|k' v|].
  - eexists. split; [done|]. split; [|split].
    + apply (probe_fresh (f_cap f) _ _ i); try done; [lia|by right].
    + destruct t as [ins|]; [by apply Ht|done].
    + destruct t as [ins|]; simpl; [|by eexists]. destruct (Ht ins eq_refl) as [? _]. by eexists.
  - destruct (keq k' key) eqn:E.
    + eexists. split; [done|]. by exists v.
    + apply IH; [lia..|by apply Hne'| |done]. apply Hno'. intros; by simplify_eq.
  - apply IH; [lia..|by apply Hne'|by apply Hno'|].
    intros ins. destruct t as [t|]; [apply Ht|]. intros [= <-]. done.
Qed.

(** ** Rehashing *)

Lemma free_slot_exists slots :
  length (concat (slot_ents <$> slots)) < length slots ->
  exists j s, slots !! j = Some s /\ slot_ents s = [].
Proof.
  induction slots as [|s slots IH]; [simpl; lia|].
  rewrite fmap_cons. cbn [concat length]. rewrite length_app. intros H.
  destruct s as [|k v|]; [by exists 0, SLOT_EMPTY| |by exists 0, SLOT_TOMBSTONE].
  destruct IH as (j & s & Hj & Hs); [cbn [slot_ents length] in H; lia|]. by exists (S j), s.
Qed.

Lemma free_slot_spec cap slots key fuel i i0 s0 :
  cap_ok cap -> length slots = Z.to_nat cap -> (0 <= i <= i0)%Z -> (i0 < cap)%Z ->
  (i0 < i + Z.of_nat fuel)%Z ->
  slots !! probe cap key i0 = Some s0 -> slot_ents s0 = [] ->
  (forall i', (0 <= i' < i)%Z -> slots !! probe cap key i' <> Some SLOT_EMPTY) ->
  exists j s, free_slot fuel cap slots key i = Some j /\ slots !! j = Some s /\ slot_ents s = [] /\
    reaches cap slots key j.
Proof.
  intros Hc Hl Hi Hi0 Hf Hs0 He0 Hne. pose proof (cap_ok_range _ Hc).
  revert i Hi Hf Hne. induction fuel as [|fuel IH]; intros i Hi Hf Hne; [lia|]. cbn [free_slot].
  destruct (lookup_lt_is_Some_2 slots (probe cap key i)) as [s Hs].
  { rewrite Hl. apply probe_lt; [done|lia]. }
  rewrite Hs. cbn [mbind option_bind].
  assert (reaches cap slots key (probe cap key i)) as Hreach.
  { exists i. split; [lia|]. split; [done|apply Hne]. }
  destruct s as [|k' v|]; [by eexists _, _; split; [done|]; split| |by eexists _, _; split; [done|]; split].
  apply IH; [|lia|].
  - destruct (decide (i = i0)) as [->|]; [|lia]. rewrite Hs in Hs0. by simplify_eq.
  - intros i' Hi'. destruct (decide (i' = i)) as [->|]; [congruence|]. apply Hne. lia.
Qed.

Lemma flat_rehash_spec cap new old :
  cap_ok cap -> length new = Z.to_nat cap -> reachable cap new ->
  (Z.of_nat (length (concat (slot_ents <$> new)) + length (concat (slot_ents <$> old))) < cap)%Z ->
  exists new', flat_rehash cap new old = Some new' /\ length new' = Z.to_nat cap /\
    reachable cap new' /\
    concat (slot_ents <$> new') ≡ₚ concat (slot_ents <$> old) ++ concat (slot_ents <$> new).
Proof.
  intros Hc. pose proof (cap_ok_range _ Hc).
  revert new. induction old as [|s old IH]; intros new Hl R Hn; cbn [flat_rehash].
  { by exists new. }
  destruct s as [|key val|]; [by apply IH| |by apply IH].
  rewrite fmap_cons in Hn. cbn [concat slot_ents app length] in Hn.
  destruct (free_slot_exists new) as (j0 & s0 & Hj0 & He0); [lia|].
  destruct (probe_surj cap key j0 Hc) as (i0 & Hi0 & Hp0).
  { rewrite <- Hl. by eapply lookup_lt_Some. }
  destruct (free_slot_spec cap new key (length new) 0 i0 s0) as (j & s & -> & Hj & He & Hr);
    try done; [lia..|by rewrite Hp0|lia|].
  cbn [mbind option_bind]. destruct (slots_insert new j s Hj) as (A & B & E & Hset).
  destruct (Hset (SLOT_OCCUPIED key val)) as [-> E']. cbn [mbind option_bind].
  rewrite He in E. simpl in E, E'.
  destruct (IH (<[j := SLOT_OCCUPIED key val]> new)) as (new' & Hre & Hl' & R' & HP).
  - by rewrite length_insert.
  - apply reachable_insert; [done|done|]. intros ? ? [= -> ->]. by apply reaches_insert.
  - rewrite E', length_app. rewrite E, length_app in Hn. simpl. lia.
  - exists new'. split; [done|]. split; [done|]. split; [done|].
    rewrite HP, E', E. simpl. solve_Permutation.
Qed.

Lemma concat_empty_slots n : concat (slot_ents <$> replicate n SLOT_EMPTY) = [].
Proof. by induction n. Qed.

Lemma reachable_empty cap n : reachable cap (replicate n SLOT_EMPTY).
Proof. intros j key v [E _]%lookup_replicate. done. Qed.

Lemma flat_resize_spec alloc f :
  flat_inv f -> exists e f', flat_resize alloc f = Some (e, f') /\ flat_inv f' /\
    flat_iterate f' ≡ₚ flat_iterate f /\ f_size f' = f_size f /\
    (e = xErrno_Ok /\ f_cap f' = (f_cap f * 2)%Z \/ e = xErrno_NoMemory /\ f' = f).
Proof.
  intros I. pose proof I as [Hc Hl Hs Hld R U]. pose proof (cap_ok_range _ Hc). unfold flat_resize.
  assert (u64 (f_cap f * 2) = f_cap f * 2)%Z as -> by (unfold u64; rewrite Z.mod_small; lia).
  destruct (calloc_ok alloc _ _) eqn:Ha.
  2: { exists xErrno_NoMemory, f. split_and!; try done. by right. }
  apply andb_prop in Ha as [Hov%Z.leb_le _].
  assert (cap_ok (f_cap f * 2)) as Hc2.
  { destruct Hc as (p & Hp & E & _). exists (p + 1)%Z.
    split; [lia|]. split; [rewrite Z.pow_add_r by lia; lia|exact Hov]. }
  destruct (flat_rehash_spec (f_cap f * 2) (replicate (Z.to_nat (f_cap f * 2)) SLOT_EMPTY) (f_slots f))
    as (new & -> & L & R' & E); [done|by rewrite length_replicate|apply reachable_empty| |].
  { rewrite concat_empty_slots. simpl. change (concat (slot_ents <$> f_slots f)) with (flat_iterate f). lia. }
  rewrite concat_empty_slots, app_nil_r in E.
  eexists _, _. cbn [mbind option_bind]. split; [done|].
  split; [|split_and!; [done|done|by left]].
  constructor; unfold flat_iterate; cbn [f_slots f_size f_cap]; try done.
  - rewrite Hs. unfold flat_iterate. by rewrite E.
  - lia.
  - by rewrite E.
Qed.

(** ** The operations *)

Lemma flat_store_spec f idx s0 s size key :
  flat_inv f -> f_slots f !! idx = Some s0 -> s <> SLOT_EMPTY ->
  exists A B f', flat_iterate f = A ++ slot_ents s0 ++ B /\
    flat_store f idx s size = Some f' /\ flat_iterate f' = A ++ slot_ents s ++ B /\
    ((forall k v, s = SLOT_OCCUPIED k v -> k = key /\ reaches (f_cap f) (f_slots f) key idx) ->
     size = Z.of_nat (length (A ++ slot_ents s ++ B)) -> (size * 10 <= f_cap f * 7)%Z ->
     uniq (A ++ slot_ents s ++ B) -> flat_inv f').
Proof.
  intros [Hc Hl Hs Hld R U] Hi Hne. destruct (slots_insert _ _ _ Hi) as (A & B & E & Hset).
  destruct (Hset s) as [Hm E']. exists A, B. eexists. split; [done|].
  unfold flat_store. rewrite Hm. cbn [mbind option_bind]. split; [done|]. split; [done|].
  intros Hk Hsz Hld' HU. constructor; unfold flat_iterate; cbn [f_slots f_size f_cap]; try done.
  - by rewrite length_insert.
  - by rewrite E'.
  - apply reachable_insert; [done|done|]. intros k v Hkv. destruct (Hk k v Hkv) as [-> ?].
    by apply reaches_insert.
  - by rewrite E'.
Qed.

Lemma flat_set_probe_spec f key val :
  flat_inv f -> ((f_size f + 1) * 10 <= f_cap f * 7)%Z ->
  exists e f', flat_set_probe f key val = Some (e, f') /\ flat_inv f' /\
    (e = xErrno_Ok /\ flat_iterate f' ≡ₚ spec_set key val (flat_iterate f) \/
     e = xErrno_NoMemory /\ flat_iterate f' ≡ₚ flat_iterate f).
Proof.
  intros I Hld'. pose proof I as [Hc Hl Hs Hld R U]. pose proof (cap_ok_range _ Hc).
  unfold flat_set_probe.
  destruct (flat_set_loop_spec f key (Z.to_nat (f_cap f)) 0 None I) as (r & -> & Hr);
    [lia|lia|lia|lia|done|].
  cbn [mbind option_bind]. destruct r as [ins|cur k'|].
  - destruct Hr as (F & Hrch & s & Hins & Hse).
    destruct (flat_store_spec f ins s (SLOT_OCCUPIED key val) (u64 (f_size f + 1)) key I Hins)
      as (A & B & f' & E & -> & E' & Hinv); [done|].
    cbn [mbind option_bind]. rewrite Hse in E. simpl in E, E'.
    assert (flat_iterate f' ≡ₚ (key, val) :: flat_iterate f) as HP.
    { rewrite E, E'. solve_Permutation. }
    exists xErrno_Ok, f'. split; [done|]. rewrite spec_set_fresh by done. split; [|by left].
    assert (u64 (f_size f + 1) = f_size f + 1)%Z as Hsz by (unfold u64; rewrite Z.mod_small; lia).
    apply Hinv.
    + intros ? ? [= <- <-]. done.
    + rewrite Hsz, Hs, E. simpl. rewrite !length_app. simpl. lia.
    + lia.
    + simpl. rewrite <- E', HP. by split.
  - destruct Hr as (v & Hcur & Ek).
    destruct (flat_store_spec f cur _ (SLOT_OCCUPIED k' val) (f_size f) k' I Hcur)
      as (A & B & f' & E & -> & E' & Hinv); [done|].
    cbn [mbind option_bind]. simpl in E, E'. rewrite E in U.
    exists xErrno_Ok, f'. split; [done|]. rewrite E, E', (spec_set_at _ _ _ _ _ _ U Ek).
    split; [|by left]. apply Hinv.
    + intros ? ? [= <- <-]. split; [done|]. by eapply R.
    + rewrite Hs, E. simpl. by rewrite !length_app.
    + lia.
    + simpl. by eapply uniq_replace_at.
  - exists xErrno_NoMemory, f. split; [done|]. split; [done|by right].
Qed.

Lemma flat_set_spec alloc f key val :
  flat_inv f -> exists e f', flat_set alloc f key val = Some (e, f') /\ flat_inv f' /\
    (e = xErrno_Ok /\ flat_iterate f' ≡ₚ spec_set key val (flat_iterate f) \/
     e = xErrno_NoMemory /\ flat_iterate f' ≡ₚ flat_iterate f).
Proof.
  intros I. pose proof I as [Hc Hl Hs Hld R U]. pose proof (cap_ok_range _ Hc). unfold flat_set.
  assert (u64 (f_cap f * 7) = f_cap f * 7)%Z as -> by (unfold u64; rewrite Z.mod_small; lia).
  assert (u64 ((f_size f + 1) * 10) = (f_size f + 1) * 10)%Z as ->
    by (unfold u64; rewrite Z.mod_small; lia).
  destruct (Z.ltb_spec (f_cap f * 7) ((f_size f + 1) * 10)).
  - destruct (flat_resize_spec alloc f I) as (e & f1 & -> & I1 & E1 & Hs1 & Hres).
    cbn [mbind option_bind fst snd]. destruct Hres as [[-> Hcap]|[-> ->]].
    + destruct (flat_set_probe_spec f1 key val I1) as (e & f2 & -> & I2 & Ho); [lia|].
      exists e, f2. split; [done|]. split; [done|].
      destruct Ho as [[-> Ho]|[-> Ho]]; [left|right; by rewrite Ho, E1].
      split; [done|]. rewrite Ho. apply spec_set_perm; [done|apply (fi_uniq _ I1)].
    + exists xErrno_NoMemory, f. split; [done|]. split; [done|by right].
  - apply flat_set_probe_spec; [done|lia].
Qed.

Lemma flat_get_spec f key : flat_inv f -> flat_get f key = Some (spec_get key (flat_iterate f)).
Proof.
  intros I. pose proof I as [Hc Hl Hs Hld R U]. pose proof (cap_ok_range _ Hc). unfold flat_get.
  destruct (flat_find_spec f key (Z.to_nat (f_cap f)) 0 I) as (r & -> & Hr); [lia|lia|lia|lia|].
  cbn [mbind option_bind]. unfold spec_get. destruct r as [[cur v]|].
  - destruct Hr as (k' & Hcur & Ek). destruct (slots_insert _ _ _ Hcur) as (A & B & E & _).
    unfold flat_iterate in *. rewrite E in U |- *. simpl in *.
    by rewrite (spec_find_at _ _ _ _ _ U Ek).
  - by rewrite (proj1 (spec_find_fresh _ _) Hr).
Qed.

Lemma flat_del_spec f key :
  flat_inv f -> exists f', flat_del f key = Some (spec_get key (flat_iterate f), f') /\
    flat_inv f' /\ flat_iterate f' ≡ₚ spec_del key (flat_iterate f).
Proof.
  intros I. pose proof I as [Hc Hl Hs Hld R U]. pose proof (cap_ok_range _ Hc). unfold flat_del.
  destruct (flat_find_spec f key (Z.to_nat (f_cap f)) 0 I) as (r & -> & Hr); [lia|lia|lia|lia|].
  cbn [mbind option_bind]. unfold spec_get. destruct r as [[cur v]|].
  - destruct Hr as (k' & Hcur & Ek).
    destruct (flat_store_spec f cur _ SLOT_TOMBSTONE (u64 (f_size f - 1)) key I Hcur)
      as (A & B & f' & E & -> & E' & Hinv); [done|].
    cbn [mbind option_bind]. simpl in E, E'. rewrite E in U, Hs |- *.
    rewrite (spec_find_at _ _ _ _ _ U Ek). exists f'. split; [done|].
    rewrite E', (spec_del_at _ _ _ _ _ (proj1 (uniq_at_fresh _ _ _ _ _ U Ek)) Ek).
    split; [|done]. rewrite length_app in Hs. simpl in Hs.
    assert (u64 (f_size f - 1) = f_size f - 1)%Z as Hsz by (unfold u64; rewrite Z.mod_small; lia).
    apply Hinv; simpl; [done|rewrite length_app; lia|lia|by eapply uniq_remove_at].
  - exists f. by rewrite (proj1 (spec_find_fresh _ _) Hr), spec_del_fresh.
Qed.

Lemma xMapFlatCreate_spec alloc cap f :
  cap_ok cap -> xMapFlatCreate alloc cap = Some f -> flat_inv f /\ flat_iterate f = [].
Proof.
  intros Hc. pose proof (cap_ok_range _ Hc). unfold xMapFlatCreate.
  destruct (alloc _); intros; simplify_eq. split; [|apply concat_empty_slots].
  constructor; unfold flat_iterate; cbn [f_slots f_size f_cap]; rewrite ?concat_empty_slots; try done.
  - by rewrite length_replicate.
  - lia.
  - apply reachable_empty.
Qed.

#[export, refine] Instance flat_xmap_ok : XMapOk K xMapFlat := {
  map_inv := flat_inv;
  map_inv_uniq f := fi_uniq f;
  map_len_ok := _;
  map_get_ok := flat_get_spec;
  map_set_ok := flat_set_spec;
  map_del_ok := flat_del_spec;
}.
Proof. intros f I. simpl. unfold flat_len. rewrite (fi_size _ I). lia. Defined.

End flat.

Arguments xMapFlat K : clear implicits.
Arguments xMapFlatSlot K : clear implicits.
