(* ===== verification/Map.v ===== *)
(** * Map: the public map API over its three backends ([libx/x/base/map.c])

    [xMapObj] is a map handle's object together with its vtable; [xMapCreate]
    picks the backend.  The theorems hold for every backend through the
    interface of MapIface: an arbitrary sequence of calls behaves as one on the
    abstract association list, the only freedom being that a set may report
    [xErrno_NoMemory]; Hash and Tree maps report it only when the allocator
    fails, a Flat map also when tombstones have used up its empty slots. *)

From S2P Require Import Prelude Errno MapIface MapHash MapTree MapFlat.

Inductive xMapType := xMapType_Hash | xMapType_Flat | xMapType_Tree.

Definition MAP_DEFAULT_CAP : Z := 16.

Section api.
Context {K : Type} `{!MapKey K, !MapKeyOk K}.

Inductive xMapObj :=
  | HashMap (h : xMapHash K)
  | FlatMap (f : xMapFlat K)
  | TreeMap (t : xMapTree K).

(** Calls through the vtable. *)
#[export] Instance xmap : XMap K xMapObj := {
  map_set alloc m k v :=
    match m with
    | HashMap h => r ← map_set alloc h k v; Some (r.1, HashMap r.2)
    | FlatMap f => r ← map_set alloc f k v; Some (r.1, FlatMap r.2)
    | TreeMap t => r ← map_set alloc t k v; Some (r.1, TreeMap r.2)
    end;
  map_get m k :=
    match m with HashMap h => map_get h k | FlatMap f => map_get f k | TreeMap t => map_get t k end;
  map_del m k :=
    match m with
    | HashMap h => r ← map_del h k; Some (r.1, HashMap r.2)
    | FlatMap f => r ← map_del f k; Some (r.1, FlatMap r.2)
    | TreeMap t => r ← map_del t k; Some (r.1, TreeMap r.2)
    end;
  map_len m :=
    match m with HashMap h => map_len h | FlatMap f => map_len f | TreeMap t => map_len t end;
  map_iterate m :=
    match m with
    | HashMap h => map_iterate h | FlatMap f => map_iterate f | TreeMap t => map_iterate t
    end;
}.

(** [cap = 0] asks for the default; the hint is otherwise passed on as it is. *)
Definition xMapCreate (alloc slab : oracle) (type : xMapType) (cap : Z) : option xMapObj :=
  let cap := if (cap =? 0)%Z then MAP_DEFAULT_CAP else cap in
  match type with
  | xMapType_Hash =>
      h ← xMapHashCreate alloc cap;
      if slab sizeof_entry then Some (HashMap h) else None
  | xMapType_Flat => FlatMap <$> xMapFlatCreate alloc cap
  | xMapType_Tree => TreeMap <$> xMapTreeCreate alloc slab
  end.

#[export, refine] Instance xmap_ok : XMapOk K xMapObj := {
  map_inv m := match m with HashMap h => map_inv h | FlatMap f => map_inv f | TreeMap t => map_inv t end;
  map_inv_uniq := _; map_len_ok := _; map_get_ok := _; map_set_ok := _; map_del_ok := _;
}.
Proof.
  - intros [h|f|t] I; by apply map_inv_uniq in I.
  - intros [h|f|t] I; by apply map_len_ok in I.
  - intros [h|f|t] k I; by apply (map_get_ok _ k) in I.
  - intros alloc [h|f|t] k v I; apply (map_set_ok alloc _ k v) in I as (e & m' & E & I & H);
      exists e; eexists; cbn [map_set xmap hash_xmap flat_xmap tree_xmap] in E |- *; rewrite E; (split; [done|]); (split; [exact I|]); exact H.
  - intros [h|f|t] k I; apply (map_del_ok _ k) in I as (m' & E & I & H);
      eexists; cbn [map_del map_iterate xmap hash_xmap flat_xmap tree_xmap] in E |- *; rewrite E; (split; [done|]); (split; [exact I|]); exact H.
Defined.

(** The capacities the backends work with. *)
Definition cap_hint_ok (type : xMapType) (cap : Z) : Prop :=
  match type with
  | xMapType_Hash => (0 <= cap)%Z /\ (cap * 8 <= SIZE_MAX)%Z
  | xMapType_Flat => cap = 0%Z \/ cap_ok cap
  | xMapType_Tree => True
  end.

Lemma xMapCreate_inv alloc slab type cap m :
  cap_hint_ok type cap -> xMapCreate alloc slab type cap = Some m ->
  map_inv m /\ map_iterate m = [].
Proof.
  unfold xMapCreate, MAP_DEFAULT_CAP.
  destruct type; cbn [cap_hint_ok]; destruct (Z.eqb_spec cap 0) as [->|Hne]; intros Hc.
  1-2: destruct (xMapHashCreate _ _) as [h|] eqn:E; [|done]; cbn [mbind option_bind];
    destruct (slab _); intros; simplify_eq; eapply xMapHashCreate_spec; [| |exact E];
    unfold SIZE_MAX in *; lia.
  1-2: destruct (xMapFlatCreate _ _) as [f|] eqn:E; [|done]; cbn; intros; simplify_eq;
    eapply xMapFlatCreate_spec; [|exact E].
  - exists 4%Z. unfold sizeof_xMapFlatSlot, SIZE_MAX. lia.
  - by destruct Hc.
  - destruct (xMapTreeCreate _ _) as [t|] eqn:E; [|done]. cbn; intros; simplify_eq.
    by eapply xMapTreeCreate_spec.
  - destruct (xMapTreeCreate _ _) as [t|] eqn:E; [|done]. cbn; intros; simplify_eq.
    by eapply xMapTreeCreate_spec.
Qed.

(** ** Sequences of calls *)

Inductive call :=
  | CSet (k : K) (v : Z)
  | CGet (k : K)
  | CDel (k : K)
  | CLen.

Inductive reply :=
  | RErr (e : xErrno)
  | RVal (v : Z)
  | RLen (n : nat).

(** Each call runs with the allocator of its moment. *)
Definition call_step (m : option xMapObj) (c : oracle * call) : ub (reply * option xMapObj) :=
  match c.2 with
  | CSet k v => r ← xMapSet c.1 m k v; Some (RErr r.1, r.2)
  | CGet k => v ← xMapGet m k; Some (RVal v, m)
  | CDel k => r ← xMapDel m k; Some (RVal r.1, r.2)
  | CLen => Some (RLen (xMapLen m), m)
  end.

Fixpoint call_run (m : option xMapObj) (cs : list (oracle * call)) : ub (list reply * option xMapObj) :=
  match cs with
  | [] => Some ([], m)
  | c :: cs =>
      r ← call_step m c;
      rs ← call_run r.2 cs;
      Some (r.1 :: rs.1, rs.2)
  end.

(** The abstract map, which may refuse a set for lack of memory. *)
Inductive abs_step : list (K * Z) -> call -> reply -> list (K * Z) -> Prop :=
  | abs_set k v l : abs_step l (CSet k v) (RErr xErrno_Ok) (spec_set k v l)
  | abs_nomem k v l : abs_step l (CSet k v) (RErr xErrno_NoMemory) l
  | abs_get k l : abs_step l (CGet k) (RVal (spec_get k l)) l
  | abs_del k l : abs_step l (CDel k) (RVal (spec_get k l)) (spec_del k l)
  | abs_len l : abs_step l CLen (RLen (length l)) l.

Inductive abs_run : list (K * Z) -> list call -> list reply -> list (K * Z) -> Prop :=
  | abs_nil l : abs_run l [] [] l
  | abs_cons l c r l1 cs rs l2 :
      abs_step l c r l1 -> abs_run l1 cs rs l2 -> abs_run l (c :: cs) (r :: rs) l2.

(** The abstract contents and the backend's, which may be in another order. *)
Definition map_sim (m : xMapObj) (l : list (K * Z)) : Prop :=
  map_inv m /\ map_iterate m ≡ₚ l /\ uniq l.

Lemma spec_del_perm k (l1 l2 : list (K * Z)) : l1 ≡ₚ l2 -> uniq l1 -> spec_del k l1 ≡ₚ spec_del k l2.
Proof.
  intros HP U. assert (uniq l2) as U2 by (by rewrite <- HP).
  pose proof (spec_find_perm k _ _ HP U) as E.
  destruct (spec_find k l1) as [v0|] eqn:Ef.
  2: { symmetry in E. apply spec_find_fresh in E, Ef. by rewrite !spec_del_fresh. }
  destruct (spec_find_split _ _ _ Ef) as (a1 & k1 & b1 & -> & Fa & Ek1).
  destruct (spec_find_split k l2 v0) as (a2 & k2 & b2 & -> & Fa2 & Ek2); [done|].
  rewrite !spec_del_at by done.
  assert (spec_set k 0 (a1 ++ (k1, v0) :: b1) ≡ₚ spec_set k 0 (a2 ++ (k2, v0) :: b2)) as HS
    by (by apply spec_set_perm).
  rewrite !spec_set_at in HS by done. rewrite <- !Permutation_middle in HP, HS.
  assert (k1 = k2) as ->; [|by apply Permutation_cons_inv in HP].
  assert ((k1, v0) ∈ (k2, v0) :: a2 ++ b2) as Hin by (rewrite <- HP; by left).
  apply elem_of_cons in Hin as [[= ->]|Hin]; [done|]. exfalso.
  destruct (uniq_at_fresh k _ _ _ _ U2 Ek2) as [F1 F2].
  assert (fresh k (a2 ++ b2)) as F by (by apply fresh_app).
  unfold fresh in F. rewrite Forall_forall in F. specialize (F _ Hin). simpl in F. congruence.
Qed.

Lemma call_step_sim m l c :
  map_sim m l -> exists r m' l', call_step (Some m) c = Some (r, Some m') /\
    abs_step l c.2 r l' /\ map_sim m' l'.
Proof.
  intros (I & HP & U). assert (uniq (map_iterate m)) as Um by (by apply map_inv_uniq).
  destruct c as [alloc [k v|k|k|]]; unfold call_step, xMapSet, xMapGet, xMapDel, xMapLen; cbn [fst snd].
  - destruct (map_set_ok alloc m k v I) as (e & m' & -> & I' & [[-> H]|[-> H]]);
      cbn [mbind option_bind fst snd].
    + exists (RErr xErrno_Ok), m', (spec_set k v l). split; [done|]. split; [constructor|].
      split; [done|]. split; [|by apply uniq_spec_set]. rewrite H. by apply spec_set_perm.
    + exists (RErr xErrno_NoMemory), m', l. split; [done|]. split; [constructor|].
      split; [done|]. split; [by rewrite H|done].
  - rewrite (map_get_ok m k I). cbn [mbind option_bind]. unfold spec_get at 1.
    rewrite (spec_find_perm k _ _ HP Um). eexists _, m, l. split; [done|]. split; [constructor|done].
  - destruct (map_del_ok m k I) as (m' & -> & I' & H). cbn [mbind option_bind fst snd].
    unfold spec_get at 1. rewrite (spec_find_perm k _ _ HP Um).
    exists (RVal (spec_get k l)), m', (spec_del k l). split; [done|]. split; [constructor|].
    split; [done|]. split; [|by apply uniq_spec_del]. rewrite H. by apply spec_del_perm.
  - assert (map_len m = length l) as -> by (rewrite (map_len_ok m I); by apply Permutation_length).
    exists (RLen (length l)), m, l.
    split; [done|]. split; [constructor|done].
Qed.

End api.

Arguments xMapObj K : clear implicits.
Arguments call K : clear implicits.

(** ** String and integer keys *)

#[export] Instance string_key : MapKey (list Z) := {| khash := xMapStrHash; keq := xMapStrEq |}.
#[export] Instance int_key : MapKey Z := {| khash := xMapIntHash; keq := xMapIntEq |}.

Lemma u64_range z : (0 <= u64 z < 2 ^ 64)%Z.
Proof. apply Z.mod_pos_bound. lia. Qed.

Lemma xMapStrHash_loop_range s h : (0 <= h < 2 ^ 64)%Z -> (0 <= xMapStrHash_loop h s < 2 ^ 64)%Z.
Proof.
  revert h. induction s as [|c s IH]; intros h Hh; cbn [xMapStrHash_loop]; [done|].
  apply IH, u64_range.
Qed.

#[export] Instance string_key_ok : MapKeyOk (list Z).
Proof.
  constructor; unfold keq, khash, string_key, xMapStrEq; intros.
  - by apply bool_decide_true.
  - apply bool_decide_ext. split; by intros ->.
  - apply bool_decide_eq_true in H, H0. subst. by apply bool_decide_true.
  - apply bool_decide_eq_true in H. by subst.
  - apply xMapStrHash_loop_range. lia.
Qed.

(** The integer finalizer step by step: xor with a shifted copy of itself is
    undone by doing it again with the doubled shifts, and a multiplication by
    an odd constant by one with its inverse. *)
Definition xorshift (n x : Z) : Z := Z.lxor x (Z.shiftr x n).

Lemma xorshift_range n x : (0 < n)%Z -> (0 <= x < 2 ^ 64)%Z -> (0 <= xorshift n x < 2 ^ 64)%Z.
Proof.
  intros Hn Hx. unfold xorshift. assert (0 <= Z.shiftr x n)%Z by (apply Z.shiftr_nonneg; lia).
  assert (0 <= Z.lxor x (Z.shiftr x n))%Z by (apply Z.lxor_nonneg; lia). split; [done|].
  destruct (Z.eq_dec (Z.lxor x (Z.shiftr x n)) 0%Z) as [->|]; [lia|].
  apply Z.log2_lt_pow2; [lia|].
  eapply Z.le_lt_trans; [apply Z.log2_lxor; lia|].
  destruct (Z.eq_dec x 0%Z) as [->|]; [by rewrite Z.shiftr_0_l|].
  assert (Z.log2 x < 64)%Z by (apply Z.log2_lt_pow2; lia).
  apply Z.max_lub_lt; [done|]. rewrite Z.log2_shiftr by lia. lia.
Qed.

Definition unshift (n y : Z) : Z :=
  Z.lxor y (Z.lxor (Z.shiftr y n) (Z.shiftr y (2 * n))).

Lemma unshift_xorshift n x :
  (0 <= n)%Z -> (0 <= x < 2 ^ 64)%Z -> (64 <= 3 * n)%Z -> unshift n (xorshift n x) = x.
Proof.
  intros Hn Hx H3. unfold unshift, xorshift. rewrite !Z.shiftr_lxor, !Z.shiftr_shiftr by lia.
  rewrite (Z.shiftr_eq_0 x (n + 2 * n)); [|lia|].
  - replace (n + n)%Z with (2 * n)%Z by lia. rewrite Z.lxor_0_r.
    rewrite Z.lxor_assoc. rewrite <- (Z.lxor_assoc (Z.shiftr x n)).
    rewrite <- (Z.lxor_assoc (Z.shiftr x n) (Z.shiftr x n)).
    rewrite Z.lxor_nilpotent, Z.lxor_0_l, Z.lxor_nilpotent. by rewrite Z.lxor_0_r.
  - destruct (Z.eq_dec x 0%Z) as [->|]; [change (Z.log2 0) with 0%Z; lia|].
    assert (Z.log2 x < 64)%Z by (apply Z.log2_lt_pow2; lia). lia.
Qed.

Lemma mul_inverse a b x : (u64 (a * b) = 1)%Z -> (0 <= x < 2 ^ 64)%Z -> u64 (u64 (x * a) * b) = x.
Proof.
  unfold u64. intros H Hx. rewrite Z.mul_mod_idemp_l by lia.
  rewrite <- Z.mul_assoc, <- Z.mul_mod_idemp_r by lia. rewrite H, Z.mul_1_r. by apply Z.mod_small.
Qed.

Definition xMapIntUnhash (h : Z) : Z :=
  let x := unshift 31 h in
  let x := u64 (x * 0x319642b2d24d8ec3) in
  let x := unshift 27 x in
  let x := u64 (x * 0x96de1b173f119089) in
  unshift 30 x.

Lemma xMapIntUnhash_hash key : (0 <= key < 2 ^ 64)%Z -> xMapIntUnhash (xMapIntHash key) = key.
Proof.
  intros Hk. unfold xMapIntHash. assert (u64 key = key) as -> by (by apply Z.mod_small).
  change (xMapIntUnhash (xorshift 31 (u64 (xorshift 27 (u64 (xorshift 30 key * 0xbf58476d1ce4e5b9))
    * 0x94d049bb133111eb))) = key).
  unfold xMapIntUnhash.
  pose proof (xorshift_range 30 key).
  pose proof (u64_range (xorshift 30 key * 0xbf58476d1ce4e5b9)) as R1.
  pose proof (xorshift_range 27 _ ltac:(lia) R1) as R2.
  rewrite unshift_xorshift by (apply u64_range || lia).
  rewrite mul_inverse by (reflexivity || exact R2).
  rewrite unshift_xorshift by (exact R1 || lia).
  rewrite mul_inverse by (reflexivity || auto with lia).
  apply unshift_xorshift; lia.
Qed.

#[export] Instance int_key_ok : MapKeyOk Z.
Proof.
  constructor; unfold keq, khash, int_key, xMapIntEq; intros.
  - apply Z.eqb_refl.
  - apply Z.eqb_sym.
  - apply Z.eqb_eq in H, H0. subst. apply Z.eqb_refl.
  - apply Z.eqb_eq in H. by subst.
  - unfold xMapIntHash. apply (xorshift_range 31); [lia|]. apply u64_range.
Qed.

(** ** Properties *)

Lemma call_run_sim {K} `{!MapKey K, !MapKeyOk K} (m : xMapObj K) l cs :
  map_sim m l -> exists rs m' l', call_run (Some m) cs = Some (rs, Some m') /\
    abs_run l cs.*2 rs l' /\ map_sim m' l'.
Proof.
  revert m l. induction cs as [|c cs IH]; intros m l HS; cbn [call_run].
  { exists [], m, l. split; [done|]. split; [constructor|done]. }
  destruct (call_step_sim m l c HS) as (r & m1 & l1 & -> & Hs & HS1).
  cbn [mbind option_bind fst snd]. destruct (IH m1 l1 HS1) as (rs & m' & l' & -> & Hr & HS').
  exists (r :: rs), m', l'. split; [done|]. split; [|done]. rewrite fmap_cons. by econstructor.
Qed.



(** a Hash or Tree map of fewer than 2^32 entries whose allocations succeed
    never refuses a set. *)
Theorem xmap_set_total {K} `{!MapKey K, !MapKeyOk K} (m : xMapObj K) k v :
  map_inv m -> (match m with FlatMap _ => False | _ => True end) ->
  (Z.of_nat (xMapLen (Some m)) < 2 ^ 32)%Z ->
  exists m', xMapSet (fun _ => true) (Some m) k v = Some (xErrno_Ok, Some m').
Proof.
  intros I Hb Hl. unfold xMapLen in Hl. rewrite (map_len_ok m I) in Hl.
  destruct m as [h|f|t]; [|done|].
  - destruct (map_set_total h k v I Hl) as [m' E]. exists (HashMap m').
    unfold xMapSet. cbn [map_set xmap]. by rewrite E.
  - destruct (map_set_total t k v I Hl) as [m' E]. exists (TreeMap m').
    unfold xMapSet. cbn [map_set xmap]. by rewrite E.
Qed.

Lemma xmap_set_total_witness :
  exists m', xMapSet (fun _ => true) (Some (TreeMap {| t_root := Leaf; t_size := 0 |})) 5%Z 50%Z
    = Some (xErrno_Ok, Some m').
Proof.
  apply (xmap_set_total (TreeMap {| t_root := Leaf; t_size := 0 |}) 5%Z 50%Z); [|exact I|reflexivity].
  apply (xMapTreeCreate_spec (fun _ => true) (fun _ => true)). reflexivity.
Defined.

(** The calls of a client that sets and deletes one key after another. *)
Definition set_del_calls (keys : list Z) : list (oracle * call Z) :=
  keys ≫= fun k => [(fun _ => true, CSet k 1%Z); (fun _ => true, CDel k)].

(** A Flat map runs out of room while it is empty.  After the keys 1 to 90
    have each been set and deleted again every slot is a tombstone; a further
    set is refused with [xErrno_NoMemory] although no entry is stored and
    every allocation succeeds. *)
Theorem flat_tombstones_exhaust :
  (fun r => drop 180 r.1) <$>
    call_run (xMapCreate (fun _ => true) (fun _ => true) xMapType_Flat 0)
      (set_del_calls (seqZ 1 90) ++ [(fun _ => true, CLen); (fun _ => true, CSet 1000 1)]%Z)
  = Some [RLen 0; RErr xErrno_NoMemory].
Proof. vm_compute. reflexivity. Qed.

Lemma tree_run_backend {K} `{!MapKey K, !MapKeyOk K} (m : xMapObj K) cs rs m' :
  (exists t, m = TreeMap t) -> map_inv m -> call_run (Some m) cs = Some (rs, Some m') ->
  (exists t, m' = TreeMap t) /\ map_inv m'.
Proof.
  revert m rs. induction cs as [|c cs IH]; intros m rs [t ->] I H; cbn [call_run] in H.
  { injection H as <- <-. split; [by exists t|done]. }
  destruct (call_step_sim (TreeMap t) (map_iterate (TreeMap t)) c)
    as (r & m1 & l1 & E & _ & I1 & _).
  { split; [done|]. split; [done|]. by apply map_inv_uniq. }
  rewrite E in H. cbn [mbind option_bind fst snd] in H.
  destruct (call_run (Some m1) cs) as [[rs1 m2]|] eqn:E2; [|done].
  cbn [mbind option_bind fst snd] in H. injection H as <- ->.
  apply (IH m1 rs1); [|done|done].
  destruct c as [alloc [k v|k|k|]]; cbn in E.
  - destruct (tree_set alloc t k v); [|done]. cbn in E. injection E as _ <-. by eexists.
  - destruct (tree_get t k); [|done]. injection E as _ <-. by exists t.
  - destruct (tree_del t k); [|done]. cbn in E. injection E as _ <-. by eexists.
  - injection E as _ <-. by exists t.
Qed.

(** C2: whatever calls a Tree map has executed, it is balanced: a search
    descends at most twice the logarithm of its number of entries. *)
Theorem tree_height_bound {K} `{!MapKey K, !MapKeyOk K} alloc slab cap (m : xMapObj K) cs rs m' :
  xMapCreate alloc slab xMapType_Tree cap = Some m -> call_run (Some m) cs = Some (rs, Some m') ->
  exists t, m' = TreeMap t /\ height (t_root t) <= 2 * Nat.log2 (S (xMapLen (Some m'))).
Proof.
  intros Hm Hrun. destruct (xMapCreate_inv _ _ xMapType_Tree _ _ I Hm) as [Hi _].
  assert (exists t, m = TreeMap t) as Ht.
  { unfold xMapCreate in Hm. destruct (xMapTreeCreate alloc slab); [|done]. injection Hm as <-. by eexists. }
  destruct (tree_run_backend m cs rs m' Ht Hi Hrun) as [[t ->] I']. exists t. split; [done|].
  unfold xMapLen. rewrite (map_len_ok _ I'). destruct I' as [[Hb [n Hr]] _ _].
  pose proof (rb_height _ _ Hr) as Hh. rewrite Hb in Hh. pose proof (rb_size _ _ Hr) as Hs.
  assert (length (nodes (t_root t)) <= length (map_iterate (TreeMap t))) as Hn.
  { change (map_iterate (TreeMap t)) with (iterate_subtree (t_root t)). clear.
    rewrite iterate_subtree_ents. induction (nodes (t_root t)) as [|e l IH]; [simpl; lia|].
    unfold ents in *. rewrite fmap_cons. cbn [concat]. rewrite length_app. cbn [length ents1]. lia. }
  assert (n <= Nat.log2 (S (length (map_iterate (TreeMap t))))); [|lia].
  apply Nat.log2_le_pow2; lia.
Qed.

Lemma tree_height_bound_witness :
  exists t, call_run (xMapCreate (fun _ => true) (fun _ => true) xMapType_Tree 0)
      [(fun _ => true, CSet 1 10); (fun _ => true, CSet 2 20); (fun _ => true, CSet 3 30)]%Z
    = Some ([RErr xErrno_Ok; RErr xErrno_Ok; RErr xErrno_Ok], Some (TreeMap t)) /\
    height (t_root t) <= 2 * Nat.log2 4.
Proof.
  eexists. split; [vm_compute; reflexivity|].
  match goal with |- height (t_root ?t0) <= _ =>
    destruct (tree_height_bound (fun _ => true) (fun _ => true) 0 (TreeMap {| t_root := Leaf; t_size := 0 |})
      [(fun _ => true, CSet 1 10); (fun _ => true, CSet 2 20); (fun _ => true, CSet 3 30)]%Z
      [RErr xErrno_Ok; RErr xErrno_Ok; RErr xErrno_Ok] (TreeMap t0) eq_refl) as (t & E & H)
  end; [vm_compute; reflexivity|]. injection E as E. rewrite E. exact H.
Defined.

(** [xMapIntHash] is injective on 64-bit keys: integer keys never collide. *)
Lemma xMapIntHash_injective k1 k2 :
  (0 <= k1 < 2 ^ 64)%Z -> (0 <= k2 < 2 ^ 64)%Z -> xMapIntHash k1 = xMapIntHash k2 -> k1 = k2.
Proof.
  intros H1 H2 H. rewrite <- (xMapIntUnhash_hash k1 H1), <- (xMapIntUnhash_hash k2 H2). by rewrite H.
Qed.

Lemma xMapIntHash_injective_witness :
  xMapIntHash 6 = xMapIntHash (2 * 3) /\ 6%Z = (2 * 3)%Z.
Proof. split; [reflexivity|]. apply (xMapIntHash_injective 6 (2 * 3)); [lia..|reflexivity]. Defined.

(** The capacity hint is not rounded to the power of two that probing
    relies on.  A Flat map made with the hint 10 refuses its fifth key, with
    every allocation succeeding: only four of its ten slots can be probed. *)
Lemma flat_hint_not_rounded :
  fst <$> call_run (K := Z) (xMapCreate (fun _ => true) (fun _ => true) xMapType_Flat 10)
    ((fun k => (fun _ => true, CSet k 1%Z)) <$> [1; 2; 3; 4; 5]%Z)
  = Some [RErr xErrno_Ok; RErr xErrno_Ok; RErr xErrno_Ok; RErr xErrno_Ok; RErr xErrno_NoMemory].
Proof. vm_compute. reflexivity. Qed.
