(* ===== verification/Ring.v ===== *)
(** * Ring: the fixed-size ring buffer ([libx/x/buf/ring.c])

    [head] and [tail] are free-running 64-bit cursors, masked on use.  The
    abstract state is a bounded queue of bytes: [content] reads it off the data
    block, and every operation is shown to be the queue's, also when the region
    it touches wraps around the block or the cursors wrap around 2^64.

    An [iovec] is the offset and length of a region of the block; the
    vectored system calls are parameters that say how many bytes moved. *)

From S2P Require Import Prelude.

Record xRingBuffer_ := {
  r_cap : Z;
  r_mask : Z;
  r_head : Z;
  r_tail : Z;
  r_data : list Z;
}.

Definition sizeof_xRingBuffer_ : Z := 32.

Definition next_pow2 (v : Z) : Z :=
  let v := if (v <? 16)%Z then 16%Z else v in
  if (Z.shiftr SIZE_MAX 1 + 1 <? v)%Z then (Z.shiftr SIZE_MAX 1 + 1)%Z
  else
    let v := (v - 1)%Z in
    let v := Z.lor v (Z.shiftr v 1) in
    let v := Z.lor v (Z.shiftr v 2) in
    let v := Z.lor v (Z.shiftr v 4) in
    let v := Z.lor v (Z.shiftr v 8) in
    let v := Z.lor v (Z.shiftr v 16) in
    let v := Z.lor v (Z.shiftr v 32) in
    (v + 1)%Z.

(** [junk n] is what [malloc] leaves in [n] fresh bytes. *)
Definition xRingBufferCreate (alloc : oracle) (junk : nat -> list Z) (min_cap : Z) : option xRingBuffer_ :=
  if (min_cap =? 0)%Z then None else
  let cap := next_pow2 min_cap in
  if alloc (u64 (sizeof_xRingBuffer_ + cap)) then
    Some {| r_cap := cap; r_mask := (cap - 1)%Z; r_head := 0; r_tail := 0;
            r_data := junk (Z.to_nat cap) |}
  else None.

Definition with_head (r : xRingBuffer_) (h : Z) : xRingBuffer_ :=
  {| r_cap := r_cap r; r_mask := r_mask r; r_head := h; r_tail := r_tail r; r_data := r_data r |}.

Definition with_tail (r : xRingBuffer_) (t : Z) : xRingBuffer_ :=
  {| r_cap := r_cap r; r_mask := r_mask r; r_head := r_head r; r_tail := t; r_data := r_data r |}.

Definition with_data (r : xRingBuffer_) (d : list Z) : xRingBuffer_ :=
  {| r_cap := r_cap r; r_mask := r_mask r; r_head := r_head r; r_tail := r_tail r; r_data := d |}.

Definition xRingBufferReset (r : xRingBuffer_) : xRingBuffer_ := with_tail (with_head r 0) 0.
Definition xRingBufferLen (r : xRingBuffer_) : Z := u64 (r_head r - r_tail r).
Definition xRingBufferCap (r : xRingBuffer_) : Z := r_cap r.
Definition xRingBufferWritable (r : xRingBuffer_) : Z := u64 (r_cap r - u64 (r_head r - r_tail r)).
Definition xRingBufferEmpty (r : xRingBuffer_) : bool := (r_head r =? r_tail r)%Z.
Definition xRingBufferFull (r : xRingBuffer_) : bool := (u64 (r_head r - r_tail r) =? r_cap r)%Z.

(** [data] is the source object; [len] bytes of it are asked for. *)
Definition xRingBufferWrite (r : xRingBuffer_) (data : list Z) (len : Z) : ub (Z * xRingBuffer_) :=
  if (len =? 0)%Z then Some (0%Z, r) else
  let writable := u64 (r_cap r - u64 (r_head r - r_tail r)) in
  let len := if (writable <? len)%Z then writable else len in
  if (len =? 0)%Z then Some (0%Z, r) else
  let pos := Z.land (r_head r) (r_mask r) in
  let first := u64 (r_cap r - pos) in
  d ← (if (len <=? first)%Z then
         src ← mem_read data 0 (Z.to_nat len);
         mem_write (r_data r) (Z.to_nat pos) src
       else
         src1 ← mem_read data 0 (Z.to_nat first);
         d ← mem_write (r_data r) (Z.to_nat pos) src1;
         src2 ← mem_read data (Z.to_nat first) (Z.to_nat (u64 (len - first)));
         mem_write d 0 src2);
  Some (len, with_head (with_data r d) (u64 (r_head r + len))).

(** The bytes copied out; their number is what the C function returns. *)
Definition ring_copy_out (r : xRingBuffer_) (len : Z) : ub (list Z) :=
  let readable := u64 (r_head r - r_tail r) in
  let len := if (readable <? len)%Z then readable else len in
  if (len =? 0)%Z then Some [] else
  let pos := Z.land (r_tail r) (r_mask r) in
  let first := u64 (r_cap r - pos) in
  if (len <=? first)%Z then mem_read (r_data r) (Z.to_nat pos) (Z.to_nat len)
  else
    a ← mem_read (r_data r) (Z.to_nat pos) (Z.to_nat first);
    b ← mem_read (r_data r) 0 (Z.to_nat (u64 (len - first)));
    Some (a ++ b).

Definition xRingBufferRead (r : xRingBuffer_) (len : Z) : ub (list Z * xRingBuffer_) :=
  out ← ring_copy_out r len;
  Some (out, with_tail r (u64 (r_tail r + Z.of_nat (length out)))).

Definition xRingBufferPeek (r : xRingBuffer_) (len : Z) : ub (list Z) := ring_copy_out r len.

Definition xRingBufferDiscard (r : xRingBuffer_) (n : Z) : Z * xRingBuffer_ :=
  let readable := u64 (r_head r - r_tail r) in
  let n := if (readable <? n)%Z then readable else n in
  (n, with_tail r (u64 (r_tail r + n))).

Abbreviation iovec := (Z * Z)%type.

Definition xRingBufferReadIov (r : xRingBuffer_) : list iovec :=
  let readable := u64 (r_head r - r_tail r) in
  if (readable =? 0)%Z then [] else
  let pos := Z.land (r_tail r) (r_mask r) in
  let first := u64 (r_cap r - pos) in
  if (readable <=? first)%Z then [(pos, readable)]
  else [(pos, first); (0%Z, u64 (readable - first))].

Definition xRingBufferWriteIov (r : xRingBuffer_) : list iovec :=
  let writable := u64 (r_cap r - u64 (r_head r - r_tail r)) in
  if (writable =? 0)%Z then [] else
  let pos := Z.land (r_head r) (r_mask r) in
  let first := u64 (r_cap r - pos) in
  if (writable <=? first)%Z then [(pos, writable)]
  else [(pos, first); (0%Z, u64 (writable - first))].

(** What [readv] stores: the received bytes fill the regions in order. *)
Fixpoint scatter (d : list Z) (iov : list iovec) (bs : list Z) : ub (list Z) :=
  match iov with
  | [] => Some d
  | (off, n) :: iov =>
      d ← mem_write d (Z.to_nat off) (take (Z.to_nat n) bs);
      scatter d iov (drop (Z.to_nat n) bs)
  end.

(** What [writev] is given. *)
Fixpoint gather (d : list Z) (iov : list iovec) : ub (list Z) :=
  match iov with
  | [] => Some []
  | (off, n) :: iov =>
      a ← mem_read d (Z.to_nat off) (Z.to_nat n);
      b ← gather d iov;
      Some (a ++ b)
  end.

(** [readv] is the environment's: asked for [n] bytes it returns the bytes that
    arrived, or [None] on an error other than EINTR, which is retried.  The
    result is the return value. *)
Definition xRingBufferReadFd (readv : Z -> option (list Z)) (r : xRingBuffer_) : ub (Z * xRingBuffer_) :=
  match xRingBufferWriteIov r with
  | [] => Some (0%Z, r)
  | iov =>
      match readv (xRingBufferWritable r) with
      | None => Some ((-1)%Z, r)
      | Some bs =>
          d ← scatter (r_data r) iov bs;
          let n := Z.of_nat (length bs) in
          let r := with_data r d in
          Some (n, if (0 <? n)%Z then with_head r (u64 (r_head r + n)) else r)
      end
  end.

(** [writev] says how many of the bytes it was given it took; it returns them
    here so that the theorem can speak of them. *)
Definition xRingBufferWriteFd (writev : list Z -> option nat) (r : xRingBuffer_)
    : ub (Z * list Z * xRingBuffer_) :=
  match xRingBufferReadIov r with
  | [] => Some (0%Z, [], r)
  | iov =>
      bs ← gather (r_data r) iov;
      match writev bs with
      | None => Some ((-1)%Z, [], r)
      | Some n =>
          Some (Z.of_nat n, take n bs,
            if (0 <? Z.of_nat n)%Z then with_tail r (u64 (r_tail r + Z.of_nat n)) else r)
      end
  end.

(** ** The queue *)

Definition ring_pos (r : xRingBuffer_) : nat := Z.to_nat (r_tail r mod r_cap r).
Definition ring_len (r : xRingBuffer_) : nat := Z.to_nat (u64 (r_head r - r_tail r)).

(** The block from offset [p] on, around the end. *)
Definition rotate {A} (p : nat) (d : list A) : list A := drop p d ++ take p d.

Definition content (r : xRingBuffer_) : list Z := take (ring_len r) (rotate (ring_pos r) (r_data r)).

Record ring_inv (r : xRingBuffer_) : Prop := {
  ri_cap : exists p, (4 <= p <= 63)%Z /\ r_cap r = (2 ^ p)%Z;
  ri_mask : r_mask r = (r_cap r - 1)%Z;
  ri_head : (0 <= r_head r < 2 ^ 64)%Z;
  ri_tail : (0 <= r_tail r < 2 ^ 64)%Z;
  ri_data : length (r_data r) = Z.to_nat (r_cap r);
  ri_len : (u64 (r_head r - r_tail r) <= r_cap r)%Z;
}.

(** Offset [i] after position [p] in a block of [c] bytes. *)
Definition wrap (c p i : nat) : nat := if decide (p + i < c) then p + i else p + i - c.

Lemma lookup_rotate {A} (d : list A) p i :
  p < length d -> i < length d -> rotate p d !! i = d !! wrap (length d) p i.
Proof.
  intros Hp Hi. unfold rotate, wrap. case_decide.
  - rewrite lookup_app_l by (rewrite length_drop; lia). by rewrite lookup_drop.
  - rewrite lookup_app_r by (rewrite length_drop; lia). rewrite length_drop.
    rewrite lookup_take_lt by lia. f_equal. lia.
Qed.

Lemma length_rotate {A} (d : list A) p : p <= length d -> length (rotate p d) = length d.
Proof. intros. unfold rotate. rewrite length_app, length_drop, length_take. lia. Qed.

Lemma ring_cap_range r : ring_inv r -> (16 <= r_cap r <= 2 ^ 63)%Z.
Proof.
  intros [(p & Hp & ->) _ _ _ _ _]. split.
  - change 16%Z with (2 ^ 4)%Z. apply Z.pow_le_mono_r; lia.
  - apply Z.pow_le_mono_r; lia.
Qed.

Lemma ring_land r z : ring_inv r -> Z.land z (r_mask r) = (z mod r_cap r)%Z.
Proof.
  intros [(p & Hp & E) Hm _ _ _ _]. rewrite Hm, E.
  replace (2 ^ p - 1)%Z with (Z.ones p) by (rewrite Z.ones_equiv; lia).
  apply Z.land_ones. lia.
Qed.

(** Masking a cursor that has wrapped around 2^64. *)
Lemma ring_mod_u64 r z : ring_inv r -> (u64 z mod r_cap r = z mod r_cap r)%Z.
Proof.
  intros [(p & Hp & ->) _ _ _ _ _]. unfold u64.
  replace (2 ^ 64)%Z with (2 ^ p * 2 ^ (64 - p))%Z by (rewrite <- Z.pow_add_r by lia; f_equal; lia).
  rewrite Z.rem_mul_r by (apply Z.pow_nonzero || apply Z.pow_pos_nonneg; lia).
  rewrite Z.mul_comm, Z_mod_plus_full. by apply Z.mod_mod, Z.pow_nonzero; lia.
Qed.

Lemma ring_pos_lt r : ring_inv r -> ring_pos r < Z.to_nat (r_cap r).
Proof.
  intros I. pose proof (ring_cap_range r I). unfold ring_pos.
  pose proof (Z.mod_pos_bound (r_tail r) (r_cap r)). lia.
Qed.

Lemma ring_len_le r : ring_inv r -> ring_len r <= Z.to_nat (r_cap r).
Proof. intros I. pose proof (ri_len r I). unfold ring_len. lia. Qed.

Lemma length_content r : ring_inv r -> length (content r) = ring_len r.
Proof.
  intros I. unfold content. rewrite length_take, length_rotate; rewrite (ri_data r I).
  - pose proof (ring_len_le r I). lia.
  - pose proof (ring_pos_lt r I). lia.
Qed.

Lemma lookup_content r i :
  ring_inv r -> i < ring_len r ->
  content r !! i = r_data r !! wrap (Z.to_nat (r_cap r)) (ring_pos r) i.
Proof.
  intros I Hi. unfold content. rewrite lookup_take_lt by done.
  pose proof (ring_pos_lt r I). pose proof (ring_len_le r I).
  rewrite lookup_rotate; rewrite (ri_data r I); [done|lia..].
Qed.

(** The write position is the read position plus the length. *)
Lemma ring_head_pos r :
  ring_inv r ->
  Z.to_nat (r_head r mod r_cap r) =
    if decide (ring_len r = Z.to_nat (r_cap r)) then ring_pos r
    else wrap (Z.to_nat (r_cap r)) (ring_pos r) (ring_len r).
Proof.
  intros I. pose proof (ring_cap_range r I). pose proof (ri_len r I).
  pose proof (ring_pos_lt r I). unfold ring_pos, ring_len, wrap in *.
  assert (r_head r mod r_cap r =
    (r_tail r mod r_cap r + u64 (r_head r - r_tail r)) mod r_cap r)%Z as ->.
  { rewrite Z.add_mod_idemp_l by lia. rewrite <- Z.add_mod_idemp_r, ring_mod_u64 by (done || lia).
    rewrite Z.add_mod_idemp_r by lia. f_equal. lia. }
  pose proof (Z.mod_pos_bound (r_tail r) (r_cap r)).
  pose proof (Z.mod_pos_bound (r_head r - r_tail r) (2 ^ 64)). fold (u64 (r_head r - r_tail r)) in *.
  set (t := (r_tail r mod r_cap r)%Z) in *. set (l := u64 (r_head r - r_tail r)) in *.
  set (c := r_cap r) in *.
  assert ((t + l) mod c = if decide (t + l < c)%Z then t + l else t + l - c)%Z as ->.
  { case_decide; [apply Z.mod_small; lia|].
    rewrite <- (Z.mod_small (t + l - c) c) by lia.
    replace (t + l - c)%Z with (t + l + (-1) * c)%Z by lia. by rewrite Z_mod_plus_full. }
  repeat case_decide; lia.
Qed.

(** Storing [src] from position [p] on, in one or two pieces. *)
Definition store_wrapped (d : list Z) (p : nat) (src : list Z) : ub (list Z) :=
  let c := length d in
  if decide (length src <= c - p) then mem_write d p src
  else d1 ← mem_write d p (take (c - p) src); mem_write d1 0 (drop (c - p) src).

Lemma store_wrapped_spec d p src :
  p < length d -> length src <= length d ->
  exists d', store_wrapped d p src = Some d' /\ length d' = length d /\
    forall i, i < length d ->
      d' !! wrap (length d) p i = if decide (i < length src) then src !! i else d !! wrap (length d) p i.
Proof.
  intros Hp Hn. unfold store_wrapped. case_decide as Hc.
  - destruct (mem_write d p src) as [d'|] eqn:E; [|unfold mem_write in E; case_decide; [done|lia]].
    exists d'. split; [done|]. split; [by eapply mem_write_length|].
    intros i Hi. rewrite (lookup_mem_write _ _ _ _ _ E). unfold wrap.
    repeat case_decide; try lia; try done. f_equal. lia.
  - destruct (mem_write d p _) as [d1|] eqn:E1;
      [|unfold mem_write in E1; case_decide; [done|]; rewrite length_take in *; lia].
    cbn [mbind option_bind]. pose proof (mem_write_length _ _ _ _ E1) as L1.
    destruct (mem_write d1 0 _) as [d'|] eqn:E2;
      [|unfold mem_write in E2; case_decide; [done|]; rewrite length_drop in *; lia].
    exists d'. split; [done|]. split; [by rewrite (mem_write_length _ _ _ _ E2)|].
    intros i Hi. rewrite (lookup_mem_write _ _ _ _ _ E2), (lookup_mem_write _ _ _ _ _ E1).
    rewrite length_take, length_drop, lookup_drop. unfold wrap.
    repeat case_decide; try lia; try done.
    + f_equal. lia.
    + rewrite lookup_take_lt by lia. f_equal. lia.
Qed.

(** The queue after the cursors move and the block changes accordingly. *)
Lemma content_store r d' src :
  ring_inv r -> ring_len r + length src <= Z.to_nat (r_cap r) ->
  length d' = length (r_data r) ->
  (forall i, i < length (r_data r) ->
     d' !! wrap (length (r_data r)) (Z.to_nat (r_head r mod r_cap r)) i =
       if decide (i < length src) then src !! i
       else r_data r !! wrap (length (r_data r)) (Z.to_nat (r_head r mod r_cap r)) i) ->
  let r' := with_head (with_data r d') (u64 (r_head r + Z.of_nat (length src))) in
  ring_inv r' /\ content r' = content r ++ src.
Proof.
  intros I Hn Hl Hd r'. pose proof (ring_cap_range r I) as Hcap. pose proof (ri_len r I) as HL.
  pose proof (ring_pos_lt r I) as Hp.
  assert (u64 (r_head r' - r_tail r') = u64 (r_head r - r_tail r) + Z.of_nat (length src))%Z as Elen.
  { unfold r'. cbn [r_head r_tail with_head with_data]. unfold u64.
    rewrite Zminus_mod_idemp_l. replace (r_head r + Z.of_nat (length src) - r_tail r)%Z
      with (r_head r - r_tail r + Z.of_nat (length src))%Z by lia.
    rewrite <- Z.add_mod_idemp_l by lia. fold (u64 (r_head r - r_tail r)).
    apply Z.mod_small. pose proof (Z.mod_pos_bound (r_head r - r_tail r) (2 ^ 64)).
    fold (u64 (r_head r - r_tail r)) in *. unfold ring_len in Hn. lia. }
  assert (ring_len r' = ring_len r + length src) as Elen'.
  { unfold ring_len in *. rewrite Elen.
    pose proof (Z.mod_pos_bound (r_head r - r_tail r) (2 ^ 64)). fold (u64 (r_head r - r_tail r)) in *. lia. }
  assert (ring_inv r') as I'.
  { destruct I as [Ic Im Ih It Id Il]. split; cbn [r_cap r_mask r_head r_tail r_data with_head with_data r'];
      try done.
    - apply Z.mod_pos_bound. lia.
    - congruence.
    - unfold r' in Elen. cbn [r_head r_tail with_head with_data] in Elen. rewrite Elen.
      unfold ring_len in Hn. lia. }
  split; [done|].
  apply list_eq_same_length with (n := ring_len r'); [
    rewrite length_app, length_content by done; lia|by rewrite length_content|].
  intros i x y Hi Hx Hy. rewrite lookup_content in Hx by done.
  cbn [r' r_cap r_data with_head with_data] in Hx.
  change (ring_pos r') with (ring_pos r) in Hx. rewrite (ri_data r I) in Hd.
  pose proof (ring_head_pos r I) as Hh.
  assert (forall j, j < Z.to_nat (r_cap r) ->
    wrap (Z.to_nat (r_cap r)) (Z.to_nat (r_head r mod r_cap r)) j =
    wrap (Z.to_nat (r_cap r)) (ring_pos r)
      (if decide (ring_len r + j < Z.to_nat (r_cap r)) then ring_len r + j
       else ring_len r + j - Z.to_nat (r_cap r))) as Hw.
  { intros j Hj. rewrite Hh. pose proof (ring_len_le r I). unfold wrap. repeat case_decide; lia. }
  destruct (decide (i < ring_len r)).
  - rewrite lookup_app_l in Hy by (rewrite length_content by done; lia).
    rewrite lookup_content in Hy by done.
    specialize (Hd (i + Z.to_nat (r_cap r) - ring_len r)). rewrite Hw in Hd by lia.
    rewrite decide_False in Hd by lia.
    replace (ring_len r + (i + Z.to_nat (r_cap r) - ring_len r) - Z.to_nat (r_cap r)) with i in Hd by lia.
    rewrite decide_False in Hd by lia. rewrite Hd in Hx by lia. congruence.
  - rewrite lookup_app_r in Hy by (rewrite length_content by done; lia).
    rewrite length_content in Hy by done.
    specialize (Hd (i - ring_len r)). rewrite Hw in Hd by lia.
    rewrite decide_True in Hd by lia.
    replace (ring_len r + (i - ring_len r)) with i in Hd by lia.
    rewrite decide_True in Hd by lia. rewrite Hd in Hx by lia. congruence.
Qed.

Lemma ring_clip r len :
  ring_inv r -> (0 <= len)%Z ->
  let n := if (u64 (r_cap r - u64 (r_head r - r_tail r)) <? len)%Z
           then u64 (r_cap r - u64 (r_head r - r_tail r)) else len in
  Z.to_nat n = Nat.min (Z.to_nat len) (Z.to_nat (r_cap r) - ring_len r) /\ (0 <= n)%Z.
Proof.
  intros I Hlen n. unfold n, ring_len. pose proof (ri_len r I). pose proof (ring_cap_range r I).
  pose proof (Z.mod_pos_bound (r_head r - r_tail r) (2 ^ 64)). fold (u64 (r_head r - r_tail r)) in *.
  assert (u64 (r_cap r - u64 (r_head r - r_tail r)) = r_cap r - u64 (r_head r - r_tail r))%Z as ->
    by (apply Z.mod_small; lia).
  destruct (Z.ltb_spec (r_cap r - u64 (r_head r - r_tail r)) len); lia.
Qed.

Lemma with_head_same r : with_head (with_data r (r_data r)) (r_head r) = r.
Proof. by destruct r. Qed.

Lemma xRingBufferWrite_spec r data len :
  ring_inv r -> (0 <= len < 2 ^ 64)%Z -> Z.to_nat len <= length data ->
  let n := Nat.min (Z.to_nat len) (Z.to_nat (r_cap r) - ring_len r) in
  exists r', xRingBufferWrite r data len = Some (Z.of_nat n, r') /\ ring_inv r' /\
    content r' = content r ++ take n data /\ r_cap r' = r_cap r.
Proof.
  intros I Hlen Hd n. pose proof (ring_cap_range r I) as Hcap. unfold xRingBufferWrite.
  destruct (Z.eqb_spec len 0) as [->|Hne].
  { exists r. unfold n. cbn. by rewrite take_0, app_nil_r. }
  destruct (ring_clip r len I) as [Hn Hn0]; [lia|]. cbv zeta in *. fold n in Hn.
  set (len' := if (_ <? len)%Z then _ else len) in *.
  destruct (Z.eqb_spec len' 0) as [E0|Hne'].
  { exists r. rewrite E0 in Hn. change (Z.to_nat 0) with 0 in Hn. rewrite <- Hn. cbn.
    by rewrite take_0, app_nil_r. }
  assert (len' = Z.of_nat n) as El by lia. rewrite !El.
  pose proof (ring_len_le r I). pose proof (ri_data r I) as Hdl.
  rewrite (ring_land r (r_head r) I).
  pose proof (Z.mod_pos_bound (r_head r) (r_cap r)) as Hpos.
  set (pos := (r_head r mod r_cap r)%Z) in *.
  assert (u64 (r_cap r - pos) = r_cap r - pos)%Z as -> by (apply Z.mod_small; lia).
  assert (length (take n data) = n) as Htn by (rewrite length_take; unfold n; lia).
  destruct (store_wrapped_spec (r_data r) (Z.to_nat pos) (take n data)) as (d' & Hs & Hl' & Hlk);
    [lia|unfold n in *; lia|].
  assert ((if (Z.of_nat n <=? r_cap r - pos)%Z then
         src ← mem_read data 0 (Z.to_nat (Z.of_nat n)); mem_write (r_data r) (Z.to_nat pos) src
       else
         src1 ← mem_read data 0 (Z.to_nat (r_cap r - pos));
         d ← mem_write (r_data r) (Z.to_nat pos) src1;
         src2 ← mem_read data (Z.to_nat (r_cap r - pos)) (Z.to_nat (u64 (Z.of_nat n - (r_cap r - pos))));
         mem_write d 0 src2) = Some d') as ->.
  { rewrite <- Hs. unfold store_wrapped. rewrite Htn, Hdl. rewrite Nat2Z.id.
    destruct (Z.leb_spec (Z.of_nat n) (r_cap r - pos)).
    - rewrite decide_True by lia. rewrite mem_read_Some by (unfold n; lia). by rewrite drop_0.
    - rewrite decide_False by lia.
      assert (u64 (Z.of_nat n - (r_cap r - pos)) = Z.of_nat n - (r_cap r - pos))%Z as ->
        by (apply Z.mod_small; lia).
      rewrite !mem_read_Some by (unfold n in *; lia). cbn [mbind option_bind].
      rewrite drop_0, take_take, Nat.min_l by lia.
      replace (Z.to_nat (r_cap r - pos)) with (Z.to_nat (r_cap r) - Z.to_nat pos) by lia.
      destruct (mem_write _ _ _); cbn [mbind option_bind]; [|done]. f_equal.
      rewrite skipn_firstn_comm. f_equal. lia. }
  cbn [mbind option_bind].
  destruct (content_store r d' (take n data) I) as [I' Hc].
  - rewrite Htn. unfold n. lia.
  - done.
  - exact Hlk.
  - rewrite Htn in *. eexists. split; [done|]. split; [done|]. split; [done|done].
Qed.

(** ** Reading *)

Lemma rotate_read (d : list Z) p n :
  p < length d -> n <= length d ->
  (if decide (n <= length d - p) then mem_read d p n
   else a ← mem_read d p (length d - p); b ← mem_read d 0 (n - (length d - p)); Some (a ++ b))
  = Some (take n (rotate p d)).
Proof.
  intros Hp Hn. unfold rotate. case_decide as Hc.
  - rewrite mem_read_Some by lia. rewrite take_app_le by (rewrite length_drop; lia). done.
  - rewrite !mem_read_Some by lia. cbn [mbind option_bind]. rewrite drop_0. f_equal.
    rewrite take_app_ge by (rewrite length_drop; lia). rewrite length_drop.
    rewrite (firstn_all2 (n := length d - p)) by (rewrite length_drop; lia).
    rewrite take_take. by rewrite Nat.min_l by lia.
Qed.

Lemma ring_readable r : ring_inv r ->
  (u64 (r_head r - r_tail r) = Z.of_nat (ring_len r))%Z.
Proof.
  intros I. unfold ring_len. pose proof (Z.mod_pos_bound (r_head r - r_tail r) (2 ^ 64)).
  fold (u64 (r_head r - r_tail r)) in *. lia.
Qed.

Lemma ring_copy_out_spec r len :
  ring_inv r -> (0 <= len < 2 ^ 64)%Z ->
  ring_copy_out r len = Some (take (Z.to_nat len) (content r)).
Proof.
  intros I Hlen. pose proof (ring_cap_range r I) as Hcap. pose proof (ring_len_le r I) as Hle.
  pose proof (ri_data r I) as Hdl. pose proof (ring_pos_lt r I) as Hp. unfold ring_copy_out.
  rewrite (ring_readable r I).
  set (len' := if (_ <? len)%Z then _ else len).
  assert (len' = Z.of_nat (Nat.min (Z.to_nat len) (ring_len r))) as ->.
  { unfold len'. destruct (Z.ltb_spec (Z.of_nat (ring_len r)) len); lia. }
  set (n := Nat.min (Z.to_nat len) (ring_len r)).
  assert (take (Z.to_nat len) (content r) = take n (rotate (ring_pos r) (r_data r))) as ->.
  { unfold content. by rewrite take_take. }
  destruct (Z.eqb_spec (Z.of_nat n) 0) as [E|].
  { assert (n = 0) as -> by lia. by rewrite take_0. }
  rewrite (ring_land r (r_tail r) I).
  pose proof (Z.mod_pos_bound (r_tail r) (r_cap r)) as Hpos.
  assert (u64 (r_cap r - r_tail r mod r_cap r) = r_cap r - r_tail r mod r_cap r)%Z as ->
    by (apply Z.mod_small; lia).
  rewrite <- (rotate_read (r_data r) (ring_pos r) n) by (unfold n; lia).
  rewrite Hdl. fold (ring_pos r). rewrite Nat2Z.id. unfold ring_pos in *.
  destruct (Z.leb_spec (Z.of_nat n) (r_cap r - r_tail r mod r_cap r)).
  - by rewrite decide_True by lia.
  - rewrite decide_False by lia.
    assert (u64 (Z.of_nat n - (r_cap r - r_tail r mod r_cap r)) =
      Z.of_nat n - (r_cap r - r_tail r mod r_cap r))%Z as ->
      by (apply Z.mod_small; unfold n in *; lia).
    repeat f_equal; try lia.
    + replace (Z.to_nat (r_cap r - r_tail r mod r_cap r)) with
        (Z.to_nat (r_cap r) - Z.to_nat (r_tail r mod r_cap r)) by lia.
      replace (Z.to_nat (Z.of_nat n - (r_cap r - r_tail r mod r_cap r))) with
        (n - (Z.to_nat (r_cap r) - Z.to_nat (r_tail r mod r_cap r))) by lia. done.
Qed.

(** Dropping bytes from the front by moving [tail]. *)
Lemma content_advance r n :
  ring_inv r -> n <= ring_len r ->
  let r' := with_tail r (u64 (r_tail r + Z.of_nat n)) in
  ring_inv r' /\ content r' = drop n (content r).
Proof.
  intros I Hn r'. pose proof (ring_cap_range r I) as Hcap. pose proof (ring_readable r I) as HR.
  pose proof (ring_len_le r I) as Hle.
  assert (u64 (r_head r' - r_tail r') = Z.of_nat (ring_len r - n))%Z as Elen.
  { unfold r'. cbn [r_head r_tail with_tail]. unfold u64 in *. rewrite Zminus_mod_idemp_r.
    replace (r_head r - (r_tail r + Z.of_nat n))%Z with (r_head r - r_tail r - Z.of_nat n)%Z by lia.
    rewrite <- Zminus_mod_idemp_l, HR. rewrite Z.mod_small; lia. }
  assert (ring_len r' = ring_len r - n) as Elen' by (unfold ring_len at 1; rewrite Elen; lia).
  assert (ring_inv r') as I'.
  { destruct I as [Ic Im Ih It Id Il]. split; cbn [r_cap r_mask r_head r_tail r_data with_tail r']; try done.
    - apply Z.mod_pos_bound. lia.
    - unfold r' in Elen. cbn [r_head r_tail with_tail] in Elen. rewrite Elen. lia. }
  split; [done|].
  assert (ring_pos r' = wrap (Z.to_nat (r_cap r)) (ring_pos r) n \/ n = Z.to_nat (r_cap r)) as Hp'.
  { destruct (decide (n = Z.to_nat (r_cap r))); [by right|left].
    unfold ring_pos, wrap, r'. cbn [r_tail r_cap with_tail]. rewrite (ring_mod_u64 r _ I).
    rewrite <- Z.add_mod_idemp_l by lia. pose proof (Z.mod_pos_bound (r_tail r) (r_cap r)).
    set (t := (r_tail r mod r_cap r)%Z) in *.
    case_decide.
    - rewrite Z.mod_small; lia.
    - replace (t + Z.of_nat n)%Z with (t + Z.of_nat n - r_cap r + 1 * r_cap r)%Z by lia.
      rewrite Z_mod_plus_full, Z.mod_small; lia. }
  apply list_eq_same_length with (n := ring_len r');
    [rewrite length_drop, length_content by done; lia|by rewrite length_content|].
  intros i x y Hi Hx Hy. rewrite lookup_content in Hx by done. rewrite lookup_drop in Hy.
  rewrite lookup_content in Hy by (done || lia). cbn [r' r_cap r_data with_tail] in Hx.
  destruct Hp' as [Hp'|]; [|lia]. rewrite Hp' in Hx.
  pose proof (ring_pos_lt r I).
  assert (wrap (Z.to_nat (r_cap r)) (wrap (Z.to_nat (r_cap r)) (ring_pos r) n) i =
    wrap (Z.to_nat (r_cap r)) (ring_pos r) (n + i)) as E.
  { unfold wrap. repeat case_decide; lia. }
  rewrite E in Hx. congruence.
Qed.

Lemma xRingBufferRead_spec r len :
  ring_inv r -> (0 <= len < 2 ^ 64)%Z ->
  exists r', xRingBufferRead r len = Some (take (Z.to_nat len) (content r), r') /\ ring_inv r' /\
    content r' = drop (Z.to_nat len) (content r) /\ r_cap r' = r_cap r.
Proof.
  intros I Hlen. unfold xRingBufferRead. rewrite (ring_copy_out_spec r len I Hlen).
  cbn [mbind option_bind]. eexists. split; [done|].
  destruct (content_advance r (length (take (Z.to_nat len) (content r))) I) as [I' Hc].
  - rewrite length_take, length_content by done. lia.
  - split; [done|]. split; [|done]. rewrite Hc, length_take, length_content by done.
    destruct (decide (Z.to_nat len <= ring_len r)); [f_equal; lia|].
    rewrite !drop_ge; [done|rewrite length_content by done; lia..].
Qed.

Lemma xRingBufferDiscard_spec r n :
  ring_inv r -> (0 <= n < 2 ^ 64)%Z ->
  exists r', xRingBufferDiscard r n = (Z.min n (Z.of_nat (ring_len r)), r') /\ ring_inv r' /\
    content r' = drop (Z.to_nat n) (content r) /\ r_cap r' = r_cap r.
Proof.
  intros I Hn. unfold xRingBufferDiscard. rewrite (ring_readable r I).
  assert ((if (Z.of_nat (ring_len r) <? n)%Z then Z.of_nat (ring_len r) else n) =
    Z.of_nat (Nat.min (Z.to_nat n) (ring_len r))) as ->.
  { destruct (Z.ltb_spec (Z.of_nat (ring_len r)) n); lia. }
  eexists. split; [f_equal; lia|].
  destruct (content_advance r (Nat.min (Z.to_nat n) (ring_len r)) I) as [I' Hc]; [lia|].
  split; [done|]. split; [|done]. rewrite Hc.
  destruct (decide (Z.to_nat n <= ring_len r)); [f_equal; lia|].
  rewrite !drop_ge; [done|rewrite length_content by done; lia..].
Qed.

(** ** Vectored I/O *)

Lemma xRingBufferReadIov_gather r :
  ring_inv r -> gather (r_data r) (xRingBufferReadIov r) = Some (content r).
Proof.
  intros I. pose proof (ring_cap_range r I) as Hcap. pose proof (ring_len_le r I) as Hle.
  pose proof (ri_data r I) as Hdl. pose proof (ring_pos_lt r I) as Hp. unfold xRingBufferReadIov, content.
  rewrite (ring_readable r I), (ring_land r (r_tail r) I).
  pose proof (Z.mod_pos_bound (r_tail r) (r_cap r)) as Hpos.
  assert (u64 (r_cap r - r_tail r mod r_cap r) = r_cap r - r_tail r mod r_cap r)%Z as ->
    by (apply Z.mod_small; lia).
  destruct (Z.eqb_spec (Z.of_nat (ring_len r)) 0) as [E|].
  { assert (ring_len r = 0) as -> by lia. by rewrite take_0. }
  pose proof (rotate_read (r_data r) (ring_pos r) (ring_len r) ltac:(lia) ltac:(lia)) as HR.
  rewrite Hdl in HR. rewrite <- HR. clear HR. unfold ring_pos in *.
  destruct (Z.leb_spec (Z.of_nat (ring_len r)) (r_cap r - r_tail r mod r_cap r)).
  - rewrite decide_True by lia. cbn [gather]. rewrite Nat2Z.id.
    destruct (mem_read _ _ _); cbn; [|done]. by rewrite app_nil_r.
  - rewrite decide_False by lia. cbn [gather].
    assert (u64 (Z.of_nat (ring_len r) - (r_cap r - r_tail r mod r_cap r)) =
      Z.of_nat (ring_len r) - (r_cap r - r_tail r mod r_cap r))%Z as -> by (apply Z.mod_small; lia).
    replace (Z.to_nat (r_cap r - r_tail r mod r_cap r)) with
      (Z.to_nat (r_cap r) - Z.to_nat (r_tail r mod r_cap r)) by lia.
    replace (Z.to_nat (Z.of_nat (ring_len r) - (r_cap r - r_tail r mod r_cap r))) with
      (ring_len r - (Z.to_nat (r_cap r) - Z.to_nat (r_tail r mod r_cap r))) by lia.
    destruct (mem_read _ (Z.to_nat (r_tail r mod r_cap r)) _); cbn [mbind option_bind]; [|done].
    change (Z.to_nat 0) with 0. destruct (mem_read _ 0 _); cbn; [|done]. by rewrite app_nil_r.
Qed.

Lemma ring_writable r : ring_inv r ->
  (u64 (r_cap r - u64 (r_head r - r_tail r)) = Z.of_nat (Z.to_nat (r_cap r) - ring_len r))%Z.
Proof.
  intros I. rewrite (ring_readable r I). pose proof (ring_cap_range r I). pose proof (ring_len_le r I).
  unfold u64. rewrite Z.mod_small; lia.
Qed.

Lemma scatter_nil d iov :
  Forall (fun v => Z.to_nat v.1 <= length d) iov -> scatter d iov [] = Some d.
Proof.
  induction 1 as [|[off n] iov H _ IH]; cbn [scatter]; [done|].
  rewrite take_nil, drop_nil, mem_write_nil by done. exact IH.
Qed.

Lemma xRingBufferWriteIov_scatter r bs :
  ring_inv r -> length bs <= Z.to_nat (r_cap r) - ring_len r -> bs <> [] ->
  scatter (r_data r) (xRingBufferWriteIov r) bs =
    store_wrapped (r_data r) (Z.to_nat (r_head r mod r_cap r)) bs.
Proof.
  intros I Hb Hne. pose proof (ring_cap_range r I) as Hcap. pose proof (ring_len_le r I) as Hle.
  pose proof (ri_data r I) as Hdl. unfold xRingBufferWriteIov.
  assert (length bs <> 0) by (by destruct bs).
  rewrite (ring_writable r I), (ring_land r (r_head r) I).
  pose proof (Z.mod_pos_bound (r_head r) (r_cap r)) as Hpos.
  set (pos := (r_head r mod r_cap r)%Z) in *.
  assert (u64 (r_cap r - pos) = r_cap r - pos)%Z as -> by (apply Z.mod_small; lia).
  destruct (Z.eqb_spec (Z.of_nat (Z.to_nat (r_cap r) - ring_len r)) 0) as [E|]; [lia|].
  unfold store_wrapped. rewrite Hdl. destruct (Z.leb_spec (Z.of_nat (Z.to_nat (r_cap r) - ring_len r)) (r_cap r - pos)).
  - rewrite decide_True by lia. cbn [scatter]. rewrite (firstn_all2 (n := Z.to_nat _)) by lia.
    by destruct (mem_write _ _ _).
  - cbn [scatter]. rewrite (firstn_all2 (n := Z.to_nat (u64 _))).
    2: { rewrite length_drop. unfold u64. rewrite Z.mod_small by lia. lia. }
    replace (Z.to_nat (r_cap r - pos)) with (Z.to_nat (r_cap r) - Z.to_nat pos) by lia.
    change (Z.to_nat 0) with 0. case_decide.
    + rewrite (drop_ge bs), (firstn_all2 (n := _ - _)) by lia.
      destruct (mem_write _ _ bs) as [d|] eqn:E; cbn [mbind option_bind]; [|done].
      rewrite mem_write_nil by lia. done.
    + destruct (mem_write _ _ (take _ bs)); cbn [mbind option_bind]; [|done].
      by destruct (mem_write _ 0 _).
Qed.

Lemma xRingBufferReadFd_spec readv r :
  ring_inv r ->
  (forall n bs, readv n = Some bs -> (Z.of_nat (length bs) <= n)%Z) ->
  exists ret r', xRingBufferReadFd readv r = Some (ret, r') /\ ring_inv r' /\ r_cap r' = r_cap r /\
    (ring_len r = Z.to_nat (r_cap r) /\ ret = 0%Z /\ r' = r \/
     ring_len r <> Z.to_nat (r_cap r) /\
     match readv (xRingBufferWritable r) with
     | None => ret = (-1)%Z /\ r' = r
     | Some bs => ret = Z.of_nat (length bs) /\ content r' = content r ++ bs
     end).
Proof.
  intros I Hrv. pose proof (ring_cap_range r I) as Hcap. pose proof (ring_len_le r I) as Hle.
  pose proof (ri_data r I) as Hdl. unfold xRingBufferReadFd.
  destruct (decide (ring_len r = Z.to_nat (r_cap r))) as [Ef|Ef].
  { unfold xRingBufferWriteIov. rewrite (ring_writable r I).
    assert (Z.to_nat (r_cap r) - ring_len r = 0) as -> by lia. cbn [Z.of_nat Z.eqb].
    exists 0%Z, r. split_and!; try done. by left. }
  destruct (xRingBufferWriteIov r) as [|v iov] eqn:Eiov.
  { exfalso. unfold xRingBufferWriteIov in Eiov. rewrite (ring_writable r I) in Eiov.
    destruct (Z.eqb_spec (Z.of_nat (Z.to_nat (r_cap r) - ring_len r)) 0); [lia|].
    by destruct (_ <=? _)%Z. }
  destruct (readv (xRingBufferWritable r)) as [bs|] eqn:Er.
  2: { exists (-1)%Z, r. split_and!; try done. by right. }
  apply Hrv in Er. unfold xRingBufferWritable in Er. rewrite (ring_writable r I) in Er.
  destruct (decide (bs = [])) as [->|Hne].
  { assert (scatter (r_data r) (v :: iov) [] = Some (r_data r)) as ->.
    { rewrite <- Eiov. unfold xRingBufferWriteIov.
      rewrite (ring_land r (r_head r) I). pose proof (Z.mod_pos_bound (r_head r) (r_cap r)).
      apply scatter_nil. destruct (_ =? 0)%Z; [constructor|].
      destruct (_ <=? _)%Z; repeat constructor; cbn [fst]; lia. }
    exists 0%Z, r. cbn. destruct r; cbn. split_and!; try done. right. split; [done|].
    by rewrite app_nil_r. }
  rewrite <- Eiov, xRingBufferWriteIov_scatter by (done || lia).
  pose proof (Z.mod_pos_bound (r_head r) (r_cap r)) as Hpos.
  destruct (store_wrapped_spec (r_data r) (Z.to_nat (r_head r mod r_cap r)) bs) as (d' & -> & Hl' & Hlk);
    [lia|lia|]. cbn [mbind option_bind].
  assert (0 < length bs) by (destruct bs; [done|simpl; lia]).
  destruct (Z.ltb_spec 0 (Z.of_nat (length bs))); [|lia].
  destruct (content_store r d' bs I) as [I' Hc]; [lia|done|exact Hlk|].
  eexists _, _. split; [done|]. split; [exact I'|]. split; [done|]. right. split; [done|].
  split; [done|exact Hc].
Qed.

Lemma xRingBufferWriteFd_spec writev r :
  ring_inv r ->
  (forall bs n, writev bs = Some n -> n <= length bs) ->
  exists ret out r', xRingBufferWriteFd writev r = Some (ret, out, r') /\ ring_inv r' /\
    r_cap r' = r_cap r /\
    content r = out ++ content r' /\
    (content r <> [] ->
     match writev (content r) with
     | None => ret = (-1)%Z /\ out = [] /\ r' = r
     | Some n => ret = Z.of_nat n /\ out = take n (content r) /\ content r' = drop n (content r)
     end).
Proof.
  intros I Hwv. unfold xRingBufferWriteFd. pose proof (xRingBufferReadIov_gather r I) as Hg.
  destruct (xRingBufferReadIov r) as [|v iov].
  { exists 0%Z, [], r. split_and!; try done. simpl in Hg. injection Hg as <-. done. }
  rewrite Hg. cbn [mbind option_bind].
  destruct (writev (content r)) as [n|] eqn:Ew.
  2: { by exists (-1)%Z, [], r. }
  apply Hwv in Ew. pose proof Ew as Ew'. rewrite length_content in Ew' by done.
  destruct (content_advance r n I Ew') as [I' Hc].
  destruct (Z.ltb_spec 0 (Z.of_nat n)) as [|Hz].
  - eexists _, _, _. split; [done|]. split; [exact I'|]. split; [done|].
    rewrite Hc, take_drop. split; [done|]. by intros.
  - assert (n = 0) as -> by lia. eexists _, _, _. split; [done|]. rewrite take_0, drop_0. done.
Qed.

(** ** Capacity *)

(** [v |= v >> s] spreads every set bit [s] places down. *)
Lemma smear_step x v m :
  (0 <= m)%Z ->
  (forall i, (0 <= i)%Z -> Z.testbit v i = true <-> exists j, (0 <= j < m)%Z /\ Z.testbit x (i + j) = true) ->
  forall i, (0 <= i)%Z -> Z.testbit (Z.lor v (Z.shiftr v m)) i = true <->
    exists j, (0 <= j < 2 * m)%Z /\ Z.testbit x (i + j) = true.
Proof.
  intros Hm H i Hi. rewrite Z.lor_spec, Z.shiftr_spec, orb_true_iff, !H by lia. split.
  - intros [(j & Hj & E)|(j & Hj & E)]; [exists j|exists (m + j)%Z]; split; try lia; try done.
    by replace (i + (m + j))%Z with (i + m + j)%Z by lia.
  - intros (j & Hj & E). destruct (decide (j < m)%Z); [left; exists j|right; exists (j - m)%Z];
      split; try lia; try done. by replace (i + m + (j - m))%Z with (i + j)%Z by lia.
Qed.

Lemma smear_nonneg v s : (0 <= v)%Z -> (0 <= Z.lor v (Z.shiftr v s))%Z.
Proof. intros. apply Z.lor_nonneg. split; [done|]. by apply Z.shiftr_nonneg. Qed.

Lemma smear_ones x v :
  (0 < x < 2 ^ 64)%Z -> (0 <= v)%Z ->
  (forall i, (0 <= i)%Z -> Z.testbit v i = true <-> exists j, (0 <= j < 64)%Z /\ Z.testbit x (i + j) = true) ->
  v = Z.ones (Z.log2 x + 1).
Proof.
  intros Hx Hv H. assert (0 <= Z.log2 x < 64)%Z.
  { split; [apply Z.log2_nonneg|]. apply Z.log2_lt_pow2; lia. }
  apply Z.bits_inj'. intros i Hi. destruct (decide (i < Z.log2 x + 1)%Z).
  - rewrite Z.ones_spec_low by lia. apply H; [done|]. exists (Z.log2 x - i)%Z. split; [lia|].
    replace (i + (Z.log2 x - i))%Z with (Z.log2 x) by lia. apply Z.bit_log2. lia.
  - rewrite Z.ones_spec_high by lia. destruct (Z.testbit v i) eqn:E; [|done].
    apply H in E as (j & Hj & E); [|done]. rewrite Z.bits_above_log2 in E; [done|lia|lia].
Qed.

Lemma next_pow2_spec v :
  (0 < v <= 2 ^ 63)%Z ->
  exists p, (4 <= p <= 63)%Z /\ next_pow2 v = (2 ^ p)%Z /\ (v <= 2 ^ p)%Z /\
    (p = 4 \/ 2 ^ (p - 1) < v)%Z.
Proof.
  intros Hv. unfold next_pow2. change (Z.shiftr SIZE_MAX 1 + 1)%Z with (2 ^ 63)%Z.
  set (w := if (v <? 16)%Z then 16%Z else v).
  assert (16 <= w <= 2 ^ 63)%Z as Hw by (unfold w; destruct (Z.ltb_spec v 16); lia).
  destruct (Z.ltb_spec (2 ^ 63) w); [lia|].
  set (x := (w - 1)%Z).
  assert (forall i, (0 <= i)%Z -> Z.testbit x i = true <->
    exists j, (0 <= j < 1)%Z /\ Z.testbit x (i + j) = true) as H0.
  { intros i Hi. split; [intros; exists 0%Z; split; [lia|by rewrite Z.add_0_r]|].
    intros (j & Hj & E). by replace (i + j)%Z with i in E by lia. }
  assert (0 <= x)%Z as N0 by lia. cbv zeta.
  pose proof (smear_step x x 1 ltac:(lia) H0) as H1. pose proof (smear_nonneg x 1 N0) as N1.
  set (v1 := Z.lor x (Z.shiftr x 1)) in *.
  change (2 * 1)%Z with 2%Z in H1. clearbody v1.
  pose proof (smear_step x v1 2 ltac:(lia) H1) as H2. pose proof (smear_nonneg v1 2 N1) as N2.
  set (v2 := Z.lor v1 (Z.shiftr v1 2)) in *.
  change (2 * 2)%Z with 4%Z in H2. clearbody v2.
  pose proof (smear_step x v2 4 ltac:(lia) H2) as H3. pose proof (smear_nonneg v2 4 N2) as N3.
  set (v3 := Z.lor v2 (Z.shiftr v2 4)) in *.
  change (2 * 4)%Z with 8%Z in H3. clearbody v3.
  pose proof (smear_step x v3 8 ltac:(lia) H3) as H4. pose proof (smear_nonneg v3 8 N3) as N4.
  set (v4 := Z.lor v3 (Z.shiftr v3 8)) in *.
  change (2 * 8)%Z with 16%Z in H4. clearbody v4.
  pose proof (smear_step x v4 16 ltac:(lia) H4) as H5. pose proof (smear_nonneg v4 16 N4) as N5.
  set (v5 := Z.lor v4 (Z.shiftr v4 16)) in *.
  change (2 * 16)%Z with 32%Z in H5. clearbody v5.
  pose proof (smear_step x v5 32 ltac:(lia) H5) as H6. pose proof (smear_nonneg v5 32 N5) as N6.
  set (v6 := Z.lor v5 (Z.shiftr v5 32)) in *.
  change (2 * 32)%Z with 64%Z in H6. clearbody v6.
  assert (0 < x < 2 ^ 64)%Z as Hx by lia. rewrite (smear_ones x v6 Hx N6 H6).
  clear H0 H1 H2 H3 H4 H5 H6. rewrite Z.ones_equiv. assert (x = (w - 1)%Z) as Ex by done. clearbody x.
  exists (Z.log2 x + 1)%Z.
  assert (2 ^ Z.log2 x <= x < 2 ^ Z.succ (Z.log2 x))%Z as Hl by (apply Z.log2_spec; lia).
  assert (3 <= Z.log2 x)%Z by (apply Z.log2_le_pow2; lia).
  assert (Z.log2 x < 63)%Z by (apply Z.log2_lt_pow2; lia).
  rewrite <- Z.add_1_r in Hl. split; [lia|]. split; [lia|].
  unfold w in *. subst x. destruct (Z.ltb_spec v 16).
  - split; [lia|]. left. change (Z.log2 (16 - 1)) with 3%Z. lia.
  - split; [lia|]. right. replace (Z.log2 (v - 1) + 1 - 1)%Z with (Z.log2 (v - 1)) by lia. lia.
Qed.

Lemma xRingBufferCreate_spec alloc junk min_cap r :
  (forall n, length (junk n) = n) -> (0 <= min_cap <= 2 ^ 63)%Z ->
  xRingBufferCreate alloc junk min_cap = Some r ->
  ring_inv r /\ content r = [] /\ (min_cap <= r_cap r)%Z.
Proof.
  intros Hj Hm. unfold xRingBufferCreate. destruct (Z.eqb_spec min_cap 0); [done|].
  destruct (next_pow2_spec min_cap) as (p & Hp & E & Hle & _); [lia|]. rewrite E.
  destruct (alloc _); [|done]. intros [= <-]. split; [|done].
  assert (2 ^ p <= 2 ^ 63)%Z by (apply Z.pow_le_mono_r; lia).
  split; cbn [r_cap r_mask r_head r_tail r_data]; try done; try lia.
  - by exists p.
  - change (u64 (0 - 0)) with 0%Z. lia.
Qed.

(** ** Sequences of calls against a bounded queue *)

Inductive ring_call :=
  | RWrite (data : list Z)
  | RRead (n : Z)
  | RPeek (n : Z)
  | RDiscard (n : Z)
  | RReset
  | RLen
  | RReadFd (readv : Z -> option (list Z))
  | RWriteFd (writev : list Z -> option nat).

(** The reply of a call: the bytes it delivers and its return value. *)
Definition ring_step (r : xRingBuffer_) (c : ring_call) : ub (list Z * Z * xRingBuffer_) :=
  match c with
  | RWrite data => x ← xRingBufferWrite r data (Z.of_nat (length data)); Some ([], x.1, x.2)
  | RRead n => x ← xRingBufferRead r n; Some (x.1, Z.of_nat (length x.1), x.2)
  | RPeek n => x ← xRingBufferPeek r n; Some (x, Z.of_nat (length x), r)
  | RDiscard n => let x := xRingBufferDiscard r n in Some ([], x.1, x.2)
  | RReset => Some ([], 0%Z, xRingBufferReset r)
  | RLen => Some ([], xRingBufferLen r, r)
  | RReadFd readv => x ← xRingBufferReadFd readv r; Some ([], x.1, x.2)
  | RWriteFd writev => x ← xRingBufferWriteFd writev r; Some (x.1.2, x.1.1, x.2)
  end.

Fixpoint ring_run (r : xRingBuffer_) (cs : list ring_call) : ub (list (list Z * Z) * xRingBuffer_) :=
  match cs with
  | [] => Some ([], r)
  | c :: cs => x ← ring_step r c; y ← ring_run x.2 cs; Some (x.1 :: y.1, y.2)
  end.

(** A queue that holds at most [cap] bytes. *)
Definition queue_step (cap : nat) (q : list Z) (c : ring_call) : list Z * Z * list Z :=
  match c with
  | RWrite data =>
      let n := Nat.min (length data) (cap - length q) in ([], Z.of_nat n, q ++ take n data)
  | RRead n => (take (Z.to_nat n) q, Z.min n (Z.of_nat (length q)), drop (Z.to_nat n) q)
  | RPeek n => (take (Z.to_nat n) q, Z.min n (Z.of_nat (length q)), q)
  | RDiscard n => ([], Z.min n (Z.of_nat (length q)), drop (Z.to_nat n) q)
  | RReset => ([], 0%Z, [])
  | RLen => ([], Z.of_nat (length q), q)
  | RReadFd readv =>
      if decide (length q = cap) then ([], 0%Z, q)
      else match readv (Z.of_nat (cap - length q)) with
           | None => ([], (-1)%Z, q)
           | Some bs => ([], Z.of_nat (length bs), q ++ bs)
           end
  | RWriteFd writev =>
      if decide (q = []) then ([], 0%Z, q)
      else match writev q with
           | None => ([], (-1)%Z, q)
           | Some n => (take n q, Z.of_nat n, drop n q)
           end
  end.

Fixpoint queue_run (cap : nat) (q : list Z) (cs : list ring_call) : list (list Z * Z) * list Z :=
  match cs with
  | [] => ([], q)
  | c :: cs =>
      let x := queue_step cap q c in
      let y := queue_run cap x.2 cs in (x.1 :: y.1, y.2)
  end.

(** Sizes are [size_t]s; a system call moves at most the bytes it is asked to. *)
Definition call_ok (c : ring_call) : Prop :=
  match c with
  | RWrite data => (Z.of_nat (length data) < 2 ^ 64)%Z
  | RRead n | RPeek n | RDiscard n => (0 <= n < 2 ^ 64)%Z
  | RReset | RLen => True
  | RReadFd readv => forall n bs, readv n = Some bs -> (Z.of_nat (length bs) <= n)%Z
  | RWriteFd writev => forall bs n, writev bs = Some n -> n <= length bs
  end.

Lemma length_take_Z (q : list Z) n :
  (0 <= n)%Z -> Z.of_nat (length (take (Z.to_nat n) q)) = Z.min n (Z.of_nat (length q)).
Proof. intros. rewrite length_take. lia. Qed.

Lemma ring_step_refines r c :
  ring_inv r -> call_ok c ->
  exists r', ring_step r c =
      Some ((queue_step (Z.to_nat (r_cap r)) (content r) c).1, r') /\
    ring_inv r' /\ r_cap r' = r_cap r /\
    content r' = (queue_step (Z.to_nat (r_cap r)) (content r) c).2.
Proof.
  intros I Hc. pose proof (length_content r I) as Hlen. pose proof (ring_cap_range r I) as Hcap.
  destruct c as [data|n|n|n| | |readv|writev]; cbn [ring_step queue_step call_ok] in *.
  - destruct (xRingBufferWrite_spec r data (Z.of_nat (length data)) I) as (r' & -> & I' & E & Ec);
      [lia|lia|]. cbn [mbind option_bind fst snd]. rewrite Hlen, Nat2Z.id in *. by exists r'.
  - destruct (xRingBufferRead_spec r n I Hc) as (r' & -> & I' & E & Ec).
    cbn [mbind option_bind fst snd]. rewrite length_take_Z by lia. by exists r'.
  - unfold xRingBufferPeek. rewrite (ring_copy_out_spec r n I Hc).
    cbn [mbind option_bind fst snd]. rewrite length_take_Z by lia. by exists r.
  - destruct (xRingBufferDiscard_spec r n I Hc) as (r' & E0 & I' & E & Ec). rewrite E0.
    cbn [fst snd]. rewrite Hlen. by exists r'.
  - exists (xRingBufferReset r). split; [done|].
    destruct I as [Ic Im Ih It Id Il]. split; [|done].
    split; cbn [xRingBufferReset r_cap r_mask r_head r_tail r_data with_tail with_head]; try done; try lia.
    change (u64 (0 - 0)) with 0%Z. lia.
  - exists r. unfold xRingBufferLen. rewrite (ring_readable r I), Hlen. done.
  - destruct (xRingBufferReadFd_spec readv r I Hc) as (ret & r' & -> & I' & Ec & H).
    cbn [mbind option_bind fst snd]. rewrite Hlen. exists r'.
    destruct H as [(Hf & -> & ->)|(Hf & H)]; [by rewrite decide_True|].
    rewrite decide_False by done. unfold xRingBufferWritable in H. rewrite (ring_writable r I) in H.
    destruct (readv _) as [bs|]; [destruct H as [-> ->]|destruct H as [-> ->]]; done.
  - destruct (xRingBufferWriteFd_spec writev r I Hc) as (ret & out & r' & E & I' & Ec & Hsplit & H).
    unfold xRingBufferWriteFd in E |- *. case_decide as Hq.
    { pose proof (xRingBufferReadIov_gather r I) as Hg. rewrite Hq in Hlen.
      assert (xRingBufferReadIov r = []) as ->.
      { unfold xRingBufferReadIov. rewrite (ring_readable r I). simpl in Hlen. by rewrite <- Hlen. }
      exists r. rewrite Hq. done. }
    rewrite E. cbn [mbind option_bind fst snd]. exists r'. specialize (H Hq).
    destruct (writev (content r)) as [n|].
    + destruct H as (-> & -> & ->). done.
    + destruct H as (-> & -> & ->). done.
Qed.

(** C4: a ring buffer executes any sequence of writes, reads, peeks, discards,
    resets and file-descriptor transfers without undefined behaviour, replying
    exactly as a byte queue of its capacity would, wrap-around of the block and
    of the 64-bit cursors included. *)
Theorem ring_refines r cs :
  ring_inv r -> Forall call_ok cs ->
  exists r', ring_run r cs = Some ((queue_run (Z.to_nat (r_cap r)) (content r) cs).1, r') /\
    ring_inv r' /\ content r' = (queue_run (Z.to_nat (r_cap r)) (content r) cs).2.
Proof.
  revert r. induction cs as [|c cs IH]; intros r I Hcs; cbn [ring_run queue_run].
  { by exists r. }
  apply Forall_cons in Hcs as [Hc Hcs].
  destruct (ring_step_refines r c I Hc) as (r1 & -> & I1 & Ec & Eq).
  cbn [mbind option_bind fst snd]. destruct (IH r1 I1 Hcs) as (r' & -> & I' & Eq').
  cbn [mbind option_bind fst snd]. rewrite <- Eq, <- Ec. by exists r'.
Qed.

(** A ring whose cursors are about to wrap around 2^64, with its data wrapping
    around the block. *)
Definition ring_example : xRingBuffer_ :=
  {| r_cap := 16; r_mask := 15; r_head := 3; r_tail := 2 ^ 64 - 4; r_data := seqZ 0 16 |}.

Lemma ring_example_inv : ring_inv ring_example.
Proof.
  split; try (vm_compute; done). by exists 4%Z.
Qed.

Lemma ring_refines_witness :
  exists r', ring_run ring_example [RRead 2; RWrite [100; 101]%Z; RPeek 9] =
    Some ([([12; 13]%Z, 2%Z); ([], 2%Z); ([14; 15; 0; 1; 2; 100; 101]%Z, 7%Z)], r') /\
    content r' = [14; 15; 0; 1; 2; 100; 101]%Z.
Proof.
  destruct (ring_refines ring_example [RRead 2; RWrite [100; 101]%Z; RPeek 9]) as (r' & E & _ & Ec).
  - apply ring_example_inv.
  - repeat constructor; cbn; lia.
  - exists r'. split; [exact E|exact Ec].
Defined.

(** [xRingBufferCreate] gives an empty buffer of at least the requested
    capacity, the least power of two that is at least 16 and not below it. *)
Theorem ring_create_spec alloc junk min_cap r :
  (forall n, length (junk n) = n) -> (0 <= min_cap <= 2 ^ 63)%Z ->
  xRingBufferCreate alloc junk min_cap = Some r ->
  ring_inv r /\ content r = [] /\
  exists p, (4 <= p)%Z /\ xRingBufferCap r = (2 ^ p)%Z /\ (min_cap <= 2 ^ p)%Z /\
    (p = 4 \/ 2 ^ (p - 1) < min_cap)%Z.
Proof.
  intros Hj Hm H. destruct (xRingBufferCreate_spec _ _ _ _ Hj Hm H) as (I & E & _).
  split; [done|]. split; [done|]. unfold xRingBufferCreate in H.
  destruct (Z.eqb_spec min_cap 0); [done|].
  destruct (next_pow2_spec min_cap) as (p & Hp & Ep & Hle & Hlt); [lia|].
  destruct (alloc _); [|done]. injection H as <-. exists p. by split_and!; try lia.
Qed.

Lemma ring_create_spec_witness :
  exists r, xRingBufferCreate (fun _ => true) (fun n => replicate n 0%Z) 100 = Some r /\
    ring_inv r /\ xRingBufferCap r = 128%Z.
Proof.
  eexists. split; [vm_compute; reflexivity|].
  match goal with |- ring_inv ?r /\ _ =>
    destruct (ring_create_spec (fun _ => true) (fun n => replicate n 0%Z) 100 r) as (I & _ & _)
  end; [intros; apply length_replicate|lia|reflexivity|].
  split; [exact I|reflexivity].
Defined.
