(* ===== verification/Grow.v ===== *)
(** * Grow: capacity doubling, shared by buf.c, array.c

    [buf_next_cap] ([libx/x/buf/buf.c]) and [arr_next_cap]
    ([libx/x/base/array.c]) are the same function up to the default capacity;
    [realloc_data] is what [realloc] makes of the data area. *)

From S2P Require Import Prelude.

(** [while (cap < needed) cap *= 2;]: 64 rounds exhaust the width of
    [size_t]. *)
Fixpoint double_until (fuel : nat) (cap needed : Z) : ub Z :=
  match fuel with
  | 0 => None
  | S fuel => if (cap <? needed)%Z then double_until fuel (u64 (cap * 2)) needed else Some cap
  end.

Definition next_cap (default_cap current needed : Z) : ub Z :=
  let cap := if (current =? 0)%Z then default_cap else current in
  if (SIZE_MAX / 2 <? needed)%Z then Some SIZE_MAX else double_until 65 cap needed.

(** The old bytes up to the new size, then what [junk] leaves. *)
Definition realloc_data {A} (junk : nat -> list A) (data : list A) (n : nat) : list A :=
  take n data ++ junk (n - length data).

Lemma double_until_spec fuel cap needed :
  (0 < cap)%Z -> (needed <= 2 ^ 63)%Z -> (needed <= cap * 2 ^ (Z.of_nat fuel - 1))%Z -> 0 < fuel ->
  exists c, double_until fuel cap needed = Some c /\ (needed <= c)%Z /\ (cap <= c)%Z /\
    (c = cap \/ c < 2 * needed)%Z.
Proof.
  revert cap. induction fuel as [|fuel IH]; intros cap Hc Hn Hf Hfuel; [lia|].
  cbn [double_until]. destruct (Z.ltb_spec cap needed) as [Hlt|Hge].
  2: { exists cap. split; [done|]. lia. }
  assert (u64 (cap * 2) = cap * 2)%Z as -> by (apply Z.mod_small; lia).
  destruct fuel as [|fuel].
  { change (Z.of_nat 1 - 1)%Z with 0%Z in Hf. lia. }
  destruct (IH (cap * 2)%Z) as (c & E & H1 & H2 & H3); [lia|lia| |lia|].
  - replace (Z.of_nat (S (S fuel)) - 1)%Z with (1 + (Z.of_nat (S fuel) - 1))%Z in Hf by lia.
    rewrite Z.pow_add_r in Hf by lia. lia.
  - exists c. split; [done|]. lia.
Qed.

(** Up to half the address space the new capacity suffices and is at most
    double the need; beyond, it is [SIZE_MAX]. *)
Lemma next_cap_spec default_cap current needed :
  (0 < default_cap)%Z -> (0 <= current)%Z ->
  exists c, next_cap default_cap current needed = Some c /\
    ((needed <= SIZE_MAX / 2)%Z /\ (needed <= c)%Z /\ (current <= c)%Z /\
       (c = current \/ c = default_cap \/ c < 2 * needed)%Z \/
     (SIZE_MAX / 2 < needed)%Z /\ c = SIZE_MAX).
Proof.
  intros Hd Hc. unfold next_cap. destruct (Z.ltb_spec (SIZE_MAX / 2) needed) as [Hlt|Hge].
  { exists SIZE_MAX. split; [done|]. by right. }
  change (SIZE_MAX / 2)%Z with (2 ^ 63 - 1)%Z in Hge.
  set (cap := if (current =? 0)%Z then default_cap else current).
  assert (0 < cap)%Z as Hcap by (unfold cap; destruct (Z.eqb_spec current 0); lia).
  destruct (double_until_spec 65 cap needed) as (c & E & H1 & H2 & H3); [lia|lia| |lia|].
  { change (2 ^ (Z.of_nat 65 - 1))%Z with (2 ^ 64)%Z. nia. }
  exists c. split; [done|]. left. split; [done|]. unfold cap in *.
  destruct (Z.eqb_spec current 0); lia.
Qed.

Lemma length_realloc_data {A} (junk : nat -> list A) data n :
  (forall k, length (junk k) = k) -> length (realloc_data junk data n) = n.
Proof. intros Hj. unfold realloc_data. rewrite length_app, length_take, Hj. lia. Qed.

Lemma take_realloc_data {A} (junk : nat -> list A) data n k :
  k <= length data -> k <= n -> take k (realloc_data junk data n) = take k data.
Proof.
  intros H1 H2. unfold realloc_data. rewrite take_app_le by (rewrite length_take; lia).
  rewrite take_take. f_equal. lia.
Qed.
