(* ===== verification/Buf.v ===== *)
(** * Buf: the growing byte buffer ([libx/x/buf/buf.c])

    Header and data are one allocation; [b_data] is the data area.  The
    abstract state is the queue of unread bytes, [unread].  Appends may be
    refused when the allocator fails; [read] and [write] are parameters. *)

From S2P Require Import Prelude Errno Grow.

Record xBuffer_ := {
  b_rpos : Z;
  b_wpos : Z;
  b_cap : Z;
  b_data : list Z;
}.

Definition sizeof_xBuffer_ : Z := 24.
Definition BUF_MIN_CAP : Z := 64.

Definition buf_next_cap (current needed : Z) : ub Z := next_cap BUF_MIN_CAP current needed.

(** [memmove(data, data + rpos, unread)] *)
Definition slide (data : list Z) (rpos unread : Z) : ub (list Z) :=
  src ← mem_read data (Z.to_nat rpos) (Z.to_nat unread);
  mem_write data 0 src.

Section buf.
Variable junk : nat -> list Z.

(** [realloc] is asked for header and data together; writing [cap] into a
    block smaller than the header is undefined. *)
Definition buf_realloc (alloc : oracle) (b : xBuffer_) (needed : Z) : ub (xErrno * xBuffer_) :=
  newcap ← buf_next_cap (b_cap b) needed;
  let total := u64 (sizeof_xBuffer_ + newcap) in
  if alloc total then
    if (total <? sizeof_xBuffer_)%Z then None
    else Some (xErrno_Ok,
      {| b_rpos := b_rpos b; b_wpos := b_wpos b; b_cap := newcap;
         b_data := realloc_data junk (b_data b) (Z.to_nat (total - sizeof_xBuffer_)) |})
  else Some (xErrno_NoMemory, b).

Definition buf_grow (alloc : oracle) (b : xBuffer_) (needed : Z) : ub (xErrno * xBuffer_) :=
  if (needed <=? b_cap b)%Z then Some (xErrno_Ok, b)
  else
    let unread := u64 (b_wpos b - b_rpos b) in
    if (0 <? b_rpos b)%Z && (u64 (unread + needed) <=? b_cap b)%Z then
      d ← slide (b_data b) (b_rpos b) unread;
      Some (xErrno_Ok, {| b_rpos := 0; b_wpos := unread; b_cap := b_cap b; b_data := d |})
    else buf_realloc alloc b needed.

Definition xBufferCreate (alloc : oracle) (initial_cap : Z) : option xBuffer_ :=
  let initial_cap := if (initial_cap =? 0)%Z then BUF_MIN_CAP else initial_cap in
  if alloc (u64 (sizeof_xBuffer_ + initial_cap)) then
    Some {| b_rpos := 0; b_wpos := 0; b_cap := initial_cap; b_data := junk (Z.to_nat initial_cap) |}
  else None.

Definition xBufferReset (b : xBuffer_) : xBuffer_ :=
  {| b_rpos := 0; b_wpos := 0; b_cap := b_cap b; b_data := b_data b |}.

Definition xBufferAppend (alloc : oracle) (b : xBuffer_) (data : list Z) (len : Z)
    : ub (xErrno * xBuffer_) :=
  if (len =? 0)%Z then Some (xErrno_Ok, b) else
  '(err, b1) ← buf_grow alloc b (u64 (b_wpos b + len));
  match err with
  | xErrno_Ok =>
      src ← mem_read data 0 (Z.to_nat len);
      d ← mem_write (b_data b1) (Z.to_nat (b_wpos b1)) src;
      Some (xErrno_Ok,
        {| b_rpos := b_rpos b1; b_wpos := u64 (b_wpos b1 + len); b_cap := b_cap b1; b_data := d |})
  | _ => Some (err, b)
  end.

(** [str] is the characters before the terminator. *)
Definition xBufferAppendStr (alloc : oracle) (b : xBuffer_) (str : list Z) : ub (xErrno * xBuffer_) :=
  xBufferAppend alloc b str (Z.of_nat (length str)).

Definition xBufferCompact (b : xBuffer_) : ub xBuffer_ :=
  if (b_rpos b =? 0)%Z then Some b else
  let unread := u64 (b_wpos b - b_rpos b) in
  d ← (if (0 <? unread)%Z then slide (b_data b) (b_rpos b) unread else Some (b_data b));
  Some {| b_rpos := 0; b_wpos := unread; b_cap := b_cap b; b_data := d |}.

(** Its first statements are those of [xBufferCompact]. *)
Definition xBufferReserve (alloc : oracle) (b : xBuffer_) (additional : Z) : ub (xErrno * xBuffer_) :=
  b ← xBufferCompact b;
  buf_grow alloc b (u64 (b_wpos b + additional)).

(** The offset [xBufferData] points at, or NULL. *)
Definition xBufferData (b : xBuffer_) : option Z :=
  if (b_wpos b <=? b_rpos b)%Z then None else Some (b_rpos b).

Definition xBufferLen (b : xBuffer_) : Z := u64 (b_wpos b - b_rpos b).
Definition xBufferCap (b : xBuffer_) : Z := b_cap b.
Definition xBufferWritable (b : xBuffer_) : Z := u64 (b_cap b - b_wpos b).

Definition xBufferConsume (b : xBuffer_) (n : Z) : xBuffer_ :=
  if (u64 (b_wpos b - b_rpos b) <=? n)%Z then
    {| b_rpos := 0; b_wpos := 0; b_cap := b_cap b; b_data := b_data b |}
  else
    {| b_rpos := u64 (b_rpos b + n); b_wpos := b_wpos b; b_cap := b_cap b; b_data := b_data b |}.

(** [read] returns the bytes that arrived, at most the number asked for, or
    [None] on an error other than EINTR. *)
Definition xBufferReadFd (alloc : oracle) (read : Z -> option (list Z)) (b : xBuffer_) : ub (Z * xBuffer_) :=
  '(err, b) ← (if (xBufferWritable b <? 4096)%Z then xBufferReserve alloc b 4096
               else Some (xErrno_Ok, b));
  match err with
  | xErrno_Ok =>
      match read (u64 (b_cap b - b_wpos b)) with
      | None => Some ((-1)%Z, b)
      | Some bs =>
          d ← mem_write (b_data b) (Z.to_nat (b_wpos b)) bs;
          Some (Z.of_nat (length bs),
            {| b_rpos := b_rpos b; b_wpos := u64 (b_wpos b + Z.of_nat (length bs));
               b_cap := b_cap b; b_data := d |})
      end
  | _ => Some ((-1)%Z, b)
  end.

(** [write] says how many of the bytes it is given it takes. *)
Definition xBufferWriteFd (write : list Z -> option nat) (b : xBuffer_) : ub (Z * xBuffer_) :=
  let readable := u64 (b_wpos b - b_rpos b) in
  if (readable =? 0)%Z then Some (0%Z, b) else
  bs ← mem_read (b_data b) (Z.to_nat (b_rpos b)) (Z.to_nat readable);
  match write bs with
  | None => Some ((-1)%Z, b)
  | Some n => Some (Z.of_nat n, if (0 <? Z.of_nat n)%Z then xBufferConsume b (Z.of_nat n) else b)
  end.

(** ** The queue of unread bytes *)

Definition unread (b : xBuffer_) : list Z :=
  take (Z.to_nat (b_wpos b - b_rpos b)) (drop (Z.to_nat (b_rpos b)) (b_data b)).

Record buf_inv (b : xBuffer_) : Prop := {
  bi_pos : (0 <= b_rpos b <= b_wpos b)%Z;
  bi_wpos : (b_wpos b <= b_cap b)%Z;
  bi_cap : (0 < b_cap b)%Z /\ (sizeof_xBuffer_ + b_cap b <= SIZE_MAX)%Z;
  bi_data : length (b_data b) = Z.to_nat (b_cap b);
}.

Hypothesis junk_len : forall n, length (junk n) = n.

Lemma length_unread b : buf_inv b -> Z.of_nat (length (unread b)) = xBufferLen b.
Proof.
  intros [Hp Hw Hc Hd]. unfold unread, xBufferLen, u64, sizeof_xBuffer_, SIZE_MAX in *.
  rewrite length_take, length_drop, Z.mod_small by lia. lia.
Qed.

Lemma u64_small z : (0 <= z < 2 ^ 64)%Z -> u64 z = z.
Proof. intros. by apply Z.mod_small. Qed.

Lemma xBufferReset_inv b : buf_inv b -> buf_inv (xBufferReset b).
Proof. intros [Hp Hw Hc Hd]. split; cbn [xBufferReset b_rpos b_wpos b_cap b_data]; try done; lia. Qed.

(** Sliding the unread bytes to the front keeps them. *)
Lemma slide_spec b :
  buf_inv b ->
  exists d, slide (b_data b) (b_rpos b) (u64 (b_wpos b - b_rpos b)) = Some d /\
    let b' := {| b_rpos := 0; b_wpos := u64 (b_wpos b - b_rpos b); b_cap := b_cap b; b_data := d |} in
    buf_inv b' /\ unread b' = unread b.
Proof.
  intros [Hp Hw Hc Hd]. unfold sizeof_xBuffer_, SIZE_MAX in *. rewrite u64_small by lia. unfold slide.
  rewrite mem_read_Some by lia. cbn [mbind option_bind].
  rewrite mem_write_Some by (rewrite length_take, length_drop; lia).
  eexists. split; [done|]. split.
  - split; cbn [b_rpos b_wpos b_cap b_data]; unfold sizeof_xBuffer_, SIZE_MAX; try lia.
    autorewrite with len. lia.
  - unfold unread. cbn [b_rpos b_wpos b_data]. rewrite Z.sub_0_r. change (Z.to_nat 0) with 0.
    rewrite take_0, drop_0. cbn [app]. rewrite take_app_le by (rewrite length_take, length_drop; lia).
    by rewrite take_take, Nat.min_id.
Qed.

(** Growing: up to a quarter of the address space the buffer gets the room or the
    allocator fails, and the contents stay. *)
Lemma buf_grow_spec alloc b needed :
  buf_inv b -> (0 <= needed <= 2 ^ 62)%Z -> (b_wpos b <= needed)%Z ->
  exists e b', buf_grow alloc b needed = Some (e, b') /\ buf_inv b' /\
    unread b' = unread b /\ b_wpos b' = b_wpos b /\ b_rpos b' = b_rpos b /\
    (e = xErrno_Ok /\ (needed <= b_cap b')%Z \/ e = xErrno_NoMemory /\ b' = b).
Proof.
  intros I Hn Hw. pose proof I as [Hp Hw' Hc Hd]. unfold sizeof_xBuffer_, SIZE_MAX in *. unfold buf_grow.
  destruct (Z.leb_spec needed (b_cap b)) as [Hle|Hgt].
  { exists xErrno_Ok, b. split_and!; try done. by left. }
  assert ((0 <? b_rpos b)%Z && (u64 (u64 (b_wpos b - b_rpos b) + needed) <=? b_cap b)%Z = false) as ->.
  { apply andb_false_intro2. rewrite (u64_small (b_wpos b - b_rpos b)), u64_small by lia. lia. }
  unfold buf_realloc.
  destruct (next_cap_spec BUF_MIN_CAP (b_cap b) needed) as (c & Ec & Hcase); [unfold BUF_MIN_CAP; lia|lia|].
  unfold buf_next_cap. rewrite Ec. cbn [mbind option_bind].
  change (SIZE_MAX / 2)%Z with (2 ^ 63 - 1)%Z in Hcase.
  destruct Hcase as [(H1 & H2 & H3 & H4)|[? ?]]; [|lia]. unfold BUF_MIN_CAP in H4.
  destruct (alloc _) eqn:Ha.
  2: { exists xErrno_NoMemory, b. split_and!; try done. by right. }
  unfold sizeof_xBuffer_. rewrite u64_small by lia.
  destruct (Z.ltb_spec (24 + c) 24); [lia|].
  replace (24 + c - 24)%Z with c by lia.
  eexists _, _. split; [done|].
  assert (length (realloc_data junk (b_data b) (Z.to_nat c)) = Z.to_nat c) as Hlen
    by (by apply length_realloc_data).
  split; [split; cbn [b_rpos b_wpos b_cap b_data]; unfold sizeof_xBuffer_, SIZE_MAX; try done; lia|].
  split; [|split_and!; [done|done|by left]].
  unfold unread. cbn [b_rpos b_wpos b_data].
  rewrite !firstn_skipn_comm. f_equal. by rewrite take_realloc_data by (rewrite ?Hd; lia).
Qed.

(** Bytes written at the write position join the end of the unread ones. *)
Lemma unread_write (d src : list Z) rp wp :
  rp <= wp -> wp + length src <= length d ->
  take (wp + length src - rp) (drop rp (take wp d ++ src ++ drop (wp + length src) d)) =
    take (wp - rp) (drop rp d) ++ src.
Proof.
  intros H1 H2. rewrite app_assoc, drop_app_le by (autorewrite with len; lia).
  rewrite take_app_le by (autorewrite with len; lia).
  rewrite firstn_all2 by (autorewrite with len; lia).
  rewrite drop_app_le by (autorewrite with len; lia). by rewrite skipn_firstn_comm.
Qed.

Lemma xBufferAppend_spec alloc b data len :
  buf_inv b -> (0 <= len)%Z -> Z.to_nat len <= length data -> (b_wpos b + len <= 2 ^ 62)%Z ->
  exists e b', xBufferAppend alloc b data len = Some (e, b') /\ buf_inv b' /\
    (e = xErrno_Ok /\ unread b' = unread b ++ take (Z.to_nat len) data \/
     e = xErrno_NoMemory /\ b' = b).
Proof.
  intros I Hlen Hd Hbig. pose proof I as [Hp _ _ _]. unfold xBufferAppend.
  destruct (Z.eqb_spec len 0) as [->|Hne].
  { exists xErrno_Ok, b. split_and!; try done. left. by rewrite take_0, app_nil_r. }
  rewrite u64_small by lia.
  destruct (buf_grow_spec alloc b (b_wpos b + len) I) as (e & b1 & -> & I1 & Hu & Hw & Hr & Hres); [lia..|].
  cbn [mbind option_bind]. destruct Hres as [[-> Hcap]|[-> ->]].
  2: { exists xErrno_NoMemory, b. split_and!; try done. by right. }
  pose proof I1 as [Hp1 Hw1 Hc1 Hd1]. unfold sizeof_xBuffer_, SIZE_MAX in *.
  rewrite mem_read_Some by lia. cbn [mbind option_bind]. rewrite drop_0.
  rewrite mem_write_Some by (rewrite length_take; lia). cbn [mbind option_bind].
  rewrite u64_small by lia. eexists _, _. split; [done|]. split.
  - split; cbn [b_rpos b_wpos b_cap b_data]; unfold sizeof_xBuffer_, SIZE_MAX; try lia.
    autorewrite with len. lia.
  - left. split; [done|]. rewrite <- Hu. unfold unread. cbn [b_rpos b_wpos b_data].
    assert (length (take (Z.to_nat len) data) = Z.to_nat len) as Hs by (rewrite length_take; lia).
    rewrite Z2Nat.inj_sub, Z2Nat.inj_add by lia. rewrite <- Hs at 1.
    rewrite unread_write by lia. f_equal. by rewrite Z2Nat.inj_sub by lia.
Qed.

Lemma xBufferCompact_spec b :
  buf_inv b ->
  exists b', xBufferCompact b = Some b' /\ buf_inv b' /\ unread b' = unread b /\ b_rpos b' = 0%Z /\
    b_cap b' = b_cap b /\ (b_wpos b' <= b_wpos b)%Z.
Proof.
  intros I. pose proof I as [Hp Hw Hc Hd]. unfold sizeof_xBuffer_, SIZE_MAX in *. unfold xBufferCompact.
  destruct (Z.eqb_spec (b_rpos b) 0); [by exists b; split_and!|].
  destruct (slide_spec b I) as (d & Hs & Hi & Hu).
  destruct (Z.ltb_spec 0 (u64 (b_wpos b - b_rpos b))) as [Hlt|Hge].
  - rewrite Hs. eexists. split; [done|]. split; [done|]. split; [done|]. cbn [b_rpos b_cap b_wpos].
    rewrite u64_small by lia. lia.
  - rewrite u64_small in Hge |- * by lia. eexists. split; [done|].
    assert (b_wpos b - b_rpos b = 0)%Z as E by lia. rewrite E. split; [|split; [|cbn; lia]].
    + by apply xBufferReset_inv.
    + unfold unread. by rewrite E.
Qed.

Lemma xBufferReserve_spec alloc b additional :
  buf_inv b -> (0 <= additional)%Z -> (b_wpos b + additional <= 2 ^ 62)%Z ->
  exists e b', xBufferReserve alloc b additional = Some (e, b') /\ buf_inv b' /\
    unread b' = unread b /\
    (e = xErrno_Ok /\ (additional <= xBufferWritable b')%Z \/ e = xErrno_NoMemory).
Proof.
  intros I Ha Hbig. pose proof I as [Hp Hw Hc Hd]. unfold sizeof_xBuffer_, SIZE_MAX in *. unfold xBufferReserve.
  destruct (xBufferCompact_spec b I) as (b1 & -> & I1 & Hu & _ & _ & Hw1).
  cbn [mbind option_bind]. pose proof I1 as [Hp1 _ _ _]. rewrite u64_small by lia.
  destruct (buf_grow_spec alloc b1 (b_wpos b1 + additional) I1) as (e & b2 & -> & I2 & Hu2 & Hw2 & Hr2 & Hres);
    [lia..|].
  exists e, b2. split; [done|]. split; [done|]. split; [congruence|].
  destruct Hres as [[-> Hcap]|[-> ->]]; [left|by right]. split; [done|].
  pose proof I2 as [? ? ? ?]. unfold xBufferWritable, sizeof_xBuffer_, SIZE_MAX in *. rewrite u64_small by lia. lia.
Qed.

Lemma xBufferConsume_spec b n :
  buf_inv b -> (0 <= n)%Z ->
  buf_inv (xBufferConsume b n) /\ unread (xBufferConsume b n) = drop (Z.to_nat n) (unread b) /\
  b_cap (xBufferConsume b n) = b_cap b.
Proof.
  intros I Hn. pose proof I as [Hp Hw Hc Hd]. unfold sizeof_xBuffer_, SIZE_MAX in *.
  pose proof (length_unread b I) as Hl. unfold xBufferConsume, xBufferLen in *.
  rewrite u64_small in * by lia. destruct (Z.leb_spec (b_wpos b - b_rpos b) n).
  - split; [by apply xBufferReset_inv|]. split; [|done].
    rewrite drop_ge by lia. done.
  - rewrite u64_small by lia. split; [split; cbn [b_rpos b_wpos b_cap b_data]; try done; lia|].
    split; [|done]. unfold unread. cbn [b_rpos b_wpos b_data].
    rewrite skipn_firstn_comm, drop_drop. f_equal; [lia|f_equal; lia].
Qed.

Lemma xBufferReadFd_spec alloc read b :
  buf_inv b -> (b_wpos b + 4096 <= 2 ^ 62)%Z ->
  (forall n bs, read n = Some bs -> (Z.of_nat (length bs) <= n)%Z) ->
  exists ret b', xBufferReadFd alloc read b = Some (ret, b') /\ buf_inv b' /\
    (ret = (-1)%Z /\ unread b' = unread b \/
     exists n bs, (4096 <= n)%Z /\ read n = Some bs /\ ret = Z.of_nat (length bs) /\
       unread b' = unread b ++ bs).
Proof.
  intros I Hbig Hrd. unfold xBufferReadFd.
  assert (exists e b1, (if (xBufferWritable b <? 4096)%Z then xBufferReserve alloc b 4096
               else Some (xErrno_Ok, b)) = Some (e, b1) /\ buf_inv b1 /\ unread b1 = unread b /\
    (e = xErrno_Ok /\ (4096 <= xBufferWritable b1)%Z \/ e = xErrno_NoMemory))
    as (e & b1 & -> & I1 & Hu & Hres).
  { destruct (Z.ltb_spec (xBufferWritable b) 4096); [by apply xBufferReserve_spec|].
    exists xErrno_Ok, b. split_and!; try done. by left. }
  cbn [mbind option_bind]. destruct Hres as [[-> Hwr]| ->].
  2: { eexists _, b1. split; [done|]. split; [done|by left]. }
  pose proof I1 as [Hp Hw Hc Hd]. unfold xBufferWritable, sizeof_xBuffer_, SIZE_MAX in *.
  destruct (read _) as [bs|] eqn:Er.
  2: { eexists _, b1. split; [done|]. split; [done|by left]. }
  pose proof Er as Er'. apply Hrd in Er'. rewrite u64_small in Er' by lia.
  rewrite mem_write_Some by lia. cbn [mbind option_bind]. rewrite (u64_small (b_wpos b1 + _)) by lia.
  eexists _, _. split; [done|]. split.
  - split; cbn [b_rpos b_wpos b_cap b_data]; unfold sizeof_xBuffer_, SIZE_MAX; try lia.
    autorewrite with len. lia.
  - right. exists (u64 (b_cap b1 - b_wpos b1)), bs. split; [lia|]. split; [done|]. split; [done|].
    rewrite <- Hu. unfold unread. cbn [b_rpos b_wpos b_data].
    replace (Z.to_nat (b_wpos b1 + Z.of_nat (length bs) - b_rpos b1)) with
      (Z.to_nat (b_wpos b1) + length bs - Z.to_nat (b_rpos b1)) by lia.
    rewrite unread_write by lia. f_equal. by rewrite Z2Nat.inj_sub by lia.
Qed.

Lemma xBufferWriteFd_spec write b :
  buf_inv b -> (forall bs n, write bs = Some n -> n <= length bs) ->
  exists ret b', xBufferWriteFd write b = Some (ret, b') /\ buf_inv b' /\
    (unread b = [] /\ ret = 0%Z /\ b' = b \/
     unread b <> [] /\
     match write (unread b) with
     | None => ret = (-1)%Z /\ b' = b
     | Some n => ret = Z.of_nat n /\ unread b' = drop n (unread b)
     end).
Proof.
  intros I Hwr. pose proof I as [Hp Hw Hc Hd]. unfold sizeof_xBuffer_, SIZE_MAX in *.
  pose proof (length_unread b I) as Hl. unfold xBufferWriteFd, xBufferLen in *.
  rewrite u64_small in * by lia. destruct (Z.eqb_spec (b_wpos b - b_rpos b) 0) as [E|E].
  { exists 0%Z, b. split; [done|]. split; [done|]. left. destruct (unread b); [done|simpl in Hl; lia]. }
  rewrite mem_read_Some by lia. cbn [mbind option_bind]. fold (unread b).
  assert (unread b <> []) as Hne by (intros E'; rewrite E' in Hl; simpl in Hl; lia).
  destruct (write (unread b)) as [n|] eqn:Ew.
  2: { exists (-1)%Z, b. split; [done|]. split; [done|]. by right. }
  destruct (xBufferConsume_spec b (Z.of_nat n) I) as (I' & Hu & _); [lia|]. rewrite Nat2Z.id in Hu.
  eexists _, _. split; [done|]. destruct (Z.ltb_spec 0 (Z.of_nat n)).
  - split; [done|]. by right.
  - split; [done|]. right. split; [done|]. split; [done|]. assert (n = 0) as -> by lia.
    by rewrite drop_0.
Qed.

End buf.

(** ** Calls against a byte queue *)

Inductive buf_call :=
  | BAppend (data : list Z)
  | BAppendStr (str : list Z)
  | BReserve (additional : Z)
  | BConsume (n : Z)
  | BCompact
  | BReset
  | BReadFd (read : Z -> option (list Z))
  | BWriteFd (write : list Z -> option nat).

(** Replies: an error code, a return value, or nothing. *)
Inductive buf_reply := BErr (e : xErrno) | BRet (n : Z) | BVoid.

Section calls.
Variables (junk : nat -> list Z) (alloc : oracle).

Definition buf_step (b : xBuffer_) (c : buf_call) : ub (buf_reply * xBuffer_) :=
  match c with
  | BAppend data => r ← xBufferAppend junk alloc b data (Z.of_nat (length data)); Some (BErr r.1, r.2)
  | BAppendStr str => r ← xBufferAppendStr junk alloc b str; Some (BErr r.1, r.2)
  | BReserve n => r ← xBufferReserve junk alloc b n; Some (BErr r.1, r.2)
  | BConsume n => Some (BVoid, xBufferConsume b n)
  | BCompact => r ← xBufferCompact b; Some (BVoid, r)
  | BReset => Some (BVoid, xBufferReset b)
  | BReadFd read => r ← xBufferReadFd junk alloc read b; Some (BRet r.1, r.2)
  | BWriteFd write => r ← xBufferWriteFd write b; Some (BRet r.1, r.2)
  end.

(** What a call may do to the queue of unread bytes. *)
Inductive queue_call : list Z -> buf_call -> buf_reply -> list Z -> Prop :=
  | q_append q data : queue_call q (BAppend data) (BErr xErrno_Ok) (q ++ data)
  | q_append_fail q data : queue_call q (BAppend data) (BErr xErrno_NoMemory) q
  | q_append_str q str : queue_call q (BAppendStr str) (BErr xErrno_Ok) (q ++ str)
  | q_append_str_fail q str : queue_call q (BAppendStr str) (BErr xErrno_NoMemory) q
  | q_reserve q n e : e = xErrno_Ok \/ e = xErrno_NoMemory -> queue_call q (BReserve n) (BErr e) q
  | q_consume q n : queue_call q (BConsume n) BVoid (drop (Z.to_nat n) q)
  | q_compact q : queue_call q BCompact BVoid q
  | q_reset q : queue_call q BReset BVoid []
  | q_read_fail q read : queue_call q (BReadFd read) (BRet (-1)) q
  | q_read q read n bs :
      (4096 <= n)%Z -> read n = Some bs -> queue_call q (BReadFd read) (BRet (Z.of_nat (length bs))) (q ++ bs)
  | q_write_empty write : queue_call [] (BWriteFd write) (BRet 0) []
  | q_write_fail q write : write q = None -> queue_call q (BWriteFd write) (BRet (-1)) q
  | q_write q write n :
      q <> [] -> write q = Some n -> queue_call q (BWriteFd write) (BRet (Z.of_nat n)) (drop n q).

(** Sizes far from the width of [size_t], system calls within their bounds. *)
Definition buf_call_ok (b : xBuffer_) (c : buf_call) : Prop :=
  match c with
  | BAppend data | BAppendStr data => (b_wpos b + Z.of_nat (length data) <= 2 ^ 62)%Z
  | BReserve n => (0 <= n)%Z /\ (b_wpos b + n <= 2 ^ 62)%Z
  | BConsume n => (0 <= n)%Z
  | BCompact | BReset => True
  | BReadFd read =>
      (b_wpos b + 4096 <= 2 ^ 62)%Z /\
      forall n bs, read n = Some bs -> (Z.of_nat (length bs) <= n)%Z
  | BWriteFd write => forall bs n, write bs = Some n -> n <= length bs
  end.

End calls.


(** A buffer of 8 bytes holding "cd", two consumed bytes before it. *)
Definition buf_example : xBuffer_ :=
  {| b_rpos := 2; b_wpos := 4; b_cap := 8; b_data := [97; 98; 99; 100; 0; 0; 0; 0]%Z |}.


(** [xBufferReserve] does not guard its arithmetic.  On a fresh default
    buffer a request for half the address space or more wraps the size given
    to [realloc]: the block shrinks below its own header, and recording the new
    capacity writes outside it.  On a buffer holding a byte, a request whose sum
    with the write position wraps to zero reports success without any room. *)
Theorem buf_reserve_overflow b junk :
  xBufferCreate junk (fun _ => true) 0 = Some b ->
  (forall additional, (2 ^ 63 <= additional < 2 ^ 64)%Z ->
     xBufferReserve junk (fun _ => true) b additional = None) /\
  (forall data, length data = 1 -> length (b_data b) = 64 ->
     exists b1, xBufferAppend junk (fun _ => true) b data 1 = Some (xErrno_Ok, b1) /\
       xBufferReserve junk (fun _ => false) b1 SIZE_MAX = Some (xErrno_Ok, b1) /\
       (xBufferWritable b1 < SIZE_MAX)%Z).
Proof.
  unfold xBufferCreate. cbn. intros [= <-]. split.
  - intros n Hn. unfold xBufferReserve, xBufferCompact. cbn [b_rpos b_wpos b_cap Z.eqb mbind option_bind].
    rewrite Z.add_0_l, u64_small by lia. unfold buf_grow. cbn [b_cap b_rpos].
    unfold BUF_MIN_CAP. destruct (Z.leb_spec n 64); [lia|]. cbn [Z.ltb Z.compare andb].
    unfold buf_realloc, buf_next_cap, next_cap. cbn [b_cap].
    change (SIZE_MAX / 2)%Z with (2 ^ 63 - 1)%Z. destruct (Z.ltb_spec (2 ^ 63 - 1) n); [|lia].
    reflexivity.
  - intros [|x [|]] Hd Hl; try done. unfold xBufferAppend. cbn [Z.eqb].
    unfold buf_grow. cbn [b_cap b_wpos b_rpos b_data].
    change (u64 (0 + 1) <=? BUF_MIN_CAP)%Z with true. cbn [mbind option_bind].
    rewrite mem_read_Some by (simpl; lia). cbn [mbind option_bind b_data b_wpos b_cap b_rpos] in *.
    rewrite mem_write_Some by (rewrite Hl; simpl; lia).
    cbn [mbind option_bind]. eexists. split; [done|]. split; [|reflexivity].
    unfold xBufferReserve, xBufferCompact. cbn [b_rpos Z.eqb mbind option_bind b_wpos]. reflexivity.
Qed.

Lemma buf_reserve_overflow_witness :
  exists b, xBufferCreate (fun n => replicate n 0%Z) (fun _ => true) 0 = Some b /\
    xBufferReserve (fun n => replicate n 0%Z) (fun _ => true) b (2 ^ 63) = None.
Proof.
  eexists. split; [reflexivity|].
  destruct (buf_reserve_overflow _ (fun n => replicate n 0%Z) eq_refl) as [H _].
  apply (H (2 ^ 63)%Z). lia.
Defined.

(** [buf_grow] never slides the unread bytes although it is written to
    prefer that to a [realloc]: whenever the capacity falls short of what is
    [needed], the sum it tests falls short too, so consumed space is given
    back by [xBufferReserve] and [xBufferCompact] only. *)
Lemma buf_grow_never_slides junk alloc b needed :
  buf_inv b -> (0 <= needed <= 2 ^ 62)%Z -> (b_cap b < needed)%Z -> (b_cap b <= 2 ^ 62)%Z ->
  buf_grow junk alloc b needed = buf_realloc junk alloc b needed.
Proof.
  intros [Hp Hw Hc Hd] Hn Hlt Hcap. unfold buf_grow. destruct (Z.leb_spec needed (b_cap b)); [lia|].
  assert (u64 (u64 (b_wpos b - b_rpos b) + needed) <=? b_cap b = false)%Z as ->.
  { rewrite (u64_small (b_wpos b - b_rpos b)), u64_small by lia. lia. }
  by rewrite andb_false_r.
Qed.

Lemma buf_grow_never_slides_witness :
  buf_grow (fun n => replicate n 0%Z) (fun _ => true) buf_example 9 =
    Some (xErrno_Ok, {| b_rpos := 2; b_wpos := 4; b_cap := 16;
                        b_data := [97; 98; 99; 100] ++ replicate 12 0 |}%Z).
Proof.
  rewrite (buf_grow_never_slides (fun n => replicate n 0%Z) (fun _ => true) buf_example 9).
  - reflexivity.
  - split; cbn; unfold sizeof_xBuffer_, SIZE_MAX; lia.
  - lia.
  - cbn. lia.
  - cbn. lia.
Defined.
