(* ===== verification/Hex.v ===== *)
(** * Hex: base-16 encoding ([libx/x/base/hex.c])

    The destination is a memory block written through a cursor; [None] is an
    access outside it.  Success is the pair of the block and the length stored
    through [dst_len], an error the C value [-1]. *)

From S2P Require Import Prelude.

Definition hex_val (c : Z) : Z :=
  if (48 <=? c)%Z && (c <=? 57)%Z then (c - 48)%Z
  else if (97 <=? c)%Z && (c <=? 102)%Z then (c - 97 + 10)%Z
  else if (65 <=? c)%Z && (c <=? 70)%Z then (c - 65 + 10)%Z
  else (-1)%Z.

(** [kHexDigits[i]] *)
Definition hex_digit (i : Z) : Z :=
  nth (Z.to_nat i) [48; 49; 50; 51; 52; 53; 54; 55; 56; 57; 97; 98; 99; 100; 101; 102]%Z 0%Z.

Fixpoint hex_encode_loop (src : list Z) (w : list Z * nat) : ub (list Z * nat) :=
  match src with
  | [] => Some w
  | b :: src =>
      w ← put w (hex_digit (Z.land (Z.shiftr b 4) 0x0F));
      w ← put w (hex_digit (Z.land b 0x0F));
      hex_encode_loop src w
  end.

Definition xHexEncode (src : list Z) (dst : list Z) (dst_len : Z) : ub codec_result :=
  let need := u64 (Z.of_nat (length src) * 2) in
  if (dst_len <? u64 (need + 1))%Z then Some CodecErr
  else if decide (length src = 0) then
    d ← mem_set dst 0 0%Z; Some (CodecOk d 0)
  else
    '(d, out) ← hex_encode_loop src (dst, 0);
    d ← mem_set d out 0%Z;
    Some (CodecOk d (Z.of_nat out)).

Fixpoint hex_decode_loop (src : list Z) (w : list Z * nat) : ub (option (list Z * nat)) :=
  match src with
  | h :: l :: src =>
      let hi := hex_val h in
      let lo := hex_val l in
      if (hi <? 0)%Z || (lo <? 0)%Z then Some None
      else w ← put w (u8 (Z.lor (Z.shiftl hi 4) lo)); hex_decode_loop src w
  | _ => Some (Some w)
  end.

Definition xHexDecode (src : list Z) (dst : list Z) (dst_len : Z) : ub codec_result :=
  if decide (length src = 0) then Some (CodecOk dst 0)
  else if negb (Z.land (Z.of_nat (length src)) 1 =? 0)%Z then Some CodecErr
  else
    let need := (Z.of_nat (length src) / 2)%Z in
    if (dst_len <? need)%Z then Some CodecErr
    else
      r ← hex_decode_loop src (dst, 0);
      match r with
      | None => Some CodecErr
      | Some (d, _) => Some (CodecOk d need)
      end.

(** ** What the two functions compute *)

Definition hex_of (b : Z) : list Z :=
  [hex_digit (Z.land (Z.shiftr b 4) 0x0F); hex_digit (Z.land b 0x0F)].

Definition hex_text (src : list Z) : list Z := src ≫= hex_of.

Lemma length_hex_text src : length (hex_text src) = 2 * length src.
Proof. unfold hex_text. by apply length_bind_uniform. Qed.

Lemma hex_encode_loop_puts src w : hex_encode_loop src w = puts w (hex_text src).
Proof.
  revert w. induction src as [|b src IH]; intros w; [done|].
  change (hex_text (b :: src)) with (hex_of b ++ hex_text src). rewrite puts_app.
  cbn [hex_encode_loop hex_of puts]. destruct (put w _) as [w1|]; [|done]. cbn [mbind option_bind].
  destruct (put w1 _) as [w2|]; [|done]. cbn [mbind option_bind]. apply IH.
Qed.

Lemma xHexEncode_spec src dst :
  (Z.of_nat (length src) < 2 ^ 62)%Z -> 2 * length src + 1 <= length dst ->
  xHexEncode src dst (Z.of_nat (length dst)) =
    Some (CodecOk (block_with dst (hex_text src ++ [0%Z])) (Z.of_nat (length (hex_text src)))).
Proof.
  intros Hb Hd. unfold xHexEncode, block_with.
  assert (u64 (u64 (Z.of_nat (length src) * 2) + 1) = Z.of_nat (length src) * 2 + 1)%Z as ->.
  { unfold u64. rewrite (Z.mod_small (_ * 2)) by lia. apply Z.mod_small. lia. }
  destruct (Z.ltb_spec (Z.of_nat (length dst)) (Z.of_nat (length src) * 2 + 1)); [lia|].
  case_decide as E.
  { apply nil_length_inv in E as ->. rewrite mem_set_Some by lia. cbn [mbind option_bind].
    destruct dst as [|x dst]; [simpl in Hd; lia|]. done. }
  rewrite hex_encode_loop_puts.
  destruct (puts_nul dst (hex_text src)) as (d & -> & Hd'); [rewrite length_hex_text; lia|].
  cbn [mbind option_bind]. by rewrite Hd'.
Qed.

Lemma half_SS n : S (S n) / 2 = S (n / 2).
Proof. replace (S (S n)) with (1 * 2 + n) by lia. by rewrite Nat.div_add_l by lia. Qed.

(** The bytes a text of digit pairs stands for, if all are digits. *)
Fixpoint hex_bytes (src : list Z) : option (list Z) :=
  match src with
  | h :: l :: src =>
      if (hex_val h <? 0)%Z || (hex_val l <? 0)%Z then None
      else bs ← hex_bytes src; Some (u8 (Z.lor (Z.shiftl (hex_val h) 4) (hex_val l)) :: bs)
  | _ => Some []
  end.

Lemma hex_pairs_ind (P : list Z -> Prop) :
  P [] -> (forall h, P [h]) -> (forall h l src, P src -> P (h :: l :: src)) -> forall src, P src.
Proof.
  intros H0 H1 H2. fix IH 1. intros [|h [|l src]]; [exact H0|apply H1|]. apply H2, IH.
Qed.

Lemma length_hex_bytes src bs : hex_bytes src = Some bs -> length bs = length src / 2.
Proof.
  revert bs. induction src as [|h|h l src IH] using hex_pairs_ind; cbn [hex_bytes]; intros bs H.
  1-2: by injection H as <-.
  destruct (_ || _); [done|]. destruct (hex_bytes src) as [bs'|]; [|done]. injection H as <-.
  cbn [length]. by rewrite (IH bs' eq_refl), half_SS.
Qed.

Lemma hex_decode_loop_spec src d out :
  out + length src / 2 <= length d ->
  hex_decode_loop src (d, out) =
    match hex_bytes src with
    | None => Some None
    | Some bs => w ← puts (d, out) bs; Some (Some w)
    end.
Proof.
  revert d out. induction src as [|h|h l src IH] using hex_pairs_ind; intros d out H;
    cbn [hex_decode_loop hex_bytes]; [done..|].
  cbn [length] in H. rewrite half_SS in H. destruct (_ || _); [done|].
  rewrite put_Some by lia. cbn [mbind option_bind]. rewrite IH by (rewrite length_insert; lia).
  destruct (hex_bytes src) as [bs|]; [|done]. cbn [mbind option_bind puts].
  by rewrite put_Some by lia.
Qed.

(** A digit of a nibble reads back as it. *)
Lemma hex_of_val b :
  byte_ok b ->
  (hex_val (hex_digit (Z.land (Z.shiftr b 4) 0x0F)) = Z.land (Z.shiftr b 4) 0x0F /\
   hex_val (hex_digit (Z.land b 0x0F)) = Z.land b 0x0F /\
   u8 (Z.lor (Z.shiftl (Z.land (Z.shiftr b 4) 0x0F) 4) (Z.land b 0x0F)) = b /\
   0 <= Z.land (Z.shiftr b 4) 0x0F /\ 0 <= Z.land b 0x0F)%Z.
Proof.
  intros Hb. pose proof (byte_exhaust (fun b =>
    (hex_val (hex_digit (Z.land (Z.shiftr b 4) 0x0F)) =? Z.land (Z.shiftr b 4) 0x0F)%Z &&
    (hex_val (hex_digit (Z.land b 0x0F)) =? Z.land b 0x0F)%Z &&
    (u8 (Z.lor (Z.shiftl (Z.land (Z.shiftr b 4) 0x0F) 4) (Z.land b 0x0F)) =? b)%Z &&
    (0 <=? Z.land (Z.shiftr b 4) 0x0F)%Z && (0 <=? Z.land b 0x0F)%Z) ltac:(vm_compute; reflexivity) b Hb) as H.
  rewrite !andb_true_iff, !Z.eqb_eq, !Z.leb_le in H. tauto.
Qed.

Lemma hex_bytes_text src : bytes_ok src -> hex_bytes (hex_text src) = Some src.
Proof.
  induction 1 as [|b src Hb _ IH]; [done|].
  change (hex_text (b :: src)) with (hex_of b ++ hex_text src). unfold hex_of. cbn [app hex_bytes].
  destruct (hex_of_val b Hb) as (-> & -> & Hv & H1 & H2).
  destruct (Z.ltb_spec (Z.land (Z.shiftr b 4) 0x0F) 0); [lia|].
  destruct (Z.ltb_spec (Z.land b 0x0F) 0); [lia|]. cbn [orb]. rewrite IH. cbn [mbind option_bind].
  by rewrite Hv.
Qed.

Lemma even_land_1 n : negb (Z.land (Z.of_nat (2 * n)) 1 =? 0)%Z = false.
Proof.
  change 1%Z with (Z.ones 1). rewrite Z.land_ones by lia.
  replace (Z.of_nat (2 * n)) with (Z.of_nat n * 2)%Z by lia. change (2 ^ 1)%Z with 2%Z.
  by rewrite Z_mod_mult.
Qed.

Lemma xHexDecode_spec src dst n :
  length src = 2 * n -> n <= length dst ->
  xHexDecode src dst (Z.of_nat (length dst)) =
    Some (match hex_bytes src with
          | None => CodecErr
          | Some bs => CodecOk (block_with dst bs) (Z.of_nat n)
          end).
Proof.
  intros Hl Hd. unfold xHexDecode. case_decide as E.
  { apply nil_length_inv in E as ->. simpl in Hl. assert (n = 0) as -> by lia. by cbn; rewrite drop_0. }
  rewrite Hl, even_land_1.
  assert (Z.of_nat (2 * n) / 2 = Z.of_nat n)%Z as ->.
  { replace (Z.of_nat (2 * n)) with (Z.of_nat n * 2)%Z by lia. by rewrite Z_div_mult by lia. }
  destruct (Z.ltb_spec (Z.of_nat (length dst)) (Z.of_nat n)); [lia|].
  assert (length src / 2 = n) as Hn by (rewrite Hl, Nat.mul_comm; apply Nat.div_mul; lia).
  rewrite hex_decode_loop_spec by lia. destruct (hex_bytes src) as [bs|] eqn:Eb; [|done].
  apply length_hex_bytes in Eb. rewrite puts_block by lia. done.
Qed.

(** hex encoding writes the two lower-case digits of every byte and a NUL,
    inside any destination of [2 n + 1] bytes, and decoding gives the bytes
    back. *)
Theorem hex_roundtrip src dst dst' :
  bytes_ok src -> (Z.of_nat (length src) < 2 ^ 62)%Z ->
  2 * length src + 1 <= length dst -> length src <= length dst' ->
  xHexEncode src dst (Z.of_nat (length dst)) =
    Some (CodecOk (block_with dst (hex_text src ++ [0%Z])) (Z.of_nat (2 * length src))) /\
  xHexDecode (hex_text src) dst' (Z.of_nat (length dst')) =
    Some (CodecOk (block_with dst' src) (Z.of_nat (length src))).
Proof.
  intros Hs Hb Hd Hd'. split.
  - rewrite xHexEncode_spec by done. by rewrite length_hex_text.
  - rewrite (xHexDecode_spec _ _ (length src)) by (rewrite ?length_hex_text; done).
    by rewrite hex_bytes_text.
Qed.

Lemma hex_roundtrip_witness :
  xHexEncode [222; 173]%Z (replicate 6 7%Z) 6 = Some (CodecOk [100; 101; 97; 100; 0; 7]%Z 4) /\
  xHexDecode [100; 101; 97; 100]%Z (replicate 3 7%Z) 3 = Some (CodecOk [222; 173; 7]%Z 2).
Proof.
  apply (hex_roundtrip [222; 173]%Z (replicate 6 7%Z) (replicate 3 7%Z)).
  - repeat constructor; lia.
  - simpl. lia.
  - simpl. lia.
  - simpl. lia.
Defined.
