(* ===== verification/Base64.v ===== *)
(** * Base64: RFC 4648 base-64 ([libx/x/base/base64.c])

    As for Hex, the destination is a block written through a cursor.  The
    decoder takes both alphabets and any amount of the padding, so the round
    trip is stated for all the spellings of an encoding. *)

From S2P Require Import Prelude.

Definition kAlphabet : list Z :=
  (seqZ 65 26 ++ seqZ 97 26 ++ seqZ 48 10 ++ [43; 47])%Z.

Definition alpha (i : Z) : Z := nth (Z.to_nat i) kAlphabet 0%Z.

Definition base64_val (c : Z) : Z :=
  if (65 <=? c)%Z && (c <=? 90)%Z then (c - 65)%Z
  else if (97 <=? c)%Z && (c <=? 122)%Z then (c - 97 + 26)%Z
  else if (48 <=? c)%Z && (c <=? 57)%Z then (c - 48 + 52)%Z
  else if (c =? 43)%Z || (c =? 45)%Z then 62%Z
  else if (c =? 47)%Z || (c =? 95)%Z then 63%Z
  else (-1)%Z.

Fixpoint base64_encode_loop (src : list Z) (w : list Z * nat) : ub (list Z * nat) :=
  match src with
  | a :: b :: c :: src =>
      w ← put w (alpha (Z.shiftr a 2));
      w ← put w (alpha (Z.lor (Z.shiftl (Z.land a 0x03) 4) (Z.land (Z.shiftr b 4) 0x0F)));
      w ← put w (alpha (Z.lor (Z.shiftl (Z.land b 0x0F) 2) (Z.land (Z.shiftr c 6) 0x03)));
      w ← put w (alpha (Z.land c 0x3F));
      base64_encode_loop src w
  | [a] =>
      w ← put w (alpha (Z.shiftr a 2));
      w ← put w (alpha (Z.shiftl (Z.land a 0x03) 4));
      w ← put w 61%Z;
      put w 61%Z
  | [a; b] =>
      w ← put w (alpha (Z.shiftr a 2));
      w ← put w (alpha (Z.lor (Z.shiftl (Z.land a 0x03) 4) (Z.land (Z.shiftr b 4) 0x0F)));
      w ← put w (alpha (Z.shiftl (Z.land b 0x0F) 2));
      put w 61%Z
  | [] => Some w
  end.

Definition xBase64Encode (src dst : list Z) (dst_len : Z) : ub codec_result :=
  let need := u64 (u64 (Z.of_nat (length src) + 2) / 3 * 4) in
  if (dst_len <? u64 (need + 1))%Z then Some CodecErr
  else if decide (length src = 0) then
    d ← mem_set dst 0 0%Z; Some (CodecOk d 0)
  else
    '(d, out) ← base64_encode_loop src (dst, 0);
    d ← mem_set d out 0%Z;
    Some (CodecOk d (Z.of_nat out)).

(** The validation loop: the padding count, or [None] for [-1]. *)
Fixpoint base64_validate (src : list Z) (got_pad : bool) (pad_count : Z) : option Z :=
  match src with
  | [] => Some pad_count
  | c :: src =>
      if (c =? 61)%Z then base64_validate src true (pad_count + 1)
      else if got_pad then None
      else if (base64_val c <? 0)%Z then None
      else base64_validate src got_pad pad_count
  end.

(** One round of the decode loop, on four sextets. *)
Definition base64_emit (need : Z) (w : list Z * nat) (v0 v1 v2 v3 : Z) : ub (list Z * nat) :=
  w ← put w (u8 (Z.lor (Z.shiftl v0 2) (Z.shiftr v1 4)));
  w ← (if (Z.of_nat w.2 <? need)%Z then
         put w (u8 (Z.lor (Z.shiftl (Z.land v1 0x0F) 4) (Z.shiftr v2 2)))
       else Some w);
  if (Z.of_nat w.2 <? need)%Z then put w (u8 (Z.lor (Z.shiftl (Z.land v2 0x03) 6) v3))
  else Some w.

(** [src] is what is left of the content; absent sextets are zero. *)
Fixpoint base64_decode_loop (src : list Z) (need : Z) (w : list Z * nat) : ub (list Z * nat) :=
  match src with
  | [] => Some w
  | [c0] => base64_emit need w (base64_val c0) 0 0 0
  | [c0; c1] => base64_emit need w (base64_val c0) (base64_val c1) 0 0
  | [c0; c1; c2] => base64_emit need w (base64_val c0) (base64_val c1) (base64_val c2) 0
  | c0 :: c1 :: c2 :: c3 :: src =>
      w ← base64_emit need w (base64_val c0) (base64_val c1) (base64_val c2) (base64_val c3);
      base64_decode_loop src need w
  end.

Definition xBase64Decode (src dst : list Z) (dst_len : Z) : ub codec_result :=
  if decide (length src = 0) then Some (CodecOk dst 0)
  else
    match base64_validate src false 0 with
    | None => Some CodecErr
    | Some pad_count =>
        if (2 <? pad_count)%Z then Some CodecErr
        else
          let content_len := u64 (Z.of_nat (length src) - pad_count) in
          let need := (u64 (content_len * 3) / 4)%Z in
          if (content_len mod 4 =? 1)%Z then Some CodecErr
          else if (dst_len <? need)%Z then Some CodecErr
          else
            '(d, out) ← base64_decode_loop (take (Z.to_nat content_len) src) need (dst, 0);
            Some (CodecOk d (Z.of_nat out))
    end.

(** ** The text of an encoding *)

(** Sextets of a group. *)
Definition s0 (a : Z) : Z := Z.shiftr a 2.
Definition s1 (a b : Z) : Z := Z.lor (Z.shiftl (Z.land a 0x03) 4) (Z.land (Z.shiftr b 4) 0x0F).
Definition s2 (b c : Z) : Z := Z.lor (Z.shiftl (Z.land b 0x0F) 2) (Z.land (Z.shiftr c 6) 0x03).
Definition s3 (c : Z) : Z := Z.land c 0x3F.

(** The characters before the padding, and their padding. *)
Fixpoint base64_content (src : list Z) : list Z :=
  match src with
  | [] => []
  | [a] => [alpha (s0 a); alpha (s1 a 0)]
  | [a; b] => [alpha (s0 a); alpha (s1 a b); alpha (s2 b 0)]
  | a :: b :: c :: src => [alpha (s0 a); alpha (s1 a b); alpha (s2 b c); alpha (s3 c)] ++ base64_content src
  end.

Definition base64_pad (n : nat) : nat := match n mod 3 with 1 => 2 | 2 => 1 | _ => 0 end.

Definition base64_text (src : list Z) : list Z :=
  base64_content src ++ replicate (base64_pad (length src)) 61%Z.

Lemma triples_ind (P : list Z -> Prop) :
  P [] -> (forall a, P [a]) -> (forall a b, P [a; b]) ->
  (forall a b c src, P src -> P (a :: b :: c :: src)) -> forall src, P src.
Proof.
  intros H0 H1 H2 H3. fix IH 1. intros [|a [|b [|c src]]]; [exact H0|apply H1|apply H2|]. apply H3, IH.
Qed.

Lemma base64_pad_SSS n : base64_pad (S (S (S n))) = base64_pad n.
Proof.
  unfold base64_pad. replace (S (S (S n))) with (n + 1 * 3) by lia. by rewrite Nat.Div0.mod_add.
Qed.

Lemma shiftl_land_0 a k : Z.lor (Z.shiftl (Z.land a k) 4) 0 = Z.shiftl (Z.land a k) 4.
Proof. apply Z.lor_0_r. Qed.

Lemma base64_encode_loop_puts src w : base64_encode_loop src w = puts w (base64_text src).
Proof.
  unfold base64_text. revert w. induction src as [|a|a b|a b c src IH] using triples_ind; intros w.
  - done.
  - cbn [base64_content base64_encode_loop app length]. change (base64_pad 1) with 2.
    cbn [replicate puts]. change (s1 a 0) with (Z.lor (Z.shiftl (Z.land a 0x03) 4) 0).
    rewrite Z.lor_0_r. change (s0 a) with (Z.shiftr a 2).
    do 3 (destruct (put _ _); [|done]; cbn [mbind option_bind]). by destruct (put _ _).
  - cbn [base64_content base64_encode_loop app length]. change (base64_pad 2) with 1.
    cbn [replicate puts]. change (s2 b 0) with (Z.lor (Z.shiftl (Z.land b 0x0F) 2) 0).
    rewrite Z.lor_0_r. unfold s0, s1.
    do 3 (destruct (put _ _); [|done]; cbn [mbind option_bind]). by destruct (put _ _).
  - cbn [base64_content base64_encode_loop length]. rewrite base64_pad_SSS, <- app_assoc, puts_app.
    cbn [puts]. unfold s0, s1, s2, s3.
    do 4 (destruct (put _ _); [|done]; cbn [mbind option_bind]). apply IH.
Qed.

(** ** Decoding the text *)

Definition url_safe (c : Z) : Z := if (c =? 43)%Z then 45%Z else if (c =? 47)%Z then 95%Z else c.

Lemma alpha_val i : (0 <= i < 64)%Z ->
  base64_val (alpha i) = i /\ base64_val (url_safe (alpha i)) = i /\
  alpha i <> 61%Z /\ url_safe (alpha i) <> 61%Z.
Proof.
  intros Hi. pose proof (range_exhaust 64 (fun i =>
    (base64_val (alpha i) =? i)%Z && (base64_val (url_safe (alpha i)) =? i)%Z &&
    negb (alpha i =? 61)%Z && negb (url_safe (alpha i) =? 61)%Z) ltac:(vm_compute; reflexivity) i Hi) as H.
  rewrite !andb_true_iff, !negb_true_iff, !Z.eqb_eq, !Z.eqb_neq in H. tauto.
Qed.

Lemma nibbles a :
  byte_ok a ->
  ((0 <= s0 a < 64) /\ (0 <= Z.land a 0x03 < 4) /\ (0 <= Z.land (Z.shiftr a 4) 0x0F < 16) /\
   (0 <= Z.land a 0x0F < 16) /\ (0 <= Z.land (Z.shiftr a 6) 0x03 < 4) /\ (0 <= s3 a < 64) /\
   u8 (Z.lor (Z.shiftl (s0 a) 2) (Z.land a 0x03)) = a /\
   u8 (Z.lor (Z.shiftl (Z.land (Z.shiftr a 4) 0x0F) 4) (Z.land a 0x0F)) = a /\
   u8 (Z.lor (Z.shiftl (Z.land (Z.shiftr a 6) 0x03) 6) (s3 a)) = a)%Z.
Proof.
  intros Ha. pose proof (byte_exhaust (fun a =>
    (0 <=? s0 a) && (s0 a <? 64) && (0 <=? Z.land a 0x03) && (Z.land a 0x03 <? 4) &&
    (0 <=? Z.land (Z.shiftr a 4) 0x0F) && (Z.land (Z.shiftr a 4) 0x0F <? 16) &&
    (0 <=? Z.land a 0x0F) && (Z.land a 0x0F <? 16) &&
    (0 <=? Z.land (Z.shiftr a 6) 0x03) && (Z.land (Z.shiftr a 6) 0x03 <? 4) &&
    (0 <=? s3 a) && (s3 a <? 64) &&
    (u8 (Z.lor (Z.shiftl (s0 a) 2) (Z.land a 0x03)) =? a) &&
    (u8 (Z.lor (Z.shiftl (Z.land (Z.shiftr a 4) 0x0F) 4) (Z.land a 0x0F)) =? a) &&
    (u8 (Z.lor (Z.shiftl (Z.land (Z.shiftr a 6) 0x03) 6) (s3 a)) =? a))%Z
    ltac:(vm_compute; reflexivity) a Ha) as H.
  rewrite !andb_true_iff, !Z.leb_le, !Z.ltb_lt, !Z.eqb_eq in H. lia.
Qed.

(** The second and third sextets take apart into the bits they join. *)
Lemma s1_parts a b :
  byte_ok a -> byte_ok b ->
  (0 <= s1 a b < 64 /\ Z.shiftr (s1 a b) 4 = Z.land a 0x03 /\
   Z.land (s1 a b) 0x0F = Z.land (Z.shiftr b 4) 0x0F)%Z.
Proof.
  intros Ha Hb. unfold s1. destruct (nibbles a Ha) as (_ & H1 & _). destruct (nibbles b Hb) as (_ & _ & H2 & _).
  pose proof (range_exhaust2 4 16 (fun x y =>
    (0 <=? Z.lor (Z.shiftl x 4) y) && (Z.lor (Z.shiftl x 4) y <? 64) &&
    (Z.shiftr (Z.lor (Z.shiftl x 4) y) 4 =? x) && (Z.land (Z.lor (Z.shiftl x 4) y) 0x0F =? y))%Z
    ltac:(vm_compute; reflexivity) _ _ H1 H2) as H.
  rewrite !andb_true_iff, !Z.leb_le, !Z.ltb_lt, !Z.eqb_eq in H. tauto.
Qed.

Lemma s2_parts b c :
  byte_ok b -> byte_ok c ->
  (0 <= s2 b c < 64 /\ Z.shiftr (s2 b c) 2 = Z.land b 0x0F /\
   Z.land (s2 b c) 0x03 = Z.land (Z.shiftr c 6) 0x03)%Z.
Proof.
  intros Hb Hc. unfold s2. destruct (nibbles b Hb) as (_ & _ & _ & H1 & _).
  destruct (nibbles c Hc) as (_ & _ & _ & _ & H2 & _).
  pose proof (range_exhaust2 16 4 (fun x y =>
    (0 <=? Z.lor (Z.shiftl x 2) y) && (Z.lor (Z.shiftl x 2) y <? 64) &&
    (Z.shiftr (Z.lor (Z.shiftl x 2) y) 2 =? x) && (Z.land (Z.lor (Z.shiftl x 2) y) 0x03 =? y))%Z
    ltac:(vm_compute; reflexivity) _ _ H1 H2) as H.
  rewrite !andb_true_iff, !Z.leb_le, !Z.ltb_lt, !Z.eqb_eq in H. tauto.
Qed.

(** One round gives back the bytes of a group. *)
Lemma base64_emit_3 need w a b c :
  byte_ok a -> byte_ok b -> byte_ok c -> (Z.of_nat w.2 + 3 <= need)%Z ->
  base64_emit need w (s0 a) (s1 a b) (s2 b c) (s3 c) = puts w [a; b; c].
Proof.
  intros Ha Hb Hc Hn. unfold base64_emit. destruct (s1_parts a b Ha Hb) as (_ & -> & ->).
  destruct (s2_parts b c Hb Hc) as (_ & -> & ->).
  destruct (nibbles a Ha) as (_ & _ & _ & _ & _ & _ & -> & _ & _).
  destruct (nibbles b Hb) as (_ & _ & _ & _ & _ & _ & _ & -> & _).
  destruct (nibbles c Hc) as (_ & _ & _ & _ & _ & _ & _ & _ & ->).
  destruct w as [d out]. cbn [snd puts] in *. unfold put. cbn [fst snd].
  destruct (mem_set d out a) as [d1|]; [|done]. cbn [mbind option_bind fst snd].
  destruct (Z.ltb_spec (Z.of_nat (S out)) need); [|lia]. cbn [mbind option_bind fst snd].
  destruct (mem_set d1 (S out) b) as [d2|]; [|done]. cbn [mbind option_bind fst snd].
  destruct (Z.ltb_spec (Z.of_nat (S (S out))) need); [|lia].
  by destruct (mem_set d2 (S (S out)) c).
Qed.

Lemma base64_emit_1 w a :
  byte_ok a -> base64_emit (Z.of_nat (S w.2)) w (s0 a) (s1 a 0) 0 0 = puts w [a].
Proof.
  intros Ha. unfold base64_emit. destruct (s1_parts a 0 Ha) as (_ & -> & _); [unfold byte_ok; lia|].
  destruct (nibbles a Ha) as (_ & _ & _ & _ & _ & _ & -> & _ & _).
  destruct w as [d out]. cbn [snd puts]. unfold put. cbn [fst snd].
  destruct (mem_set d out a) as [d1|]; [|done]. cbn [mbind option_bind fst snd].
  rewrite Z.ltb_irrefl. cbn [mbind option_bind fst snd]. by rewrite Z.ltb_irrefl.
Qed.

Lemma base64_emit_2 w a b :
  byte_ok a -> byte_ok b -> base64_emit (Z.of_nat (S (S w.2))) w (s0 a) (s1 a b) (s2 b 0) 0 = puts w [a; b].
Proof.
  intros Ha Hb. unfold base64_emit. destruct (s1_parts a b Ha Hb) as (_ & -> & ->).
  destruct (s2_parts b 0 Hb) as (_ & -> & _); [unfold byte_ok; lia|].
  destruct (nibbles a Ha) as (_ & _ & _ & _ & _ & _ & -> & _ & _).
  destruct (nibbles b Hb) as (_ & _ & _ & _ & _ & _ & _ & -> & _).
  destruct w as [d out]. cbn [snd puts]. unfold put. cbn [fst snd].
  destruct (mem_set d out a) as [d1|]; [|done]. cbn [mbind option_bind fst snd].
  destruct (Z.ltb_spec (Z.of_nat (S out)) (Z.of_nat (S (S out)))); [|lia]. cbn [mbind option_bind fst snd].
  destruct (mem_set d1 (S out) b) as [d2|]; [|done]. cbn [mbind option_bind fst snd].
  by rewrite Z.ltb_irrefl.
Qed.

(** The spellings of the content characters the decoder takes. *)
Definition spelling (f : Z -> Z) : Prop := f = id \/ f = url_safe.

Lemma spelling_val f i : spelling f -> (0 <= i < 64)%Z ->
  base64_val (f (alpha i)) = i /\ f (alpha i) <> 61%Z.
Proof. intros [-> | ->] Hi; destruct (alpha_val i Hi) as (? & ? & ? & ?); done. Qed.

Lemma puts_cursor w cs w' : puts w cs = Some w' -> w'.2 = w.2 + length cs.
Proof.
  revert w. induction cs as [|c cs IH]; intros w; cbn [puts length].
  - intros [= <-]. lia.
  - unfold put. destruct (mem_set _ _ _); [|done]. cbn [mbind option_bind].
    intros H. apply IH in H. cbn [snd] in H. lia.
Qed.

Lemma base64_decode_content f src w :
  spelling f -> bytes_ok src ->
  base64_decode_loop (f <$> base64_content src) (Z.of_nat (w.2 + length src)) w = puts w src.
Proof.
  intros Hf. revert w. induction src as [|a|a b|a b c src IH] using triples_ind; intros w Hs.
  - done.
  - apply Forall_cons in Hs as [Ha _]. cbn [base64_content fmap list_fmap base64_decode_loop length].
    destruct (nibbles a Ha) as (H0 & _). destruct (s1_parts a 0 Ha) as (H1 & _); [unfold byte_ok; lia|].
    destruct (spelling_val f _ Hf H0) as [-> _]. destruct (spelling_val f _ Hf H1) as [-> _].
    rewrite Nat.add_1_r. by apply base64_emit_1.
  - apply Forall_cons in Hs as [Ha Hs]. apply Forall_cons in Hs as [Hb _].
    cbn [base64_content fmap list_fmap base64_decode_loop length].
    destruct (nibbles a Ha) as (H0 & _). destruct (s1_parts a b Ha Hb) as (H1 & _).
    destruct (s2_parts b 0 Hb) as (H2 & _); [unfold byte_ok; lia|].
    destruct (spelling_val f _ Hf H0) as [-> _]. destruct (spelling_val f _ Hf H1) as [-> _].
    destruct (spelling_val f _ Hf H2) as [-> _].
    replace (w.2 + 2) with (S (S w.2)) by lia. by apply base64_emit_2.
  - apply Forall_cons in Hs as [Ha Hs]. apply Forall_cons in Hs as [Hb Hs].
    apply Forall_cons in Hs as [Hc Hs].
    cbn [base64_content app fmap list_fmap base64_decode_loop length].
    destruct (nibbles a Ha) as (H0 & _). destruct (s1_parts a b Ha Hb) as (H1 & _).
    destruct (s2_parts b c Hb Hc) as (H2 & _). destruct (nibbles c Hc) as (_ & _ & _ & _ & _ & H3 & _).
    destruct (spelling_val f _ Hf H0) as [-> _]. destruct (spelling_val f _ Hf H1) as [-> _].
    destruct (spelling_val f _ Hf H2) as [-> _]. destruct (spelling_val f _ Hf H3) as [-> _].
    rewrite base64_emit_3 by (done || lia).
    change (a :: b :: c :: src) with ([a; b; c] ++ src). rewrite puts_app.
    destruct (puts w [a; b; c]) as [w'|] eqn:E; [|done]. cbn [mbind option_bind].
    apply puts_cursor in E. cbn [length] in E. rewrite <- IH by done.
    f_equal. lia.
Qed.

Lemma base64_content_valid f src c :
  spelling f -> bytes_ok src -> c ∈ f <$> base64_content src -> (0 <= base64_val c)%Z /\ c <> 61%Z.
Proof.
  intros Hf Hs Hc. apply list_elem_of_fmap in Hc as (x & -> & Hx).
  assert (exists i, (0 <= i < 64)%Z /\ x = alpha i) as (i & Hi & ->).
  { induction src as [|a|a b|a b c' src IH] using triples_ind; cbn [base64_content] in Hx.
    - by apply not_elem_of_nil in Hx.
    - apply Forall_cons in Hs as [Ha _]. destruct (nibbles a Ha) as (H0 & _).
      destruct (s1_parts a 0 Ha) as (H1 & _); [unfold byte_ok; lia|].
      repeat (apply elem_of_cons in Hx as [->|Hx]; [by eexists; split; [|reflexivity]|]). by apply not_elem_of_nil in Hx.
    - apply Forall_cons in Hs as [Ha Hs]. apply Forall_cons in Hs as [Hb _].
      destruct (nibbles a Ha) as (H0 & _). destruct (s1_parts a b Ha Hb) as (H1 & _).
      destruct (s2_parts b 0 Hb) as (H2 & _); [unfold byte_ok; lia|].
      repeat (apply elem_of_cons in Hx as [->|Hx]; [by eexists; split; [|reflexivity]|]). by apply not_elem_of_nil in Hx.
    - apply Forall_cons in Hs as [Ha Hs]. apply Forall_cons in Hs as [Hb Hs].
      apply Forall_cons in Hs as [Hc Hs].
      destruct (nibbles a Ha) as (H0 & _). destruct (s1_parts a b Ha Hb) as (H1 & _).
      destruct (s2_parts b c' Hb Hc) as (H2 & _). destruct (nibbles c' Hc) as (_ & _ & _ & _ & _ & H3 & _).
      apply elem_of_app in Hx as [Hx|Hx]; [|by apply IH].
      repeat (apply elem_of_cons in Hx as [->|Hx]; [by eexists; split; [|reflexivity]|]). by apply not_elem_of_nil in Hx. }
  destruct (spelling_val f i Hf Hi) as [-> ?]. split; [lia|done].
Qed.

Lemma base64_validate_pad p g n :
  base64_validate (replicate p 61%Z) g n = Some (n + Z.of_nat p)%Z.
Proof.
  revert g n. induction p as [|p IH]; intros g n; cbn [replicate base64_validate].
  - f_equal. lia.
  - rewrite Z.eqb_refl, IH. f_equal. lia.
Qed.

Lemma base64_validate_text cs p :
  (forall c, c ∈ cs -> (0 <= base64_val c)%Z /\ c <> 61%Z) ->
  base64_validate (cs ++ replicate p 61%Z) false 0 = Some (Z.of_nat p).
Proof.
  induction cs as [|c cs IH]; intros H; cbn [app base64_validate].
  - by rewrite base64_validate_pad.
  - destruct (H c) as [H1 H2]; [by left|]. destruct (Z.eqb_spec c 61); [done|].
    destruct (Z.ltb_spec (base64_val c) 0); [lia|]. apply IH. intros c' Hc'. apply H. by right.
Qed.

(** The lengths of content and padding in terms of the groups. *)
Lemma base64_lengths src :
  exists q r, length src = 3 * q + r /\ r < 3 /\
    length (base64_content src) = 4 * q + (match r with 0 => 0 | 1 => 2 | _ => 3 end) /\
    base64_pad (length src) = match r with 0 => 0 | 1 => 2 | _ => 1 end.
Proof.
  induction src as [|a|a b|a b c src IH] using triples_ind.
  - exists 0, 0. split_and!; try done; lia.
  - exists 0, 1. split_and!; try done; simpl; lia.
  - exists 0, 2. split_and!; try done; simpl; lia.
  - destruct IH as (q & r & H1 & H2 & H3 & H4). exists (S q), r.
    cbn [length base64_content]. rewrite base64_pad_SSS, length_app. cbn [length].
    split_and!; try done; lia.
Qed.

Lemma xBase64Encode_spec src dst :
  (Z.of_nat (length src) < 2 ^ 60)%Z -> length (base64_text src) + 1 <= length dst ->
  xBase64Encode src dst (Z.of_nat (length dst)) =
    Some (CodecOk (block_with dst (base64_text src ++ [0%Z])) (Z.of_nat (length (base64_text src)))).
Proof.
  intros Hb Hd. unfold xBase64Encode.
  assert (length (base64_text src) = length (base64_content src) + base64_pad (length src)) as Hl.
  { unfold base64_text. by rewrite length_app, length_replicate. }
  destruct (base64_lengths src) as (q & r & H1 & H2 & H3 & H4).
  assert (u64 (u64 (u64 (Z.of_nat (length src) + 2) / 3 * 4) + 1) = Z.of_nat (length (base64_text src)) + 1)%Z as ->.
  { unfold u64. rewrite (Z.mod_small (Z.of_nat _ + 2)) by lia.
    assert ((Z.of_nat (length src) + 2) / 3 * 4 = Z.of_nat (length (base64_text src)))%Z as ->.
    { rewrite Hl, H3, H4, H1. destruct r as [|[|[|]]]; try lia; Z.to_euclidean_division_equations; lia. }
    assert (length (base64_text src) <= 2 * length src + 4) by (rewrite Hl, H3, H4; destruct r as [|[|[|]]]; lia).
    rewrite (Z.mod_small (Z.of_nat _)) by lia. apply Z.mod_small. lia. }
  destruct (Z.ltb_spec (Z.of_nat (length dst)) (Z.of_nat (length (base64_text src)) + 1)); [lia|].
  case_decide as E.
  { apply nil_length_inv in E as ->. cbn in Hd. rewrite mem_set_Some by lia. cbn [mbind option_bind].
    destruct dst as [|x dst]; [simpl in Hd; lia|]. done. }
  rewrite base64_encode_loop_puts.
  destruct (puts_nul dst (base64_text src)) as (d & -> & Hd'); [lia|].
  cbn [mbind option_bind]. by rewrite Hd'.
Qed.

Lemma xBase64Decode_spec f p src dst :
  spelling f -> p <= 2 -> bytes_ok src -> (Z.of_nat (length src) < 2 ^ 60)%Z ->
  src <> [] \/ p = 0 -> length src <= length dst ->
  xBase64Decode ((f <$> base64_content src) ++ replicate p 61%Z) dst (Z.of_nat (length dst)) =
    Some (CodecOk (block_with dst src) (Z.of_nat (length src))).
Proof.
  intros Hf Hp Hs Hb Hne Hd. unfold xBase64Decode. destruct (base64_lengths src) as (q & r & H1 & H2 & H3 & _).
  assert (length ((f <$> base64_content src) ++ replicate p 61%Z) = length (base64_content src) + p) as Hl.
  { by rewrite length_app, length_fmap, length_replicate. }
  rewrite Hl. case_decide as E.
  { assert (length src = 0) as E0 by (destruct r as [|[|[|]]]; lia).
    apply nil_length_inv in E0 as ->. cbn. by rewrite drop_0. }
  rewrite base64_validate_text by (intros c Hc; by eapply base64_content_valid).
  destruct (Z.ltb_spec 2 (Z.of_nat p)); [lia|].
  assert (u64 (Z.of_nat (length (base64_content src) + p) - Z.of_nat p) =
    Z.of_nat (length (base64_content src)))%Z as ->.
  { unfold u64. rewrite Z.mod_small; destruct r as [|[|[|]]]; lia. }
  assert (u64 (Z.of_nat (length (base64_content src)) * 3) = Z.of_nat (length (base64_content src)) * 3)%Z as ->.
  { unfold u64. rewrite Z.mod_small; destruct r as [|[|[|]]]; lia. }
  assert (Z.of_nat (length (base64_content src)) * 3 / 4 = Z.of_nat (length src))%Z as ->.
  { rewrite H3, H1. destruct r as [|[|[|]]]; try lia; Z.to_euclidean_division_equations; lia. }
  assert ((Z.of_nat (length (base64_content src)) mod 4 =? 1)%Z = false) as ->.
  { apply Z.eqb_neq. rewrite H3. destruct r as [|[|[|]]]; try lia; Z.to_euclidean_division_equations; lia. }
  destruct (Z.ltb_spec (Z.of_nat (length dst)) (Z.of_nat (length src))); [lia|].
  rewrite Nat2Z.id, take_app_le by (rewrite length_fmap; lia).
  rewrite firstn_all2 by (rewrite length_fmap; lia).
  pose proof (base64_decode_content f src (dst, 0) Hf Hs) as Hdec. cbn [snd Nat.add] in Hdec. rewrite Hdec.
  by rewrite puts_block.
Qed.

(** Encoding writes the padded standard-alphabet text and a NUL inside any
    destination that has room for them; decoding gives the bytes back, from
    the standard and from the URL-safe alphabet, with all, part or none of the
    padding. *)
Theorem base64_roundtrip src dst dst' f p :
  bytes_ok src -> src <> [] -> (Z.of_nat (length src) < 2 ^ 60)%Z -> spelling f -> p <= 2 ->
  length (base64_text src) + 1 <= length dst -> length src <= length dst' ->
  xBase64Encode src dst (Z.of_nat (length dst)) =
    Some (CodecOk (block_with dst (base64_text src ++ [0%Z])) (Z.of_nat (length (base64_text src)))) /\
  base64_text src = base64_content src ++ replicate (base64_pad (length src)) 61%Z /\
  xBase64Decode ((f <$> base64_content src) ++ replicate p 61%Z) dst' (Z.of_nat (length dst')) =
    Some (CodecOk (block_with dst' src) (Z.of_nat (length src))).
Proof.
  intros Hs Hne Hb Hf Hp Hd Hd'. split; [by apply xBase64Encode_spec|]. split; [done|].
  apply xBase64Decode_spec; auto.
Qed.

Lemma base64_roundtrip_witness :
  xBase64Encode [251; 240]%Z (replicate 5 7%Z) 5 = Some (CodecOk [43; 47; 65; 61; 0]%Z 4) /\
  xBase64Decode [45; 95; 65; 61]%Z (replicate 2 7%Z) 2 = Some (CodecOk [251; 240]%Z 2).
Proof.
  destruct (base64_roundtrip [251; 240]%Z (replicate 5 7%Z) (replicate 2 7%Z) url_safe 1) as (H1 & _ & H2).
  - repeat constructor; lia.
  - done.
  - simpl. lia.
  - by right.
  - lia.
  - cbn. lia.
  - simpl. lia.
  - split; [exact H1|exact H2].
Defined.
