(* ===== verification/Base58.v ===== *)
(** * Base58: the Bitcoin base-58 encoding ([libx/x/base/base58.c])

    The scratch buffer is a most-significant-first list of digits that every
    input character multiplies and adds into.  The code sizes it by the
    rationals 138/100 and 733/1000; [pow_bound] shows they are large enough, so
    the carry that falls off the front is always zero. *)

From S2P Require Import Prelude.

Local Open Scope Z_scope.

(** "123456789ABC..." *)
Definition kAlphabet : list Z :=
  seqZ 49 9 ++ seqZ 65 8 ++ seqZ 74 5 ++ seqZ 80 11 ++ seqZ 97 11 ++ seqZ 109 14.

Definition alpha (i : Z) : Z := nth (Z.to_nat i) kAlphabet 0.

(** The reverse table. *)
Definition kAlphabetMap : list Z :=
  replicate 49 (-1) ++ seqZ 0 9 ++ replicate 7 (-1) ++ seqZ 9 8 ++ [-1] ++ seqZ 17 5 ++ [-1] ++
  seqZ 22 11 ++ replicate 6 (-1) ++ seqZ 33 11 ++ [-1] ++ seqZ 44 14 ++ replicate 5 (-1).

(** One pass over the scratch buffer: from its end, [carry += mul * buf[j-1];
    buf[j-1] = carry % base; carry /= base]. *)
Fixpoint mul_add (mul base : Z) (buf : list Z) (carry : Z) : Z * list Z :=
  match buf with
  | [] => (carry, [])
  | d :: buf =>
      let r := mul_add mul base buf carry in
      let carry := r.1 + mul * d in
      (carry / base, u8 (carry mod base) :: r.2)
  end.

Fixpoint skip_eq (x : Z) (l : list Z) : nat :=
  match l with
  | [] => 0
  | y :: l => if y =? x then S (skip_eq x l) else 0
  end.

Fixpoint encode_digits (src buf : list Z) : list Z :=
  match src with
  | [] => buf
  | b :: src => encode_digits src (mul_add 256 58 buf b).2
  end.

Definition xBase58Encode (alloc : oracle) (src dst : list Z) (dst_len : Z) : ub codec_result :=
  if decide (length src = 0%nat) then
    if dst_len <? 1 then Some CodecErr
    else d ← mem_set dst 0 0; Some (CodecOk d 0)
  else
    let zeros := skip_eq 0 src in
    let buf_size := u64 (u64 (Z.of_nat (length src) * 138) / 100 + 1) in
    if negb (alloc buf_size) then Some CodecErr
    else
      let buf := encode_digits (drop zeros src) (replicate (Z.to_nat buf_size) 0) in
      let start := skip_eq 0 buf in
      let encoded_len := u64 (Z.of_nat zeros + (buf_size - Z.of_nat start)) in
      if dst_len <? u64 (encoded_len + 1) then Some CodecErr
      else
        w ← puts (dst, 0%nat) (replicate zeros 49);
        '(d, _) ← puts w (alpha <$> drop start buf);
        d ← mem_set d (Z.to_nat encoded_len) 0;
        Some (CodecOk d encoded_len).

(** The digits of [src] folded into [buf]; [None] on an invalid character. *)
Fixpoint decode_digits (src buf : list Z) : option (list Z) :=
  match src with
  | [] => Some buf
  | ch :: src =>
      if (128 <=? ch) || (nth (Z.to_nat ch) kAlphabetMap (-1) =? -1) then None
      else decode_digits src (mul_add 58 256 buf (nth (Z.to_nat ch) kAlphabetMap (-1))).2
  end.

Definition xBase58Decode (alloc : oracle) (src dst : list Z) (dst_len : Z) : ub codec_result :=
  if decide (length src = 0%nat) then Some (CodecOk dst 0)
  else
    let zeros := skip_eq 49 src in
    let buf_size := u64 (u64 (Z.of_nat (length src) * 733) / 1000 + 1) in
    if negb (alloc buf_size) then Some CodecErr
    else
      match decode_digits (drop zeros src) (replicate (Z.to_nat buf_size) 0) with
      | None => Some CodecErr
      | Some buf =>
          let start := skip_eq 0 buf in
          let decoded_len := u64 (Z.of_nat zeros + (buf_size - Z.of_nat start)) in
          if dst_len <? decoded_len then Some CodecErr
          else
            d ← mem_write dst 0 (replicate zeros 0);
            d ← mem_write d zeros (drop start buf);
            Some (CodecOk d decoded_len)
      end.

(** ** Numbers in a base *)

Definition digits_ok (base : Z) (l : list Z) : Prop := Forall (fun d => 0 <= d < base) l.

Fixpoint value (base : Z) (l : list Z) : Z :=
  match l with
  | [] => 0
  | d :: l => d * base ^ Z.of_nat (length l) + value base l
  end.

Lemma value_range base l : 0 < base -> digits_ok base l -> 0 <= value base l < base ^ Z.of_nat (length l).
Proof.
  intros Hb. induction 1 as [|d l Hd _ IH]; cbn [value length]; [lia|].
  rewrite Nat2Z.inj_succ, Z.pow_succ_r by lia. nia.
Qed.

Lemma value_app base l1 l2 : value base (l1 ++ l2) = value base l1 * base ^ Z.of_nat (length l2) + value base l2.
Proof.
  induction l1 as [|d l1 IH]; cbn [app value]; [lia|]. rewrite IH, length_app, Nat2Z.inj_add, Z.pow_add_r by lia.
  ring.
Qed.

Lemma value_zeros base n l : value base (replicate n 0 ++ l) = value base l.
Proof. induction n as [|n IH]; cbn [replicate app value]; [done|]. by rewrite IH. Qed.

(** Without leading zeros the digits are determined by the value. *)
Definition no_leading_zero (l : list Z) : Prop := forall d l', l = d :: l' -> d <> 0.

Lemma value_length_le base l1 l2 :
  1 < base -> digits_ok base l1 -> digits_ok base l2 -> no_leading_zero l1 ->
  value base l1 = value base l2 -> (length l1 <= length l2)%nat.
Proof.
  intros Hb H1 H2 N E. destruct l1 as [|d l1]; [simpl; lia|].
  destruct (le_lt_dec (length (d :: l1)) (length l2)) as [|Hlt]; [done|exfalso].
  apply Forall_cons in H1 as [Hd H1]. specialize (N d l1 eq_refl).
  pose proof (value_range base l1 ltac:(lia) H1). pose proof (value_range base l2 ltac:(lia) H2).
  cbn [value] in E. assert (base ^ Z.of_nat (length l2) <= base ^ Z.of_nat (length l1)).
  { apply Z.pow_le_mono_r; simpl in Hlt; lia. }
  assert (0 < base ^ Z.of_nat (length l1)) by (apply Z.pow_pos_nonneg; lia). nia.
Qed.

Lemma value_inj_length base l1 l2 :
  0 < base -> digits_ok base l1 -> digits_ok base l2 -> length l1 = length l2 ->
  value base l1 = value base l2 -> l1 = l2.
Proof.
  intros Hb. revert l2. induction l1 as [|d1 l1 IH]; intros [|d2 l2] H1 H2 Hl E; try done.
  apply Forall_cons in H1 as [Hd1 H1]. apply Forall_cons in H2 as [Hd2 H2].
  injection Hl as Hl. cbn [value] in E. rewrite Hl in E.
  pose proof (value_range base l1 Hb H1) as R1. pose proof (value_range base l2 Hb H2) as R2.
  rewrite Hl in R1. assert (d1 = d2) as -> by nia. f_equal. apply IH; try done. lia.
Qed.

Lemma value_inj base l1 l2 :
  1 < base -> digits_ok base l1 -> digits_ok base l2 -> no_leading_zero l1 -> no_leading_zero l2 ->
  value base l1 = value base l2 -> l1 = l2.
Proof.
  intros Hb H1 H2 N1 N2 E. apply (value_inj_length base); try done; [lia|].
  pose proof (value_length_le base l1 l2 Hb H1 H2 N1 E).
  pose proof (value_length_le base l2 l1 Hb H2 H1 N2 (eq_sym E)). lia.
Qed.

(** ** Skipping a prefix *)

Lemma skip_eq_split x l :
  l = replicate (skip_eq x l) x ++ drop (skip_eq x l) l /\
  (forall y l', drop (skip_eq x l) l = y :: l' -> y <> x) /\ (skip_eq x l <= length l)%nat.
Proof.
  induction l as [|y l (IH1 & IH2 & IH3)]; cbn [skip_eq length]; [done|].
  destruct (Z.eqb_spec y x) as [->|Hne]; cbn [replicate app drop].
  - split; [by f_equal|]. split; [done|lia].
  - split; [done|]. split; [by intros ? ? [= -> _]|lia].
Qed.

Lemma skip_eq_app x n l : (forall y l', l = y :: l' -> y <> x) -> skip_eq x (replicate n x ++ l) = n.
Proof.
  intros H. induction n as [|n IH]; cbn [replicate app skip_eq].
  - destruct l as [|y l]; [done|]. cbn [skip_eq]. destruct (Z.eqb_spec y x); [|done]. by destruct (H y l).
  - by rewrite Z.eqb_refl, IH.
Qed.

(** ** The scratch buffer *)

Lemma mul_add_spec mul base buf carry :
  0 <= mul -> 0 < base <= 256 -> digits_ok base buf -> 0 <= carry ->
  let r := mul_add mul base buf carry in
  length r.2 = length buf /\ digits_ok base r.2 /\ 0 <= r.1 /\
  value base r.2 + r.1 * base ^ Z.of_nat (length buf) = value base buf * mul + carry.
Proof.
  intros Hm Hb. induction 1 as [|d buf Hd _ IH]; intros Hc; cbn [mul_add value length].
  { cbn. split_and!; try done; try constructor; lia. }
  destruct (IH Hc) as (Hl & Hok & H0 & E). set (r := mul_add mul base buf carry) in *. cbn [fst snd].
  assert (0 <= r.1 + mul * d) by nia.
  pose proof (Z.mod_pos_bound (r.1 + mul * d) base ltac:(lia)).
  assert (u8 ((r.1 + mul * d) mod base) = (r.1 + mul * d) mod base) as -> by (apply Z.mod_small; lia).
  split; [cbn; lia|]. split; [by constructor|]. split; [apply Z.div_pos; lia|].
  cbn [value]. rewrite Hl, Nat2Z.inj_succ, Z.pow_succ_r by lia.
  pose proof (Z.div_mod (r.1 + mul * d) base ltac:(lia)) as Hdm.
  set (P := base ^ Z.of_nat (length buf)) in *. set (q := (r.1 + mul * d) / base) in *.
  set (m := (r.1 + mul * d) mod base) in *.
  transitivity (value base r.2 + (base * q + m) * P); [ring|]. rewrite <- Hdm.
  transitivity (value base r.2 + r.1 * P + mul * d * P); [ring|]. rewrite E. ring.
Qed.

(** When the result fits, nothing is carried out of the buffer. *)
Lemma mul_add_fits mul base buf carry :
  0 <= mul -> 0 < base <= 256 -> digits_ok base buf -> 0 <= carry ->
  value base buf * mul + carry < base ^ Z.of_nat (length buf) ->
  let r := (mul_add mul base buf carry).2 in
  length r = length buf /\ digits_ok base r /\ value base r = value base buf * mul + carry.
Proof.
  intros Hm Hb Hok Hc Hf. destruct (mul_add_spec mul base buf carry Hm Hb Hok Hc) as (Hl & Hok' & H0 & E).
  cbv zeta. split; [done|]. split; [done|].
  pose proof (value_range base _ ltac:(lia) Hok') as R.
  assert (0 < base ^ Z.of_nat (length buf)) by (apply Z.pow_pos_nonneg; lia).
  assert ((mul_add mul base buf carry).1 = 0) as E0 by nia. rewrite E0 in E. lia.
Qed.

(** Folding digits of base [mul] into a buffer of base [base]. *)
Fixpoint fold_digits (mul base : Z) (src buf : list Z) : list Z :=
  match src with
  | [] => buf
  | b :: src => fold_digits mul base src (mul_add mul base buf b).2
  end.

Lemma fold_digits_spec mul base src buf :
  0 < mul -> 0 < base <= 256 -> digits_ok mul src -> digits_ok base buf ->
  value base buf * mul ^ Z.of_nat (length src) + value mul src < base ^ Z.of_nat (length buf) ->
  let r := fold_digits mul base src buf in
  length r = length buf /\ digits_ok base r /\
  value base r = value base buf * mul ^ Z.of_nat (length src) + value mul src.
Proof.
  intros Hm Hb Hs. revert buf. induction Hs as [|b src Hb0 Hs IH]; intros buf Hok Hf; cbn [fold_digits value length] in *.
  { split_and!; try done. lia. }
  pose proof (value_range mul src Hm Hs) as Rs. pose proof (value_range base buf ltac:(lia) Hok) as Rb.
  assert (0 < mul ^ Z.of_nat (length src)) by (apply Z.pow_pos_nonneg; lia).
  rewrite Nat2Z.inj_succ, Z.pow_succ_r in Hf |- * by lia.
  destruct (mul_add_fits mul base buf b) as (Hl & Hok' & E); [lia|lia|done|lia|nia|].
  destruct (IH _ Hok') as (Hl2 & Hok2 & E2).
  - rewrite Hl, E. nia.
  - split; [by rewrite Hl2|]. split; [done|]. rewrite E2, E. ring.
Qed.

(** [a^n <= b^(n q / p + 1)] when [a^p <= b^q]. *)
Lemma pow_bound a b p q n :
  0 < a -> 1 < b -> 0 < p -> 0 <= q -> 0 <= n -> a ^ p <= b ^ q -> a ^ n <= b ^ (n * q / p + 1).
Proof.
  intros Ha Hb Hp Hq Hn H. set (k := n * q / p + 1).
  assert (n * q < k * p) as Hk.
  { unfold k. pose proof (Z.div_mod (n * q) p ltac:(lia)). pose proof (Z.mod_pos_bound (n * q) p Hp). nia. }
  assert (0 <= k) by (unfold k; assert (0 <= n * q / p) by (apply Z.div_pos; lia); lia).
  apply (Z.pow_le_mono_l_iff _ _ p); [apply Z.pow_nonneg; lia|apply Z.pow_nonneg; lia|done|].
  rewrite <- !Z.pow_mul_r by lia. transitivity (b ^ (q * n)).
  - rewrite (Z.mul_comm n p), Z.pow_mul_r by lia. rewrite Z.pow_mul_r by lia.
    apply Z.pow_le_mono_l. split; [apply Z.pow_nonneg; lia|done].
  - apply Z.pow_le_mono_r; lia.
Qed.

Lemma encode_bound n : 0 <= n -> 256 ^ n <= 58 ^ (n * 138 / 100 + 1).
Proof. intros. apply pow_bound; lia. Qed.

Lemma decode_bound n : 0 <= n -> 58 ^ n <= 256 ^ (n * 733 / 1000 + 1).
Proof. intros. apply pow_bound; lia. Qed.

(** ** The text of an encoding *)

Lemma encode_digits_fold src buf : encode_digits src buf = fold_digits 256 58 src buf.
Proof. revert buf. induction src as [|b src IH]; intros buf; [done|]. apply IH. Qed.

Lemma alpha_spec i : 0 <= i < 58 ->
  alpha i < 128 /\ nth (Z.to_nat (alpha i)) kAlphabetMap (-1) = i /\ (alpha i = 49 -> i = 0).
Proof.
  intros Hi. pose proof (range_exhaust 58 (fun i => (alpha i <? 128) &&
    (nth (Z.to_nat (alpha i)) kAlphabetMap (-1) =? i) && ((i =? 0) || negb (alpha i =? 49)))
    ltac:(vm_compute; reflexivity) i Hi) as H.
  rewrite !andb_true_iff, orb_true_iff, negb_true_iff, Z.ltb_lt, !Z.eqb_eq, Z.eqb_neq in H.
  split; [lia|]. split; [tauto|]. intros. destruct H as [_ [|]]; congruence.
Qed.

Lemma decode_digits_fold ds buf :
  digits_ok 58 ds -> decode_digits (alpha <$> ds) buf = Some (fold_digits 58 256 ds buf).
Proof.
  intros Hd. revert buf. induction Hd as [|d ds Hd0 _ IH]; intros buf; [done|].
  cbn [fmap list_fmap decode_digits fold_digits].
  destruct (alpha_spec d Hd0) as (H1 & -> & _).
  destruct (Z.leb_spec 128 (alpha d)); [lia|]. cbn [orb].
  destruct (Z.eqb_spec d (-1)); [lia|]. apply IH.
Qed.

(** The digits of a byte string: its value in base 58, without leading zeros. *)
Definition b58_digits (src : list Z) : list Z :=
  let rest := drop (skip_eq 0 src) src in
  let buf := fold_digits 256 58 rest (replicate (Z.to_nat (Z.of_nat (length src) * 138 / 100 + 1)) 0) in
  drop (skip_eq 0 buf) buf.

Definition base58_text (src : list Z) : list Z :=
  replicate (skip_eq 0 src) 49 ++ (alpha <$> b58_digits src).

Lemma digits_ok_zeros base n : 0 < base -> digits_ok base (replicate n 0).
Proof. intros. apply Forall_replicate. lia. Qed.

Lemma digits_ok_drop base n l : digits_ok base l -> digits_ok base (drop n l).
Proof. apply Forall_drop. Qed.

Lemma value_replicate base n : value base (replicate n 0) = 0.
Proof. rewrite <- (app_nil_r (replicate n 0)). apply value_zeros. Qed.

Lemma no_leading_skip l : no_leading_zero (drop (skip_eq 0 l) l).
Proof. destruct (skip_eq_split 0 l) as (_ & H & _). intros d l' E. by eapply H. Qed.

Lemma value_skip base l : value base (drop (skip_eq 0 l) l) = value base l.
Proof.
  destruct (skip_eq_split 0 l) as (E & _ & _). rewrite E at 3. by rewrite value_zeros.
Qed.

(** What either direction computes: the digits, in the other base, of the
    same number, with room to spare in the buffer. *)
Lemma fold_zero_buffer mul base src n :
  0 < mul -> 0 < base <= 256 -> digits_ok mul src ->
  mul ^ Z.of_nat (length src) <= base ^ Z.of_nat n ->
  let buf := fold_digits mul base src (replicate n 0) in
  let ds := drop (skip_eq 0 buf) buf in
  length buf = n /\ digits_ok base ds /\ no_leading_zero ds /\ value base ds = value mul src.
Proof.
  intros Hm Hb Hs Hpow. pose proof (value_range mul src Hm Hs) as R.
  destruct (fold_digits_spec mul base src (replicate n 0) Hm Hb Hs (digits_ok_zeros base n ltac:(lia)))
    as (Hl & Hok & E).
  { rewrite value_replicate, length_replicate. lia. }
  rewrite value_replicate, length_replicate in *. split; [done|].
  split; [by apply digits_ok_drop|]. split; [apply no_leading_skip|]. rewrite value_skip. lia.
Qed.

Lemma b58_digits_spec src :
  bytes_ok src ->
  digits_ok 58 (b58_digits src) /\ no_leading_zero (b58_digits src) /\
  value 58 (b58_digits src) = value 256 src.
Proof.
  intros Hs. unfold b58_digits. set (rest := drop (skip_eq 0 src) src).
  destruct (fold_zero_buffer 256 58 rest (Z.to_nat (Z.of_nat (length src) * 138 / 100 + 1)))
    as (_ & H1 & H2 & H3); [lia|lia|by apply Forall_drop| |].
  - assert (0 <= Z.of_nat (length src) * 138 / 100) by (apply Z.div_pos; lia).
    rewrite Z2Nat.id by lia. etransitivity; [|apply encode_bound; lia].
    apply Z.pow_le_mono_r; [lia|]. unfold rest. rewrite length_drop. lia.
  - split; [done|]. split; [done|]. rewrite H3. apply value_skip.
Qed.

Lemma b58_head src : bytes_ok src -> forall y l', alpha <$> b58_digits src = y :: l' -> y <> 49.
Proof.
  intros Hs y l' E. destruct (b58_digits_spec src Hs) as (Hok & N & _).
  destruct (b58_digits src) as [|d ds]; [done|]. injection E as <- _.
  apply Forall_cons in Hok as [Hd _]. intros E. destruct (alpha_spec d Hd) as (_ & _ & H).
  apply (N d ds eq_refl). auto.
Qed.

Lemma xBase58Encode_spec alloc src dst :
  bytes_ok src -> src <> [] -> Z.of_nat (length src) < 2 ^ 48 ->
  (forall n, alloc n = true) -> (length (base58_text src) + 1 <= length dst)%nat ->
  xBase58Encode alloc src dst (Z.of_nat (length dst)) =
    Some (CodecOk (block_with dst (base58_text src ++ [0])) (Z.of_nat (length (base58_text src)))).
Proof.
  intros Hs Hne Hb Ha Hd. unfold xBase58Encode.
  rewrite decide_False by (destruct src; [done|simpl; lia]).
  assert (0 <= Z.of_nat (length src) * 138 / 100 <= Z.of_nat (length src) * 138) as Hq.
  { split; [apply Z.div_pos; lia|apply Z.div_le_upper_bound; lia]. }
  assert (u64 (u64 (Z.of_nat (length src) * 138) / 100 + 1) = Z.of_nat (length src) * 138 / 100 + 1) as ->.
  { unfold u64. rewrite (Z.mod_small (_ * 138)) by lia. apply Z.mod_small. lia. }
  rewrite Ha. cbn [negb]. rewrite encode_digits_fold.
  set (n := Z.to_nat (Z.of_nat (length src) * 138 / 100 + 1)).
  set (buf := fold_digits 256 58 (drop (skip_eq 0 src) src) (replicate n 0)).
  assert (length buf = n) as Hl.
  { destruct (fold_zero_buffer 256 58 (drop (skip_eq 0 src) src) n) as (H & _); [lia|lia|by apply Forall_drop| |done].
    unfold n. rewrite Z2Nat.id by lia. etransitivity; [|apply encode_bound; lia].
    apply Z.pow_le_mono_r; [lia|]. rewrite length_drop. lia. }
  destruct (skip_eq_split 0 buf) as (_ & _ & Hst). destruct (skip_eq_split 0 src) as (_ & _ & Hz).
  assert (length (base58_text src) = skip_eq 0 src + (n - skip_eq 0 buf))%nat as Hlen.
  { unfold base58_text, b58_digits. fold n. fold buf.
    rewrite length_app, length_replicate, length_fmap, length_drop. lia. }
  assert (Z.of_nat (skip_eq 0 src) + (Z.of_nat (length src) * 138 / 100 + 1 - Z.of_nat (skip_eq 0 buf)) =
    Z.of_nat (length (base58_text src))) as -> by lia.
  unfold u64. rewrite (Z.mod_small (Z.of_nat _)) by lia. rewrite Z.mod_small by lia.
  destruct (Z.ltb_spec (Z.of_nat (length dst)) (Z.of_nat (length (base58_text src)) + 1)); [lia|].
  destruct (puts_nul dst (base58_text src)) as (d & Hp & Hn); [lia|].
  unfold base58_text at 1 in Hp. unfold b58_digits in Hp. fold n in Hp. fold buf in Hp.
  rewrite puts_app in Hp. destruct (puts (dst, 0%nat) _) as [w|]; [|done]. cbn [mbind option_bind] in Hp |- *.
  rewrite Hp. cbn [mbind option_bind]. rewrite Nat2Z.id. by rewrite Hn.
Qed.

Lemma xBase58Decode_spec alloc src dst :
  bytes_ok src -> src <> [] -> Z.of_nat (length (base58_text src)) < 2 ^ 48 ->
  (forall n, alloc n = true) -> (length src <= length dst)%nat ->
  xBase58Decode alloc (base58_text src) dst (Z.of_nat (length dst)) =
    Some (CodecOk (block_with dst src) (Z.of_nat (length src))).
Proof.
  intros Hs Hne Hb Ha Hd. unfold xBase58Decode.
  destruct (b58_digits_spec src Hs) as (Hok & N & Hval).
  assert (skip_eq 49 (base58_text src) = skip_eq 0 src) as Hsk.
  { unfold base58_text. apply skip_eq_app, b58_head, Hs. }
  destruct (skip_eq_split 0 src) as (Esrc & _ & Hz).
  assert (length (base58_text src) <> 0%nat) as Hnz.
  { intros E. apply nil_length_inv in E. unfold base58_text in E.
    destruct (skip_eq 0 src) as [|z] eqn:Ez; [|done]. cbn in E.
    apply fmap_nil_inv in E. rewrite E in Hval. cbn [value] in Hval.
    cbn [replicate app drop] in Esrc.
    assert (no_leading_zero src) as Ns by (pose proof (no_leading_skip src) as H; by rewrite Ez in H).
    assert (src = []) as ->; [|done]. apply (value_inj 256); [lia|done|constructor|done|done|]. cbn [value]. lia. }
  rewrite decide_False by done. rewrite Hsk.
  assert (drop (skip_eq 0 src) (base58_text src) = alpha <$> b58_digits src) as ->.
  { unfold base58_text. rewrite drop_app_ge by (rewrite length_replicate; lia).
    by rewrite length_replicate, Nat.sub_diag, drop_0. }
  set (L := Z.of_nat (length (base58_text src))) in *.
  assert (0 <= L * 733 / 1000 <= L * 733) as Hq.
  { split; [apply Z.div_pos; lia|apply Z.div_le_upper_bound; lia]. }
  assert (u64 (u64 (L * 733) / 1000 + 1) = L * 733 / 1000 + 1) as ->.
  { unfold u64. rewrite (Z.mod_small (_ * 733)) by lia. apply Z.mod_small. lia. }
  rewrite Ha. cbn [negb]. rewrite decode_digits_fold by done.
  set (n := Z.to_nat (L * 733 / 1000 + 1)).
  destruct (fold_zero_buffer 58 256 (b58_digits src) n) as (Hl & Hok2 & N2 & Hv2); [lia|lia|done| |].
  { unfold n. rewrite Z2Nat.id by lia. etransitivity; [|apply decode_bound; lia].
    apply Z.pow_le_mono_r; [lia|]. unfold L, base58_text. rewrite length_app, length_fmap. lia. }
  set (buf := fold_digits 58 256 (b58_digits src) (replicate n 0)) in *.
  assert (drop (skip_eq 0 buf) buf = drop (skip_eq 0 src) src) as Eds.
  { apply (value_inj 256); [lia|done|by apply Forall_drop|done|apply no_leading_skip|].
    rewrite Hv2, Hval. symmetry. apply value_skip. }
  destruct (skip_eq_split 0 buf) as (_ & _ & Hst).
  assert (length (drop (skip_eq 0 buf) buf) = n - skip_eq 0 buf)%nat as Hdl by (rewrite length_drop; lia).
  rewrite Eds, length_drop in Hdl.
  assert (Z.of_nat (skip_eq 0 src) + (L * 733 / 1000 + 1 - Z.of_nat (skip_eq 0 buf)) =
    Z.of_nat (length src)) as -> by lia.
  assert (Z.of_nat (length src) < 2 ^ 64) as Hbig.
  { assert (Z.of_nat (length src) <= L + L * 733 + 1); [|lia].
    assert (Z.of_nat (skip_eq 0 src) <= L); [|lia].
    unfold L, base58_text. rewrite length_app, length_replicate. lia. }
  unfold u64. rewrite Z.mod_small by lia.
  destruct (Z.ltb_spec (Z.of_nat (length dst)) (Z.of_nat (length src))); [lia|].
  rewrite Eds. rewrite mem_write_Some by (rewrite length_replicate; lia). cbn [mbind option_bind].
  rewrite mem_write_Some by (autorewrite with len; lia). cbn [mbind option_bind].
  do 2 f_equal. unfold block_with. rewrite length_replicate, Nat.add_0_l, take_0. cbn [app].
  rewrite (take_app_length' (replicate _ 0)) by (by rewrite length_replicate).
  rewrite app_assoc, <- Esrc. f_equal.
  rewrite drop_app_ge by (rewrite length_replicate; lia).
  rewrite length_replicate, drop_drop, length_drop. f_equal. lia.
Qed.

(** Base-58 encoding of any byte string fits the scratch buffer the code
    sizes for it, writes one '1' per leading zero byte, the base-58 digits of
    the number and a NUL, and decoding that text gives the bytes back. *)
Theorem base58_roundtrip alloc src dst dst' :
  bytes_ok src -> src <> [] -> Z.of_nat (length src) < 2 ^ 48 ->
  Z.of_nat (length (base58_text src)) < 2 ^ 48 -> (forall n, alloc n = true) ->
  (length (base58_text src) + 1 <= length dst)%nat -> (length src <= length dst')%nat ->
  xBase58Encode alloc src dst (Z.of_nat (length dst)) =
    Some (CodecOk (block_with dst (base58_text src ++ [0])) (Z.of_nat (length (base58_text src)))) /\
  xBase58Decode alloc (base58_text src) dst' (Z.of_nat (length dst')) =
    Some (CodecOk (block_with dst' src) (Z.of_nat (length src))) /\
  value 58 (b58_digits src) = value 256 src.
Proof.
  intros. split; [by apply xBase58Encode_spec|]. split; [by apply xBase58Decode_spec|].
  by apply b58_digits_spec.
Qed.

Lemma base58_roundtrip_witness :
  xBase58Encode (fun _ => true) [0; 0; 255] (replicate 8 7) 8 =
    Some (CodecOk [49; 49; 53; 81; 0; 7; 7; 7] 4) /\
  xBase58Decode (fun _ => true) [49; 49; 53; 81] (replicate 3 7) 3 = Some (CodecOk [0; 0; 255] 3).
Proof.
  destruct (base58_roundtrip (fun _ => true) [0; 0; 255] (replicate 8 7) (replicate 3 7)) as (H1 & H2 & _).
  - repeat constructor; lia.
  - done.
  - simpl. lia.
  - vm_compute. reflexivity.
  - done.
  - vm_compute. lia.
  - simpl. lia.
  - split; [exact H1|exact H2].
Defined.
