(* ===== verification/Wire.v ===== *)
(** * Wire: fields of packets and the C objects around them

    Shared by the packet formats: big-endian integers written through a cursor
    and read back, text in C strings, a count of the heap blocks a routine
    holds, and the relation [stands] between a packet and the piece of it at an
    offset. *)

From S2P Require Import Prelude.

(** ** Big-endian fields *)

Definition be16 (v : Z) : list Z := [u8 (Z.shiftr v 8); Z.land v 0xFF].
Definition be32 (v : Z) : list Z :=
  [u8 (Z.shiftr v 24); u8 (Z.shiftr v 16); u8 (Z.shiftr v 8); u8 v].

Lemma length_be16 v : length (be16 v) = 2.
Proof. reflexivity. Qed.

Lemma length_be32 v : length (be32 v) = 4.
Proof. reflexivity. Qed.

#[export] Hint Rewrite length_be16 length_be32 : len.

(** Eight bytes, most or least significant first. *)
Definition be64 (v : Z) : list Z :=
  [u8 (Z.shiftr v 56); u8 (Z.shiftr v 48); u8 (Z.shiftr v 40); u8 (Z.shiftr v 32);
   u8 (Z.shiftr v 24); u8 (Z.shiftr v 16); u8 (Z.shiftr v 8); u8 v].
Definition le64 (v : Z) : list Z :=
  [u8 v; u8 (Z.shiftr v 8); u8 (Z.shiftr v 16); u8 (Z.shiftr v 24);
   u8 (Z.shiftr v 32); u8 (Z.shiftr v 40); u8 (Z.shiftr v 48); u8 (Z.shiftr v 56)].
Definition le32 (v : Z) : list Z :=
  [u8 v; u8 (Z.shiftr v 8); u8 (Z.shiftr v 16); u8 (Z.shiftr v 24)].

Definition join16 (p0 p1 : Z) : Z := u16 (Z.lor (Z.shiftl p0 8) p1).
Definition join32 (p0 p1 p2 p3 : Z) : Z :=
  Z.lor (Z.lor (Z.lor (u32 (Z.shiftl p0 24)) (u32 (Z.shiftl p1 16))) (u32 (Z.shiftl p2 8))) p3.

Definition get_be16 (p : list Z) (off : nat) : ub Z :=
  p0 ← p !! off; p1 ← p !! S off; Some (join16 p0 p1).

Definition get_be32 (p : list Z) (off : nat) : ub Z :=
  p0 ← p !! off; p1 ← p !! S off; p2 ← p !! S (S off); p3 ← p !! S (S (S off));
  Some (join32 p0 p1 p2 p3).

Definition get_le32 (p : list Z) (off : nat) : ub Z :=
  p0 ← p !! off; p1 ← p !! S off; p2 ← p !! S (S off); p3 ← p !! S (S (S off));
  Some (join32 p3 p2 p1 p0).

Lemma get_be32_Some p off : off + 4 <= length p -> is_Some (get_be32 p off).
Proof.
  intros H. unfold get_be32.
  destruct (lookup_lt_is_Some_2 p off) as [p0 ->]; [lia|]. destruct (lookup_lt_is_Some_2 p (S off)) as [p1 ->]; [lia|].
  destruct (lookup_lt_is_Some_2 p (S (S off))) as [p2 ->]; [lia|].
  destruct (lookup_lt_is_Some_2 p (S (S (S off)))) as [p3 ->]; [lia|]. by eexists.
Qed.

Lemma get_le32_Some p off : off + 4 <= length p -> is_Some (get_le32 p off).
Proof.
  intros H. unfold get_le32.
  destruct (lookup_lt_is_Some_2 p off) as [p0 ->]; [lia|]. destruct (lookup_lt_is_Some_2 p (S off)) as [p1 ->]; [lia|].
  destruct (lookup_lt_is_Some_2 p (S (S off))) as [p2 ->]; [lia|].
  destruct (lookup_lt_is_Some_2 p (S (S (S off)))) as [p3 ->]; [lia|]. by eexists.
Qed.

Lemma bind_is_Some {A B} (f : A -> ub B) (x : ub A) (P : A -> Prop) :
  (exists a, x = Some a /\ P a) -> (forall a, P a -> is_Some (f a)) -> is_Some (x ≫= f).
Proof. intros (a & -> & H) Hf. exact (Hf a H). Qed.

(** The sixteen words of a block. *)
Lemma words_Some (get : list Z -> nat -> ub Z) b :
  (forall p off, off + 4 <= length p -> is_Some (get p off)) -> length b = 64 ->
  exists w, mapM (fun i => get b (i * 4)) (seq 0 16) = Some w /\ length w = 16.
Proof.
  intros Hg Hb. assert (is_Some (mapM (fun i => get b (i * 4)) (seq 0 16))) as [w E].
  { apply mapM_is_Some. apply Forall_forall. intros i Hi. apply elem_of_seq in Hi. apply Hg. lia. }
  exists w. split; [done|]. apply length_mapM in E. by rewrite length_seq in E.
Qed.

Lemma testbit_small b n i : (0 <= b < 2 ^ n)%Z -> (n <= i)%Z -> Z.testbit b i = false.
Proof.
  intros Hb Hi. destruct (Z.ltb_spec i 0); [by apply Z.testbit_neg_r|].
  destruct (Z.eq_dec b 0%Z) as [->|]; [apply Z.bits_0|].
  apply Z.bits_above_log2; [lia|].
  apply Z.log2_lt_pow2; [lia|]. assert (2 ^ n <= 2 ^ i)%Z by (apply Z.pow_le_mono_r; lia). lia.
Qed.

Lemma lxor_range n a b : (0 <= n)%Z -> (0 <= a < 2 ^ n)%Z -> (0 <= b < 2 ^ n)%Z -> (0 <= Z.lxor a b < 2 ^ n)%Z.
Proof.
  intros Hn Ha Hb. assert (0 <= Z.lxor a b)%Z as H0 by (apply Z.lxor_nonneg; lia). split; [done|].
  destruct (Z.eq_dec (Z.lxor a b) 0%Z) as [->|Hne]; [lia|].
  apply Z.log2_lt_pow2; [lia|]. destruct (Z.ltb_spec (Z.log2 (Z.lxor a b)) n); [done|exfalso].
  pose proof (Z.bit_log2 (Z.lxor a b) ltac:(lia)) as B. rewrite Z.lxor_spec in B.
  by rewrite !(testbit_small _ n) in B by lia.
Qed.

Lemma lor_shiftl_add a b n : (0 <= n)%Z -> (0 <= b < 2 ^ n)%Z -> Z.lor (Z.shiftl a n) b = (a * 2 ^ n + b)%Z.
Proof.
  intros Hn Hb. rewrite <- (Z.shiftl_mul_pow2 a n Hn). rewrite <- Z.add_lor_land.
  assert (Z.land (Z.shiftl a n) b = 0%Z) as ->; [|lia].
  apply Z.bits_inj'. intros i Hi. rewrite Z.land_spec, Z.bits_0.
  destruct (Z.ltb_spec i n).
  - rewrite Z.shiftl_spec_low by done. done.
  - rewrite (testbit_small b n i) by done. by rewrite andb_false_r.
Qed.

Lemma be16_bytes v : bytes_ok (be16 v).
Proof.
  constructor; [apply u8_byte|]. constructor; [|constructor]. unfold byte_ok.
  all: change 0xFF%Z with (Z.ones 8); rewrite Z.land_ones by lia;
    pose proof (Z.mod_pos_bound v (2 ^ 8)); lia.
Qed.

Lemma be32_bytes v : bytes_ok (be32 v).
Proof. repeat (constructor; [apply u8_byte|]). constructor. Qed.

#[local] Ltac Zify.zify_post_hook ::= Z.to_euclidean_division_equations.

Lemma join16_be16 v : (0 <= v < 2 ^ 16)%Z -> join16 (u8 (Z.shiftr v 8)) (Z.land v 0xFF) = v.
Proof.
  intros Hv. unfold join16, u8, u16. change 0xFF%Z with (Z.ones 8).
  rewrite Z.land_ones, Z.shiftr_div_pow2 by lia.
  rewrite lor_shiftl_add; [|lia|apply Z.mod_pos_bound; lia].
  rewrite (Z.mod_small (v / 2 ^ 8)) by (split; [lia|apply Z.div_lt_upper_bound; lia]).
  rewrite Z.mod_small; lia.
Qed.

Lemma join32_be32 v :
  (0 <= v < 2 ^ 32)%Z ->
  join32 (u8 (Z.shiftr v 24)) (u8 (Z.shiftr v 16)) (u8 (Z.shiftr v 8)) (u8 v) = v.
Proof.
  intros Hv. unfold join32, u8, u32. rewrite !Z.shiftr_div_pow2 by lia.
  set (a := ((v / 2 ^ 24) mod 2 ^ 8)%Z). set (b := ((v / 2 ^ 16) mod 2 ^ 8)%Z).
  set (c := ((v / 2 ^ 8) mod 2 ^ 8)%Z). set (d := (v mod 2 ^ 8)%Z).
  assert (v = a * 2 ^ 24 + b * 2 ^ 16 + c * 2 ^ 8 + d)%Z as Ev.
  { unfold a, b, c, d. lia. }
  assert (0 <= a < 2 ^ 8 /\ 0 <= b < 2 ^ 8 /\ 0 <= c < 2 ^ 8 /\ 0 <= d < 2 ^ 8)%Z as (Ha & Hb & Hc & Hd)
    by (unfold a, b, c, d; repeat split; apply Z.mod_pos_bound; lia).
  clearbody a b c d. rewrite !Z.shiftl_mul_pow2 by lia. rewrite !(Z.mod_small (_ * _)) by lia.
  rewrite <- (Z.shiftl_mul_pow2 a), lor_shiftl_add by lia.
  replace (a * 2 ^ 24 + b * 2 ^ 16)%Z with ((a * 2 ^ 8 + b) * 2 ^ 16)%Z by lia.
  rewrite <- (Z.shiftl_mul_pow2 (a * 2 ^ 8 + b)), lor_shiftl_add by lia.
  replace ((a * 2 ^ 8 + b) * 2 ^ 16 + c * 2 ^ 8)%Z with (((a * 2 ^ 8 + b) * 2 ^ 8 + c) * 2 ^ 8)%Z by lia.
  rewrite <- (Z.shiftl_mul_pow2 ((a * 2 ^ 8 + b) * 2 ^ 8 + c)), lor_shiftl_add by lia. lia.
Qed.

(** ** C strings *)

(** What [strlen], and every reader of a C string, sees of an array: the bytes
    before the first NUL. *)
Fixpoint c_text (l : list Z) : list Z :=
  match l with
  | [] => []
  | c :: l => if (c =? 0)%Z then [] else c :: c_text l
  end.

(** The C string in a block, undefined when the block has no NUL. *)
Definition c_string (block : list Z) : ub (list Z) :=
  if decide (0%Z ∈ block) then Some (c_text block) else None.

Lemma c_text_plain l r : Forall (fun c => c <> 0%Z) l -> c_text (l ++ 0%Z :: r) = l.
Proof.
  induction 1 as [|c l Hc _ IH]; [done|]. cbn [app c_text].
  destruct (Z.eqb_spec c 0); [done|]. by rewrite IH.
Qed.

Lemma c_text_id l : Forall (fun c => c <> 0%Z) l -> c_text l = l.
Proof.
  induction 1 as [|c l Hc _ IH]; [done|]. cbn [c_text]. destruct (Z.eqb_spec c 0); [done|]. by rewrite IH.
Qed.

Lemma c_string_plain l r : Forall (fun c => c <> 0%Z) l -> c_string (l ++ 0%Z :: r) = Some l.
Proof. intros H. unfold c_string. rewrite decide_True by set_solver. by rewrite c_text_plain. Qed.

Lemma c_text_length l : length (c_text l) <= length l.
Proof. induction l as [|c l IH]; cbn [c_text length]; [lia|]. destruct (c =? 0)%Z; cbn [length]; lia. Qed.

(** ** Heap blocks held *)

(** [tries] counts the allocations attempted, [live] the blocks held. *)
Record heap := Heap { tries : nat; live : Z }.

(** One [malloc] or [calloc]: the environment [alloc] says which attempts
    succeed. *)
Definition h_alloc (alloc : nat -> bool) (h : heap) : bool * heap :=
  let b := alloc (tries h) in
  (b, Heap (S (tries h)) (if b then live h + 1 else live h)%Z).

(** [free] of [n] non-null pointers. *)
Definition h_free (n : nat) (h : heap) : heap := Heap (tries h) (live h - Z.of_nat n)%Z.

(** ** Cursors *)

Lemma u8_small z : (0 <= z < 256)%Z -> u8 z = z.
Proof. intros. by apply Z.mod_small. Qed.

Lemma puts_Some_cursor w cs :
  w.2 + length cs <= length w.1 ->
  exists w', puts w cs = Some w' /\ w'.2 = w.2 + length cs /\ length w'.1 = length w.1.
Proof.
  destruct w as [d out]. cbn [fst snd]. intros H. rewrite puts_Some by done.
  eexists. split; [done|]. cbn [fst snd]. split; [done|]. autorewrite with len. lia.
Qed.

Lemma read_byte buf (cur : Z) :
  bytes_ok buf -> (0 <= cur < Z.of_nat (length buf))%Z ->
  exists c, buf !! Z.to_nat cur = Some c /\ byte_ok c.
Proof.
  intros Hb Hc. destruct (lookup_lt_is_Some_2 buf (Z.to_nat cur)) as [c E]; [lia|].
  exists c. split; [done|]. rewrite Forall_lookup in Hb. by eapply Hb.
Qed.

(** [w] stands at offset [p] of [buf]. *)
Definition stands (buf : list Z) (p : nat) (w : list Z) : Prop :=
  exists a b, buf = a ++ w ++ b /\ length a = p.

Lemma stands_app buf p w1 w2 : stands buf p (w1 ++ w2) -> stands buf p w1 /\ stands buf (p + length w1) w2.
Proof.
  intros (a & b & -> & <-). split.
  - exists a, (w2 ++ b). by rewrite <- app_assoc.
  - exists (a ++ w1), b. by rewrite <- !app_assoc, length_app.
Qed.

Lemma stands_lookup buf p x w : stands buf p (x :: w) -> buf !! p = Some x.
Proof. intros (a & b & -> & <-). rewrite lookup_app_r by lia. by rewrite Nat.sub_diag. Qed.

Lemma stands_read buf p w : stands buf p w -> mem_read buf p (length w) = Some w.
Proof.
  intros (a & b & -> & <-). rewrite mem_read_Some by (rewrite !length_app; lia).
  rewrite drop_app_length. by rewrite take_app_length.
Qed.

Lemma stands_le buf p w : stands buf p w -> p + length w <= length buf.
Proof. intros (a & b & -> & <-). rewrite !length_app. lia. Qed.

