(* ===== verification/Flag.v ===== *)
(** * Flag: a set of command-line flags ([libx/x/base/flag.c])

    The registered flags and positionals, their storage and the conversion of
    values.  A C string is the list of its bytes without the NUL; NULL is
    [None].  A storage pointer is a location of the caller's memory, which
    holds one value of the type the flag writes.  [strtod] and [%g] are those
    of a [FlagDouble]. *)

From Stdlib Require Import String.
From Stdlib Require Ascii.
From S2P Require Import Prelude Errno Decimal Wire.

Abbreviation length := Datatypes.length.

Abbreviation text := (list Z).

(** The bytes of a literal. *)
Definition txt (s : String.string) : text := (fun a => Z.of_nat (Ascii.nat_of_ascii a)) <$> String.list_ascii_of_string s.
Arguments txt s%_string : simpl never.

Definition INT_MIN : Z := - 2 ^ 31.
Definition INT_MAX : Z := 2 ^ 31 - 1.
Definition UINT64_MAX : Z := 2 ^ 64 - 1.

(** [strtod]: the value, the bytes read, and whether [errno] was set. *)
Class FlagDouble (D : Type) := {
  f_strtod : text -> D * nat * bool;
  f_fmt_g : D -> text;
}.

(** ** Integers *)

Definition is_space (c : Z) : bool := (c =? 32)%Z || ((9 <=? c)%Z && (c <=? 13)%Z).

Definition digit_value (c : Z) : Z :=
  if (48 <=? c)%Z && (c <=? 57)%Z then c - 48
  else if (97 <=? c)%Z && (c <=? 122)%Z then c - 87
  else if (65 <=? c)%Z && (c <=? 90)%Z then c - 55
  else 99.

(** The digits of a base at the start of [s]: their value and their number. *)
Fixpoint scan_digits (base : Z) (s : text) (acc : Z) : Z * nat :=
  match s with
  | c :: s' => if (digit_value c <? base)%Z then let r := scan_digits base s' (acc * base + digit_value c) in (r.1, S r.2) else (acc, 0)
  | [] => (acc, 0)
  end.

Fixpoint spaces (s : text) : nat :=
  match s with c :: s' => if is_space c then S (spaces s') else 0 | [] => 0 end.

(** The subject of [strtoll] and [strtoull] in base 0: whether it is negative,
    its magnitude, and the bytes read, 0 when there is no number. *)
Definition scan_int (s : text) : bool * Z * nat :=
  let w := spaces s in
  let s1 := drop w s in
  let sign := match s1 with c :: _ => if (c =? 45)%Z || (c =? 43)%Z then 1 else 0 | [] => 0 end in
  let neg := match s1 with c :: _ => (c =? 45)%Z | [] => false end in
  let s2 := drop sign s1 in
  let '(skip, base) :=
    match s2 with
    | a :: b :: c :: _ =>
        if (a =? 48)%Z then (if ((b =? 120)%Z || (b =? 88)%Z) && (digit_value c <? 16)%Z then (2, 16%Z) else (0, 8%Z)) else (0, 10%Z)
    | a :: _ => if (a =? 48)%Z then (0, 8%Z) else (0, 10%Z)
    | [] => (0, 10%Z)
    end in
  let '(v, n) := scan_digits base (drop skip s2) 0 in
  if decide (n = 0) then (false, 0%Z, 0) else (neg, v, w + sign + skip + n).

(** [strtoll(s, &end, 0)]: the value, [end] and whether the value was out of
    range. *)
Definition strtoll0 (s : text) : Z * nat * bool :=
  let '(neg, m, n) := scan_int s in
  let v := (if neg then - m else m)%Z in
  (Z.max INT64_MIN (Z.min INT64_MAX v), n, negb ((INT64_MIN <=? v)%Z && (v <=? INT64_MAX)%Z)).

Definition strtoull0 (s : text) : Z * nat * bool :=
  let '(neg, m, n) := scan_int s in
  if (UINT64_MAX <? m)%Z then (UINT64_MAX, n, true) else (if neg then u64 (- m) else m, n, false).

(** The loop over the digits after [0b], [None] when one is neither 0 nor 1. *)
Fixpoint scan_binary (p : text) (acc : Z) : option Z :=
  match p with
  | [] => Some acc
  | c :: p => if negb (c =? 48)%Z && negb (c =? 49)%Z then None else scan_binary p (Z.lor (u64 (Z.shiftl acc 1)) (c - 48))
  end.

Definition is_b (c : Z) : bool := (c =? 98)%Z || (c =? 66)%Z.

(** [(int64_t)] of an [unsigned long long]. *)
Definition to_i64 (v : Z) : Z := if (v <? 2 ^ 63)%Z then v else (v - 2 ^ 64)%Z.

(** What follows [0b] at the start of a text, if it starts so. *)
Definition bin_at (s : text) : option text :=
  match s with a :: b :: p => if (a =? 48)%Z && is_b b then Some p else None | _ => None end.

(** The same after an optional minus. *)
Definition bin_signed (s : text) : option (bool * text) :=
  match bin_at s with
  | Some p => Some (false, p)
  | None => match s with a :: s' => if (a =? 45)%Z then pair true <$> bin_at s' else None | [] => None end
  end.

(** [Some None] is the result [false].  The negation of [INT64_MIN] is
    undefined. *)
Definition xFlagParseI64 (s : option text) : fallible Z :=
  match s with
  | None | Some [] => fail
  | Some s =>
      let '(v, e, erange) := strtoll0 s in
      match bin_signed s with
      | Some (neg, p) =>
          match p with
          | [] => fail
          | _ => match scan_binary p 0 with
                 | None => fail
                 | Some acc => if neg then (if (to_i64 acc =? INT64_MIN)%Z then None else ok (- to_i64 acc)%Z) else ok (to_i64 acc)
                 end
          end
      | None => if erange || bool_decide (e = 0) || negb (bool_decide (e = length s)) then fail else ok v
      end
  end.

Definition xFlagParseU64 (s : option text) : fallible Z :=
  match s with
  | None | Some [] => fail
  | Some s =>
      if bool_decide (head s = Some 45%Z) then fail else
      let '(v, e, erange) := strtoull0 s in
      match bin_at s with
      | Some p => match p with [] => fail | _ => match scan_binary p 0 with None => fail | Some acc => ok acc end end
      | None => if erange || bool_decide (e = 0) || negb (bool_decide (e = length s)) then fail else ok v
      end
  end.

Section flags.
Context {D : Type} `{FlagDouble D}.
Variable alloc : nat -> bool.

Definition xFlagParseDouble (s : option text) : option D :=
  match s with
  | None | Some [] => None
  | Some s => let '(v, e, err) := f_strtod s in if err || bool_decide (e = 0) || negb (bool_decide (e = length s)) then None else Some v
  end.

(** ** Flags, storage and the rest of the world *)

Inductive xFlagKind :=
  | xFlagKind_String | xFlagKind_Bool | xFlagKind_Int | xFlagKind_I64
  | xFlagKind_U64 | xFlagKind_Double | xFlagKind_Choice | xFlagKind_Counter.

#[export] Instance xFlagKind_eq_dec : EqDecision xFlagKind.
Proof. solve_decision. Defined.

Record xFlagEntry := Entry {
  e_name : option text;
  e_shortc : Z;
  e_meta : option text;
  e_help : option text;
  e_def : option text;
  e_attrs : Z;
  e_kind : xFlagKind;
  e_seen : Z;
  e_out : nat;
  e_choices : list text;
  e_multi : list text;           (* [multi_values] up to [multi_count] *)
  e_multi_cap : nat;
}.

Definition has_attr (attrs bit : Z) : bool := negb (Z.land attrs bit =? 0)%Z.
Definition xFlagAttr_Required : Z := 1.
Definition xFlagAttr_Hidden : Z := 2.
Definition xFlagAttr_Multi : Z := 4.

(** What a location of the caller's memory holds. *)
Inductive cell :=
  | CStr (s : option text)
  | CBool (b : bool)
  | CInt (v : Z)
  | CI64 (v : Z)
  | CU64 (v : Z)
  | CDouble (v : D)
  | CTail (l : option (list (option text)))
  | CCount (n : nat).

(** The caller's memory, the heap, [*err_out] and what was printed. *)
Record world := World {
  mem : gmap nat cell;
  hp : heap;
  err : option text;
  out : text;
}.

Definition store (w : world) (l : nat) (c : cell) : world := World (<[l := c]> (mem w)) (hp w) (err w) (out w).
Definition set_hp (w : world) (h : heap) : world := World (mem w) h (err w) (out w).
Definition print (w : world) (t : text) : world := World (mem w) (hp w) (err w) (out w ++ t).

(** One allocation. *)
Definition malloc (w : world) : bool * world := let '(b, h) := h_alloc alloc (hp w) in (b, set_hp w h).
Definition free (n : nat) (w : world) : world := set_hp w (h_free n (hp w)).

(** [realloc] of a block that is or is not there yet. *)
Definition realloc (had : bool) (w : world) : bool * world :=
  let '(b, w) := malloc w in (b, if b && had then free 1 w else w).

(** [err_out] NULL or not; the message is dropped when memory is short. *)
Definition xFlagSetErr (err_out : bool) (msg : text) (w : world) : world :=
  if err_out then let '(b, w) := malloc w in if b then World (mem w) (hp w) (Some msg) (out w) else w else w.

Definition flag_label (e : xFlagEntry) : text := default (txt "?") (e_name e).

Definition set_multi (e : xFlagEntry) (l : list text) (cap : nat) : xFlagEntry :=
  Entry (e_name e) (e_shortc e) (e_meta e) (e_help e) (e_def e) (e_attrs e) (e_kind e) (e_seen e) (e_out e) (e_choices e) l cap.

Definition set_seen (e : xFlagEntry) (n : Z) : xFlagEntry :=
  Entry (e_name e) (e_shortc e) (e_meta e) (e_help e) (e_def e) (e_attrs e) (e_kind e) n (e_out e) (e_choices e) (e_multi e) (e_multi_cap e).

(** The choices joined by commas. *)
Definition choice_list (l : list text) : text :=
  foldl (fun acc c => (match acc with [] => [] | _ => acc ++ txt ", " end) ++ c) [] l.

(** [xFlagApplyValue]; a value that cannot be converted leaves a message.  The
    array of a repeated flag takes the value and a NULL after it. *)
Definition xFlagApplyValue (err_out : bool) (e : xFlagEntry) (val : text) (w : world) : ub (xErrno * xFlagEntry * world) :=
  let bad (what : text) := Some (xErrno_InvalidArg, e,
    xFlagSetErr err_out (txt "invalid " ++ what ++ txt " for --" ++ flag_label e ++ txt ": '" ++ val ++ txt "'") w) in
  match e_kind e with
  | xFlagKind_String =>
      let w := store w (e_out e) (CStr (Some val)) in
      if has_attr (e_attrs e) xFlagAttr_Multi then
        let push (cap : nat) (w : world) :=
          if decide (length (e_multi e) + 1 < cap) then Some (xErrno_Ok, set_multi e (e_multi e ++ [val]) cap, w) else None in
        if decide (e_multi_cap e <= length (e_multi e) + 1) then
          let '(b, w) := realloc (negb (bool_decide (e_multi_cap e = 0))) w in
          if b then push (if decide (e_multi_cap e = 0) then 4 else e_multi_cap e * 2) w else Some (xErrno_NoMemory, e, w)
        else push (e_multi_cap e) w
      else Some (xErrno_Ok, e, w)
  | xFlagKind_Int =>
      r ← xFlagParseI64 (Some val);
      match r with
      | Some v => if (v <? INT_MIN)%Z || (INT_MAX <? v)%Z then bad (txt "integer") else Some (xErrno_Ok, e, store w (e_out e) (CInt v))
      | None => bad (txt "integer")
      end
  | xFlagKind_I64 =>
      r ← xFlagParseI64 (Some val);
      match r with Some v => Some (xErrno_Ok, e, store w (e_out e) (CI64 v)) | None => bad (txt "integer") end
  | xFlagKind_U64 =>
      r ← xFlagParseU64 (Some val);
      match r with Some v => Some (xErrno_Ok, e, store w (e_out e) (CU64 v)) | None => bad (txt "unsigned") end
  | xFlagKind_Double =>
      match xFlagParseDouble (Some val) with Some v => Some (xErrno_Ok, e, store w (e_out e) (CDouble v)) | None => bad (txt "number") end
  | xFlagKind_Choice =>
      if decide (val ∈ e_choices e) then Some (xErrno_Ok, e, store w (e_out e) (CStr (Some val))) else
      let '(b, w) := malloc w in
      if b then
        Some (xErrno_InvalidArg, e,
          free 1 (xFlagSetErr err_out (txt "invalid choice for --" ++ flag_label e ++ txt ": '" ++ val ++ txt "' (allowed: "
            ++ choice_list (e_choices e) ++ txt ")") w))
      else Some (xErrno_NoMemory, e, w)
  | xFlagKind_Bool | xFlagKind_Counter => Some (xErrno_InvalidArg, e, w)
  end.

Definition xFlagNeedsValue (e : xFlagEntry) : bool :=
  match e_kind e with xFlagKind_Bool | xFlagKind_Counter => false | _ => true end.

(** An [int] that is incremented; beyond [INT_MAX] that is undefined. *)
Definition int_inc (v : Z) : ub Z := if (v <? INT_MAX)%Z then Some (v + 1)%Z else None.

Definition xFlagApplyFlag (err_out : bool) (e : xFlagEntry) (value : option text) (w : world) : ub (xErrno * xFlagEntry * world) :=
  seen ← int_inc (e_seen e);
  let e := set_seen e seen in
  match e_kind e with
  | xFlagKind_Bool => Some (xErrno_Ok, e, store w (e_out e) (CBool true))
  | xFlagKind_Counter =>
      match mem w !! e_out e with
      | Some (CInt v) => v ← int_inc v; Some (xErrno_Ok, e, store w (e_out e) (CInt v))
      | _ => None
      end
  | _ =>
      match value with
      | None => Some (xErrno_InvalidArg, e, xFlagSetErr err_out (txt "flag --" ++ flag_label e ++ txt " requires a value") w)
      | Some v => xFlagApplyValue err_out e v w
      end
  end.
End flags.
