(* ===== verification/FlagSet.v ===== *)
(** * FlagSet: registration and parsing ([libx/x/base/flag.c])

    The set of flags and positionals with its operations, and [xFlagParse] over
    an argument vector.  Handles and storage pointers are not NULL. *)

From Stdlib Require Import String.
From S2P Require Import Prelude Errno Decimal Wire Flag.

Abbreviation length := Datatypes.length.

(** ** Sets *)

Record xFlagPositional := Positional { p_name : option text; p_help : option text; p_attrs : Z; p_out : nat }.

Record xFlagTail := Tail {
  t_name : option text;
  t_help : option text;
  t_attrs : Z;
  t_out : nat;
  t_count : option nat;          (* [out_tail_count], which may be NULL *)
  t_buf : option (list (option text));
}.

Record xFlagSet := FSet {
  prog : option text;
  summary : option text;
  epilog : option text;
  version : option text;
  flags : list xFlagEntry;
  positionals : list xFlagPositional;
  tail : option xFlagTail;
  n_flags : nat;
  n_positionals : nat;
}.

Definition set_flags (s : xFlagSet) (l : list xFlagEntry) : xFlagSet :=
  FSet (prog s) (summary s) (epilog s) (version s) l (positionals s) (tail s) (n_flags s) (n_positionals s).
Definition set_tail (s : xFlagSet) (t : option xFlagTail) : xFlagSet :=
  FSet (prog s) (summary s) (epilog s) (version s) (flags s) (positionals s) t (n_flags s) (n_positionals s).

(** The number of blocks behind a pointer that may be NULL. *)
Definition blk {A} (o : option A) : nat := match o with Some _ => 1 | None => 0 end.

Definition entry_blocks (e : xFlagEntry) : nat :=
  blk (e_name e) + blk (e_meta e) + blk (e_help e) + blk (e_def e) + (if decide (e_multi_cap e = 0) then 0 else 1) + 1.
Definition positional_blocks (p : xFlagPositional) : nat := blk (p_name p) + blk (p_help p) + 1.
Definition tail_blocks (t : xFlagTail) : nat := blk (t_name t) + blk (t_help t) + blk (t_buf t) + 1.

(** What [xFlagSetDestroy] frees. *)
Definition set_blocks (s : xFlagSet) : nat :=
  sum_list (entry_blocks <$> flags s) + sum_list (positional_blocks <$> positionals s) +
  match tail s with Some t => tail_blocks t | None => 0 end +
  blk (prog s) + blk (summary s) + blk (epilog s) + blk (version s) + 1.

Definition xFlagFindByLong (s : xFlagSet) (name : text) : option nat :=
  fst <$> list_find (fun e => e_name e = Some name) (flags s).
Definition xFlagFindByShort (s : xFlagSet) (c : Z) : option nat :=
  fst <$> list_find (fun e => e_shortc e <> 0%Z /\ e_shortc e = c) (flags s).

(** The positionals collected by a parse, and the capacity of their array. *)
Record positions := Positions { pos : list nat; pos_cap : nat }.

Section sets.
Context {D : Type} `{FlagDouble D}.
Variable alloc : nat -> bool.

Abbreviation world := (Flag.world (D := D)).

Definition xFlagStrdup (s : option text) (w : world) : option text * world :=
  match s with
  | None => (None, w)
  | Some s => let '(b, w) := malloc alloc w in (if b then Some s else None, w)
  end.

Definition xFlagSetCreate (prog summary : option text) (w : world) : option xFlagSet * world :=
  match prog with
  | None => (None, w)
  | Some _ =>
      let '(b, w) := malloc alloc w in
      if negb b then (None, w) else
      let '(p, w) := xFlagStrdup prog w in
      let '(s, w) := xFlagStrdup summary w in
      if negb (bool_decide (is_Some p)) || bool_decide (is_Some summary) && negb (bool_decide (is_Some s))
      then (None, free (blk p + blk s + 1) w)
      else (Some (FSet p s None None [] [] None 0 0), w)
  end.

Definition xFlagSetDestroy (s : xFlagSet) (w : world) : world := free (set_blocks s) w.

Definition xFlagSetEpilog (s : xFlagSet) (t : option text) (w : world) : xFlagSet * world :=
  let '(t, w) := xFlagStrdup t (free (blk (epilog s)) w) in
  (FSet (prog s) (summary s) t (version s) (flags s) (positionals s) (tail s) (n_flags s) (n_positionals s), w).

Definition xFlagSetVersion (s : xFlagSet) (t : option text) (w : world) : xFlagSet * world :=
  let '(t, w) := xFlagStrdup t (free (blk (version s)) w) in
  (FSet (prog s) (summary s) (epilog s) t (flags s) (positionals s) (tail s) (n_flags s) (n_positionals s), w).

Definition xFlagSetAddEntry (s : xFlagSet) (e : xFlagEntry) : xErrno * xFlagSet :=
  if bool_decide (is_Some (e_name e)) && bool_decide (Exists (fun x => e_name x = e_name e) (flags s)) then (xErrno_AlreadyExists, s) else
  if negb (e_shortc e =? 0)%Z && bool_decide (Exists (fun x => e_shortc x = e_shortc e) (flags s)) then (xErrno_AlreadyExists, s) else
  (xErrno_Ok, FSet (prog s) (summary s) (epilog s) (version s) (flags s ++ [e]) (positionals s) (tail s) (S (n_flags s)) (n_positionals s)).

Definition xFlagEntryNew (name : option text) (shortc : Z) (meta help : option text) (attrs : Z) (kind : xFlagKind) (w : world)
    : option xFlagEntry * world :=
  let '(b, w) := malloc alloc w in
  if negb b then (None, w) else
  let '(n, w) := xFlagStrdup name w in
  let '(m, w) := xFlagStrdup meta w in
  let '(h, w) := xFlagStrdup help w in
  if (bool_decide (is_Some name) && negb (bool_decide (is_Some n))) || (bool_decide (is_Some meta) && negb (bool_decide (is_Some m)))
     || (bool_decide (is_Some help) && negb (bool_decide (is_Some h)))
  then (None, free (blk n + blk m + blk h + 1) w)
  else (Some (Entry n shortc m h None attrs kind 0 0 [] [] 0), w).

Definition with_storage (e : xFlagEntry) (out : nat) (choices : list text) (def : option text) : xFlagEntry :=
  Entry (e_name e) (e_shortc e) (e_meta e) (e_help e) def (e_attrs e) (e_kind e) (e_seen e) out choices (e_multi e) (e_multi_cap e).

(** What the registrations share.  Only [xFlagAddString] minds that its default
    could not be copied. *)
Definition add_flag (s : xFlagSet) (name : option text) (shortc : Z) (meta help : option text) (storage : nat) (choices : list text)
    (def : option text) (def_checked : bool) (init : cell) (attrs : Z) (kind : xFlagKind) (w : world) : xErrno * xFlagSet * world :=
  if negb (bool_decide (is_Some name)) && (shortc =? 0)%Z then (xErrno_InvalidArg, s, w) else
  let '(e, w) := xFlagEntryNew name shortc meta help attrs kind w in
  match e with
  | None => (xErrno_NoMemory, s, w)
  | Some e =>
      let '(d, w) := xFlagStrdup def w in
      let e := with_storage e storage choices d in
      if def_checked && bool_decide (is_Some def) && negb (bool_decide (is_Some d))
      then (xErrno_NoMemory, s, free (blk (e_name e) + blk (e_meta e) + blk (e_help e) + 1) w)
      else
        let w := store w storage init in
        let '(rc, s) := xFlagSetAddEntry s e in
        (rc, s, if decide (rc = xErrno_Ok) then w else free (blk (e_name e) + blk (e_meta e) + blk (e_help e) + blk (e_def e) + 1) w)
  end.

Definition xFlagAddString s name shortc meta help storage (def : option text) attrs w :=
  add_flag s name shortc meta help storage [] def true (CStr def) attrs xFlagKind_String w.
Definition xFlagAddBool s name shortc help storage attrs w :=
  add_flag s name shortc None help storage [] None false (CBool false) attrs xFlagKind_Bool w.
Definition xFlagAddInt s name shortc meta help storage def attrs w :=
  add_flag s name shortc meta help storage [] (Some (print_lld def)) false (CInt def) attrs xFlagKind_Int w.
Definition xFlagAddI64 s name shortc meta help storage def attrs w :=
  add_flag s name shortc meta help storage [] (Some (print_lld def)) false (CI64 def) attrs xFlagKind_I64 w.
Definition xFlagAddU64 s name shortc meta help storage def attrs w :=
  add_flag s name shortc meta help storage [] (Some (print_u 20 def)) false (CU64 def) attrs xFlagKind_U64 w.
Definition xFlagAddDouble s name shortc meta help storage (def : D) attrs w :=
  add_flag s name shortc meta help storage [] (Some (f_fmt_g def)) false (CDouble def) attrs xFlagKind_Double w.
Definition xFlagAddChoice s name shortc meta help choices storage (def : option text) attrs w :=
  add_flag s name shortc meta help storage choices def false (CStr def) attrs xFlagKind_Choice w.
Definition xFlagAddCounter s name shortc help storage attrs w :=
  add_flag s name shortc None help storage [] None false (CInt 0) attrs xFlagKind_Counter w.

Definition xFlagAddPositional (s : xFlagSet) (name : text) (help : option text) (storage : nat) (attrs : Z) (w : world) : xErrno * xFlagSet * world :=
  match tail s with
  | Some _ => (xErrno_InvalidArg, s, w)
  | None =>
      let '(b, w) := malloc alloc w in
      if negb b then (xErrno_NoMemory, s, w) else
      let '(n, w) := xFlagStrdup (Some name) w in
      let '(h, w) := xFlagStrdup help w in
      (xErrno_Ok,
       FSet (prog s) (summary s) (epilog s) (version s) (flags s) (positionals s ++ [Positional n h attrs storage]) (tail s) (n_flags s) (S (n_positionals s)),
       store w storage (CStr None))
  end.

Definition xFlagAddPositionalTail (s : xFlagSet) (name : text) (help : option text) (storage : nat) (count : option nat) (attrs : Z) (w : world)
    : xErrno * xFlagSet * world :=
  match tail s with
  | Some _ => (xErrno_AlreadyExists, s, w)
  | None =>
      let '(b, w) := malloc alloc w in
      if negb b then (xErrno_NoMemory, s, w) else
      let '(n, w) := xFlagStrdup (Some name) w in
      let '(h, w) := xFlagStrdup help w in
      let w := store w storage (CTail None) in
      (xErrno_Ok, set_tail s (Some (Tail n h attrs storage count None)), match count with Some l => store w l (CCount 0) | None => w end)
  end.
End sets.
