(* ===== verification/FlagParse.v ===== *)
(** * FlagParse: the parse engine and the help screen
    ([libx/x/base/flag.c]) *)

From Stdlib Require Import String.
From S2P Require Import Prelude Errno Decimal Wire Flag FlagSet.

Abbreviation length := Datatypes.length.

(** ** Output *)

(** [%-20s] *)
Definition pad20 (s : text) : text := s ++ replicate (20 - length s) 32%Z.

Definition xFlagFormatHeader (e : xFlagEntry) : text :=
  let needs := xFlagNeedsValue e in
  let meta := match e_meta e with Some m => m | None => txt "VALUE" end in
  (match e_name e with
   | Some n => if negb (e_shortc e =? 0)%Z then txt "  -" ++ [e_shortc e] ++ txt ", --" ++ n else txt "      --" ++ n
   | None => txt "  -" ++ [e_shortc e]
   end) ++ (if needs then txt " " ++ meta else []).

Definition visible (e : xFlagEntry) : bool := negb (has_attr (e_attrs e) xFlagAttr_Hidden).
Definition nl : text := [10%Z].

(** A name that could not be copied is NULL; printing it is undefined. *)
Fixpoint join (l : list (ub text)) : ub text :=
  match l with
  | [] => Some []
  | t :: l => t ← t; r ← join l; Some (t ++ r)
  end.

Definition xFlagPrintUsage (s : xFlagSet) : ub text :=
  join ([Some (txt "USAGE: "); prog s; Some (if existsb visible (flags s) then txt " [OPTIONS]" else [])] ++
    ((fun p => n ← p_name p; Some (if has_attr (p_attrs p) xFlagAttr_Required then txt " " ++ n else txt " [" ++ n ++ txt "]")) <$> positionals s) ++
    [match tail s with
     | Some t => n ← t_name t; Some (if has_attr (t_attrs t) xFlagAttr_Required then txt " " ++ n ++ txt "..." else txt " [" ++ n ++ txt "...]")
     | None => Some []
     end; Some nl]).

Definition argument_line (name help : option text) (attrs : Z) : ub text :=
  n ← name;
  Some (txt "  " ++ pad20 n ++ txt "  " ++ default [] help ++ (if has_attr attrs xFlagAttr_Required then txt " (required)" else []) ++ nl).

Definition nonempty (t : option text) : option text := match t with Some [] | None => None | Some t => Some t end.

Definition option_lines (e : xFlagEntry) : text :=
  if visible e then
    xFlagFormatHeader e ++ nl ++
    (match nonempty (e_help e) with Some h => txt "        " ++ h | None => [] end) ++
    (if has_attr (e_attrs e) xFlagAttr_Required then txt " (required)" else []) ++
    (match nonempty (e_def e) with Some d => if xFlagNeedsValue e then txt " [default: " ++ d ++ txt "]" else [] | None => [] end) ++
    (if decide (e_kind e = xFlagKind_Choice) then txt " (choices:" ++ (e_choices e ≫= fun c => txt " " ++ c) ++ txt ")" else []) ++ nl
  else [].

Definition xFlagPrintHelp (s : xFlagSet) : ub text :=
  join ([xFlagPrintUsage s; Some (match summary s with Some t => nl ++ t ++ nl | None => [] end)] ++
    (if bool_decide (positionals s <> []) || bool_decide (is_Some (tail s)) then
       [Some (nl ++ txt "ARGUMENTS:" ++ nl)] ++ ((fun p => argument_line (p_name p) (p_help p) (p_attrs p)) <$> positionals s) ++
       [match tail s with Some t => argument_line (t_name t) (t_help t) (t_attrs t) | None => Some [] end]
     else []) ++
    (if existsb visible (flags s) then
       [Some (nl ++ txt "OPTIONS:" ++ nl); Some (flags s ≫= option_lines);
        Some (txt "  -h, --help" ++ nl ++ txt "        show this help and exit" ++ nl);
        Some (match version s with Some _ => txt "  -V, --version" ++ nl ++ txt "        show version and exit" ++ nl | None => [] end)]
     else []) ++
    [Some (match nonempty (epilog s) with Some t => nl ++ t ++ nl | None => [] end)]).

(** ** Parsing *)

Section parse.
Context {D : Type} `{FlagDouble D}.
Variable alloc : nat -> bool.
Variable err_out : bool.

Abbreviation world := (Flag.world (D := D)).
Abbreviation SetErr := (xFlagSetErr alloc err_out).

(** An argument vector; [None] is a NULL in it. *)
Variable argv : list (option text).

(** [pos_idx[pos_cnt++] = i] *)
Definition push_pos (ps : positions) (i : nat) (w : world) : ub (bool * positions * world) :=
  let put (cap : nat) (w : world) := if decide (length (pos ps) < cap) then Some (true, Positions (pos ps ++ [i]) cap, w) else None in
  if decide (pos_cap ps <= length (pos ps)) then
    let '(b, w) := realloc alloc (negb (bool_decide (pos_cap ps = 0))) w in
    if b then put (if decide (pos_cap ps = 0) then 8 else pos_cap ps * 2) w else Some (false, ps, w)
  else put (pos_cap ps) w.

Definition free_pos (ps : positions) (w : world) : world := free (if decide (pos_cap ps = 0) then 0 else 1) w.

(** What one argument leads to: the function returns, or the loop goes on. *)
Inductive outcome :=
  | Return (rc : xErrno) (s : xFlagSet) (w : world)
  | Next (i : nat) (ps : positions) (s : xFlagSet) (w : world).

(** A return that frees the positions first. *)
Definition leave (rc : xErrno) (ps : positions) (s : xFlagSet) (w : world) : outcome := Return rc s (free_pos ps w).

(** Applying flag [k] of the set. *)
Definition apply_at (s : xFlagSet) (k : nat) (value : option text) (w : world) : ub (xErrno * xFlagSet * world) :=
  e ← flags s !! k;
  r ← xFlagApplyFlag alloc err_out e value w;
  Some (r.1.1, set_flags s (<[k := r.1.2]> (flags s)), r.2).

(** After [--] everything is a positional. *)
Fixpoint rest_positional (n i : nat) (ps : positions) (s : xFlagSet) (w : world) : ub outcome :=
  match n with
  | O => Some (Next i ps s w)
  | S n =>
      r ← push_pos ps i w;
      let '(b, ps, w) := r : bool * positions * world in
      if b then rest_positional n (S i) ps s w else Some (leave xErrno_NoMemory ps s w)
  end.

Definition print_help (s : xFlagSet) (w : world) : ub world := t ← xFlagPrintHelp s; Some (print w t).

(** [strchr(name, '=')] *)
Fixpoint cut_at (c : Z) (s : text) : text * option text :=
  match s with
  | [] => ([], None)
  | x :: s => if (x =? c)%Z then ([], Some s) else let r := cut_at c s in (x :: r.1, r.2)
  end.

Definition long_option (i : nat) (body : text) (ps : positions) (s : xFlagSet) (w : world) : ub outcome :=
  let '(name, eq) := cut_at 61 body in
  if decide (name = txt "help") then w ← print_help s w; Some (leave xErrno_Again ps s w) else
  match (if decide (name = txt "version") then version s else None) with
  | Some v => Some (leave xErrno_Again ps s (print w (v ++ nl)))
  | None =>
      match xFlagFindByLong s name with
      | None => Some (leave xErrno_InvalidArg ps s (SetErr (txt "unknown option: --" ++ name) w))
      | Some k =>
          e ← flags s !! k;
          let go (value : option text) (i : nat) :=
            r ← apply_at s k value w;
            Some (if decide (r.1.1 = xErrno_Ok) then Next (S i) ps r.1.2 r.2 else leave r.1.1 ps r.1.2 r.2) in
          if xFlagNeedsValue e then
            match eq with
            | Some v => go (Some v) i
            | None =>
                if decide (i + 1 < length argv) then a ← argv !! (i + 1); go a (i + 1)
                else Some (leave xErrno_InvalidArg ps s (SetErr (txt "flag --" ++ name ++ txt " requires a value") w))
            end
          else
            match eq with
            | Some _ => Some (leave xErrno_InvalidArg ps s (SetErr (txt "flag --" ++ name ++ txt " takes no value") w))
            | None => go None i
            end
      end
  end.

(** The letters of a short option. *)
Fixpoint short_options (i : nat) (p : text) (ps : positions) (s : xFlagSet) (w : world) : ub outcome :=
  match p with
  | [] => Some (Next (S i) ps s w)
  | c :: p' =>
      match xFlagFindByShort s c with
      | None =>
          if (c =? 104)%Z then w ← print_help s w; Some (leave xErrno_Again ps s w) else
          match (if (c =? 86)%Z then version s else None) with
          | Some v => Some (leave xErrno_Again ps s (print w (v ++ nl)))
          | None => Some (leave xErrno_InvalidArg ps s (SetErr (txt "unknown option: -" ++ [c]) w))
          end
      | Some k =>
          e ← flags s !! k;
          if xFlagNeedsValue e then
            let go (value : option text) (i : nat) :=
              r ← apply_at s k value w;
              Some (if decide (r.1.1 = xErrno_Ok) then Next (S i) ps r.1.2 r.2 else leave r.1.1 ps r.1.2 r.2) in
            match p' with
            | _ :: _ => go (Some p') i
            | [] =>
                if decide (i + 1 < length argv) then a ← argv !! (i + 1); go a (i + 1)
                else Some (leave xErrno_InvalidArg ps s (SetErr (txt "flag -" ++ [c] ++ txt " requires a value") w))
            end
          else
            r ← apply_at s k None w;
            if decide (r.1.1 = xErrno_Ok) then short_options i p' ps r.1.2 r.2 else Some (leave r.1.1 ps r.1.2 r.2)
      end
  end.

Definition positional (i : nat) (ps : positions) (s : xFlagSet) (w : world) : ub outcome :=
  r ← push_pos ps i w;
  let '(b, ps, w) := r : bool * positions * world in
  Some (if b then Next (S i) ps s w else leave xErrno_NoMemory ps s w).

(** The body of the loop on argument [a]; [Next] with [i] at the end stops it. *)
Definition parse_arg (i : nat) (a : text) (ps : positions) (s : xFlagSet) (w : world) : ub outcome :=
  if decide (a = txt "--") then rest_positional (length argv - S i) (S i) ps s w else
  match a with
  | c0 :: c1 :: p =>
      if (c0 =? 45)%Z then (if (c1 =? 45)%Z then long_option i p ps s w else short_options i (c1 :: p) ps s w)
      else positional i ps s w
  | _ => positional i ps s w
  end.

(** [while (i < argc)], every round of which moves [i] on. *)
Fixpoint parse_loop (fuel i : nat) (ps : positions) (s : xFlagSet) (w : world) : ub outcome :=
  if decide (length argv <= i) then Some (Next i ps s w) else
  match fuel with
  | O => None
  | S fuel =>
      a ← argv !! i;
      match a with
      | None => Some (Next i ps s w)
      | Some a =>
          o ← parse_arg i a ps s w;
          match o with
          | Return rc s w => Some (Return rc s w)
          | Next i ps s w => parse_loop fuel i ps s w
          end
      end
  end.

Definition missing (e : xFlagEntry) : bool := has_attr (e_attrs e) xFlagAttr_Required && (e_seen e =? 0)%Z.

(** [argv[pos_idx[k]]], a string or NULL. *)
Definition pos_arg (ps : positions) (k : nat) : ub (option text) := i ← pos ps !! k; argv !! i.

(** The positionals take their arguments in order; the result is the number
    used, or the name of one that is missing. *)
Fixpoint assign (l : list xFlagPositional) (at_ : nat) (ps : positions) (w : world) : ub ((nat + option text) * world) :=
  match l with
  | [] => Some (inl at_, w)
  | p :: l =>
      if decide (at_ < length (pos ps)) then
        a ← pos_arg ps at_;
        assign l (S at_) ps (store w (p_out p) (CStr a))
      else if has_attr (p_attrs p) xFlagAttr_Required then Some (inr (p_name p), w)
      else assign l at_ ps w
  end.

(** A message with a name in it, which must not be NULL. *)
Definition SetErrName (msg : text) (name : option text) (w : world) : ub world :=
  if err_out then n ← name; Some (SetErr (msg ++ n) w) else Some w.

(** The array of the tail, before its NULL. *)
Definition tail_values (ps : positions) (at_ : nat) : ub (list (option text)) :=
  mapM (pos_arg ps) (seq at_ (length (pos ps) - at_)).

Definition finish (ps : positions) (s : xFlagSet) (w : world) : ub (xErrno * xFlagSet * world) :=
  match find missing (flags s) with
  | Some e =>
      let w := SetErr (match e_name e with
                       | Some n => txt "missing required flag: --" ++ n
                       | None => txt "missing required flag: -" ++ [e_shortc e]
                       end) w in
      Some (xErrno_InvalidArg, s, free_pos ps w)
  | None =>
      r ← assign (positionals s) 0 ps w;
      let w := r.2 in
      match r.1 with
      | inr name => w ← SetErrName (txt "missing required argument: ") name w; Some (xErrno_InvalidArg, s, free_pos ps w)
      | inl at_ =>
          match tail s with
          | Some t =>
              let '(b, w) := malloc alloc w in
              if negb b then Some (xErrno_NoMemory, s, free_pos ps w) else
              l ← tail_values ps at_;
              let w := free (blk (t_buf t)) w in
              let s := set_tail s (Some (Tail (t_name t) (t_help t) (t_attrs t) (t_out t) (t_count t) (Some l))) in
              let w := store w (t_out t) (CTail (Some l)) in
              let w := match t_count t with Some c => store w c (CCount (length l)) | None => w end in
              if has_attr (t_attrs t) xFlagAttr_Required && bool_decide (l = []) then
                w ← SetErrName (txt "missing required argument: ") (t_name t) w; Some (xErrno_InvalidArg, s, free_pos ps w)
              else Some (xErrno_Ok, s, free_pos ps w)
          | None =>
              if decide (at_ < length (pos ps)) then
                a ← pos_arg ps at_;
                w ← SetErrName (txt "unexpected argument: ") a w; Some (xErrno_InvalidArg, s, free_pos ps w)
              else Some (xErrno_Ok, s, free_pos ps w)
          end
      end
  end.

(** [argc] is the length of [argv]. *)
Definition xFlagParse (s : xFlagSet) (w : world) : ub (xErrno * xFlagSet * world) :=
  let w := if err_out then World (mem w) (hp w) None (out w) else w in
  match argv with
  | [] => Some (xErrno_InvalidArg, s, w)
  | _ =>
      o ← parse_loop (length argv) 1 (Positions [] 0) s w;
      match o with
      | Return rc s w => Some (rc, s, w)
      | Next _ ps s w => finish ps s w
      end
  end.
End parse.
