(* ===== verification/FlagSafe.v ===== *)
(** * FlagSafe: parsing keeps the storage well typed and leaks nothing *)

From Stdlib Require Import String.
From S2P Require Import Prelude Errno Decimal Wire Flag FlagSet FlagParse.

Abbreviation length := Datatypes.length.

(** ** Numbers stay in their types *)

Lemma clamp_range v : int64_ok (Z.max INT64_MIN (Z.min INT64_MAX v)).
Proof. unfold int64_ok, INT64_MIN, INT64_MAX. lia. Qed.

Lemma scan_digits_nonneg base s acc : (0 <= acc)%Z -> (0 <= base)%Z -> (0 <= (scan_digits base s acc).1)%Z.
Proof.
  revert acc. induction s as [|c s IH]; intros acc Ha Hb; [done|]. cbn [scan_digits]. destruct (Z.ltb_spec (digit_value c) base); [|done]. cbn [fst].
  apply IH; [|done]. assert (0 <= digit_value c)%Z; [|nia].
  unfold digit_value. destruct (Z.leb_spec 48 c), (Z.leb_spec c 57), (Z.leb_spec 97 c), (Z.leb_spec c 122), (Z.leb_spec 65 c), (Z.leb_spec c 90); cbn; lia.
Qed.

Lemma scan_int_nonneg s : (0 <= (scan_int s).1.2)%Z.
Proof.
  unfold scan_int. destruct (match _ with [] => _ | _ => _ end) as [skip base] eqn:E.
  assert (0 <= base)%Z as Hb.
  { destruct (drop _ (drop _ s)) as [|a [|b [|c l]]]; repeat match type of E with context [if ?b then _ else _] => destruct b end; simplify_eq; lia. }
  destruct (scan_digits base _ 0) as [v n] eqn:Ed. pose proof (scan_digits_nonneg base (drop skip (drop match drop (spaces s) s with
    [] => 0 | c :: _ => if (c =? 45)%Z || (c =? 43)%Z then 1 else 0 end (drop (spaces s) s))) 0 ltac:(lia) Hb) as Hv.
  rewrite Ed in Hv. by case_decide.
Qed.

Lemma strtoll0_range s v e r : strtoll0 s = (v, e, r) -> int64_ok v.
Proof. unfold strtoll0. destruct (scan_int s) as [[neg m] n]. intros [= <- <- <-]. apply clamp_range. Qed.

Lemma strtoull0_range s v e r : strtoull0 s = (v, e, r) -> (0 <= v <= UINT64_MAX)%Z.
Proof.
  unfold strtoull0. pose proof (scan_int_nonneg s) as Hm. destruct (scan_int s) as [[neg m] n]. cbn in Hm. unfold UINT64_MAX, u64 in *.
  destruct (Z.ltb_spec (2 ^ 64 - 1) m); intros [= <- <- <-]; [lia|]. destruct neg; [|lia]. pose proof (Z.mod_pos_bound (- m) (2 ^ 64)). lia.
Qed.

Lemma scan_binary_range p acc v : (0 <= acc <= UINT64_MAX)%Z -> scan_binary p acc = Some v -> (0 <= v <= UINT64_MAX)%Z.
Proof.
  revert acc. induction p as [|c p IH]; intros acc Ha; cbn [scan_binary]; [by intros [= <-]|].
  destruct (Z.eqb_spec c 48) as [E|E], (Z.eqb_spec c 49) as [E'|E']; try lia; cbn [negb andb]; try done; subst c; apply IH; unfold u64, UINT64_MAX in *.
  - change (48 - 48)%Z with 0%Z. rewrite Z.lor_0_r. pose proof (Z.mod_pos_bound (Z.shiftl acc 1) (2 ^ 64)). lia.
  - change (49 - 48)%Z with 1%Z. assert (0 <= Z.lor (Z.shiftl acc 1 mod 2 ^ 64) 1 < 2 ^ 64)%Z; [|lia]. pose proof (Z.mod_pos_bound (Z.shiftl acc 1) (2 ^ 64)).
    split; [apply Z.lor_nonneg; lia|]. apply Z.log2_lt_cancel. rewrite Z.log2_lor, (Z.log2_pow2 64) by lia. cbn [Z.log2].
    apply Z.max_lub_lt; [|done]. destruct (decide (Z.shiftl acc 1 mod 2 ^ 64 = 0)%Z) as [->|]; [done|]. apply Z.log2_lt_pow2; lia.
Qed.

Lemma to_i64_range v : (0 <= v <= UINT64_MAX)%Z -> int64_ok (to_i64 v).
Proof. unfold to_i64, int64_ok, UINT64_MAX, INT64_MIN, INT64_MAX. intros. destruct (Z.ltb_spec v (2 ^ 63)); lia. Qed.

Lemma xFlagParseI64_range s v : xFlagParseI64 s = ok v -> int64_ok v.
Proof.
  unfold xFlagParseI64. destruct s as [[|c s]|]; try done. destruct (strtoll0 (c :: s)) as [[x e] r] eqn:Es.
  apply strtoll0_range in Es. destruct (bin_signed (c :: s)) as [[neg p]|].
  - destruct p as [|d p]; [done|]. destruct (scan_binary (d :: p) 0) as [acc|] eqn:Ea; [|done].
    apply scan_binary_range in Ea; [|unfold UINT64_MAX; lia]. apply to_i64_range in Ea.
    destruct neg; [|by intros [= <-]]. destruct (Z.eqb_spec (to_i64 acc) INT64_MIN); [done|]. intros [= <-].
    unfold int64_ok, INT64_MIN, INT64_MAX in *. lia.
  - destruct (r || _ || _); [done|]. by intros [= <-].
Qed.

Lemma xFlagParseU64_range s v : xFlagParseU64 s = ok v -> (0 <= v <= UINT64_MAX)%Z.
Proof.
  unfold xFlagParseU64. destruct s as [[|c s]|]; try done. case_bool_decide; [done|]. destruct (strtoull0 (c :: s)) as [[x e] r] eqn:Es.
  apply strtoull0_range in Es. destruct (bin_at (c :: s)) as [p|].
  - destruct p as [|d p]; [done|]. destruct (scan_binary (d :: p) 0) as [acc|] eqn:Ea; [|done]. intros [= <-].
    apply scan_binary_range in Ea; [done|unfold UINT64_MAX; lia].
  - destruct (r || _ || _); [done|]. by intros [= <-].
Qed.

(** ** The invariant *)

Inductive cty := TStr | TBool | TInt | TI64 | TU64 | TDouble | TCounter | TTail | TSize.

Definition kind_ty (k : xFlagKind) : cty :=
  match k with
  | xFlagKind_String | xFlagKind_Choice => TStr | xFlagKind_Bool => TBool | xFlagKind_Int => TInt | xFlagKind_I64 => TI64
  | xFlagKind_U64 => TU64 | xFlagKind_Double => TDouble | xFlagKind_Counter => TCounter
  end.

(** The array of a repeated flag has room for its values and a NULL. *)
Definition multi_ok (e : xFlagEntry) : Prop :=
  e_multi_cap e = 0 /\ e_multi e = [] \/ length (e_multi e) < e_multi_cap e.

Definition positions_ok (ps : positions) : Prop := length (pos ps) <= pos_cap ps.

Section safe.
Context {D : Type} `{FlagDouble D}.
Variable alloc : nat -> bool.
Variable err_out : bool.

Abbreviation world := (Flag.world (D := D)).
Abbreviation cell := (Flag.cell (D := D)).

(** The type of each location of the caller's memory. *)
Variable ty : nat -> cty.

(** A value of a type; a counter can still be incremented [budget] times. *)
Definition has_type (budget : Z) (t : cty) (c : cell) : Prop :=
  match t, c with
  | TStr, CStr _ | TBool, CBool _ | TDouble, CDouble _ | TTail, CTail _ | TSize, CCount _ => True
  | TInt, CInt v => (INT_MIN <= v <= INT_MAX)%Z
  | TCounter, CInt v => (0 <= v /\ v + budget <= INT_MAX)%Z
  | TI64, CI64 v => int64_ok v
  | TU64, CU64 v => (0 <= v <= UINT64_MAX)%Z
  | _, _ => False
  end.

Definition mem_ok (budget : Z) (w : world) : Prop := forall l c, mem w !! l = Some c -> has_type budget (ty l) c.

Record flag_ok (budget : Z) (w : world) (e : xFlagEntry) : Prop := {
  fo_type : ty (e_out e) = kind_ty (e_kind e);
  fo_stored : is_Some (mem w !! e_out e);
  fo_seen : (0 <= e_seen e)%Z;
  fo_budget : (e_seen e + budget <= INT_MAX)%Z;
  fo_multi : multi_ok e;
}.

Record shape_ok (s : xFlagSet) : Prop := {
  so_prog : is_Some (prog s);
  so_positionals : Forall (fun p => is_Some (p_name p) /\ ty (p_out p) = TStr) (positionals s);
  so_tail : match tail s with
            | Some t => is_Some (t_name t) /\ ty (t_out t) = TTail /\ (match t_count t with Some l => ty l = TSize | None => True end)
            | None => True
            end;
}.

Record set_ok (budget : Z) (s : xFlagSet) (w : world) : Prop := {
  st_flags : Forall (flag_ok budget w) (flags s);
  st_mem : mem_ok budget w;
  st_shape : shape_ok s;
}.

(** The blocks alive beyond those the set owns and the message handed out. *)
Definition extra (s : xFlagSet) (w : world) : Z := live (hp w) - Z.of_nat (set_blocks s) - Z.of_nat (blk (err w)).

(** No message has been handed out yet. *)
Definition no_error (w : world) : Prop := err_out = true -> err w = None.

Lemma has_type_less b b' t c : (b' <= b)%Z -> has_type b t c -> has_type b' t c.
Proof. destruct t, c; cbn; try done. lia. Qed.

Lemma set_ok_less b b' s w : (b' <= b)%Z -> set_ok b s w -> set_ok b' s w.
Proof.
  intros Hb []. split; [|intros l c E; by eapply has_type_less, st_mem0|done].
  eapply Forall_impl; [done|]. intros e []. split; [done..|lia|done].
Qed.

(** Worlds that differ only in what the set does not see. *)
Lemma set_ok_world b s (w : world) w' : mem w' = mem w -> set_ok b s w -> set_ok b s w'.
Proof.
  intros Em []. split; [|unfold mem_ok; by rewrite Em|done]. eapply Forall_impl; [done|]. intros e []. by split; rewrite ?Em.
Qed.

Lemma store_ok b s w l c : set_ok b s w -> has_type b (ty l) c -> set_ok b s (store w l c).
Proof.
  intros [] Hc. split; [| |done].
  - eapply Forall_impl; [done|]. intros e []. split; try done. cbn. apply lookup_insert_is_Some'. by right.
  - intros x y. cbn. destruct (decide (l = x)) as [->|]; [rewrite lookup_insert_eq; by intros [= <-]|]. rewrite lookup_insert_ne by done. apply st_mem0.
Qed.

(** ** Allocation *)

Lemma malloc_eq (w : world) b w' : malloc alloc w = (b, w') ->
  mem w' = mem w /\ err w' = err w /\ out w' = out w /\ live (hp w') = (live (hp w) + if b then 1 else 0)%Z.
Proof.
  unfold malloc, h_alloc. intros [= <- <-]. cbn. do 3 (split; [done|]). destruct (alloc _); lia.
Qed.

Lemma realloc_eq had (w : world) b w' : realloc alloc had w = (b, w') ->
  mem w' = mem w /\ err w' = err w /\ live (hp w') = (live (hp w) + if b && negb had then 1 else 0)%Z.
Proof.
  unfold realloc. destruct (malloc alloc w) as [b1 w1] eqn:E. apply malloc_eq in E as (Em & Ee & _ & El).
  intros [= <- <-]. destruct b1, had; cbn; rewrite ?Em, ?Ee, ?El; repeat split; lia.
Qed.

Lemma SetErr_ok b s w msg : set_ok b s w -> no_error w ->
  set_ok b s (xFlagSetErr alloc err_out msg w) /\ extra s (xFlagSetErr alloc err_out msg w) = extra s w.
Proof.
  intros H0 Hn. unfold xFlagSetErr. unfold no_error in Hn. destruct err_out; [|done]. specialize (Hn eq_refl).
  destruct (malloc alloc w) as [b1 w1] eqn:E. apply malloc_eq in E as (Em & Ee & _ & El). destruct b1.
  - split; [by eapply set_ok_world|]. unfold extra. cbn. rewrite El, Hn. cbn. lia.
  - split; [by eapply set_ok_world|]. unfold extra. rewrite El, Ee. lia.
Qed.

(** ** One flag *)

Lemma sum_list_insert (l : list nat) k x y : l !! k = Some x -> sum_list (<[k := y]> l) + x = sum_list l + y.
Proof.
  revert k. induction l as [|a l IH]; intros [|k] E; try done.
  - injection E as ->. cbn [insert list_insert]. change (y + sum_list l + x = x + sum_list l + y). lia.
  - specialize (IH k E). change (a + sum_list (<[k:=y]> l) + x = a + sum_list l + y). lia.
Qed.

Lemma blocks_update s k e e' : flags s !! k = Some e ->
  set_blocks (set_flags s (<[k := e']> (flags s))) + entry_blocks e = set_blocks s + entry_blocks e'.
Proof.
  intros Hk. unfold set_blocks. cbn. rewrite list_fmap_insert.
  pose proof (sum_list_insert (entry_blocks <$> flags s) k (entry_blocks e) (entry_blocks e')) as E. rewrite list_lookup_fmap, Hk in E.
  specialize (E eq_refl). lia.
Qed.

(** What applying a flag once leaves: the entry and the world after it. *)
Record applied (b : Z) (e : xFlagEntry) (w : world) (rc : xErrno) (e' : xFlagEntry) (w' : world) : Prop := {
  ap_same : e_out e' = e_out e /\ e_kind e' = e_kind e /\ e_attrs e' = e_attrs e /\ e_name e' = e_name e /\ e_shortc e' = e_shortc e;
  ap_seen : e_seen e' = (e_seen e + 1)%Z;
  ap_multi : multi_ok e';
  ap_mem : mem w' = mem w \/ exists c, mem w' = <[e_out e := c]> (mem w) /\ has_type b (ty (e_out e)) c;
  ap_live : (live (hp w') - Z.of_nat (entry_blocks e') - Z.of_nat (blk (err w')) = live (hp w) - Z.of_nat (entry_blocks e) - Z.of_nat (blk (err w)))%Z;
  ap_ok : rc = xErrno_Ok -> err w' = err w;
}.

Lemma SetErr_applied b e (w w0 : world) n msg : no_error w -> multi_ok e ->
  mem w = mem w0 -> err w = err w0 -> live (hp w) = live (hp w0) -> n = (e_seen e + 1)%Z -> forall rc, rc <> xErrno_Ok ->
  applied b e w0 rc (set_seen e n) (xFlagSetErr alloc err_out msg w).
Proof.
  intros Hn Hm Em Ee El -> rc Hrc. unfold xFlagSetErr, no_error in *.
  destruct err_out; [specialize (Hn eq_refl); destruct (malloc alloc w) as [b1 w1] eqn:E; apply malloc_eq in E as (Em1 & Ee1 & _ & El1)|].
  - destruct b1; split; try done; cbn; first [by left; congruence | rewrite El1, El, <- Ee, Hn; cbn; rewrite ?Ee1, ?Hn; unfold entry_blocks; cbn; lia].
  - split; try done; [by left|rewrite El, Ee; done].
Qed.

(** A value stored, nothing else. *)
Lemma stored_applied b e (w : world) c n :
  multi_ok e -> has_type b (ty (e_out e)) c -> n = (e_seen e + 1)%Z -> applied b e w xErrno_Ok (set_seen e n) (store w (e_out e) c).
Proof. intros Hm Hc ->. split; try done. right. by exists c. Qed.

Ltac bind_some := cbn [mbind option_bind].

(** The result of a number's conversion is defined, in one case excepted. *)
Definition i64_defined (v : text) : Prop := xFlagParseI64 (Some v) <> None.

Lemma u64_defined v : exists r, xFlagParseU64 (Some v) = Some r.
Proof.
  unfold xFlagParseU64. destruct v as [|c v]; [by eexists|]. case_bool_decide; [by eexists|].
  destruct (strtoull0 (c :: v)) as [[x e] r]. destruct (bin_at (c :: v)) as [p|].
  - destruct p as [|d p]; [by eexists|]. destruct (scan_binary (d :: p) 0); by eexists.
  - destruct (r || _ || _); by eexists.
Qed.

Lemma apply_value_ok b e (w : world) v n :
  ty (e_out e) = kind_ty (e_kind e) -> multi_ok e -> no_error w -> n = (e_seen e + 1)%Z -> i64_defined v ->
  exists rc e' w', xFlagApplyValue alloc err_out (set_seen e n) v w = Some (rc, e', w') /\ applied b e w rc e' w'.
Proof.
  intros Hty Hm Hn -> Hdef. set (e1 := set_seen e (e_seen e + 1)). unfold xFlagApplyValue. change (e_kind e1) with (e_kind e).
  change (e_out e1) with (e_out e). change (e_attrs e1) with (e_attrs e). change (e_choices e1) with (e_choices e).
  change (e_multi e1) with (e_multi e). change (e_multi_cap e1) with (e_multi_cap e). change (flag_label e1) with (flag_label e).
  destruct (e_kind e) eqn:Ek; cbn [kind_ty] in Hty.
  - destruct (has_attr (e_attrs e) xFlagAttr_Multi); [|eexists _, _, _; split; [done|]; apply stored_applied; [done|by rewrite Hty|done]].
    set (w1 := store w (e_out e) (CStr (Some v))).
    assert (forall cap (w2 : world), length (e_multi e) + 1 < cap -> mem w2 = mem w1 -> err w2 = err w1 ->
      live (hp w2) = (live (hp w1) + if decide (e_multi_cap e = 0%nat) then 1 else 0)%Z ->
      applied b e w xErrno_Ok (set_multi e1 (e_multi e ++ [v]) cap) w2) as Hpush.
    { intros cap w2 Hcap Em Ee El. split; try done.
      - right. cbn. rewrite length_app. cbn. lia.
      - right. exists (CStr (Some v)). rewrite Em. split; [done|by rewrite Hty].
      - rewrite El, Ee. unfold entry_blocks. cbn. rewrite (decide_False (P := cap = 0)) by lia. case_decide; lia. }
    destruct (decide (e_multi_cap e <= length (e_multi e) + 1)) as [Hge|Hlt].
    + destruct (realloc alloc _ w1) as [ok2 w2] eqn:Er. apply realloc_eq in Er as (Em & Ee & El). destruct ok2.
      * destruct Hm as [[Hc Hl]|Hm].
        -- rewrite Hc, Hl in *. rewrite (decide_True (P := 0 = 0)) by done. rewrite decide_True by (cbn; lia).
           eexists _, _, _. split; [done|]. apply Hpush; [cbn; lia|done..|]. rewrite decide_True by done. rewrite El. by rewrite bool_decide_true.
        -- rewrite (decide_False (P := e_multi_cap e = 0)) by lia. rewrite decide_True by lia. eexists _, _, _. split; [done|].
           apply Hpush; [lia|done..|]. rewrite decide_False by lia. rewrite El. by rewrite bool_decide_false by lia.
      * eexists _, _, _. split; [done|]. split; try done; [right; exists (CStr (Some v)); rewrite Em; split; [done|by rewrite Hty]|].
        rewrite El, Ee. change (entry_blocks e1) with (entry_blocks e). cbn [andb]. change (hp w1) with (hp w). change (err w1) with (err w). lia.
    + rewrite decide_True by lia. eexists _, _, _. split; [done|]. apply Hpush; [lia|done..|]. rewrite decide_False by lia. lia.
  - eexists _, _, _. split; [done|]. split; try done. by left.
  - unfold i64_defined in Hdef. destruct (xFlagParseI64 (Some v)) as [r|] eqn:Er; [|done]. bind_some. destruct r as [x|].
    + destruct (Z.ltb_spec x INT_MIN), (Z.ltb_spec INT_MAX x); cbn [orb]; eexists _, _, _; (split; [done|]);
        try (apply SetErr_applied; done). apply stored_applied; [done|rewrite Hty; cbn; lia|done].
    + eexists _, _, _. split; [done|]. by apply SetErr_applied.
  - unfold i64_defined in Hdef. destruct (xFlagParseI64 (Some v)) as [r|] eqn:Er; [|done]. bind_some. destruct r as [x|].
    + eexists _, _, _. split; [done|]. apply stored_applied; [done|rewrite Hty; cbn; by eapply xFlagParseI64_range|done].
    + eexists _, _, _. split; [done|]. by apply SetErr_applied.
  - destruct (u64_defined v) as [r Er]. rewrite Er. bind_some. destruct r as [x|].
    + eexists _, _, _. split; [done|]. apply stored_applied; [done|rewrite Hty; cbn; by eapply xFlagParseU64_range|done].
    + eexists _, _, _. split; [done|]. by apply SetErr_applied.
  - destruct (xFlagParseDouble (Some v)) as [x|].
    + eexists _, _, _. split; [done|]. apply stored_applied; [done|by rewrite Hty|done].
    + eexists _, _, _. split; [done|]. by apply SetErr_applied.
  - case_decide; [eexists _, _, _; split; [done|]; apply stored_applied; [done|by rewrite Hty|done]|].
    destruct (malloc alloc w) as [b1 w1] eqn:E. apply malloc_eq in E as (Em & Ee & _ & El). destruct b1.
    + eexists _, _, _. split; [done|]. assert (no_error w1) as Hn1 by (unfold no_error in *; by rewrite Ee).
      unfold xFlagSetErr. unfold no_error in *. destruct err_out.
      * specialize (Hn1 eq_refl). destruct (malloc alloc w1) as [b2 w2] eqn:E2. apply malloc_eq in E2 as (Em2 & Ee2 & _ & El2).
        destruct b2; split; try done; cbn; try (by left; rewrite ?Em2, ?Em); rewrite El2, El, <- Ee, Hn1; cbn; rewrite ?Ee2, ?Hn1; cbn; unfold entry_blocks; cbn; lia.
      * split; try done; [by left|]. cbn. rewrite El, Ee. unfold entry_blocks. cbn. lia.
    + eexists _, _, _. split; [done|]. split; try done; [by left|]. rewrite El, Ee. unfold entry_blocks. cbn. lia.
  - eexists _, _, _. split; [done|]. split; try done. by left.
Qed.

Definition value_ok (value : option text) : Prop := match value with Some v => i64_defined v | None => True end.

Lemma apply_flag_ok b e (w : world) value :
  (0 <= b)%Z -> flag_ok (b + 1) w e -> mem_ok (b + 1) w -> no_error w -> value_ok value ->
  exists rc e' w', xFlagApplyFlag alloc err_out e value w = Some (rc, e', w') /\ applied b e w rc e' w'.
Proof.
  intros Hb [Hty [c Hc] Hs Hbud Hm] Hmem Hn Hv. unfold xFlagApplyFlag, int_inc. destruct (Z.ltb_spec (e_seen e) INT_MAX); [|lia]. bind_some.
  assert (exists rc e' w', match value with
      | None => Some (xErrno_InvalidArg, set_seen e (e_seen e + 1),
                  xFlagSetErr alloc err_out (txt "flag --" ++ flag_label (set_seen e (e_seen e + 1)) ++ txt " requires a value") w)
      | Some v => xFlagApplyValue alloc err_out (set_seen e (e_seen e + 1)) v w
      end = Some (rc, e', w') /\ applied b e w rc e' w') as Hval.
  { destruct value as [v|]; [by apply apply_value_ok|]. eexists _, _, _. split; [done|]. by apply SetErr_applied. }
  change (e_kind (set_seen e (e_seen e + 1))) with (e_kind e). change (e_out (set_seen e (e_seen e + 1))) with (e_out e).
  destruct (e_kind e) eqn:Ek; try exact Hval.
  - eexists _, _, _. split; [done|]. apply stored_applied; [done|by rewrite Hty|done].
  - rewrite Hc. pose proof (Hmem _ _ Hc) as Hct. rewrite Hty in Hct. cbn [kind_ty] in Hct. destruct c; try done. cbn in Hct.
    destruct (Z.ltb_spec v INT_MAX); [|lia]. bind_some. eexists _, _, _. split; [done|]. apply stored_applied; [done|rewrite Hty; cbn; lia|done].
Qed.

Lemma apply_at_ok b s (w : world) k e value :
  (0 <= b)%Z -> set_ok (b + 1) s w -> no_error w -> flags s !! k = Some e -> value_ok value ->
  exists rc s' w', apply_at alloc err_out s k value w = Some (rc, s', w') /\ set_ok b s' w' /\ extra s' w' = extra s w /\
    (rc = xErrno_Ok -> no_error w').
Proof.
  intros Hb [Hf Hm Hsh] Hn Hk Hv. pose proof (Forall_lookup_1 _ _ _ _ Hf Hk) as He.
  destruct (apply_flag_ok b e w value Hb He Hm Hn Hv) as (rc & e' & w' & E & [(Eo & Ekd & _) Eseen Hm' Hmem Hlive Hok]).
  unfold apply_at. rewrite Hk. bind_some. rewrite E. bind_some. eexists _, _, _. split; [done|]. cbn [fst snd].
  assert (forall l c, mem w' !! l = Some c -> (mem w !! l = Some c) \/ (l = e_out e /\ has_type b (ty l) c)) as Hnew.
  { intros l c. destruct Hmem as [->|(c0 & -> & Hc0)]; [by left|]. destruct (decide (e_out e = l)) as [<-|]; [|rewrite lookup_insert_ne by done; by left].
    rewrite lookup_insert_eq. intros [= <-]. by right. }
  assert (forall l, is_Some (mem w !! l) -> is_Some (mem w' !! l)) as Hkeep.
  { intros l Hl. destruct Hmem as [->|(c0 & -> & _)]; [done|]. apply lookup_insert_is_Some'. by right. }
  split; [split|split].
  - apply Forall_insert; [|split].
    + cbn. eapply Forall_impl; [done|]. intros x []. split; try done; [by apply Hkeep|lia].
    + by rewrite Eo, Ekd, (fo_type _ _ _ He).
    + rewrite Eo. by apply Hkeep, (fo_stored _ _ _ He).
    + pose proof (fo_seen _ _ _ He). lia.
    + pose proof (fo_budget _ _ _ He). lia.
    + done.
  - intros l c Hl. destruct (Hnew l c Hl) as [Ho|[_ ?]]; [|done]. eapply has_type_less, Hm; [lia|done].
  - destruct Hsh. by split.
  - unfold extra. pose proof (blocks_update s k e e' Hk). lia.
  - intros Hrc. unfold no_error in *. by rewrite (Hok Hrc).
Qed.

(** ** The arguments *)

Variable argv : list (option text).

(** The [int]s that the rest of the arguments can increment at most once per
    byte. *)
Definition budget (i : nat) : Z := Z.of_nat (sum_list ((fun a => match a with Some t => length t | None => 0 end) <$> drop i argv)).

(** Every argument is a string, and no part of one is the literal whose
    conversion is undefined. *)
Definition args_ok : Prop :=
  forall i a, argv !! i = Some a -> exists t, a = Some t /\ forall k, i64_defined (drop k t).

Lemma budget_step i t : argv !! i = Some (Some t) -> budget i = (Z.of_nat (length t) + budget (S i))%Z.
Proof.
  intros Hi. unfold budget. rewrite (drop_S _ _ _ Hi). cbn [fmap list_fmap].
  change (sum_list (length t :: ?l)) with (length t + sum_list l). lia.
Qed.

Lemma budget_nonneg i : (0 <= budget i)%Z.
Proof. unfold budget. lia. Qed.

Lemma budget_le i j : i <= j -> (budget j <= budget i)%Z.
Proof.
  intros Hij. induction Hij as [|j Hij IH]; [done|]. destruct (argv !! j) as [a|] eqn:Ej.
  - unfold budget in *. rewrite (drop_S _ _ _ Ej) in IH. cbn [fmap list_fmap] in IH.
    change (sum_list (?x :: ?l)) with (x + sum_list l) in IH. lia.
  - unfold budget. apply lookup_ge_None in Ej. rewrite drop_ge by lia. cbn. lia.
Qed.

(** The positions name arguments. *)
Definition places_ok (ps : positions) : Prop := positions_ok ps /\ Forall (fun i => i < length argv) (pos ps).

(** One round of the loop: the invariant goes on, or the function has returned
    with nothing left over. *)
Definition held (ps : positions) : Z := if decide (pos_cap ps = 0) then 0 else 1.

Definition outcome_ok (L : Z) (i0 : nat) (o : outcome (D := D)) : Prop :=
  match o with
  | Return rc s w => set_ok 0 s w /\ extra s w = L /\ rc <> xErrno_Ok
  | Next i ps s w => i0 < i /\ set_ok (budget i) s w /\ extra s w = (L + held ps)%Z /\ no_error w /\ places_ok ps
  end.

Lemma leave_ok L i0 rc ps s w b : (0 <= b)%Z -> rc <> xErrno_Ok -> set_ok b s w -> extra s w = (L + held ps)%Z -> outcome_ok L i0 (leave rc ps s w).
Proof.
  intros Hb Hrc Hs He. unfold leave, outcome_ok, free_pos. split; [|split; [|done]].
  - apply (set_ok_world _ _ w); [done|]. by apply (set_ok_less b).
  - unfold extra, held, free, h_free in *. cbn [set_hp hp live err]. case_decide; lia.
Qed.

Lemma push_pos_ok L b ps i s (w : world) :
  places_ok ps -> i < length argv -> set_ok b s w -> no_error w -> extra s w = (L + held ps)%Z ->
  exists ok ps' w', push_pos alloc ps i w = Some (ok, ps', w') /\ places_ok ps' /\ set_ok b s w' /\ no_error w' /\ extra s w' = (L + held ps')%Z.
Proof.
  intros [Hp Hf] Hi Hs Hn He. unfold push_pos, positions_ok in *.
  assert (forall cap, length (pos ps) < cap -> places_ok (Positions (pos ps ++ [i]) cap)) as Hpush.
  { intros cap Hc. split; [unfold positions_ok; cbn; rewrite length_app; cbn; lia|]. apply Forall_app. by split; [|constructor]. }
  destruct (decide (pos_cap ps <= length (pos ps))).
  - destruct (realloc alloc _ w) as [ok w1] eqn:Er. apply realloc_eq in Er as (Em & Ee & El).
    assert (set_ok b s w1) as Hs1 by by apply (set_ok_world _ _ w). assert (no_error w1) as Hn1 by (unfold no_error in *; by rewrite Ee).
    destruct ok.
    + assert (length (pos ps) < (if decide (pos_cap ps = 0) then 8 else pos_cap ps * 2)) as Hc by (destruct (decide (pos_cap ps = 0)); lia).
      rewrite (decide_True _ _ Hc). eexists _, _, _. split; [done|]. split; [by apply Hpush|].
      split; [done|]. split; [done|]. unfold extra, held in *. cbn [pos_cap] in *. rewrite El, Ee.
      destruct (decide (pos_cap ps = 0)) as [E0|E0]; [rewrite bool_decide_true by done|rewrite bool_decide_false by done]; cbn [negb andb decide].
      * rewrite decide_False by lia. lia.
      * rewrite decide_False by lia. lia.
    + eexists _, _, _. split; [done|]. split; [done|]. split; [done|]. split; [done|]. unfold extra in *. rewrite El, Ee. cbn [andb]. lia.
  - rewrite decide_True by lia. eexists _, _, _. split; [done|]. split; [apply Hpush; lia|]. split; [done|]. split; [done|].
    unfold held in *. by cbn [pos_cap].
Qed.

Lemma rest_positional_ok L i0 n i ps s w :
  i + n = length argv -> i0 < i -> places_ok ps -> set_ok (budget i) s w -> no_error w -> extra s w = (L + held ps)%Z ->
  exists o, rest_positional alloc n i ps s w = Some o /\ outcome_ok L i0 o.
Proof.
  revert i ps w. induction n as [|n IH]; intros i ps w Hn Hi Hp Hs Hne He; cbn [rest_positional].
  - eexists. split; [done|]. cbn. done.
  - destruct (push_pos_ok L (budget i) ps i s w Hp ltac:(lia) Hs Hne He) as (ok & ps' & w' & E & Hp' & Hs' & Hn' & He'). rewrite E. bind_some.
    destruct ok; [|eexists; split; [done|by apply (leave_ok L i0 _ _ _ _ (budget i)); [apply budget_nonneg|..]]].
    apply IH; try done; [lia|lia|]. apply (set_ok_less (budget i)); [apply budget_le; lia|done].
Qed.

Lemma positional_ok L i ps s w :
  i < length argv -> places_ok ps -> set_ok (budget i) s w -> no_error w -> extra s w = (L + held ps)%Z ->
  exists o, positional alloc i ps s w = Some o /\ outcome_ok L i o.
Proof.
  intros Hi Hp Hs Hne He. unfold positional.
  destruct (push_pos_ok L (budget i) ps i s w Hp Hi Hs Hne He) as (ok & ps' & w' & E & Hp' & Hs' & Hn' & He'). rewrite E. bind_some.
  eexists. split; [done|]. destruct ok; [|by apply (leave_ok L i _ _ _ _ (budget i)); [apply budget_nonneg|..]].
  cbn. split; [lia|]. split; [|done]. apply (set_ok_less (budget i)); [apply budget_le; lia|done].
Qed.

Lemma join_defined l : Forall is_Some l -> is_Some (join l).
Proof.
  induction 1 as [|t l [x ->] _ [y E]]; [by eexists|]. cbn [join]. bind_some. rewrite E. by eexists.
Qed.

Lemma print_help_ok s (w : world) : shape_ok s -> exists t, print_help s w = Some (print w t).
Proof.
  intros [[p Hp] Hps Ht]. assert (is_Some (xFlagPrintUsage s)) as [u Hu].
  { apply join_defined. rewrite Hp. repeat constructor; try by eexists. apply Forall_app. split.
    - apply Forall_fmap. eapply Forall_impl; [done|]. intros x [[n En] _]. cbn. rewrite En. by eexists.
    - repeat constructor; [|by eexists]. destruct (tail s) as [t|]; [|by eexists]. destruct Ht as [[n En] _]. rewrite En. by eexists. }
  assert (is_Some (xFlagPrintHelp s)) as [h Hh].
  { apply join_defined. rewrite Hu. apply Forall_app. split; [repeat constructor; by eexists|]. apply Forall_app. split.
    - destruct (bool_decide _ || _); [|constructor]. constructor; [by eexists|]. apply Forall_app. split.
      + apply Forall_fmap. eapply Forall_impl; [done|]. intros x [[n En] _]. unfold argument_line. cbn. rewrite En. by eexists.
      + constructor; [|done]. destruct (tail s) as [t|]; [|by eexists]. destruct Ht as [[n En] _]. unfold argument_line. rewrite En. by eexists.
    - apply Forall_app. split; [destruct (existsb _ _); repeat constructor; by eexists|]. repeat constructor; by eexists. }
  exists h. unfold print_help. by rewrite Hh.
Qed.

Lemma find_long_ok s name k : xFlagFindByLong s name = Some k -> is_Some (flags s !! k).
Proof.
  unfold xFlagFindByLong. destruct (list_find _ _) as [[j e]|] eqn:E; [|done]. intros [= <-]. apply list_find_Some in E as [-> _]. by eexists.
Qed.

Lemma find_short_ok s c k : xFlagFindByShort s c = Some k -> is_Some (flags s !! k).
Proof.
  unfold xFlagFindByShort. destruct (list_find _ _) as [[j e]|] eqn:E; [|done]. intros [= <-]. apply list_find_Some in E as [-> _]. by eexists.
Qed.

(** A flag applied with its value, after which argument [j] was the last. *)
Lemma apply_next_ok L i0 j b s w k e value ps :
  i0 <= j -> (0 <= b)%Z -> (budget (S j) <= b)%Z -> set_ok (b + 1) s w -> no_error w -> extra s w = (L + held ps)%Z -> places_ok ps ->
  flags s !! k = Some e -> value_ok value ->
  exists o, (r ← apply_at alloc err_out s k value w;
             Some (if decide (r.1.1 = xErrno_Ok) then Next (S j) ps r.1.2 r.2 else leave r.1.1 ps r.1.2 r.2)) = Some o /\ outcome_ok L i0 o.
Proof.
  intros Hij Hb Hbj Hs Hn He Hp Hk Hv. destruct (apply_at_ok b s w k e value Hb Hs Hn Hk Hv) as (rc & s' & w' & E & Hs' & He' & Hok).
  rewrite E. bind_some. cbn [fst snd]. eexists. split; [done|]. case_decide.
  - cbn. split; [lia|]. split; [by apply (set_ok_less b)|]. split; [congruence|]. split; [by apply Hok|done].
  - apply (leave_ok L i0 _ _ _ _ b); [done|done|done|congruence].
Qed.

Lemma SetErr_leave L i0 rc ps b s w msg : (0 <= b)%Z -> rc <> xErrno_Ok -> set_ok b s w -> no_error w -> extra s w = (L + held ps)%Z ->
  outcome_ok L i0 (leave rc ps s (xFlagSetErr alloc err_out msg w)).
Proof.
  intros Hb Hrc Hs Hn He. destruct (SetErr_ok b s w msg Hs Hn) as [Hs' He']. apply (leave_ok L i0 _ _ _ _ b); [done|done|done|congruence].
Qed.

Lemma print_leave L i0 rc ps b s w t : (0 <= b)%Z -> rc <> xErrno_Ok -> set_ok b s w -> extra s w = (L + held ps)%Z ->
  outcome_ok L i0 (leave rc ps s (print w t)).
Proof. intros Hb Hrc Hs He. apply (leave_ok L i0 _ _ _ _ b); [done|done|by apply (set_ok_world _ _ w)|done]. Qed.

Lemma args_value j a : args_ok -> argv !! j = Some a -> value_ok a.
Proof. intros Ha Hj. destruct (Ha j a Hj) as (t & -> & Ht). apply (Ht 0). Qed.

Lemma cut_at_suffix c s : exists k, match (cut_at c s).2 with Some v => v = drop k s | None => True end.
Proof.
  induction s as [|x s [k IH]]; [by exists 0|]. cbn [cut_at]. destruct (x =? c)%Z; [by exists 1|]. exists (S k). exact IH.
Qed.

Lemma long_option_ok L i body ps s w :
  i < length argv -> (forall k, i64_defined (drop k body)) -> args_ok ->
  places_ok ps -> set_ok (budget (S i) + 1) s w -> no_error w -> extra s w = (L + held ps)%Z ->
  exists o, long_option alloc err_out argv i body ps s w = Some o /\ outcome_ok L i o.
Proof.
  intros Hi Hbody Hargs Hp Hs Hn He. pose proof (budget_nonneg (S i)) as Hb. unfold long_option.
  destruct (cut_at_suffix 61 body) as [j Hj]. destruct (cut_at 61 body) as [name eq] eqn:Ecut. cbn [snd] in Hj.
  destruct (decide (name = txt "help")).
  { destruct (print_help_ok s w (st_shape _ _ _ Hs)) as [t ->]. bind_some. eexists. split; [done|]. by apply (print_leave L i _ _ (budget (S i) + 1)); [lia|..]. }
  destruct (if decide (name = txt "version") then version s else None) as [v|].
  { eexists. split; [done|]. by apply (print_leave L i _ _ (budget (S i) + 1)); [lia|..]. }
  destruct (xFlagFindByLong s name) as [k|] eqn:Ef; [|eexists; split; [done|by apply (SetErr_leave L i _ _ (budget (S i) + 1)); [lia|..]]].
  destruct (find_long_ok _ _ _ Ef) as [e Hk]. rewrite Hk. bind_some. destruct (xFlagNeedsValue e).
  - destruct eq as [v|].
    + apply (apply_next_ok L i i (budget (S i)) s w k e); try done. subst v. apply Hbody.
    + destruct (decide (i + 1 < length argv)) as [Hlt|]; [|eexists; split; [done|by apply (SetErr_leave L i _ _ (budget (S i) + 1)); [lia|..]]].
      destruct (lookup_lt_is_Some_2 argv (i + 1) Hlt) as [a Ea]. rewrite Ea. bind_some.
      apply (apply_next_ok L i (i + 1) (budget (S i)) s w k e); try done; [lia|apply budget_le; lia|by eapply args_value].
  - destruct eq as [v|]; [eexists; split; [done|by apply (SetErr_leave L i _ _ (budget (S i) + 1)); [lia|..]]|].
    by apply (apply_next_ok L i i (budget (S i)) s w k e).
Qed.

Lemma short_options_ok L i p ps s w :
  i < length argv -> (forall k, i64_defined (drop k p)) -> args_ok ->
  places_ok ps -> set_ok (Z.of_nat (length p) + budget (S i)) s w -> no_error w -> extra s w = (L + held ps)%Z ->
  exists o, short_options alloc err_out argv i p ps s w = Some o /\ outcome_ok L i o.
Proof.
  intros Hi. pose proof (budget_nonneg (S i)) as Hb. revert s w. induction p as [|c p IH]; intros s w Hdef Hargs Hp Hs Hn He; cbn [short_options].
  { eexists. split; [done|]. cbn. split; [lia|]. done. }
  assert (set_ok (Z.of_nat (length p) + budget (S i) + 1) s w) as Hs1 by (eapply set_ok_less, Hs; cbn [length]; lia).
  destruct (xFlagFindByShort s c) as [k|] eqn:Ef.
  - destruct (find_short_ok _ _ _ Ef) as [e Hk]. rewrite Hk. bind_some. destruct (xFlagNeedsValue e).
    + destruct p as [|d p].
      * destruct (decide (i + 1 < length argv)) as [Hlt|]; [|eexists; split; [done|by apply (SetErr_leave L i _ _ (Z.of_nat (length ([] : text)) + budget (S i) + 1)); [lia|..]]].
        destruct (lookup_lt_is_Some_2 argv (i + 1) Hlt) as [a Ea]. rewrite Ea. bind_some.
        apply (apply_next_ok L i (i + 1) (budget (S i)) s w k e); try done; [lia|apply budget_le; lia|by eapply args_value].
      * apply (apply_next_ok L i i (Z.of_nat (length (d :: p)) + budget (S i)) s w k e); try done; [lia|lia|]. apply (Hdef 1).
    + destruct (apply_at_ok (Z.of_nat (length p) + budget (S i)) s w k e None ltac:(lia) Hs1 Hn Hk I) as (rc & s' & w' & E & Hs' & He' & Hok).
      rewrite E. bind_some. cbn [fst snd]. case_decide as Hrc.
      * apply IH; try done; [intros j; apply (Hdef (S j))|by apply Hok|congruence].
      * eexists. split; [done|]. apply (leave_ok L i _ _ _ _ (Z.of_nat (length p) + budget (S i))); [lia|done|done|congruence].
  - destruct (c =? 104)%Z.
    { destruct (print_help_ok s w (st_shape _ _ _ Hs)) as [t ->]. bind_some. eexists. split; [done|]. by apply (print_leave L i _ _ (Z.of_nat (length p) + budget (S i) + 1)); [lia|..]. }
    destruct (if (c =? 86)%Z then version s else None) as [v|].
    { eexists. split; [done|]. by apply (print_leave L i _ _ (Z.of_nat (length p) + budget (S i) + 1)); [lia|..]. }
    eexists. split; [done|]. by apply (SetErr_leave L i _ _ (Z.of_nat (length p) + budget (S i) + 1)); [lia|..].
Qed.

Lemma parse_arg_ok L i a ps s w :
  argv !! i = Some (Some a) -> args_ok -> places_ok ps -> set_ok (budget i) s w -> no_error w -> extra s w = (L + held ps)%Z ->
  exists o, parse_arg alloc err_out argv i a ps s w = Some o /\ outcome_ok L i o.
Proof.
  intros Ha Hargs Hp Hs Hn He. apply lookup_lt_Some in Ha as Hi. destruct (Hargs _ _ Ha) as (t & [= <-] & Hdef).
  rewrite (budget_step _ _ Ha) in Hs. unfold parse_arg. case_decide as Edd.
  - apply (rest_positional_ok L i _ (S i)); try done; [lia|lia|]. eapply set_ok_less, Hs. lia.
  - assert (exists o, positional alloc i ps s w = Some o /\ outcome_ok L i o) as Hpos.
    { apply positional_ok; try done. by rewrite (budget_step _ _ Ha). }
    destruct a as [|c0 [|c1 p]]; [exact Hpos..|]. destruct (c0 =? 45)%Z; [|exact Hpos]. cbn [length] in Hs. destruct (c1 =? 45)%Z.
    + apply long_option_ok; try done; [intros k; apply (Hdef (S (S k)))|]. eapply set_ok_less, Hs. lia.
    + apply short_options_ok; try done; [intros k; apply (Hdef (S k))|]. eapply set_ok_less, Hs. cbn [length]. lia.
Qed.

Definition loop_ok (L : Z) (o : outcome (D := D)) : Prop :=
  match o with
  | Return rc s w => set_ok 0 s w /\ extra s w = L /\ rc <> xErrno_Ok
  | Next _ ps s w => set_ok 0 s w /\ extra s w = (L + held ps)%Z /\ no_error w /\ places_ok ps
  end.

Lemma parse_loop_ok L fuel i ps s w :
  length argv - i <= fuel -> args_ok -> places_ok ps -> set_ok (budget i) s w -> no_error w -> extra s w = (L + held ps)%Z ->
  exists o, parse_loop alloc err_out argv fuel i ps s w = Some o /\ loop_ok L o.
Proof.
  revert i ps s w. induction fuel as [|fuel IH]; intros i ps s w Hf Hargs Hp Hs Hn He; cbn [parse_loop].
  all: destruct (decide (length argv <= i)) as [|Hlt]; [eexists; split; [done|]; split; [apply (set_ok_less (budget i)); [apply budget_nonneg|done]|done]|].
  { lia. }
  destruct (lookup_lt_is_Some_2 argv i ltac:(lia)) as [a Ea]. rewrite Ea. bind_some. destruct (Hargs _ _ Ea) as (t & -> & _).
  destruct (parse_arg_ok L i t ps s w Ea Hargs Hp Hs Hn He) as (o & -> & Ho). bind_some.
  destruct o as [rc s' w'|j ps' s' w']; [by eexists|]. destruct Ho as (Hij & Hs' & He' & Hn' & Hp'). apply IH; try done. lia.
Qed.

Lemma pos_arg_ok ps k : args_ok -> places_ok ps -> k < length (pos ps) -> exists t, pos_arg argv ps k = Some (Some t).
Proof.
  intros Ha [_ Hp] Hk. destruct (lookup_lt_is_Some_2 _ _ Hk) as [i Hi]. unfold pos_arg. rewrite Hi. bind_some.
  destruct (lookup_lt_is_Some_2 argv i) as [a Ea]; [apply (Forall_lookup_1 _ _ _ _ Hp Hi)|]. destruct (Ha _ _ Ea) as (t & -> & _). by exists t.
Qed.

Lemma assign_ok b l at_ ps s (w : world) :
  args_ok -> places_ok ps -> Forall (fun p => is_Some (p_name p) /\ ty (p_out p) = TStr) l -> set_ok b s w ->
  exists r w', assign argv l at_ ps w = Some (r, w') /\ set_ok b s w' /\ hp w' = hp w /\ err w' = err w /\
    match r with inl n => n <= at_ + length l | inr name => is_Some name end.
Proof.
  intros Ha Hp Hl. revert at_ w. induction Hl as [|p l [Hname Hty] _ IH]; intros at_ w Hs; cbn [assign].
  { eexists _, _. split; [done|]. do 3 (split; [done|]). cbn. lia. }
  case_decide as Hat.
  - destruct (pos_arg_ok ps at_ Ha Hp Hat) as [t ->]. bind_some.
    destruct (IH (S at_) (store w (p_out p) (CStr (Some t)))) as (r & w' & E & Hs' & Eh & Ee & Hr); [apply store_ok; [done|by rewrite Hty]|].
    exists r, w'. split; [done|]. do 3 (split; [done|]). destruct r; [cbn [length]; lia|done].
  - destruct (has_attr (p_attrs p) xFlagAttr_Required); [eexists _, _; split; [done|]; by do 3 (split; [done|])|].
    destruct (IH at_ w Hs) as (r & w' & E & Hs' & Eh & Ee & Hr). exists r, w'. split; [done|]. do 3 (split; [done|]). destruct r; [cbn [length]; lia|done].
Qed.

Lemma SetErrName_ok b s (w : world) msg name : set_ok b s w -> no_error w -> is_Some name ->
  exists w', SetErrName alloc err_out msg name w = Some w' /\ set_ok b s w' /\ extra s w' = extra s w.
Proof.
  intros Hs Hn [n ->]. unfold SetErrName. destruct (SetErr_ok b s w (msg ++ n) Hs Hn) as [Hs' He'].
  destruct err_out; [|by exists w]. eexists. by split.
Qed.

Lemma tail_values_ok ps at_ : args_ok -> places_ok ps -> exists l, tail_values argv ps at_ = Some l.
Proof.
  intros Ha Hp. unfold tail_values. apply mapM_is_Some, Forall_forall. intros k Hk%elem_of_seq.
  destruct (pos_arg_ok ps k Ha Hp) as [t E]; [lia|]. exact (ex_intro _ _ E).
Qed.

(** What a parse that succeeds has checked. *)
Definition satisfied (s : xFlagSet) : Prop := Forall (fun e => has_attr (e_attrs e) xFlagAttr_Required = true -> (0 < e_seen e)%Z) (flags s).

Definition result_ok (L : Z) (rc : xErrno) (s : xFlagSet) (w : world) : Prop :=
  set_ok 0 s w /\ extra s w = L /\ (rc = xErrno_Ok -> satisfied s).

Lemma free_result L rc ps s (w : world) : set_ok 0 s w -> extra s w = (L + held ps)%Z -> (rc = xErrno_Ok -> satisfied s) ->
  result_ok L rc s (free_pos ps w).
Proof.
  intros Hs He Hr. split; [by apply (set_ok_world _ _ w)|]. split; [|done].
  unfold extra, held, free_pos, free, h_free in *. cbn [set_hp hp live err]. case_decide; lia.
Qed.

Lemma flag_finish_ok L ps s (w : world) :
  args_ok -> places_ok ps -> set_ok 0 s w -> no_error w -> extra s w = (L + held ps)%Z ->
  exists rc s' w', finish alloc err_out argv ps s w = Some (rc, s', w') /\ result_ok L rc s' w'.
Proof.
  intros Ha Hp Hs Hn He. unfold finish. destruct (find missing (flags s)) as [e|] eqn:Ef.
  { eexists _, _, _. split; [done|]. destruct (SetErr_ok 0 s w (match e_name e with
      | Some n => txt "missing required flag: --" ++ n | None => txt "missing required flag: -" ++ [e_shortc e] end) Hs Hn) as [Hs' He'].
    apply free_result; [done|congruence|done]. }
  assert (satisfied s) as Hsat.
  { apply Forall_forall. intros e Hin Hreq. apply list_elem_of_In in Hin. pose proof (find_none _ _ Ef e Hin) as Hm. unfold missing in Hm.
    rewrite Hreq in Hm. apply Z.eqb_neq in Hm. destruct Hs as [Hf _ _]. rewrite Forall_forall in Hf.
    pose proof (fo_seen _ _ _ (Hf e ltac:(by apply list_elem_of_In))). lia. }
  destruct Hs as [Hf Hm Hsh]. destruct (assign_ok 0 (positionals s) 0 ps s w Ha Hp (so_positionals _ Hsh)) as (r & w1 & E & Hs1 & Eh & Ee & Hr); [by split|].
  rewrite E. bind_some. cbn [fst snd]. assert (extra s w1 = (L + held ps)%Z) as He1 by (unfold extra in *; congruence).
  assert (no_error w1) as Hn1 by (unfold no_error in *; by rewrite Ee). destruct r as [at_|name].
  2: { destruct (SetErrName_ok 0 s w1 (txt "missing required argument: ") name Hs1 Hn1 Hr) as (w2 & -> & Hs2 & He2). bind_some.
       eexists _, _, _. split; [done|]. apply free_result; [done|congruence|done]. }
  destruct (tail s) as [t|] eqn:Et.
  - destruct (malloc alloc w1) as [b1 w2] eqn:E2. apply malloc_eq in E2 as (Em2 & Ee2 & _ & El2).
    assert (set_ok 0 s w2) as Hs2 by (by apply (set_ok_world _ _ w1)). destruct b1; cbn [negb].
    2: { eexists _, _, _. split; [done|]. apply free_result; [done| |done]. unfold extra in *. rewrite El2, Ee2. lia. }
    destruct (tail_values_ok ps at_ Ha Hp) as [l ->]. bind_some.
    pose proof (so_tail _ Hsh) as Hst. rewrite Et in Hst. destruct Hst as (Hname & Hty & Hcty).
    set (s3 := set_tail s _). set (w3 := store (free (blk (t_buf t)) w2) (t_out t) (CTail (Some l))).
    set (w4 := match t_count t with Some c => store w3 c (CCount (length l)) | None => w3 end).
    assert (set_ok 0 s3 w3) as Hs3.
    { destruct Hs2 as [Hf2 Hm2 [Hpr Hps _]]. apply (store_ok 0 s3); [|by rewrite Hty]. apply (set_ok_world _ _ w2); [done|]. split; [done..|]. by split. }
    assert (set_ok 0 s3 w4) as Hs4.
    { unfold w4. destruct (t_count t) as [c|]; [|done]. apply store_ok; [done|]. by rewrite Hcty. }
    assert (hp w4 = h_free (blk (t_buf t)) (hp w2) /\ err w4 = err w2) as [Eh4 Ee4] by (unfold w4; by destruct (t_count t)).
    assert (extra s3 w4 = (L + held ps)%Z) as He4.
    { unfold extra in *. rewrite Eh4, Ee4, Ee2. unfold h_free. cbn [live]. rewrite El2.
      assert (set_blocks s3 + tail_blocks t = set_blocks s + (blk (t_name t) + blk (t_help t) + 2)) as Hblk
        by (unfold set_blocks, s3; cbn [set_tail flags positionals FlagSet.tail prog summary epilog version]; rewrite Et; unfold tail_blocks; cbn; lia).
      unfold tail_blocks in Hblk. lia. }
    assert (satisfied s3) as Hsat3 by done.
    destruct (has_attr (t_attrs t) xFlagAttr_Required && _).
    + destruct (SetErrName_ok 0 s3 w4 (txt "missing required argument: ") (t_name t) Hs4) as (w5 & -> & Hs5 & He5).
      { unfold no_error in *. by rewrite Ee4, Ee2. } { done. } bind_some.
      eexists _, _, _. split; [done|]. apply free_result; [done|congruence|done].
    + eexists _, _, _. split; [done|]. by apply free_result.
  - case_decide as Hat.
    + destruct (pos_arg_ok ps at_ Ha Hp Hat) as [a ->]. bind_some.
      destruct (SetErrName_ok 0 s w1 (txt "unexpected argument: ") (Some a) Hs1 Hn1) as (w2 & -> & Hs2 & He2); [by eexists|]. bind_some.
      eexists _, _, _. split; [done|]. apply free_result; [done|congruence|done].
    + eexists _, _, _. split; [done|]. by apply free_result.
Qed.
End safe.

(** ** Registration keeps the books too *)

Section books.
Context {D : Type} `{FlagDouble D}.
Variable alloc : nat -> bool.

Abbreviation world := (Flag.world (D := D)).

Lemma strdup_eq t (w : world) r w' : xFlagStrdup alloc t w = (r, w') ->
  err w' = err w /\ live (hp w') = (live (hp w) + Z.of_nat (blk r))%Z /\ (t = None -> r = None).
Proof.
  unfold xFlagStrdup. destruct t as [t|].
  - destruct (malloc alloc w) as [b1 w1] eqn:E. apply malloc_eq in E as (_ & Ee & _ & El). intros [= <- <-]. by destruct b1.
  - intros [= <- <-]. split; [done|]. cbn. split; [lia|done].
Qed.

Lemma blocks_snoc s e : set_blocks (FSet (prog s) (summary s) (epilog s) (version s) (flags s ++ [e]) (positionals s) (tail s) (S (n_flags s)) (n_positionals s))
  = set_blocks s + entry_blocks e.
Proof. unfold set_blocks. cbn [flags positionals FlagSet.tail prog summary epilog version]. rewrite fmap_app, sum_list_with_app. cbn. lia. Qed.

(** Whatever fails on the way, a registration leaves the heap as it was, but
    for the blocks the set now owns. *)
Lemma add_flag_extra s name shortc meta help storage choices def checked init attrs kind (w : world) rc s' w' :
  add_flag alloc s name shortc meta help storage choices def checked init attrs kind w = (rc, s', w') -> extra s' w' = extra s w.
Proof.
  unfold add_flag, xFlagEntryNew. destruct (negb _ && _); [by intros [= _ <- <-]|].
  destruct (malloc alloc w) as [b0 w0] eqn:E0. apply malloc_eq in E0 as (_ & Ee0 & _ & El0).
  destruct b0; cbn [negb]; [|intros [= _ <- <-]; unfold extra; rewrite El0, Ee0; lia].
  destruct (xFlagStrdup alloc name w0) as [n w1] eqn:E1. apply strdup_eq in E1 as (Ee1 & El1 & _).
  destruct (xFlagStrdup alloc meta w1) as [m w2] eqn:E2. apply strdup_eq in E2 as (Ee2 & El2 & _).
  destruct (xFlagStrdup alloc help w2) as [h w3] eqn:E3. apply strdup_eq in E3 as (Ee3 & El3 & _).
  destruct (_ || _ || _).
  { intros [= _ <- <-]. unfold extra, free, h_free. cbn [set_hp hp err live]. rewrite El3, El2, El1, El0, Ee3, Ee2, Ee1, Ee0. lia. }
  destruct (xFlagStrdup alloc def w3) as [d w4] eqn:E4. apply strdup_eq in E4 as (Ee4 & El4 & Hd). unfold with_storage.
  cbn [e_name e_shortc e_meta e_help e_attrs e_kind e_seen e_multi e_multi_cap e_def].
  destruct (checked && bool_decide (is_Some def) && negb (bool_decide (is_Some d))) eqn:Ec.
  { apply andb_prop in Ec as [_ Ec]. destruct d; [done|]. cbn [blk] in El4.
    intros [= _ <- <-]. unfold extra, free, h_free. cbn [set_hp hp err live]. rewrite El4, El3, El2, El1, El0, Ee4, Ee3, Ee2, Ee1, Ee0. lia. }
  unfold xFlagSetAddEntry. cbn [e_name e_shortc].
  repeat (destruct (_ && bool_decide (Exists _ _));
    [intros [= _ <- <-]; unfold extra, free, h_free, store; cbn [set_hp hp err live];
     rewrite El4, El3, El2, El1, El0, Ee4, Ee3, Ee2, Ee1, Ee0; lia|]).
  intros [= _ <- <-]. unfold extra. cbn [store hp err]. rewrite blocks_snoc.
  unfold entry_blocks. cbn [e_name e_meta e_help e_def e_multi_cap]. rewrite decide_True by done.
  rewrite El4, El3, El2, El1, El0, Ee4, Ee3, Ee2, Ee1, Ee0. lia.
Qed.
End books.

(** ** The theorem *)


(** Integers for doubles. *)
#[export] Instance int_flag_double : FlagDouble Z := {| f_strtod := strtoll0; f_fmt_g := print_lld |}.

Definition i64_definedb (v : text) : bool := match xFlagParseI64 (Some v) with Some _ => true | None => false end.

Definition args_okb (argv : list (option text)) : bool :=
  forallb (fun a => match a with Some t => forallb (fun k => i64_definedb (drop k t)) (seq 0 (S (length t))) | None => false end) argv.

Lemma args_ok_check argv : args_okb argv = true -> args_ok argv.
Proof.
  unfold args_okb. rewrite forallb_forall. intros Ha i a Hi. specialize (Ha a ltac:(by eapply list_elem_of_In, list_elem_of_lookup_2)).
  destruct a as [t|]; [|done]. exists t. split; [done|]. rewrite forallb_forall in Ha. intros k.
  destruct (decide (k <= length t)) as [Hk|Hk]; [|by rewrite drop_ge by lia].
  specialize (Ha k ltac:(apply in_seq; lia)). unfold i64_defined, i64_definedb in *. by destruct (xFlagParseI64 _).
Qed.

Lemma mem_ok_check ty b (w : world (D := Z)) : Forall (fun lc => has_type b (ty lc.1) lc.2) (map_to_list (mem w)) -> mem_ok ty b w.
Proof. intros Hf l c Hl. apply elem_of_map_to_list in Hl. rewrite Forall_forall in Hf. exact (Hf _ Hl). Qed.

Definition demo_ty (l : nat) : cty := match l with 0 => TCounter | 1 => TInt | _ => TStr end.

Definition demo_world : world (D := Z) := World {[0 := CInt 0; 1 := CInt 5; 2 := CStr None]} (Heap 0 9) None [].

Definition demo_set : xFlagSet :=
  FSet (Some (txt "prog")) None None None
    [Entry (Some (txt "verbose")) 118 None None None 0 xFlagKind_Counter 0 0 [] [] 0;
     Entry (Some (txt "num")) 110 (Some (txt "N")) None (Some (txt "5")) 1 xFlagKind_Int 0 1 [] [] 0]
    [Positional (Some (txt "FILE")) None 1 2] None 2 1.

Definition demo_argv : list (option text) := Some <$> [txt "prog"; txt "-vvn"; txt "0x10"; txt "input"].

