(* ===== verification/FlagSyntax.v ===== *)
(** * FlagSyntax: every documented way to write an argument is understood

    An argument vector written from a list of items parses as the occurrences
    the items stand for, applied in order, with the positionals collected.  The
    allocator succeeds. *)

From Stdlib Require Import String.
From S2P Require Import Prelude Errno Decimal Wire Flag FlagSet FlagParse FlagSafe.

Abbreviation length := Datatypes.length.

(** One way to give flags, or a positional argument. *)
Inductive item :=
  | LongEq (k : nat) (v : text)                    (* --name=value *)
  | LongNext (k : nat) (v : text)                  (* --name value *)
  | LongSwitch (k : nat)                           (* --name *)
  | Shorts (ks : list nat)                         (* -abc *)
  | ShortGlued (ks : list nat) (k : nat) (v : text) (* -abfvalue *)
  | ShortNext (ks : list nat) (k : nat) (v : text) (* -abf value *)
  | Arg (a : text).

Definition name_of (s : xFlagSet) (k : nat) : text := match flags s !! k with Some e => default [] (e_name e) | None => [] end.
Definition short_of (s : xFlagSet) (k : nat) : Z := match flags s !! k with Some e => e_shortc e | None => 0%Z end.

Abbreviation dash := 45%Z.
Abbreviation equals := 61%Z.

Definition render (s : xFlagSet) (it : item) : list text :=
  match it with
  | LongEq k v => [dash :: dash :: name_of s k ++ equals :: v]
  | LongNext k v => [dash :: dash :: name_of s k; v]
  | LongSwitch k => [dash :: dash :: name_of s k]
  | Shorts ks => [dash :: (short_of s <$> ks)]
  | ShortGlued ks k v => [dash :: (short_of s <$> ks) ++ short_of s k :: v]
  | ShortNext ks k v => [dash :: (short_of s <$> ks) ++ [short_of s k]; v]
  | Arg a => [a]
  end.

(** The flags it gives, with their values, and the positional it is. *)
Definition occurrences (it : item) : list (nat * option text) :=
  match it with
  | LongEq k v | LongNext k v => [(k, Some v)]
  | LongSwitch k => [(k, None)]
  | Shorts ks => (fun k => (k, None)) <$> ks
  | ShortGlued ks k v | ShortNext ks k v => ((fun k => (k, None)) <$> ks) ++ [(k, Some v)]
  | Arg _ => []
  end.
Definition argument (it : item) : list text := match it with Arg a => [a] | _ => [] end.

(** The flag can be named so. *)
Record long_ok (s : xFlagSet) (k : nat) (needs : bool) : Prop := {
  lo_find : xFlagFindByLong s (name_of s k) = Some k;
  lo_needs : xFlagNeedsValue <$> (flags s !! k) = Some needs;
  lo_plain : ~ (equals ∈ name_of s k) /\ name_of s k <> [] /\ name_of s k <> txt "help";
  lo_version : name_of s k = txt "version" -> version s = None;
}.

Record short_ok (s : xFlagSet) (k : nat) (needs : bool) : Prop := {
  sh_find : xFlagFindByShort s (short_of s k) = Some k;
  sh_needs : xFlagNeedsValue <$> (flags s !! k) = Some needs;
  sh_plain : short_of s k <> dash;
}.

Definition item_ok (s : xFlagSet) (it : item) : Prop :=
  match it with
  | LongEq k _ | LongNext k _ => long_ok s k true
  | LongSwitch k => long_ok s k false
  | Shorts ks => ks <> [] /\ Forall (fun k => short_ok s k false) ks
  | ShortGlued ks k v => Forall (fun k => short_ok s k false) ks /\ short_ok s k true /\ v <> []
  | ShortNext ks k _ => Forall (fun k => short_ok s k false) ks /\ short_ok s k true
  | Arg a => a = [dash] \/ head a <> Some dash
  end.

Section syntax.
Context {D : Type} `{FlagDouble D}.
Variable err_out : bool.

Abbreviation world := (Flag.world (D := D)).
Abbreviation always := (fun _ : nat => true).
Ltac bind_some := cbn [mbind option_bind].

(** The occurrences applied one after the other, as long as they succeed. *)
Fixpoint apply_occs (l : list (nat * option text)) (s : xFlagSet) (w : world) : ub (xErrno * xFlagSet * world) :=
  match l with
  | [] => Some (xErrno_Ok, s, w)
  | (k, v) :: l =>
      r ← apply_at always err_out s k v w;
      if decide (r.1.1 = xErrno_Ok) then apply_occs l r.1.2 r.2 else Some r
  end.

Lemma apply_occs_app l l' s w s' w' :
  apply_occs (l ++ l') s w = Some (xErrno_Ok, s', w') ->
  exists s1 w1, apply_occs l s w = Some (xErrno_Ok, s1, w1) /\ apply_occs l' s1 w1 = Some (xErrno_Ok, s', w').
Proof.
  revert s w. induction l as [|[k v] l IH]; intros s w; cbn [app apply_occs]; [by eauto|].
  destruct (apply_at always err_out s k v w) as [[[rc s1] w1]|]; [|done]. bind_some. cbn [fst snd].
  case_decide; [apply IH|congruence].
Qed.

(** ** The heap does not matter *)

Lemma malloc_hp (w : world) h : exists h1 h2, malloc always w = (true, set_hp w h1) /\ malloc always (set_hp w h) = (true, set_hp w h2).
Proof. by eexists _, _. Qed.

Lemma realloc_hp had (w : world) h : exists h1 h2, realloc always had w = (true, set_hp w h1) /\ realloc always had (set_hp w h) = (true, set_hp w h2).
Proof. unfold realloc, malloc, h_alloc. destruct had; by eexists _, _. Qed.

Lemma SetErr_hp msg (w : world) h : exists h', xFlagSetErr always err_out msg (set_hp w h) = set_hp (xFlagSetErr always err_out msg w) h'.
Proof. unfold xFlagSetErr. destruct err_out; by eexists. Qed.

(** A result on one heap is the result on every heap, but for the heap. *)
Ltac same_result h :=
  intros [= <- <- <-];
  first [by eexists
        | match goal with |- context [xFlagSetErr always err_out ?m (set_hp ?w h)] => destruct (SetErr_hp m w h) as [? ->]; by eexists end].

Lemma apply_value_hp e v (w : world) h rc e' w' :
  xFlagApplyValue always err_out e v w = Some (rc, e', w') -> exists h', xFlagApplyValue always err_out e v (set_hp w h) = Some (rc, e', set_hp w' h').
Proof.
  unfold xFlagApplyValue. destruct (e_kind e).
  - destruct (has_attr _ _); [|same_result h]. case_decide.
    + change (store (set_hp w h) (e_out e) (CStr (Some v))) with (set_hp (store w (e_out e) (CStr (Some v))) h).
      destruct (realloc_hp (negb (bool_decide (e_multi_cap e = 0))) (store w (e_out e) (CStr (Some v))) h) as (h1 & h2 & -> & ->).
      repeat case_decide; try done; same_result h.
    + case_decide; [|done]. same_result h.
  - same_result h.
  - destruct (xFlagParseI64 (Some v)) as [[x|]|]; [| |done]; bind_some; [destruct (_ || _)|]; same_result h.
  - destruct (xFlagParseI64 (Some v)) as [[x|]|]; [| |done]; bind_some; same_result h.
  - destruct (xFlagParseU64 (Some v)) as [[x|]|]; [| |done]; bind_some; same_result h.
  - destruct (xFlagParseDouble (Some v)); same_result h.
  - case_decide; [same_result h|]. destruct (malloc_hp w h) as (h1 & h2 & -> & ->).
    match goal with |- context [xFlagSetErr always err_out ?m (set_hp w h1)] => set (msg := m) end.
    destruct (SetErr_hp msg w h1) as [h3 ->], (SetErr_hp msg w h2) as [h4 ->]. intros [= <- <- <-]. by eexists.
  - same_result h.
Qed.

Lemma apply_at_hp s k v (w : world) h rc s' w' :
  apply_at always err_out s k v w = Some (rc, s', w') -> exists h', apply_at always err_out s k v (set_hp w h) = Some (rc, s', set_hp w' h').
Proof.
  unfold apply_at. destruct (flags s !! k) as [e|]; [|done]. bind_some. unfold xFlagApplyFlag.
  destruct (int_inc (e_seen e)) as [n|]; [|done]. bind_some. change (mem (set_hp w h)) with (mem w).
  assert (forall r, (match v with
      | Some v => xFlagApplyValue always err_out (set_seen e n) v w
      | None => Some (xErrno_InvalidArg, set_seen e n, xFlagSetErr always err_out (txt "flag --" ++ flag_label (set_seen e n) ++ txt " requires a value") w)
      end) = Some r -> exists h', (match v with
      | Some v => xFlagApplyValue always err_out (set_seen e n) v (set_hp w h)
      | None => Some (xErrno_InvalidArg, set_seen e n, xFlagSetErr always err_out (txt "flag --" ++ flag_label (set_seen e n) ++ txt " requires a value") (set_hp w h))
      end) = Some (r.1, set_hp r.2 h')) as Hv.
  { intros [[rc1 e1] w1]. destruct v as [v|]; [apply apply_value_hp|]. intros [= <- <- <-].
    match goal with |- context [xFlagSetErr always err_out ?m (set_hp w h)] => destruct (SetErr_hp m w h) as [? ->] end. by eexists. }
  destruct (e_kind (set_seen e n)).
  all: try (destruct (match v with Some _ => _ | None => _ end) as [r|]; [|done]; bind_some; destruct (Hv _ eq_refl) as [h' ->]; bind_some;
            intros [= <- <- <-]; by eexists).
  - bind_some. same_result h.
  - destruct (mem w !! _) as [[]|]; try done. destruct (int_inc v0); [|done]. bind_some. same_result h.
Qed.

(** ** What a flag's application leaves of the set *)

(** The names, kinds and attributes of the flags, and the version, stay. *)
Definition same_flags (s s' : xFlagSet) : Prop :=
  (fun e => (e_name e, e_shortc e, e_kind e)) <$> flags s' = (fun e => (e_name e, e_shortc e, e_kind e)) <$> flags s /\ version s' = version s.

Lemma same_entry s s' k : same_flags s s' ->
  (fun e => (e_name e, e_shortc e, e_kind e)) <$> flags s' !! k = (fun e => (e_name e, e_shortc e, e_kind e)) <$> flags s !! k.
Proof. intros [E _]. by rewrite <- !list_lookup_fmap, E. Qed.

Lemma apply_flag_same e v (w : world) rc e' w' : xFlagApplyFlag always err_out e v w = Some (rc, e', w') ->
  e_name e' = e_name e /\ e_shortc e' = e_shortc e /\ e_kind e' = e_kind e.
Proof.
  unfold xFlagApplyFlag. destruct (int_inc (e_seen e)) as [n|]; [|done]. bind_some.
  destruct (e_kind (set_seen e n)) eqn:Ek; unfold xFlagApplyValue; rewrite ?Ek.
  all: repeat match goal with
    | |- (match ?v with _ => _ end = _) -> _ => destruct v; cbn [mbind option_bind]
    | |- (let '(_, _) := ?x in _) = _ -> _ => destruct x
    | |- (match ?v ≫= _ with _ => _ end) = _ -> _ => destruct v; cbn [mbind option_bind]
    | |- (?v ≫= _) = _ -> _ => destruct v; cbn [mbind option_bind]
    | |- (if ?b then _ else _) = _ -> _ => destruct b
    end; try done; by intros [= <- <- <-].
Qed.

Lemma apply_at_same s k v (w : world) rc s' w' : apply_at always err_out s k v w = Some (rc, s', w') -> same_flags s s'.
Proof.
  unfold apply_at. destruct (flags s !! k) as [e|] eqn:Hk; [|done]. bind_some.
  destruct (xFlagApplyFlag always err_out e v w) as [[[rc1 e1] w1]|] eqn:E; [|done]. bind_some. intros [= <- <- <-].
  apply apply_flag_same in E as (E1 & E2 & E3). split; [|done]. cbn. rewrite list_fmap_insert. apply list_insert_id.
  by rewrite list_lookup_fmap, Hk, E1, E2, E3.
Qed.

Lemma list_find_same {A B} (f : A -> B) (P : B -> Prop) `{forall b, Decision (P b)} (l l' : list A) :
  f <$> l = f <$> l' -> fst <$> list_find (fun a => P (f a)) l = fst <$> list_find (fun a => P (f a)) l'.
Proof.
  revert l'. induction l as [|a l IH]; intros [|a' l'] E; try done. injection E as Ea E. cbn [list_find]. rewrite Ea.
  destruct (decide (P (f a'))); [done|]. specialize (IH l' E). destruct (list_find _ l) as [[]|], (list_find _ l') as [[]|]; cbn in *; congruence.
Qed.

Lemma same_find_long s s' n : same_flags s s' -> xFlagFindByLong s' n = xFlagFindByLong s n.
Proof. intros [E _]. exact (list_find_same (fun e => (e_name e, e_shortc e, e_kind e)) (fun x => x.1.1 = Some n) _ _ E). Qed.

Lemma same_find_short s s' c : same_flags s s' -> xFlagFindByShort s' c = xFlagFindByShort s c.
Proof. intros [E _]. exact (list_find_same (fun e => (e_name e, e_shortc e, e_kind e)) (fun x => x.1.2 <> 0%Z /\ x.1.2 = c) _ _ E). Qed.

Lemma same_needs s s' k : same_flags s s' -> xFlagNeedsValue <$> flags s' !! k = xFlagNeedsValue <$> flags s !! k.
Proof.
  intros E%(same_entry _ _ k). destruct (flags s' !! k), (flags s !! k); try done. injection E as _ _ E3. cbn. unfold xFlagNeedsValue. by rewrite E3.
Qed.

Lemma same_flags_trans s s1 s2 : same_flags s s1 -> same_flags s1 s2 -> same_flags s s2.
Proof. intros [E1 V1] [E2 V2]. split; congruence. Qed.

(** ** One item *)

Variable argv : list (option text).

Abbreviation options := (short_options always err_out argv).

Lemma push_pos_always ps i (w : world) : positions_ok ps ->
  exists ps' h, push_pos always ps i w = Some (true, ps', set_hp w h) /\ pos ps' = pos ps ++ [i] /\ positions_ok ps'.
Proof.
  intros Hp. unfold positions_ok, push_pos in *. case_decide as Hc.
  - destruct (realloc_hp (negb (bool_decide (pos_cap ps = 0))) w (hp w)) as (h1 & _ & -> & _).
    assert (length (pos ps) < (if decide (pos_cap ps = 0) then 8 else pos_cap ps * 2)) as Hlt by (destruct (decide (pos_cap ps = 0)); lia).
    rewrite (decide_True _ _ Hlt). eexists _, _. split; [done|]. split; [done|]. cbn. rewrite length_app. cbn. lia.
  - rewrite decide_True by lia. exists (Positions (pos ps ++ [i]) (pos_cap ps)), (hp w). split; [by destruct w|]. split; [done|]. cbn. rewrite length_app. cbn. lia.
Qed.

Lemma one_occurrence k v s (w : world) s1 w1 : apply_occs [(k, v)] s w = Some (xErrno_Ok, s1, w1) -> apply_at always err_out s k v w = Some (xErrno_Ok, s1, w1).
Proof.
  cbn. destruct (apply_at _ _ _ _ _ _) as [[[rc s2] w2]|]; [|done]. bind_some. cbn. case_decide; [by subst|done].
Qed.

(** The state in which the flags of [s0] still stand. *)
Lemma find_flag s0 s k needs : same_flags s0 s -> xFlagNeedsValue <$> flags s0 !! k = Some needs ->
  exists e, flags s !! k = Some e /\ xFlagNeedsValue e = needs.
Proof. intros Hs Hn. rewrite <- (same_needs s0 s k Hs) in Hn. destruct (flags s !! k) as [e|]; [|done]. exists e. split; [done|]. by injection Hn. Qed.

Lemma short_switches s0 ks p i ps s (w : world) h s1 w1 :
  same_flags s0 s -> Forall (fun k => short_ok s0 k false) ks ->
  apply_occs ((fun k => (k, None)) <$> ks) s w = Some (xErrno_Ok, s1, w1) ->
  exists h', options i ((short_of s0 <$> ks) ++ p) ps s (set_hp w h) = options i p ps s1 (set_hp w1 h').
Proof.
  intros Hs Hf. revert s w h Hs. induction Hf as [|k ks Hk _ IH]; intros s w h Hs; cbn [fmap list_fmap apply_occs app].
  { intros [= <- <-]. by exists h. }
  destruct (apply_at always err_out s k None w) as [[[rc s2] w2]|] eqn:E; [|done]. bind_some. cbn [fst snd]. case_decide as Hrc; [|congruence].
  intros Hrest. destruct (apply_at_hp _ _ _ _ h _ _ _ E) as [h2 E2]. subst rc.
  destruct (IH s2 w2 h2 (same_flags_trans _ _ _ Hs (apply_at_same _ _ _ _ _ _ _ E)) Hrest) as [h' E']. exists h'. rewrite <- E'.
  cbn [short_options]. rewrite (same_find_short s0 s _ Hs), (sh_find _ _ _ Hk).
  destruct (find_flag s0 s k false Hs (sh_needs _ _ _ Hk)) as (e & -> & Hn). bind_some. rewrite Hn, E2. bind_some. cbn [fst snd].
  by rewrite decide_True by done.
Qed.

Lemma short_value s0 k v i ps s (w : world) h s1 w1 :
  same_flags s0 s -> short_ok s0 k true -> apply_at always err_out s k (Some v) w = Some (xErrno_Ok, s1, w1) ->
  exists h', (v <> [] -> options i (short_of s0 k :: v) ps s (set_hp w h) = Some (Next (S i) ps s1 (set_hp w1 h'))) /\
    (argv !! (i + 1) = Some (Some v) -> options i [short_of s0 k] ps s (set_hp w h) = Some (Next (S (i + 1)) ps s1 (set_hp w1 h'))).
Proof.
  intros Hs Hk E. destruct (apply_at_hp _ _ _ _ h _ _ _ E) as [h' E']. exists h'. cbn [short_options].
  rewrite (same_find_short s0 s _ Hs), (sh_find _ _ _ Hk).
  destruct (find_flag s0 s k true Hs (sh_needs _ _ _ Hk)) as (e & -> & Hn). bind_some. rewrite Hn. split.
  - intros Hv. destruct v as [|c v]; [done|]. rewrite E'. bind_some. cbn [fst snd]. by rewrite decide_True by done.
  - intros Hv. rewrite decide_True by (by eapply lookup_lt_Some). rewrite Hv. bind_some. rewrite E'. bind_some. cbn [fst snd]. by rewrite decide_True by done.
Qed.

Lemma cut_plain n v : 61%Z ∉ n -> cut_at 61 (n ++ 61%Z :: v) = (n, Some v) /\ cut_at 61 n = (n, None).
Proof.
  induction n as [|c n IH]; intros Hn; [done|]. apply not_elem_of_cons in Hn as [Hc Hn]. destruct (IH Hn) as [E1 E2].
  cbn [app cut_at]. rewrite (proj2 (Z.eqb_neq c 61)) by done. by rewrite E1, E2.
Qed.

(** A long option, once its name and its value have been told apart. *)
Lemma long_value s0 k needs i body eq v s (w : world) ps h s1 w1 j :
  same_flags s0 s -> long_ok s0 k needs -> cut_at 61 body = (name_of s0 k, eq) ->
  apply_at always err_out s k v w = Some (xErrno_Ok, s1, w1) ->
  match eq with
  | Some x => needs = true /\ v = Some x /\ j = i
  | None => if needs then argv !! (i + 1) = Some v /\ j = i + 1 else v = None /\ j = i
  end ->
  exists h', long_option always err_out argv i body ps s (set_hp w h) = Some (Next (S j) ps s1 (set_hp w1 h')).
Proof.
  intros Hs [Hfind Hneeds (Hplain & Hnil & Hhelp) Hver] Hcut E Heq. destruct (apply_at_hp _ _ _ _ h _ _ _ E) as [h' E']. exists h'.
  unfold long_option. rewrite Hcut. rewrite decide_False by done.
  assert ((if decide (name_of s0 k = txt "version") then version s else None) = None) as ->.
  { case_decide as Hv; [|done]. destruct Hs as [_ ->]. by apply Hver. }
  rewrite (same_find_long s0 s _ Hs), Hfind. destruct (find_flag s0 s k needs Hs Hneeds) as (e & -> & Hn). bind_some. rewrite Hn.
  destruct eq as [x|].
  - destruct Heq as (-> & -> & ->). rewrite E'. bind_some. cbn [fst snd]. by rewrite decide_True by done.
  - destruct needs.
    + destruct Heq as [Ha ->]. rewrite decide_True by (by eapply lookup_lt_Some). rewrite Ha. bind_some. rewrite E'. bind_some. cbn [fst snd].
      by rewrite decide_True by done.
    + destruct Heq as [-> ->]. rewrite E'. bind_some. cbn [fst snd]. by rewrite decide_True by done.
Qed.

Lemma occs_same l s s' w w' s0 : same_flags s0 s -> apply_occs l s w = Some (xErrno_Ok, s', w') -> same_flags s0 s'.
Proof.
  revert s w. induction l as [|[k v] l IH]; intros s w Hs; cbn [apply_occs]; [by intros [= <- <-]|].
  destruct (apply_at always err_out s k v w) as [[[rc s1] w1]|] eqn:E; [|done]. bind_some. cbn [fst snd]. case_decide; [|congruence].
  apply IH. eapply same_flags_trans, apply_at_same; done.
Qed.

(** An argument that starts a bundle of letters. *)
Lemma short_arg s0 ks needs k p i ps s (w : world) :
  Forall (fun k => short_ok s0 k false) ks -> short_ok s0 k needs ->
  (if decide (dash :: (short_of s0 <$> ks) ++ short_of s0 k :: p = [dash; dash]) then rest_positional always (length argv - S i) (S i) ps s w else
   match dash :: (short_of s0 <$> ks) ++ short_of s0 k :: p with
   | c0 :: c1 :: p =>
       if (c0 =? 45)%Z then (if (c1 =? 45)%Z then long_option always err_out argv i p ps s w else options i (c1 :: p) ps s w)
       else positional always i ps s w
   | _ => positional always i ps s w
   end) = options i ((short_of s0 <$> ks) ++ short_of s0 k :: p) ps s w.
Proof.
  intros Hf Hk. destruct ks as [|k' ks]; cbn [fmap list_fmap app].
  - rewrite decide_False by (intros [= E' _]; by apply (sh_plain _ _ _ Hk)). by rewrite Z.eqb_refl, (proj2 (Z.eqb_neq _ _) (sh_plain _ _ _ Hk)).
  - apply Forall_inv in Hf. rewrite decide_False by (intros [= E' _]; by apply (sh_plain _ _ _ Hf)).
    by rewrite Z.eqb_refl, (proj2 (Z.eqb_neq _ _) (sh_plain _ _ _ Hf)).
Qed.

Lemma parse_item s0 it pre post a ps s (w : world) h s1 w1 :
  argv = pre ++ (Some <$> render s0 it) ++ post -> head (render s0 it) = Some a ->
  item_ok s0 it -> same_flags s0 s -> positions_ok ps ->
  apply_occs (occurrences it) s w = Some (xErrno_Ok, s1, w1) ->
  exists ps' h', parse_arg always err_out argv (length pre) a ps s (set_hp w h) =
      Some (Next (length pre + length (render s0 it)) ps' s1 (set_hp w1 h')) /\
    pos ps' = pos ps ++ ((fun _ => length pre) <$> argument it) /\ positions_ok ps'.
Proof.
  intros Hargv Ha Hok Hs Hp Hocc. assert (forall v, render s0 it = [a; v] -> argv !! (length pre + 1) = Some (Some v)) as Hnext.
  { intros v Hr. by rewrite Hargv, Hr, lookup_app_r, Nat.add_comm, Nat.add_sub by lia. }
  unfold parse_arg. change (txt "--") with [45%Z; 45%Z].
  destruct it as [k v|k v|k|ks|ks k v|ks k v|x]; cbn [render item_ok occurrences argument length fmap list_fmap head] in *; injection Ha as <-.
  1,2,3: destruct (lo_plain _ _ _ Hok) as (Hplain & Hnil & _); apply one_occurrence in Hocc;
    destruct (cut_plain (name_of s0 k) [] Hplain) as [_ Hcut0].
  - destruct (cut_plain (name_of s0 k) v Hplain) as [Hcut _].
    rewrite decide_False by (intros [= E]; by destruct (name_of s0 k)). rewrite !Z.eqb_refl.
    destruct (long_value s0 k true (length pre) _ _ _ s w ps h s1 w1 (length pre) Hs Hok Hcut Hocc) as [h' E]; [done|].
    exists ps, h'. rewrite E, app_nil_r, Nat.add_1_r. done.
  - rewrite decide_False by (by intros [= E]). rewrite !Z.eqb_refl.
    destruct (long_value s0 k true (length pre) _ _ _ s w ps h s1 w1 (length pre + 1) Hs Hok Hcut0 Hocc) as [h' E]; [by split; [apply Hnext|]|].
    exists ps, h'. rewrite E, app_nil_r. split; [do 2 f_equal; lia|done].
  - rewrite decide_False by (by intros [= E]). rewrite !Z.eqb_refl.
    destruct (long_value s0 k false (length pre) _ _ _ s w ps h s1 w1 (length pre) Hs Hok Hcut0 Hocc) as [h' E]; [done|].
    exists ps, h'. rewrite E, app_nil_r, Nat.add_1_r. done.
  - destruct Hok as [Hne Hf]. destruct (short_switches s0 ks [] (length pre) ps s w h s1 w1 Hs Hf Hocc) as [h' E]. rewrite app_nil_r in E.
    exists ps, h'. rewrite app_nil_r, Nat.add_1_r. split; [|done]. transitivity (options (length pre) (short_of s0 <$> ks) ps s (set_hp w h)); [|exact E].
    destruct ks as [|k ks]; [done|]. apply Forall_inv in Hf. cbn [fmap list_fmap]. rewrite decide_False by (intros [= E' _]; by apply (sh_plain _ _ _ Hf)).
    by rewrite Z.eqb_refl, (proj2 (Z.eqb_neq _ _) (sh_plain _ _ _ Hf)).
  - destruct Hok as (Hf & Hk & Hv). apply apply_occs_app in Hocc as (s2 & w2 & Hocc & Hlast). apply one_occurrence in Hlast.
    destruct (short_switches s0 ks (short_of s0 k :: v) (length pre) ps s w h s2 w2 Hs Hf Hocc) as [h2 E].
    assert (same_flags s0 s2) as Hs2 by (by eapply occs_same).
    destruct (short_value s0 k v (length pre) ps s2 w2 h2 s1 w1 Hs2 Hk Hlast) as (h' & E' & _). exists ps, h'.
    rewrite app_nil_r, Nat.add_1_r. split; [|done]. rewrite <- (E' Hv), <- E. by eapply short_arg.
  - destruct Hok as (Hf & Hk). apply apply_occs_app in Hocc as (s2 & w2 & Hocc & Hlast). apply one_occurrence in Hlast.
    destruct (short_switches s0 ks [short_of s0 k] (length pre) ps s w h s2 w2 Hs Hf Hocc) as [h2 E].
    assert (same_flags s0 s2) as Hs2 by (by eapply occs_same).
    destruct (short_value s0 k v (length pre) ps s2 w2 h2 s1 w1 Hs2 Hk Hlast) as (h' & _ & E'). exists ps, h'.
    rewrite app_nil_r. split; [|done]. replace (length pre + 2) with (S (length pre + 1)) by lia. rewrite <- E' by (by apply Hnext).
    rewrite <- E. by eapply short_arg.
  - injection Hocc as <- <-. destruct (push_pos_always ps (length pre) (set_hp w h) Hp) as (ps' & h' & E & Hps & Hp'). exists ps', h'.
    rewrite Nat.add_1_r. split; [|done]. assert (positional always (length pre) ps s (set_hp w h) = Some (Next (S (length pre)) ps' s (set_hp w h'))) as E'.
    { unfold positional. rewrite E. done. }
    rewrite decide_False by (intros ->; by destruct Hok). destruct x as [|c0 [|c1 x]]; [exact E'|exact E'|].
    rewrite (proj2 (Z.eqb_neq c0 45)); [exact E'|]. intros ->. by destruct Hok.
Qed.

(** ** All of them *)

(** The positions of the positionals [l]. *)
Definition positions_of (ps : positions) (l : list text) : Prop := Forall2 (fun i a => argv !! i = Some (Some a)) (pos ps) l.

Lemma parse_items s0 items pre post ps args fuel s (w : world) h s1 w1 :
  argv = pre ++ (Some <$> (items ≫= render s0)) ++ post -> Forall (item_ok s0) items -> same_flags s0 s -> positions_ok ps -> positions_of ps args ->
  apply_occs (items ≫= occurrences) s w = Some (xErrno_Ok, s1, w1) ->
  exists ps' h' fuel', parse_loop always err_out argv (length items + fuel) (length pre) ps s (set_hp w h) =
      parse_loop always err_out argv (fuel + fuel') (length pre + length (items ≫= render s0)) ps' s1 (set_hp w1 h') /\
    same_flags s0 s1 /\ positions_ok ps' /\ positions_of ps' (args ++ mbind argument items).
Proof.
  intros Hargv Hf. revert pre ps args s w h Hargv. induction Hf as [|it items Hit _ IH]; intros pre ps args s w h Hargv Hs Hp Hpos Hocc.
  { injection Hocc as <- <-. exists ps, h, 0. rewrite app_nil_r. cbn. rewrite !Nat.add_0_r. done. }
  cbn [mbind list_bind] in *. apply apply_occs_app in Hocc as (s2 & w2 & Hocc & Hrest).
  destruct (render s0 it) as [|a r] eqn:Er; [by destruct it|].
  destruct (parse_item s0 it pre ((Some <$> (items ≫= render s0)) ++ post) a ps s w h s2 w2) as (ps2 & h2 & E & Hps2 & Hp2); try done.
  { by rewrite Hargv, Er, fmap_app, <- app_assoc. } { by rewrite Er. }
  assert (argv !! length pre = Some (Some a)) as Ha by (by rewrite Hargv, lookup_app_r, Nat.sub_diag by lia).
  destruct (IH (pre ++ (Some <$> render s0 it)) ps2 (args ++ argument it) s2 w2 h2) as (ps' & h' & fuel' & E' & Hs' & Hp' & Hpos').
  { by rewrite Hargv, Er, fmap_app, <- !app_assoc. } { by eapply occs_same. } { done. }
  { unfold positions_of. rewrite Hps2. apply Forall2_app; [done|]. destruct it; cbn; try constructor; [|done]. cbn in Er. by injection Er as ->. }
  { done. }
  exists ps', h', fuel'. split; [|split; [done|split; [done|by rewrite app_assoc]]].
  cbn [length Nat.add]. cbn [parse_loop]. rewrite decide_False by (apply lookup_lt_Some in Ha; lia). rewrite Ha. bind_some. rewrite E. bind_some.
  rewrite length_app, length_fmap, Er in E'. rewrite Er. cbn [app length] in *. rewrite E', length_app. generalize (length (items ≫= render s0)). intros n.
  by replace (length pre + S (length r) + n) with (length pre + S (length r + n)) by lia.
Qed.

Lemma parse_rest n i ps args (s : xFlagSet) (w : world) l :
  drop i argv = Some <$> l -> n = length l -> positions_ok ps -> positions_of ps args ->
  exists ps' h, rest_positional always n i ps s w = Some (Next (i + n) ps' s (set_hp w h)) /\ positions_ok ps' /\ positions_of ps' (args ++ l).
Proof.
  revert i ps args w l. induction n as [|n IH]; intros i ps args w l Hd Hn Hp Hpos; destruct l as [|a l]; try done; cbn [rest_positional].
  { exists ps, (hp w). rewrite Nat.add_0_r, app_nil_r. split; [by destruct w|done]. }
  destruct (push_pos_always ps i w Hp) as (ps2 & h2 & E & Hps2 & Hp2). rewrite E. bind_some.
  assert (argv !! i = Some (Some a)) as Ha.
  { rewrite <- (Nat.add_0_r i), <- lookup_drop, Hd. done. }
  destruct (IH (S i) ps2 (args ++ [a]) (set_hp w h2) l) as (ps' & h' & E' & Hp' & Hpos').
  - rewrite <- (Nat.add_1_r i), <- drop_drop, Hd. done.
  - by injection Hn.
  - done.
  - unfold positions_of. rewrite Hps2. apply Forall2_app; [done|]. by repeat constructor.
  - exists ps', h'. rewrite E'. split; [do 2 f_equal; lia|]. split; [done|]. by rewrite <- app_assoc in Hpos'.
Qed.
End syntax.


Definition demo_items : list item := [LongEq 1 (txt "7"); Shorts [0; 0]; LongNext 1 (txt "-3"); ShortGlued [0] 1 (txt "0b11"); LongSwitch 0].

Lemma demo_items_ok : Forall (item_ok demo_set) demo_items.
Proof.
  assert (long_ok demo_set 1 true) as Hl1 by (split; [done|done|split; [by apply (bool_decide_unpack _); vm_compute|done]|done]).
  assert (long_ok demo_set 0 false) as Hl0 by (split; [done|done|split; [by apply (bool_decide_unpack _); vm_compute|done]|done]).
  assert (short_ok demo_set 0 false) as Hs0 by (split; done). assert (short_ok demo_set 1 true) as Hs1 by (split; done).
  repeat (apply Forall_cons; split); try done; try (by repeat constructor).
Qed.

