(* ===== verification/FlagNum.v ===== *)
(** * FlagNum: the integers a flag accepts ([xFlagParseI64], [xFlagParseU64]) *)

From Stdlib Require Import String.
From S2P Require Import Prelude Errno Decimal Wire Flag FlagSet FlagParse FlagSafe.

Abbreviation length := Datatypes.length.

Lemma digit_range c : (48 <= c <= 57)%Z -> digit_value c = (c - 48)%Z /\ is_space c = false /\ (c =? 45)%Z = false /\ (c =? 43)%Z = false.
Proof.
  intros Hc. unfold digit_value, is_space. rewrite (proj2 (Z.leb_le 48 c)), (proj2 (Z.leb_le c 57)) by lia. cbn [andb].
  split; [done|]. split; [|split; apply Z.eqb_neq; lia]. rewrite (proj2 (Z.eqb_neq c 32)), (proj2 (Z.leb_gt c 13)) by lia. by rewrite andb_false_r.
Qed.

Lemma scan_all base ds acc : (10 <= base)%Z -> Forall (fun c => 48 <= c <= 57)%Z ds ->
  scan_digits base ds acc = (fold_left (fun acc c => acc * base + (c - 48)) ds acc, length ds)%Z.
Proof.
  intros Hb Hds. revert acc. induction Hds as [|c ds Hc _ IH]; intros acc; [done|]. cbn [scan_digits fold_left length].
  destruct (digit_range c Hc) as (-> & _). rewrite (proj2 (Z.ltb_lt _ _)) by lia. by rewrite IH.
Qed.

(** A decimal literal is scanned to its end. *)
Lemma scan_decimal sign ds : (sign = [] \/ sign = [45%Z]) -> Forall (fun c => 48 <= c <= 57)%Z ds ->
  (exists c cs, ds = c :: cs /\ (c = 48%Z -> cs = [])) ->
  scan_int (sign ++ ds) = (bool_decide (sign = [45%Z]), digits_value ds, length (sign ++ ds)).
Proof.
  intros Hsign Hds (c & cs & Eds & Hzero).
  assert (match ds with
    | a :: b :: c :: _ => if (a =? 48)%Z then (if ((b =? 120)%Z || (b =? 88)%Z) && (digit_value c <? 16)%Z then (2, 16%Z) else (0, 8%Z)) else (0, 10%Z)
    | a :: _ => if (a =? 48)%Z then (0, 8%Z) else (0, 10%Z)
    | [] => (0, 10%Z)
    end = (0, if (c =? 48)%Z then 8%Z else 10%Z)) as Hbase.
  { subst ds. destruct (Z.eqb_spec c 48) as [->|]; [by rewrite Hzero|]. destruct cs as [|? [|? ?]]; done. }
  assert (scan_digits (if (c =? 48)%Z then 8%Z else 10%Z) ds 0 = (digits_value ds, length ds)) as Hscan.
  { destruct (Z.eqb_spec c 48) as [->|]; [subst ds; by rewrite Hzero|]. by apply scan_all. }
  assert (length ds <> 0) as Hne by (by subst ds). pose proof (Forall_inv ltac:(rewrite Eds in Hds; exact Hds)) as Hc.
  destruct (digit_range c Hc) as (_ & Hsp & H45 & H43). unfold scan_int. destruct Hsign as [-> | ->].
  - cbn [app]. assert (spaces ds = 0) as -> by (rewrite Eds; cbn [spaces]; by rewrite Hsp). rewrite drop_0.
    assert (match ds with c :: _ => if (c =? 45)%Z || (c =? 43)%Z then 1 else 0 | [] => 0 end = 0) as -> by (rewrite Eds; by rewrite H45, H43).
    rewrite drop_0, Hbase, drop_0, Hscan. rewrite decide_False by done. f_equal. f_equal. by rewrite Eds, H45.
  - cbn [app spaces]. change (is_space 45) with false. cbn [drop]. change ((45 =? 45)%Z || (45 =? 43)%Z) with true. cbn [drop]. rewrite drop_0, Hbase, drop_0, Hscan.
    by rewrite decide_False by done.
Qed.

(** Every number of 64 bits, written in decimal, is read back. *)
Lemma flag_i64_decimal z : int64_ok z -> xFlagParseI64 (Some (print_lld z)) = ok z.
Proof.
  intros Hz. destruct (print_lld_shape z Hz) as (sign & ds & E & Hsign & Hds & Hfirst & Hv). rewrite E.
  pose proof (scan_decimal sign ds Hsign Hds Hfirst) as Hscan. destruct Hfirst as (c & cs & Eds & Hzero).
  assert (bin_signed (sign ++ ds) = None) as Hbin.
  { assert (bin_at ds = None) as Hb.
    { rewrite Eds. destruct cs as [|b cs]; [done|]. cbn [bin_at]. destruct (Z.eqb_spec c 48) as [->|]; [by discriminate Hzero|done]. }
    destruct Hsign as [-> | ->]; unfold bin_signed; cbn [app].
    - rewrite Hb. rewrite Eds. destruct (Z.eqb_spec c 45); [|done]. rewrite Eds in Hds. apply Forall_inv in Hds. lia.
    - assert (bin_at (45%Z :: ds) = None) as -> by (unfold bin_at; by destruct ds). by rewrite Z.eqb_refl, Hb. }
  unfold xFlagParseI64. destruct (sign ++ ds) as [|a l] eqn:El; [by destruct Hsign as [-> | ->]; subst ds|]. rewrite <- El in *.
  unfold strtoll0. rewrite Hscan, Hbin.
  assert ((if bool_decide (sign = [45%Z]) then - digits_value ds else digits_value ds)%Z = z) as ->.
  { rewrite Hv. destruct Hsign as [-> | ->]; [by rewrite decide_True by done|by rewrite decide_False by done]. }
  unfold int64_ok in Hz. rewrite (proj2 (Z.leb_le _ _)), (proj2 (Z.leb_le _ _)) by lia. cbn [andb negb orb].
  rewrite bool_decide_false by (by rewrite El). rewrite bool_decide_true by done. cbn [negb orb]. f_equal. f_equal. lia.
Qed.

(** The prefixes the documentation names. *)
Example flag_i64_prefixes :
  (fun s => xFlagParseI64 (Some s)) <$> [txt "0x1F"; txt "-0X10"; txt "017"; txt "0b101"; txt "-0B11"; txt "08"; txt "12k"; txt "0x"; txt ""]
  = [ok 31; ok (-16); ok 15; ok 5; ok (-3); fail; fail; fail; fail]%Z.
Proof. by vm_compute. Qed.

(** A minus after a space gets past the check for one: the value wraps. *)
Example flag_u64_accepts_negative : xFlagParseU64 (Some (txt " -1")) = ok UINT64_MAX /\ xFlagParseU64 (Some (txt "-1")) = fail.
Proof. by vm_compute. Qed.

(** Binary literals are not checked against the width: bits are shifted out of
    64, and the top bit is taken for a sign. *)
Example flag_binary_wraps :
  xFlagParseU64 (Some (txt "0b1" ++ replicate 64 48%Z)) = ok 0%Z /\
  xFlagParseI64 (Some (txt "0b1" ++ replicate 63 48%Z)) = ok INT64_MIN /\
  xFlagParseI64 (Some (txt "-0b1" ++ replicate 63 48%Z)) = None.
Proof. by vm_compute. Qed.

(** A second parse does not start the counters again. *)
Example flag_counter_accumulates :
  (r ← xFlagParse (fun _ => true) true (Some <$> [txt "prog"; txt "-v"; txt "-n3"; txt "in"]) demo_set demo_world;
   r' ← xFlagParse (fun _ => true) true (Some <$> [txt "prog"; txt "-v"; txt "in"]) r.1.2 r.2;
   Some (r'.1.1, mem r'.2 !! 0)) = Some (xErrno_Ok, Some (CInt 2)).
Proof. by vm_compute. Qed.
