(* ===== verification/Sse.v ===== *)
(** * Sse: the parser of server-sent events ([libx/x/http/sse.c])

    [sse_parser_feed] over the growing buffer of [Buf].  A C string the parser
    holds is its bytes before the NUL.  The user's callback is a function of
    its own state.  What [atoi] makes of a number beyond [int], which C leaves
    undefined, is a parameter, [atoi_big]. *)

From Stdlib Require Import String.
From S2P Require Import Prelude Errno Grow Buf Decimal Wire.

Abbreviation length := Datatypes.length.

(** The bytes of a literal. *)
Definition lit (s : string) : list Z := (fun a => Z.of_nat (Ascii.nat_of_ascii a)) <$> list_ascii_of_string s.
Arguments lit s%_string : simpl never.

Abbreviation CR := 13%Z.
Abbreviation LF := 10%Z.
Abbreviation COLON := 58%Z.

Record xSseParser := Parser {
  buf : option xBuffer_;
  pos : nat;
  error : bool;
  event_type : option (list Z);
  data : option (list Z);
  id : option (list Z);
  retry : Z;
  hp : heap;                    (* what has been allocated *)
}.

Record xSseEvent := Event { ev_event : list Z; ev_data : list Z; ev_id : option (list Z); ev_retry : Z }.

Definition set_buf (p : xSseParser) (b : option xBuffer_) : xSseParser := Parser b (pos p) (error p) (event_type p) (data p) (id p) (retry p) (hp p).
Definition set_pos (p : xSseParser) (n : nat) : xSseParser := Parser (buf p) n (error p) (event_type p) (data p) (id p) (retry p) (hp p).
Definition set_error (p : xSseParser) : xSseParser := Parser (buf p) (pos p) true (event_type p) (data p) (id p) (retry p) (hp p).
Definition set_type (p : xSseParser) (t : option (list Z)) : xSseParser := Parser (buf p) (pos p) (error p) t (data p) (id p) (retry p) (hp p).
Definition set_data (p : xSseParser) (t : option (list Z)) : xSseParser := Parser (buf p) (pos p) (error p) (event_type p) t (id p) (retry p) (hp p).
Definition set_id (p : xSseParser) (t : option (list Z)) : xSseParser := Parser (buf p) (pos p) (error p) (event_type p) (data p) t (retry p) (hp p).
Definition set_retry (p : xSseParser) (n : Z) : xSseParser := Parser (buf p) (pos p) (error p) (event_type p) (data p) (id p) n (hp p).
Definition set_heap (p : xSseParser) (h : heap) : xSseParser := Parser (buf p) (pos p) (error p) (event_type p) (data p) (id p) (retry p) h.

Definition blk {A} (o : option A) : nat := match o with Some _ => 1 | None => 0 end.

Section sse.
Variable junk : nat -> list Z.
Variable alloc_buf : oracle.
Variable alloc : nat -> bool.
Variable atoi_big : Z -> Z.

Definition malloc (p : xSseParser) : bool * xSseParser := let '(b, h) := h_alloc alloc (hp p) in (b, set_heap p h).
Definition free {A} (x : option A) (p : xSseParser) : xSseParser := set_heap p (h_free (blk x) (hp p)).

(** The parser of a new request, in a heap where [h] is. *)
Definition sse_parser_init (h : heap) : xSseParser := Parser (xBufferCreate junk alloc_buf 4096) 0 false None None None (-1) h.

Definition sse_parser_reset_event (p : xSseParser) : xSseParser :=
  let p := set_type (free (event_type p) p) None in
  set_data (free (data p) p) None.

(** The blocks of the fields go; the buffer is not counted in [hp]. *)
Definition sse_parser_free (p : xSseParser) : xSseParser :=
  free (id p) (free (data p) (free (event_type p) (set_buf p None))).

(** The offset of the first terminator. *)
Fixpoint find_line_end (s : list Z) : option nat :=
  match s with
  | [] => None
  | c :: s => if (c =? LF)%Z || (c =? CR)%Z then Some 0 else S <$> find_line_end s
  end.

(** [memchr(line, ':', len)]: what is before the colon, and after it. *)
Fixpoint split_colon (l : list Z) : option (list Z * list Z) :=
  match l with
  | [] => None
  | c :: l => if (c =? COLON)%Z then Some ([], l) else (fun r => (c :: r.1, r.2)) <$> split_colon l
  end.

(** [strndup(value, value_len)] *)
Definition strndup (v : list Z) (p : xSseParser) : option (list Z) * xSseParser :=
  let '(b, p) := malloc p in (if b then Some (c_text v) else None, p).

(** [atoi] of a text of digits. *)
Definition atoi (v : list Z) : Z := let n := digits_value v in if (n <? 2 ^ 31)%Z then n else atoi_big n.

(** The field's name and value, the colon and one space after it dropped. *)
Definition sse_field (line : list Z) : list Z * list Z :=
  match split_colon line with
  | None => (c_text line, [])
  | Some (f, v) => (c_text f, match v with c :: v' => if (c =? 32)%Z then v' else v | [] => [] end)
  end.

Definition parse_sse_field (p : xSseParser) (line : list Z) : xSseParser :=
  if bool_decide (head line = Some COLON) then p else
  let '(field, value) := sse_field line in
  if decide (field = lit "event") then
    let '(t, p) := strndup value (free (event_type p) p) in set_type p t
  else if decide (field = lit "data") then
    match data p with
    | Some old =>
        let '(b, p) := malloc p in
        if b then set_data (free (Some old) p) (Some (c_text (old ++ LF :: value))) else p
    | None => let '(t, p) := strndup value p in set_data p t
    end
  else if decide (field = lit "id") then
    if negb (bool_decide (value = [])) && bool_decide (c_text value = value) then
      let '(t, p) := strndup value (free (id p) p) in set_id p t
    else p
  else if decide (field = lit "retry") then
    if forallb is_digit value && negb (bool_decide (value = [])) then set_retry p (atoi value) else p
  else p.

(** ** Feeding *)

Context {C : Type}.
Variable on_event : xSseEvent -> C -> Z * C.

Definition event_of (p : xSseParser) (d : list Z) : xSseEvent := Event (default (lit "message") (event_type p)) d (id p) (retry p).

(** A complete line; the copy of it may have failed. *)
Definition sse_line (copied : bool) (line : list Z) (p : xSseParser) (c : C) : Z * xSseParser * C :=
  if decide (line = []) then
    match data p with
    | Some d => let '(r, c) := on_event (event_of p d) c in (r, sse_parser_reset_event p, c)
    | None => (0%Z, p, c)
    end
  else if copied then (0%Z, parse_sse_field p line, c)
  else (0%Z, p, c).

(** The loop over the lines of the buffer's [bytes], with fuel for its rounds. *)
Fixpoint sse_loop (fuel : nat) (bytes : list Z) (p : xSseParser) (c : C) : option (Z * xSseParser * C) :=
  match fuel with
  | O => None
  | S fuel =>
      if decide (length bytes <= pos p) then Some (0%Z, p, c) else
      let start := drop (pos p) bytes in
      match find_line_end start with
      | None => Some (0%Z, p, c)
      | Some line_len =>
          let '(copied, p) := malloc p in
          let eol := start !! line_len in
          let p := set_pos p (pos p + line_len + 1) in
          let p := if bool_decide (eol = Some CR) && bool_decide (bytes !! pos p = Some LF) then set_pos p (pos p + 1) else p in
          let '(r, p, c) := sse_line copied (take line_len start) p c in
          let p := free (if copied then Some tt else None) p in
          if (r =? 0)%Z then sse_loop fuel bytes p c else Some (r, p, c)
      end
  end.

(** [None] is undefined.  The bytes fed are [d]. *)
Definition sse_parser_feed (p : xSseParser) (d : list Z) (c : C) : option (Z * xSseParser * C) :=
  if error p then Some ((-1)%Z, p, c) else
  r ← (match buf p with
       | None => Some (xErrno_InvalidArg, None)
       | Some b => r ← xBufferAppend junk alloc_buf b d (Z.of_nat (length d)); Some (r.1, Some r.2)
       end);
  let p := set_buf p r.2 in
  if decide (r.1 <> xErrno_Ok) then Some ((-1)%Z, set_error p, c) else
  b ← buf p;
  bytes ← (match xBufferData b with
           | Some off => mem_read (b_data b) (Z.to_nat off) (Z.to_nat (xBufferLen b))
           | None => Some []
           end);
  r ← sse_loop (S (length bytes)) bytes p c;
  let '(r, p, c) := r : Z * xSseParser * C in
  if (r =? 0)%Z then
    let p := if decide (0 < pos p) then set_pos (set_buf p (Some (xBufferConsume b (Z.of_nat (pos p))))) 0 else p in
    Some (0%Z, p, c)
  else Some (r, p, c).

(** The write callback of curl: the bytes taken, 0 to abort. *)
Definition sse_write_callback (p : xSseParser) (d : list Z) (c : C) : option (nat * xSseParser * C) :=
  r ← sse_parser_feed p d c;
  let '(r, p, c) := r : Z * xSseParser * C in
  Some (if (r =? 0)%Z then length d else 0, p, c).
End sse.
