(* ===== verification/SseSafe.v ===== *)
(** * SseSafe: feeding is processing lines

    However the bytes arrive, [sse_parser_feed] runs the complete lines through
    the parser and keeps the rest; it is always defined and leaks nothing. *)

From Stdlib Require Import String.
From S2P Require Import Prelude Errno Grow Buf Decimal Wire Sse.

Abbreviation length := Datatypes.length.

(** The complete lines of a text, CR LF counting as one terminator, and what
    is left. *)
Fixpoint lines_from (cur s : list Z) : list (list Z) * list Z :=
  match s with
  | [] => ([], cur)
  | c :: s' =>
      if (c =? LF)%Z then let r := lines_from [] s' in (cur :: r.1, r.2)
      else if (c =? CR)%Z then
        match s' with
        | d :: s'' => if (d =? LF)%Z then let r := lines_from [] s'' in (cur :: r.1, r.2) else let r := lines_from [] s' in (cur :: r.1, r.2)
        | [] => ([cur], [])
        end
      else lines_from (cur ++ [c]) s'
  end.
Definition lines (s : list Z) := lines_from [] s.

Lemma find_line_end_Some s k cur : find_line_end s = Some k ->
  exists c, s !! k = Some c /\ (c = LF \/ c = CR) /\
    let next := k + 1 + if bool_decide (c = CR) && bool_decide (s !! (k + 1) = Some LF) then 1 else 0 in
    lines_from cur s = ((cur ++ take k s) :: (lines (drop next s)).1, (lines (drop next s)).2) /\ next <= length s.
Proof.
  revert k cur. induction s as [|c s IH]; intros k cur; [done|]. cbn [find_line_end lines_from].
  destruct (Z.eqb_spec c LF) as [->|Hlf]; cbn [orb].
  { intros [= <-]. exists LF. split; [done|]. split; [by left|]. cbn [take]. rewrite app_nil_r, bool_decide_false by done. cbn [andb Nat.add drop length]. split; [done|lia]. }
  destruct (Z.eqb_spec c CR) as [->|Hcr].
  { intros [= <-]. exists CR. split; [done|]. split; [by right|]. cbn [take]. rewrite app_nil_r, bool_decide_true by done.
    destruct s as [|d s]; [by rewrite bool_decide_false by done; split; [|cbn [andb Nat.add length]; lia]|]. destruct (Z.eqb_spec d LF) as [->|Hd].
    - rewrite bool_decide_true by done. cbn [andb Nat.add drop length]. split; [done|lia].
    - rewrite bool_decide_false by (by intros [= ?]). cbn [andb Nat.add drop length]. split; [done|lia]. }
  destruct (find_line_end s) as [j|] eqn:Ej; [|done]. intros [= <-]. destruct (IH j (cur ++ [c]) eq_refl) as (x & Hx & Hxx & E & Hle).
  exists x. split; [done|]. split; [done|]. cbn zeta in *. rewrite E, <- app_assoc.
  change ((c :: s) !! (S j + 1)) with (s !! (j + 1)). cbn [Nat.add take drop length app]. split; [done|lia].
Qed.

Lemma find_line_end_None s cur : find_line_end s = None -> lines_from cur s = ([], cur ++ s).
Proof.
  revert cur. induction s as [|c s IH]; intros cur; cbn [find_line_end lines_from]; [by rewrite app_nil_r|].
  destruct (c =? LF)%Z, (c =? CR)%Z; cbn [orb]; try done. destruct (find_line_end s); [done|]. intros _. rewrite IH by done. by rewrite <- app_assoc.
Qed.

(** A text may be cut anywhere but between a CR and an LF. *)
Definition splits_crlf (a b : list Z) : Prop := last a = Some CR /\ head b = Some LF.

Lemma lines_app cur a b : ~ splits_crlf a b ->
  lines_from cur (a ++ b) = ((lines_from cur a).1 ++ (lines_from (lines_from cur a).2 b).1, (lines_from (lines_from cur a).2 b).2).
Proof.
  remember (length a) as n eqn:En. revert cur a En. induction (lt_wf n) as [n _ IH]. intros cur a -> Hs.
  destruct a as [|c a]; [cbn; by destruct (lines_from cur b)|]. cbn [app lines_from].
  assert (forall a', (exists x, x ++ a' = c :: a) -> a' <> [] -> ~ splits_crlf a' b) as Hsuf.
  { intros a' [x Ex] Hne [Hl Hh]. apply Hs. split; [|done]. rewrite <- Ex. rewrite last_app. by rewrite Hl. }
  assert (forall cur a', (exists x, x <> [] /\ x ++ a' = c :: a) ->
    lines_from cur (a' ++ b) = ((lines_from cur a').1 ++ (lines_from (lines_from cur a').2 b).1, (lines_from (lines_from cur a').2 b).2)) as Hrec.
  { intros cur' a' (x & Hx & Ex). destruct a' as [|y a']; [cbn; by destruct (lines_from cur' b)|].
    apply (IH (length (y :: a'))); [|done|apply Hsuf; [by exists x|done]].
    apply (f_equal length) in Ex. rewrite length_app in Ex. destruct x; [done|]. cbn in *. lia. }
  destruct (Z.eqb_spec c LF) as [->|].
  { rewrite (Hrec [] a) by (by exists [LF]). done. }
  destruct (Z.eqb_spec c CR) as [->|].
  { destruct a as [|d a].
    - cbn [app]. destruct b as [|d b]; [done|]. destruct (Z.eqb_spec d LF) as [->|]; [by destruct Hs|]. done.
    - cbn [app]. destruct (Z.eqb_spec d LF) as [->|].
      + rewrite (Hrec [] a) by (by exists [CR; LF]). done.
      + change (d :: a ++ b) with ((d :: a) ++ b). rewrite (Hrec [] (d :: a)) by (by exists [CR]). done. }
  by rewrite (Hrec (cur ++ [c]) a) by (by exists [c]).
Qed.

Section safe.
Variable junk : nat -> list Z.
Hypothesis length_junk : forall n, length (junk n) = n.
Variable alloc_buf : oracle.
Variable alloc : nat -> bool.
Variable atoi_big : Z -> Z.
Context {C : Type}.
Variable on_event : xSseEvent -> C -> Z * C.

Abbreviation line_ := (sse_line alloc atoi_big on_event).

(** A line with its copy. *)
Definition line_step (l : list Z) (p : xSseParser) (c : C) : Z * xSseParser * C :=
  let '(copied, p) := malloc alloc p in
  let '(r, p, c) := line_ copied l p c in
  (r, free (if copied then Some tt else None) p, c).

Fixpoint run_lines (ls : list (list Z)) (p : xSseParser) (c : C) : Z * xSseParser * C :=
  match ls with
  | [] => (0%Z, p, c)
  | l :: ls => let '(r, p, c) := line_step l p c in if (r =? 0)%Z then run_lines ls p c else (r, p, c)
  end.

Lemma run_lines_app ls ls' p c :
  run_lines (ls ++ ls') p c = let '(r, p, c) := run_lines ls p c in if (r =? 0)%Z then run_lines ls' p c else (r, p, c).
Proof.
  revert p c. induction ls as [|l ls IH]; intros p c; cbn [app run_lines]; [done|].
  destruct (line_step l p c) as [[r p1] c1]. destruct (r =? 0)%Z eqn:Er; [apply IH|by rewrite Er].
Qed.

(** The parser with its buffer and position set aside: the lines do not look
    at them. *)
Definition with_place (p : xSseParser) (b : option xBuffer_) (n : nat) : xSseParser := set_pos (set_buf p b) n.

Lemma line_place copied l p c b n :
  line_ copied l (with_place p b n) c = let '(r, p, c) := line_ copied l p c in (r, with_place p b n, c).
Proof.
  unfold sse_line. case_decide.
  { cbn [data with_place set_pos set_buf]. destruct (data p) as [d|]; [|done]. change (event_of (with_place p b n) d) with (event_of p d).
    destruct (on_event (event_of p d) c). done. }
  destruct copied; [|done]. f_equal. f_equal. unfold parse_sse_field. case_bool_decide; [done|]. destruct (sse_field l) as [f v].
  unfold strndup, malloc, h_alloc. cbn [data with_place set_pos set_buf hp free set_heap].
  repeat case_decide; try done.
  1: by destruct (data p); destruct (alloc _).
  all: by destruct (_ && _).
Qed.

Lemma line_step_place l p c b n : line_step l (with_place p b n) c = let '(r, p, c) := line_step l p c in (r, with_place p b n, c).
Proof.
  unfold line_step. change (malloc alloc (with_place p b n)) with (let '(ok, p) := malloc alloc p in (ok, with_place p b n)).
  destruct (malloc alloc p) as [ok p1]. rewrite line_place. by destruct (line_ ok l p1 c) as [[r p2] c2].
Qed.

Lemma run_lines_place ls p c b n : run_lines ls (with_place p b n) c = let '(r, p, c) := run_lines ls p c in (r, with_place p b n, c).
Proof.
  revert p c. induction ls as [|l ls IH]; intros p c; cbn [run_lines]; [done|]. rewrite line_step_place.
  destruct (line_step l p c) as [[r p1] c1]. destruct (r =? 0)%Z; [apply IH|done].
Qed.

Lemma place_self p : with_place p (buf p) (pos p) = p.
Proof. by destruct p. Qed.

(** The loop runs the lines that are complete. *)
Lemma sse_loop_spec fuel bytes p c : pos p <= length bytes -> length bytes - pos p < fuel ->
  exists n, sse_loop alloc atoi_big on_event fuel bytes p c =
      (let '(r, p', c) := run_lines (lines (drop (pos p) bytes)).1 p c in Some (r, with_place p' (buf p) n, c)) /\
    n <= length bytes /\ ((run_lines (lines (drop (pos p) bytes)).1 p c).1.1 = 0%Z -> drop n bytes = (lines (drop (pos p) bytes)).2).
Proof.
  revert p c. induction fuel as [|fuel IH]; intros p c Hp Hf; [lia|]. cbn [sse_loop]. case_decide as Hend.
  { exists (pos p). rewrite drop_ge by lia. cbn. by rewrite place_self. }
  destruct (find_line_end (drop (pos p) bytes)) as [k|] eqn:Ek.
  2: { unfold lines. rewrite (find_line_end_None _ _ Ek). cbn. exists (pos p). by rewrite place_self. }
  destruct (find_line_end_Some _ _ [] Ek) as (x & Hx & Hterm & E & Hle). cbn zeta in E, Hle. rewrite Hx.
  rewrite !lookup_drop in *. rewrite length_drop in Hle.
  set (next := k + 1 + _) in *. assert (1 <= next) as Hnext by (unfold next; lia). change (lines (drop (pos p) bytes)) with (lines_from [] (drop (pos p) bytes)). rewrite E. cbn [fst snd run_lines app].
  unfold line_step at 1 2. change (malloc alloc p) with (let '(ok, q) := malloc alloc p in (ok, q)).
  destruct (malloc alloc p) as [copied p1] eqn:Em.
  assert (buf p1 = buf p /\ pos p1 = pos p) as [Eb Epos] by (unfold malloc, h_alloc in Em; by injection Em as <- <-).
  assert ((if bool_decide (Some x = Some CR) && bool_decide (bytes !! pos (set_pos p1 (pos p1 + k + 1)) = Some LF)
    then set_pos (set_pos p1 (pos p1 + k + 1)) (pos (set_pos p1 (pos p1 + k + 1)) + 1) else set_pos p1 (pos p1 + k + 1)) =
    with_place p1 (buf p1) (pos p + next)) as Eplace.
  { clear E Hle Hnext. unfold next. clear next. cbn [pos set_pos]. rewrite Epos. replace (pos p + (k + 1)) with (pos p + k + 1) by lia.
    assert (bool_decide (Some x = Some CR) = bool_decide (x = CR)) as -> by (apply bool_decide_ext; split; congruence).
    destruct (bool_decide (x = CR) && bool_decide (bytes !! (pos p + k + 1) = Some LF)); unfold with_place, set_pos, set_buf; cbn; f_equal; lia. }
  rewrite Eplace. rewrite line_place. destruct (line_ copied (take k (drop (pos p) bytes)) p1 c) as [[r p2] c2] eqn:El.
  change (free ?o (with_place p2 (buf p1) ?n)) with (with_place (free o p2) (buf p1) n). set (p3 := free _ p2).
  destruct (r =? 0)%Z eqn:Er.
  - destruct (IH (with_place p3 (buf p1) (pos p + next)) c2) as (n & En & Hn & Hrem); [cbn; lia|cbn; unfold next; lia|].
    exists n. rewrite En. cbn [pos buf with_place set_pos set_buf] in *. rewrite drop_drop in *. rewrite run_lines_place.
    rewrite run_lines_place in Hrem. destruct (run_lines _ p3 c2) as [[r' p4] c4]. cbn [fst snd] in *. rewrite Eb. split; [done|]. split; [done|]. exact Hrem.
  - exists (pos p + next). rewrite Eb. split; [done|]. split; [lia|]. cbn. intros ->. done.
Qed.

(** ** Feeding *)

Abbreviation feed := (sse_parser_feed junk alloc_buf alloc atoi_big on_event).

(** A parser that awaits bytes: [rest] is the incomplete line. *)
Record sse_ok (p : xSseParser) (b : xBuffer_) : Prop := {
  so_buf : buf p = Some b;
  so_inv : buf_inv b;
  so_pos : pos p = 0;
  so_error : error p = false;
}.

Lemma append_wpos b d b' : buf_inv b -> (b_wpos b + Z.of_nat (length d) <= 2 ^ 62)%Z ->
  xBufferAppend junk alloc_buf b d (Z.of_nat (length d)) = Some (xErrno_Ok, b') ->
  b_wpos b' = (b_wpos b + Z.of_nat (length d))%Z.
Proof.
  intros I Hbig. pose proof I as [Hp _ _ _]. unfold xBufferAppend. destruct (Z.eqb_spec (Z.of_nat (length d)) 0); [intros [= <-]; lia|].
  rewrite u64_small by lia. destruct (buf_grow_spec junk length_junk alloc_buf b (b_wpos b + Z.of_nat (length d)) I) as (e & b1 & -> & I1 & Hu & Hw & Hr & Hres); [lia..|].
  cbn [mbind option_bind]. destruct Hres as [[-> Hcap]|[-> ->]]; [|done].
  rewrite mem_read_Some by lia. cbn [mbind option_bind]. destruct (mem_write _ _ _); [|done]. cbn [mbind option_bind].
  intros [= <-]. cbn [b_wpos]. rewrite u64_small; lia.
Qed.

Lemma append_refused b d : xBufferAppend junk alloc_buf b d (Z.of_nat (length d)) = Some (xErrno_NoMemory, b) ->
  exists n, alloc_buf n = false.
Proof.
  assert (forall b1 : xBuffer_, (src ← mem_read d 0 (Z.to_nat (Z.of_nat (length d)));
      d1 ← mem_write (b_data b1) (Z.to_nat (b_wpos b1)) src;
      Some (xErrno_Ok, {| b_rpos := b_rpos b1; b_wpos := u64 (b_wpos b1 + Z.of_nat (length d)); b_cap := b_cap b1; b_data := d1 |})) <>
      Some (xErrno_NoMemory, b)) as Hne.
  { intros b1. destruct (mem_read _ _ _); [|done]. cbn [mbind option_bind]. by destruct (mem_write _ _ _). }
  unfold xBufferAppend, buf_grow, buf_realloc. destruct (_ =? 0)%Z; [done|]. destruct (_ <=? b_cap b)%Z; cbn [mbind option_bind].
  { intros H. by apply Hne in H. }
  destruct (_ && _).
  { destruct (slide _ _ _); [|done]. cbn [mbind option_bind]. intros H. by apply Hne in H. }
  destruct (buf_next_cap _ _); [|done]. cbn [mbind option_bind]. destruct (alloc_buf _) eqn:Ea; [|by eexists].
  destruct (_ <? _)%Z; [done|]. cbn [mbind option_bind]. intros H. by apply Hne in H.
Qed.

(** The unread bytes are where [xBufferData] says. *)
Lemma unread_data b : buf_inv b ->
  (match xBufferData b with
   | Some off => mem_read (b_data b) (Z.to_nat off) (Z.to_nat (xBufferLen b))
   | None => Some []
   end) = Some (unread b).
Proof.
  intros I. pose proof (length_unread b I) as Hl. pose proof I as [Hp Hw Hc Hd]. unfold xBufferData. destruct (Z.leb_spec (b_wpos b) (b_rpos b)).
  - f_equal. symmetry. unfold unread. by replace (Z.to_nat (b_wpos b - b_rpos b)) with 0 by lia.
  - unfold xBufferLen, sizeof_xBuffer_, SIZE_MAX in *. rewrite u64_small in * by lia. rewrite mem_read_Some by lia. done.
Qed.

Lemma consume_wpos b n : buf_inv b -> (0 <= n)%Z -> (b_wpos (xBufferConsume b n) <= b_wpos b)%Z.
Proof. intros [Hp _ _ _] Hn. unfold xBufferConsume. destruct (_ <=? _)%Z; cbn [b_wpos]; lia. Qed.

(** The fields of a line leave the buffer, the position and the error alone. *)
Definition place (p : xSseParser) : bool * option xBuffer_ * nat := (error p, buf p, pos p).

Lemma field_place p l : place (parse_sse_field alloc atoi_big p l) = place p.
Proof.
  unfold parse_sse_field, strndup, malloc. destruct (bool_decide _); [reflexivity|]. destruct (sse_field l) as [f v].
  destruct (decide (f = lit "event")); [destruct (h_alloc alloc _); reflexivity|].
  destruct (decide (f = lit "data")).
  { destruct (data p); destruct (h_alloc alloc _) as [[] ?]; reflexivity. }
  destruct (decide (f = lit "id")).
  { destruct (_ && _); [destruct (h_alloc alloc _)|]; reflexivity. }
  destruct (decide (f = lit "retry")); [destruct (_ && _)|]; reflexivity.
Qed.

Lemma run_lines_place_eq ls p c : place (run_lines ls p c).1.2 = place p.
Proof.
  revert p c. induction ls as [|l ls IH]; intros p c; cbn [run_lines]; [reflexivity|].
  assert (place (line_step l p c).1.2 = place p) as H.
  { unfold line_step, sse_line, malloc. destruct (h_alloc alloc (hp p)) as [ok h]. destruct (decide (l = [])).
    { cbn [data set_heap]. destruct (data p); [destruct (on_event _ c)|]; reflexivity. }
    destruct ok; [exact (field_place (set_heap p h) l)|reflexivity]. }
  destruct (line_step l p c) as [[r p1] c1]. cbn [fst snd] in H. destruct (r =? 0)%Z; [|exact H]. rewrite IH. exact H.
Qed.

(** What a call does: the buffer cannot grow, or the complete lines run; when no
    callback stops it, the incomplete line stays. *)
Lemma sse_feed_spec p b d c : sse_ok p b -> (b_wpos b + Z.of_nat (length d) <= 2 ^ 62)%Z ->
  feed p d c = Some ((-1)%Z, set_error p, c) /\ (exists n, alloc_buf n = false) \/
  exists r q c' b', run_lines (lines (unread b ++ d)).1 p c = (r, q, c') /\
    (r <> 0%Z /\ (exists n, feed p d c = Some (r, with_place q (Some b') n, c')) \/
     r = 0%Z /\ feed p d c = Some (0%Z, with_place q (Some b') 0, c') /\ sse_ok (with_place q (Some b') 0) b' /\
       unread b' = (lines (unread b ++ d)).2 /\ (b_wpos b' <= b_wpos b + Z.of_nat (length d))%Z).
Proof.
  intros [Hb I Hpos He] Hbig. unfold sse_parser_feed. rewrite He, Hb.
  destruct (xBufferAppend_spec junk length_junk alloc_buf b d (Z.of_nat (length d)) I) as (e & b1 & Ea & I1 & Hres); [lia..|].
  rewrite Ea. cbn [mbind option_bind fst snd]. destruct Hres as [[-> Hu]|[-> ->]].
  2: { left. rewrite decide_True by done. split; [by rewrite <- Hb; destruct p|]. by apply append_refused in Ea. }
  right. rewrite decide_False by (intros H; by apply H). cbn [buf set_buf mbind option_bind]. rewrite unread_data by done. cbn [mbind option_bind].
  rewrite Nat2Z.id, firstn_all in Hu. rewrite <- Hu.
  destruct (sse_loop_spec (S (length (unread b1))) (unread b1) (set_buf p (Some b1)) c) as (n & -> & Hn & Hrem); [cbn; lia|cbn; lia|].
  cbn [pos set_buf] in *. rewrite Hpos, drop_0 in *. change (set_buf p (Some b1)) with (with_place p (Some b1) (pos p)) in *.
  rewrite run_lines_place in *. pose proof (run_lines_place_eq (lines (unread b1)).1 p c) as Hf.
  destruct (run_lines (lines (unread b1)).1 p c) as [[r q] c'] eqn:Er. cbn [fst snd mbind option_bind buf with_place set_pos set_buf] in *.
  injection Hf as Hqe Hqb Hqp. pose proof (append_wpos _ _ _ I Hbig Ea) as Hw.
  destruct (Z.eqb_spec r 0) as [->|Hr]; [|exists r, q, c', b1; split; [done|]; left; split; [done|]; by exists n].
  specialize (Hrem eq_refl). change (pos (with_place (with_place q (Some b1) (pos p)) (Some b1) n)) with n. destruct (decide (0 < n)) as [Hpos'|Hzero].
  - exists 0%Z, q, c', (xBufferConsume b1 (Z.of_nat n)). split; [done|]. right. split; [done|]. split; [done|].
    destruct (xBufferConsume_spec b1 (Z.of_nat n) I1) as (I2 & Hu2 & _); [lia|].
    split; [split; [done|done|done|cbn; congruence]|]. split; [by rewrite Hu2, Nat2Z.id|]. pose proof (consume_wpos b1 (Z.of_nat n) I1). lia.
  - assert (n = 0) as -> by lia. exists 0%Z, q, c', b1. split; [done|]. right. split; [done|]. split; [done|].
    split; [split; [done|done|done|cbn; congruence]|]. split; [|lia]. by rewrite <- Hrem, drop_0.
Qed.
End safe.
