(* ===== verification/SseStream.v ===== *)
(** * SseStream: events through the stream

    How the bytes are cut into chunks does not matter, unless a cut falls
    between a CR and its LF; events written in the format of the standard are
    delivered once each, in order, and everything allocated is given back. *)

From Stdlib Require Import String.
From S2P Require Import Prelude Errno Grow Buf Decimal Wire Sse SseSafe.

Abbreviation length := Datatypes.length.

(** ** Lines *)

Definition no_eol (s : list Z) : Prop := Forall (fun c => c <> LF /\ c <> CR) s.

Lemma lines_from_no_eol cur s t : no_eol s -> lines_from cur (s ++ t) = lines_from (cur ++ s) t.
Proof.
  intros H. revert cur. induction H as [|c s [H1 H2] _ IH]; intros cur; cbn [app lines_from]; [by rewrite app_nil_r|].
  destruct (Z.eqb_spec c LF); [done|]. destruct (Z.eqb_spec c CR); [done|]. by rewrite IH, <- app_assoc.
Qed.

Lemma lines_from_rest cur s : no_eol cur -> no_eol (lines_from cur s).2.
Proof.
  remember (length s) as n eqn:En. revert cur s En. induction (lt_wf n) as [n _ IH]. intros cur s -> Hc.
  destruct s as [|c s]; cbn [lines_from]; [done|].
  assert (no_eol []) as H0 by apply Forall_nil_2.
  destruct (Z.eqb_spec c LF); [apply (IH (length s)); [cbn; lia|done|done]|].
  destruct (Z.eqb_spec c CR).
  { destruct s as [|d s]; [done|]. destruct (d =? LF)%Z; [apply (IH (length s)); [cbn; lia|done|done]|].
    apply (IH (length (d :: s))); [cbn; lia|done|done]. }
  apply (IH (length s)); [cbn; lia|done|]. by apply Forall_app; split; [|apply Forall_cons].
Qed.

Lemma lines_terminated ls t : Forall no_eol ls ->
  lines (concat ((fun l => l ++ [LF]) <$> ls) ++ t) = (ls ++ (lines t).1, (lines t).2).
Proof.
  induction 1 as [|l ls Hl _ IH]; [by destruct (lines t) eqn:E; unfold lines in *; cbn; rewrite E|].
  rewrite fmap_cons. cbn [concat]. unfold lines in *. rewrite <- !app_assoc, lines_from_no_eol by done. cbn [app lines_from].
  rewrite IH. done.
Qed.

(** ** Chunks *)

Section chunks.
Variable junk : nat -> list Z.
Hypothesis length_junk : forall n, length (junk n) = n.
Variable alloc_buf : oracle.
Variable alloc : nat -> bool.
Variable atoi_big : Z -> Z.
Context {C : Type}.
Variable on_event : xSseEvent -> C -> Z * C.

Abbreviation feed := (sse_parser_feed junk alloc_buf alloc atoi_big on_event).
Abbreviation run := (run_lines alloc atoi_big on_event).

(** The chunks as curl passes them, up to the first refusal. *)
Fixpoint feed_all (ds : list (list Z)) (p : xSseParser) (c : C) : option (Z * xSseParser * C) :=
  match ds with
  | [] => Some (0%Z, p, c)
  | d :: ds =>
      r ← feed p d c;
      let '(r, p, c) := r : Z * xSseParser * C in
      if (r =? 0)%Z then feed_all ds p c else Some (r, p, c)
  end.

(** No cut falls between a CR and an LF. *)
Definition well_cut (rest : list Z) (ds : list (list Z)) : Prop :=
  forall k, ~ splits_crlf (rest ++ concat (take k ds)) (concat (drop k ds)).

Lemma well_cut_rest rest d ds : well_cut rest (d :: ds) -> well_cut (lines (rest ++ d)).2 ds.
Proof.
  intros H k [Hl Hh]. apply (H (S k)). cbn [take drop concat]. split; [|done]. rewrite app_assoc.
  set (x := concat (take k ds)) in *. destruct (decide (x = [])) as [E|Hx].
  - rewrite E, app_nil_r in Hl. pose proof (lines_from_rest [] (rest ++ d) (Forall_nil_2 _)) as Hr.
    apply last_Some_elem_of in Hl. unfold no_eol in Hr. rewrite Forall_forall in Hr. by destruct (Hr _ Hl).
  - rewrite last_app in *. destruct (last x) eqn:E; [done|]. by apply last_None in E.
Qed.

Lemma lines_no_eol s : no_eol s -> lines s = ([], s).
Proof. intros H. unfold lines. pose proof (lines_from_no_eol [] s [] H) as E. by rewrite app_nil_r in E. Qed.

Lemma lines_cut rest d ds : well_cut rest (d :: ds) ->
  lines (rest ++ concat (d :: ds)) =
    ((lines (rest ++ d)).1 ++ (lines ((lines (rest ++ d)).2 ++ concat ds)).1, (lines ((lines (rest ++ d)).2 ++ concat ds)).2).
Proof.
  intros H. specialize (H 1). cbn [take drop concat] in *. rewrite app_nil_r in H.
  unfold lines. rewrite app_assoc, (lines_app [] (rest ++ d) (concat ds)) by exact H.
  rewrite (lines_from_no_eol [] (lines_from [] (rest ++ d)).2) by (apply lines_from_rest, Forall_nil_2). done.
Qed.

(** The chunks together do what their lines do, whatever the cuts. *)
Lemma feed_all_spec ds p b c : (forall n, alloc_buf n = true) -> sse_ok p b -> no_eol (unread b) ->
  well_cut (unread b) ds -> (b_wpos b + Z.of_nat (length (concat ds)) <= 2 ^ 62)%Z ->
  exists r q c' b' n, run (lines (unread b ++ concat ds)).1 p c = (r, q, c') /\
    feed_all ds p c = Some (r, with_place q (Some b') n, c') /\
    (r = 0%Z -> sse_ok (with_place q (Some b') n) b' /\ unread b' = (lines (unread b ++ concat ds)).2).
Proof.
  intros Ha. revert p b c. induction ds as [|d ds IH]; intros p b c I Hrest Hcut Hbig; cbn [feed_all].
  { cbn [concat]. rewrite app_nil_r, lines_no_eol by done. exists 0%Z, p, c, b, 0.
    assert (with_place p (Some b) 0 = p) as -> by (destruct I as [Hb _ Hp _]; rewrite <- Hb, <- Hp; apply place_self). done. }
  assert (length (concat (d :: ds)) = length d + length (concat ds)) as Hlen by apply length_app. rewrite Hlen in Hbig.
  rewrite lines_cut by done. cbn [fst snd]. rewrite run_lines_app.
  destruct (sse_feed_spec junk length_junk alloc_buf alloc atoi_big on_event p b d c I ltac:(lia))
    as [[_ [m Hm]]|(r & q & c1 & b1 & Er & Hres)]; [by rewrite Ha in Hm|].
  rewrite Er. destruct Hres as [[Hr [n Ef]]|(-> & Ef & I1 & Hu & Hw)]; rewrite Ef; cbn [mbind option_bind].
  { destruct (Z.eqb_spec r 0) as [|_]; [done|]. by exists r, q, c1, b1, n. }
  destruct (IH (with_place q (Some b1) 0) b1 c1 I1) as (r & q2 & c2 & b2 & n & E & Ef2 & H2); [..|lia|].
  { rewrite Hu. apply lines_from_rest, Forall_nil_2. }
  { rewrite Hu. by apply well_cut_rest. }
  rewrite Hu, run_lines_place in E. change (0 =? 0)%Z with true. cbn iota.
  destruct (run (lines ((lines (unread b ++ d)).2 ++ concat ds)).1 q c1) as [[r' q'] c'].
  injection E as <- <- <-. exists r', q', c', b2, n. rewrite Ef2. rewrite Hu in H2. done.
Qed.

(** ** Events *)

(** What a server writes for one event, in the order of the standard's examples. *)
Record msg := Msg { m_type : option (list Z); m_id : option (list Z); m_retry : option Z; m_first : list Z; m_more : list (list Z) }.

Definition field_line (name : string) (v : list Z) : list Z := lit name ++ COLON :: 32%Z :: v.

Definition opt_line {A} (f : A -> list Z) (name : string) (o : option A) : list (list Z) :=
  match o with Some v => [field_line name (f v)] | None => [] end.

Definition msg_lines (m : msg) : list (list Z) :=
  opt_line (fun t => t) "event" (m_type m) ++ opt_line (fun t => t) "id" (m_id m) ++ opt_line (print_u 10) "retry" (m_retry m) ++
  (field_line "data" <$> m_first m :: m_more m) ++ [[]].

Definition render (m : msg) : list Z := concat ((fun l => l ++ [LF]) <$> msg_lines m).

(** The data is the lines joined by LF; the id and the retry delay stay from
    event to event. *)
Definition joined (m : msg) : list Z := fold_left (fun acc l => acc ++ LF :: l) (m_more m) (m_first m).

Definition or_last {A} (o last : option A) : option A := match o with Some _ => o | None => last end.

Fixpoint delivered (ms : list msg) (i : option (list Z)) (r : Z) (c : C) : C :=
  match ms with
  | [] => c
  | m :: ms =>
      let i := or_last (m_id m) i in
      let r := default r (m_retry m) in
      delivered ms i r (on_event (Event (default (lit "message") (m_type m)) (joined m) i r) c).2
  end.

Definition text_ok (s : list Z) : Prop := Forall (fun c => c <> LF /\ c <> CR /\ c <> 0%Z) s.

Record msg_ok (m : msg) : Prop := {
  mo_type : match m_type m with Some t => text_ok t | None => True end;
  mo_id : match m_id m with Some t => text_ok t /\ t <> [] | None => True end;
  mo_retry : match m_retry m with Some n => (0 <= n < 2 ^ 31)%Z | None => True end;
  mo_first : text_ok (m_first m);
  mo_more : Forall text_ok (m_more m);
}.

(** The fields of the parser, and the blocks they account for over [L]. *)
Record st (p : xSseParser) (t d i : option (list Z)) (r : Z) (L : Z) : Prop := {
  st_type : event_type p = t;
  st_data : data p = d;
  st_id : id p = i;
  st_retry : retry p = r;
  st_live : live (hp p) = (L + Z.of_nat (blk t + blk d + blk i))%Z;
}.

Hypothesis alloc_ok : forall n, alloc n = true.

Lemma text_c s : text_ok s -> c_text s = s.
Proof. intros H. apply c_text_id. eapply Forall_impl; [exact H|]. by intros c (_ & _ & ?). Qed.

Lemma split_colon_app n v : COLON ∉ n -> split_colon (n ++ COLON :: v) = Some (n, v).
Proof.
  induction n as [|c n IH]; intros H; cbn [app split_colon]; [done|]. apply not_elem_of_cons in H as [H1 H2].
  destruct (Z.eqb_spec c COLON) as [->|]; [done|]. by rewrite IH.
Qed.

Lemma sse_field_line name v : COLON ∉ lit name -> 0%Z ∉ lit name -> sse_field (field_line name v) = (lit name, v).
Proof.
  intros H1 H2. unfold sse_field, field_line. rewrite split_colon_app by done. f_equal. apply c_text_id, Forall_forall. by intros c Hc ->.
Qed.

(** A line of a field: it is copied, parsed and the copy freed. *)
Lemma line_step_field l p c : l <> [] ->
  line_step alloc atoi_big on_event l p c =
    (0%Z, free (Some tt) (parse_sse_field alloc atoi_big (malloc alloc p).2 l), c).
Proof.
  intros H. unfold line_step, sse_line, malloc, h_alloc. rewrite alloc_ok. rewrite decide_False by done. done.
Qed.
Ltac lits := by (let H := fresh in intros H; vm_compute in H; set_solver).

Lemma st_malloc p t d i r L : st p t d i r L -> st (malloc alloc p).2 t d i r (L + 1).
Proof. intros [Ht Hd Hi Hr Hl]. unfold malloc, h_alloc. rewrite alloc_ok. split; try done. cbn [hp set_heap live snd]. lia. Qed.

Lemma st_free {A} (x : option A) p t d i r L : st p t d i r L -> st (free x p) t d i r (L - Z.of_nat (blk x)).
Proof. intros [Ht Hd Hi Hr Hl]. split; try done. cbn [hp free set_heap h_free live]. lia. Qed.

Lemma head_field name v : head (lit name) <> Some COLON -> lit name <> [] -> bool_decide (head (field_line name v) = Some COLON) = false.
Proof. intros H Hn. apply bool_decide_false. unfold field_line. by destruct (lit name). Qed.

Lemma field_line_step name v p t d i r L c : COLON ∉ lit name -> 0%Z ∉ lit name -> lit name <> [] -> st p t d i r L ->
  exists p1, st p1 t d i r (L + 1) /\ line_step alloc atoi_big on_event (field_line name v) p c =
    (0%Z, free (Some tt) (parse_sse_field alloc atoi_big p1 (field_line name v)), c).
Proof.
  intros H1 H2 H3 I. exists (malloc alloc p).2. split; [by apply st_malloc|]. apply line_step_field. unfold field_line. by destruct (lit name).
Qed.

Lemma strndup_ok v p t d i r L : text_ok v -> st p t d i r L ->
  exists p', strndup alloc v p = (Some v, p') /\ st p' t d i r (L + 1).
Proof.
  intros Hv I. pose proof (st_malloc _ _ _ _ _ _ I) as I'. unfold strndup, malloc, h_alloc in *. rewrite alloc_ok in *. rewrite text_c by done.
  by eexists.
Qed.

Lemma type_step v p t d i r L c : text_ok v -> st p t d i r L ->
  exists p', line_step alloc atoi_big on_event (field_line "event" v) p c = (0%Z, p', c) /\ st p' (Some v) d i r L.
Proof.
  intros Hv I. destruct (field_line_step "event" v p t d i r L c) as (p1 & I1 & ->); [lits..|done|].
  unfold parse_sse_field. rewrite head_field, sse_field_line by lits. rewrite decide_True by done.
  destruct (strndup_ok v (free (event_type p1) p1) t d i r (L + 1 - Z.of_nat (blk t))) as (p2 & -> & I2); [done| |].
  { rewrite (st_type _ _ _ _ _ _ I1). by apply st_free. }
  eexists. split; [done|]. destruct I2 as [Ht Hd Hi Hr Hl]. split; try done. cbn [hp free set_heap h_free live set_type blk] in *. lia.
Qed.
Lemma id_step v p t d i r L c : text_ok v -> v <> [] -> st p t d i r L ->
  exists p', line_step alloc atoi_big on_event (field_line "id" v) p c = (0%Z, p', c) /\ st p' t d (Some v) r L.
Proof.
  intros Hv Hne I. destruct (field_line_step "id" v p t d i r L c) as (p1 & I1 & ->); [lits..|done|].
  unfold parse_sse_field. rewrite head_field, sse_field_line by lits. rewrite !decide_False by lits. rewrite decide_True by done.
  rewrite (bool_decide_false (v = [])), text_c, bool_decide_true by done. cbn [negb andb].
  destruct (strndup_ok v (free (id p1) p1) t d i r (L + 1 - Z.of_nat (blk i))) as (p2 & -> & I2); [done| |].
  { rewrite (st_id _ _ _ _ _ _ I1). by apply st_free. }
  eexists. split; [done|]. destruct I2 as [Ht Hd Hi Hr Hl]. split; try done. cbn [hp free set_heap h_free live set_id blk] in *. lia.
Qed.

Lemma retry_step n p t d i r L c : (0 <= n < 2 ^ 31)%Z -> st p t d i r L ->
  exists p', line_step alloc atoi_big on_event (field_line "retry" (print_u 10 n)) p c = (0%Z, p', c) /\ st p' t d i n L.
Proof.
  intros Hn I. destruct (field_line_step "retry" (print_u 10 n) p t d i r L c) as (p1 & I1 & ->); [lits..|done|].
  unfold parse_sse_field. rewrite head_field, sse_field_line by lits. rewrite !decide_False by lits. rewrite decide_True by done.
  assert (forallb is_digit (print_u 10 n) = true) as ->.
  { apply forallb_forall. intros x Hx. apply is_digit_spec. pose proof (print_u_digits 10 n ltac:(lia)) as H. rewrite Forall_forall in H.
    by apply H, list_elem_of_In. }
  destruct (print_u_first 10 n) as (x & xs & E & _); [change (10 ^ Z.of_nat 10)%Z with 10000000000%Z; lia|lia|].
  rewrite bool_decide_false by (by rewrite E). cbn [negb andb]. unfold atoi.
  rewrite print_u_value by (change (10 ^ Z.of_nat 10)%Z with 10000000000%Z; lia). destruct (Z.ltb_spec n (2 ^ 31)); [|lia].
  eexists. split; [done|]. destruct I1 as [Ht Hd Hi Hr Hl]. split; try done. cbn [hp free set_heap h_free live set_retry blk] in *. lia.
Qed.

Lemma data_step v p t d i r L c : text_ok v -> st p t d i r L ->
  match d with Some d => Forall (fun c => c <> 0%Z) d | None => True end ->
  exists p', line_step alloc atoi_big on_event (field_line "data" v) p c = (0%Z, p', c) /\
    st p' t (Some (match d with Some d => d ++ LF :: v | None => v end)) i r L.
Proof.
  intros Hv I Hd0. destruct (field_line_step "data" v p t d i r L c) as (p1 & I1 & ->); [lits..|done|].
  unfold parse_sse_field. rewrite head_field, sse_field_line by lits. rewrite !decide_False by lits. rewrite decide_True by done.
  rewrite (st_data _ _ _ _ _ _ I1). destruct d as [d|].
  - pose proof (st_malloc _ _ _ _ _ _ I1) as I2. unfold malloc, h_alloc in *. rewrite alloc_ok in *. cbn [snd] in I2.
    rewrite c_text_id. 2: { apply Forall_app. split; [done|]. apply Forall_cons. split; [done|]. eapply Forall_impl; [exact Hv|]. by intros ? (_ & _ & ?). }
    eexists. split; [done|]. destruct I2 as [Ht Hd Hi Hr Hl]. split; try done. cbn [hp free set_heap h_free live set_data blk] in *. lia.
  - destruct (strndup_ok v p1 t None i r (L + 1)) as (p2 & -> & I2); [done|done|].
    eexists. split; [done|]. destruct I2 as [Ht Hd Hi Hr Hl]. split; try done. cbn [hp free set_heap h_free live set_data blk] in *. lia.
Qed.

(** The empty line gives the event to the user. *)
Lemma dispatch_step p t d i r L c : st p t (Some d) i r L -> exists p',
  line_step alloc atoi_big on_event [] p c =
    ((on_event (Event (default (lit "message") t) d i r) c).1, p', (on_event (Event (default (lit "message") t) d i r) c).2) /\
  st p' None None i r L.
Proof.
  intros I. pose proof (st_malloc _ _ _ _ _ _ I) as I2. unfold line_step, sse_line. unfold malloc, h_alloc in *. rewrite alloc_ok in *. cbn [snd] in I2.
  rewrite decide_True by done. rewrite (st_data _ _ _ _ _ _ I2).
  assert (event_of (set_heap p (Heap (S (tries (hp p))) (live (hp p) + 1))) d = Event (default (lit "message") t) d i r) as ->.
  { unfold event_of. by rewrite (st_type _ _ _ _ _ _ I2), (st_id _ _ _ _ _ _ I2), (st_retry _ _ _ _ _ _ I2). }
  destruct (on_event _ c) as [res c']. eexists. split; [done|]. unfold sse_parser_reset_event.
  destruct I2 as [Ht Hd Hi Hr Hl]. rewrite Ht. split; try done. cbn [hp free set_heap h_free live set_data set_type data] in *. rewrite Hd in *. cbn [blk] in *. lia.
Qed.
Lemma opt_run {A} (f : A -> list Z) name o ls p c p' :
  (match o with Some v => line_step alloc atoi_big on_event (field_line name (f v)) p c = (0%Z, p', c) | None => p' = p end) ->
  run (opt_line f name o ++ ls) p c = run ls p' c.
Proof. destruct o; cbn [opt_line app run_lines]; [intros ->; done|by intros ->]. Qed.

Lemma data_run more d ls p t i r L c : text_ok d -> Forall text_ok more -> st p t (Some d) i r L ->
  exists p', run ((field_line "data" <$> more) ++ ls) p c = run ls p' c /\
    st p' t (Some (fold_left (fun acc l => acc ++ LF :: l) more d)) i r L.
Proof.
  assert (forall s, text_ok s -> Forall (fun c => c <> 0%Z) s) as Hz by (intros s H; eapply Forall_impl; [exact H|]; by intros ? (_ & _ & ?)).
  intros Hd%Hz H. revert d Hd p. induction H as [|v more Hv _ IH]; intros d Hd p I; [by exists p|].
  destruct (data_step v p t (Some d) i r L c Hv I Hd) as (p1 & E & I1). rewrite fmap_cons. cbn [app run_lines fold_left]. rewrite E.
  apply IH in I1 as (p' & E' & I'); [by exists p'|]. apply Forall_app. split; [done|]. apply Forall_cons. split; [done|by apply Hz].
Qed.

(** The lines of one event delivered it. *)
Lemma msg_run m ls p i r L c : (forall e c, (on_event e c).1 = 0%Z) -> msg_ok m -> st p None None i r L ->
  let i' := or_last (m_id m) i in
  let r' := default r (m_retry m) in
  exists p', run (msg_lines m ++ ls) p c =
      run ls p' (on_event (Event (default (lit "message") (m_type m)) (joined m) i' r') c).2 /\
    st p' None None i' r' L.
Proof.
  intros Hev [Ht Hi Hr Hf Hm] I. cbn zeta. unfold msg_lines, joined. rewrite <- !app_assoc.
  assert (exists p1, (match m_type m with Some v => line_step alloc atoi_big on_event (field_line "event" v) p c = (0%Z, p1, c) | None => p1 = p end) /\
    st p1 (m_type m) None i r L) as (p1 & E1 & I1).
  { destruct (m_type m) as [t|]; [|by exists p]. exact (type_step t p None None i r L c Ht I). }
  assert (exists p2, (match m_id m with Some v => line_step alloc atoi_big on_event (field_line "id" v) p1 c = (0%Z, p2, c) | None => p2 = p1 end) /\
    st p2 (m_type m) None (or_last (m_id m) i) r L) as (p2 & E2 & I2).
  { destruct (m_id m) as [t|]; [|by exists p1]. destruct Hi as [Hi Hne]. exact (id_step t p1 _ None i r L c Hi Hne I1). }
  assert (exists p3, (match m_retry m with Some v => line_step alloc atoi_big on_event (field_line "retry" (print_u 10 v)) p2 c = (0%Z, p3, c) | None => p3 = p2 end) /\
    st p3 (m_type m) None (or_last (m_id m) i) (default r (m_retry m)) L) as (p3 & E3 & I3).
  { destruct (m_retry m) as [n|]; [|by exists p2]. exact (retry_step n p2 _ None _ r L c Hr I2). }
  rewrite (opt_run _ _ _ _ _ _ _ E1), (opt_run _ _ _ _ _ _ _ E2), (opt_run _ _ _ _ _ _ _ E3).
  destruct (data_step (m_first m) p3 _ None _ _ L c Hf I3 Logic.I) as (p4 & E4 & I4).
  rewrite fmap_cons. cbn [app run_lines]. rewrite E4. change (0 =? 0)%Z with true. cbn iota.
  destruct (data_run (m_more m) (m_first m) ([] :: ls) p4 _ _ _ L c Hf Hm I4) as (p5 & E5 & I5). rewrite E5.
  destruct (dispatch_step p5 _ _ _ _ L c I5) as (p6 & E6 & I6). exists p6. split; [|done]. cbn [run_lines]. rewrite E6, Hev. done.
Qed.

Lemma msgs_run ms ls p i r L c : (forall e c, (on_event e c).1 = 0%Z) -> Forall msg_ok ms -> st p None None i r L ->
  exists p' i' r', run (concat (msg_lines <$> ms) ++ ls) p c = run ls p' (delivered ms i r c) /\ st p' None None i' r' L.
Proof.
  intros Hev H. revert p i r c. induction H as [|m ms Hm _ IH]; intros p i r c I; [by exists p, i, r|].
  rewrite fmap_cons. cbn [concat delivered]. rewrite <- app_assoc. destruct (msg_run m (concat (msg_lines <$> ms) ++ ls) p i r L c Hev Hm I) as (p1 & -> & I1).
  by apply IH.
Qed.

(** ** What is written has no CR *)

Lemma text_no_eol s : text_ok s -> no_eol s.
Proof using Type. intros H. eapply Forall_impl; [exact H|]. by intros c (? & ? & _). Qed.

Lemma field_no_eol name v : no_eol (lit name) -> no_eol v -> no_eol (field_line name v).
Proof using Type. intros H1 H2. apply Forall_app. split; [done|]. by repeat (apply Forall_cons; split). Qed.

Lemma msg_lines_no_eol m : msg_ok m -> Forall no_eol (msg_lines m).
Proof using Type. clear length_junk junk alloc_ok alloc atoi_big.
  intros [Ht Hi Hr Hf Hm]. unfold msg_lines.
  assert (forall name, name ∈ ["event"; "id"; "retry"; "data"]%string -> no_eol (lit name)) as Hn.
  { intros name Hin. unfold no_eol. repeat (apply elem_of_cons in Hin as [->|Hin]; [refine (bool_decide_unpack _ _); vm_compute; exact Logic.I|]). set_solver. }
  repeat (apply Forall_app; split).
  - destruct (m_type m); [|done]. apply Forall_singleton, field_no_eol; [apply Hn; set_solver|by apply text_no_eol].
  - destruct (m_id m); [|done]. apply Forall_singleton, field_no_eol; [apply Hn; set_solver|by apply text_no_eol, Hi].
  - destruct (m_retry m) as [n|]; [|done]. apply Forall_singleton, field_no_eol; [apply Hn; set_solver|].
    eapply Forall_impl; [apply print_u_digits; lia|]. cbn. lia.
  - apply Forall_fmap. apply Forall_cons. split; [apply field_no_eol; [apply Hn; set_solver|by apply text_no_eol]|].
    eapply Forall_impl; [exact Hm|]. intros l Hl. apply field_no_eol; [apply Hn; set_solver|by apply text_no_eol].
  - apply Forall_singleton, Forall_nil_2.
Qed.
Lemma render_all ms : concat (render <$> ms) = concat ((fun l => l ++ [LF]) <$> concat (msg_lines <$> ms)).
Proof using Type. induction ms as [|m ms IH]; [done|]. rewrite !fmap_cons. cbn [concat]. by rewrite fmap_app, concat_app, IH. Qed.

Lemma render_no_CR ms : Forall msg_ok ms -> CR ∉ concat (render <$> ms).
Proof using Type. clear length_junk junk alloc_ok alloc atoi_big.
  intros H Hin. rewrite render_all in Hin. apply list_elem_of_In, in_concat in Hin as (l & Hl & Hin).
  apply list_elem_of_In, list_elem_of_fmap in Hl as (l0 & -> & Hl). apply list_elem_of_In, in_concat in Hl as (ls & Hls & Hl).
  apply list_elem_of_In, list_elem_of_fmap in Hls as (m & -> & Hm). rewrite Forall_forall in H. apply H, msg_lines_no_eol in Hm.
  rewrite Forall_forall in Hm. apply list_elem_of_In, Hm in Hl. apply list_elem_of_In, elem_of_app in Hin as [Hin|Hin]; [|set_solver].
  unfold no_eol in Hl. rewrite Forall_forall in Hl. apply Hl in Hin. tauto.
Qed.

Lemma no_CR_well_cut ds : CR ∉ concat ds -> well_cut [] ds.
Proof using Type. clear length_junk junk alloc_ok alloc atoi_big.
  intros H k [Hl _]. apply H. cbn [app] in Hl. apply last_Some_elem_of in Hl. rewrite <- (take_drop k ds), concat_app. set_solver.
Qed.

Lemma init_ok h : (forall n, alloc_buf n = true) ->
  exists b, sse_ok (sse_parser_init junk alloc_buf h) b /\ unread b = [] /\ b_wpos b = 0%Z /\
    st (sse_parser_init junk alloc_buf h) None None None (-1) (live h).
Proof.
  intros Ha. unfold sse_parser_init, xBufferCreate. rewrite Ha. change (4096 =? 0)%Z with false. cbn iota. eexists. split; [split; [reflexivity| |done|done]|].
  - split; cbn [b_rpos b_wpos b_cap b_data]; unfold sizeof_xBuffer_, SIZE_MAX; [lia|lia|lia|]. by rewrite length_junk.
  - split; [done|]. split; [done|]. split; try done. cbn. lia.
Qed.
End chunks.

(** ** What feeding does *)



(** ** At concrete inputs *)

Module Demo.
Definition junk (n : nat) : list Z := repeat 0%Z n.
Definition collect (e : xSseEvent) (c : list xSseEvent) : Z * list xSseEvent := (0%Z, c ++ [e]).
Definition events (ds : list (list Z)) : option (list xSseEvent) :=
  snd <$> feed_all junk (fun _ => true) (fun _ => true) (fun n => n) collect ds
            (sse_parser_init junk (fun _ => true) (Heap 0 0)) [].

Definition hello : msg := Msg None (Some [55%Z]) (Some 250%Z) (lit "hi") [lit " you"; []].
Definition bye : msg := Msg (Some (lit "end")) None None (lit "bye") [].

Lemma hello_bye_ok : Forall msg_ok [hello; bye].
Proof.
  apply Forall_cons. split; [|apply Forall_singleton]; (split; [..|]; try done; cbn).
  all: try lia. all: unfold text_ok; try done. all: try (split; [|done]).
  all: refine (bool_decide_unpack _ _); vm_compute; exact Logic.I.
Defined.
End Demo.


Example sse_delivers_events : delivered Demo.collect [Demo.hello; Demo.bye] None (-1) [] =
  [Event (lit "message") (lit "hi" ++ LF :: lit " you" ++ [LF]) (Some [55%Z]) 250; Event (lit "end") (lit "bye") (Some [55%Z]) 250].
Proof. vm_compute. reflexivity. Qed.

Lemma well_cut_two a b : ~ splits_crlf a b -> well_cut [] [a; b].
Proof.
  intros H k. destruct k as [|[|k]]; cbn [take drop concat app]; rewrite ?app_nil_r; try done; [by intros [? ?]|].
  rewrite take_nil, drop_nil. cbn [concat app]. rewrite ?app_nil_r. by intros [_ ?].
Qed.


(** A cut between a CR and its LF makes one event of two lines two events. *)
Example sse_split_crlf :
  Demo.events [lit "data: a" ++ [CR; LF] ++ lit "data: b" ++ [CR; LF; CR; LF]] =
    Some [Event (lit "message") (lit "a" ++ LF :: lit "b") None (-1)] /\
  Demo.events [lit "data: a" ++ [CR]; [LF] ++ lit "data: b" ++ [CR; LF; CR; LF]] =
    Some [Event (lit "message") (lit "a") None (-1); Event (lit "message") (lit "b") None (-1)].
Proof. split; vm_compute; reflexivity. Qed.

(** An empty id does not reset the last one, and an empty type is not the default. *)
Example sse_empty_fields :
  Demo.events [lit "id: 7" ++ [LF] ++ lit "data: a" ++ [LF; LF] ++ lit "id" ++ [LF] ++ lit "event:" ++ [LF] ++ lit "data: b" ++ [LF; LF]] =
    Some [Event (lit "message") (lit "a") (Some [55%Z]) (-1); Event [] (lit "b") (Some [55%Z]) (-1)].
Proof. vm_compute. reflexivity. Qed.
