(* ===== verification/DnsName.v ===== *)
(** * DnsName: domain names on the wire ([encode_name] and [parse_name] of
    [libx/x/dns/dns_packet.c])

    A packet is a block of bytes; a C string is the list of its characters
    before the terminator.  [-1] is the failure of [fallible]. *)

From S2P Require Import Prelude Wire.

(** A name cut at its dots. *)
Fixpoint split_dot (label : list Z) (name : list Z) : list (list Z) :=
  match name with
  | [] => [label]
  | c :: name => if (c =? 46)%Z then label :: split_dot [] name else split_dot (label ++ [c]) name
  end.

(** The body of [encode_name]'s loop where a label ends: [i] is [w.2 - base]. *)
Definition put_label (base : nat) (outcap : Z) (label : list Z) (w : list Z * nat) : fallible (list Z * nat) :=
  let lablen := Z.of_nat (length label) in
  if (63 <? lablen)%Z then fail
  else if (outcap <? Z.of_nat (w.2 - base) + 1 + lablen)%Z then fail
  else
    w ⇐ lift (put w (u8 lablen));
    lift (puts w label).

(** [name] is what the loop has still to read, [label] the characters since
    [label_start], [j] the index. *)
Fixpoint encode_name_loop (base : nat) (outcap : Z) (name label : list Z) (j : nat) (w : list Z * nat)
    : fallible (list Z * nat) :=
  match name with
  | [] =>
      if decide (length label = 0) then (if decide (j = 0) then ok w else fail)
      else put_label base outcap label w
  | c :: name =>
      if (c =? 46)%Z then
        if decide (length label = 0) then fail
        else w ⇐ put_label base outcap label w; encode_name_loop base outcap name [] (S j) w
      else encode_name_loop base outcap name (label ++ [c]) (S j) w
  end.

(** [encode_name(buf + base, outcap, name)]: the block, and the cursor past
    the name. *)
Definition encode_name (outcap : Z) (name : list Z) (w : list Z * nat) : fallible (list Z * nat) :=
  let base := w.2 in
  w ⇐ encode_name_loop base outcap name [] 0 w;
  if (outcap <? Z.of_nat (w.2 - base) + 1)%Z then fail
  else lift (put w 0%Z).

(** The loop of [parse_name]; [out] is the destination with its cursor. *)
Fixpoint parse_name_loop (fuel : nat) (buf : list Z) (len : Z) (out_cap : Z) (cur : Z)
    (followed : option Z) (seen : list Z) (out : list Z * nat) : fallible (Z * (list Z * nat)) :=
  match fuel with
  | 0 => None
  | S fuel =>
      if (len <=? cur)%Z then fail else
      c ⇐ lift (buf !! Z.to_nat cur);
      if (Z.land c 0xC0 =? 0xC0)%Z then
        if (len <=? cur + 1)%Z then fail else
        lo ⇐ lift (buf !! Z.to_nat (cur + 1));
        let target := Z.lor (Z.shiftl (Z.land c 0x3F) 8) lo in
        let followed := match followed with None => Some (cur + 2)%Z | f => f end in
        if existsb (Z.eqb target) seen then fail
        else if (64 <=? Z.of_nat (length seen))%Z then fail
        else parse_name_loop fuel buf len out_cap target followed (seen ++ [target]) out
      else if (Z.land c 0xC0 =? 0x80)%Z || (Z.land c 0xC0 =? 0x40)%Z then fail
      else if (c =? 0)%Z then
        let end_off := match followed with None => (cur + 1)%Z | Some e => e end in
        out_i ⇐ lift (match out.2 with
                      | 0 => Some 0
                      | S i => x ← out.1 !! i; Some (if (x =? 46)%Z then i else S i)
                      end);
        if (out_cap <=? Z.of_nat out_i)%Z then fail
        else d ⇐ lift (mem_set out.1 out_i 0%Z); ok (end_off, (d, out_i))
      else
        if (len <? cur + 1 + c)%Z then fail
        else if (out_cap <=? Z.of_nat out.2 + c + 1)%Z then fail
        else
          src ⇐ lift (mem_read buf (Z.to_nat (cur + 1)) (Z.to_nat c));
          out ⇐ lift (puts out src);
          out ⇐ lift (put out 46%Z);
          parse_name_loop fuel buf len out_cap (cur + 1 + c) followed seen out
  end.

(** Every pointer is new in [seen], which holds 64, and between two pointers
    the cursor moves up: [parse_fuel] rounds are enough. *)
Definition parse_fuel (len : Z) : nat := 66 * S (Z.to_nat len).

(** [parse_name(buf, len, pos, out, out_cap)] with [out] an array of
    [out_cap] bytes: the offset past the name and the C string. *)
Definition parse_name (buf : list Z) (len pos : Z) (out_cap : nat) : fallible (Z * list Z) :=
  '(end_off, (d, n)) ⇐ parse_name_loop (parse_fuel len) buf len (Z.of_nat out_cap) pos None []
                         (replicate out_cap 0%Z, 0);
  ok (end_off, take n d).

(** ** The wire form *)

Definition label_ok (l : list Z) : Prop := 0 < length l <= 63 /\ Forall (fun c => c <> 46%Z) l.

Definition wire_labels (ls : list (list Z)) : list Z := ls ≫= fun l => Z.of_nat (length l) :: l.

Fixpoint join_dot (ls : list (list Z)) : list Z :=
  match ls with
  | [] => []
  | [l] => l
  | l :: ls => l ++ 46%Z :: join_dot ls
  end.

(** The labels of a name: none for the root. *)
Definition name_labels (name : list Z) : list (list Z) :=
  if decide (name = []) then [] else split_dot [] name.

Definition wire_name (name : list Z) : list Z := wire_labels (name_labels name) ++ [0%Z].

Definition name_ok (name : list Z) : Prop := Forall label_ok (name_labels name).

#[export] Instance name_ok_dec name : Decision (name_ok name).
Proof. unfold name_ok, label_ok. apply _. Defined.

Lemma split_dot_nonempty label name : split_dot label name <> [].
Proof.
  revert label. induction name as [|c name IH]; intros label; cbn [split_dot]; [done|].
  destruct (c =? 46)%Z; [done|apply IH].
Qed.

Lemma join_split_dot label name : join_dot (split_dot label name) = label ++ name.
Proof.
  revert label. induction name as [|c name IH]; intros label; cbn [split_dot].
  - cbn. by rewrite app_nil_r.
  - destruct (Z.eqb_spec c 46) as [->|].
    + specialize (IH []). destruct (split_dot [] name) eqn:E; [by destruct (split_dot_nonempty [] name)|].
      cbn [join_dot]. cbn [join_dot] in IH. by rewrite IH.
    + rewrite IH, <- app_assoc. done.
Qed.

Lemma join_name_labels name : join_dot (name_labels name) = name.
Proof. unfold name_labels. case_decide as E; [by rewrite E|]. apply join_split_dot. Qed.

(** A label that fits is written as its length and its characters. *)
Lemma put_label_Some base outcap label w :
  base <= w.2 -> 0 < length label <= 63 ->
  (Z.of_nat (w.2 - base) + 1 + Z.of_nat (length label) <= outcap)%Z ->
  w.2 + 1 + length label <= length w.1 ->
  put_label base outcap label w =
    lift (puts w (Z.of_nat (length label) :: label)).
Proof.
  intros Hb Hl Hc Hd. unfold put_label.
  destruct (Z.ltb_spec 63 (Z.of_nat (length label))); [lia|].
  destruct (Z.ltb_spec outcap (Z.of_nat (w.2 - base) + 1 + Z.of_nat (length label))); [lia|].
  rewrite u8_small by lia. cbn [puts]. by destruct (put w _).
Qed.

Lemma wire_labels_app ls1 ls2 : wire_labels (ls1 ++ ls2) = wire_labels ls1 ++ wire_labels ls2.
Proof. unfold wire_labels. apply bind_app. Qed.

Lemma wire_labels_cons l ls : wire_labels (l :: ls) = (Z.of_nat (length l) :: l) ++ wire_labels ls.
Proof. reflexivity. Qed.

(** The loop writes the labels when they are well-formed and fit. *)
Lemma encode_name_loop_spec base outcap name label j w :
  base <= w.2 -> j <> 0 \/ name <> [] -> Forall label_ok (split_dot label name) ->
  (Z.of_nat (w.2 - base + length (wire_labels (split_dot label name))) <= outcap)%Z ->
  w.2 + length (wire_labels (split_dot label name)) <= length w.1 ->
  encode_name_loop base outcap name label j w = lift (puts w (wire_labels (split_dot label name))).
Proof.
  revert label j w. induction name as [|c name IH]; intros label j w Hb Hj Hok Hc Hd;
    cbn [split_dot encode_name_loop] in *.
  - apply Forall_cons in Hok as [[Hl _] _].
    rewrite wire_labels_cons in *. change (wire_labels []) with (@nil Z) in *. rewrite app_nil_r in *.
    cbn [length] in *. rewrite decide_False by lia. rewrite put_label_Some by lia. done.
  - destruct (Z.eqb_spec c 46) as [->|Hne].
    + apply Forall_cons in Hok as [[Hl Hdot] Hok]. rewrite wire_labels_cons in *.
      rewrite length_app in Hc, Hd. cbn [length] in Hc, Hd.
      rewrite decide_False by lia. rewrite put_label_Some by lia. rewrite puts_app.
      destruct (puts_Some_cursor w (Z.of_nat (length label) :: label)) as (w' & -> & E1 & E2);
        [cbn [length]; lia|].
      cbn [length] in E1. rewrite lift_Some, fbind_ok.
      rewrite IH; [done|lia|by left|done|lia|lia].
    + destruct Hj as [Hj|Hj]; apply IH; auto.
Qed.

Lemma wire_name_nonroot name :
  name <> [] -> wire_name name = wire_labels (split_dot [] name) ++ [0%Z].
Proof. intros H. unfold wire_name, name_labels. by rewrite decide_False. Qed.

(** A well-formed name that fits is written in wire form. *)
Lemma encode_name_spec outcap name w :
  name_ok name -> (Z.of_nat (length (wire_name name)) <= outcap)%Z ->
  w.2 + length (wire_name name) <= length w.1 ->
  encode_name outcap name w = lift (puts w (wire_name name)).
Proof.
  intros Hok Hc Hd. unfold encode_name. destruct (decide (name = [])) as [->|Hne].
  - change (wire_name []) with [0%Z] in *. cbn [length] in *.
    cbn [encode_name_loop length]. rewrite !decide_True, fbind_ok by done. destruct (Z.ltb_spec outcap (Z.of_nat (w.2 - w.2) + 1)); [lia|].
    cbn [puts]. by destruct (put w 0%Z).
  - unfold name_ok, name_labels in Hok. rewrite decide_False in Hok by done.
    rewrite wire_name_nonroot in * by done. rewrite length_app in Hc, Hd. cbn [length] in Hc, Hd.
    rewrite encode_name_loop_spec; [|lia|by right|done|lia|lia]. rewrite puts_app.
    destruct (puts_Some_cursor w (wire_labels (split_dot [] name))) as (w' & -> & E1 & E2); [lia|].
    rewrite lift_Some, fbind_ok.
    destruct (Z.ltb_spec outcap (Z.of_nat (w'.2 - w.2) + 1)); [lia|].
    cbn [puts mbind option_bind]. by destruct (put w' 0%Z).
Qed.

(** ** Safety of the parser *)

Lemma top_bits c : byte_ok c ->
  Z.land c 0xC0 <> 0xC0%Z -> Z.land c 0xC0 <> 0x80%Z -> Z.land c 0xC0 <> 0x40%Z -> (0 <= c < 64)%Z.
Proof.
  intros Hc. pose proof (byte_exhaust (fun c =>
    (Z.land c 0xC0 =? 0xC0)%Z || (Z.land c 0xC0 =? 0x80)%Z || (Z.land c 0xC0 =? 0x40)%Z ||
    ((0 <=? c) && (c <? 64))%Z) ltac:(vm_compute; reflexivity) c Hc) as H.
  rewrite !orb_true_iff, andb_true_iff, !Z.eqb_eq, Z.leb_le, Z.ltb_lt in H. tauto.
Qed.

Lemma pointer_target c lo : byte_ok c -> byte_ok lo -> (0 <= Z.lor (Z.shiftl (Z.land c 0x3F) 8) lo)%Z.
Proof.
  intros [Hc _] [Hl _]. apply Z.lor_nonneg. split; [|done].
  apply Z.shiftl_nonneg, Z.land_nonneg. lia.
Qed.

Lemma parse_name_loop_safe fuel buf len out_cap cur followed seen out :
  bytes_ok buf -> len = Z.of_nat (length buf) -> (0 <= cur)%Z ->
  length seen <= 64 ->
  (64 - length seen) * S (Z.to_nat len) + (Z.to_nat len - Z.to_nat cur) < fuel ->
  (forall e, followed = Some e -> (0 <= e <= len)%Z) ->
  length out.1 = out_cap -> out.2 < out_cap \/ out.2 = 0 ->
  exists r, parse_name_loop fuel buf len (Z.of_nat out_cap) cur followed seen out = Some r /\
    match r with
    | None => True
    | Some (e, (d, n)) => (0 <= e <= len)%Z /\ length d = out_cap /\ n < out_cap
    end.
Proof.
  intros Hb Hlen. revert cur followed seen out.
  induction fuel as [|fuel IH]; intros cur followed seen out Hcur Hseen Hfuel Hfol Hd Hout;
    [by apply Nat.nlt_0_r in Hfuel|].
  cbn [parse_name_loop]. destruct (Z.leb_spec len cur) as [|Hlt]; [by eexists|].
  destruct (read_byte buf cur Hb) as (c & Ec & Hc); [lia|]. rewrite Ec, lift_Some, fbind_ok.
  destruct (Z.eqb_spec (Z.land c 0xC0) 0xC0) as [Eptr|Hnp].
  - destruct (Z.leb_spec len (cur + 1)); [by eexists|].
    destruct (read_byte buf (cur + 1) Hb) as (lo & El & Hlo); [lia|]. rewrite El, lift_Some, fbind_ok.
    cbv zeta. destruct (existsb _ seen); [by eexists|].
    destruct (Z.leb_spec 64 (Z.of_nat (length seen))); [by eexists|].
    pose proof (pointer_target c lo Hc Hlo). apply IH; try done.
    + rewrite length_app. simpl. lia.
    + rewrite length_app. simpl length.
      replace (64 - length seen) with (S (64 - (length seen + 1))) in Hfuel by lia. nia.
    + intros e. destruct followed as [e'|]; [by apply Hfol|]. intros [= <-]. lia.
  - destruct (Z.eqb_spec (Z.land c 0xC0) 0x80); [by eexists|].
    destruct (Z.eqb_spec (Z.land c 0xC0) 0x40); [by eexists|]. cbn [orb].
    pose proof (top_bits c Hc ltac:(done) ltac:(done) ltac:(done)) as Hc64.
    destruct (Z.eqb_spec c 0) as [->|Hc0].
    + cbv zeta. set (e := match followed with None => (cur + 1)%Z | Some e => e end).
      assert (0 <= e <= len)%Z as He by (unfold e; destruct followed as [e'|]; [by apply Hfol|lia]).
      assert (exists n, (match out.2 with
        | 0 => Some 0
        | S i => x ← out.1 !! i; Some (if (x =? 46)%Z then i else S i)
        end) = Some n /\ (n <= out.2)) as (n1 & -> & Hn).
      { destruct (out.2) as [|i] eqn:Ei; [by exists 0|].
        destruct (lookup_lt_is_Some_2 out.1 i) as [x ->]; [lia|]. cbn [mbind option_bind].
        eexists. split; [done|]. destruct (x =? 46)%Z; lia. }
      rewrite lift_Some, fbind_ok.
      destruct (Z.leb_spec (Z.of_nat out_cap) (Z.of_nat n1)); [by eexists|].
      rewrite mem_set_Some by lia. rewrite lift_Some, fbind_ok. eexists. split; [done|]. cbn.
      rewrite length_insert. split; [done|]. split; [done|]. lia.
    + destruct (Z.ltb_spec len (cur + 1 + c)); [by eexists|].
      destruct (Z.leb_spec (Z.of_nat out_cap) (Z.of_nat out.2 + c + 1)); [by eexists|].
      rewrite mem_read_Some by lia. rewrite lift_Some, fbind_ok.
      set (src := take _ _). assert (length src = Z.to_nat c) as Hsrc.
      { unfold src. rewrite length_take, length_drop. lia. }
      destruct (puts_Some_cursor out src) as (w & -> & E1 & E2); [lia|]. rewrite lift_Some, fbind_ok.
      destruct w as [d o]. cbn [fst snd] in *. rewrite put_Some by lia. rewrite lift_Some, fbind_ok.
      apply IH; try done; cbn [fst snd]; [lia|lia|by rewrite length_insert, E2|left; lia].
Qed.

(** ** Reading back a written name *)

Definition dotted (ls : list (list Z)) : list Z := ls ≫= fun l => l ++ [46%Z].

Lemma dotted_join l ls : dotted (l :: ls) = join_dot (l :: ls) ++ [46%Z].
Proof.
  revert l. induction ls as [|l' ls IH]; intros l.
  - change (dotted [l]) with ((l ++ [46%Z]) ++ []). by rewrite app_nil_r.
  - change (dotted (l :: l' :: ls)) with ((l ++ [46%Z]) ++ dotted (l' :: ls)). rewrite IH.
    cbn [join_dot]. rewrite <- !app_assoc. done.
Qed.

Lemma land_C0_small c : (0 <= c < 64)%Z -> Z.land c 0xC0 = 0%Z.
Proof.
  intros Hc. pose proof (range_exhaust 64 (fun c => Z.land c 0xC0 =? 0)%Z ltac:(vm_compute; reflexivity) c Hc) as H.
  by apply Z.eqb_eq in H.
Qed.

Lemma parse_name_loop_wire fuel buf out_cap p ls done_ls out :
  Forall (fun l => 0 < length l <= 63) ls -> stands buf p (wire_labels ls ++ [0%Z]) ->
  length ls < fuel -> length out.1 = out_cap -> out.2 <= out_cap ->
  take out.2 out.1 = dotted done_ls -> length (dotted done_ls) = out.2 ->
  length (dotted (done_ls ++ ls)) < out_cap \/ length (dotted (done_ls ++ ls)) = 0 -> 0 < out_cap ->
  exists d n, parse_name_loop fuel buf (Z.of_nat (length buf)) (Z.of_nat out_cap) (Z.of_nat p) None [] out
      = ok ((Z.of_nat (p + length (wire_labels ls) + 1)), (d, n)) /\
    take n d = join_dot (done_ls ++ ls).
Proof.
  revert p ls done_ls out. induction fuel as [|fuel IH]; intros p ls done_ls out Hls Hst Hfuel Hd Ho Htk Hdl Hcap Hpos; [lia|].
  cbn [parse_name_loop]. pose proof (stands_le _ _ _ Hst) as Hle. rewrite length_app in Hle. simpl in Hle.
  destruct (Z.leb_spec (Z.of_nat (length buf)) (Z.of_nat p)); [lia|]. rewrite Nat2Z.id.
  destruct ls as [|l ls].
  - change (wire_labels [] ++ [0%Z]) with [0%Z] in Hst. rewrite (stands_lookup _ _ _ _ Hst), lift_Some, fbind_ok.
    change (Z.land 0 0xC0) with 0%Z. cbn [Z.eqb orb]. rewrite app_nil_r in Hcap |- *.
    change (length (wire_labels [])) with 0. rewrite Nat.add_0_r.
    destruct (out.2) as [|i] eqn:Ei.
    + rewrite lift_Some, fbind_ok. destruct (Z.leb_spec (Z.of_nat out_cap) (Z.of_nat 0)); [lia|].
      rewrite mem_set_Some by lia. rewrite lift_Some, fbind_ok. eexists _, 0.
      split; [do 3 f_equal; lia|]. rewrite take_0. destruct done_ls as [|l0 ls0]; [done|].
      rewrite dotted_join, length_app in Hdl. cbn [length] in Hdl. lia.
    + destruct done_ls as [|l0 ls0]; [done|]. rewrite dotted_join in Htk, Hdl, Hcap.
      rewrite length_app in Hdl, Hcap. cbn [length] in Hdl, Hcap.
      assert (out.1 !! i = Some 46%Z) as ->.
      { rewrite <- (lookup_take_lt out.1 (S i)) by lia. rewrite Htk.
        rewrite lookup_app_r by lia. replace (i - length (join_dot (l0 :: ls0))) with 0 by lia. done. }
      cbn [mbind option_bind]. rewrite lift_Some, fbind_ok. cbn [Z.eqb Pos.eqb].
      destruct (Z.leb_spec (Z.of_nat out_cap) (Z.of_nat i)); [lia|].
      rewrite mem_set_Some by lia. rewrite lift_Some, fbind_ok. eexists _, i.
      split; [do 3 f_equal; lia|]. rewrite take_insert_ge by lia.
      apply (f_equal (take i)) in Htk. rewrite take_take, Nat.min_l in Htk by lia. rewrite Htk.
      by rewrite take_app_length' by lia.
  - apply Forall_cons in Hls as [Hl Hls]. rewrite wire_labels_cons in Hst, Hle |- *.
    rewrite <- app_assoc in Hst. apply stands_app in Hst as [Hl0 Hst].
    change (Z.of_nat (length l) :: l) with ([Z.of_nat (length l)] ++ l) in Hl0.
    apply stands_app in Hl0 as [Hc Hlab].
    rewrite (stands_lookup _ _ _ _ Hc), lift_Some, fbind_ok.
    rewrite (land_C0_small (Z.of_nat (length l))) by lia. cbn [Z.eqb orb].
    destruct (Z.eqb_spec (Z.of_nat (length l)) 0); [lia|].
    cbn [length] in Hle. rewrite length_app in Hle. cbn [length] in Hle.
    destruct (Z.ltb_spec (Z.of_nat (length buf)) (Z.of_nat p + 1 + Z.of_nat (length l))); [lia|].
    assert (dotted (done_ls ++ l :: ls) = dotted done_ls ++ l ++ [46%Z] ++ dotted ls) as Edot.
    { unfold dotted. rewrite bind_app. cbn [mbind list_bind]. by rewrite <- app_assoc. }
    rewrite Edot, !length_app in Hcap. simpl length in Hcap.
    destruct (Z.leb_spec (Z.of_nat out_cap) (Z.of_nat out.2 + Z.of_nat (length l) + 1)); [lia|].
    replace (Z.to_nat (Z.of_nat p + 1)) with (p + length [Z.of_nat (length l)]) by (simpl; lia).
    rewrite Nat2Z.id, (stands_read _ _ _ Hlab), lift_Some, fbind_ok.
    destruct out as [d o]. cbn [fst snd] in *. rewrite puts_Some by lia. rewrite lift_Some, fbind_ok.
    rewrite put_Some by (autorewrite with len; lia). rewrite lift_Some, fbind_ok.
    replace (Z.of_nat p + 1 + Z.of_nat (length l))%Z with (Z.of_nat (p + length (Z.of_nat (length l) :: l)))
      by (simpl; lia).
    destruct (IH (p + length (Z.of_nat (length l) :: l)) ls (done_ls ++ [l])
      (<[o + length l:=46%Z]> (take o d ++ l ++ drop (o + length l) d), S (o + length l)))
      as (d' & k & E & Etk); cbn [fst snd].
    + done.
    + done.
    + simpl in Hfuel. lia.
    + autorewrite with len. lia.
    + lia.
    + rewrite (take_S_r _ _ 46%Z) by (apply list_lookup_insert_eq; autorewrite with len; lia).
      rewrite take_insert_ge by lia. rewrite app_assoc, take_app_length' by (autorewrite with len; lia).
      rewrite Htk. unfold dotted. rewrite bind_app, <- app_assoc. f_equal.
      cbn [mbind list_bind]. by rewrite app_nil_r.
    + unfold dotted. rewrite bind_app, length_app. fold (dotted done_ls). rewrite Hdl.
      cbn [mbind list_bind]. rewrite app_nil_r, length_app. simpl. lia.
    + rewrite <- app_assoc. cbn [app]. rewrite Edot, !length_app. simpl. lia.
    + done.
    + exists d', k. split; [|by rewrite <- app_assoc in Etk]. rewrite E. do 3 f_equal.
      rewrite length_app. lia.
Qed.


(** ** The encoder on every input *)

Lemma put_label_total base outcap label w :
  base <= w.2 -> base + Z.to_nat outcap <= length w.1 -> length label <> 0 ->
  exists r, put_label base outcap label w = Some r /\
    (forall w', r = Some w' ->
       length label <= 63 /\ w'.2 = w.2 + 1 + length label /\ length w'.1 = length w.1 /\
       (Z.of_nat (w.2 - base) + 1 + Z.of_nat (length label) <= outcap)%Z).
Proof.
  intros Hb Hd Hl. unfold put_label.
  destruct (Z.ltb_spec 63 (Z.of_nat (length label))); [by eexists|].
  destruct (Z.ltb_spec outcap (Z.of_nat (w.2 - base) + 1 + Z.of_nat (length label))); [by eexists|].
  destruct w as [d o]. cbn [fst snd] in *. rewrite put_Some by lia. rewrite lift_Some, fbind_ok.
  rewrite puts_Some by (rewrite length_insert; lia). eexists. split; [done|].
  intros w' [= <-]. cbn [fst snd]. autorewrite with len. split; [lia|]. split; [lia|]. split; [lia|done].
Qed.

Lemma encode_name_loop_total base outcap name label j w :
  base <= w.2 -> base + Z.to_nat outcap <= length w.1 -> Forall (fun c => c <> 46%Z) label ->
  exists r, encode_name_loop base outcap name label j w = Some r /\
    (forall w', r = Some w' -> base <= w'.2 /\ length w'.1 = length w.1 /\
       (j <> 0 \/ name <> [] ->
         Forall label_ok (split_dot label name) /\
         w'.2 = w.2 + length (wire_labels (split_dot label name)) /\
         (Z.of_nat (w.2 - base + length (wire_labels (split_dot label name))) <= outcap)%Z)).
Proof.
  revert label j w. induction name as [|c name IH]; intros label j w Hb Hd Hlab; cbn [encode_name_loop split_dot].
  - destruct (decide (length label = 0)) as [|Hl].
    + destruct (decide (j = 0)) as [->|]; [|by eexists]. eexists. split; [done|].
      intros w' [= <-]. split; [done|]. split; [done|]. intros [?|?]; done.
    + destruct (put_label_total base outcap label w Hb Hd Hl) as (r & -> & Hr). exists r. split; [done|].
      intros w' ->. destruct (Hr w' eq_refl) as (H1 & H2 & H3 & H4). split; [lia|]. split; [done|]. intros _.
      change (wire_labels [label]) with ((Z.of_nat (length label) :: label) ++ []). rewrite app_nil_r.
      cbn [length]. split; [|split; lia]. constructor; [|done]. split; [lia|done].
  - destruct (Z.eqb_spec c 46) as [->|Hc].
    + destruct (decide (length label = 0)) as [|Hl]; [by eexists|].
      destruct (put_label_total base outcap label w Hb Hd Hl) as ([w1|] & -> & Hr); [|by eexists].
      destruct (Hr w1 eq_refl) as (H1 & H2 & H3 & H4). cbn [fbind].
      destruct (IH [] (S j) w1) as (r & -> & HIH); [lia|by rewrite H3|done|]. exists r. split; [done|].
      intros w' ->. destruct (HIH w' eq_refl) as (G1 & G2 & G3). split; [done|]. split; [lia|]. intros _.
      destruct G3 as (G3 & G4 & G5); [by left|]. rewrite wire_labels_cons, length_app. cbn [length].
      split; [|split; lia]. constructor; [|done]. split; [lia|done].
    + destruct (IH (label ++ [c]) (S j) w Hb Hd) as (r & -> & HIH).
      { apply Forall_app. by split; [|constructor]. }
      exists r. split; [done|]. intros w' ->. destruct (HIH w' eq_refl) as (G1 & G2 & G3).
      split; [done|]. split; [done|]. intros _. apply G3. by left.
Qed.

(** On every name and every block, [encode_name] writes the wire form or
    fails, and fails exactly when a label is empty or too long or the form
    does not fit. *)
Lemma encode_name_full outcap name w :
  w.2 + Z.to_nat outcap <= length w.1 ->
  encode_name outcap name w = fail /\
    ~ (name_ok name /\ (Z.of_nat (length (wire_name name)) <= outcap)%Z) \/
  encode_name outcap name w = lift (puts w (wire_name name)) /\
    name_ok name /\ (Z.of_nat (length (wire_name name)) <= outcap)%Z.
Proof.
  intros Hd. destruct (decide (name_ok name /\ (Z.of_nat (length (wire_name name)) <= outcap)%Z)) as [[H1 H2]|Hno].
  { right. split; [|done]. apply encode_name_spec; [done|done|lia]. }
  left. split; [|done]. unfold encode_name.
  destruct (encode_name_loop_total w.2 outcap name [] 0 w) as (r & -> & Hr); [lia|done|done|].
  destruct r as [w'|]; [|done]. cbn [fbind]. destruct (Hr w' eq_refl) as (G1 & G2 & G3).
  destruct (Z.ltb_spec outcap (Z.of_nat (w'.2 - w.2) + 1)); [done|]. exfalso. apply Hno.
  destruct (decide (name = [])) as [->|Hne].
  { split; [by constructor|]. change (wire_name []) with [0%Z]. cbn [length]. lia. }
  destruct G3 as (G3 & G4 & G5); [by right|]. unfold name_ok, name_labels. rewrite decide_False by done.
  split; [done|]. rewrite wire_name_nonroot, length_app by done. cbn [length]. lia.
Qed.


(** ** [parse_name] as called *)

Lemma parse_name_total buf pos out_cap :
  bytes_ok buf -> (0 <= pos)%Z -> 0 < out_cap ->
  exists r, parse_name buf (Z.of_nat (length buf)) pos out_cap = Some r /\
    match r with
    | None => True
    | Some (e, name) => (0 <= e <= Z.of_nat (length buf))%Z /\ length name < out_cap
    end.
Proof.
  intros Hb Hp Hc. unfold parse_name.
  destruct (parse_name_loop_safe (parse_fuel (Z.of_nat (length buf))) buf (Z.of_nat (length buf)) out_cap pos
    None [] (replicate out_cap 0%Z, 0)) as (r & -> & Hr); try done.
  - cbn [length]. lia.
  - unfold parse_fuel. cbn [length]. rewrite Nat2Z.id. lia.
  - cbn. by rewrite length_replicate.
  - by left.
  - destruct r as [[e [d n]]|]; cbn [fbind]; [|by eexists]. destruct Hr as (He & Hd & Hn).
    eexists. split; [done|]. cbv beta iota. split; [done|]. rewrite length_take. lia.
Qed.

Lemma length_wire_labels ls : Forall (fun l => 0 < length l) ls -> length ls <= length (wire_labels ls).
Proof.
  induction 1 as [|l ls Hl _ IH]; [done|]. rewrite wire_labels_cons, length_app. cbn [length]. lia.
Qed.

Lemma dotted_length name :
  length (dotted (name_labels name)) = if decide (name = []) then 0 else S (length name).
Proof.
  unfold name_labels. case_decide as E; [done|].
  pose proof (join_split_dot [] name) as J. destruct (split_dot [] name) as [|l ls] eqn:Es.
  { by destruct (split_dot_nonempty [] name). }
  rewrite dotted_join, length_app, J. cbn [length app]. lia.
Qed.

Lemma parse_name_wire buf p name out_cap :
  name_ok name -> stands buf p (wire_name name) -> S (length name) < out_cap ->
  parse_name buf (Z.of_nat (length buf)) (Z.of_nat p) out_cap =
    ok (Z.of_nat (p + length (wire_name name)), name).
Proof.
  intros Hok Hst Hcap. unfold parse_name.
  assert (Forall (fun l => 0 < length l <= 63) (name_labels name)) as Hls.
  { eapply Forall_impl; [exact Hok|]. by intros l [? _]. }
  destruct (parse_name_loop_wire (parse_fuel (Z.of_nat (length buf))) buf out_cap p (name_labels name) []
    (replicate out_cap 0%Z, 0)) as (d & n & -> & E); cbn [fst snd]; try done.
  - apply stands_le in Hst. unfold wire_name in Hst. rewrite length_app in Hst.
    assert (length (name_labels name) <= length (wire_labels (name_labels name))) as Hn.
    { apply length_wire_labels. eapply Forall_impl; [exact Hls|]. cbn. lia. }
    unfold parse_fuel. rewrite Nat2Z.id. cbn [length] in Hst. lia.
  - by rewrite length_replicate.
  - lia.
  - cbn [app]. rewrite dotted_length. case_decide; lia.
  - lia.
  - rewrite fbind_ok, E. cbn [app]. rewrite join_name_labels.
    unfold wire_name. rewrite length_app. do 2 f_equal. cbn [length]. lia.
Qed.

(** ** Properties *)

(** [parse_name] on any packet, well-formed or hostile (compression
    pointers into the middle of names, loops, truncated labels), terminates and
    reads and writes only inside its two buffers; on success the offset it
    returns is inside the packet and the name with its terminator fits the
    destination. *)
Theorem parse_name_safe buf pos out_cap :
  bytes_ok buf -> (0 <= pos)%Z -> 0 < out_cap ->
  parse_name buf (Z.of_nat (length buf)) pos out_cap = fail \/
  exists e name, parse_name buf (Z.of_nat (length buf)) pos out_cap = ok (e, name) /\
    (0 <= e <= Z.of_nat (length buf))%Z /\ length name < out_cap.
Proof.
  intros Hb Hp Hc. destruct (parse_name_total buf pos out_cap Hb Hp Hc) as (r & -> & Hr).
  destruct r as [[e name]|]; [right; by exists e, name|by left].
Qed.

(** A pointer at offset 2 to itself: the loop is detected. *)
Lemma parse_name_safe_witness :
  bytes_ok [1; 97; 0xC0; 2]%Z /\ parse_name [1; 97; 0xC0; 2]%Z 4 0 16 = fail /\
  (parse_name [1; 97; 0xC0; 2]%Z 4 0 16 = fail \/
   exists e name, parse_name [1; 97; 0xC0; 2]%Z 4 0 16 = ok (e, name) /\
     (0 <= e <= 4)%Z /\ length name < 16).
Proof.
  split; [repeat constructor; unfold byte_ok; lia|]. split; [vm_compute; reflexivity|].
  apply (parse_name_safe [1; 97; 0xC0; 2]%Z 0 16); [repeat constructor; unfold byte_ok; lia|lia|lia].
Defined.


