(* ===== verification/Dns.v ===== *)
(** * Dns: queries, responses and records ([libx/x/dns/dns_packet.c])

    The builders write into a block of [buflen] bytes through a cursor, the
    parser reads a block of bytes.  A linked list of records is a list.  The
    allocations of the parser and of [dns_records_clone] are counted ([heap]),
    so that what is held on every exit is part of the model. *)

From S2P Require Import Prelude Errno Wire DnsName.

Definition DNS_EDNS0_SIZE : Z := 4096.
Definition DNS_QTYPE_A : Z := 1.
Definition DNS_QTYPE_CNAME : Z := 5.
Definition DNS_QTYPE_AAAA : Z := 28.
Definition DNS_QTYPE_OPT : Z := 41.
Definition DNS_QCLASS_IN : Z := 1.
Definition DNS_FLAG_QR : Z := 0x8000.
Definition DNS_FLAG_RD : Z := 0x0100.
Definition DNS_FLAG_RA : Z := 0x0080.
Definition DNS_RCODE_MASK : Z := 0x000F.

(** [name] is the C string's characters, [rdata] the block; [None] is NULL. *)
Record xDnsRecord := Rec {
  qtype : Z;
  ttl : Z;
  name : option (list Z);
  rdata : option (list Z);
  rdlength : Z;
}.

Record dns_header_t := Hdr {
  id : Z; flags : Z; qdcount : Z; ancount : Z; nscount : Z; arcount : Z;
}.

Record dns_question_t := Question {
  q_name : list Z; q_qtype : Z; q_qclass : Z; wire_off : Z;
}.

(** ** Byte helpers *)

Definition put_u16 (w : list Z * nat) (v : Z) : fallible (list Z * nat) := lift (puts w (be16 v)).
Definition get_u16 (buf : list Z) (off : Z) : ub Z := get_be16 buf (Z.to_nat off).
Definition get_u32 (buf : list Z) (off : Z) : ub Z := get_be32 buf (Z.to_nat off).

(** ** Query builder *)

Definition dns_build_query (buf : option (list Z)) (buflen : Z) (id : Z) (name : option (list Z)) (qtype : Z)
    : fallible (list Z * nat) :=
  match buf, name with
  | Some buf, Some name =>
      if (buflen <? 12 + 256 + 4 + 11)%Z then fail else
      w ⇐ put_u16 (buf, 0) id;
      w ⇐ put_u16 w DNS_FLAG_RD;
      w ⇐ put_u16 w 1%Z;
      w ⇐ put_u16 w 0%Z;
      w ⇐ put_u16 w 0%Z;
      w ⇐ put_u16 w 1%Z;
      w ⇐ encode_name (buflen - Z.of_nat w.2) name w;
      w ⇐ put_u16 w qtype;
      w ⇐ put_u16 w DNS_QCLASS_IN;
      w ⇐ lift (put w 0%Z);
      w ⇐ put_u16 w DNS_QTYPE_OPT;
      w ⇐ put_u16 w DNS_EDNS0_SIZE;
      w ⇐ put_u16 w 0%Z;
      w ⇐ put_u16 w 0%Z;
      put_u16 w 0%Z
  | _, _ => fail
  end.

(** ** Response builder *)

(** The size computed before writing. *)
Definition response_need (qname : list Z) (answers : list xDnsRecord) : Z :=
  fold_left (fun need r =>
    u64 (need + (match name r with Some n => Z.of_nat (length n) | None => 0 end + 2 + 10 + rdlength r)))%Z
    answers (12 + (Z.of_nat (length qname) + 2) + 4)%Z.

(** The RDATA of one answer. *)
Definition build_rdata (buflen : Z) (r : xDnsRecord) (w : list Z * nat) : fallible (list Z * nat) :=
  if (qtype r =? DNS_QTYPE_CNAME)%Z then
    cname ⇐ lift (match rdata r with Some d => c_string d | None => Some [] end);
    let rdlen_pos := w.2 in
    let off := w.2 + 2 in
    w ⇐ encode_name (buflen - Z.of_nat off) cname (w.1, off);
    let clen := Z.of_nat (w.2 - off) in
    w' ⇐ put_u16 (w.1, rdlen_pos) clen;
    ok (w'.1, w.2)
  else
    w ⇐ put_u16 w (u16 (rdlength r));
    match rdata r with
    | Some d =>
        if (0 <? rdlength r)%Z then
          if (buflen <? u64 (Z.of_nat w.2 + rdlength r))%Z then fail
          else src ⇐ lift (mem_read d 0 (Z.to_nat (rdlength r))); lift (puts w src)
        else ok w
    | None => ok w
    end.

Definition build_answer (buflen : Z) (qname : list Z) (r : xDnsRecord) (w : list Z * nat)
    : fallible (list Z * nat) :=
  w ⇐ encode_name (buflen - Z.of_nat w.2) (match name r with Some n => n | None => qname end) w;
  w ⇐ put_u16 w (qtype r);
  w ⇐ put_u16 w DNS_QCLASS_IN;
  w ⇐ put_u16 w (u16 (Z.shiftr (ttl r) 16));
  w ⇐ put_u16 w (u16 (Z.land (ttl r) 0xFFFF));
  build_rdata buflen r w.

Fixpoint build_answers (buflen : Z) (qname : list Z) (answers : list xDnsRecord) (w : list Z * nat)
    : fallible (list Z * nat) :=
  match answers with
  | [] => ok w
  | r :: answers => w ⇐ build_answer buflen qname r w; build_answers buflen qname answers w
  end.

Definition response_flags (rcode : Z) : Z :=
  Z.lor (Z.lor DNS_FLAG_QR DNS_FLAG_RA) (u16 (Z.land rcode DNS_RCODE_MASK)).

Definition dns_build_response (buf : option (list Z)) (buflen : Z) (id rcode : Z) (qname : option (list Z))
    (qtype : Z) (answers : list xDnsRecord) : fallible (list Z * nat) :=
  match buf, qname with
  | Some buf, Some qname =>
      if (buflen <? response_need qname answers)%Z then fail else
      w ⇐ put_u16 (buf, 0) id;
      w ⇐ put_u16 w (response_flags rcode);
      w ⇐ put_u16 w 1%Z;
      w ⇐ put_u16 w (u16 (Z.of_nat (length answers)));
      w ⇐ put_u16 w 0%Z;
      w ⇐ put_u16 w 0%Z;
      w ⇐ encode_name (buflen - Z.of_nat w.2) qname w;
      w ⇐ put_u16 w qtype;
      w ⇐ put_u16 w DNS_QCLASS_IN;
      build_answers buflen qname answers w
  | _, _ => fail
  end.

(** ** Records *)

(** The blocks of a list of records: the record, its name and its data. *)
Definition record_blocks (r : xDnsRecord) : nat :=
  1 + (if name r is Some _ then 1 else 0) + (if rdata r is Some _ then 1 else 0).

Definition records_blocks (rs : list xDnsRecord) : nat := sum_list (record_blocks <$> rs).

Fixpoint dns_records_free (rec : list xDnsRecord) (h : heap) : heap :=
  match rec with
  | [] => h
  | r :: rec => dns_records_free rec (h_free (record_blocks r) h)
  end.

(** One record of [dns_records_clone]: [None] when an allocation fails, what
    was built of the record being released. *)
Definition clone_record (alloc : nat -> bool) (r : xDnsRecord) (h : heap) : ub (heap * option xDnsRecord) :=
  let '(b, h) := h_alloc alloc h in
  if negb b then Some (h, None) else
  let c := Rec (qtype r) (ttl r) None None (rdlength r) in
  let '(okn, h) := match name r with None => (true, h) | Some _ => h_alloc alloc h end in
  if negb okn then Some (h_free (record_blocks c) h, None) else
  let c := Rec (qtype r) (ttl r) (name r) None (rdlength r) in
  match rdata r with
  | Some d =>
      if (0 <? rdlength r)%Z then
        let '(okd, h) := h_alloc alloc h in
        if negb okd then Some (h_free (record_blocks c) h, None) else
        src ← mem_read d 0 (Z.to_nat (rdlength r));
        Some (h, Some (Rec (qtype r) (ttl r) (name r) (Some src) (rdlength r)))
      else Some (h, Some c)
  | None => Some (h, Some c)
  end.

Fixpoint clone_loop (alloc : nat -> bool) (rec head : list xDnsRecord) (h : heap)
    : ub (heap * list xDnsRecord) :=
  match rec with
  | [] => Some (h, head)
  | r :: rec =>
      '(h, c) ← clone_record alloc r h;
      match c with
      | None => Some (dns_records_free head h, [])
      | Some c => clone_loop alloc rec (head ++ [c]) h
      end
  end.

Definition dns_records_clone (alloc : nat -> bool) (rec : list xDnsRecord) (h : heap)
    : ub (heap * list xDnsRecord) := clone_loop alloc rec [] h.

(** ** Parser *)

Inductive dns_parse_result :=
  | ParseErr (e : xErrno)
  | ParseOk (hdr : dns_header_t) (q : dns_question_t) (answers : list xDnsRecord).

(** A record from its owner name and fixed fields, its data at [off]. *)
Definition read_record (alloc : nat -> bool) (buf : list Z) (len off : Z) (owner : list Z)
    (rtype rttl rdlen : Z) (h : heap) : ub (heap * option xDnsRecord) :=
  let '(b, h) := h_alloc alloc h in
  if negb b then Some (h, None) else
  let nm := c_text owner in
  let '(okn, h) := h_alloc alloc h in
  if negb okn then Some (h_free 1 h, None) else
  if (rtype =? DNS_QTYPE_CNAME)%Z then
    cname ← parse_name buf len off 256;
    match cname with
    | None => Some (h_free 2 h, None)
    | Some (_, cname) =>
        let cname := c_text cname in
        let '(okd, h) := h_alloc alloc h in
        if negb okd then Some (h_free 2 h, None) else
        Some (h, Some (Rec rtype rttl (Some nm) (Some (cname ++ [0%Z])) (Z.of_nat (length cname) + 1)))
    end
  else if (0 <? rdlen)%Z then
    let '(okd, h) := h_alloc alloc h in
    if negb okd then Some (h_free 2 h, None) else
    rd ← mem_read buf (Z.to_nat off) (Z.to_nat rdlen);
    Some (h, Some (Rec rtype rttl (Some nm) (Some rd) rdlen))
  else Some (h, Some (Rec rtype rttl (Some nm) None rdlen)).

(** The answer loop, [n] records to go; [None] in the result is [goto fail]. *)
Fixpoint parse_answers (alloc : nat -> bool) (buf : list Z) (len : Z) (n : nat) (off : Z)
    (head : list xDnsRecord) (h : heap) : ub (heap * option (list xDnsRecord)) :=
  match n with
  | 0 => Some (h, Some head)
  | S n =>
      let failed h := Some (dns_records_free head h, None) in
      nend ← parse_name buf len off 256;
      match nend with
      | None => failed h
      | Some (off, owner) =>
          if (len <? off + 10)%Z then failed h else
          rtype ← get_u16 buf off;
          rttl ← get_u32 buf (off + 4);
          rdlen ← get_u16 buf (off + 8);
          let off := (off + 10)%Z in
          if (len <? off + rdlen)%Z then failed h
          else if (rtype =? DNS_QTYPE_OPT)%Z then parse_answers alloc buf len n (off + rdlen) head h
          else
            '(h, rec) ← read_record alloc buf len off owner rtype rttl rdlen h;
            match rec with
            | None => failed h
            | Some rec => parse_answers alloc buf len n (off + rdlen) (head ++ [rec]) h
            end
      end
  end.

(** The question section: [None] is the return of [xErrno_DnsError]. *)
Definition parse_question (buf : list Z) (len : Z) (hdr : dns_header_t) : fallible dns_question_t :=
  if (0 <? qdcount hdr)%Z then
    '(off, qname) ⇐ parse_name buf len 12 256;
    if (len <? off + 4)%Z then fail else
    qt ⇐ lift (get_u16 buf off);
    qc ⇐ lift (get_u16 buf (off + 2));
    ok (Question (c_text qname) qt qc (off + 4))
  else ok (Question [] 0 0 12).

Definition parse_header (buf : list Z) : ub dns_header_t :=
  i ← get_u16 buf 0; f ← get_u16 buf 2; qd ← get_u16 buf 4; an ← get_u16 buf 6;
  ns ← get_u16 buf 8; ar ← get_u16 buf 10; Some (Hdr i f qd an ns ar).

Definition dns_parse (alloc : nat -> bool) (buf : option (list Z)) (len : Z) (h : heap)
    : ub (heap * dns_parse_result) :=
  match buf with
  | None => Some (h, ParseErr xErrno_InvalidArg)
  | Some buf =>
      if (len <? 12)%Z then Some (h, ParseErr xErrno_InvalidArg) else
      hdr ← parse_header buf;
      q ← parse_question buf len hdr;
      match q with
      | None => Some (h, ParseErr xErrno_DnsError)
      | Some q =>
          '(h, answers) ← parse_answers alloc buf len (Z.to_nat (ancount hdr)) (wire_off q) [] h;
          match answers with
          | None => Some (h, ParseErr xErrno_DnsError)
          | Some answers => Some (h, ParseOk hdr q answers)
          end
      end
  end.

(** ** Record types *)

Definition xDnsType_A : Z := 1.
Definition xDnsType_AAAA : Z := 2.
Definition xDnsType_CNAME : Z := 4.

Definition dns_qtype_from_bit (type : Z) : Z :=
  if (type =? xDnsType_A)%Z then DNS_QTYPE_A
  else if (type =? xDnsType_AAAA)%Z then DNS_QTYPE_AAAA
  else if (type =? xDnsType_CNAME)%Z then DNS_QTYPE_CNAME
  else 0.

(** The QTYPE and the mask left; [None] is the NULL pointer. *)
Definition dns_qtype_take_next (type : option Z) : Z * option Z :=
  match type with
  | None => (0, None)%Z
  | Some t =>
      if negb (Z.land t xDnsType_A =? 0)%Z then (DNS_QTYPE_A, Some (Z.land t (Z.lnot xDnsType_A)))
      else if negb (Z.land t xDnsType_AAAA =? 0)%Z then (DNS_QTYPE_AAAA, Some (Z.land t (Z.lnot xDnsType_AAAA)))
      else if negb (Z.land t xDnsType_CNAME =? 0)%Z then (DNS_QTYPE_CNAME, Some (Z.land t (Z.lnot xDnsType_CNAME)))
      else (0%Z, Some t)
  end.

(** ** The parser on any packet *)

Lemma records_blocks_app rs1 rs2 : records_blocks (rs1 ++ rs2) = records_blocks rs1 + records_blocks rs2.
Proof. unfold records_blocks. rewrite fmap_app. apply sum_list_with_app || apply sum_list_app. Qed.

Lemma dns_records_free_live rs h : live (dns_records_free rs h) = (live h - Z.of_nat (records_blocks rs))%Z.
Proof.
  revert h. induction rs as [|r rs IH]; intros h; cbn [dns_records_free].
  - unfold records_blocks. cbn. lia.
  - rewrite IH. unfold h_free. cbn [live]. change (records_blocks (r :: rs)) with (record_blocks r + records_blocks rs).
    lia.
Qed.

Lemma get_u16_Some buf off :
  bytes_ok buf -> (0 <= off)%Z -> (off + 2 <= Z.of_nat (length buf))%Z ->
  exists v, get_u16 buf off = Some v /\ (0 <= v < 2 ^ 16)%Z.
Proof.
  intros Hb Ho Hl. unfold get_u16, get_be16.
  destruct (lookup_lt_is_Some_2 buf (Z.to_nat off)) as [p0 ->]; [lia|].
  destruct (lookup_lt_is_Some_2 buf (S (Z.to_nat off))) as [p1 ->]; [lia|].
  eexists. split; [reflexivity|]. unfold join16, u16. apply Z.mod_pos_bound. lia.
Qed.

Lemma get_u32_Some buf off :
  (0 <= off)%Z -> (off + 4 <= Z.of_nat (length buf))%Z -> exists v, get_u32 buf off = Some v.
Proof.
  intros Ho Hl. unfold get_u32, get_be32.
  destruct (lookup_lt_is_Some_2 buf (Z.to_nat off)) as [p0 ->]; [lia|].
  destruct (lookup_lt_is_Some_2 buf (S (Z.to_nat off))) as [p1 ->]; [lia|].
  destruct (lookup_lt_is_Some_2 buf (S (S (Z.to_nat off)))) as [p2 ->]; [lia|].
  destruct (lookup_lt_is_Some_2 buf (S (S (S (Z.to_nat off))))) as [p3 ->]; [lia|].
  eexists. reflexivity.
Qed.

(** What one record holds, and nothing on failure. *)
Definition held (rec : option xDnsRecord) : Z :=
  match rec with Some r => Z.of_nat (record_blocks r) | None => 0 end.

Lemma read_record_safe alloc buf off owner rtype rttl rdlen h :
  bytes_ok buf -> (0 <= off)%Z -> (0 <= rdlen)%Z -> (off + rdlen <= Z.of_nat (length buf))%Z ->
  exists h' rec, read_record alloc buf (Z.of_nat (length buf)) off owner rtype rttl rdlen h = Some (h', rec) /\
    live h' = (live h + held rec)%Z.
Proof.
  intros Hb Ho Hr Hl. unfold read_record, h_alloc, h_free. cbn [tries live].
  destruct (alloc (tries h)); cbn [negb tries live]; [|eexists _, None; split; [done|cbn; lia]].
  destruct (alloc (S (tries h))); cbn [negb tries live]; [|eexists _, None; split; [done|cbn; lia]].
  destruct (rtype =? DNS_QTYPE_CNAME)%Z.
  - destruct (parse_name_total buf off 256 Hb Ho) as (r & -> & Hn); [lia|]. cbn [mbind option_bind].
    destruct r as [[e cname]|]; [|eexists _, None; split; [done|cbn; lia]].
    destruct (alloc (S (S (tries h)))); cbn [negb tries live]; eexists _, _; (split; [done|cbn; lia]).
  - destruct (Z.ltb_spec 0 rdlen); [|eexists _, _; split; [done|cbn; lia]].
    destruct (alloc (S (S (tries h)))); cbn [negb tries live]; [|eexists _, None; split; [done|cbn; lia]].
    rewrite mem_read_Some by lia. cbn [mbind option_bind]. eexists _, _; (split; [done|cbn; lia]).
Qed.

Lemma parse_answers_safe alloc buf n off head h :
  bytes_ok buf -> (0 <= off)%Z ->
  exists h' rs, parse_answers alloc buf (Z.of_nat (length buf)) n off head h = Some (h', rs) /\
    live h' = (live h + match rs with Some rs => Z.of_nat (records_blocks rs) | None => 0 end
               - Z.of_nat (records_blocks head))%Z.
Proof.
  intros Hb. revert off head h. induction n as [|n IH]; intros off head h Ho; cbn [parse_answers].
  { eexists _, (Some head). split; [done|]. lia. }
  destruct (parse_name_total buf off 256 Hb Ho) as (r & -> & Hn); [lia|]. cbn [mbind option_bind].
  destruct r as [[e owner]|]; cbv beta iota zeta;
    [|eexists _, None; split; [done|rewrite dns_records_free_live; lia]].
  destruct Hn as [He Hn].
  destruct (Z.ltb_spec (Z.of_nat (length buf)) (e + 10));
    [eexists _, None; split; [done|rewrite dns_records_free_live; lia]|].
  destruct (get_u16_Some buf e Hb) as (rtype & -> & _); [lia|lia|].
  destruct (get_u32_Some buf (e + 4)) as (rttl & ->); [lia|lia|].
  destruct (get_u16_Some buf (e + 8) Hb) as (rdlen & -> & Hrd); [lia|lia|]. cbn [mbind option_bind].
  destruct (Z.ltb_spec (Z.of_nat (length buf)) (e + 10 + rdlen));
    [eexists _, None; split; [done|rewrite dns_records_free_live; lia]|].
  destruct (rtype =? DNS_QTYPE_OPT)%Z; [apply IH; lia|].
  destruct (read_record_safe alloc buf (e + 10) owner rtype rttl rdlen h Hb) as (h' & rec & -> & Hh); [lia|lia|lia|].
  cbn [mbind option_bind]. destruct rec as [rec|]; cbn [held] in Hh.
  - destruct (IH (e + 10 + rdlen)%Z (head ++ [rec]) h') as (h2 & rs & -> & Hh2); [lia|].
    eexists _, rs. split; [done|]. rewrite Hh2, records_blocks_app.
    change (records_blocks [rec]) with (record_blocks rec + 0). lia.
  - eexists _, None. split; [done|]. rewrite dns_records_free_live. lia.
Qed.

Lemma parse_question_safe buf hdr :
  bytes_ok buf -> (12 <= Z.of_nat (length buf))%Z ->
  exists q, parse_question buf (Z.of_nat (length buf)) hdr = Some q /\
    match q with Some q => (0 <= wire_off q <= Z.of_nat (length buf))%Z | None => True end.
Proof.
  intros Hb Hl. unfold parse_question. destruct (0 <? qdcount hdr)%Z; [|eexists; split; [done|cbn; lia]].
  destruct (parse_name_total buf 12 256 Hb) as (r & -> & Hn); [lia|lia|].
  destruct r as [[e nm]|]; cbn [fbind]; [|by eexists]. destruct Hn as [He Hn].
  destruct (Z.ltb_spec (Z.of_nat (length buf)) (e + 4)); [by eexists|].
  destruct (get_u16_Some buf e Hb) as (v & -> & _); [lia|lia|].
  destruct (get_u16_Some buf (e + 2) Hb) as (v' & -> & _); [lia|lia|]. rewrite !lift_Some, !fbind_ok.
  eexists. split; [done|]. cbn. lia.
Qed.

Lemma parse_header_Some buf : bytes_ok buf -> (12 <= Z.of_nat (length buf))%Z -> exists hdr, parse_header buf = Some hdr.
Proof.
  intros Hb Hl. unfold parse_header.
  destruct (get_u16_Some buf 0 Hb) as (v0 & -> & _); [lia|lia|].
  destruct (get_u16_Some buf 2 Hb) as (v1 & -> & _); [lia|lia|].
  destruct (get_u16_Some buf 4 Hb) as (v2 & -> & _); [lia|lia|].
  destruct (get_u16_Some buf 6 Hb) as (v3 & -> & _); [lia|lia|].
  destruct (get_u16_Some buf 8 Hb) as (v4 & -> & _); [lia|lia|].
  destruct (get_u16_Some buf 10 Hb) as (v5 & -> & _); [lia|lia|]. by eexists.
Qed.

(** C22: [dns_parse] of any bytes, under any outcome of its allocations, never
    reads outside the packet and always returns; it holds exactly the blocks of
    the records it hands out, and none when it reports an error. *)
Theorem dns_parse_safe alloc buf h :
  bytes_ok buf ->
  exists h' r, dns_parse alloc (Some buf) (Z.of_nat (length buf)) h = Some (h', r) /\
    live h' = (live h + match r with
                        | ParseOk _ _ answers => Z.of_nat (records_blocks answers)
                        | ParseErr _ => 0
                        end)%Z.
Proof.
  intros Hb. unfold dns_parse.
  destruct (Z.ltb_spec (Z.of_nat (length buf)) 12); [eexists _, _; split; [done|cbn; lia]|].
  destruct (parse_header_Some buf Hb) as (hdr & ->); [done|]. cbn [mbind option_bind].
  destruct (parse_question_safe buf hdr Hb) as (q & -> & Hq); [done|]. cbn [mbind option_bind].
  destruct q as [q|]; [|eexists _, _; split; [done|cbn; lia]].
  destruct (parse_answers_safe alloc buf (Z.to_nat (ancount hdr)) (wire_off q) [] h Hb) as (h' & rs & -> & Hh); [lia|].
  cbn [mbind option_bind]. change (records_blocks []) with 0 in Hh.
  destruct rs as [rs|]; eexists _, _; (split; [done|cbn; lia]).
Qed.

(** Sixteen bytes that announce a question and end in its name. *)
Lemma dns_parse_safe_witness :
  let buf := [0; 1; 1; 0; 0; 1; 0; 0; 0; 0; 0; 0; 3; 97; 98; 99]%Z in
  dns_parse (fun _ => true) (Some buf) 16 (Heap 0 0) = Some (Heap 0 0, ParseErr xErrno_DnsError) /\
  exists h' r, dns_parse (fun _ => true) (Some buf) 16 (Heap 0 0) = Some (h', r) /\
    live h' = (0 + match r with
                   | ParseOk _ _ answers => Z.of_nat (records_blocks answers)
                   | ParseErr _ => 0
                   end)%Z.
Proof.
  split; [vm_compute; reflexivity|].
  apply (dns_parse_safe (fun _ => true) [0; 1; 1; 0; 0; 1; 0; 0; 0; 0; 0; 0; 3; 97; 98; 99]%Z (Heap 0 0)).
  repeat constructor; unfold byte_ok; lia.
Defined.

(** ** The builders as writers of bytes *)

(** The cursor past [out], written from the start of [buf]. *)
Definition cur (buf out : list Z) : list Z * nat := (block_with buf out, length out).

Lemma length_cur buf out : length out <= length buf -> length (cur buf out).1 = length buf.
Proof. intros H. unfold cur, block_with. cbn [fst]. rewrite length_app, length_drop. lia. Qed.

Lemma puts_cur buf out cs :
  length out + length cs <= length buf -> puts (cur buf out) cs = Some (cur buf (out ++ cs)).
Proof.
  intros H. unfold cur, block_with. rewrite puts_Some by (rewrite length_app, length_drop; lia).
  rewrite length_app, take_app_length. f_equal. f_equal.
  rewrite drop_app_ge by lia. rewrite drop_drop, <- app_assoc. do 3 f_equal. lia.
Qed.

Lemma put_cur buf out c :
  length out < length buf -> put (cur buf out) c = Some (cur buf (out ++ [c])).
Proof.
  intros H. pose proof (puts_cur buf out [c]) as E. cbn [puts length] in E.
  rewrite <- E by lia. by destruct (put _ c).
Qed.

Lemma put_u16_cur buf out v :
  length out + 2 <= length buf -> put_u16 (cur buf out) v = ok (cur buf (out ++ be16 v)).
Proof. intros H. unfold put_u16. by rewrite puts_cur. Qed.

Lemma encode_name_cur buf out name cap :
  name_ok name -> (cap = Z.of_nat (length buf - length out))%Z ->
  length out + length (wire_name name) <= length buf ->
  encode_name cap name (cur buf out) = ok (cur buf (out ++ wire_name name)).
Proof.
  intros Hok -> H. rewrite encode_name_spec; [|done|lia|].
  - by rewrite puts_cur.
  - rewrite length_cur by lia. cbn. lia.
Qed.

(** Run one write. *)
Ltac cur_step :=
  first
    [ rewrite put_u16_cur by (repeat rewrite length_app; cbn [length be16]; lia)
    | rewrite put_cur by (repeat rewrite length_app; cbn [length be16]; lia)
    | rewrite puts_cur by (repeat rewrite length_app; cbn [length be16]; lia) ];
  rewrite ?lift_Some, ?fbind_ok.

Definition header_wire (h : dns_header_t) : list Z :=
  be16 (id h) ++ be16 (flags h) ++ be16 (qdcount h) ++ be16 (ancount h) ++ be16 (nscount h) ++ be16 (arcount h).

Definition question_wire (name : list Z) (qtype : Z) : list Z :=
  wire_name name ++ be16 qtype ++ be16 DNS_QCLASS_IN.

Definition opt_wire : list Z :=
  [0%Z] ++ be16 DNS_QTYPE_OPT ++ be16 DNS_EDNS0_SIZE ++ be16 0 ++ be16 0 ++ be16 0.

Definition query_wire (id : Z) (name : list Z) (qtype : Z) : list Z :=
  header_wire (Hdr id DNS_FLAG_RD 1 0 0 1) ++ question_wire name qtype ++ opt_wire.

Lemma cur_nil buf : (buf, 0) = cur buf [].
Proof. reflexivity. Qed.

Lemma length_query_wire id name qtype : length (query_wire id name qtype) = 27 + length (wire_name name).
Proof. unfold query_wire, header_wire, question_wire, opt_wire. rewrite !length_app. cbn [length be16]. lia. Qed.

Lemma dns_build_query_fits buf i name qtype :
  name_ok name -> 283 <= length buf -> length (query_wire i name qtype) <= length buf ->
  dns_build_query (Some buf) (Z.of_nat (length buf)) i (Some name) qtype =
    ok (cur buf (query_wire i name qtype)).
Proof.
  intros Hok Hb Hl. rewrite length_query_wire in Hl. unfold dns_build_query.
  destruct (Z.ltb_spec (Z.of_nat (length buf)) (12 + 256 + 4 + 11)); [lia|].
  rewrite cur_nil. do 6 cur_step.
  rewrite encode_name_cur; [|done|cbn [snd cur]; repeat rewrite length_app; cbn [length be16]; lia|
    repeat rewrite length_app; cbn [length be16]; lia].
  rewrite fbind_ok. do 8 cur_step.
  unfold query_wire, header_wire, question_wire, opt_wire. cbn [id flags qdcount ancount nscount arcount].
  do 2 f_equal. rewrite <- !app_assoc. reflexivity.
Qed.

(** ** Reading what the builders write *)

Lemma stands_u16 buf p v w :
  (0 <= v < 2 ^ 16)%Z -> stands buf p (be16 v ++ w) ->
  get_u16 buf (Z.of_nat p) = Some v /\ stands buf (p + 2) w.
Proof.
  intros Hv Hs. apply stands_app in Hs as [Hs Hw]. split; [|done].
  unfold get_u16, get_be16. rewrite Nat2Z.id. unfold be16 in Hs.
  rewrite (stands_lookup _ _ _ _ Hs). cbn [mbind option_bind].
  change (?a :: ?b) with ([a] ++ b) in Hs. apply stands_app in Hs as [_ Hs].
  cbn [length app] in Hs. rewrite Nat.add_1_r in Hs. rewrite (stands_lookup _ _ _ _ Hs).
  cbn [mbind option_bind]. by rewrite join16_be16.
Qed.

Lemma stands_u32 buf p v w :
  (0 <= v < 2 ^ 32)%Z -> stands buf p (be32 v ++ w) ->
  get_u32 buf (Z.of_nat p) = Some v /\ stands buf (p + 4) w.
Proof.
  intros Hv Hs. apply stands_app in Hs as [Hs Hw]. split; [|done].
  unfold get_u32, get_be32. rewrite Nat2Z.id. destruct Hs as (a & b & -> & <-).
  assert (forall k, (a ++ be32 v ++ b) !! (k + length a) = (be32 v ++ b) !! k) as L.
  { intros k. rewrite lookup_app_r by lia. f_equal. lia. }
  pose proof (L 0) as L0. pose proof (L 1) as L1. pose proof (L 2) as L2. pose proof (L 3) as L3.
  cbn [Nat.add be32 app lookup list_lookup] in L0, L1, L2, L3. unfold be32. cbn [app].
  rewrite L0. cbn [mbind option_bind]. rewrite L1. cbn [mbind option_bind]. rewrite L2.
  cbn [mbind option_bind]. rewrite L3. cbn [mbind option_bind]. by rewrite join32_be32.
Qed.

Definition u16_ok (v : Z) : Prop := (0 <= v < 2 ^ 16)%Z.

Definition header_ok (h : dns_header_t) : Prop :=
  u16_ok (id h) /\ u16_ok (flags h) /\ u16_ok (qdcount h) /\ u16_ok (ancount h) /\ u16_ok (nscount h) /\
  u16_ok (arcount h).

Lemma parse_header_wire buf h : header_ok h -> stands buf 0 (header_wire h) -> parse_header buf = Some h.
Proof.
  intros (H1 & H2 & H3 & H4 & H5 & H6) Hs. unfold header_wire in Hs. unfold parse_header.
  apply stands_u16 in Hs as [E1 Hs]; [|done]. apply stands_u16 in Hs as [E2 Hs]; [|done].
  apply stands_u16 in Hs as [E3 Hs]; [|done]. apply stands_u16 in Hs as [E4 Hs]; [|done].
  apply stands_u16 in Hs as [E5 Hs]; [|done]. rewrite <- (app_nil_r (be16 (arcount h))) in Hs.
  apply stands_u16 in Hs as [E6 Hs]; [|done].
  change (Z.of_nat 0) with 0%Z in E1. cbn [Nat.add] in *.
  change (Z.of_nat 2) with 2%Z in E2. change (Z.of_nat 4) with 4%Z in E3. change (Z.of_nat 6) with 6%Z in E4.
  change (Z.of_nat 8) with 8%Z in E5. change (Z.of_nat 10) with 10%Z in E6.
  rewrite E1. cbn [mbind option_bind]. rewrite E2. cbn [mbind option_bind]. rewrite E3. cbn [mbind option_bind].
  rewrite E4. cbn [mbind option_bind]. rewrite E5. cbn [mbind option_bind]. rewrite E6. by destruct h.
Qed.

(** Names as C strings on the wire. *)
Definition text_ok (name : list Z) : Prop :=
  name_ok name /\ Forall (fun c => c <> 0%Z) name /\ length name < 255.

#[export] Instance text_ok_dec name : Decision (text_ok name).
Proof. unfold text_ok. apply _. Defined.

Lemma parse_name_text buf p name w :
  text_ok name -> stands buf p (wire_name name ++ w) ->
  parse_name buf (Z.of_nat (length buf)) (Z.of_nat p) 256 = ok (Z.of_nat (p + length (wire_name name)), name) /\
  c_text name = name /\ stands buf (p + length (wire_name name)) w.
Proof.
  intros (H1 & H2 & H3) Hs. apply stands_app in Hs as [Hs Hw]. split; [apply parse_name_wire; [done..|lia]|].
  split; [by apply c_text_id|done].
Qed.

Lemma parse_question_wire buf h name qtype w :
  qdcount h = 1%Z -> text_ok name -> u16_ok qtype -> stands buf 12 (question_wire name qtype ++ w) ->
  parse_question buf (Z.of_nat (length buf)) h =
    ok (Question name qtype DNS_QCLASS_IN (Z.of_nat (12 + length (question_wire name qtype)))).
Proof.
  intros Hq Hn Hty Hs. unfold parse_question. rewrite Hq. cbn [Z.ltb Z.compare].
  pose proof (stands_le _ _ _ Hs) as Hle. unfold question_wire in *. rewrite <- !app_assoc in Hs.
  autorewrite with len in Hle |- *.
  change 12%Z with (Z.of_nat 12). destruct (parse_name_text _ _ _ _ Hn Hs) as (-> & Ec & Hs').
  rewrite fbind_ok, Ec. apply stands_u16 in Hs' as [E1 Hs']; [|done].
  apply stands_u16 in Hs' as [E2 _]; [|unfold DNS_QCLASS_IN; lia].
  destruct (Z.ltb_spec (Z.of_nat (length buf)) (Z.of_nat (12 + length (wire_name name)) + 4)); [lia|].
  rewrite E1, lift_Some, fbind_ok.
  replace (Z.of_nat (12 + length (wire_name name)) + 2)%Z with (Z.of_nat (12 + length (wire_name name) + 2)) by lia.
  rewrite E2, lift_Some, fbind_ok. do 2 f_equal. lia.
Qed.

(** ** Answers on the wire *)

Definition rdata_wire (r : xDnsRecord) : list Z :=
  match rdata r with
  | None => []
  | Some d => if (qtype r =? DNS_QTYPE_CNAME)%Z then wire_name (c_text d) else d
  end.

Definition record_wire (r : xDnsRecord) : list Z :=
  wire_name (default [] (name r)) ++ be16 (qtype r) ++ be16 DNS_QCLASS_IN ++ be32 (ttl r) ++
  be16 (Z.of_nat (length (rdata_wire r))) ++ rdata_wire r.

(** A record the parser can hand out: text names, no OPT, fields in range, a
    CNAME's data a text with its terminator, [rdlength] the length of the
    data and no block for empty data. *)
Definition record_ok (r : xDnsRecord) : Prop :=
  (exists nm, name r = Some nm /\ text_ok nm) /\
  u16_ok (qtype r) /\ qtype r <> DNS_QTYPE_OPT /\ (0 <= ttl r < 2 ^ 32)%Z /\
  if (qtype r =? DNS_QTYPE_CNAME)%Z
  then exists c, text_ok c /\ rdata r = Some (c ++ [0%Z]) /\ rdlength r = (Z.of_nat (length c) + 1)%Z
  else match rdata r with
       | None => rdlength r = 0%Z
       | Some d => rdlength r = Z.of_nat (length d) /\ (0 < Z.of_nat (length d) < 65536)%Z
       end.

Lemma wire_name_length name : length (wire_name name) <= length name + 2.
Proof.
  unfold wire_name, name_labels. case_decide as E; [rewrite E; cbn; lia|].
  rewrite length_app. cbn [length]. clear E.
  enough (forall lab, length (wire_labels (split_dot lab name)) = length lab + length name + 1) as -> by (cbn; lia).
  induction name as [|c name IH]; intros lab; cbn [split_dot].
  - change (wire_labels [lab]) with ((Z.of_nat (length lab) :: lab) ++ []). rewrite app_nil_r. cbn. lia.
  - destruct (c =? 46)%Z.
    + rewrite wire_labels_cons, length_app, IH. cbn [length]. lia.
    + rewrite IH, length_app. cbn [length]. lia.
Qed.

Lemma rdata_wire_u16 r : record_ok r -> u16_ok (Z.of_nat (length (rdata_wire r))).
Proof.
  intros (_ & _ & _ & _ & H). unfold rdata_wire, u16_ok. destruct (qtype r =? DNS_QTYPE_CNAME)%Z.
  - destruct H as (c & (_ & Hz & Hc) & -> & _). rewrite c_text_plain by done. pose proof (wire_name_length c). lia.
  - destruct (rdata r); cbn [length]; lia.
Qed.

Lemma read_record_wire buf p nm r h :
  record_ok r -> name r = Some nm -> stands buf p (rdata_wire r) ->
  exists h', read_record (fun _ => true) buf (Z.of_nat (length buf)) (Z.of_nat p) nm (qtype r) (ttl r)
    (Z.of_nat (length (rdata_wire r))) h = Some (h', Some r).
Proof.
  intros ((nm' & En & Hnm) & _ & _ & _ & H) Enm Hs. rewrite Enm in En. injection En as <-.
  unfold read_record, h_alloc. cbn [negb tries live]. unfold rdata_wire in *.
  rewrite (c_text_id nm) by apply Hnm.
  destruct (qtype r =? DNS_QTYPE_CNAME)%Z eqn:Ety.
  - destruct H as (c & Hc & Hd & Hl). rewrite Hd in Hs. rewrite c_text_plain in Hs by apply Hc.
    rewrite <- (app_nil_r (wire_name c)) in Hs.
    destruct (parse_name_text _ _ _ _ Hc Hs) as (-> & Ec & _). cbn [mbind option_bind ok negb]. rewrite Ec.
    eexists. rewrite <- Hl, <- Hd, <- Enm. by destruct r.
  - destruct (rdata r) as [d|] eqn:Ed.
    + destruct H as [Hl Hd]. destruct (Z.ltb_spec 0 (Z.of_nat (length d))); [|lia].
      rewrite !Nat2Z.id, (stands_read _ _ _ Hs). cbn [mbind option_bind negb]. eexists.
      rewrite <- Hl, <- Ed, <- Enm. by destruct r.
    + cbn [length]. change (Z.of_nat 0) with 0%Z. cbn. eexists. rewrite <- H, <- Ed, <- Enm. by destruct r.
Qed.

Lemma parse_answers_wire buf p rs head h :
  Forall record_ok rs -> stands buf p (rs ≫= record_wire) ->
  exists h', parse_answers (fun _ => true) buf (Z.of_nat (length buf)) (length rs) (Z.of_nat p) head h =
    Some (h', Some (head ++ rs)).
Proof.
  revert p head h. induction rs as [|r rs IH]; intros p head h Hok Hs; cbn [length parse_answers].
  { exists h. by rewrite app_nil_r. }
  apply Forall_cons in Hok as [Hr Hok].
  change ((r :: rs) ≫= record_wire) with (record_wire r ++ (rs ≫= record_wire)) in Hs.
  pose proof (rdata_wire_u16 r Hr) as Hrd. pose proof (stands_le _ _ _ Hs) as Hle.
  destruct (Hr) as ((nm & En & Hnm) & Hty & Hopt & Httl & _).
  unfold record_wire in Hs, Hle. rewrite En in Hs, Hle. change (default [] (Some nm)) with nm in Hs, Hle.
  rewrite <- !app_assoc in Hs. autorewrite with len in Hle.
  destruct (parse_name_text _ _ _ _ Hnm Hs) as (-> & _ & Hs1). cbn [mbind option_bind ok]. clear Hs.
  set (e := p + length (wire_name nm)) in *.
  destruct (Z.ltb_spec (Z.of_nat (length buf)) (Z.of_nat e + 10)); [lia|].
  apply stands_u16 in Hs1 as [E1 Hs]; [|done]. apply stands_u16 in Hs as [_ Hs]; [|unfold DNS_QCLASS_IN; lia].
  apply stands_u32 in Hs as [E2 Hs]; [|done]. apply stands_u16 in Hs as [E3 Hs]; [|done].
  replace (Z.of_nat e + 4)%Z with (Z.of_nat (e + 2 + 2)) by lia.
  replace (Z.of_nat e + 8)%Z with (Z.of_nat (e + 2 + 2 + 4)) by lia.
  replace (Z.of_nat e + 10)%Z with (Z.of_nat (e + 2 + 2 + 4 + 2)) by lia.
  rewrite E1. cbn [mbind option_bind]. rewrite E2. cbn [mbind option_bind]. rewrite E3. cbn [mbind option_bind].
  destruct (Z.ltb_spec (Z.of_nat (length buf)) (Z.of_nat (e + 2 + 2 + 4 + 2) + Z.of_nat (length (rdata_wire r)))); [lia|].
  destruct (Z.eqb_spec (qtype r) DNS_QTYPE_OPT); [done|]. apply stands_app in Hs as [Hd Hs].
  destruct (read_record_wire _ _ nm r h Hr En Hd) as [h' ->]. cbn [mbind option_bind].
  rewrite <- Nat2Z.inj_add. destruct (IH _ (head ++ [r]) h' Hok Hs) as [h2 ->]. exists h2.
  by rewrite <- app_assoc.
Qed.

(** ** The answers written *)

(** [put_u16] into the two bytes skipped before a run of writes. *)
Lemma backfill buf out v cs :
  length out + 2 + length cs <= length buf ->
  exists d, puts ((cur buf out).1, length out + 2) cs = Some (d, length out + 2 + length cs) /\
    exists o, put_u16 (d, length out) v = ok ((cur buf (out ++ be16 v ++ cs)).1, o).
Proof.
  intros H. unfold cur, block_with. cbn [fst]. rewrite puts_Some by (autorewrite with len; lia).
  eexists. split; [done|]. unfold put_u16. rewrite puts_Some by (autorewrite with len; lia).
  eexists. rewrite lift_Some. do 2 f_equal. rewrite length_be16.
  rewrite take_app_le by (autorewrite with len; lia). rewrite take_take, Nat.min_l, take_app_length by lia.
  rewrite drop_app_ge by (autorewrite with len; lia). autorewrite with len.
  rewrite (Nat.min_l (length out + 2)) by lia. rewrite Nat.sub_diag, drop_0.
  rewrite drop_app_ge by lia. rewrite drop_drop, <- !app_assoc. do 4 f_equal. lia.
Qed.

Lemma build_rdata_fits buf out r :
  record_ok r -> length out + 2 + length (rdata_wire r) <= length buf -> (Z.of_nat (length buf) < 2 ^ 63)%Z ->
  build_rdata (Z.of_nat (length buf)) r (cur buf out) =
    ok (cur buf (out ++ be16 (Z.of_nat (length (rdata_wire r))) ++ rdata_wire r)).
Proof.
  intros Hr Hle Hmax. pose proof (rdata_wire_u16 r Hr) as Hu. destruct Hr as (_ & _ & _ & _ & H).
  unfold build_rdata. unfold rdata_wire in *. destruct (qtype r =? DNS_QTYPE_CNAME)%Z.
  - destruct H as (c & (Hc & Hz & _) & Hd & _). rewrite Hd in *. rewrite c_text_plain in * by done.
    rewrite c_string_plain, lift_Some, fbind_ok by done. cbn [snd cur].
    rewrite encode_name_spec; [|done|lia|].
    2:{ pose proof (length_cur buf out ltac:(lia)) as L. cbn [fst snd cur] in *. lia. }
    destruct (backfill buf out (Z.of_nat (length (wire_name c))) (wire_name c) Hle) as (d & E & o & E').
    cbn [fst snd cur] in *. rewrite E, lift_Some, fbind_ok. cbn [fst snd].
    replace (length out + 2 + length (wire_name c) - (length out + 2)) with (length (wire_name c)) by lia.
    rewrite E', fbind_ok. unfold cur. do 2 f_equal. autorewrite with len. lia.
  - destruct (rdata r) as [d|] eqn:Ed.
    + destruct H as [Hl Hd]. rewrite Hl. unfold u16, u64. rewrite Z.mod_small by (unfold u16_ok in Hu; lia).
      cur_step. destruct (Z.ltb_spec 0 (Z.of_nat (length d))); [|lia]. cbn [snd cur].
      autorewrite with len. rewrite Z.mod_small by lia.
      destruct (Z.ltb_spec (Z.of_nat (length buf)) (Z.of_nat (length out + 2) + Z.of_nat (length d))); [lia|].
      rewrite Nat2Z.id, mem_read_Some by lia. rewrite drop_0, firstn_all, lift_Some, fbind_ok.
      rewrite puts_cur by (autorewrite with len; lia). by rewrite <- app_assoc.
    + rewrite H. cbn [length] in *. change (u16 0) with 0%Z. cur_step. by rewrite app_nil_r.
Qed.

Lemma be16_halves v :
  (0 <= v < 2 ^ 32)%Z -> be16 (u16 (Z.shiftr v 16)) ++ be16 (u16 (Z.land v 0xFFFF)) = be32 v.
Proof.
  intros Hv. unfold be16, be32, u16, u8. cbn [app]. change 0xFFFF%Z with (Z.ones 16). change 0xFF%Z with (Z.ones 8).
  rewrite !Z.land_ones, !Z.shiftr_div_pow2 by lia.
  do 3 (f_equal; [Z.to_euclidean_division_equations; lia|]). f_equal. Z.to_euclidean_division_equations; lia.
Qed.

Lemma build_answer_fits buf qname out r :
  record_ok r -> length out + length (record_wire r) <= length buf -> (Z.of_nat (length buf) < 2 ^ 63)%Z ->
  build_answer (Z.of_nat (length buf)) qname r (cur buf out) = ok (cur buf (out ++ record_wire r)).
Proof.
  intros Hr Hle Hmax. unfold build_answer. destruct (Hr) as ((nm & En & Hnm & _) & _ & _ & Httl & _).
  unfold record_wire in *. rewrite En in *. change (default [] (Some nm)) with nm in *.
  autorewrite with len in Hle.
  rewrite encode_name_cur; [|done|cbn [snd cur]; lia|lia]. rewrite fbind_ok. do 4 cur_step.
  rewrite build_rdata_fits; [|done|autorewrite with len; lia|done].
  do 2 f_equal. rewrite <- (be16_halves (ttl r) Httl). by rewrite <- !app_assoc.
Qed.

Lemma build_answers_fits buf qname rs out :
  Forall record_ok rs -> length out + length (rs ≫= record_wire) <= length buf ->
  (Z.of_nat (length buf) < 2 ^ 63)%Z ->
  build_answers (Z.of_nat (length buf)) qname rs (cur buf out) = ok (cur buf (out ++ (rs ≫= record_wire))).
Proof.
  intros Hok Hle Hmax. revert out Hle. induction Hok as [|r rs Hr _ IH]; intros out Hle; cbn [build_answers].
  { by rewrite app_nil_r. }
  change ((r :: rs) ≫= record_wire) with (record_wire r ++ (rs ≫= record_wire)) in *.
  rewrite length_app in Hle. rewrite build_answer_fits, fbind_ok by (done || lia).
  rewrite IH by (rewrite length_app; lia). by rewrite <- app_assoc.
Qed.

(** ** Round trips *)

Lemma answers_offset name qtype : 12 + length (question_wire name qtype) = 16 + length (wire_name name).
Proof. unfold question_wire. autorewrite with len. lia. Qed.

Lemma take_cur buf out : length out <= length buf -> take (length out) (cur buf out).1 = out.
Proof. intros H. unfold cur, block_with. cbn [fst snd]. by rewrite take_app_length. Qed.

Lemma stands_start w r : stands (w ++ r) 0 w.
Proof. by exists [], r. Qed.

Lemma stands_after w r : stands (w ++ r) (length w) r.
Proof. exists w, []. by rewrite app_nil_r. Qed.

(** A query built in a block with room parses back to itself: the
    identifier, one question with the name, type and class IN, the flags of a
    recursive query, no answer record (the OPT record is counted as
    additional and not looked at), and nothing stays allocated. *)
Theorem dns_query_roundtrip alloc buf i name qtype h :
  text_ok name -> u16_ok i -> u16_ok qtype -> 283 <= length buf ->
  length (query_wire i name qtype) <= length buf ->
  exists d n, dns_build_query (Some buf) (Z.of_nat (length buf)) i (Some name) qtype = ok (d, n) /\
    n = 27 + length (wire_name name) /\
    dns_parse alloc (Some (take n d)) (Z.of_nat n) h =
      Some (h, ParseOk (Hdr i DNS_FLAG_RD 1 0 0 1)
                 (Question name qtype DNS_QCLASS_IN (Z.of_nat (16 + length (wire_name name)))) []).
Proof.
  intros Hn Hi Ht Hb Hl. exists (cur buf (query_wire i name qtype)).1, (length (query_wire i name qtype)).
  split; [apply dns_build_query_fits; [apply Hn|done|done]|]. split; [apply length_query_wire|].
  rewrite (take_cur buf) by done. set (pkt := query_wire i name qtype). unfold dns_parse.
  assert (27 < length pkt) as Hlen.
  { unfold pkt. rewrite length_query_wire. unfold wire_name. autorewrite with len. cbn [length]. lia. }
  destruct (Z.ltb_spec (Z.of_nat (length pkt)) 12); [lia|].
  rewrite (parse_header_wire pkt (Hdr i DNS_FLAG_RD 1 0 0 1)); [|unfold header_ok, u16_ok, DNS_FLAG_RD in *; cbn [id flags qdcount ancount nscount arcount]; lia|apply stands_start].
  cbn [mbind option_bind]. rewrite (parse_question_wire pkt _ name qtype opt_wire); [|done..|].
  - cbn [mbind option_bind ok ancount Z.to_nat parse_answers].
    by rewrite answers_offset.
  - apply stands_after.
Qed.

Lemma dns_query_roundtrip_witness :
  let name := [120; 46; 121]%Z in let buf := replicate 300 0%Z in
  text_ok name /\ 283 <= length buf /\
  exists d n, dns_build_query (Some buf) 300 7 (Some name) 28 = ok (d, n) /\ n = 27 + length (wire_name name) /\
    dns_parse (fun _ => false) (Some (take n d)) (Z.of_nat n) (Heap 0 0) =
      Some (Heap 0 0, ParseOk (Hdr 7 DNS_FLAG_RD 1 0 0 1) (Question name 28 DNS_QCLASS_IN 21) []).
Proof.
  assert (text_ok [120; 46; 121]%Z) as Ht by (apply (bool_decide_unpack _); vm_compute; exact I).
  split; [exact Ht|]. split; [cbn; lia|].
  apply (dns_query_roundtrip (fun _ => false) (replicate 300 0%Z) 7 [120; 46; 121]%Z 28 (Heap 0 0));
    [exact Ht|unfold u16_ok; lia|unfold u16_ok; lia|cbn; lia|apply Nat.leb_le; vm_compute; reflexivity].
Defined.

Definition response_wire (i rcode : Z) (qname : list Z) (qtype : Z) (rs : list xDnsRecord) : list Z :=
  header_wire (Hdr i (response_flags rcode) 1 (Z.of_nat (length rs)) 0 0) ++
  question_wire qname qtype ++ (rs ≫= record_wire).

Lemma dns_build_response_fits buf i rcode qname qtype rs :
  name_ok qname -> Forall record_ok rs -> (Z.of_nat (length rs) < 65536)%Z ->
  (response_need qname rs <= Z.of_nat (length buf) < 2 ^ 63)%Z ->
  length (response_wire i rcode qname qtype rs) <= length buf ->
  dns_build_response (Some buf) (Z.of_nat (length buf)) i rcode (Some qname) qtype rs =
    ok (cur buf (response_wire i rcode qname qtype rs)).
Proof.
  intros Hq Hrs Hn [Hneed Hmax] Hl. unfold response_wire, header_wire, question_wire in *.
  cbn [id flags qdcount ancount nscount arcount] in *. autorewrite with len in Hl. unfold dns_build_response.
  destruct (Z.ltb_spec (Z.of_nat (length buf)) (response_need qname rs)); [lia|].
  unfold u16. rewrite Z.mod_small by lia. rewrite cur_nil. do 6 cur_step.
  rewrite encode_name_cur; [|done|cbn [snd cur]; autorewrite with len; cbn [length]; lia|
    autorewrite with len; cbn [length]; lia].
  rewrite fbind_ok. do 2 cur_step.
  rewrite build_answers_fits; [|done|autorewrite with len; cbn [length]; lia|done].
  do 2 f_equal. rewrite <- !app_assoc. reflexivity.
Qed.

Lemma response_flags_u16 rcode : u16_ok (response_flags rcode).
Proof.
  unfold response_flags, u16_ok, u16, DNS_RCODE_MASK. change 0x000F%Z with (Z.ones 4).
  rewrite Z.land_ones by lia. pose proof (Z.mod_pos_bound rcode (2 ^ 4) ltac:(lia)) as Hb.
  rewrite (Z.mod_small (rcode mod 2 ^ 4)) by lia.
  pose proof (range_exhaust 16 (fun c => let v := Z.lor (Z.lor DNS_FLAG_QR DNS_FLAG_RA) c in (0 <=? v) && (v <? 2 ^ 16))%Z
    ltac:(vm_compute; reflexivity) (rcode mod 2 ^ 4)%Z ltac:(lia)) as H.
  cbv zeta in H. rewrite andb_true_iff, Z.leb_le, Z.ltb_lt in H. done.
Qed.

(** C24: a response built from well-formed records (text names, fields in
    range, CNAME targets included) parses back to the same header, question
    and records, in order, when the allocations succeed. *)
Theorem dns_response_roundtrip buf i rcode qname qtype rs h :
  text_ok qname -> u16_ok i -> u16_ok qtype -> Forall record_ok rs -> (Z.of_nat (length rs) < 65536)%Z ->
  (response_need qname rs <= Z.of_nat (length buf) < 2 ^ 63)%Z ->
  length (response_wire i rcode qname qtype rs) <= length buf ->
  exists d n, dns_build_response (Some buf) (Z.of_nat (length buf)) i rcode (Some qname) qtype rs = ok (d, n) /\
    exists h', dns_parse (fun _ => true) (Some (take n d)) (Z.of_nat n) h =
      Some (h', ParseOk (Hdr i (response_flags rcode) 1 (Z.of_nat (length rs)) 0 0)
                  (Question qname qtype DNS_QCLASS_IN (Z.of_nat (16 + length (wire_name qname)))) rs).
Proof.
  intros Hq Hi Ht Hrs Hn Hneed Hl.
  exists (cur buf (response_wire i rcode qname qtype rs)).1, (length (response_wire i rcode qname qtype rs)).
  split; [apply dns_build_response_fits; [apply Hq|done..]|].
  rewrite (take_cur buf) by done. set (pkt := response_wire i rcode qname qtype rs). unfold dns_parse.
  assert (12 < length pkt) as Hlen.
  { unfold pkt, response_wire, header_wire, question_wire. autorewrite with len. lia. }
  destruct (Z.ltb_spec (Z.of_nat (length pkt)) 12); [lia|].
  rewrite (parse_header_wire pkt (Hdr i (response_flags rcode) 1 (Z.of_nat (length rs)) 0 0));
    [|pose proof (response_flags_u16 rcode); unfold header_ok, u16_ok in *;
     cbn [id flags qdcount ancount nscount arcount]; lia|apply stands_start].
  cbn [mbind option_bind]. rewrite (parse_question_wire pkt _ qname qtype (rs ≫= record_wire)); [|done..|apply stands_after].
  cbn [mbind option_bind ok ancount wire_off]. rewrite Nat2Z.id.
  destruct (parse_answers_wire pkt (12 + length (question_wire qname qtype)) rs [] h Hrs) as [h' ->].
  { unfold pkt, response_wire. rewrite app_assoc.
    replace (12 + length (question_wire qname qtype)) with
      (length (header_wire (Hdr i (response_flags rcode) 1 (Z.of_nat (length rs)) 0 0) ++ question_wire qname qtype))
      by (rewrite length_app; reflexivity).
    apply stands_after. }
  exists h'. cbn [mbind option_bind app]. by rewrite answers_offset.
Qed.

Lemma dns_response_roundtrip_witness :
  let rs := [Rec 5 60 (Some [97]%Z) (Some [98; 46; 99; 0]%Z) 4; Rec 1 300 (Some [98; 46; 99]%Z) (Some [10; 0; 0; 1]%Z) 4] in
  let buf := replicate 100 0%Z in
  exists d n, dns_build_response (Some buf) 100 9 0 (Some [97]%Z) 1 rs = ok (d, n) /\
    exists h', dns_parse (fun _ => true) (Some (take n d)) (Z.of_nat n) (Heap 0 0) =
      Some (h', ParseOk (Hdr 9 (response_flags 0) 1 2 0 0) (Question [97]%Z 1 DNS_QCLASS_IN 19) rs).
Proof.
  apply (dns_response_roundtrip (replicate 100 0%Z) 9 0 [97]%Z 1
    [Rec 5 60 (Some [97]%Z) (Some [98; 46; 99; 0]%Z) 4; Rec 1 300 (Some [98; 46; 99]%Z) (Some [10; 0; 0; 1]%Z) 4]).
  - apply (bool_decide_unpack _); vm_compute; exact I.
  - unfold u16_ok; lia.
  - unfold u16_ok; lia.
  - repeat constructor; cbn; try done; try lia.
    + exists [97]%Z. split; [done|]. apply (bool_decide_unpack _); vm_compute; exact I.
    + exists [98; 46; 99]%Z. split; [apply (bool_decide_unpack _); vm_compute; exact I|by split].
    + exists [98; 46; 99]%Z. split; [done|]. apply (bool_decide_unpack _); vm_compute; exact I.
  - cbn. lia.
  - vm_compute. split; [discriminate|reflexivity].
  - apply Nat.leb_le. vm_compute. reflexivity.
Defined.

(** ** The size check of the query builder *)

Lemma puts_overflow buf out cs :
  length out <= length buf -> length buf < length out + length cs -> puts (cur buf out) cs = None.
Proof.
  revert out. induction cs as [|c cs IH]; intros out Ho H; cbn [length puts] in *; [lia|].
  destruct (decide (length out < length buf)).
  - rewrite put_cur by done. cbn [mbind option_bind]. apply IH; rewrite length_app; cbn [length]; lia.
  - unfold put, mem_set. rewrite length_cur by done. cbn [snd cur]. by rewrite decide_False.
Qed.

Lemma lift_chain w a f b :
  (forall w, f w = lift (puts w b)) -> fbind f (lift (puts w a)) = lift (puts w (a ++ b)).
Proof.
  intros H. rewrite puts_app. destruct (puts w a) as [w'|]; [|done]. rewrite lift_Some, fbind_ok. apply H.
Qed.

Lemma put_puts w c : put w c = puts w [c].
Proof. cbn [puts]. by destruct (put w c). Qed.

(** The writes after the name. *)
Lemma query_tail_puts qtype w :
  fbind (fun w => fbind (fun w => fbind (fun w => fbind (fun w => fbind (fun w => fbind (fun w => fbind (fun w =>
    put_u16 w 0%Z) (put_u16 w 0%Z)) (put_u16 w 0%Z)) (put_u16 w DNS_EDNS0_SIZE)) (put_u16 w DNS_QTYPE_OPT))
    (lift (put w 0%Z))) (put_u16 w DNS_QCLASS_IN)) (put_u16 w qtype)
  = lift (puts w (be16 qtype ++ be16 DNS_QCLASS_IN ++ opt_wire)).
Proof.
  unfold put_u16, opt_wire. apply lift_chain. clear w. intros w. apply lift_chain. clear w. intros w.
  rewrite put_puts. do 5 (apply lift_chain; clear w; intros w). done.
Qed.

(** the size check of [dns_build_query] reserves 256 bytes for the name,
    but [encode_name] is only held to the whole rest of the buffer and there is
    no limit on a name's total length: a name of valid labels whose wire form
    still fits, while the 15 bytes after it do not, is accepted and the
    question's type or the OPT record is written past the buffer. *)
Theorem dns_build_query_overflow buf i name qtype :
  name_ok name -> 283 <= length buf ->
  12 + length (wire_name name) <= length buf < 27 + length (wire_name name) ->
  dns_build_query (Some buf) (Z.of_nat (length buf)) i (Some name) qtype = None.
Proof.
  intros Hok Hb Hl. unfold dns_build_query.
  destruct (Z.ltb_spec (Z.of_nat (length buf)) (12 + 256 + 4 + 11)); [lia|].
  rewrite cur_nil. do 6 cur_step.
  rewrite encode_name_cur; [|done|cbn [snd cur]; repeat rewrite length_app; cbn [length be16]; lia|
    repeat rewrite length_app; cbn [length be16]; lia].
  rewrite fbind_ok, query_tail_puts, puts_overflow; [done|..]; unfold opt_wire; autorewrite with len;
    cbn [length]; lia.
Qed.

(** Three labels of 63 characters and one of 62: 254 characters. *)
Lemma dns_build_query_overflow_witness :
  let lab n := replicate n 97%Z in
  let name := lab 63 ++ 46%Z :: lab 63 ++ 46%Z :: lab 63 ++ 46%Z :: lab 63 in
  12 + length (wire_name name) <= 283 < 27 + length (wire_name name) /\
  dns_build_query (Some (replicate 283 0%Z)) 283 1 (Some name) 1 = None.
Proof.
  split; [split; [apply Nat.leb_le|apply Nat.ltb_lt]; vm_compute; reflexivity|].
  apply (dns_build_query_overflow (replicate 283 0%Z)).
  - apply (bool_decide_unpack _); vm_compute; exact I.
  - cbn. lia.
  - split; [apply Nat.leb_le|apply Nat.ltb_lt]; vm_compute; reflexivity.
Defined.

(** ** Cloning *)

(** A record whose data block holds [rdlength] bytes. *)
Definition sized (r : xDnsRecord) : Prop :=
  match rdata r with Some d => rdlength r = Z.of_nat (length d) | None => (rdlength r <= 0)%Z end.

(** What a clone keeps: empty data is not copied. *)
Definition cloned (r : xDnsRecord) : xDnsRecord :=
  Rec (qtype r) (ttl r) (name r)
    match rdata r with Some d => if (0 <? rdlength r)%Z then Some d else None | None => None end (rdlength r).

Lemma clone_record_spec alloc r h :
  sized r -> exists h' c, clone_record alloc r h = Some (h', c) /\ live h' = (live h + held c)%Z /\
    (c = Some (cloned r) \/ c = None /\ exists n, alloc n = false).
Proof.
  intros Hs. unfold clone_record, h_alloc, h_free, sized, cloned in *.
  destruct (alloc (tries h)) eqn:E1; cbn [negb tries live]; [|eexists _, None; split; [done|split; [cbn; lia|right; eauto]]].
  destruct r as [ty tt nm rd len]; cbn [qtype ttl name rdata rdlength record_blocks] in *.
  destruct nm as [nm|]; [destruct (alloc (S (tries h))) eqn:E2|]; cbn [negb tries live];
    [|eexists _, None; split; [done|split; [cbn; lia|right; eauto]]|].
  all: destruct rd as [d|]; [|eexists _, _; split; [done|split; [cbn; lia|by left]]].
  all: destruct (Z.ltb_spec 0 len) as [Hlen|]; [|eexists _, _; split; [done|split; [cbn; lia|by left]]].
  all: match goal with |- context [negb ?b] => destruct b eqn:E3 end; cbn [negb tries live];
    [|eexists _, None; split; [done|split; [cbn; lia|right; eauto]]].
  all: rewrite mem_read_Some by lia; cbn [mbind option_bind]; rewrite drop_0, firstn_all2 by lia;
    eexists _, _; split; [done|split; [cbn; lia|by left]].
Qed.

(** [dns_records_clone] copies the whole list, or hands out nothing and holds
    nothing when an allocation fails. *)
Lemma dns_records_clone_spec alloc rs h :
  Forall sized rs -> exists h' cs, dns_records_clone alloc rs h = Some (h', cs) /\
    live h' = (live h + Z.of_nat (records_blocks cs))%Z /\
    (cs = cloned <$> rs \/ cs = [] /\ exists n, alloc n = false).
Proof.
  unfold dns_records_clone. intros Hs.
  enough (forall head h, exists h' cs, clone_loop alloc rs head h = Some (h', cs) /\
    live h' = (live h + Z.of_nat (records_blocks cs) - Z.of_nat (records_blocks head))%Z /\
    (cs = head ++ (cloned <$> rs) \/ cs = [] /\ exists n, alloc n = false)) as H.
  { destruct (H [] h) as (h' & cs & E & L & R). exists h', cs. split; [done|]. split; [|done].
    change (records_blocks []) with 0 in L. lia. }
  induction Hs as [|r rs Hr _ IH]; intros head h0; cbn [clone_loop].
  { eexists _, _. split; [done|]. split; [lia|]. left. by rewrite app_nil_r. }
  destruct (clone_record_spec alloc r h0 Hr) as (h1 & c & -> & L & R). cbn [mbind option_bind].
  destruct R as [->|[-> R]].
  - destruct (IH (head ++ [cloned r]) h1) as (h2 & cs & -> & L2 & R2). eexists _, _. split; [done|].
    rewrite records_blocks_app in L2. change (records_blocks [cloned r]) with (record_blocks (cloned r) + 0) in L2.
    cbn [held] in L. split; [lia|]. rewrite <- app_assoc in R2. done.
  - eexists _, _. split; [done|]. rewrite dns_records_free_live. change (records_blocks []) with 0.
    cbn [held] in L. split; [lia|]. by right.
Qed.
