(* ===== verification/DnsCache.v ===== *)
(** * DnsCache: the TTL cache of the DNS client ([libx/x/dns/dns_cache.c])

    A client of the map interface: the map goes from the text
    ["name:qtype"] to the address of an entry, the entries live in a store of
    their own.  Every allocation of a call is an attempt on one counter
    ([heap]), so that a theorem can say that nothing leaks; the map's own
    allocations are the interface's. *)

From S2P Require Import Prelude Decimal Errno MapIface MapHash Map Wire Dns.

Record dns_cache_entry_t := Entry {
  e_key : list Z;
  records : list xDnsRecord;
  expiry_ms : Z;
}.

(** What a call finds: which allocations succeed, the address [calloc] gives
    an entry, the map's allocator, and the clock [xMonoMs]. *)
Record env := Env {
  alloc : nat -> bool;
  entry_ptr : Z;
  map_alloc : oracle;
  now : Z;
}.

(** The time stored with an entry: [0] is kept for "never set". *)
Definition expiry_at (now ttl : Z) : Z :=
  let x := u64 (now + u64 (ttl * 1000)) in if (x =? 0)%Z then 1%Z else x.

(** The text of the key; a 16-bit type has at most five digits. *)
Definition make_key (name : list Z) (qtype : Z) : list Z := name ++ [58%Z] ++ print_u 5 qtype.

Section cache.
Context {M : Type} `{!XMap (list Z) M}.

Record dns_cache := Cache {
  c_map : M;
  c_store : gmap Z dns_cache_entry_t;
  c_heap : heap;
}.

Definition with_heap (h : heap) (c : dns_cache) : dns_cache := Cache (c_map c) (c_store c) h.
Definition with_map (m : M) (c : dns_cache) : dns_cache := Cache m (c_store c) (c_heap c).

(** [entry_free]: undefined on an address that holds no entry. *)
Definition entry_free (val : Z) (c : dns_cache) : ub dns_cache :=
  if (val =? 0)%Z then Some c else
  e ← c_store c !! val;
  let h := h_free 1 (c_heap c) in
  let h := dns_records_free (records e) h in
  Some (Cache (c_map c) (delete val (c_store c)) (h_free 1 h)).

Definition dns_cache_lookup (env : env) (cache : option dns_cache) (name : option (list Z)) (qtype : Z)
    : ub (list xDnsRecord * option dns_cache) :=
  match cache, name with
  | Some c, Some name =>
      let '(b, h) := h_alloc (alloc env) (c_heap c) in
      let c := with_heap h c in
      if negb b then Some ([], Some c) else
      let key := make_key name qtype in
      p ← map_get (c_map c) key;
      if (p =? 0)%Z then Some ([], Some (with_heap (h_free 1 (c_heap c)) c)) else
      e ← c_store c !! p;
      if (expiry_ms e <=? now env)%Z then
        '(val, m) ← map_del (c_map c) key;
        let c := with_map m (with_heap (h_free 1 (c_heap c)) c) in
        c ← entry_free val c;
        Some ([], Some c)
      else
        '(h, rs) ← dns_records_clone (alloc env) (records e) (h_free 1 (c_heap c));
        Some (rs, Some (with_heap h c))
  | _, _ => Some ([], cache)
  end.

(** The second half of [dns_cache_insert]: a new entry stored under [key]. *)
Definition insert_entry (env : env) (key : list Z) (recs : list xDnsRecord) (ttl : Z) (c : dns_cache)
    : ub (option dns_cache) :=
  let '(b, h) := h_alloc (alloc env) (c_heap c) in
  if negb b then Some (Some (with_heap (h_free 1 h) c)) else
  '(h, rs) ← dns_records_clone (alloc env) recs h;
  let e := Entry key rs (expiry_at (now env) ttl) in
  '(err, m) ← map_set (map_alloc env) (c_map c) key (entry_ptr env);
  let c := Cache m (<[entry_ptr env := e]> (c_store c)) h in
  if decide (err = xErrno_Ok) then Some (Some c)
  else c ← entry_free (entry_ptr env) c; Some (Some c).

Definition dns_cache_insert (env : env) (cache : option dns_cache) (name : option (list Z)) (qtype : Z)
    (recs : list xDnsRecord) (ttl : Z) : ub (option dns_cache) :=
  match cache, name with
  | Some c, Some name =>
      let '(b, h) := h_alloc (alloc env) (c_heap c) in
      let c := with_heap h c in
      if negb b then Some (Some c) else
      let key := make_key name qtype in
      '(old, m) ← map_del (c_map c) key;
      c ← entry_free old (with_map m c);
      insert_entry env key recs ttl c
  | _, _ => Some cache
  end.

(** [entry_iter_free] on every entry, then the map is destroyed: the store and
    the heap left. *)
Fixpoint free_entries (ps : list Z) (c : dns_cache) : ub dns_cache :=
  match ps with
  | [] => Some c
  | p :: ps => c ← entry_free p c; free_entries ps c
  end.

Definition dns_cache_destroy (cache : option dns_cache) : ub (option (gmap Z dns_cache_entry_t * heap)) :=
  match cache with
  | None => Some None
  | Some c => c ← free_entries (map_iterate (c_map c)).*2 c; Some (Some (c_store c, c_heap c))
  end.

(** The caching loop of [request_maybe_complete] ([dns_client.c]): the record
    list passed for each record is the list from that record on. *)
Fixpoint cache_results (envs : list env) (cache : option dns_cache) (recs : list xDnsRecord) : ub (option dns_cache) :=
  match recs, envs with
  | r :: recs', env :: envs =>
      cache ← dns_cache_insert env cache (name r) (qtype r) recs (if (ttl r =? 0)%Z then 60 else ttl r)%Z;
      cache_results envs cache recs'
  | _, _ => Some cache
  end.

End cache.
Arguments dns_cache M : clear implicits.

(** [dns_cache_create]: a Hash map with room for 64 chains. *)
Definition dns_cache_create (map_alloc slab : oracle) : option (dns_cache (xMapObj (list Z))) :=
  m ← xMapCreate map_alloc slab xMapType_Hash 64;
  Some (Cache m ∅ (Heap 0 0)).

(** ** The key *)

(** Only the last colon separates: the name may hold colons. *)
Lemma colon_split (n1 n2 d1 d2 : list Z) :
  58%Z ∉ d1 -> 58%Z ∉ d2 -> n1 ++ 58%Z :: d1 = n2 ++ 58%Z :: d2 -> n1 = n2 /\ d1 = d2.
Proof.
  intros H1 H2. revert n2. induction n1 as [|c n1 IH]; intros [|c' n2]; cbn [app]; intros E; simplify_eq.
  - done.
  - exfalso. apply H1. set_solver.
  - exfalso. apply H2. set_solver.
  - destruct (IH n2) as [-> ->]; done.
Qed.

Lemma no_colon fuel n : (0 <= n)%Z -> 58%Z ∉ print_u fuel n.
Proof.
  intros Hn H. pose proof (print_u_digits fuel n Hn) as F. rewrite Forall_forall in F. specialize (F _ H). lia.
Qed.

Lemma make_key_inj n1 q1 n2 q2 :
  u16_ok q1 -> u16_ok q2 -> make_key n1 q1 = make_key n2 q2 -> n1 = n2 /\ q1 = q2.
Proof.
  unfold u16_ok, make_key. intros H1 H2 E. apply colon_split in E as [-> E]; [|apply no_colon; lia..].
  split; [done|]. apply (f_equal digits_value) in E. rewrite !print_u_value in E; lia.
Qed.

(** ** The invariant *)

Lemma keq_string (k1 k2 : list Z) : keq k1 k2 = true <-> k1 = k2.
Proof. cbn. unfold xMapStrEq. apply bool_decide_eq_true. Qed.

Lemma spec_find_In (k : list Z) l p : spec_find k l = Some p -> (k, p) ∈ l.
Proof.
  intros H. apply spec_find_split in H as (l1 & k' & l2 & -> & _ & Hk).
  apply keq_string in Hk as ->. set_solver.
Qed.

Section inv.
Context {M : Type} `{!XMap (list Z) M, !XMapOk (list Z) M}.
Implicit Types (c : dns_cache M) (l : list (list Z * Z)) (st : gmap Z dns_cache_entry_t).

Definition entry_blocks st (p : Z) : nat :=
  match st !! p with Some e => 2 + records_blocks (records e) | None => 0 end.

(** The blocks held through a list of entry addresses. *)
Definition blocks st l : nat := sum_list (entry_blocks st <$> l.*2).

(** One entry per address, under its own key, and nothing else in the store. *)
Definition entries_ok st l : Prop :=
  NoDup l.*2 /\
  Forall (fun kp => kp.2 <> 0%Z /\ exists e, st !! kp.2 = Some e /\ e_key e = kp.1 /\ Forall sized (records e)) l /\
  (forall p, is_Some (st !! p) -> p ∈ l.*2).

Definition cache_inv c : Prop := map_inv (c_map c) /\ entries_ok (c_store c) (map_iterate (c_map c)).

(** Heap blocks held beyond those of the entries: what callers hold. *)
Definition owed c : Z := live (c_heap c) - Z.of_nat (blocks (c_store c) (map_iterate (c_map c))).

(** What is cached under a key. *)
Definition view c (k : list Z) : option dns_cache_entry_t :=
  p ← spec_find k (map_iterate (c_map c)); c_store c !! p.

Lemma entries_ok_perm st l1 l2 : l1 ≡ₚ l2 -> entries_ok st l1 -> entries_ok st l2.
Proof.
  intros HP (H1 & H2 & H3). split; [by rewrite <- HP|]. split; [by rewrite <- HP|].
  intros p Hp. rewrite <- HP. by apply H3.
Qed.

Lemma blocks_perm st l1 l2 : l1 ≡ₚ l2 -> blocks st l1 = blocks st l2.
Proof. intros HP. unfold blocks. by rewrite HP. Qed.

Lemma blocks_ext st1 st2 l : (forall p, p ∈ l.*2 -> st1 !! p = st2 !! p) -> blocks st1 l = blocks st2 l.
Proof.
  unfold blocks. induction l as [|[k p] l IH]; intros H; [done|]. cbn. f_equal.
  - unfold entry_blocks. rewrite H; [done|]. cbn. set_solver.
  - apply IH. intros q Hq. apply H. cbn. set_solver.
Qed.

Lemma blocks_cons st k p l : blocks st ((k, p) :: l) = entry_blocks st p + blocks st l.
Proof. reflexivity. Qed.

(** Every key finds an address that holds an entry. *)
Lemma entries_find st l k p :
  entries_ok st l -> spec_find k l = Some p ->
  p <> 0%Z /\ exists e, st !! p = Some e /\ e_key e = k /\ Forall sized (records e).
Proof. intros (_ & H & _) E. apply spec_find_In in E. rewrite Forall_forall in H. apply (H _ E). Qed.

Lemma spec_find_eq_perm (k : list Z) l1 l2 : l1 ≡ₚ l2 -> uniq l1 -> spec_find k l1 = spec_find k l2.
Proof. apply spec_find_perm. Qed.

Lemma spec_get_None (k : list Z) l : spec_find k l = None -> spec_get k l = 0%Z.
Proof. unfold spec_get. by intros ->. Qed.

(** Deleting the key of an entry and freeing the entry. *)
Lemma entries_del st l k p e :
  entries_ok st l -> uniq l -> spec_find k l = Some p -> st !! p = Some e ->
  entries_ok (delete p st) (spec_del k l) /\
  blocks st l = 2 + records_blocks (records e) + blocks (delete p st) (spec_del k l).
Proof.
  intros (H1 & H2 & H3) Hu Hf He. pose proof (spec_find_split k l p Hf) as (l1 & k' & l2 & -> & Hl & Hk).
  rewrite spec_del_at by done.
  assert ((l1 ++ (k', p) :: l2).*2 ≡ₚ p :: (l1 ++ l2).*2) as HP.
  { rewrite !fmap_app, fmap_cons. cbn [snd]. by rewrite Permutation_middle. }
  rewrite HP in H1. apply NoDup_cons in H1 as [Hp H1]. split.
  - split; [done|]. split.
    + rewrite Forall_forall in H2 |- *. intros [k2 p2] Hin. destruct (H2 (k2, p2)) as (Hz & e2 & He2 & Hr); [set_solver|].
      split; [done|]. exists e2. split; [|done]. cbn [snd]. rewrite lookup_delete_ne; [done|].
      intros ->. apply Hp. apply (list_elem_of_fmap_2 snd) in Hin. done.
    + intros q Hq. destruct (decide (q = p)) as [->|Hne].
      { rewrite lookup_delete_eq in Hq. by destruct Hq. }
      rewrite lookup_delete_ne in Hq by done. apply H3 in Hq. rewrite HP in Hq. set_solver.
  - rewrite (blocks_perm _ _ ((k', p) :: l1 ++ l2)) by by rewrite Permutation_middle.
    rewrite blocks_cons. unfold entry_blocks. rewrite He.
    rewrite (blocks_ext st (delete p st)); [lia|]. intros q Hq.
    rewrite lookup_delete_ne; [done|]. intros ->. done.
Qed.

(** Adding an entry under a key that is not there. *)
Lemma entries_add st l k p e :
  entries_ok st l -> fresh k l -> p <> 0%Z -> st !! p = None -> e_key e = k -> Forall sized (records e) ->
  entries_ok (<[p := e]> st) ((k, p) :: l) /\
  blocks (<[p := e]> st) ((k, p) :: l) = 2 + records_blocks (records e) + blocks st l.
Proof.
  intros (H1 & H2 & H3) Hf Hp Hn Hk Hs.
  assert (p ∉ l.*2) as Hnew.
  { intros Hin. apply list_elem_of_fmap in Hin as ([k2 p2] & -> & Hin). rewrite Forall_forall in H2.
    destruct (H2 _ Hin) as (_ & e2 & He2 & _). cbn [snd] in *. congruence. }
  split.
  - split; [apply NoDup_cons; split; done|]. split.
    + constructor; [split; [done|]; exists e; cbn [snd fst]; rewrite lookup_insert_eq; done|].
      rewrite Forall_forall in H2 |- *. intros [k2 p2] Hin. destruct (H2 _ Hin) as (Hz & e2 & He2 & Hr).
      split; [done|]. exists e2. split; [|done]. cbn [snd] in *. rewrite lookup_insert_ne; [done|].
      intros ->. congruence.
    + intros q Hq. cbn. destruct (decide (q = p)) as [->|]; [set_solver|].
      rewrite lookup_insert_ne in Hq by done. apply H3 in Hq. set_solver.
  - rewrite blocks_cons. unfold entry_blocks at 1. rewrite lookup_insert_eq.
    rewrite (blocks_ext (<[p:=e]> st) st); [lia|]. intros q Hq. rewrite lookup_insert_ne; [done|].
    intros ->. done.
Qed.


Lemma spec_find_del_ne (k k' : list Z) l : k' <> k -> spec_find k' (spec_del k l) = spec_find k' l.
Proof.
  intros Hne. induction l as [|[k1 v1] l IH]; cbn [spec_del spec_find]; [done|].
  destruct (keq k1 k) eqn:E1.
  - destruct (keq k1 k') eqn:E2; [|done]. apply keq_string in E1, E2. congruence.
  - cbn [spec_find]. by rewrite IH.
Qed.

Lemma spec_del_fresh_key (k : list Z) l : uniq l -> fresh k (spec_del k l).
Proof.
  intros Hu. destruct (spec_find k l) as [v|] eqn:E.
  - apply spec_find_split in E as (l1 & k' & l2 & -> & F & Hk). rewrite spec_del_at by done.
    destruct (uniq_at_fresh k l1 k' v l2 Hu Hk). by apply fresh_app.
  - apply spec_find_fresh in E. by rewrite spec_del_fresh.
Qed.

(** The state between two steps of a call: [gone] is the cache without the
    entry of [key]. *)
Lemma evict c key :
  cache_inv c ->
  exists c', ('(val, m) ← map_del (c_map c) key; entry_free val (with_map m c)) = Some c' /\
    cache_inv c' /\ owed c' = owed c /\ fresh key (map_iterate (c_map c')) /\ view c' key = None /\
    (forall k, k <> key -> view c' k = view c k) /\
    (forall p, c_store c !! p = None -> c_store c' !! p = None) /\
    length (map_iterate (c_map c')) <= length (map_iterate (c_map c)).
Proof.
  intros [Hm He]. destruct (map_del_ok (c_map c) key Hm) as (m & -> & Hm' & HP). cbn [mbind option_bind].
  pose proof (map_inv_uniq _ Hm) as Hu. pose proof (map_inv_uniq _ Hm') as Hu'.
  unfold entry_free, with_map, cache_inv, owed, view. cbn [c_map c_store c_heap].
  assert (fresh key (map_iterate m)) as Hfr.
  { unfold fresh. rewrite HP. by apply spec_del_fresh_key. }
  destruct (spec_find key (map_iterate (c_map c))) as [p|] eqn:Ef.
  - destruct (entries_find _ _ _ _ He Ef) as (Hp & e & Ee & Hk & Hs).
    unfold spec_get. rewrite Ef. change (default 0%Z (Some p)) with p. destruct (Z.eqb_spec p 0); [done|]. rewrite Ee.
    cbn [mbind option_bind]. eexists. split; [done|]. cbn [c_map c_store c_heap].
    destruct (entries_del _ _ _ _ _ He Hu Ef Ee) as [He' Hb].
    split; [split; [done|]; by eapply entries_ok_perm|]. split.
    { unfold h_free at 1. cbn [live]. rewrite dns_records_free_live. unfold h_free. cbn [live].
      rewrite Hb, (blocks_perm _ _ _ HP). lia. }
    split; [done|]. split; [by rewrite (proj1 (spec_find_fresh _ _) Hfr)|].
    split; [|split; [intros q Hq; destruct (decide (q = p)) as [->|]; [apply lookup_delete_eq|by rewrite lookup_delete_ne]|
      rewrite HP, <- (length_spec_del key (map_iterate (c_map c)) p Ef); lia]].
    intros k Hne. rewrite (spec_find_perm _ _ _ HP Hu'), spec_find_del_ne by done.
    destruct (spec_find k (map_iterate (c_map c))) as [q|] eqn:Eq; [|done]. cbn [mbind option_bind].
    rewrite lookup_delete_ne; [done|]. intros ->.
    destruct (entries_find _ _ _ _ He Eq) as (_ & e2 & Ee2 & Hk2 & _). congruence.
  - rewrite spec_get_None by done. cbn [Z.eqb]. eexists. split; [done|]. cbn [c_map c_store c_heap].
    apply spec_find_fresh in Ef. rewrite spec_del_fresh in HP by done.
    split; [split; [done|]; by eapply entries_ok_perm|]. split; [by rewrite (blocks_perm _ _ _ HP)|].
    split; [done|]. split; [by rewrite (proj1 (spec_find_fresh _ _) Hfr)|].
    split; [intros k Hne; by rewrite (spec_find_perm _ _ _ HP Hu')|]. split; [done|]. by rewrite HP.
Qed.

Lemma free_entries_spec c l :
  entries_ok (c_store c) l -> uniq l ->
  exists c', free_entries l.*2 c = Some c' /\ c_store c' = ∅ /\
    live (c_heap c') = (live (c_heap c) - Z.of_nat (blocks (c_store c) l))%Z.
Proof.
  revert c. induction l as [|[k p] l IH]; intros c He Hu.
  - exists c. split; [done|]. split; [|unfold blocks; cbn; lia]. apply map_empty. intros p.
    destruct (c_store c !! p) as [e|] eqn:E; [|done]. destruct He as (_ & _ & H3).
    specialize (H3 p ltac:(by eexists)). by apply elem_of_nil in H3.
  - assert (spec_find k ((k, p) :: l) = Some p) as Ef.
    { cbn [spec_find]. by rewrite (proj2 (keq_string k k) eq_refl). }
    destruct (entries_find _ _ _ _ He Ef) as (Hp & e & Ee & _).
    destruct (entries_del _ _ _ _ _ He Hu Ef Ee) as [He' Hb].
    cbn [spec_del] in He', Hb. rewrite (proj2 (keq_string k k) eq_refl) in He', Hb.
    rewrite fmap_cons. cbn [free_entries snd]. unfold entry_free at 1. destruct (Z.eqb_spec p 0); [done|].
    rewrite Ee. cbn [mbind option_bind].
    destruct (IH (Cache (c_map c) (delete p (c_store c)) (h_free 1 (dns_records_free (records e) (h_free 1 (c_heap c))))))
      as (c' & -> & Hst & Hl); [done|by destruct Hu|]. exists c'. split; [done|]. split; [done|].
    cbn [c_store c_heap] in Hl. rewrite Hl, Hb. unfold h_free at 1. cbn [live]. rewrite dns_records_free_live.
    unfold h_free. cbn [live]. lia.
Qed.

(** Destroying a cache frees every entry, and leaves only what callers hold. *)
Lemma dns_cache_destroy_spec c :
  cache_inv c -> exists h, dns_cache_destroy (Some c) = Some (Some (∅, h)) /\ live h = owed c.
Proof.
  intros [Hm He]. unfold dns_cache_destroy.
  destruct (free_entries_spec c _ He (map_inv_uniq _ Hm)) as (c' & -> & Hst & Hl). cbn [mbind option_bind].
  exists (c_heap c'). split; [by rewrite Hst|done].
Qed.

Lemma sized_cloned r : sized r -> sized (cloned r).
Proof.
  unfold sized, cloned. cbn [rdata rdlength]. destruct (rdata r) as [d|]; [|done].
  intros H. destruct (Z.ltb_spec 0 (rdlength r)); [done|lia].
Qed.

Lemma evict_then {X} c key (K : dns_cache M -> ub X) :
  cache_inv c ->
  exists c', ('(val, m) ← map_del (c_map c) key; c1 ← entry_free val (with_map m c); K c1) = K c' /\
    cache_inv c' /\ owed c' = owed c /\ fresh key (map_iterate (c_map c')) /\ view c' key = None /\
    (forall k, k <> key -> view c' k = view c k) /\
    (forall p, c_store c !! p = None -> c_store c' !! p = None) /\
    length (map_iterate (c_map c')) <= length (map_iterate (c_map c)).
Proof.
  intros H. destruct (evict c key H) as (c' & E & R). exists c'. split; [|exact R].
  destruct (map_del (c_map c) key) as [[val m]|]; [|done]. cbn [mbind option_bind] in *. by rewrite E.
Qed.

Lemma owed_with_heap h c : owed (with_heap h c) = (owed c + live h - live (c_heap c))%Z.
Proof. unfold owed, with_heap. cbn. lia. Qed.

(** Storing an entry under a fresh key. *)
Lemma store_entry alloc c key p e h :
  cache_inv c -> fresh key (map_iterate (c_map c)) -> p <> 0%Z -> c_store c !! p = None ->
  e_key e = key -> Forall sized (records e) ->
  exists err c', ('(err, m) ← map_set alloc (c_map c) key p;
      let c := Cache m (<[p := e]> (c_store c)) h in
      if decide (err = xErrno_Ok) then Some (Some c) else c ← entry_free p c; Some (Some c)) = Some (Some c') /\
    (exists m, map_set alloc (c_map c) key p = Some (err, m)) /\ cache_inv c' /\
    owed c' = (owed c + live h - live (c_heap c) - 2 - Z.of_nat (records_blocks (records e)))%Z /\
    (forall k, k <> key -> view c' k = view c k) /\
    view c' key = (if decide (err = xErrno_Ok) then Some e else None).
Proof.
  intros [Hm He] Hf Hp Hn Hk Hs. pose proof (map_inv_uniq _ Hm) as Hu.
  destruct (map_set_ok alloc (c_map c) key p Hm) as (err & m & E & Hm' & HP).
  exists err. rewrite E. cbn [mbind option_bind]. pose proof (map_inv_uniq _ Hm') as Hu'.
  unfold cache_inv, owed, view.
  destruct HP as [[-> HP]|[-> HP]].
  - rewrite !decide_True by done. eexists. split; [done|]. split; [by eexists|]. cbn [c_map c_store c_heap].
    rewrite spec_set_fresh in HP by done. destruct (entries_add _ _ key p e He Hf Hp Hn Hk Hs) as [Ha Hb].
    split; [split; [done|]; by eapply entries_ok_perm|]. split; [rewrite (blocks_perm _ _ _ HP), Hb; lia|].
    assert (keq key key = true) as Hkk by by apply keq_string. split.
    + intros k Hne. rewrite (spec_find_perm _ _ _ HP Hu'). cbn [spec_find].
      destruct (keq key k) eqn:Ek; [by apply keq_string in Ek|].
      destruct (spec_find k _) as [q|] eqn:Eq; [|done]. cbn [mbind option_bind]. rewrite lookup_insert_ne; [done|].
      intros <-. destruct (entries_find _ _ _ _ He Eq) as (_ & e2 & He2 & _). congruence.
    + rewrite (spec_find_perm _ _ _ HP Hu'). cbn [spec_find]. rewrite Hkk. cbn [mbind option_bind].
      by rewrite lookup_insert_eq.
  - rewrite decide_False by done. unfold entry_free. cbn [c_map c_store c_heap].
    destruct (Z.eqb_spec p 0); [done|]. rewrite lookup_insert_eq. cbn [mbind option_bind].
    rewrite delete_insert_eq, delete_id by done. eexists. split; [done|]. split; [by eexists|].
    cbn [c_map c_store c_heap]. split; [split; [done|]; by eapply entries_ok_perm|]. split.
    { unfold h_free at 1. cbn [live]. rewrite dns_records_free_live. unfold h_free. cbn [live].
      rewrite (blocks_perm _ _ _ HP). lia. }
    split; [intros k Hne; by rewrite (spec_find_perm _ _ _ HP Hu')|].
    rewrite (spec_find_perm _ _ _ HP Hu'). by rewrite (proj1 (spec_find_fresh _ _) Hf).
Qed.

End inv.

(** ** Properties *)

Section spec.
Context {M : Type} `{!XMap (list Z) M, !XMapOk (list Z) M, !XMapTotal (list Z) M}.

(** What the second half of an insertion leaves under its key. *)
Definition inserted (env : env) (key : list Z) (recs : list xDnsRecord) (ttl : Z) (v : option dns_cache_entry_t) : Prop :=
  v = None \/ exists rs, v = Some (Entry key rs (expiry_at (now env) ttl)) /\
    (rs = cloned <$> recs \/ rs = [] /\ exists n, alloc env n = false).

Lemma insert_entry_spec env key recs ttl (c : dns_cache M) :
  cache_inv c -> fresh key (map_iterate (c_map c)) -> view c key = None -> Forall sized recs ->
  entry_ptr env <> 0%Z -> c_store c !! entry_ptr env = None ->
  exists c', insert_entry env key recs ttl c = Some (Some c') /\
    cache_inv c' /\ owed c' = (owed c - 1)%Z /\ (forall k, k <> key -> view c' k = view c k) /\
    inserted env key recs ttl (view c' key) /\
    ((forall n, alloc env n = true) -> map_alloc env = (fun _ => true) ->
     (Z.of_nat (length (map_iterate (c_map c))) < 2 ^ 32)%Z ->
     view c' key = Some (Entry key (cloned <$> recs) (expiry_at (now env) ttl))).
Proof.
  intros Hc Hf Hv Hrs Hp Hn. unfold insert_entry, h_alloc.
  destruct (alloc env (tries (c_heap c))) eqn:Ee; cbn [negb].
  2:{ eexists. split; [done|]. split; [done|]. split; [rewrite owed_with_heap; cbn; lia|].
      split; [done|]. split; [by left|]. intros H. by rewrite H in Ee. }
  destruct (dns_records_clone_spec (alloc env) recs (Heap (S (tries (c_heap c))) (live (c_heap c) + 1)) Hrs)
    as (h & rs & E & Hlive & Hcl). cbn [live] in Hlive. rewrite E. cbn [mbind option_bind].
  assert (Forall sized rs) as Hszd.
  { destruct Hcl as [->|[-> _]]; [|done]. apply Forall_fmap. eapply Forall_impl; [exact Hrs|]. apply sized_cloned. }
  destruct (store_entry (map_alloc env) c key (entry_ptr env) (Entry key rs (expiry_at (now env) ttl)) h
    Hc Hf Hp Hn eq_refl Hszd) as (err & c' & E' & (m & Em) & Hc' & Ho & Hoth & Hv').
  exists c'. split; [exact E'|]. split; [done|]. cbn [records] in Ho. split; [lia|]. split; [done|]. rewrite Hv'. split.
  - case_decide; [|by left]. right. by exists rs.
  - intros Hal Hma Hlen. destruct (map_set_total (c_map c) key (entry_ptr env) (proj1 Hc) Hlen) as [m' Et].
    rewrite Hma, Et in Em. simplify_eq. rewrite decide_True by done.
    destruct Hcl as [->|[_ [n Hfalse]]]; [done|]. by rewrite Hal in Hfalse.
Qed.

(** C37: [dns_cache_insert] on any valid cache, whatever its allocations do:
    the cache stays valid and leaks nothing; what is cached for every other
    (name, type) pair is untouched, and for this pair it is a full copy of the
    records expiring at [now + 1000 ttl], or what was there or nothing when
    memory ran out (or, as the code has it, an entry without records when only
    their copy failed).  When memory suffices it is the copy. *)
Theorem dns_cache_insert_spec env (c : dns_cache M) name qtype recs ttl :
  cache_inv c -> u16_ok qtype -> Forall sized recs ->
  entry_ptr env <> 0%Z -> c_store c !! entry_ptr env = None ->
  exists c', dns_cache_insert env (Some c) (Some name) qtype recs ttl = Some (Some c') /\
    cache_inv c' /\ owed c' = owed c /\
    (forall n' q', u16_ok q' -> (n', q') <> (name, qtype) -> view c' (make_key n' q') = view c (make_key n' q')) /\
    (view c' (make_key name qtype) = view c (make_key name qtype) /\ alloc env (tries (c_heap c)) = false \/
     inserted env (make_key name qtype) recs ttl (view c' (make_key name qtype))) /\
    ((forall n, alloc env n = true) -> map_alloc env = (fun _ => true) ->
     (Z.of_nat (length (map_iterate (c_map c))) < 2 ^ 32)%Z ->
     view c' (make_key name qtype) =
       Some (Entry (make_key name qtype) (cloned <$> recs) (expiry_at (now env) ttl))).
Proof.
  intros Hc Hq Hrs Hp Hnew. unfold dns_cache_insert, h_alloc. set (key := make_key name qtype).
  destruct (alloc env (tries (c_heap c))) eqn:Ek; cbn [negb].
  2:{ eexists. split; [done|]. split; [done|]. split; [by rewrite owed_with_heap; cbn; lia|].
      split; [done|]. split; [by left|]. intros H. by rewrite H in Ek. }
  match goal with |- context [with_heap ?h c] => set (c0 := with_heap h c) end.
  destruct (evict_then c0 key (insert_entry env key recs ttl) Hc)
    as (c1 & -> & Hc1 & Ho1 & Hf1 & Hv1 & Hoth1 & Hst1 & Hlen1).
  destruct (insert_entry_spec env key recs ttl c1 Hc1 Hf1 Hv1 Hrs Hp (Hst1 _ Hnew))
    as (c' & E & Hc' & Ho' & Hoth' & Hins & Htot).
  exists c'. split; [exact E|]. split; [done|].
  split; [unfold c0 in Ho1; rewrite owed_with_heap in Ho1; cbn [live] in Ho1; lia|]. split; [|split; [by right|]].
  - intros n' q' Hq' Hne. assert (make_key n' q' <> key) as Hk.
    { intros E'. apply make_key_inj in E' as [-> ->]; done. }
    by rewrite Hoth', Hoth1.
  - intros H1 H2 H3. apply Htot; [done|done|]. cbn [c_map c0 with_heap] in Hlen1. lia.
Qed.

(** C38: [dns_cache_lookup] on any valid cache: an entry that has not expired is
    returned as a copy of its records (or nothing when memory runs out) and
    stays; an expired entry is evicted and freed, and nothing is returned;
    without an entry nothing is returned.  Other pairs are untouched, and the
    blocks handed to the caller are exactly those of the returned list. *)
Theorem dns_cache_lookup_spec env (c : dns_cache M) name qtype :
  cache_inv c -> u16_ok qtype ->
  exists rs c', dns_cache_lookup env (Some c) (Some name) qtype = Some (rs, Some c') /\
    cache_inv c' /\ owed c' = (owed c + Z.of_nat (records_blocks rs))%Z /\
    (forall n' q', u16_ok q' -> (n', q') <> (name, qtype) -> view c' (make_key n' q') = view c (make_key n' q')) /\
    match view c (make_key name qtype) with
    | Some e =>
        (exists n, alloc env n = false) /\ rs = [] /\ view c' (make_key name qtype) = Some e \/
        if (expiry_ms e <=? now env)%Z then rs = [] /\ view c' (make_key name qtype) = None
        else rs = cloned <$> records e /\ view c' (make_key name qtype) = Some e
    | None => rs = [] /\ view c' (make_key name qtype) = None
    end.
Proof.
  intros Hc Hq. unfold dns_cache_lookup, h_alloc. set (key := make_key name qtype).
  destruct (alloc env (tries (c_heap c))) eqn:Ek; cbn [negb].
  2:{ eexists _, _. split; [done|]. split; [done|]. split; [rewrite owed_with_heap; cbn; lia|].
      split; [done|]. change (view (with_heap _ c) key) with (view c key).
      destruct (view c key) as [e|] eqn:Ev; [|done]. left. split; [by eexists|done]. }
  match goal with |- context [with_heap ?h c] => set (h0 := h) end. cbn [with_heap c_map c_store c_heap].
  pose proof (proj1 Hc) as Hm. pose proof (proj2 Hc) as He. rewrite (map_get_ok (c_map c) key Hm). cbn [mbind option_bind].
  assert (view c key = (p ← spec_find key (map_iterate (c_map c)); c_store c !! p)) as Ev by done.
  unfold spec_get. rewrite Ev. clear Ev. destruct (spec_find key (map_iterate (c_map c))) as [p|] eqn:Ef; cbn [mbind option_bind].
  2:{ cbn [default Z.eqb]. eexists _, _. split; [done|]. split; [done|].
      split; [rewrite !owed_with_heap; cbn; lia|]. split; [done|]. split; [done|].
      unfold view. cbn [with_heap c_map c_store]. by rewrite Ef. }
  change (default 0%Z (Some p)) with p. destruct (entries_find _ _ _ _ He Ef) as (Hp & e & Ee & Hk & Hs).
  destruct (Z.eqb_spec p 0); [done|]. rewrite Ee. cbn [mbind option_bind].
  destruct (expiry_ms e <=? now env)%Z.
  - set (c0 := with_heap (h_free 1 h0) c).
    destruct (evict_then c0 key (fun c => Some (@nil xDnsRecord, Some c)) Hc)
      as (c1 & E & Hc1 & Ho1 & Hf1 & Hv1 & Hoth1 & _).
    exists [], c1. split; [exact E|]. split; [done|].
    split; [unfold c0 in Ho1; rewrite owed_with_heap in Ho1; cbn in Ho1 |- *; lia|]. split; [|by right].
    intros n' q' Hq' Hne. rewrite Hoth1; [done|]. intros E'. apply make_key_inj in E' as [-> ->]; done.
  - destruct (dns_records_clone_spec (alloc env) (records e) (h_free 1 h0) Hs) as (h & rs & -> & Hl & Hcl).
    cbn [mbind option_bind]. eexists rs, _. split; [done|]. split; [done|].
    split; [rewrite !owed_with_heap; cbn in Hl |- *; lia|]. split; [done|].
    assert (view (with_heap h (with_heap h0 c)) key = Some e) as Hv.
    { unfold view. cbn [with_heap c_map c_store]. rewrite Ef. exact Ee. }
    destruct Hcl as [->|[-> Hfail]]; [by right|by left].
Qed.

End spec.

Lemma cache_inv_empty {M} `{!XMap (list Z) M, !XMapOk (list Z) M} (m : M) h :
  map_inv m -> map_iterate m = [] -> cache_inv (Cache m ∅ h).
Proof.
  intros Hm Hi. split; [done|]. cbn [c_store c_map]. rewrite Hi. split; [constructor|]. split; [constructor|].
  intros p [e He]. by rewrite lookup_empty in He.
Qed.

Lemma dns_cache_create_inv map_alloc slab c : dns_cache_create map_alloc slab = Some c -> cache_inv c /\ owed c = 0%Z.
Proof.
  unfold dns_cache_create. destruct (xMapCreate map_alloc slab xMapType_Hash 64) as [m|] eqn:E; [|done].
  intros [= <-]. apply xMapCreate_inv in E as [Hm Hi]; [|cbn; unfold SIZE_MAX; lia].
  split; [by apply cache_inv_empty|]. unfold owed. cbn [c_map c_store c_heap live]. rewrite Hi. reflexivity.
Qed.

(** The empty chain table [dns_cache_create] asks for. *)
Definition table64 : xMapHash (list Z) := {| h_buckets := replicate 64 []; h_size := 0; h_cap := 64 |}.

Lemma table64_ok : map_inv table64 /\ map_iterate table64 = [].
Proof. apply (xMapHashCreate_spec (fun _ => true) 64); [lia|unfold SIZE_MAX; lia|reflexivity]. Qed.

Lemma table64_cache_inv : cache_inv (Cache table64 ∅ (Heap 0 0)).
Proof. apply cache_inv_empty; apply table64_ok. Qed.

Definition two_addresses : list xDnsRecord :=
  [Rec 1 300 (Some [97]%Z) (Some [10; 0; 0; 1]%Z) 4; Rec 1 300 (Some [97]%Z) (Some [10; 0; 0; 2]%Z) 4].

Definition at_time (ptr t : Z) : env := Env (fun _ => true) ptr (fun _ => true) t.

Lemma dns_cache_insert_spec_witness :
  exists c', dns_cache_insert (at_time 8 5) (Some (Cache table64 ∅ (Heap 0 0))) (Some [97]%Z) 1 two_addresses 300 =
      Some (Some c') /\
    view c' (make_key [97]%Z 1) = Some (Entry (make_key [97]%Z 1) two_addresses 300005).
Proof.
  destruct (dns_cache_insert_spec (at_time 8 5) (Cache table64 ∅ (Heap 0 0)) [97]%Z 1 two_addresses 300)
    as (c' & E & _ & _ & _ & _ & H).
  - exact table64_cache_inv.
  - unfold u16_ok. lia.
  - repeat constructor.
  - discriminate.
  - apply lookup_empty.
  - exists c'. split; [exact E|]. apply H; [done|done|]. vm_compute. reflexivity.
Defined.

(** The cache holding the two addresses until 300005 ms. *)
Definition table64_two : dns_cache (xMapHash (list Z)) :=
  default (Cache table64 ∅ (Heap 0 0))
    (default None (dns_cache_insert (at_time 8 5) (Some (Cache table64 ∅ (Heap 0 0))) (Some [97]%Z) 1 two_addresses 300)).

Lemma table64_two_inv : cache_inv table64_two.
Proof.
  destruct (insert_entry_spec (at_time 8 5) (make_key [97]%Z 1) two_addresses 300
    (with_heap (Heap 1 1) (Cache table64 ∅ (Heap 0 0)))) as (c' & E & Hc & _).
  - exact table64_cache_inv.
  - change (fresh (make_key [97]%Z 1) (map_iterate table64)). rewrite (proj2 table64_ok). constructor.
  - reflexivity.
  - repeat constructor.
  - discriminate.
  - apply lookup_empty.
  - assert (Some (Some table64_two) = Some (Some c')) as Heq.
    { rewrite <- E. vm_compute. reflexivity. }
    apply (f_equal (fun r => default c' (default None r))) in Heq.
    change (table64_two = c') in Heq. rewrite Heq. exact Hc.
Qed.

(** A hit at 300004 ms; the same lookup a millisecond later finds nothing. *)
Lemma dns_cache_lookup_spec_witness :
  (exists rs c', dns_cache_lookup (at_time 0 300004) (Some table64_two) (Some [97]%Z) 1 = Some (rs, Some c') /\
     owed c' = (owed table64_two + Z.of_nat (records_blocks rs))%Z) /\
  option_map fst (dns_cache_lookup (at_time 0 300004) (Some table64_two) (Some [97]%Z) 1) = Some two_addresses /\
  option_map fst (dns_cache_lookup (at_time 0 300005) (Some table64_two) (Some [97]%Z) 1) = Some [].
Proof.
  split; [|split; vm_compute; reflexivity].
  destruct (dns_cache_lookup_spec (at_time 0 300004) table64_two [97]%Z 1) as (rs & c' & E & _ & Ho & _).
  - exact table64_two_inv.
  - unfold u16_ok. lia.
  - exists rs, c'. split; [exact E|exact Ho].
Defined.

(** The loop of [request_maybe_complete] caches an answer with several
    records of one name and type once per record, each time replacing the entry
    by the rest of the list: of two addresses only the second is cached, and
    the next lookup returns that one alone. *)
Theorem cache_results_keeps_last :
  (c ← cache_results [at_time 8 5; at_time 16 5] (Some (Cache table64 ∅ (Heap 0 0))) two_addresses;
   r ← dns_cache_lookup (at_time 0 6) c (Some [97]%Z) 1;
   Some r.1) = Some [Rec 1 300 (Some [97]%Z) (Some [10; 0; 0; 2]%Z) 4].
Proof. vm_compute. reflexivity. Qed.
