(* ===== verification/Md.v ===== *)
(** * Md: the buffering all three digests share

    [sha1_builtin.c], [sha256_builtin.c] and [md5.c] ([libx/x/crypto]) each
    repeat the same update and final routines around their own compression
    function.  Here the routines are written once over a compression function
    [transform] with state type [St]; the three files instantiate them.

    [stream_digest] is the specification: pad the whole message, compress it
    block by block.  [md_stream] says that any way of cutting the message into
    updates computes it. *)

From S2P Require Import Prelude Wire.

(** The implementation structure: [count] is in bits for the SHA family
    ([unit = 8]) and in bytes for MD5 ([unit = 1]). *)
Record md_ctx (St : Type) := Ctx { state : St; count : Z; buffer : list Z }.
Arguments Ctx {St}. Arguments state {St}. Arguments count {St}. Arguments buffer {St}.

Section md.
Context {St : Type}.
(** The compression of one 64-byte block, what [count] counts, the encoding of
    the message length in bits, the initial state and the output. *)
Context (transform : St -> list Z -> ub St) (unit : Z) (len_bytes : Z -> list Z) (init : St) (out : St -> list Z).

Definition md_init : md_ctx St := Ctx init 0 (replicate 64 0%Z).

Definition buf_used (c : md_ctx St) : nat := Z.to_nat ((count c / unit) mod 64).

(** [while (len >= 64)]: the state and the bytes left. *)
Fixpoint full_blocks (fuel : nat) (st : St) (data : list Z) : ub (St * list Z) :=
  match fuel with
  | 0 => None
  | S fuel =>
      if decide (64 <= length data) then
        st ← transform st (take 64 data);
        full_blocks fuel st (drop 64 data)
      else Some (st, data)
  end.

(** One round per block: the length of the data is enough. *)
Definition absorb (st : St) (data : list Z) : ub (St * list Z) := full_blocks (S (length data)) st data.

(** The whole blocks of [data] and the remainder to the front of the buffer. *)
Definition process (c : md_ctx St) (data : list Z) : ub (md_ctx St) :=
  '(st, data) ← absorb (state c) data;
  b ← (if decide (0 < length data) then mem_write (buffer c) 0 data else Some (buffer c));
  Some (Ctx st (count c) b).

Definition md_update (c : md_ctx St) (data : list Z) : ub (md_ctx St) :=
  let used := buf_used c in
  let len := length data in
  let c := Ctx (state c) (u64 (count c + u64 (Z.of_nat len * unit))) (buffer c) in
  if decide (0 < used) then
    let space := 64 - used in
    if decide (len < space) then
      b ← mem_write (buffer c) used data;
      Some (Ctx (state c) (count c) b)
    else
      b ← mem_write (buffer c) used (take space data);
      st ← transform (state c) b;
      process (Ctx st (count c) b) (drop space data)
  else process c data.

(** The padded last block or two; [bits] is the message length in bits. *)
Definition md_final (bits : Z) (c : md_ctx St) : ub (list Z) :=
  let used := buf_used c in
  b ← mem_set (buffer c) used 0x80%Z;
  let used := S used in
  '(st, b, used) ←
    (if decide (56 < used) then
       b ← mem_write b used (replicate (64 - used) 0%Z);
       st ← transform (state c) b;
       Some (st, b, 0)
     else Some (state c, b, used));
  b ← mem_write b used (replicate (56 - used) 0%Z);
  b ← mem_write b 56 (len_bytes bits);
  st ← transform st b;
  Some (out st).

(** ** The specification *)

(** The padding after a message of [n] bytes: 0x80, zeros up to 56 modulo 64,
    the length in bits. *)
Definition padding (n : nat) : list Z :=
  let used := S (n mod 64) in
  0x80%Z :: replicate (if decide (56 < used) then 120 - used else 56 - used) 0%Z ++ len_bytes (u64 (8 * Z.of_nat n)).

Definition stream_digest (msg : list Z) : ub (list Z) :=
  '(st, _) ← absorb init (msg ++ padding (length msg));
  Some (out st).

(** ** Splitting a message *)

Lemma full_blocks_fuel f1 f2 st data :
  length data < f1 -> length data < f2 -> full_blocks f1 st data = full_blocks f2 st data.
Proof.
  revert f2 st data. induction f1 as [|f1 IH]; intros [|f2] st data H1 H2; try lia.
  cbn [full_blocks]. case_decide; [|done]. destruct (transform _ _); cbn [mbind option_bind]; [|done].
  apply IH; rewrite length_drop; lia.
Qed.

Lemma absorb_unfold st data :
  absorb st data =
    if decide (64 <= length data) then st ← transform st (take 64 data); absorb st (drop 64 data)
    else Some (st, data).
Proof.
  unfold absorb at 1. cbn [full_blocks]. case_decide; [|done].
  destruct (transform _ _); cbn [mbind option_bind]; [|done].
  apply full_blocks_fuel; [rewrite length_drop; lia|lia].
Qed.

Lemma absorb_short st data : length data < 64 -> absorb st data = Some (st, data).
Proof. intros H. rewrite absorb_unfold. by rewrite decide_False by lia. Qed.

Lemma absorb_block st b data :
  length b = 64 -> absorb st (b ++ data) = (st ← transform st b; absorb st data).
Proof.
  intros H. rewrite absorb_unfold, length_app, decide_True by lia.
  by rewrite take_app_length', drop_app_length' by done.
Qed.

Lemma absorb_app st m1 m2 : absorb st (m1 ++ m2) = ('(st, r) ← absorb st m1; absorb st (r ++ m2)).
Proof.
  remember (length m1) as n eqn:E. revert st m1 E. induction (Nat.lt_wf_0 n) as [n _ IH]. intros st m1 ->.
  rewrite (absorb_unfold st m1). case_decide as H; [|done].
  rewrite <- (take_drop 64 m1) at 1. rewrite <- app_assoc, absorb_block by (rewrite length_take; lia).
  destruct (transform st (take 64 m1)) as [st'|]; cbn [mbind option_bind]; [|done].
  eapply IH; [|done]. rewrite length_drop. lia.
Qed.

Lemma absorb_rest st m st' r :
  absorb st m = Some (st', r) -> length r = length m mod 64.
Proof.
  remember (length m) as n eqn:E. revert st m E. induction (Nat.lt_wf_0 n) as [n _ IH]. intros st m ->.
  rewrite absorb_unfold. case_decide as H.
  - destruct (transform _ _) as [st1|]; cbn [mbind option_bind]; [|done]. intros Ha.
    rewrite (IH (length (drop 64 m)) ltac:(rewrite length_drop; lia) st1 (drop 64 m) eq_refl Ha), length_drop.
    replace (length m) with ((length m - 64) + 1 * 64) at 2 by lia. by rewrite Nat.Div0.mod_add.
  - intros [= <- <-]. rewrite Nat.mod_small; lia.
Qed.

(** ** The context represents a message *)

Context (unit_ok : unit = 8%Z \/ unit = 1%Z).
Context (transform_ok : forall st b, length b = 64 -> is_Some (transform st b)).
Context (len_bytes_ok : forall bits, length (len_bytes bits) = 8).

Lemma absorb_Some st m : is_Some (absorb st m).
Proof.
  remember (length m) as n eqn:E. revert st m E. induction (Nat.lt_wf_0 n) as [n _ IH]. intros st m ->.
  rewrite absorb_unfold. case_decide as H; [|by eexists].
  destruct (transform_ok st (take 64 m)) as [st' ->]; [rewrite length_take; lia|]. cbn [mbind option_bind].
  eapply IH; [|done]. rewrite length_drop. lia.
Qed.

Definition represents (c : md_ctx St) (m : list Z) : Prop :=
  exists r : list Z, absorb init m = Some (state c, r) /\ take (length r) (buffer c) = r /\ length (buffer c) = 64 /\
    count c = u64 (unit * Z.of_nat (length m)).

Lemma buf_used_mod c (m : list Z) : count c = u64 (unit * Z.of_nat (length m)) -> buf_used c = length m mod 64.
Proof.
  intros H. unfold buf_used. rewrite H. unfold u64. rewrite <- (Nat2Z.id (length m mod 64)), Nat2Z.inj_mod.
  f_equal. change (Z.of_nat 64) with 64%Z. generalize (Z.of_nat (length m)). intros z.
  destruct unit_ok as [->| ->]; Z.to_euclidean_division_equations; lia.
Qed.

Lemma md_init_represents : represents md_init [].
Proof.
  exists []. split; [by apply absorb_short; cbn; lia|]. split; [done|]. split; [done|]. cbn [count md_init length].
  by rewrite Z.mul_0_r.
Qed.

Lemma write_at_rest (b r x : list Z) :
  length b = 64 -> take (length r) b = r -> length r + length x <= 64 ->
  exists b', mem_write b (length r) x = Some b' /\ take (length r + length x) b' = r ++ x /\ length b' = 64.
Proof.
  intros Hb Hr Hx. rewrite mem_write_Some by lia. eexists. split; [done|]. rewrite Hr. split.
  - rewrite app_assoc, take_app_length' by (by rewrite length_app). done.
  - autorewrite with len. lia.
Qed.

Lemma process_spec c data :
  length (buffer c) = 64 ->
  exists c' (r : list Z), process c data = Some c' /\ absorb (state c) data = Some (state c', r) /\
    take (length r) (buffer c') = r /\ length (buffer c') = 64 /\ count c' = count c.
Proof.
  intros Hb. unfold process. destruct (absorb_Some (state c) data) as [[st r] E]. rewrite E.
  cbn [mbind option_bind]. pose proof (absorb_rest _ _ _ _ E) as Hr.
  pose proof (Nat.mod_upper_bound (length data) 64 ltac:(lia)).
  case_decide as Hlen.
  - rewrite mem_write_Some by lia. cbn [mbind option_bind]. eexists _, r. split; [done|]. split; [done|].
    cbn [buffer count]. rewrite take_0, app_nil_l, take_app_length. autorewrite with len. split; [done|]. split; [lia|done].
  - cbn [mbind option_bind]. eexists _, r. split; [done|]. split; [done|]. destruct r; [|cbn in Hlen; lia].
    cbn [buffer count]. done.
Qed.

Lemma md_update_represents c m data :
  represents c m -> exists c', md_update c data = Some c' /\ represents c' (m ++ data).
Proof.
  intros (r & Ha & Hr & Hb & Hc). unfold md_update. cbv zeta.
  pose proof (absorb_rest _ _ _ _ Ha) as Hlr. rewrite (buf_used_mod _ _ Hc), <- Hlr.
  pose proof (Nat.mod_upper_bound (length m) 64 ltac:(lia)) as Hlt. rewrite <- Hlr in Hlt.
  assert (u64 (count c + u64 (Z.of_nat (length data) * unit)) = u64 (unit * Z.of_nat (length (m ++ data)))) as Hcount.
  { rewrite Hc. unfold u64. rewrite <- Zplus_mod, length_app, Nat2Z.inj_add. f_equal. lia. }
  rewrite Hcount. cbn [state buffer count]. unfold represents. setoid_rewrite absorb_app. rewrite Ha. cbn [mbind option_bind].
  case_decide as H1; [case_decide as H2|].
  - destruct (write_at_rest (buffer c) r data Hb Hr) as (b & -> & Hbr & Hbl); [lia|]. cbn [mbind option_bind].
    eexists. split; [done|]. exists (r ++ data). cbn [state count buffer].
    split; [apply absorb_short; rewrite length_app; lia|]. by rewrite length_app.
  - assert (length r + length (take (64 - length r) data) = 64) as H64 by (rewrite length_take; lia).
    destruct (write_at_rest (buffer c) r (take (64 - length r) data) Hb Hr) as (b & -> & Hbr & Hbl); [lia|].
    cbn [mbind option_bind]. rewrite H64, firstn_all2 in Hbr by lia.
    destruct (transform_ok (state c) b Hbl) as [st E]. rewrite E. cbn [mbind option_bind].
    destruct (process_spec (Ctx st (u64 (unit * Z.of_nat (length (m ++ data)))) b) (drop (64 - length r) data) Hbl)
      as (c' & r' & -> & Ha' & Hr' & Hb' & Hc').
    exists c'. split; [done|]. exists r'. split; [|by rewrite Hc'].
    rewrite <- (take_drop (64 - length r) data) at 1. rewrite app_assoc, <- Hbr, absorb_block by done.
    rewrite E. exact Ha'.
  - destruct (process_spec (Ctx (state c) (u64 (unit * Z.of_nat (length (m ++ data)))) (buffer c)) data Hb)
      as (c' & r' & -> & Ha' & Hr' & Hb' & Hc').
    exists c'. split; [done|]. exists r'. destruct r as [|x r]; [|cbn in H1; lia]. split; [exact Ha'|by rewrite Hc'].
Qed.

Lemma length_padding n :
  length (padding n) = if decide (56 < S (n mod 64)) then 128 - n mod 64 else 64 - n mod 64.
Proof.
  unfold padding. cbn [length]. rewrite length_app, length_replicate, len_bytes_ok.
  pose proof (Nat.mod_upper_bound n 64 ltac:(lia)). case_decide; lia.
Qed.

(** Overwriting from 56 on completes a block. *)
Lemma last_block (b p : list Z) z (l : list Z) :
  length b = 64 -> take (length p) b = p -> length p + z = 56 -> length l = 8 ->
  exists b', mem_write b (length p) (replicate z 0%Z) = Some b' /\
    exists b'', mem_write b' 56 l = Some b'' /\ b'' = p ++ replicate z 0%Z ++ l.
Proof.
  intros Hb Hp Hz Hl. destruct (write_at_rest b p (replicate z 0%Z) Hb Hp) as (b' & -> & Hb' & Hbl);
    [rewrite length_replicate; lia|].
  exists b'. split; [done|]. rewrite length_replicate, Hz in Hb'. rewrite mem_write_Some by lia.
  eexists. split; [done|]. rewrite Hb', drop_ge by lia. by rewrite app_nil_r, app_assoc.
Qed.

Lemma md_final_spec c m :
  represents c m -> md_final (u64 (8 * Z.of_nat (length m))) c = stream_digest m.
Proof.
  intros (r & Ha & Hr & Hb & Hc). unfold md_final, stream_digest. cbv zeta.
  pose proof (absorb_rest _ _ _ _ Ha) as Hlr. rewrite (buf_used_mod _ _ Hc), <- Hlr.
  pose proof (Nat.mod_upper_bound (length m) 64 ltac:(lia)) as Hlt. rewrite <- Hlr in Hlt.
  rewrite absorb_app, Ha. cbn [mbind option_bind]. unfold padding. rewrite <- Hlr. set (lb := len_bytes _).
  assert (length lb = 8) as Hlb by apply len_bytes_ok.
  rewrite mem_set_Some by lia. cbn [mbind option_bind].
  set (b := <[length r:=0x80%Z]> (buffer c)).
  assert (take (S (length r)) b = r ++ [0x80%Z]) as Htk.
  { unfold b. rewrite (take_S_r _ _ 0x80%Z) by (apply list_lookup_insert_eq; lia).
    rewrite take_insert_ge by lia. by rewrite Hr. }
  assert (length b = 64) as Hbl by (unfold b; by rewrite length_insert).
  assert (length (r ++ [0x80%Z]) = S (length r)) as Hl1 by (rewrite length_app; cbn; lia). clearbody b.
  change (0x80%Z :: ?x) with ([0x80%Z] ++ x). rewrite (app_assoc r). rewrite <- Hl1 in Htk.
  case_decide as H56; cbn [mbind option_bind].
  - destruct (write_at_rest b (r ++ [0x80%Z]) (replicate (64 - S (length r)) 0%Z) Hbl Htk) as (b1 & E1 & Hb1 & Hb1l);
      [rewrite length_replicate; lia|].
    rewrite Hl1 in E1. rewrite E1. cbn [mbind option_bind].
    rewrite length_replicate, Hl1, firstn_all2 in Hb1 by lia.
    replace (replicate (120 - S (length r)) 0%Z) with
      (replicate (64 - S (length r)) 0%Z ++ replicate 56 0%Z) by (rewrite <- replicate_add; f_equal; lia).
    rewrite <- (app_assoc (replicate _ _)), (app_assoc (r ++ [0x80%Z])), <- Hb1, absorb_block by done.
    destruct (transform_ok (state c) b1 Hb1l) as [st1 ->]. cbn [mbind option_bind].
    destruct (last_block b1 [] 56 lb Hb1l eq_refl eq_refl Hlb) as (b2 & E2 & b3 & E3 & ->).
    cbn [length app] in E2, E3 |- *. change (56 - 0) with 56. rewrite E2. cbn [mbind option_bind].
    rewrite E3. cbn [mbind option_bind].
    rewrite <- (app_nil_r (replicate 56 _ ++ lb)), absorb_block by (autorewrite with len; lia). rewrite app_nil_r.
    destruct (transform st1 _); [|done]. cbn [mbind option_bind]. by rewrite absorb_short by (cbn; lia).
  - destruct (last_block b (r ++ [0x80%Z]) (56 - S (length r)) lb Hbl Htk) as (b2 & E2 & b3 & E3 & ->); [lia|done|].
    rewrite Hl1 in E2. rewrite E2. cbn [mbind option_bind]. rewrite E3. cbn [mbind option_bind].
    set (blk := (r ++ [0x80%Z]) ++ replicate (56 - S (length r)) 0%Z ++ lb).
    rewrite <- (app_nil_r blk), absorb_block by (unfold blk; autorewrite with len; cbn [length]; lia). rewrite app_nil_r.
    destruct (transform (state c) blk); [|done]. cbn [mbind option_bind]. by rewrite absorb_short by (cbn; lia).
Qed.

(** Any sequence of updates. *)
Fixpoint md_updates (c : md_ctx St) (chunks : list (list Z)) : ub (md_ctx St) :=
  match chunks with
  | [] => Some c
  | d :: chunks => c ← md_update c d; md_updates c chunks
  end.

Lemma md_stream chunks :
  exists c, md_updates md_init chunks = Some c /\
    md_final (u64 (8 * Z.of_nat (length (concat chunks)))) c = stream_digest (concat chunks) /\
    count c = u64 (unit * Z.of_nat (length (concat chunks))).
Proof.
  enough (forall c m, represents c m -> exists c', md_updates c chunks = Some c' /\ represents c' (m ++ concat chunks)) as H.
  { destruct (H md_init [] md_init_represents) as (c & E & R). exists c. split; [done|].
    split; [by apply md_final_spec|]. by destruct R as (r & _ & _ & _ & R). }
  induction chunks as [|d chunks IH]; intros c m R; cbn [md_updates concat].
  - exists c. by rewrite app_nil_r.
  - destruct (md_update_represents c m d R) as (c1 & -> & R1). cbn [mbind option_bind].
    destruct (IH c1 (m ++ d) R1) as (c2 & E & R2). exists c2. by rewrite app_assoc.
Qed.

Lemma stream_digest_Some m : is_Some (stream_digest m).
Proof.
  unfold stream_digest. destruct (absorb_Some init (m ++ padding (length m))) as [[st r] ->]. by eexists.
Qed.

End md.
