(* ===== verification/Hash.v ===== *)
(** * Hash: the digest interface ([libx/x/crypto/hash_private.h])

    [xHashVtable] is the virtual table the generic HMAC dispatches through,
    [HashOk] what an implementation promises: whatever way the data is cut into
    updates, the digest is that of the whole message. *)

From S2P Require Import Prelude Errno Wire Md.

(** A status and, on success, a result. *)
Abbreviation res A := (ub (xErrno + A)).

(** A NULL data or digest pointer is [None] and [false]. *)
Record xHashVtable := {
  digest_size : nat;
  block_size : nat;
  ctx_size : nat;
  ctx : Type;
  h_init : res ctx;
  h_update : ctx -> option (list Z) -> res ctx;
  h_final : ctx -> bool -> res (list Z);
}.

Fixpoint h_updates (vt : xHashVtable) (c : ctx vt) (chunks : list (list Z)) : res (ctx vt) :=
  match chunks with
  | [] => Some (inr c)
  | d :: chunks =>
      r ← h_update vt c (Some d);
      match r with inl e => Some (inl e) | inr c => h_updates vt c chunks end
  end.

Class HashOk (vt : xHashVtable) := {
  hash : list Z -> list Z;
  hash_length m : length (hash m) = digest_size vt;
  hash_stream chunks :
    exists c0 c, h_init vt = Some (inr c0) /\ h_updates vt c0 chunks = Some (inr c) /\
      h_final vt c true = Some (inr (hash (concat chunks)));
}.
Arguments hash vt {_} _.

(** ** A digest built on the shared buffering *)

Section md_hash.
Context {St : Type} (transform : St -> list Z -> ub St) (unit : Z) (len_bytes : Z -> list Z) (init : St)
  (out : St -> list Z) (bits : Z -> Z) (size csize : nat).

(** The three public routines and the table, as each of the files has them;
    [bits] turns [count] into a number of bits. *)
Definition md_Init : res (md_ctx St) := Some (inr (md_init init)).

Definition md_Update (c : md_ctx St) (data : option (list Z)) : res (md_ctx St) :=
  match data with
  | None => Some (inl xErrno_InvalidArg)
  | Some data => c ← md_update transform unit c data; Some (inr c)
  end.

Definition md_Final (c : md_ctx St) (digest : bool) : res (list Z) :=
  if digest then d ← md_final transform unit len_bytes out (bits (count c)) c; Some (inr d)
  else Some (inl xErrno_InvalidArg).

Definition md_digest (data : option (list Z)) (digest : bool) : res (list Z) :=
  match data with
  | None => Some (inl xErrno_InvalidArg)
  | Some _ =>
      if negb digest then Some (inl xErrno_InvalidArg) else
      r ← md_Init;
      match r with
      | inl e => Some (inl e)
      | inr c =>
          r ← md_Update c data;
          match r with inl e => Some (inl e) | inr c => md_Final c digest end
      end
  end.

Definition md_vtable : xHashVtable := {|
  digest_size := size; block_size := 64; ctx_size := csize; ctx := md_ctx St;
  h_init := md_Init; h_update := md_Update; h_final := md_Final |}.

Context (unit_ok : unit = 8%Z \/ unit = 1%Z).
Context (transform_ok : forall st b, length b = 64 -> is_Some (transform st b)).
Context (len_bytes_ok : forall bits, length (len_bytes bits) = 8).
Context (bits_ok : forall n, bits (u64 (unit * n)) = u64 (8 * n)).
Context (out_ok : forall st, length (out st) = size).

Definition md_hash (m : list Z) : list Z := default [] (stream_digest transform len_bytes init out m).

Lemma md_hash_eq m : stream_digest transform len_bytes init out m = Some (md_hash m).
Proof.
  unfold md_hash. destruct (stream_digest_Some transform len_bytes init out transform_ok m) as [d ->]. done.
Qed.

Lemma md_updates_h c chunks c' :
  md_updates transform unit c chunks = Some c' -> h_updates md_vtable c chunks = Some (inr c').
Proof.
  revert c. induction chunks as [|d chunks IH]; intros c; cbn [md_updates h_updates].
  - by intros [= ->].
  - cbn [h_update md_vtable md_Update]. destruct (md_update _ _ _ _) as [c1|]; [|done].
    cbn [mbind option_bind]. apply IH.
Qed.

#[refine] Instance md_hash_ok : HashOk md_vtable := {| hash := md_hash |}.
Proof.
  - intros m. pose proof (md_hash_eq m) as E. unfold stream_digest in E.
    destruct (absorb _ _ _) as [[st r]|]; [|done]. cbn [mbind option_bind] in E. injection E as <-. apply out_ok.
  - intros chunks. destruct (md_stream transform unit len_bytes init out unit_ok transform_ok len_bytes_ok chunks)
      as (c & E & F & Hc).
    exists (md_init init), c. split; [done|]. split; [by apply md_updates_h|].
    cbn [h_final md_vtable md_Final]. rewrite Hc, bits_ok, F, md_hash_eq. done.
Defined.

(** The one-shot routine is the digest. *)
Lemma md_digest_spec m : md_digest (Some m) true = Some (inr (md_hash m)).
Proof.
  destruct (hash_stream (HashOk := md_hash_ok) [m]) as (c0 & c & E1 & E2 & E3). cbn [concat hash md_hash_ok] in E3.
  rewrite app_nil_r in E3. unfold md_digest. cbn [negb]. cbn [h_init md_vtable] in E1. rewrite E1.
  cbn [mbind option_bind]. cbn [h_updates h_update md_vtable] in E2.
  destruct (md_Update c0 (Some m)) as [[e|c1]|]; cbn [mbind option_bind] in *; [done| |done].
  injection E2 as ->. exact E3.
Qed.

End md_hash.
