(* ===== verification/Sha1.v ===== *)
(** * Sha1: the built-in SHA-1 ([libx/x/crypto/sha1_builtin.c]) *)

From S2P Require Import Prelude Errno Wire Md Hash.

Module Sha1.

Record state := State { h0 : Z; h1 : Z; h2 : Z; h3 : Z; h4 : Z }.

Definition rotl32 (x n : Z) : Z := Z.lor (u32 (Z.shiftl x n)) (Z.shiftr x (32 - n)).
Definition not32 (x : Z) : Z := u32 (Z.lnot x).

(** The 80 words: 16 from the block, then the recurrence, [n] words to go. *)
Fixpoint schedule (n : nat) (w : list Z) : ub (list Z) :=
  match n with
  | 0 => Some w
  | S n =>
      let i := length w in
      w3 ← w !! (i - 3); w8 ← w !! (i - 8); w14 ← w !! (i - 14); w16 ← w !! (i - 16);
      schedule n (w ++ [rotl32 (Z.lxor (Z.lxor (Z.lxor w3 w8) w14) w16) 1])
  end.

Definition round_fk (i : nat) (b c d : Z) : Z * Z :=
  if decide (i < 20) then (Z.lor (Z.land b c) (Z.land (not32 b) d), 0x5A827999%Z)
  else if decide (i < 40) then (Z.lxor (Z.lxor b c) d, 0x6ED9EBA1%Z)
  else if decide (i < 60) then (Z.lor (Z.lor (Z.land b c) (Z.land b d)) (Z.land c d), 0x8F1BBCDC%Z)
  else (Z.lxor (Z.lxor b c) d, 0xCA62C1D6%Z).

(** [n] rounds from round [i]. *)
Fixpoint rounds (n i : nat) (w : list Z) (s : state) : ub state :=
  match n with
  | 0 => Some s
  | S n =>
      wi ← w !! i;
      let '(f, k) := round_fk i (h1 s) (h2 s) (h3 s) in
      let temp := u32 (rotl32 (h0 s) 5 + f + h4 s + k + wi) in
      rounds n (S i) w (State temp (h0 s) (rotl32 (h1 s) 30) (h2 s) (h3 s))
  end.

Definition sha1_transform (st : state) (block : list Z) : ub state :=
  w ← mapM (fun i => get_be32 block (i * 4)) (seq 0 16);
  w ← schedule 64 w;
  s ← rounds 80 0 w st;
  Some (State (u32 (h0 st + h0 s)) (u32 (h1 st + h1 s)) (u32 (h2 st + h2 s)) (u32 (h3 st + h3 s))
              (u32 (h4 st + h4 s))).

Definition init : state := State 0x67452301 0xEFCDAB89 0x98BADCFE 0x10325476 0xC3D2E1F0.
Definition out (s : state) : list Z := be32 (h0 s) ++ be32 (h1 s) ++ be32 (h2 s) ++ be32 (h3 s) ++ be32 (h4 s).

Definition xSha1Init : res (md_ctx state) := md_Init init.
Definition xSha1Update : md_ctx state -> option (list Z) -> res (md_ctx state) := md_Update sha1_transform 8.
Definition xSha1Final : md_ctx state -> bool -> res (list Z) := md_Final sha1_transform 8 be64 out id.
Definition xSha1 : option (list Z) -> bool -> res (list Z) := md_digest sha1_transform 8 be64 init out id.

Definition xHashVtableSha1 : xHashVtable := md_vtable sha1_transform 8 be64 init out id 20 128.

(** ** The compression is defined on every block *)

Lemma sha1_schedule_Some n w : 16 <= length w -> exists w', schedule n w = Some w' /\ length w' = length w + n.
Proof.
  revert w. induction n as [|n IH]; intros w Hw; cbn [schedule]; [exists w; split; [done|lia]|].
  destruct (lookup_lt_is_Some_2 w (length w - 3)) as [x3 ->]; [lia|].
  destruct (lookup_lt_is_Some_2 w (length w - 8)) as [x8 ->]; [lia|].
  destruct (lookup_lt_is_Some_2 w (length w - 14)) as [x14 ->]; [lia|].
  destruct (lookup_lt_is_Some_2 w (length w - 16)) as [x16 ->]; [lia|]. cbn [mbind option_bind].
  destruct (IH (w ++ [rotl32 (Z.lxor (Z.lxor (Z.lxor x3 x8) x14) x16) 1])) as (w' & -> & Hw'); [rewrite length_app; lia|].
  exists w'. split; [done|]. rewrite Hw', length_app. cbn [length]. lia.
Qed.

Lemma sha1_rounds_Some n i w s : i + n <= length w -> is_Some (rounds n i w s).
Proof.
  revert i s. induction n as [|n IH]; intros i s Hi; cbn [rounds]; [by eexists|].
  destruct (lookup_lt_is_Some_2 w i) as [wi ->]; [lia|]. cbn [mbind option_bind].
  destruct (round_fk _ _ _ _). apply IH. lia.
Qed.

Lemma sha1_transform_Some st b : length b = 64 -> is_Some (sha1_transform st b).
Proof.
  intros Hb. unfold sha1_transform.
  apply (bind_is_Some _ _ (fun w => length w = 16)); [apply words_Some; [apply get_be32_Some|done]|intros w Hw].
  apply (bind_is_Some _ _ (fun w' => length w' = 80)).
  { destruct (sha1_schedule_Some 64 w) as (w' & E & Hw'); [lia|]. exists w'. split; [exact E|lia]. }
  intros w' Hw'. apply (bind_is_Some _ _ (fun _ => True)); [|by eexists].
  destruct (sha1_rounds_Some 80 0 w' st) as [s E]; [lia|]. by exists s.
Qed.

#[global] Instance sha1_ok : HashOk xHashVtableSha1.
Proof.
  apply md_hash_ok; [by left|apply sha1_transform_Some|done|done|by intros []].
Defined.

(** The FIPS 180 test vectors. *)
Example sha1_abc :
  xSha1 (Some [97; 98; 99]%Z) true =
    Some (inr [0xa9; 0x99; 0x3e; 0x36; 0x47; 0x06; 0x81; 0x6a; 0xba; 0x3e; 0x25; 0x71; 0x78; 0x50; 0xc2; 0x6c;
               0x9c; 0xd0; 0xd8; 0x9d]%Z).
Proof. vm_compute. reflexivity. Qed.

End Sha1.
