(* ===== verification/Sha256.v ===== *)
(** * Sha256: the built-in SHA-256 ([libx/x/crypto/sha256_builtin.c]) *)

From S2P Require Import Prelude Errno Wire Md Hash.

Module Sha256.

Record state := State { h0 : Z; h1 : Z; h2 : Z; h3 : Z; h4 : Z; h5 : Z; h6 : Z; h7 : Z }.

Definition rotr32 (x n : Z) : Z := Z.lor (Z.shiftr x n) (u32 (Z.shiftl x (32 - n))).
Definition not32 (x : Z) : Z := u32 (Z.lnot x).

Definition Ch (x y z : Z) : Z := Z.lxor (Z.land x y) (Z.land (not32 x) z).
Definition Maj (x y z : Z) : Z := Z.lxor (Z.lxor (Z.land x y) (Z.land x z)) (Z.land y z).
Definition Sigma0 (x : Z) : Z := Z.lxor (Z.lxor (rotr32 x 2) (rotr32 x 13)) (rotr32 x 22).
Definition Sigma1 (x : Z) : Z := Z.lxor (Z.lxor (rotr32 x 6) (rotr32 x 11)) (rotr32 x 25).
Definition sigma0 (x : Z) : Z := Z.lxor (Z.lxor (rotr32 x 7) (rotr32 x 18)) (Z.shiftr x 3).
Definition sigma1 (x : Z) : Z := Z.lxor (Z.lxor (rotr32 x 17) (rotr32 x 19)) (Z.shiftr x 10).

Definition K : list Z := (
  0x428a2f98 :: 0x71374491 :: 0xb5c0fbcf :: 0xe9b5dba5 ::
  0x3956c25b :: 0x59f111f1 :: 0x923f82a4 :: 0xab1c5ed5 ::
  0xd807aa98 :: 0x12835b01 :: 0x243185be :: 0x550c7dc3 ::
  0x72be5d74 :: 0x80deb1fe :: 0x9bdc06a7 :: 0xc19bf174 ::
  0xe49b69c1 :: 0xefbe4786 :: 0x0fc19dc6 :: 0x240ca1cc ::
  0x2de92c6f :: 0x4a7484aa :: 0x5cb0a9dc :: 0x76f988da ::
  0x983e5152 :: 0xa831c66d :: 0xb00327c8 :: 0xbf597fc7 ::
  0xc6e00bf3 :: 0xd5a79147 :: 0x06ca6351 :: 0x14292967 ::
  0x27b70a85 :: 0x2e1b2138 :: 0x4d2c6dfc :: 0x53380d13 ::
  0x650a7354 :: 0x766a0abb :: 0x81c2c92e :: 0x92722c85 ::
  0xa2bfe8a1 :: 0xa81a664b :: 0xc24b8b70 :: 0xc76c51a3 ::
  0xd192e819 :: 0xd6990624 :: 0xf40e3585 :: 0x106aa070 ::
  0x19a4c116 :: 0x1e376c08 :: 0x2748774c :: 0x34b0bcb5 ::
  0x391c0cb3 :: 0x4ed8aa4a :: 0x5b9cca4f :: 0x682e6ff3 ::
  0x748f82ee :: 0x78a5636f :: 0x84c87814 :: 0x8cc70208 ::
  0x90befffa :: 0xa4506ceb :: 0xbef9a3f7 :: 0xc67178f2 :: nil)%Z.

(** The words after the first sixteen, [n] to go. *)
Fixpoint schedule (n : nat) (w : list Z) : ub (list Z) :=
  match n with
  | 0 => Some w
  | S n =>
      let i := length w in
      w2 ← w !! (i - 2); w7 ← w !! (i - 7); w15 ← w !! (i - 15); w16 ← w !! (i - 16);
      schedule n (w ++ [u32 (sigma1 w2 + w7 + sigma0 w15 + w16)])
  end.

(** [n] rounds from round [i]. *)
Fixpoint rounds (n i : nat) (w : list Z) (s : state) : ub state :=
  match n with
  | 0 => Some s
  | S n =>
      k ← K !! i; wi ← w !! i;
      let t1 := u32 (h7 s + Sigma1 (h4 s) + Ch (h4 s) (h5 s) (h6 s) + k + wi) in
      let t2 := u32 (Sigma0 (h0 s) + Maj (h0 s) (h1 s) (h2 s)) in
      rounds n (S i) w
        (State (u32 (t1 + t2)) (h0 s) (h1 s) (h2 s) (u32 (h3 s + t1)) (h4 s) (h5 s) (h6 s))
  end.

Definition sha256_transform (st : state) (block : list Z) : ub state :=
  w ← mapM (fun i => get_be32 block (i * 4)) (seq 0 16);
  w ← schedule 48 w;
  s ← rounds 64 0 w st;
  Some (State (u32 (h0 st + h0 s)) (u32 (h1 st + h1 s)) (u32 (h2 st + h2 s)) (u32 (h3 st + h3 s))
              (u32 (h4 st + h4 s)) (u32 (h5 st + h5 s)) (u32 (h6 st + h6 s)) (u32 (h7 st + h7 s))).

Definition init : state :=
  State 0x6a09e667 0xbb67ae85 0x3c6ef372 0xa54ff53a 0x510e527f 0x9b05688c 0x1f83d9ab 0x5be0cd19.

Definition out (s : state) : list Z :=
  be32 (h0 s) ++ be32 (h1 s) ++ be32 (h2 s) ++ be32 (h3 s) ++
  be32 (h4 s) ++ be32 (h5 s) ++ be32 (h6 s) ++ be32 (h7 s).

Definition xSha256Init : res (md_ctx state) := md_Init init.
Definition xSha256Update : md_ctx state -> option (list Z) -> res (md_ctx state) := md_Update sha256_transform 8.
Definition xSha256Final : md_ctx state -> bool -> res (list Z) := md_Final sha256_transform 8 be64 out id.
Definition xSha256 : option (list Z) -> bool -> res (list Z) := md_digest sha256_transform 8 be64 init out id.

Definition xHashVtableSha256 : xHashVtable := md_vtable sha256_transform 8 be64 init out id 32 128.

Lemma sha256_schedule_Some n w : 16 <= length w -> exists w', schedule n w = Some w' /\ length w' = length w + n.
Proof.
  revert w. induction n as [|n IH]; intros w Hw; cbn [schedule]; [exists w; split; [done|lia]|].
  destruct (lookup_lt_is_Some_2 w (length w - 2)) as [x2 ->]; [lia|].
  destruct (lookup_lt_is_Some_2 w (length w - 7)) as [x7 ->]; [lia|].
  destruct (lookup_lt_is_Some_2 w (length w - 15)) as [x15 ->]; [lia|].
  destruct (lookup_lt_is_Some_2 w (length w - 16)) as [x16 ->]; [lia|]. cbn [mbind option_bind].
  destruct (IH (w ++ [u32 (sigma1 x2 + x7 + sigma0 x15 + x16)])) as (w' & -> & Hw'); [rewrite length_app; lia|].
  exists w'. split; [done|]. rewrite Hw', length_app. cbn [length]. lia.
Qed.

Lemma sha256_rounds_Some n i w s : i + n <= length w -> i + n <= 64 -> is_Some (rounds n i w s).
Proof.
  revert i s. induction n as [|n IH]; intros i s Hi H64; cbn [rounds]; [by eexists|].
  destruct (lookup_lt_is_Some_2 K i) as [k ->]; [change (length K) with 64; lia|].
  destruct (lookup_lt_is_Some_2 w i) as [wi ->]; [lia|]. cbn [mbind option_bind]. apply IH; lia.
Qed.

Lemma sha256_transform_Some st b : length b = 64 -> is_Some (sha256_transform st b).
Proof.
  intros Hb. unfold sha256_transform.
  apply (bind_is_Some _ _ (fun w => length w = 16)); [apply words_Some; [apply get_be32_Some|done]|intros w Hw].
  apply (bind_is_Some _ _ (fun w' => length w' = 64)).
  { destruct (sha256_schedule_Some 48 w) as (w' & E & Hw'); [lia|]. exists w'. split; [exact E|lia]. }
  intros w' Hw'. apply (bind_is_Some _ _ (fun _ => True)); [|by eexists].
  destruct (sha256_rounds_Some 64 0 w' st) as [s E]; [lia..|]. by exists s.
Qed.

#[global] Instance sha256_ok : HashOk xHashVtableSha256.
Proof.
  apply md_hash_ok; [by left|apply sha256_transform_Some|done|done|by intros []].
Defined.

Example sha256_abc :
  xSha256 (Some [97; 98; 99]%Z) true =
    Some (inr [0xba; 0x78; 0x16; 0xbf; 0x8f; 0x01; 0xcf; 0xea; 0x41; 0x41; 0x40; 0xde; 0x5d; 0xae; 0x22; 0x23;
               0xb0; 0x03; 0x61; 0xa3; 0x96; 0x17; 0x7a; 0x9c; 0xb4; 0x10; 0xff; 0x61; 0xf2; 0x00; 0x15; 0xad]%Z).
Proof. vm_compute. reflexivity. Qed.

End Sha256.
