(* ===== verification/Md5.v ===== *)
(** * Md5: MD5 ([libx/x/crypto/md5.c])

    [count] is in bytes here, words and lengths are little-endian. *)

From S2P Require Import Prelude Errno Wire Md Hash.

Module Md5.

Record state := State { h0 : Z; h1 : Z; h2 : Z; h3 : Z }.

Definition not32 (x : Z) : Z := u32 (Z.lnot x).
Definition md5_F (x y z : Z) : Z := Z.lor (Z.land x y) (Z.land (not32 x) z).
Definition md5_G (x y z : Z) : Z := Z.lor (Z.land x z) (Z.land y (not32 z)).
Definition md5_H (x y z : Z) : Z := Z.lxor (Z.lxor x y) z.
Definition md5_I (x y z : Z) : Z := Z.lxor y (Z.lor x (not32 z)).
Definition md5_rotl (x n : Z) : Z := Z.lor (u32 (Z.shiftl x n)) (Z.shiftr x (32 - n)).

Definition md5_T : list Z :=
  [0xd76aa478; 0xe8c7b756; 0x242070db; 0xc1bdceee; 0xf57c0faf; 0x4787c62a; 0xa8304613; 0xfd469501;
   0x698098d8; 0x8b44f7af; 0xffff5bb1; 0x895cd7be; 0x6b901122; 0xfd987193; 0xa679438e; 0x49b40821;
   0xf61e2562; 0xc040b340; 0x265e5a51; 0xe9b6c7aa; 0xd62f105d; 0x02441453; 0xd8a1e681; 0xe7d3fbc8;
   0x21e1cde6; 0xc33707d6; 0xf4d50d87; 0x455a14ed; 0xa9e3e905; 0xfcefa3f8; 0x676f02d9; 0x8d2a4c8a;
   0xfffa3942; 0x8771f681; 0x6d9d6122; 0xfde5380c; 0xa4beea44; 0x4bdecfa9; 0xf6bb4b60; 0xbebfbc70;
   0x289b7ec6; 0xeaa127fa; 0xd4ef3085; 0x04881d05; 0xd9d4d039; 0xe6db99e5; 0x1fa27cf8; 0xc4ac5665;
   0xf4292244; 0x432aff97; 0xab9423a7; 0xfc93a039; 0x655b59c3; 0x8f0ccc92; 0xffeff47d; 0x85845dd1;
   0x6fa87e4f; 0xfe2ce6e0; 0xa3014314; 0x4e0811a1; 0xf7537e82; 0xbd3af235; 0x2ad7d2bb; 0xeb86d391]%Z.

Definition md5_s : list Z :=
  [7; 12; 17; 22; 7; 12; 17; 22; 7; 12; 17; 22; 7; 12; 17; 22;
   5; 9; 14; 20; 5; 9; 14; 20; 5; 9; 14; 20; 5; 9; 14; 20;
   4; 11; 16; 23; 4; 11; 16; 23; 4; 11; 16; 23; 4; 11; 16; 23;
   6; 10; 15; 21; 6; 10; 15; 21; 6; 10; 15; 21; 6; 10; 15; 21]%Z.

(** The mixing function and the word index of round [i]. *)
Definition round_fg (i : nat) (b c d : Z) : Z * nat :=
  if decide (i < 16) then (md5_F b c d, i)
  else if decide (i < 32) then (md5_G b c d, (5 * i + 1) mod 16)
  else if decide (i < 48) then (md5_H b c d, (3 * i + 5) mod 16)
  else (md5_I b c d, (7 * i) mod 16).

(** [n] rounds from round [i]. *)
Fixpoint rounds (n i : nat) (M : list Z) (s : state) : ub state :=
  match n with
  | 0 => Some s
  | S n =>
      let '(f, g) := round_fg i (h1 s) (h2 s) (h3 s) in
      t ← md5_T !! i; m ← M !! g; r ← md5_s !! i;
      rounds n (S i) M
        (State (h3 s) (u32 (h1 s + md5_rotl (u32 (h0 s + f + t + m)) r)) (h1 s) (h2 s))
  end.

Definition md5_transform (st : state) (block : list Z) : ub state :=
  M ← mapM (fun i => get_le32 block (i * 4)) (seq 0 16);
  s ← rounds 64 0 M st;
  Some (State (u32 (h0 st + h0 s)) (u32 (h1 st + h1 s)) (u32 (h2 st + h2 s)) (u32 (h3 st + h3 s))).

Definition init : state := State 0x67452301 0xefcdab89 0x98badcfe 0x10325476.
Definition out (s : state) : list Z := le32 (h0 s) ++ le32 (h1 s) ++ le32 (h2 s) ++ le32 (h3 s).

(** [impl->count * 8] *)
Definition bits (count : Z) : Z := u64 (count * 8).

Definition xMd5Init : res (md_ctx state) := md_Init init.
Definition xMd5Update : md_ctx state -> option (list Z) -> res (md_ctx state) := md_Update md5_transform 1.
Definition xMd5Final : md_ctx state -> bool -> res (list Z) := md_Final md5_transform 1 le64 out bits.
Definition xMd5 : option (list Z) -> bool -> res (list Z) := md_digest md5_transform 1 le64 init out bits.

Definition xHashVtableMd5 : xHashVtable := md_vtable md5_transform 1 le64 init out bits 16 128.

Lemma md5_rounds_Some n i M s : length M = 16 -> i + n <= 64 -> is_Some (rounds n i M s).
Proof.
  intros HM. revert i s. induction n as [|n IH]; intros i s H64; cbn [rounds]; [by eexists|].
  destruct (round_fg i (h1 s) (h2 s) (h3 s)) as [f g] eqn:E.
  assert (g < 16) as Hg.
  { unfold round_fg in E. repeat case_decide; simplify_eq; try lia; apply Nat.mod_upper_bound; lia. }
  destruct (lookup_lt_is_Some_2 md5_T i) as [t ->]; [change (length md5_T) with 64; lia|].
  destruct (lookup_lt_is_Some_2 M g) as [m ->]; [lia|].
  destruct (lookup_lt_is_Some_2 md5_s i) as [r ->]; [change (length md5_s) with 64; lia|].
  cbn [mbind option_bind]. apply IH. lia.
Qed.

Lemma md5_transform_Some st b : length b = 64 -> is_Some (md5_transform st b).
Proof.
  intros Hb. unfold md5_transform.
  apply (bind_is_Some _ _ (fun w => length w = 16)); [apply words_Some; [apply get_le32_Some|done]|intros w Hw].
  apply (bind_is_Some _ _ (fun _ => True)); [|by eexists].
  destruct (md5_rounds_Some 64 0 w st) as [s E]; [lia..|]. by exists s.
Qed.

Lemma md5_bits_mod n : bits (u64 (1 * n)) = u64 (8 * n).
Proof. unfold bits, u64. Z.to_euclidean_division_equations. lia. Qed.

#[global] Instance md5_ok : HashOk xHashVtableMd5.
Proof.
  apply md_hash_ok; [by right|apply md5_transform_Some|done|apply md5_bits_mod|by intros []].
Defined.

Example md5_abc :
  xMd5 (Some [97; 98; 99]%Z) true =
    Some (inr [0x90; 0x01; 0x50; 0x98; 0x3c; 0xd2; 0x4f; 0xb0; 0xd6; 0x96; 0x3f; 0x7d; 0x28; 0xe1; 0x7f; 0x72]%Z).
Proof. vm_compute. reflexivity. Qed.

End Md5.
