(* ===== verification/Hmac.v ===== *)
(** * Hmac: keyed digests over any hash ([libx/x/crypto/hmac.c])

    The generic HMAC dispatches through [xHashVtable]; the theorems hold for
    every table that satisfies [HashOk], and are instantiated with the three
    digests of the library. *)

From S2P Require Import Prelude Errno Wire Md Hash Sha1 Sha256 Md5.

Definition HMAC_MAX_BLOCK_SIZE : nat := 128.
Definition HMAC_MAX_DIGEST_SIZE : nat := 64.
Definition HMAC_MAX_CTX_SIZE : nat := 256.

Definition xor_pad (k : list Z) (p : Z) : list Z := (fun b => Z.lxor b p) <$> k.

Section hmac.
Context (vt : xHashVtable).

(** An initialized [xHmacState_]; a zeroed one, whose [hash] is NULL, is
    [None].  The inner context is [None] when a hash routine failed on it. *)
Record xHmacState_ := HmacState { opad : list Z; inner_ctx : option (ctx vt) }.
Abbreviation xHmacCtx := (option xHmacState_).

(** [hmac_cleanup_] finalizes the inner context for its side effects and
    zeroes the state. *)
Definition hmac_cleanup_ (st : xHmacCtx) : xHmacCtx := None.

(** Hash the key into [k], an array of [block_size] zeros.  On failure the
    boolean says whether the state has been cleaned up. *)
Definition hash_key (key : list Z) : ub (xErrno * bool + list Z) :=
  r ← h_init vt;
  match r with
  | inl e => Some (inl (e, false))
  | inr c =>
      r ← h_update vt c (Some key);
      match r with
      | inl e => Some (inl (e, true))
      | inr c =>
          r ← h_final vt c true;
          match r with
          | inl e => Some (inl (e, true))
          | inr d => k ← mem_write (replicate (block_size vt) 0%Z) 0 d; Some (inr k)
          end
      end
  end.

Definition normalize_key (key : list Z) : ub (xErrno * bool + list Z) :=
  if decide (block_size vt < length key) then hash_key key
  else k ← mem_write (replicate (block_size vt) 0%Z) 0 key; Some (inr k).

(** The status and the context left behind. *)
Definition xHmacInit (key : option (list Z)) (ctx0 : xHmacCtx) : ub (xErrno * xHmacCtx) :=
  match key with
  | None => Some (xErrno_InvalidArg, ctx0)
  | Some key =>
      if decide (HMAC_MAX_BLOCK_SIZE < block_size vt) then Some (xErrno_InvalidArg, ctx0)
      else if decide (HMAC_MAX_DIGEST_SIZE < digest_size vt) then Some (xErrno_InvalidArg, ctx0)
      else if decide (HMAC_MAX_CTX_SIZE < ctx_size vt) then Some (xErrno_InvalidArg, ctx0)
      else
        r ← normalize_key key;
        match r with
        | inl (e, true) => Some (e, hmac_cleanup_ (Some (HmacState (replicate HMAC_MAX_BLOCK_SIZE 0%Z) None)))
        | inl (e, false) => Some (e, Some (HmacState (replicate HMAC_MAX_BLOCK_SIZE 0%Z) None))
        | inr k =>
            let ipad := xor_pad k 0x36 in
            let opad := xor_pad k 0x5C in
            r ← h_init vt;
            match r with
            | inl e => Some (e, Some (HmacState opad None))
            | inr c =>
                r ← h_update vt c (Some ipad);
                match r with
                | inl e => Some (e, hmac_cleanup_ (Some (HmacState opad None)))
                | inr c => Some (xErrno_Ok, Some (HmacState opad (Some c)))
                end
            end
        end
  end.

(** Undefined on a context whose inner hash is not live. *)
Definition xHmacUpdate (ctx0 : xHmacCtx) (data : option (list Z)) : ub (xErrno * xHmacCtx) :=
  match data, ctx0 with
  | Some data, Some st =>
      c ← inner_ctx st;
      r ← h_update vt c (Some data);
      match r with
      | inl e => Some (e, Some (HmacState (opad st) None))
      | inr c => Some (xErrno_Ok, Some (HmacState (opad st) (Some c)))
      end
  | _, _ => Some (xErrno_InvalidArg, ctx0)
  end.

(** The outer hash, over the inner digest. *)
Definition outer_hash (st : xHmacState_) (inner_digest : list Z) : ub (xErrno * option (list Z) * xHmacCtx) :=
  r ← h_init vt;
  match r with
  | inl e => Some (e, None, Some st)
  | inr c =>
      r ← h_update vt c (Some (opad st));
      match r with
      | inl e => Some (e, None, hmac_cleanup_ (Some st))
      | inr c =>
          r ← h_update vt c (Some inner_digest);
          match r with
          | inl e => Some (e, None, hmac_cleanup_ (Some st))
          | inr c =>
              r ← h_final vt c true;
              match r with
              | inl e => Some (e, None, None)
              | inr d => Some (xErrno_Ok, Some d, None)
              end
          end
      end
  end.

Definition xHmacFinal (ctx0 : xHmacCtx) (digest : bool) : ub (xErrno * option (list Z) * xHmacCtx) :=
  match ctx0 with
  | None => Some (xErrno_InvalidArg, None, None)
  | Some st =>
      if negb digest then Some (xErrno_InvalidArg, None, hmac_cleanup_ ctx0) else
      c ← inner_ctx st;
      r ← h_final vt c true;
      match r with
      | inl e => Some (e, None, Some (HmacState (opad st) None))
      | inr inner_digest => outer_hash (HmacState (opad st) None) inner_digest
      end
  end.

Definition xHmac (key data : option (list Z)) (digest : bool) : ub (xErrno * option (list Z)) :=
  match data with
  | None => Some (xErrno_InvalidArg, None)
  | Some _ =>
      '(e, c) ← xHmacInit key None;
      if negb (bool_decide (e = xErrno_Ok)) then Some (e, None) else
      '(e, c) ← xHmacUpdate c data;
      if negb (bool_decide (e = xErrno_Ok)) then Some (e, None) else
      '(e, d, c) ← xHmacFinal c digest;
      Some (e, d)
  end.

Fixpoint hmac_updates (c : xHmacCtx) (chunks : list (list Z)) : ub (xErrno * xHmacCtx) :=
  match chunks with
  | [] => Some (xErrno_Ok, c)
  | d :: chunks =>
      '(e, c) ← xHmacUpdate c (Some d);
      if negb (bool_decide (e = xErrno_Ok)) then Some (e, c) else hmac_updates c chunks
  end.

(** ** The specification: RFC 2104 *)

Definition padded_key (H : list Z -> list Z) (key : list Z) : list Z :=
  let k := if decide (block_size vt < length key) then H key else key in
  k ++ replicate (block_size vt - length k) 0%Z.

Definition hmac_spec (H : list Z -> list Z) (key msg : list Z) : list Z :=
  let k := padded_key H key in
  H (xor_pad k 0x5C ++ H (xor_pad k 0x36 ++ msg)).

Context `{!HashOk vt}.

(** One run over the interface, its first update taken apart. *)
Lemma hash_run d chunks :
  exists c0 c1 c, h_init vt = Some (inr c0) /\ h_update vt c0 (Some d) = Some (inr c1) /\
    h_updates vt c1 chunks = Some (inr c) /\ h_final vt c true = Some (inr (hash vt (d ++ concat chunks))).
Proof.
  destruct (hash_stream (d :: chunks)) as (c0 & c & E1 & E2 & E3). cbn [h_updates] in E2.
  destruct (h_update vt c0 (Some d)) as [[e|c1]|] eqn:E; cbn [mbind option_bind] in E2; [done| |done].
  exists c0, c1, c. done.
Qed.

Lemma hash_key_spec key :
  digest_size vt <= block_size vt ->
  hash_key key = Some (inr (hash vt key ++ replicate (block_size vt - length (hash vt key)) 0%Z)).
Proof.
  intros Hd. destruct (hash_run key []) as (c0 & c1 & c & E1 & E2 & E3 & E4). unfold hash_key.
  rewrite E1. cbn [mbind option_bind]. rewrite E2. cbn [mbind option_bind]. cbn in E3. injection E3 as ->.
  rewrite E4. cbn [mbind option_bind concat]. rewrite app_nil_r. pose proof (hash_length key).
  rewrite mem_write_Some by (rewrite length_replicate; lia). cbn [mbind option_bind].
  rewrite take_0, app_nil_l, drop_replicate. done.
Qed.

Lemma normalize_key_spec key :
  digest_size vt <= block_size vt -> normalize_key key = Some (inr (padded_key (hash vt) key)).
Proof.
  intros Hd. unfold normalize_key, padded_key. case_decide; [by apply hash_key_spec|].
  rewrite mem_write_Some by (rewrite length_replicate; lia). cbn [mbind option_bind].
  by rewrite take_0, app_nil_l, drop_replicate.
Qed.

Lemma hmac_updates_h o c chunks c' :
  h_updates vt c chunks = Some (inr c') ->
  hmac_updates (Some (HmacState o (Some c))) chunks = Some (xErrno_Ok, Some (HmacState o (Some c'))).
Proof.
  revert c. induction chunks as [|d chunks IH]; intros c; cbn [h_updates hmac_updates]; [by intros [= ->]|].
  cbn [xHmacUpdate inner_ctx mbind option_bind opad].
  destruct (h_update vt c (Some d)) as [[e|c1]|]; cbn [mbind option_bind]; [done| |done]. apply IH.
Qed.

Lemma hmac_run key chunks ctx0 :
  block_size vt <= HMAC_MAX_BLOCK_SIZE -> digest_size vt <= HMAC_MAX_DIGEST_SIZE ->
  ctx_size vt <= HMAC_MAX_CTX_SIZE -> digest_size vt <= block_size vt ->
  exists c c', xHmacInit (Some key) ctx0 = Some (xErrno_Ok, c) /\ hmac_updates c chunks = Some (xErrno_Ok, c') /\
    xHmacFinal c' true = Some (xErrno_Ok, Some (hmac_spec (hash vt) key (concat chunks)), None).
Proof.
  intros H1 H2 H3 H4. unfold xHmacInit. rewrite !decide_False by lia.
  rewrite normalize_key_spec by done. cbn [mbind option_bind].
  set (k := padded_key (hash vt) key).
  destruct (hash_run (xor_pad k 0x36) chunks) as (c0 & c1 & c & E1 & E2 & E3 & E4). cbv zeta.
  rewrite E1. cbn [mbind option_bind]. rewrite E2. cbn [mbind option_bind]. eexists _, _. split; [done|]. split; [by apply hmac_updates_h|].
  cbn [xHmacFinal negb inner_ctx mbind option_bind]. rewrite E4. cbn [mbind option_bind opad].
  unfold outer_hash, hmac_spec. fold k. set (inner := hash vt _). cbn [opad].
  destruct (hash_run (xor_pad k 0x5C) [inner]) as (d0 & d1 & d & F1 & F2 & F3 & F4).
  rewrite F1. cbn [mbind option_bind]. rewrite F2. cbn [mbind option_bind]. cbn [h_updates] in F3.
  destruct (h_update vt d1 (Some inner)) as [[e|d2]|]; cbn [mbind option_bind] in F3 |- *; [done| |done].
  injection F3 as ->. rewrite F4. cbn [mbind option_bind concat]. by rewrite app_nil_r.
Qed.

Lemma xHmac_spec key msg :
  block_size vt <= HMAC_MAX_BLOCK_SIZE -> digest_size vt <= HMAC_MAX_DIGEST_SIZE ->
  ctx_size vt <= HMAC_MAX_CTX_SIZE -> digest_size vt <= block_size vt ->
  xHmac (Some key) (Some msg) true = Some (xErrno_Ok, Some (hmac_spec (hash vt) key msg)).
Proof.
  intros H1 H2 H3 H4. destruct (hmac_run key [msg] None H1 H2 H3 H4) as (c & c' & E1 & E2 & E3).
  unfold xHmac. rewrite E1. cbn [mbind option_bind]. rewrite bool_decide_eq_true_2 by done. cbn [negb].
  cbn [hmac_updates] in E2. destruct (xHmacUpdate c (Some msg)) as [[e c2]|]; cbn [mbind option_bind] in *; [|done].
  destruct (bool_decide_reflect (e = xErrno_Ok)) as [|Hne]; cbn [negb] in *; [|congruence].
  injection E2 as ->. rewrite E3. cbn [mbind option_bind concat]. by rewrite app_nil_r.
Qed.

End hmac.

Definition xHmacSha1 (key data : option (list Z)) (digest : bool) := xHmac Sha1.xHashVtableSha1 key data digest.
Definition xHmacSha256 (key data : option (list Z)) (digest : bool) := xHmac Sha256.xHashVtableSha256 key data digest.
Definition xHmacMd5 (key data : option (list Z)) (digest : bool) := xHmac Md5.xHashVtableMd5 key data digest.

(** ** Properties *)

(** C32: for each of the three digests, cutting the message into updates in any
    way, across block boundaries or not, gives the digest of the whole: padding
    to a multiple of 64 bytes with the bit length, compressed block by block;
    no update or finalization fails or leaves its buffers, and the one-shot
    function computes the same. *)
Theorem digests_stream chunks :
  (exists c0 c, Sha1.xSha1Init = Some (inr c0) /\ h_updates Sha1.xHashVtableSha1 c0 chunks = Some (inr c) /\
     Sha1.xSha1Final c true = Some (inr (hash Sha1.xHashVtableSha1 (concat chunks)))) /\
  (exists c0 c, Sha256.xSha256Init = Some (inr c0) /\ h_updates Sha256.xHashVtableSha256 c0 chunks = Some (inr c) /\
     Sha256.xSha256Final c true = Some (inr (hash Sha256.xHashVtableSha256 (concat chunks)))) /\
  (exists c0 c, Md5.xMd5Init = Some (inr c0) /\ h_updates Md5.xHashVtableMd5 c0 chunks = Some (inr c) /\
     Md5.xMd5Final c true = Some (inr (hash Md5.xHashVtableMd5 (concat chunks)))) /\
  Sha1.xSha1 (Some (concat chunks)) true = Some (inr (hash Sha1.xHashVtableSha1 (concat chunks))) /\
  Sha256.xSha256 (Some (concat chunks)) true = Some (inr (hash Sha256.xHashVtableSha256 (concat chunks))) /\
  Md5.xMd5 (Some (concat chunks)) true = Some (inr (hash Md5.xHashVtableMd5 (concat chunks))).
Proof.
  split; [apply (hash_stream (vt := Sha1.xHashVtableSha1))|].
  split; [apply (hash_stream (vt := Sha256.xHashVtableSha256))|].
  split; [apply (hash_stream (vt := Md5.xHashVtableMd5))|].
  split; [apply (md_digest_spec _ _ _ _ _ _ 20 128); [by left|apply Sha1.sha1_transform_Some|done|done|by intros []]|].
  split; [apply (md_digest_spec _ _ _ _ _ _ 32 128); [by left|apply Sha256.sha256_transform_Some|done|done|by intros []]|].
  apply (md_digest_spec _ _ _ _ _ _ 16 128); [by right|apply Md5.md5_transform_Some|done|apply Md5.md5_bits_mod|by intros []].
Qed.

(** C33: HMAC over any table that keeps the digest contract, with keys shorter
    and longer than a block and the data in any number of updates, computes
    H((K xor opad) ++ H((K xor ipad) ++ data)) and leaves the context zeroed;
    the one-shot function computes the same. *)
Theorem hmac_spec_streaming vt `{!HashOk vt} key chunks ctx0 :
  block_size vt <= HMAC_MAX_BLOCK_SIZE -> digest_size vt <= HMAC_MAX_DIGEST_SIZE ->
  ctx_size vt <= HMAC_MAX_CTX_SIZE -> digest_size vt <= block_size vt ->
  (exists c c', xHmacInit vt (Some key) ctx0 = Some (xErrno_Ok, c) /\
     hmac_updates vt c chunks = Some (xErrno_Ok, c') /\
     xHmacFinal vt c' true = Some (xErrno_Ok, Some (hmac_spec vt (hash vt) key (concat chunks)), None)) /\
  xHmac vt (Some key) (Some (concat chunks)) true =
    Some (xErrno_Ok, Some (hmac_spec vt (hash vt) key (concat chunks))).
Proof. intros H1 H2 H3 H4. split; [by apply hmac_run|by apply xHmac_spec]. Qed.

(** HMAC-SHA1 of "what do ya want for nothing?" under the key "Jefe", the
    second vector of RFC 2202. *)
Lemma hmac_spec_streaming_witness :
  let key := [74; 101; 102; 101]%Z in
  let data := [119; 104; 97; 116; 32; 100; 111; 32; 121; 97; 32; 119; 97; 110; 116; 32; 102; 111; 114; 32; 110; 111;
               116; 104; 105; 110; 103; 63]%Z in
  xHmacSha1 (Some key) (Some data) true =
    Some (xErrno_Ok, Some (hmac_spec Sha1.xHashVtableSha1 (hash Sha1.xHashVtableSha1) key data)) /\
  xHmacSha1 (Some key) (Some data) true =
    Some (xErrno_Ok, Some [0xef; 0xfc; 0xdf; 0x6a; 0xe5; 0xeb; 0x2f; 0xa2; 0xd2; 0x74; 0x16; 0xd5; 0xf1; 0x84; 0xdf;
                           0x9c; 0x25; 0x9a; 0x7c; 0x79]%Z).
Proof.
  split; [|vm_compute; reflexivity].
  destruct (hmac_spec_streaming Sha1.xHashVtableSha1 [74; 101; 102; 101]%Z
    [[119; 104; 97; 116; 32; 100; 111; 32; 121; 97; 32]%Z;
     [119; 97; 110; 116; 32; 102; 111; 114; 32; 110; 111; 116; 104; 105; 110; 103; 63]%Z] None) as [_ H].
  - cbn. unfold HMAC_MAX_BLOCK_SIZE. lia.
  - cbn. unfold HMAC_MAX_DIGEST_SIZE. lia.
  - cbn. unfold HMAC_MAX_CTX_SIZE. lia.
  - cbn. lia.
  - exact H.
Defined.
