(* ===== verification/Crc32.v ===== *)
(** * Crc32: the table-driven CRC-32 ([libx/x/crypto/crc32.c]) *)

From S2P Require Import Prelude Wire.

Definition POLY : Z := 0xEDB88320.

(** One round of [crc32_compute_entry]'s loop. *)
Definition crc32_bit (crc : Z) : Z :=
  if negb (Z.land crc 1 =? 0)%Z then Z.lxor (Z.shiftr crc 1) POLY else Z.shiftr crc 1.

Fixpoint crc32_bits (n : nat) (crc : Z) : Z :=
  match n with 0 => crc | S n => crc32_bits n (crc32_bit crc) end.

Definition crc32_compute_entry (index : Z) : Z := crc32_bits 8 index.

(** The static table and its flag. *)
Record crc32_static := Static { crc32_table_initialized : bool; crc32_table : list Z }.

Definition static0 : crc32_static := Static false (replicate 256 0%Z).

Fixpoint fill_table (n i : nat) (t : list Z) : ub (list Z) :=
  match n with
  | 0 => Some t
  | S n => t ← mem_set t i (crc32_compute_entry (Z.of_nat i)); fill_table n (S i) t
  end.

Definition crc32_init_table (s : crc32_static) : ub crc32_static :=
  if crc32_table_initialized s then Some s
  else t ← fill_table 256 0 (crc32_table s); Some (Static true t).

Fixpoint crc32_loop (t : list Z) (crc : Z) (data : list Z) : ub Z :=
  match data with
  | [] => Some crc
  | d :: data =>
      e ← t !! Z.to_nat (Z.land (Z.lxor crc d) 0xFF);
      crc32_loop t (Z.lxor e (Z.shiftr crc 8)) data
  end.

(** The checksum and the static data after the call. *)
Definition xCrc32 (s : crc32_static) (data : list Z) : ub (Z * crc32_static) :=
  s ← crc32_init_table s;
  crc ← crc32_loop (crc32_table s) 0xFFFFFFFF data;
  Some (Z.lxor crc 0xFFFFFFFF, s).

(** ** The reference: one bit at a time, no table *)

Fixpoint crc_ref_loop (crc : Z) (data : list Z) : Z :=
  match data with
  | [] => crc
  | d :: data => crc_ref_loop (crc32_bits 8 (Z.lxor crc d)) data
  end.

Definition crc_ref (data : list Z) : Z := Z.lxor (crc_ref_loop 0xFFFFFFFF data) 0xFFFFFFFF.

(** ** Linearity *)

Lemma land_1_odd x : Z.land x 1 = Z.b2z (Z.odd x).
Proof. change 1%Z with (Z.ones 1). rewrite Z.land_ones by lia. change (2 ^ 1)%Z with 2%Z. apply Zmod_odd. Qed.

Lemma crc32_bit_alt x : crc32_bit x = Z.lxor (Z.shiftr x 1) (if Z.odd x then POLY else 0%Z).
Proof. unfold crc32_bit. rewrite land_1_odd. destruct (Z.odd x); cbn [Z.b2z Z.eqb negb]; [done|]. by rewrite Z.lxor_0_r. Qed.

Lemma odd_lxor x y : Z.odd (Z.lxor x y) = xorb (Z.odd x) (Z.odd y).
Proof. rewrite <- !Z.bit0_odd. apply Z.lxor_spec. Qed.

Lemma crc32_bit_lxor x y : crc32_bit (Z.lxor x y) = Z.lxor (crc32_bit x) (crc32_bit y).
Proof.
  rewrite !crc32_bit_alt, odd_lxor, Z.shiftr_lxor.
  apply Z.bits_inj'. intros n Hn. rewrite !Z.lxor_spec.
  destruct (Z.odd x), (Z.odd y); cbn [xorb]; rewrite ?Z.bits_0;
    destruct (Z.testbit (Z.shiftr x 1) n), (Z.testbit (Z.shiftr y 1) n), (Z.testbit POLY n); done.
Qed.

Lemma crc32_bits_lxor n x y : crc32_bits n (Z.lxor x y) = Z.lxor (crc32_bits n x) (crc32_bits n y).
Proof. revert x y. induction n as [|n IH]; intros x y; cbn [crc32_bits]; [done|]. by rewrite crc32_bit_lxor, IH. Qed.

Lemma crc32_bits_shiftl n y : crc32_bits n (Z.shiftl y (Z.of_nat n)) = y.
Proof.
  revert y. induction n as [|n IH]; intros y; cbn [crc32_bits]; [apply Z.shiftl_0_r|].
  rewrite crc32_bit_alt.
  assert (Z.odd (Z.shiftl y (Z.of_nat (S n))) = false) as ->.
  { rewrite <- Z.bit0_odd, Z.shiftl_spec_low by lia. done. }
  rewrite Z.lxor_0_r, Z.shiftr_shiftl_l by lia.
  replace (Z.of_nat (S n) - 1)%Z with (Z.of_nat n) by lia. apply IH.
Qed.

(** Eight bit steps are one table step. *)
Lemma crc32_byte x :
  (0 <= x)%Z -> crc32_bits 8 x = Z.lxor (crc32_bits 8 (Z.land x 0xFF)) (Z.shiftr x 8).
Proof.
  intros Hx. assert (x = Z.lxor (Z.land x 0xFF) (Z.shiftl (Z.shiftr x 8) 8)) as Ex.
  { apply Z.bits_inj'. intros n Hn. rewrite Z.lxor_spec, Z.land_spec. change 0xFF%Z with (Z.ones 8).
    destruct (Z.ltb_spec n 8).
    - rewrite Z.ones_spec_low, Z.shiftl_spec_low by lia. by rewrite andb_true_r, xorb_false_r.
    - rewrite Z.ones_spec_high, Z.shiftl_spec_high, Z.shiftr_spec by lia.
      rewrite andb_false_r, xorb_false_l. f_equal. lia. }
  rewrite Ex at 1. rewrite crc32_bits_lxor. f_equal. apply (crc32_bits_shiftl 8).
Qed.

(** ** The table *)

Lemma fill_table_spec n i t :
  length t = i + n -> exists t', fill_table n i t = Some t' /\ length t' = i + n /\
    (forall k, k < i -> t' !! k = t !! k) /\
    (forall k, i <= k < i + n -> t' !! k = Some (crc32_compute_entry (Z.of_nat k))).
Proof.
  revert i t. induction n as [|n IH]; intros i t Ht; cbn [fill_table].
  { exists t. split; [done|]. split; [lia|]. split; [done|]. lia. }
  rewrite mem_set_Some by lia. cbn [mbind option_bind].
  destruct (IH (S i) (<[i:=crc32_compute_entry (Z.of_nat i)]> t)) as (t' & -> & Hl & H1 & H2);
    [rewrite length_insert; lia|].
  exists t'. split; [done|]. split; [lia|]. split.
  - intros k Hk. rewrite H1 by lia. by rewrite list_lookup_insert_ne by lia.
  - intros k Hk. destruct (decide (k = i)) as [->|].
    + rewrite H1 by lia. apply list_lookup_insert_eq. lia.
    + apply H2. lia.
Qed.

Definition table_ok (t : list Z) : Prop :=
  forall k, k < 256 -> t !! k = Some (crc32_compute_entry (Z.of_nat k)).

(** The static data as any sequence of calls leaves it. *)
Definition static_ok (s : crc32_static) : Prop :=
  if crc32_table_initialized s then table_ok (crc32_table s) else length (crc32_table s) = 256.

Lemma crc32_init_table_spec s :
  static_ok s -> exists s', crc32_init_table s = Some s' /\ crc32_table_initialized s' = true /\ table_ok (crc32_table s').
Proof.
  unfold static_ok, crc32_init_table. destruct s as [[] t]; cbn [crc32_table_initialized crc32_table].
  - intros H. by eexists.
  - intros H. destruct (fill_table_spec 256 0 t H) as (t' & -> & _ & _ & H2). cbn [mbind option_bind].
    eexists. split; [done|]. split; [done|]. intros k Hk. apply H2. lia.
Qed.

Lemma lxor_nonneg2 x y : (0 <= x)%Z -> (0 <= y)%Z -> (0 <= Z.lxor x y)%Z.
Proof. intros. by apply Z.lxor_nonneg. Qed.

Lemma crc32_bits_nonneg n x : (0 <= x)%Z -> (0 <= crc32_bits n x)%Z.
Proof.
  revert x. induction n as [|n IH]; intros x Hx; cbn [crc32_bits]; [done|]. apply IH.
  rewrite crc32_bit_alt. apply lxor_nonneg2; [by apply Z.shiftr_nonneg|]. by destruct (Z.odd x).
Qed.

Lemma crc32_loop_spec t crc data :
  table_ok t -> (0 <= crc)%Z -> bytes_ok data -> crc32_loop t crc data = Some (crc_ref_loop crc data).
Proof.
  intros Ht. revert crc. induction data as [|d data IH]; intros crc Hc Hd; cbn [crc32_loop crc_ref_loop]; [done|].
  apply Forall_cons in Hd as [Hd Hds].
  pose proof (lxor_nonneg2 crc d Hc (proj1 Hd)) as Hx.
  pose proof (land_bound (Z.lxor crc d) 0xFF Hx ltac:(lia)) as Hl.
  rewrite Ht by lia. cbn [mbind option_bind]. rewrite Z2Nat.id by lia.
  assert (Z.lxor (crc32_compute_entry (Z.land (Z.lxor crc d) 0xFF)) (Z.shiftr crc 8) = crc32_bits 8 (Z.lxor crc d)) as ->.
  { rewrite (crc32_byte (Z.lxor crc d) Hx). unfold crc32_compute_entry. f_equal. rewrite Z.shiftr_lxor.
    rewrite (Z.shiftr_div_pow2 d) by lia. rewrite (Z.div_small d) by (destruct Hd; lia). by rewrite Z.lxor_0_r. }
  apply IH; [by apply crc32_bits_nonneg|done].
Qed.

Lemma xCrc32_spec s data :
  static_ok s -> bytes_ok data -> exists s', xCrc32 s data = Some (crc_ref data, s') /\ static_ok s'.
Proof.
  intros Hs Hd. unfold xCrc32. destruct (crc32_init_table_spec s Hs) as (s' & -> & Hi & Ht).
  cbn [mbind option_bind]. rewrite crc32_loop_spec by (done || lia). cbn [mbind option_bind].
  exists s'. split; [done|]. unfold static_ok. by rewrite Hi.
Qed.

Lemma crc32_bits_range n x : (0 <= x < 2 ^ 32)%Z -> (0 <= crc32_bits n x < 2 ^ 32)%Z.
Proof.
  revert x. induction n as [|n IH]; intros x Hx; cbn [crc32_bits]; [done|]. apply IH.
  rewrite crc32_bit_alt. apply lxor_range; [lia| |].
  - rewrite Z.shiftr_div_pow2 by lia. split; [apply Z.div_pos; lia|apply Z.div_lt_upper_bound; lia].
  - destruct (Z.odd x); unfold POLY; lia.
Qed.

Lemma crc_ref_range data : bytes_ok data -> (0 <= crc_ref data < 2 ^ 32)%Z.
Proof.
  intros Hd. unfold crc_ref. apply lxor_range; [lia| |lia].
  assert (0 <= 0xFFFFFFFF < 2 ^ 32)%Z as H by lia. revert H. generalize 0xFFFFFFFF%Z. intros crc Hc.
  revert crc Hc. induction Hd as [|d data Hb _ IH]; intros crc Hc; cbn [crc_ref_loop]; [done|].
  apply IH, crc32_bits_range, lxor_range; [lia|done|]. destruct Hb. lia.
Qed.

(** C34: the table-driven [xCrc32], on the first call and on every later one,
    equals the bit-serial definition of the polynomial, for all data; the
    lookups stay inside the table. *)
Theorem crc32_table_equiv s data :
  static_ok s -> bytes_ok data -> exists s', xCrc32 s data = Some (crc_ref data, s') /\ static_ok s'.
Proof. apply xCrc32_spec. Qed.

(** The check value of the standard: "123456789" gives 0xCBF43926. *)
Lemma crc32_table_equiv_witness :
  (exists s', xCrc32 static0 [49; 50; 51; 52; 53; 54; 55; 56; 57]%Z =
     Some (crc_ref [49; 50; 51; 52; 53; 54; 55; 56; 57]%Z, s') /\ static_ok s') /\
  crc_ref [49; 50; 51; 52; 53; 54; 55; 56; 57]%Z = 0xCBF43926%Z.
Proof.
  split; [|vm_compute; reflexivity]. apply (crc32_table_equiv static0); [reflexivity|].
  repeat constructor; unfold byte_ok; lia.
Defined.
