(* ===== verification/Stun.v ===== *)
(** * Stun: STUN messages and attributes ([libx/x/p2p/stun_msg.c],
    [stun_attr.c])

    A message lives in a block of bytes.  Readers hold pointers, a block with
    an offset; the writer's buffer is given by its offset in the block that the
    write operations return changed.  Offsets inside a block are [nat]. *)

From S2P Require Import Prelude Errno Wire Md Hash Sha1 Hmac Crc32.

Definition XSTUN_MAGIC_COOKIE : Z := 0x2112A442.
Definition XSTUN_HEADER_SIZE : nat := 20.
Definition XSTUN_TXN_ID_SIZE : nat := 12.
Definition XSTUN_ATTR_HEADER_SIZE : nat := 4.
Definition XSTUN_SHA1_DIGEST_SIZE : nat := 20.
Definition XSTUN_FINGERPRINT_XOR : Z := 0x5354554E.

Definition XSTUN_ALIGN4 (n : nat) : nat := Z.to_nat (Z.land (Z.of_nat n + 3) (Z.lnot 3)).

Definition XSTUN_MSG_METHOD (type : Z) : Z :=
  Z.lor (Z.lor (Z.land type 0x000F) (Z.shiftr (Z.land type 0x00E0) 1)) (Z.shiftr (Z.land type 0x3E00) 2).
Definition XSTUN_MSG_CLASS (type : Z) : Z :=
  Z.lor (Z.shiftr (Z.land type 0x0010) 4) (Z.shiftr (Z.land type 0x0100) 7).

Definition ptr : Type := list Z * nat.

Definition read (p : ptr) (off n : nat) : ub (list Z) := mem_read p.1 (p.2 + off) n.
Definition read_u8 (p : ptr) (off : nat) : ub Z := p.1 !! (p.2 + off).
Definition read_u16 (p : ptr) (off : nat) : ub Z := get_be16 p.1 (p.2 + off).
Definition read_u32 (p : ptr) (off : nat) : ub Z := get_be32 p.1 (p.2 + off).

(** ** Messages *)

Record xStunMsg := Msg {
  m_type : Z;
  m_length : Z;
  txn_id : list Z;
  attrs : option ptr;
  attrs_len : Z;
}.

Definition xStunMsgInit (type : Z) (txn : list Z) : ub xStunMsg :=
  t ← mem_read txn 0 XSTUN_TXN_ID_SIZE; Some (Msg type 0 t None 0).

(** The encoded message, [-1] as [fail]. *)
Definition xStunMsgEncode (msg : xStunMsg) (buf : list Z) (buf_len : Z) : fallible (list Z * Z) :=
  let total := (20 + attrs_len msg)%Z in
  if (buf_len <? total)%Z then fail else
  b ⇐ lift (mem_write buf 0 (be16 (m_type msg)));
  b ⇐ lift (mem_write b 2 (be16 (attrs_len msg)));
  b ⇐ lift (mem_write b 4 (be32 XSTUN_MAGIC_COOKIE));
  b ⇐ lift (mem_write b 8 (txn_id msg));
  match attrs msg with
  | Some p =>
      if (0 <? attrs_len msg)%Z then
        src ⇐ lift (read p 0 (Z.to_nat (attrs_len msg)));
        b ⇐ lift (mem_write b XSTUN_HEADER_SIZE src);
        ok (b, total)
      else ok (b, total)
  | None => ok (b, total)
  end.

(** The status, and the message on success. *)
Definition xStunMsgDecode (buf : ptr) (buf_len : Z) : ub (xErrno * option xStunMsg) :=
  if (buf_len <? 20)%Z then Some (xErrno_InvalidArg, None) else
  b0 ← read_u8 buf 0;
  if negb (Z.land b0 0xC0 =? 0)%Z then Some (xErrno_InvalidArg, None) else
  cookie ← read_u32 buf 4;
  if negb (cookie =? XSTUN_MAGIC_COOKIE)%Z then Some (xErrno_InvalidArg, None) else
  type ← read_u16 buf 0;
  len ← read_u16 buf 2;
  if (buf_len <? 20 + len)%Z then Some (xErrno_InvalidArg, None) else
  txn ← read buf 8 XSTUN_TXN_ID_SIZE;
  Some (xErrno_Ok, Some (Msg type len txn (if (0 <? len)%Z then Some (buf.1, buf.2 + XSTUN_HEADER_SIZE) else None) len)).

Definition xStunMsgIsStun (buf : option ptr) (buf_len : Z) : ub bool :=
  match buf with
  | None => Some false
  | Some buf =>
      if (buf_len <? 20)%Z then Some false else
      b0 ← read_u8 buf 0;
      if negb (Z.land b0 0xC0 =? 0)%Z then Some false else
      cookie ← read_u32 buf 4;
      Some (cookie =? XSTUN_MAGIC_COOKIE)%Z
  end.

(** ** Attribute writer *)

Record xStunAttrWriter := Writer { w_buf : nat; w_cap : nat; w_pos : nat }.

Definition xStunAttrWriterInit (buf cap : nat) : xStunAttrWriter := Writer buf cap 0.

(** The status, and the writer and block after the call. *)
Abbreviation written := (ub (xErrno * (xStunAttrWriter * list Z))).

Definition attr_write_raw (w : xStunAttrWriter) (m : list Z) (type : Z) (value : option (list Z)) (value_len : nat)
    : written :=
  let padded := XSTUN_ALIGN4 value_len in
  let total := XSTUN_ATTR_HEADER_SIZE + padded in
  if decide (w_cap w < w_pos w + total) then Some (xErrno_NoMemory, (w, m)) else
  let p := w_buf w + w_pos w in
  m ← mem_write m p (be16 type);
  m ← mem_write m (p + 2) (be16 (Z.of_nat value_len));
  m ← (match value with
       | Some v =>
           if decide (0 < value_len) then
             src ← mem_read v 0 value_len; mem_write m (p + XSTUN_ATTR_HEADER_SIZE) src
           else Some m
       | None => Some m
       end);
  m ← (if decide (value_len < padded) then
         mem_write m (p + XSTUN_ATTR_HEADER_SIZE + value_len) (replicate (padded - value_len) 0%Z)
       else Some m);
  Some (xErrno_Ok, (Writer (w_buf w) (w_cap w) (w_pos w + total), m)).

(** Socket addresses, the port and IPv4 address after [ntohs]/[ntohl]. *)
Inductive sockaddr :=
  | SockInet (port ip : Z)
  | SockInet6 (port : Z) (addr : list Z)
  | SockOther.

(** The magic cookie and the transaction id. *)
Definition xor_key (txn : option (list Z)) : ub (list Z) :=
  t ← txn; t ← mem_read t 0 XSTUN_TXN_ID_SIZE; Some (be32 XSTUN_MAGIC_COOKIE ++ t).

Definition xor_port (xor : bool) (port : Z) : Z :=
  if xor then Z.lxor port (u16 (Z.shiftr XSTUN_MAGIC_COOKIE 16)) else port.

Definition encode_address (w : xStunAttrWriter) (m : list Z) (attr_type : Z) (addr : sockaddr) (xor_encode : bool)
    (txn : option (list Z)) : written :=
  match addr with
  | SockInet port ip =>
      let ip := if xor_encode then Z.lxor ip XSTUN_MAGIC_COOKIE else ip in
      attr_write_raw w m attr_type (Some ([0; 1]%Z ++ be16 (xor_port xor_encode port) ++ be32 ip)) 8
  | SockInet6 port addr =>
      bytes ← (if xor_encode then key ← xor_key txn; Some (zip_with Z.lxor addr key) else Some addr);
      attr_write_raw w m attr_type (Some ([0; 2]%Z ++ be16 (xor_port xor_encode port) ++ bytes)) 20
  | SockOther => Some (xErrno_InvalidArg, (w, m))
  end.

Definition xStunAttrWriteXorMappedAddress w m addr txn : written := encode_address w m 0x0020 addr true txn.
Definition xStunAttrWriteMappedAddress w m addr : written := encode_address w m 0x0001 addr false None.
Definition xStunAttrWriteXorPeerAddress w m addr txn : written := encode_address w m 0x0012 addr true txn.

Definition xStunAttrWriteUsername (w : xStunAttrWriter) (m : list Z) (remote_ufrag local_ufrag : option (list Z)) : written :=
  match remote_ufrag, local_ufrag with
  | Some r, Some l =>
      let total := length r + 1 + length l in
      if decide (256 < total) then Some (xErrno_NoMemory, (w, m))
      else attr_write_raw w m 0x0006 (Some (r ++ 58%Z :: l)) total
  | _, _ => Some (xErrno_InvalidArg, (w, m))
  end.

(** [(uint16_t)len] *)
Definition u16_len (n : nat) : nat := Z.to_nat (u16 (Z.of_nat n)).

(** Realm, nonce and software: a C string's characters. *)
Definition write_string (type : Z) (w : xStunAttrWriter) (m : list Z) (s : option (list Z)) : written :=
  match s with
  | None => Some (xErrno_InvalidArg, (w, m))
  | Some s => attr_write_raw w m type (Some s) (u16_len (length s))
  end.

Definition xStunAttrWriteRealm := write_string 0x0014.
Definition xStunAttrWriteNonce := write_string 0x0015.
Definition xStunAttrWriteSoftware := write_string 0x8022.

(** Integrity: [msg_buf] is the offset of the message in the block.  The
    digest of the header, its length field set as if the attribute were the
    last, and the attributes so far. *)
Definition digest_input (m : list Z) (msg_buf : nat) (pos attr_len : nat) : ub (list Z) :=
  m ← mem_write m (msg_buf + 2) (be16 (u16 (Z.of_nat (pos + XSTUN_ATTR_HEADER_SIZE + attr_len))));
  mem_read m msg_buf (XSTUN_HEADER_SIZE + pos).

(** What [xHmacSha1] stores; the buffer is not initialized when it fails. *)
Definition hmac_sha1 (key data : list Z) : ub (list Z) :=
  r ← xHmacSha1 (Some key) (Some data) true; r.2.

(** The checksum does not depend on the state of the static table
    ([Crc32.crc32_table_equiv]). *)
Definition crc32 (data : list Z) : ub Z := r ← xCrc32 static0 data; Some r.1.

Definition xStunAttrWriteMessageIntegrity (w : xStunAttrWriter) (m : list Z) (msg_buf : option nat)
    (key : option (list Z)) : written :=
  match msg_buf, key with
  | Some mb, Some key =>
      orig ← get_be16 m (mb + 2);
      data ← digest_input m mb (w_pos w) XSTUN_SHA1_DIGEST_SIZE;
      hmac ← hmac_sha1 key data;
      m ← mem_write m (mb + 2) (be16 orig);
      attr_write_raw w m 0x0008 (Some hmac) XSTUN_SHA1_DIGEST_SIZE
  | _, _ => Some (xErrno_InvalidArg, (w, m))
  end.

Definition xStunAttrWriteFingerprint (w : xStunAttrWriter) (m : list Z) (msg_buf : option nat) : written :=
  match msg_buf with
  | Some mb =>
      orig ← get_be16 m (mb + 2);
      data ← digest_input m mb (w_pos w) 4;
      crc ← crc32 data;
      let crc := Z.lxor crc XSTUN_FINGERPRINT_XOR in
      m ← mem_write m (mb + 2) (be16 orig);
      attr_write_raw w m 0x8028 (Some (be32 crc)) 4
  | None => Some (xErrno_InvalidArg, (w, m))
  end.

Definition xStunAttrWritePriority w m priority : written := attr_write_raw w m 0x0024 (Some (be32 priority)) 4.
Definition xStunAttrWriteUseCandidate w m : written := attr_write_raw w m 0x0025 None 0.
Definition xStunAttrWriteIceControlling w m tie_breaker : written := attr_write_raw w m 0x802A (Some (be64 tie_breaker)) 8.
Definition xStunAttrWriteIceControlled w m tie_breaker : written := attr_write_raw w m 0x8029 (Some (be64 tie_breaker)) 8.
Definition xStunAttrWriteLifetime w m lifetime : written := attr_write_raw w m 0x000D (Some (be32 lifetime)) 4.
Definition xStunAttrWriteRequestedTransport w m transport : written :=
  attr_write_raw w m 0x0019 (Some (be32 transport)) 4.
Definition xStunAttrWriteChannelNumber w m channel : written :=
  attr_write_raw w m 0x000C (Some (be16 channel ++ be16 0)) 4.
Definition xStunAttrWriteData w m (data : option (list Z)) (len : nat) : written :=
  attr_write_raw w m 0x0013 data (u16_len len).

(** [value] is an array of 256 bytes; the copy of the reason is checked
    against it, the length compared only after the cast to 16 bits. *)
Definition xStunAttrWriteErrorCode (w : xStunAttrWriter) (m : list Z) (code : Z) (reason : option (list Z)) : written :=
  if (code <? 300)%Z || (699 <? code)%Z then Some (xErrno_InvalidArg, (w, m)) else
  let reason := match reason with Some r => r | None => [] end in
  let value_len := u16_len (4 + length reason) in
  if decide (256 < value_len) then Some (xErrno_NoMemory, (w, m)) else
  value ← mem_write (replicate 256 0%Z) 0 [0; 0; code / 100; code mod 100]%Z;
  value ← mem_write value 4 reason;
  attr_write_raw w m 0x0009 (Some value) value_len.

(** ** Attribute reader *)

Record xStunAttrIter := Iter { it_data : option ptr; it_len : nat; it_pos : nat }.
Record xStunAttr := Attr { a_type : Z; a_length : nat; a_value : ptr }.

Definition xStunAttrIterInit (msg : xStunMsg) : xStunAttrIter := Iter (attrs msg) (Z.to_nat (attrs_len msg)) 0.

(** The attribute and the advanced iterator, or [None] for [false]. *)
Definition xStunAttrIterNext (iter : xStunAttrIter) : ub (option (xStunAttr * xStunAttrIter)) :=
  if decide (it_len iter < it_pos iter + XSTUN_ATTR_HEADER_SIZE) then Some None else
  data ← it_data iter;
  let p : ptr := (data.1, data.2 + it_pos iter) in
  type ← read_u16 p 0;
  len ← read_u16 p 2;
  let len := Z.to_nat len in
  if decide (it_len iter < it_pos iter + XSTUN_ATTR_HEADER_SIZE + len) then Some None else
  Some (Some (Attr type len (p.1, p.2 + XSTUN_ATTR_HEADER_SIZE),
              Iter (it_data iter) (it_len iter) (it_pos iter + (XSTUN_ATTR_HEADER_SIZE + XSTUN_ALIGN4 len)))).

(** The status and [*out]; a failure after the guard leaves it zeroed. *)
Definition decode_address (attr : xStunAttr) (xor_decode : bool) (txn : option (list Z))
    : ub (xErrno * option sockaddr) :=
  if decide (a_length attr < 4) then Some (xErrno_InvalidArg, None) else
  family ← read_u8 (a_value attr) 1;
  if (family =? 1)%Z then
    if decide (a_length attr < 8) then Some (xErrno_InvalidArg, None) else
    port ← read_u16 (a_value attr) 2;
    ip ← read_u32 (a_value attr) 4;
    Some (xErrno_Ok, Some (SockInet (xor_port xor_decode port)
                             (if xor_decode then Z.lxor ip XSTUN_MAGIC_COOKIE else ip)))
  else if (family =? 2)%Z then
    if decide (a_length attr < 20) then Some (xErrno_InvalidArg, None) else
    port ← read_u16 (a_value attr) 2;
    addr ← read (a_value attr) 4 16;
    addr ← (match txn with
            | Some _ => if xor_decode then key ← xor_key txn; Some (zip_with Z.lxor addr key) else Some addr
            | None => Some addr
            end);
    Some (xErrno_Ok, Some (SockInet6 (xor_port xor_decode port) addr))
  else Some (xErrno_InvalidArg, None).

Definition xStunAttrDecodeXorMappedAddress attr txn := decode_address attr true txn.
Definition xStunAttrDecodeMappedAddress attr := decode_address attr false None.

(** The status, the code, and the reason with its length. *)
Definition xStunAttrDecodeErrorCode (attr : xStunAttr) : ub (xErrno * option (Z * (option ptr * nat))) :=
  if decide (a_length attr < 4) then Some (xErrno_InvalidArg, None) else
  b2 ← read_u8 (a_value attr) 2;
  num ← read_u8 (a_value attr) 3;
  let cls := Z.land b2 0x07 in
  let reason := if decide (4 < a_length attr)
                then (Some ((a_value attr).1, (a_value attr).2 + 4), a_length attr - 4) else (None, 0) in
  Some (xErrno_Ok, Some (cls * 100 + num, reason)%Z).

(** The temporary copy both verifications hash: the header with its length
    field adjusted, then the message up to the attribute.  The pointer
    difference is a [size_t]. *)
Definition verify_input (alloc : oracle) (msg_buf value : ptr) (attr_len : nat) : ub (option (list Z)) :=
  let off := u64 (Z.of_nat value.2 - 4 - Z.of_nat msg_buf.2) in
  hdr ← read msg_buf 0 XSTUN_HEADER_SIZE;
  hdr ← mem_write hdr 2 (be16 (u16 (off - 20 + 4 + Z.of_nat attr_len)));
  if negb (alloc off) then Some None else
  tmp ← mem_write (replicate (Z.to_nat off) 0%Z) 0 hdr;
  tmp ← (if (20 <? off)%Z then
           src ← read msg_buf XSTUN_HEADER_SIZE (Z.to_nat (off - 20)); mem_write tmp XSTUN_HEADER_SIZE src
         else Some tmp);
  Some (Some tmp).

Definition xStunAttrVerifyMessageIntegrity (alloc : oracle) (msg_buf : ptr) (attr : xStunAttr) (key : list Z)
    : ub xErrno :=
  if decide (a_length attr <> XSTUN_SHA1_DIGEST_SIZE) then Some xErrno_InvalidArg else
  tmp ← verify_input alloc msg_buf (a_value attr) XSTUN_SHA1_DIGEST_SIZE;
  match tmp with
  | None => Some xErrno_NoMemory
  | Some tmp =>
      computed ← hmac_sha1 key tmp;
      value ← read (a_value attr) 0 XSTUN_SHA1_DIGEST_SIZE;
      Some (if decide (computed = value) then xErrno_Ok else xErrno_InvalidArg)
  end.

Definition xStunAttrVerifyFingerprint (alloc : oracle) (msg_buf : ptr) (attr : xStunAttr) : ub xErrno :=
  if decide (a_length attr <> 4) then Some xErrno_InvalidArg else
  tmp ← verify_input alloc msg_buf (a_value attr) 4;
  match tmp with
  | None => Some xErrno_NoMemory
  | Some tmp =>
      crc ← crc32 tmp;
      let computed := Z.lxor crc XSTUN_FINGERPRINT_XOR in
      expected ← read_u32 (a_value attr) 0;
      Some (if (computed =? expected)%Z then xErrno_Ok else xErrno_InvalidArg)
  end.

(** ** Writing one attribute *)

Lemma XSTUN_ALIGN4_eq n : XSTUN_ALIGN4 n = (n + 3) / 4 * 4.
Proof.
  unfold XSTUN_ALIGN4. change (Z.lnot 3) with (Z.lnot (Z.ones 2)).
  rewrite <- Z.ldiff_land, Z.ldiff_ones_r, Z.shiftl_mul_pow2, Z.shiftr_div_pow2 by lia.
  change (2 ^ 2)%Z with 4%Z. rewrite <- (Nat2Z.id ((n + 3) / 4 * 4)). f_equal.
  rewrite Nat2Z.inj_mul, Nat2Z.inj_div. lia.
Qed.

Lemma XSTUN_ALIGN4_bounds n : n <= XSTUN_ALIGN4 n < n + 4 /\ XSTUN_ALIGN4 n mod 4 = 0.
Proof.
  rewrite XSTUN_ALIGN4_eq. split; [|apply Nat.Div0.mod_mul].
  pose proof (Nat.div_mod_eq (n + 3) 4). pose proof (Nat.mod_upper_bound (n + 3) 4). lia.
Qed.

(** An attribute on the wire. *)
Definition attr_wire (type : Z) (v : list Z) : list Z :=
  be16 type ++ be16 (Z.of_nat (length v)) ++ v ++ replicate (XSTUN_ALIGN4 (length v) - length v) 0%Z.

Lemma length_attr_wire type v : length (attr_wire type v) = 4 + XSTUN_ALIGN4 (length v).
Proof. pose proof (XSTUN_ALIGN4_bounds (length v)). unfold attr_wire. autorewrite with len. lia. Qed.

(** The writer's area lies in the block. *)
Definition writer_ok (w : xStunAttrWriter) (m : list Z) : Prop :=
  w_buf w + w_cap w <= length m /\ w_pos w <= w_cap w.

Lemma attr_write_raw_spec w m type v :
  writer_ok w m ->
  attr_write_raw w m type (Some v) (length v) =
    if decide (w_pos w + length (attr_wire type v) <= w_cap w)
    then m ← mem_write m (w_buf w + w_pos w) (attr_wire type v);
         Some (xErrno_Ok, (Writer (w_buf w) (w_cap w) (w_pos w + length (attr_wire type v)), m))
    else Some (xErrno_NoMemory, (w, m)).
Proof.
  intros [Hb Hp]. unfold attr_write_raw. rewrite length_attr_wire. unfold XSTUN_ATTR_HEADER_SIZE.
  destruct (decide (w_cap w < _)) as [H|H]; [by rewrite decide_False by lia|rewrite decide_True by lia].
  pose proof (XSTUN_ALIGN4_bounds (length v)) as [Hal _]. unfold attr_wire. rewrite mem_write_app.
  rewrite mem_write_Some by (autorewrite with len; lia). cbn [mbind option_bind]. rewrite length_be16, mem_write_app.
  rewrite mem_write_Some by (autorewrite with len; lia). cbn [mbind option_bind]. rewrite length_be16, mem_write_app.
  replace (w_buf w + w_pos w + 2 + 2) with (w_buf w + w_pos w + 4) by lia.
  set (m2 := take (_ + 2) _ ++ _). assert (length m2 = length m) as Hl2.
  { unfold m2. autorewrite with len. lia. }
  clearbody m2. destruct (decide (0 < length v)) as [Hv|Hv].
  - rewrite (mem_read_Some v), drop_0, firstn_all by lia. cbn [mbind option_bind].
    rewrite mem_write_Some by lia. cbn [mbind option_bind].
    case_decide as Hpad; [done|].
    replace (XSTUN_ALIGN4 (length v) - length v) with 0 by lia. cbn [replicate].
    rewrite mem_write_nil by (autorewrite with len; lia). done.
  - destruct v; [|cbn in Hv; lia]. cbn [length] in *. change (XSTUN_ALIGN4 0) with 0. cbn [mbind option_bind].
    rewrite decide_False by lia. rewrite mem_write_nil by lia. cbn [mbind option_bind].
    cbn [replicate Nat.sub]. by rewrite mem_write_nil by lia.
Qed.

(** ** Sequences of attributes *)

Fixpoint write_attrs (w : xStunAttrWriter) (m : list Z) (l : list (Z * list Z)) : written :=
  match l with
  | [] => Some (xErrno_Ok, (w, m))
  | (type, v) :: l =>
      '(e, (w, m)) ← attr_write_raw w m type (Some v) (length v);
      if decide (e = xErrno_Ok) then write_attrs w m l else Some (e, (w, m))
  end.

(** The loop of every reader: types and values until [false]. *)
Fixpoint read_attrs (fuel : nat) (it : xStunAttrIter) : ub (list (Z * list Z)) :=
  match fuel with
  | 0 => None
  | S fuel =>
      r ← xStunAttrIterNext it;
      match r with
      | None => Some []
      | Some (a, it) =>
          v ← read (a_value a) 0 (a_length a);
          rest ← read_attrs fuel it;
          Some ((a_type a, v) :: rest)
      end
  end.

Definition attr_ok (a : Z * list Z) : Prop := (0 <= a.1 < 2 ^ 16)%Z /\ (Z.of_nat (length a.2) < 2 ^ 16)%Z.

Definition attrs_wire (l : list (Z * list Z)) : list Z := l ≫= fun a => attr_wire a.1 a.2.

Lemma attrs_wire_cons type v l : attrs_wire ((type, v) :: l) = attr_wire type v ++ attrs_wire l.
Proof. reflexivity. Qed.

Lemma write_attrs_spec w m l :
  writer_ok w m -> w_pos w + length (attrs_wire l) <= w_cap w ->
  exists m', write_attrs w m l = Some (xErrno_Ok, (Writer (w_buf w) (w_cap w) (w_pos w + length (attrs_wire l)), m')) /\
    mem_write m (w_buf w + w_pos w) (attrs_wire l) = Some m'.
Proof.
  revert w m. induction l as [|[type v] l IH]; intros w m [Hb Hp] Hl; cbn [write_attrs].
  { exists m. change (attrs_wire []) with (@nil Z). rewrite mem_write_nil by lia. cbn [length].
    rewrite Nat.add_0_r. destruct w; done. }
  rewrite attrs_wire_cons in Hl |- *. rewrite length_app in Hl. rewrite attr_write_raw_spec by done.
  rewrite decide_True by lia. rewrite mem_write_app.
  destruct (mem_write m _ (attr_wire type v)) as [m1|] eqn:E1.
  2:{ exfalso. unfold mem_write in E1. case_decide; [done|lia]. }
  cbn [mbind option_bind]. apply mem_write_length in E1.
  destruct (IH (Writer (w_buf w) (w_cap w) (w_pos w + length (attr_wire type v))) m1) as (m' & E & E');
    [split; cbn [w_buf w_cap w_pos]; lia|cbn [w_buf w_cap w_pos]; lia|].
  exists m'. rewrite decide_True by done. cbn [w_buf w_pos w_cap] in *. rewrite E. split.
  - by rewrite length_app, Nat.add_assoc.
  - by rewrite <- Nat.add_assoc.
Qed.

Lemma stands_be16 buf p v w :
  (0 <= v < 2 ^ 16)%Z -> stands buf p (be16 v ++ w) -> get_be16 buf p = Some v /\ stands buf (p + 2) w.
Proof.
  intros Hv Hs. apply stands_app in Hs as [Hs Hw]. split; [|done].
  unfold get_be16, be16 in *. rewrite (stands_lookup _ _ _ _ Hs). cbn [mbind option_bind].
  change (?a :: ?b) with ([a] ++ b) in Hs. apply stands_app in Hs as [_ Hs].
  cbn [length app] in Hs. rewrite Nat.add_1_r in Hs. rewrite (stands_lookup _ _ _ _ Hs).
  cbn [mbind option_bind]. by rewrite join16_be16.
Qed.

Lemma read_attrs_spec buf base len pos l fuel :
  Forall attr_ok l -> length l < fuel -> stands buf (base + pos) (attrs_wire l) -> len = pos + length (attrs_wire l) ->
  read_attrs fuel (Iter (Some (buf, base)) len pos) = Some l.
Proof.
  revert pos fuel. induction l as [|[type v] l IH]; intros pos [|fuel] Hok Hf Hs Hlen; cbn [length] in Hf; try lia;
    cbn [read_attrs]; unfold xStunAttrIterNext, XSTUN_ATTR_HEADER_SIZE; cbn [it_len it_pos it_data].
  { change (attrs_wire []) with (@nil Z) in Hlen. cbn [length] in Hlen. rewrite decide_True by lia. done. }
  apply Forall_cons in Hok as [[Ht Hv] Hok]. cbn [fst snd] in Ht, Hv.
  rewrite attrs_wire_cons in Hs, Hlen. rewrite length_app, length_attr_wire in Hlen.
  pose proof (XSTUN_ALIGN4_bounds (length v)) as [Hal _].
  rewrite decide_False by lia. cbn [mbind option_bind fst snd]. unfold read_u16. cbn [fst snd].
  apply stands_app in Hs as [Hs Hrest]. unfold attr_wire in Hs.
  apply stands_be16 in Hs as [E1 Hs]; [|done]. apply stands_be16 in Hs as [E2 Hs]; [|lia].
  apply stands_app in Hs as [Hs _].
  rewrite Nat.add_0_r, E1. cbn [mbind option_bind]. rewrite E2. cbn [mbind option_bind]. rewrite Nat2Z.id.
  rewrite decide_False by lia. cbn [mbind option_bind a_value a_length a_type]. unfold read. cbn [fst snd].
  replace (base + pos + 4 + 0) with (base + pos + 2 + 2) by lia.
  rewrite (stands_read _ _ _ Hs). cbn [mbind option_bind].
  rewrite (IH (pos + (4 + XSTUN_ALIGN4 (length v)))); [done|done|lia| |lia].
  rewrite length_attr_wire, <- Nat.add_assoc in Hrest. exact Hrest.
Qed.

Lemma mem_write_stands (m : list Z) p x m' : mem_write m p x = Some m' -> stands m' p x.
Proof.
  unfold mem_write. case_decide; [|done]. intros [= <-]. exists (take p m), (drop (p + length x) m).
  split; [done|]. rewrite length_take. lia.
Qed.

(** C35: any sequence of attributes with 16-bit types and lengths that fits the
    area is written, padded to multiples of four, without touching the block
    outside it, and the iterator over what was written yields exactly these
    types and values, in order, and then stops. *)
Theorem stun_attrs_roundtrip w m l :
  writer_ok w m -> w_pos w = 0 -> Forall attr_ok l -> length (attrs_wire l) <= w_cap w ->
  exists m', write_attrs w m l = Some (xErrno_Ok, (Writer (w_buf w) (w_cap w) (length (attrs_wire l)), m')) /\
    m' = take (w_buf w) m ++ attrs_wire l ++ drop (w_buf w + length (attrs_wire l)) m /\
    read_attrs (S (length l)) (Iter (Some (m', w_buf w)) (length (attrs_wire l)) 0) = Some l.
Proof.
  intros Hw Hp Hok Hl. destruct (write_attrs_spec w m l Hw) as (m' & E & Em); [lia|].
  rewrite Hp in E, Em. cbn [Nat.add] in E. rewrite Nat.add_0_r in Em. exists m'. split; [done|]. split.
  - unfold mem_write in Em. case_decide; [|done]. by injection Em.
  - apply read_attrs_spec; [done|lia| |done]. rewrite Nat.add_0_r. by eapply mem_write_stands.
Qed.

Lemma stun_attrs_roundtrip_witness :
  let l := [(0x0024, [1; 2; 3; 4])%Z; (0x0025, [])%Z; (0x8022, [108; 105; 98; 120; 33])%Z] in
  exists m', write_attrs (Writer 4 40 0) (replicate 44 9%Z) l = Some (xErrno_Ok, (Writer 4 40 24, m')) /\
    read_attrs 4 (Iter (Some (m', 4)) 24 0) = Some l.
Proof.
  destruct (stun_attrs_roundtrip (Writer 4 40 0) (replicate 44 9%Z)
    [(0x0024, [1; 2; 3; 4])%Z; (0x0025, [])%Z; (0x8022, [108; 105; 98; 120; 33])%Z]) as (m' & E & _ & E').
  - split; cbn; lia.
  - reflexivity.
  - repeat constructor; cbn; lia.
  - apply Nat.leb_le. vm_compute. reflexivity.
  - exists m'. split; [exact E|exact E'].
Defined.

(** ** Addresses *)

Definition sockaddr_ok (a : sockaddr) : Prop :=
  match a with
  | SockInet port ip => (0 <= port < 2 ^ 16)%Z /\ (0 <= ip < 2 ^ 32)%Z
  | SockInet6 port addr => (0 <= port < 2 ^ 16)%Z /\ length addr = 16
  | SockOther => False
  end.

(** The value bytes of an address attribute. *)
Definition address_value (xor : bool) (txn : list Z) (a : sockaddr) : list Z :=
  match a with
  | SockInet port ip =>
      [0; 1]%Z ++ be16 (xor_port xor port) ++ be32 (if xor then Z.lxor ip XSTUN_MAGIC_COOKIE else ip)
  | SockInet6 port addr =>
      [0; 2]%Z ++ be16 (xor_port xor port) ++
      (if xor then zip_with Z.lxor addr (be32 XSTUN_MAGIC_COOKIE ++ txn) else addr)
  | SockOther => []
  end.

Lemma xor_port_range xor port : (0 <= port < 2 ^ 16)%Z -> (0 <= xor_port xor port < 2 ^ 16)%Z.
Proof. intros H. unfold xor_port. destruct xor; [|done]. apply lxor_range; [lia|done|]. vm_compute. split; congruence. Qed.

Lemma xor_port_twice xor port : xor_port xor (xor_port xor port) = port.
Proof. unfold xor_port. destruct xor; [|done]. by rewrite Z.lxor_assoc, Z.lxor_nilpotent, Z.lxor_0_r. Qed.

Lemma zip_lxor_twice (l k : list Z) : length l = length k -> zip_with Z.lxor (zip_with Z.lxor l k) k = l.
Proof.
  revert k. induction l as [|x l IH]; intros [|y k]; cbn [zip_with length]; intros H; try done.
  rewrite IH by lia. by rewrite Z.lxor_assoc, Z.lxor_nilpotent, Z.lxor_0_r.
Qed.

Definition txn_of (xor : bool) (txn : list Z) : option (list Z) := if xor then Some txn else None.

Lemma xor_key_Some txn : length txn = 12 -> xor_key (Some txn) = Some (be32 XSTUN_MAGIC_COOKIE ++ txn).
Proof.
  intros H. unfold xor_key, XSTUN_TXN_ID_SIZE. cbn [mbind option_bind]. rewrite mem_read_Some by lia.
  cbn [mbind option_bind]. by rewrite drop_0, firstn_all2 by lia.
Qed.

Lemma length_address_value xor txn a :
  sockaddr_ok a -> length txn = 12 ->
  length (address_value xor txn a) = match a with SockInet _ _ => 8 | _ => 20 end.
Proof.
  destruct a as [port ip|port addr|]; cbn [sockaddr_ok address_value]; [| |done]; intros H Ht.
  - autorewrite with len. done.
  - destruct xor; autorewrite with len; rewrite ?length_zip_with, ?length_app, ?length_be32; cbn [length]; lia.
Qed.

Lemma encode_address_eq w m type a xor txn :
  sockaddr_ok a -> length txn = 12 ->
  encode_address w m type a xor (txn_of xor txn) =
    attr_write_raw w m type (Some (address_value xor txn a)) (length (address_value xor txn a)).
Proof.
  intros Ha Ht. rewrite length_address_value by done.
  destruct a as [port ip|port addr|]; cbn [sockaddr_ok encode_address address_value] in *; [done| |done].
  destruct xor; cbn [txn_of]; [|done]. rewrite xor_key_Some by done. done.
Qed.

Lemma stands_get_be32 buf p v w :
  (0 <= v < 2 ^ 32)%Z -> stands buf p (be32 v ++ w) -> get_be32 buf p = Some v.
Proof.
  intros Hv Hs. apply stands_app in Hs as [Hs _]. pose proof (stands_read _ _ _ Hs) as Hr.
  rewrite length_be32 in Hr. pose proof (stands_le _ _ _ Hs) as Hle. rewrite length_be32 in Hle.
  assert (forall k, k < 4 -> buf !! (p + k) = be32 v !! k) as L.
  { intros k Hk. rewrite mem_read_Some in Hr by lia. injection Hr as Hr. rewrite <- Hr.
    rewrite lookup_take_lt by lia. by rewrite lookup_drop. }
  pose proof (L 0 ltac:(lia)) as L0. pose proof (L 1 ltac:(lia)) as L1.
  pose proof (L 2 ltac:(lia)) as L2. pose proof (L 3 ltac:(lia)) as L3.
  replace (p + 0) with p in L0 by lia. replace (p + 1) with (S p) in L1 by lia.
  replace (p + 2) with (S (S p)) in L2 by lia. replace (p + 3) with (S (S (S p))) in L3 by lia.
  unfold get_be32. rewrite L0. cbn [be32 lookup list_lookup mbind option_bind]. rewrite L1.
  cbn [be32 lookup list_lookup mbind option_bind]. rewrite L2. cbn [be32 lookup list_lookup mbind option_bind].
  rewrite L3. cbn [be32 lookup list_lookup mbind option_bind]. by rewrite join32_be32.
Qed.

Lemma decode_address_value buf p type a xor txn :
  sockaddr_ok a -> length txn = 12 -> stands buf p (address_value xor txn a) ->
  decode_address (Attr type (length (address_value xor txn a)) (buf, p)) xor (txn_of xor txn) = Some (xErrno_Ok, Some a).
Proof.
  intros Ha Ht Hs. pose proof (length_address_value xor txn a Ha Ht) as Hlen. rewrite Hlen.
  unfold decode_address, read_u8, read_u16, read_u32, read. cbn [a_length a_value fst snd].
  destruct a as [port ip|port addr|]; cbn [sockaddr_ok address_value] in *; [| |done].
  - destruct Ha as [Hp Hi]. rewrite decide_False by lia.
    change ([0; 1]%Z ++ ?x) with ([0]%Z ++ [1]%Z ++ x) in Hs. apply stands_app in Hs as [_ Hs]. cbn [length] in Hs.
    rewrite (stands_lookup _ _ _ _ Hs). cbn [mbind option_bind Z.eqb Pos.eqb].
    rewrite decide_False by lia. apply stands_app in Hs as [_ Hs]. cbn [length] in Hs.
    replace (p + 1 + 1) with (p + 2) in Hs by lia. apply stands_be16 in Hs as [E Hs]; [|by apply xor_port_range].
    rewrite E. cbn [mbind option_bind]. replace (p + 2 + 2) with (p + 4) in Hs by lia.
    rewrite <- (app_nil_r (be32 _)) in Hs. apply stands_get_be32 in Hs as ->.
    + cbn [mbind option_bind]. rewrite xor_port_twice. destruct xor; [|done].
      by rewrite Z.lxor_assoc, Z.lxor_nilpotent, Z.lxor_0_r.
    + destruct xor; [|done]. apply lxor_range; [lia|done|]. unfold XSTUN_MAGIC_COOKIE. lia.
  - destruct Ha as [Hp Hi]. rewrite decide_False by lia.
    change ([0; 2]%Z ++ ?x) with ([0]%Z ++ [2]%Z ++ x) in Hs. apply stands_app in Hs as [_ Hs]. cbn [length] in Hs.
    rewrite (stands_lookup _ _ _ _ Hs). cbn [mbind option_bind Z.eqb Pos.eqb].
    rewrite decide_False by lia. apply stands_app in Hs as [_ Hs]. cbn [length] in Hs.
    replace (p + 1 + 1) with (p + 2) in Hs by lia. apply stands_be16 in Hs as [E Hs]; [|by apply xor_port_range].
    rewrite E. cbn [mbind option_bind]. replace (p + 2 + 2) with (p + 4) in Hs by lia.
    destruct xor; cbn [txn_of].
    + assert (length addr = length (be32 XSTUN_MAGIC_COOKIE ++ txn)) as Hk by (rewrite length_app, length_be32; lia).
      assert (length (zip_with Z.lxor addr (be32 XSTUN_MAGIC_COOKIE ++ txn)) = 16) as Hz by (rewrite length_zip_with; lia).
      rewrite <- Hz, (stands_read _ _ _ Hs). cbn [mbind option_bind].
      rewrite xor_key_Some by done. cbn [mbind option_bind]. by rewrite zip_lxor_twice, xor_port_twice.
    + rewrite <- Hi, (stands_read _ _ _ Hs). cbn [mbind option_bind]. by rewrite xor_port_twice.
Qed.

(** An IPv4 or IPv6 address written as an attribute, plainly or XORed with
    the magic cookie and the transaction id, is read back unchanged by the
    iterator and the decoder. *)
Theorem stun_address_roundtrip w m type a xor txn :
  writer_ok w m -> (0 <= type < 2 ^ 16)%Z -> sockaddr_ok a -> length txn = 12 -> w_pos w + 24 <= w_cap w ->
  exists w' m' attr it', encode_address w m type a xor (txn_of xor txn) = Some (xErrno_Ok, (w', m')) /\
    xStunAttrIterNext (Iter (Some (m', w_buf w)) (w_pos w') (w_pos w)) = Some (Some (attr, it')) /\
    a_type attr = type /\ decode_address attr xor (txn_of xor txn) = Some (xErrno_Ok, Some a).
Proof.
  intros Hw Hty Ha Ht Hcap. pose proof (length_address_value xor txn a Ha Ht) as Hlen.
  set (v := address_value xor txn a) in *.
  assert (length (attr_wire type v) = 4 + length v) as Hwire.
  { rewrite length_attr_wire, Hlen. by destruct a. }
  assert (length v <= 20) as Hv by (rewrite Hlen; destruct a; lia).
  rewrite encode_address_eq by done. fold v. rewrite attr_write_raw_spec, decide_True by (done || lia).
  destruct (mem_write m (w_buf w + w_pos w) (attr_wire type v)) as [m'|] eqn:E.
  2:{ destruct Hw. unfold mem_write in E. case_decide; [done|lia]. }
  cbn [mbind option_bind]. eexists _, m', _, _. split; [done|]. cbn [w_pos].
  apply mem_write_stands in E. unfold attr_wire in E. pose proof E as E'.
  apply stands_be16 in E as [E1 Hs]; [|done]. apply stands_be16 in Hs as [E2 Hs]; [|lia].
  apply stands_app in Hs as [Hs _]. unfold xStunAttrIterNext, XSTUN_ATTR_HEADER_SIZE, read_u16.
  cbn [it_len it_pos it_data]. rewrite decide_False by lia. cbn [mbind option_bind fst snd].
  rewrite Nat.add_0_r, E1. cbn [mbind option_bind]. rewrite E2. cbn [mbind option_bind]. rewrite Nat2Z.id.
  rewrite decide_False by lia. split; [done|]. split; [done|].
  replace (w_buf w + w_pos w + 2 + 2) with (w_buf w + w_pos w + 4) in Hs by lia.
  by apply decode_address_value.
Qed.

(** 192.0.2.1 port 32853 under the transaction id of RFC 5769: XORed it is
    e1 12 a6 43. *)
Lemma stun_address_roundtrip_witness :
  let txn := [0xb7; 0xe7; 0xa7; 0x01; 0xbc; 0x34; 0xd6; 0x86; 0xfa; 0x87; 0xdf; 0xae]%Z in
  let a := SockInet 32853 0xC0000201 in
  encode_address (Writer 0 24 0) (replicate 24 0%Z) 0x0020 a true (Some txn) =
    Some (xErrno_Ok, (Writer 0 24 12, [0; 0x20; 0; 8; 0; 1; 0xa1; 0x47; 0xe1; 0x12; 0xa6; 0x43]%Z ++ replicate 12 0%Z)) /\
  exists w' m' attr it', encode_address (Writer 0 24 0) (replicate 24 0%Z) 0x0020 a true (Some txn) = Some (xErrno_Ok, (w', m')) /\
    xStunAttrIterNext (Iter (Some (m', 0)) (w_pos w') 0) = Some (Some (attr, it')) /\
    a_type attr = 0x0020%Z /\ decode_address attr true (Some txn) = Some (xErrno_Ok, Some a).
Proof.
  split; [vm_compute; reflexivity|].
  apply (stun_address_roundtrip (Writer 0 24 0) (replicate 24 0%Z) 0x0020 (SockInet 32853 0xC0000201) true
    [0xb7; 0xe7; 0xa7; 0x01; 0xbc; 0x34; 0xd6; 0x86; 0xfa; 0x87; 0xdf; 0xae]%Z).
  - split; cbn; lia.
  - lia.
  - split; lia.
  - reflexivity.
  - cbn. lia.
Defined.

(** ** Integrity *)

(** Two blocks that agree on the message's first [n] bytes, its length field
    aside. *)
Definition agree (mb n : nat) (m1 m2 : list Z) : Prop :=
  length m1 = length m2 /\
  forall i, mb <= i < mb + n -> i <> mb + 2 -> i <> mb + 3 -> m1 !! i = m2 !! i.

Lemma digest_input_Some m mb pos al :
  mb + 20 + pos <= length m -> exists data, digest_input m mb pos al = Some data /\ length data = 20 + pos /\
    forall i, i < 20 + pos -> data !! i =
      if decide (2 <= i < 4) then be16 (u16 (Z.of_nat (pos + 4 + al))) !! (i - 2) else m !! (mb + i).
Proof.
  intros H. unfold digest_input, XSTUN_HEADER_SIZE, XSTUN_ATTR_HEADER_SIZE.
  destruct (mem_write m (mb + 2) _) as [m1|] eqn:E.
  2:{ unfold mem_write in E. case_decide; [done|]. rewrite length_be16 in *. lia. }
  cbn [mbind option_bind]. pose proof (mem_write_length _ _ _ _ E) as Hl. rewrite mem_read_Some by lia.
  eexists. split; [done|]. split; [rewrite length_take, length_drop; lia|]. intros i Hi.
  rewrite lookup_take_lt, lookup_drop, (lookup_mem_write _ _ _ _ _ E), length_be16 by lia.
  destruct (decide (2 <= i < 4)).
  - rewrite decide_True by lia. f_equal. lia.
  - by rewrite decide_False by lia.
Qed.

(** The verifier hashes what the writer hashed. *)
Lemma verify_input_eq m m' mb pos al data :
  mb + 20 + pos <= length m -> (Z.of_nat (length m) < 2 ^ 63)%Z -> agree mb (20 + pos) m m' ->
  digest_input m mb pos al = Some data ->
  verify_input (fun _ => true) (m', mb) (m', mb + 20 + pos + 4) al = Some (Some data).
Proof.
  intros Hle Hmax [Hlm Hag] Ed. destruct (digest_input_Some m mb pos al Hle) as (d & E & Hdl & Hd).
  rewrite E in Ed. injection Ed as <-. unfold verify_input, read, XSTUN_HEADER_SIZE. cbn [fst snd].
  replace (u64 (Z.of_nat (mb + 20 + pos + 4) - 4 - Z.of_nat mb)) with (Z.of_nat (20 + pos)).
  2:{ unfold u64. rewrite Z.mod_small; lia. }
  replace (Z.of_nat (20 + pos) - 20 + 4 + Z.of_nat al)%Z with (Z.of_nat (pos + 4 + al)) by lia.
  rewrite Nat.add_0_r, (mem_read_Some m' mb 20) by lia. cbn [mbind option_bind].
  set (len := be16 (u16 (Z.of_nat (pos + 4 + al)))) in *. assert (length len = 2) as Hlen by reflexivity. clearbody len.
  destruct (mem_write (take 20 (drop mb m')) 2 len) as [hdr|] eqn:Eh.
  2:{ unfold mem_write in Eh. case_decide as X; [done|]. autorewrite with len in X. lia. }
  cbn [mbind option_bind negb]. pose proof (mem_write_length _ _ _ _ Eh) as Hhl. autorewrite with len in Hhl.
  rewrite Nat2Z.id. rewrite mem_write_Some by (autorewrite with len; lia). cbn [mbind option_bind].
  rewrite take_0, app_nil_l, Nat.add_0_l.
  assert (d = hdr ++ take pos (drop (mb + 20) m')) as ->.
  { apply list_eq. intros i. destruct (decide (i < 20 + pos)) as [Hi|Hi].
    2:{ rewrite (lookup_ge_None_2 d) by lia. by rewrite lookup_ge_None_2 by (autorewrite with len; lia). }
    rewrite Hd by done. destruct (decide (i < 20)).
    - rewrite lookup_app_l, (lookup_mem_write _ _ _ _ _ Eh) by lia. rewrite Hlen.
      destruct (decide (2 <= i < 4)); [by rewrite decide_True by lia|]. rewrite decide_False by lia.
      rewrite lookup_take_lt, lookup_drop by lia. apply Hag; lia.
    - rewrite decide_False, lookup_app_r by lia. rewrite lookup_take_lt, lookup_drop by lia.
      rewrite Hag by lia. f_equal. lia. }
  destruct (Z.ltb_spec 20 (Z.of_nat (20 + pos))).
  - replace (Z.to_nat (Z.of_nat (20 + pos) - 20)) with pos by lia. rewrite mem_read_Some by lia.
    cbn [mbind option_bind]. rewrite mem_write_Some by (autorewrite with len; lia). cbn [mbind option_bind].
    rewrite take_app_length' by (autorewrite with len; lia). rewrite (drop_ge (hdr ++ _)) by (autorewrite with len; lia). by rewrite app_nil_r.
  - replace pos with 0 by lia. rewrite take_0. cbn [mbind option_bind].
    rewrite (drop_ge (replicate _ _)) by (rewrite length_replicate; lia). done.
Qed.

Lemma hmac_sha1_Some key data : exists d, hmac_sha1 key data = Some d /\ length d = 20.
Proof.
  unfold hmac_sha1, xHmacSha1. rewrite (xHmac_spec Sha1.xHashVtableSha1); [|cbn; unfold HMAC_MAX_BLOCK_SIZE, HMAC_MAX_DIGEST_SIZE, HMAC_MAX_CTX_SIZE; lia..].
  cbn [mbind option_bind snd]. eexists. split; [done|]. unfold hmac_spec.
  exact (hash_length (vt := Sha1.xHashVtableSha1) _).
Qed.

Lemma crc32_Some data : bytes_ok data -> crc32 data = Some (crc_ref data).
Proof. intros H. unfold crc32. by destruct (xCrc32_spec static0 data) as (s & -> & _). Qed.

(** What [attr_write_raw] leaves before the attribute and of its value. *)
Lemma attr_write_raw_ok w m type v :
  writer_ok w m -> w_pos w + length (attr_wire type v) <= w_cap w ->
  exists m', attr_write_raw w m type (Some v) (length v) =
      Some (xErrno_Ok, (Writer (w_buf w) (w_cap w) (w_pos w + length (attr_wire type v)), m')) /\
    length m' = length m /\ stands m' (w_buf w + w_pos w + 4) v /\
    forall i, i < w_buf w + w_pos w -> m' !! i = m !! i.
Proof.
  intros Hw Hc. rewrite attr_write_raw_spec, decide_True by done.
  destruct (mem_write m _ _) as [m'|] eqn:E.
  2:{ destruct Hw. unfold mem_write in E. case_decide; [done|lia]. }
  cbn [mbind option_bind]. exists m'. split; [done|]. split; [by eapply mem_write_length|]. split.
  - apply mem_write_stands in E. unfold attr_wire in E. apply stands_app in E as [_ E]. apply stands_app in E as [_ E].
    apply stands_app in E as [E _]. rewrite !length_be16 in E. by replace (w_buf w + w_pos w + 2 + 2) with
      (w_buf w + w_pos w + 4) in E by lia.
  - intros i Hi. rewrite (lookup_mem_write _ _ _ _ _ E). by rewrite decide_False by lia.
Qed.

(** Restoring the length field. *)
Lemma restore_length (m : list Z) mb :
  mb + 4 <= length m -> exists o m1, get_be16 m (mb + 2) = Some o /\ mem_write m (mb + 2) (be16 o) = Some m1 /\
    length m1 = length m /\ forall i, i <> mb + 2 -> i <> mb + 3 -> m1 !! i = m !! i.
Proof.
  intros H. unfold get_be16. destruct (lookup_lt_is_Some_2 m (mb + 2)) as [p0 ->]; [lia|].
  destruct (lookup_lt_is_Some_2 m (S (mb + 2))) as [p1 ->]; [lia|]. cbn [mbind option_bind].
  destruct (mem_write m (mb + 2) (be16 (join16 p0 p1))) as [m1|] eqn:E.
  2:{ unfold mem_write in E. case_decide; [done|]. rewrite length_be16 in *. lia. }
  eexists _, m1. split; [done|]. split; [done|]. split; [by eapply mem_write_length|]. intros i H1 H2.
  rewrite (lookup_mem_write _ _ _ _ _ E), length_be16. by rewrite decide_False by lia.
Qed.

Lemma mem_read_stands (m : list Z) p v : mem_read m p (length v) = Some v -> stands m p v.
Proof.
  unfold mem_read. case_decide; [|done]. intros [= E]. exists (take p m), (drop (length v) (drop p m)).
  split; [|rewrite length_take; lia]. rewrite <- E at 1. by rewrite take_drop, take_drop.
Qed.

Lemma agree_stands mb n m1 m2 p v :
  agree mb n m1 m2 -> mb + 4 <= p -> p + length v <= mb + n -> stands m1 p v -> stands m2 p v.
Proof.
  intros [Hl Ha] Hp Hn Hs. pose proof (stands_le _ _ _ Hs) as Hle. apply stands_read in Hs.
  apply mem_read_stands. rewrite <- Hs. rewrite !mem_read_Some by lia. f_equal.
  apply list_eq. intros i. destruct (decide (i < length v)).
  - rewrite !lookup_take_lt, !lookup_drop by done. symmetry. apply Ha; lia.
  - rewrite !lookup_ge_None_2; [done|rewrite length_take; lia..].
Qed.

(** What both writers do before the attribute itself. *)
Lemma integrity_prefix w m mb al :
  writer_ok w m -> w_buf w = mb + 20 ->
  exists o data m1, get_be16 m (mb + 2) = Some o /\ digest_input m mb (w_pos w) al = Some data /\
    mem_write m (mb + 2) (be16 o) = Some m1 /\ writer_ok w m1 /\ (bytes_ok m -> bytes_ok data) /\
    forall v m' m2 n, length m' = length m1 -> (forall i, i < w_buf w + w_pos w -> m' !! i = m1 !! i) ->
      stands m' (w_buf w + w_pos w + 4) v -> agree mb n m' m2 -> 24 + w_pos w + length v <= n ->
      (Z.of_nat (length m) < 2 ^ 63)%Z ->
      verify_input (fun _ => true) (m2, mb) (m2, w_buf w + w_pos w + 4) al = Some (Some data) /\
      stands m2 (w_buf w + w_pos w + 4) v.
Proof.
  intros [Hw1 Hw2] Hb. destruct (restore_length m mb) as (o & m1 & E1 & E2 & Hl1 & Hr); [lia|].
  destruct (digest_input_Some m mb (w_pos w) al) as (data & E3 & Hdl & Hd); [lia|].
  exists o, data, m1. split; [done|]. split; [done|]. split; [done|]. split; [split; lia|]. split.
  { intros Hm. apply Forall_lookup. intros i x Hx. destruct (decide (i < 20 + w_pos w)) as [Hi|Hi].
    - rewrite Hd in Hx by done. case_decide.
      + pose proof (be16_bytes (u16 (Z.of_nat (w_pos w + 4 + al)))) as B. rewrite Forall_lookup in B. by eapply B.
      + rewrite Forall_lookup in Hm. by eapply Hm.
    - apply lookup_lt_Some in Hx. lia. }
  intros v m' m2 n Hl' Hpre Hst Hag Hn Hmax. pose proof (agree_stands _ _ _ _ (w_buf w + w_pos w + 4) v Hag) as Has.
  split; [|apply Has; [lia|lia|done]]. rewrite Hb. apply (verify_input_eq m); [lia|done| |done].
  destruct Hag as [Hlen Hag]. split; [lia|]. intros i Hi H2 H3. rewrite <- Hag by lia. rewrite Hpre by lia.
  symmetry. by apply Hr.
Qed.

(** C36: a MESSAGE-INTEGRITY or FINGERPRINT attribute written after the
    attributes of a message verifies (with the same key), and still does after
    the caller has set the header's length field and appended anything behind
    the attribute: the verifier hashes byte for byte what the writer hashed. *)
Theorem stun_integrity_verifies w m mb key m2 :
  writer_ok w m -> w_buf w = mb + 20 -> w_pos w + 24 <= w_cap w -> bytes_ok m -> (Z.of_nat (length m) < 2 ^ 63)%Z ->
  (exists w' m', xStunAttrWriteMessageIntegrity w m (Some mb) (Some key) = Some (xErrno_Ok, (w', m')) /\
     (agree mb (20 + w_pos w' ) m' m2 ->
      xStunAttrVerifyMessageIntegrity (fun _ => true) (m2, mb) (Attr 0x0008 20 (m2, w_buf w + w_pos w + 4)) key =
        Some xErrno_Ok)) /\
  (exists w' m', xStunAttrWriteFingerprint w m (Some mb) = Some (xErrno_Ok, (w', m')) /\
     (agree mb (20 + w_pos w') m' m2 ->
      xStunAttrVerifyFingerprint (fun _ => true) (m2, mb) (Attr 0x8028 4 (m2, w_buf w + w_pos w + 4)) = Some xErrno_Ok)).
Proof.
  intros Hw Hb Hcap Hm Hmax. split.
  - destruct (integrity_prefix w m mb 20 Hw Hb) as (o & data & m1 & E1 & E2 & E3 & Hw1 & _ & Hv).
    destruct (hmac_sha1_Some key data) as (d & E4 & Hd).
    assert (length (attr_wire 0x0008 d) = 24) as Hlen by (rewrite length_attr_wire, Hd; reflexivity).
    destruct (attr_write_raw_ok w m1 0x0008 d Hw1) as (m' & E5 & Hl' & Hst & Hpre); [lia|].
    unfold xStunAttrWriteMessageIntegrity, XSTUN_SHA1_DIGEST_SIZE. rewrite E1. cbn [mbind option_bind].
    rewrite E2. cbn [mbind option_bind]. rewrite E4. cbn [mbind option_bind]. rewrite E3. cbn [mbind option_bind].
    rewrite Hd in E5. rewrite E5. eexists _, m'. split; [done|]. cbn [w_pos]. intros Hag.
    destruct (Hv d m' m2 _ Hl' Hpre Hst Hag) as [Ev Hst2]; [lia|done|].
    unfold xStunAttrVerifyMessageIntegrity, XSTUN_SHA1_DIGEST_SIZE. cbn [a_length a_value].
    rewrite decide_False by lia. rewrite Ev. cbn [mbind option_bind]. rewrite E4. cbn [mbind option_bind].
    apply stands_read in Hst2. rewrite Hd in Hst2. unfold read. cbn [fst snd]. rewrite Nat.add_0_r, Hst2.
    cbn [mbind option_bind]. by rewrite decide_True.
  - destruct (integrity_prefix w m mb 4 Hw Hb) as (o & data & m1 & E1 & E2 & E3 & Hw1 & Hbytes & Hv).
    pose proof (crc32_Some data (Hbytes Hm)) as E4.
    assert (0 <= Z.lxor (crc_ref data) XSTUN_FINGERPRINT_XOR < 2 ^ 32)%Z as Hr.
    { apply lxor_range; [lia|by apply crc_ref_range, Hbytes|unfold XSTUN_FINGERPRINT_XOR; lia]. }
    set (v := be32 (Z.lxor (crc_ref data) XSTUN_FINGERPRINT_XOR)).
    destruct (attr_write_raw_ok w m1 0x8028 v Hw1) as (m' & E5 & Hl' & Hst & Hpre); [change (length (attr_wire _ v)) with 8; lia|].
    unfold xStunAttrWriteFingerprint. rewrite E1. cbn [mbind option_bind].
    rewrite E2. cbn [mbind option_bind]. rewrite E4. cbn [mbind option_bind]. rewrite E3. cbn [mbind option_bind].
    change (attr_write_raw w m1 0x8028 (Some v) (length v)) with (attr_write_raw w m1 0x8028 (Some v) 4) in E5.
    fold v. rewrite E5. eexists _, m'. split; [done|]. cbn [w_pos]. intros Hag.
    destruct (Hv v m' m2 _ Hl' Hpre Hst Hag) as [Ev Hst2]; [change (length (attr_wire _ v)) with 8; cbn; lia|done|].
    unfold xStunAttrVerifyFingerprint. cbn [a_length a_value].
    rewrite decide_False by lia. rewrite Ev. cbn [mbind option_bind]. rewrite E4. cbn [mbind option_bind].
    unfold read_u32. cbn [fst snd]. rewrite Nat.add_0_r. rewrite <- (app_nil_r v) in Hst2.
    rewrite (stands_get_be32 _ _ _ _ Hr Hst2). cbn [mbind option_bind]. by rewrite Z.eqb_refl.
Qed.

Lemma agree_refl mb n m : agree mb n m m.
Proof. by split. Qed.

(** A header with no attribute yet; the integrity attribute goes at offset
    20, and the message as written is then verified. *)
Lemma stun_integrity_verifies_witness :
  let m := [0; 1; 0; 0; 0x21; 0x12; 0xA4; 0x42]%Z ++ replicate 40 5%Z in
  exists w' m', xStunAttrWriteMessageIntegrity (Writer 20 28 0) m (Some 0) (Some [107]%Z) = Some (xErrno_Ok, (w', m')) /\
    xStunAttrVerifyMessageIntegrity (fun _ => true) (m', 0) (Attr 0x0008 20 (m', 24)) [107]%Z = Some xErrno_Ok.
Proof.
  set (m := [0; 1; 0; 0; 0x21; 0x12; 0xA4; 0x42]%Z ++ replicate 40 5%Z).
  set (m2 := default (xErrno_Ok, (Writer 0 0 0, m))
    (xStunAttrWriteMessageIntegrity (Writer 20 28 0) m (Some 0) (Some [107]%Z))).
  destruct (stun_integrity_verifies (Writer 20 28 0) m 0 [107]%Z m2.2.2) as [(w' & m' & E & H) _].
  - split; cbn; lia.
  - reflexivity.
  - cbn. lia.
  - repeat constructor; unfold byte_ok; lia.
  - cbn. lia.
  - exists w', m'. split; [exact E|]. assert (m2.2.2 = m') as Em.
    { unfold m2. rewrite E. reflexivity. }
    rewrite Em in H. apply H. apply agree_refl.
Defined.

(** ** Messages *)

Definition header_bytes (type len : Z) (txn : list Z) : list Z :=
  be16 type ++ be16 len ++ be32 XSTUN_MAGIC_COOKIE ++ txn.

(** The encoder writes the header and the attributes in one piece. *)
Lemma xStunMsgEncode_eq msg buf p :
  length (txn_id msg) = 12 -> attrs msg = Some (p, 0) -> attrs_len msg = Z.of_nat (length p) ->
  20 + length p <= length buf ->
  exists b, xStunMsgEncode msg buf (Z.of_nat (length buf)) = ok (b, 20 + Z.of_nat (length p))%Z /\
    mem_write buf 0 (header_bytes (m_type msg) (attrs_len msg) (txn_id msg) ++ p) = Some b.
Proof.
  intros Ht Ha Hl Hle. unfold xStunMsgEncode. rewrite Ha, Hl.
  destruct (Z.ltb_spec (Z.of_nat (length buf)) (20 + Z.of_nat (length p))); [lia|].
  unfold header_bytes, XSTUN_HEADER_SIZE, read. rewrite <- !app_assoc, mem_write_app. cbn [fst snd].
  rewrite mem_write_Some by (rewrite length_be16; lia).
  rewrite lift_Some, fbind_ok. cbn [mbind option_bind]. rewrite length_be16, mem_write_app. change (0 + 2) with 2.
  rewrite mem_write_Some by (autorewrite with len; lia). rewrite lift_Some, fbind_ok. cbn [mbind option_bind].
  rewrite length_be16, mem_write_app. change (2 + 2) with 4. rewrite mem_write_Some by (autorewrite with len; lia).
  rewrite lift_Some, fbind_ok. cbn [mbind option_bind]. rewrite length_be32, mem_write_app. change (4 + 4) with 8.
  rewrite mem_write_Some by (autorewrite with len; lia). rewrite lift_Some, fbind_ok. cbn [mbind option_bind].
  rewrite Ht. change (8 + 12) with 20. set (b4 := take 8 _ ++ _).
  assert (length b4 = length buf) as Hb4 by (unfold b4; autorewrite with len; lia). clearbody b4.
  destruct (Z.ltb_spec 0 (Z.of_nat (length p))).
  - rewrite Nat2Z.id, mem_read_Some by lia. cbn [Nat.add]. rewrite drop_0, firstn_all, lift_Some, fbind_ok.
    rewrite mem_write_Some by lia. rewrite lift_Some, fbind_ok. eexists. split; [done|done].
  - destruct p; [|cbn in *; lia]. rewrite mem_write_nil by lia. eexists. split; [done|done].
Qed.

Lemma xStunMsgDecode_stands buf off type len txn p :
  (0 <= type < 2 ^ 14)%Z -> (0 <= len < 2 ^ 16)%Z -> length txn = 12 -> length p = Z.to_nat len ->
  stands buf off (header_bytes type len txn ++ p) ->
  xStunMsgDecode (buf, off) (20 + len) =
    Some (xErrno_Ok, Some (Msg type len txn (if (0 <? len)%Z then Some (buf, off + 20) else None) len)).
Proof.
  intros Hty Hlen Ht Hp Hs. unfold xStunMsgDecode, header_bytes, read_u8, read_u16, read_u32, read in *. cbn [fst snd].
  rewrite <- !app_assoc in Hs. destruct (Z.ltb_spec (20 + len) 20); [lia|].
  pose proof Hs as H0. unfold be16 at 1 in H0. cbn [app] in H0. rewrite Nat.add_0_r. rewrite (stands_lookup _ _ _ _ H0).
  cbn [mbind option_bind]. clear H0.
  assert (Z.land (u8 (Z.shiftr type 8)) 0xC0 = 0%Z) as ->.
  { assert (0 <= u8 (Z.shiftr type 8) < 64)%Z as Hb.
    { unfold u8. rewrite Z.shiftr_div_pow2 by lia.
      assert (type / 2 ^ 8 < 64)%Z by (apply Z.div_lt_upper_bound; lia).
      assert (0 <= type / 2 ^ 8)%Z by (apply Z.div_pos; lia). rewrite Z.mod_small; lia. }
    pose proof (range_exhaust 64 (fun c => Z.land c 0xC0 =? 0)%Z ltac:(vm_compute; reflexivity) _ Hb) as E.
    by apply Z.eqb_eq in E. }
  cbn [Z.eqb negb].
  apply stands_be16 in Hs as [E1 Hs]; [|lia]. apply stands_be16 in Hs as [E2 Hs]; [|lia].
  replace (off + 2 + 2) with (off + 4) in Hs by lia.
  rewrite (stands_get_be32 buf (off + 4) XSTUN_MAGIC_COOKIE _ ltac:(unfold XSTUN_MAGIC_COOKIE; lia) Hs).
  cbn [mbind option_bind]. rewrite Z.eqb_refl. cbn [negb]. rewrite E1. cbn [mbind option_bind].
  rewrite E2. cbn [mbind option_bind]. destruct (Z.ltb_spec (20 + len) (20 + len)); [lia|].
  apply stands_app in Hs as [_ Hs]. rewrite length_be32 in Hs. apply stands_app in Hs as [Hs _].
  replace (off + 4 + 4) with (off + 8) in Hs by lia. unfold XSTUN_TXN_ID_SIZE.
  apply stands_read in Hs. rewrite Ht in Hs. by rewrite Hs.
Qed.

(** A message whose type has its two top bits clear, encoded in a buffer
    with room, decodes to the same type, transaction id and attributes, and is
    recognized as STUN. *)
Theorem stun_msg_roundtrip msg buf p :
  (0 <= m_type msg < 2 ^ 14)%Z -> length (txn_id msg) = 12 -> attrs msg = Some (p, 0) ->
  attrs_len msg = Z.of_nat (length p) -> 0 < length p -> (Z.of_nat (length p) < 2 ^ 16)%Z -> 20 + length p <= length buf ->
  exists b n, xStunMsgEncode msg buf (Z.of_nat (length buf)) = ok (b, n) /\
    xStunMsgDecode (b, 0) n = Some (xErrno_Ok, Some (Msg (m_type msg) (attrs_len msg) (txn_id msg) (Some (b, 20)) (attrs_len msg))) /\
    read (b, 20) 0 (length p) = Some p /\ xStunMsgIsStun (Some (b, 0)) n = Some true.
Proof.
  intros Hty Ht Ha Hl Hp Hmax Hle. destruct (xStunMsgEncode_eq msg buf p Ht Ha Hl Hle) as (b & E & Ew).
  exists b, (20 + Z.of_nat (length p))%Z. split; [done|]. apply mem_write_stands in Ew.
  assert (length (header_bytes (m_type msg) (attrs_len msg) (txn_id msg)) = 20) as Hh.
  { unfold header_bytes. autorewrite with len. lia. }
  pose proof (xStunMsgDecode_stands b 0 (m_type msg) (attrs_len msg) (txn_id msg) p Hty ltac:(lia) Ht ltac:(lia) Ew) as Hd.
  rewrite Hl in Hd |- *. destruct (Z.ltb_spec 0 (Z.of_nat (length p))); [|lia]. cbn [Nat.add] in Hd.
  split; [exact Hd|]. split.
  - apply stands_app in Ew as [_ Ew]. rewrite Hh in Ew. apply stands_read in Ew. exact Ew.
  - unfold xStunMsgDecode in Hd. unfold xStunMsgIsStun.
    destruct (Z.ltb_spec (20 + Z.of_nat (length p)) 20); [lia|].
    destruct (read_u8 (b, 0) 0) as [b0|]; cbn [mbind option_bind] in *; [|done].
    destruct (negb (Z.land b0 0xC0 =? 0)%Z); [done|].
    destruct (read_u32 (b, 0) 4) as [ck|]; cbn [mbind option_bind] in *; [|done].
    by destruct (ck =? XSTUN_MAGIC_COOKIE)%Z.
Qed.

Lemma stun_msg_roundtrip_witness :
  let p := attr_wire 0x0024 [1; 2; 3; 4]%Z in
  let msg := Msg 0x0101 0 (replicate 12 7%Z) (Some (p, 0)) 8 in
  exists b n, xStunMsgEncode msg (replicate 30 0%Z) 30 = ok (b, n) /\
    xStunMsgDecode (b, 0) n = Some (xErrno_Ok, Some (Msg 0x0101 8 (replicate 12 7%Z) (Some (b, 20)) 8)) /\
    read (b, 20) 0 8 = Some p /\ xStunMsgIsStun (Some (b, 0)) n = Some true.
Proof.
  apply (stun_msg_roundtrip (Msg 0x0101 0 (replicate 12 7%Z) (Some (attr_wire 0x0024 [1; 2; 3; 4]%Z, 0)) 8)
    (replicate 30 0%Z) (attr_wire 0x0024 [1; 2; 3; 4]%Z)); cbn [m_type txn_id attrs attrs_len].
  - lia.
  - reflexivity.
  - reflexivity.
  - vm_compute. reflexivity.
  - apply Nat.ltb_lt. vm_compute. reflexivity.
  - vm_compute. reflexivity.
  - apply Nat.leb_le. vm_compute. reflexivity.
Defined.

(** [xStunAttrWriteErrorCode] compares the length with its 256-byte array
    only after cutting it to 16 bits: a reason whose length wraps to a small
    value passes the check, and its copy runs past the array. *)
Theorem stun_error_code_overflow w m code reason :
  (300 <= code <= 699)%Z -> 252 < length reason -> (u16 (Z.of_nat (4 + length reason)) <= 256)%Z ->
  xStunAttrWriteErrorCode w m code (Some reason) = None.
Proof.
  intros Hc Hr Hw. unfold xStunAttrWriteErrorCode.
  destruct (Z.ltb_spec code 300); [lia|]. destruct (Z.ltb_spec 699 code); [lia|]. cbn [orb].
  rewrite decide_False by (unfold u16_len; lia).
  rewrite mem_write_Some by (rewrite length_replicate; cbn [length]; lia). cbn [mbind option_bind].
  unfold mem_write at 1. rewrite decide_False; [done|]. autorewrite with len. cbn [length]. lia.
Qed.

Lemma stun_error_code_overflow_witness :
  xStunAttrWriteErrorCode (Writer 0 100 0) (replicate 100 0%Z) 400 (Some (replicate (Z.to_nat 65540) 97%Z)) = None.
Proof.
  apply stun_error_code_overflow.
  - lia.
  - rewrite length_replicate. lia.
  - rewrite length_replicate. unfold u16. rewrite Nat2Z.inj_add, Z2Nat.id by lia. vm_compute. discriminate.
Defined.
