(* ===== verification/StunTxn.v ===== *)
(** * StunTxn: STUN transactions ([libx/x/p2p/stun_txn.c])

    The manager, its transactions in the heap and the timers they have pending
    in the event loop.  A pointer to a transaction is a number that is never
    used again; a timer that fires looks its transaction up, so a timer left
    behind by a freed transaction would be undefined behaviour.  What the
    operations do outside (messages sent, callbacks) is a log.  The network,
    the allocator, the event loop and the random numbers answer as they like.
    A callback that uses the manager is a later operation: [txn_free] is
    modelled with callbacks that do not. *)

From S2P Require Import Prelude Errno Wire Md Hash Sha1 Hmac Crc32 Stun.

Definition XSTUN_TXN_MAX : nat := 32.
Definition XSTUN_MAX_MSG_SIZE : nat := 1280.
Definition XSTUN_INITIAL_RTO_MS : Z := 500.
Definition XSTUN_MAX_RETRANSMITS : Z := 7.

Definition sockaddr_len (a : sockaddr) : Z := match a with SockInet _ _ => 16 | SockInet6 _ _ => 28 | SockOther => 0 end.

Record xStunTxn := Txn {
  t_txn_id : list Z;
  t_msg_buf : list Z;
  t_msg_len : Z;
  t_dest : sockaddr;
  t_on_complete : bool;          (* not NULL *)
  t_ctx : nat;
  t_timer : option nat;
  t_retransmit_count : Z;
  t_rto_ms : Z;
  t_cancelled : bool;
}.

Definition response : Type := xStunMsg * sockaddr.

(** What is seen from outside: a message handed to [send_fn], a callback, and
    (so that it can be told from a failed send) a transaction taken up. *)
Inductive event :=
  | Sent (txn : nat) (data : list Z) (dest : sockaddr)
  | Called (txn : nat) (ctx : nat) (r : option response)
  | Started (txn : nat) (cb : bool).

Record state := State {
  count : nat;
  txns : list (option nat);      (* the array, NULL as [None] *)
  heap : gmap nat xStunTxn;
  timers : gmap nat (nat * Z);   (* pending in the event loop: transaction, delay *)
  fresh : nat;
  log : list event;
}.

Definition set_count (s : state) (n : nat) : state := State n (txns s) (heap s) (timers s) (fresh s) (log s).
Definition set_slot (s : state) (i : nat) (p : option nat) : ub state :=
  l ← mem_set (txns s) i p; Some (State (count s) l (heap s) (timers s) (fresh s) (log s)).
Definition set_heap (s : state) (h : gmap nat xStunTxn) : state := State (count s) (txns s) h (timers s) (fresh s) (log s).
Definition emit (s : state) (e : event) : state := State (count s) (txns s) (heap s) (timers s) (fresh s) (log s ++ [e]).

Definition set_timer (t : xStunTxn) (h : option nat) : xStunTxn :=
  Txn (t_txn_id t) (t_msg_buf t) (t_msg_len t) (t_dest t) (t_on_complete t) (t_ctx t) h (t_retransmit_count t) (t_rto_ms t) (t_cancelled t).
Definition set_cancelled (t : xStunTxn) : xStunTxn :=
  Txn (t_txn_id t) (t_msg_buf t) (t_msg_len t) (t_dest t) (t_on_complete t) (t_ctx t) (t_timer t) (t_retransmit_count t) (t_rto_ms t) true.
Definition backoff (t : xStunTxn) : xStunTxn :=
  Txn (t_txn_id t) (t_msg_buf t) (t_msg_len t) (t_dest t) (t_on_complete t) (t_ctx t) (t_timer t)
    (t_retransmit_count t + 1) (u32 (t_rto_ms t * 2)) (t_cancelled t).

(** [xTimerStart] and [xTimerStop] as their documentation has them: a one-shot
    timer is pending until it fires or is stopped; starting one may fail. *)
Definition xTimerStart (s : state) (works : bool) (p : nat) (delay : Z) : option nat * state :=
  if works then (Some (fresh s), State (count s) (txns s) (heap s) (<[fresh s := (p, delay)]> (timers s)) (S (fresh s)) (log s))
  else (None, s).
Definition xTimerStop (s : state) (h : nat) : state :=
  State (count s) (txns s) (heap s) (delete h (timers s)) (fresh s) (log s).

Definition txn_schedule_retransmit (works : bool) (p : nat) (s : state) : ub state :=
  t ← heap s !! p;
  let '(h, s) := xTimerStart s works p (t_rto_ms t) in
  Some (set_heap s (<[p := set_timer t h]> (heap s))).

Definition call (s : state) (p : nat) (t : xStunTxn) (r : option response) : state :=
  if t_on_complete t then emit s (Called p (t_ctx t) r) else s.

Definition wire (t : xStunTxn) : list Z := take (Z.to_nat (t_msg_len t)) (t_msg_buf t).

Definition txn_retransmit (works : bool) (p : nat) (s : state) : ub state :=
  t ← heap s !! p;
  let t := set_timer t None in
  let s := set_heap s (<[p := t]> (heap s)) in
  if t_cancelled t then Some s else
  if (XSTUN_MAX_RETRANSMITS <=? t_retransmit_count t)%Z then
    let t := set_cancelled t in
    Some (call (set_heap s (<[p := t]> (heap s))) p t None)
  else
    let s := emit s (Sent p (wire t) (t_dest t)) in
    let s := set_heap s (<[p := backoff t]> (heap s)) in
    txn_schedule_retransmit works p s.

(** The event loop fires a timer, which is no longer pending then. *)
Definition fire (works : bool) (h : nat) (s : state) : ub state :=
  match timers s !! h with
  | None => Some s
  | Some (p, _) => txn_retransmit works p (xTimerStop s h)
  end.

Definition xStunTxnMgrInit : state := State 0 (replicate XSTUN_TXN_MAX None) ∅ ∅ 0 [].

Definition stop_timer (p : nat) (t : xStunTxn) (s : state) : xStunTxn * state :=
  match t_timer t with
  | Some h => let t := set_timer t None in (t, set_heap (xTimerStop s h) (<[p := t]> (heap s)))
  | None => (t, s)
  end.

(** The end of [txn_free]: the array is compacted and the block freed. *)
Definition compact (index p : nat) (s : state) : ub state :=
  match count s with
  | O => None
  | S n =>
      let s := set_count s n in
      s ← (if decide (index < n) then last ← txns s !! n; set_slot s index last else Some s);
      s ← set_slot s n None;
      Some (set_heap s (delete p (heap s)))
  end.

Definition txn_free (index : nat) (s : state) : ub state :=
  slot ← txns s !! index;
  p ← slot;
  t ← heap s !! p;
  let '(t, s) := stop_timer p t s in
  let s := if negb (t_cancelled t) && t_on_complete t
           then let t := set_cancelled t in call (set_heap s (<[p := t]> (heap s))) p t None
           else s in
  compact index p s.

(** [while (mgr->count > 0)], with fuel for its rounds. *)
Fixpoint cancel_loop (fuel : nat) (s : state) : ub state :=
  match count s, fuel with
  | O, _ => Some s
  | S _, O => None
  | S _, S fuel => s ← txn_free 0 s; cancel_loop fuel s
  end.

Definition xStunTxnMgrCancelAll (s : state) : ub state := cancel_loop (count s) s.
Definition xStunTxnMgrDestroy (s : state) : ub state := xStunTxnMgrCancelAll s.

(** The loop of [txn_find], from slot [i] on; [None] is undefined, [Some None]
    its [-1]. *)
Fixpoint find_from (s : state) (id : list Z) (i n : nat) : ub (option nat) :=
  match n with
  | O => Some None
  | S n =>
      slot ← txns s !! i;
      p ← slot;
      t ← heap s !! p;
      if decide (t_txn_id t = id) then Some (Some i) else find_from s id (S i) n
  end.
Definition txn_find (s : state) (id : list Z) : ub (option nat) := find_from s id 0 (count s).

(** What the environment answers to one operation. *)
Record answers := Answers {
  calloc_works : bool;
  random : list Z;
  send_result : xErrno;
  timer_works : bool;
}.

(** The common end of the two sends: first request, timer, slot. *)
Definition txn_start (env : answers) (t : xStunTxn) (s : state) : ub (xErrno * state) :=
  let p := fresh s in
  let s := State (count s) (txns s) (<[p := t]> (heap s)) (timers s) (S p) (log s) in
  let s := emit s (Sent p (wire t) (t_dest t)) in
  if decide (send_result env = xErrno_Ok) then
    s ← txn_schedule_retransmit (timer_works env) p s;
    s ← set_slot s (count s) (Some p);
    Some (xErrno_Ok, emit (set_count s (S (count s))) (Started p (t_on_complete t)))
  else Some (send_result env, set_heap s (delete p (heap s))).

(** The caller's arguments other than the message; pointers may be NULL. *)
Record request := Request {
  q_dest : option sockaddr;
  q_send_fn : bool;
  q_on_complete : bool;
  q_cb_arg : nat;
}.

Definition new_txn (id buf : list Z) (len : Z) (dest : sockaddr) (q : request) : xStunTxn :=
  Txn id buf len dest (q_on_complete q) (q_cb_arg q) None 0 XSTUN_INITIAL_RTO_MS false.

Definition generate_txn_id (rand : list Z) : list Z := (fun r => u8 (Z.land r 0xFF)) <$> take XSTUN_TXN_ID_SIZE rand.

Definition xStunTxnMgrSend (env : answers) (mgr : bool) (msg_type : Z) (attrs : option ptr) (attrs_len : Z) (q : request) (s : state)
    : ub (xErrno * state) :=
  match mgr, q_dest q, q_send_fn q with
  | true, Some dest, true =>
      if decide (XSTUN_TXN_MAX <= count s) then Some (xErrno_NoMemory, s) else
      if negb (calloc_works env) then Some (xErrno_NoMemory, s) else
      let id := generate_txn_id (random env) in
      msg ← xStunMsgInit msg_type id;
      r ← xStunMsgEncode (Msg (m_type msg) (m_length msg) (txn_id msg) attrs attrs_len)
            (replicate XSTUN_MAX_MSG_SIZE 0%Z) (Z.of_nat XSTUN_MAX_MSG_SIZE);
      match r with
      | None => Some (xErrno_NoMemory, s)
      | Some (buf, encoded) =>
          if (sockaddr_len dest =? 0)%Z then Some (xErrno_InvalidArg, s) else
          txn_start env (new_txn id buf encoded dest q) s
      end
  | _, _, _ => Some (xErrno_InvalidArg, s)
  end.

Definition xStunTxnMgrSendRaw (env : answers) (mgr : bool) (msg_buf : option ptr) (msg_len : Z) (q : request) (s : state)
    : ub (xErrno * state) :=
  match mgr, msg_buf, q_dest q, q_send_fn q with
  | true, Some src, Some dest, true =>
      if (msg_len <? Z.of_nat XSTUN_HEADER_SIZE)%Z || (Z.of_nat XSTUN_MAX_MSG_SIZE <? msg_len)%Z then Some (xErrno_InvalidArg, s) else
      if decide (XSTUN_TXN_MAX <= count s) then Some (xErrno_NoMemory, s) else
      if negb (calloc_works env) then Some (xErrno_NoMemory, s) else
      id ← read src 8 XSTUN_TXN_ID_SIZE;
      bytes ← read src 0 (Z.to_nat msg_len);
      buf ← mem_write (replicate XSTUN_MAX_MSG_SIZE 0%Z) 0 bytes;
      if (sockaddr_len dest =? 0)%Z then Some (xErrno_InvalidArg, s) else
      txn_start env (new_txn id buf msg_len dest q) s
  | _, _, _, _ => Some (xErrno_InvalidArg, s)
  end.

Definition xStunTxnMgrOnResponse (mgr : bool) (msg : option xStunMsg) (from : sockaddr) (s : state) : ub (bool * state) :=
  match mgr, msg with
  | true, Some msg =>
      idx ← txn_find s (txn_id msg);
      match idx with
      | None => Some (false, s)
      | Some i =>
          slot ← txns s !! i;
          p ← slot;
          t ← heap s !! p;
          let '(t, s) := stop_timer p t s in
          let t := set_cancelled t in
          s ← txn_free i (set_heap s (<[p := t]> (heap s)));
          Some (true, call s p t (Some (msg, from)))
      end
  | _, _ => Some (false, s)
  end.

(** ** What the log tells of one transaction *)

Definition ev_txn (e : event) : nat := match e with Sent p _ _ | Called p _ _ | Started p _ => p end.

Definition about (p : nat) (l : list event) : list event := filter (fun e => ev_txn e = p) l.

(** It was sent, taken up, sent again [k] times, and called back. *)
Definition story (p : nat) (data : list Z) (dest : sockaddr) (cb : bool) (ctx k : nat) (calls : list (option response)) : list event :=
  [Sent p data dest; Started p cb] ++ replicate k (Sent p data dest) ++ (if cb then Called p ctx <$> calls else []).

(** The callbacks a finished transaction may have had: one, or the timeout's
    and a late response's. *)
Definition calls_ok (k : nat) (calls : list (option response)) : Prop :=
  (exists r, calls = [r]) \/ k = 7 /\ exists r, calls = [None; Some r].

Definition gone_ok (p : nat) (l : list event) : Prop :=
  about p l = [] \/ (exists data dest, about p l = [Sent p data dest]) \/
  exists data dest cb ctx k calls, about p l = story p data dest cb ctx k calls /\ k <= 7 /\ calls_ok k calls.

Record live_ok (s : state) (p : nat) (t : xStunTxn) : Prop := {
  lv_cancelled : t_cancelled t = true -> t_timer t = None /\ t_retransmit_count t = 7%Z;
  lv_timer h : t_timer t = Some h -> timers s !! h = Some (p, t_rto_ms t);
  lv_count : (0 <= t_retransmit_count t <= 7)%Z;
  lv_rto : t_rto_ms t = (500 * 2 ^ t_retransmit_count t)%Z;
  lv_story : about p (log s) =
    story p (wire t) (t_dest t) (t_on_complete t) (t_ctx t) (Z.to_nat (t_retransmit_count t)) (if t_cancelled t then [None] else []);
}.

(** The transactions [ps], in the order of their slots. *)
Record mgr_ok (s : state) (ps : list nat) : Prop := {
  mo_slots : txns s = (Some <$> ps) ++ replicate (XSTUN_TXN_MAX - length ps) None;
  mo_count : count s = length ps;
  mo_max : length ps <= XSTUN_TXN_MAX;
  mo_nodup : NoDup ps;
  mo_heap p : p ∈ ps <-> is_Some (heap s !! p);
  mo_live p t : heap s !! p = Some t -> live_ok s p t;
  mo_timer h p d : timers s !! h = Some (p, d) -> exists t, heap s !! p = Some t /\ t_timer t = Some h;
  mo_fresh p : p ∈ ps -> p < fresh s;
  mo_handle h : is_Some (timers s !! h) -> h < fresh s;
  mo_log e : e ∈ log s -> ev_txn e < fresh s;
  mo_gone p : heap s !! p = None -> gone_ok p (log s);
}.

Lemma about_app p l l' : about p (l ++ l') = about p l ++ about p l'.
Proof. apply filter_app. Qed.

Lemma about_other p l : Forall (fun e => ev_txn e <> p) l -> about p l = [].
Proof.
  induction 1 as [|e l He _ IH]; [done|]. unfold about. rewrite filter_cons_False by done. exact IH.
Qed.

Lemma about_new s ps p : mgr_ok s ps -> fresh s <= p -> about p (log s) = [].
Proof. intros H Hp. apply about_other, Forall_forall. intros e He%(mo_log _ _ H). lia. Qed.

(** A live transaction changes; everything else stays. *)
Lemma txn_update_ok s ps p t t' tm fr evs :
  mgr_ok s ps -> heap s !! p = Some t ->
  Forall (fun e => ev_txn e = p) evs -> fresh s <= fr ->
  (forall h q d, q <> p -> tm !! h = Some (q, d) <-> timers s !! h = Some (q, d)) ->
  (forall h d, tm !! h = Some (p, d) -> t_timer t' = Some h /\ h < fr) ->
  let s' := State (count s) (txns s) (<[p := t']> (heap s)) tm fr (log s ++ evs) in
  live_ok s' p t' -> mgr_ok s' ps.
Proof.
  intros H Ht Hev Hfr Htm Hp s' Hl. subst s'. pose proof H as [].
  assert (forall q, q <> p -> about q (log s ++ evs) = about q (log s)) as Hab.
  { intros q Hq. rewrite about_app, (about_other q evs), app_nil_r; [done|]. eapply Forall_impl; [done|]. by intros e ->. }
  assert (p ∈ ps) as Hin by (apply mo_heap0; by exists t).
  split; try done; cbn [count txns heap timers fresh log].
  - intros q. destruct (decide (p = q)) as [->|]; [rewrite lookup_insert_eq; by split; [eexists|]|]. by rewrite lookup_insert_ne.
  - intros q u. destruct (decide (p = q)) as [->|Hne]; [rewrite lookup_insert_eq; by intros [= <-]|]. rewrite lookup_insert_ne by done.
    intros Hu. destruct (mo_live0 q u Hu) as []. split; try done; [|by rewrite Hab].
    intros h Hh. apply Htm; [done|]. by apply lv_timer0.
  - intros h q d Hh. destruct (decide (p = q)) as [->|Hne].
    + exists t'. rewrite lookup_insert_eq. split; [done|]. by eapply Hp.
    + rewrite lookup_insert_ne by done. eapply mo_timer0, Htm; [|done]. done.
  - intros q Hq%mo_fresh0. lia.
  - intros h [[q d] Hh]. destruct (decide (q = p)) as [->|Hne]; [by eapply Hp|]. apply Htm in Hh; [|done]. assert (h < fresh s) by eauto. lia.
  - intros e [He%mo_log0|He]%elem_of_app; [lia|]. rewrite Forall_forall in Hev. rewrite (Hev e He). apply mo_fresh0 in Hin. lia.
  - intros q Hq. assert (q <> p) as Hne by (intros ->; by rewrite lookup_insert_eq in Hq). rewrite lookup_insert_ne in Hq by done.
    unfold gone_ok. rewrite (Hab q Hne). by apply mo_gone0.
Qed.

(** The array without slot [i]: the last takes its place. *)
Definition swap_remove (i : nat) (ps : list nat) : list nat :=
  let n := pred (length ps) in
  if decide (i < n) then match ps !! n with Some q => <[i := q]> (take n ps) | None => [] end else take n ps.

Lemma swap_remove_perm i ps p : ps !! i = Some p -> ps ≡ₚ p :: swap_remove i ps.
Proof.
  intros Hi. destruct ps as [|l qs _] using rev_ind; [done|]. unfold swap_remove. rewrite length_app, Nat.add_1_r. cbn [pred].
  rewrite lookup_app_r, Nat.sub_diag by lia. cbn. rewrite take_app_length. case_decide as Hlt.
  - rewrite lookup_app_l in Hi by done. rewrite <- (take_drop_middle qs i p Hi) at 1. rewrite insert_take_drop by done.
    rewrite <- !app_assoc. cbn. rewrite <- Permutation_middle. constructor. f_equiv. by rewrite <- Permutation_cons_append.
  - apply lookup_lt_Some in Hi as Hb. rewrite length_app in Hb. cbn in Hb. assert (i = length qs) as -> by lia.
    rewrite lookup_app_r, Nat.sub_diag in Hi by done. injection Hi as ->. by rewrite <- Permutation_cons_append.
Qed.

Lemma swap_remove_slots i ps p : ps !! i = Some p -> length ps <= XSTUN_TXN_MAX ->
  let l := (Some <$> ps) ++ replicate (XSTUN_TXN_MAX - length ps) None in
  let n := pred (length ps) in
  exists last, l !! n = Some (Some last) /\
  <[n := None]> (if decide (i < n) then <[i := Some last]> l else l) =
  (Some <$> swap_remove i ps) ++ replicate (XSTUN_TXN_MAX - length (swap_remove i ps)) None.
Proof.
  intros Hi Hmax l n. subst n. apply swap_remove_perm in Hi as Hperm. apply Permutation_length in Hperm. cbn in Hperm.
  destruct ps as [|x qs _] using rev_ind; [done|]. rewrite length_app, Nat.add_1_r in *. cbn [pred] in *.
  assert (length (swap_remove i (qs ++ [x])) = length qs) as -> by lia.
  assert (l = (Some <$> qs) ++ Some x :: replicate (XSTUN_TXN_MAX - S (length qs)) None) as ->.
  { unfold l. rewrite length_app, Nat.add_1_r, fmap_app, <- app_assoc. done. }
  assert (forall r : list (option nat), length r = length qs -> <[length qs := None]> (r ++ Some x :: replicate (XSTUN_TXN_MAX - S (length qs)) None)
    = r ++ replicate (XSTUN_TXN_MAX - length qs) None) as Hins.
  { intros r Hr. rewrite insert_app_r_alt, Hr, Nat.sub_diag by lia. f_equal. by replace (XSTUN_TXN_MAX - length qs) with (S (XSTUN_TXN_MAX - S (length qs))) by lia. }
  exists x.
  split; [by rewrite lookup_app_r, length_fmap, Nat.sub_diag by (rewrite length_fmap; lia)|].
  unfold swap_remove. rewrite length_app, Nat.add_1_r. cbn [pred]. rewrite lookup_app_r, Nat.sub_diag, take_app_length by lia. cbn [lookup list_lookup].
  case_decide as Hlt.
  - rewrite insert_app_l by (by rewrite length_fmap). rewrite list_fmap_insert. by rewrite Hins by (by rewrite length_insert, length_fmap).
  - by rewrite Hins by (by rewrite length_fmap).
Qed.

(** ** The operations keep it *)

Definition timers_without (t : xStunTxn) (s : state) : gmap nat (nat * Z) :=
  match t_timer t with Some h => delete h (timers s) | None => timers s end.

Lemma stop_timer_eq p t s : heap s !! p = Some t ->
  stop_timer p t s =
  (set_timer t None, State (count s) (txns s) (<[p := set_timer t None]> (heap s)) (timers_without t s) (fresh s) (log s)).
Proof.
  intros Ht. unfold stop_timer, timers_without. destruct (t_timer t) as [h|] eqn:Eh; [done|].
  assert (set_timer t None = t) as -> by (destruct t; cbn in *; by rewrite Eh). rewrite insert_id by done. by destruct s.
Qed.

(** Only the timer of [p] goes. *)
Lemma timers_without_ok s ps p t : mgr_ok s ps -> heap s !! p = Some t ->
  (forall h q d, q <> p -> timers_without t s !! h = Some (q, d) <-> timers s !! h = Some (q, d)) /\
  (forall h d, timers_without t s !! h <> Some (p, d)).
Proof.
  intros H Ht. unfold timers_without. pose proof (mo_live _ _ H _ _ Ht) as Hl. split.
  - intros h q d Hq. destruct (t_timer t) as [h0|] eqn:Eh; [|done]. apply (lv_timer _ _ _ Hl) in Eh.
    rewrite lookup_delete_Some. split; [by intros [_ ?]|]. intros E. split; [|done]. intros ->. congruence.
  - intros h d E. assert (timers s !! h = Some (p, d)) as E'.
    { destruct (t_timer t); [by apply lookup_delete_Some in E as [_ ?]|done]. }
    apply (mo_timer _ _ H) in E' as (u & Hu & Eh). simplify_eq. rewrite Eh, lookup_delete_eq in E. done.
Qed.

Lemma compact_eq s ps i p :
  txns s = (Some <$> ps) ++ replicate (XSTUN_TXN_MAX - length ps) None -> count s = length ps -> length ps <= XSTUN_TXN_MAX ->
  ps !! i = Some p ->
  compact i p s = Some (State (pred (length ps)) ((Some <$> swap_remove i ps) ++ replicate (XSTUN_TXN_MAX - length (swap_remove i ps)) None)
    (delete p (heap s)) (timers s) (fresh s) (log s)).
Proof.
  intros Hs Hc Hm Hi. unfold compact. rewrite Hc. destruct (length ps) as [|n] eqn:El; [by destruct ps|].
  destruct (swap_remove_slots i ps p Hi) as (l & Hl & Hsw); [lia|]. rewrite El in Hl, Hsw. cbn [pred] in *. rewrite <- Hs in Hl, Hsw.
  assert (n < length (txns s)) as Hn by (by eapply lookup_lt_Some).
  unfold set_slot. destruct (decide (i < n)) as [Hlt|Hlt]; cbn [set_count txns].
  - rewrite Hl. cbn [mbind option_bind]. rewrite mem_set_Some by lia. cbn [mbind option_bind txns].
    rewrite mem_set_Some by (rewrite length_insert; lia). cbn [mbind option_bind]. by rewrite Hsw.
  - cbn [mbind option_bind]. rewrite mem_set_Some by done. cbn [mbind option_bind set_count txns]. by rewrite Hsw.
Qed.

(** A transaction that is over leaves the manager in order. *)
Lemma removed_ok s ps i p t evs :
  mgr_ok s ps -> ps !! i = Some p -> heap s !! p = Some t -> Forall (fun e => ev_txn e = p) evs -> gone_ok p (log s ++ evs) ->
  mgr_ok (State (pred (length ps)) ((Some <$> swap_remove i ps) ++ replicate (XSTUN_TXN_MAX - length (swap_remove i ps)) None)
    (delete p (heap s)) (timers_without t s) (fresh s) (log s ++ evs)) (swap_remove i ps).
Proof.
  intros H Hi Ht Hev Hg. destruct (timers_without_ok _ _ _ _ H Ht) as [Hoth Hno]. pose proof H as [].
  apply swap_remove_perm in Hi as Hperm. apply Permutation_length in Hperm as Hlen. cbn in Hlen.
  assert (forall q, q <> p -> about q (log s ++ evs) = about q (log s)) as Hab.
  { intros q Hq. rewrite about_app, (about_other q evs), app_nil_r; [done|]. eapply Forall_impl; [done|]. by intros e ->. }
  assert (NoDup (p :: swap_remove i ps)) as [Hnp Hnd]%NoDup_cons by by rewrite <- Hperm.
  assert (forall q, q ∈ swap_remove i ps <-> q <> p /\ q ∈ ps) as Hmem.
  { intros q. pose proof (elem_of_Permutation_proper q _ _ Hperm) as ->. rewrite elem_of_cons. split; [|by intros [? [?|?]]]. intros Hq. split; [by intros ->|by right]. }
  split; try done; cbn [count txns heap timers fresh log].
  - lia.
  - lia.
  - intros q. rewrite Hmem, mo_heap0, lookup_delete_is_Some. by split; intros [? ?].
  - intros q u [Hq Hu]%lookup_delete_Some. destruct (mo_live0 q u Hu) as []. split; try done; [|by rewrite Hab].
    intros h Hh. apply Hoth; [done|]. by apply lv_timer0.
  - intros h q d Hh. destruct (decide (q = p)) as [->|Hne]; [by apply Hno in Hh|]. apply Hoth in Hh; [|done].
    destruct (mo_timer0 h q d Hh) as (u & Hu & Eu). exists u. by rewrite lookup_delete_ne.
  - intros q [_ Hq]%Hmem. by apply mo_fresh0.
  - intros h [[q d] Hh]. destruct (decide (q = p)) as [->|Hne]; [by apply Hno in Hh|]. apply Hoth in Hh; [|done]. by eauto.
  - intros e [He%mo_log0|He]%elem_of_app; [done|]. rewrite Forall_forall in Hev. rewrite (Hev e He). apply mo_fresh0, mo_heap0. by exists t.
  - intros q Hq. destruct (decide (q = p)) as [->|Hne]; [done|]. rewrite lookup_delete_ne in Hq by done.
    unfold gone_ok. rewrite Hab by done. by apply mo_gone0.
Qed.

Lemma about_call p t r : about p (if t_on_complete t then [Called p (t_ctx t) r] else []) = if t_on_complete t then [Called p (t_ctx t) r] else [].
Proof. destruct (t_on_complete t); [|done]. unfold about. by rewrite filter_cons_True. Qed.

(** One callback more in the story. *)
Lemma story_call p data dest (cb : bool) ctx k calls r :
  story p data dest cb ctx k calls ++ (if cb then [Called p ctx r] else []) = story p data dest cb ctx k (calls ++ [r]).
Proof. unfold story. rewrite <- !app_assoc. do 2 f_equal. destruct cb; [by rewrite fmap_app|done]. Qed.

Lemma story_resend p data dest cb ctx k : story p data dest cb ctx k [] ++ [Sent p data dest] = story p data dest cb ctx (S k) [].
Proof.
  unfold story. assert ((if cb then Called p ctx <$> [] else []) = []) as -> by (by destruct cb).
  rewrite !app_nil_r, <- app_assoc. do 2 f_equal. replace (S k) with (k + 1) by lia. by rewrite replicate_add.
Qed.

Lemma call_eq s p t r : call s p t r = State (count s) (txns s) (heap s) (timers s) (fresh s)
  (log s ++ if t_on_complete t then [Called p (t_ctx t) r] else []).
Proof. unfold call. destruct (t_on_complete t); [done|]. rewrite app_nil_r. by destruct s. Qed.

Lemma call_about p t (r : option response) : Forall (fun e => ev_txn e = p) (if t_on_complete t then [Called p (t_ctx t) r] else []).
Proof. destruct (t_on_complete t); by repeat constructor. Qed.

(** The rest of the state once the timer that fires is gone. *)
Lemma fired_timers s ps h p d : mgr_ok s ps -> timers s !! h = Some (p, d) ->
  (forall h' q d', q <> p -> delete h (timers s) !! h' = Some (q, d') <-> timers s !! h' = Some (q, d')) /\
  (forall h' d', delete h (timers s) !! h' <> Some (p, d')).
Proof.
  intros H Hh. destruct (mo_timer _ _ H _ _ _ Hh) as (t & Ht & Eh). pose proof (timers_without_ok _ _ _ _ H Ht) as Hw.
  unfold timers_without in Hw. by rewrite Eh in Hw.
Qed.

Ltac fields := cbn [t_cancelled t_timer t_retransmit_count t_rto_ms t_dest t_on_complete t_ctx set_timer backoff set_cancelled new_txn
  count txns heap timers fresh log].

Lemma fire_ok s ps works h : mgr_ok s ps -> exists s', fire works h s = Some s' /\ mgr_ok s' ps.
Proof.
  intros H. unfold fire. destruct (timers s !! h) as [[p d]|] eqn:Hh; [|by exists s].
  destruct (mo_timer _ _ H _ _ _ Hh) as (t & Ht & Eh). destruct (fired_timers _ _ _ _ _ H Hh) as [Hoth Hno].
  pose proof (mo_live _ _ H _ _ Ht) as []. destruct (t_cancelled t) eqn:Ec; [destruct (lv_cancelled0 eq_refl); congruence|].
  assert (p < fresh s) as Hfr by (apply (mo_fresh _ _ H), (mo_heap _ _ H); by exists t).
  unfold txn_retransmit. cbn [xTimerStop heap]. rewrite Ht. cbn [mbind option_bind set_timer t_cancelled]. rewrite Ec.
  change (t_retransmit_count (set_timer t None)) with (t_retransmit_count t). destruct (XSTUN_MAX_RETRANSMITS <=? t_retransmit_count t)%Z eqn:Ek.
  - apply Z.leb_le in Ek. unfold XSTUN_MAX_RETRANSMITS in Ek. eexists. split; [done|]. rewrite call_eq. cbn. rewrite insert_insert_eq.
    apply (txn_update_ok _ _ p t); try done; [apply (call_about p t)|by intros h' d' E; apply Hno in E|].
    split; try done; cbn [t_retransmit_count set_cancelled]; [intros _; split; [done|cbn; lia]|].
    cbn [log]. rewrite about_app, lv_story0, about_call. apply story_call.
  - apply Z.leb_gt in Ek. unfold XSTUN_MAX_RETRANSMITS in Ek.
    unfold txn_schedule_retransmit, emit, set_heap, xTimerStop, xTimerStart. cbn. rewrite insert_insert_eq, lookup_insert_eq. cbn [mbind option_bind].
    assert (u32 (t_rto_ms t * 2) = 500 * 2 ^ (t_retransmit_count t + 1))%Z as Ertrt.
    { unfold u32. rewrite Z.mod_small; [rewrite lv_rto0, Z.pow_add_r by lia; lia|]. rewrite lv_rto0.
      assert (1 <= 2 ^ t_retransmit_count t <= 2 ^ 6)%Z by (split; [apply (Z.pow_le_mono_r 2 0); lia|apply Z.pow_le_mono_r; lia]). lia. }
    destruct works; cbn [t_rto_ms backoff set_timer]; (eexists; split; [done|]); cbn [heap count txns timers fresh log]; rewrite insert_insert_eq.
    + apply (txn_update_ok _ _ p t); try done.
      * by repeat constructor.
      * lia.
      * intros h' q d' Hq. destruct (decide (fresh s = h')) as [<-|Hne]; [|rewrite lookup_insert_ne by done; by apply Hoth].
        rewrite lookup_insert_eq. split; [congruence|]. intros E.
        assert (fresh s < fresh s) by (apply (mo_handle _ _ H); by exists (q, d')). lia.
      * intros h' d'. cbn. destruct (decide (fresh s = h')) as [<-|Hne]; [split; [done|lia]|]. rewrite lookup_insert_ne by done. by intros E%Hno.
      * split; fields; try done; [congruence|intros h' [= <-]; by rewrite lookup_insert_eq|lia|].
        rewrite about_app, lv_story0, ?Ec. replace (Z.to_nat (t_retransmit_count t + 1)) with (S (Z.to_nat (t_retransmit_count t))) by lia.
        rewrite <- story_resend. f_equal. unfold about. by rewrite filter_cons_True.
    + apply (txn_update_ok _ _ p t); try done.
      * by repeat constructor.
      * by intros h' d' E%Hno.
      * split; fields; try done; [congruence|lia|].
        rewrite about_app, lv_story0, ?Ec. replace (Z.to_nat (t_retransmit_count t + 1)) with (S (Z.to_nat (t_retransmit_count t))) by lia.
        rewrite <- story_resend. f_equal. unfold about. by rewrite filter_cons_True.
Qed.

(** The array holds the transactions. *)
Lemma slot_live s ps i p : mgr_ok s ps -> ps !! i = Some p -> txns s !! i = Some (Some p) /\ exists t, heap s !! p = Some t.
Proof.
  intros H Hi. split.
  - rewrite (mo_slots _ _ H), lookup_app_l by (rewrite length_fmap; by eapply lookup_lt_Some). by rewrite list_lookup_fmap, Hi.
  - apply (mo_heap _ _ H). by eapply list_elem_of_lookup_2.
Qed.

(** A live transaction that is called back once more is over. *)
Lemma cancel_over s p t : live_ok s p t ->
  gone_ok p (log s ++ if negb (t_cancelled t) && t_on_complete t then [Called p (t_ctx t) None] else []).
Proof.
  intros []. right. right. exists (wire t), (t_dest t), (t_on_complete t), (t_ctx t), (Z.to_nat (t_retransmit_count t)), [None].
  split; [|split; [lia|left; by eexists]]. destruct (t_cancelled t); cbn [negb andb]; [by rewrite app_nil_r|].
  rewrite about_app, lv_story0, about_call. apply story_call.
Qed.

Lemma response_over s p t r : live_ok s p t ->
  gone_ok p (log s ++ if t_on_complete t then [Called p (t_ctx t) (Some r)] else []).
Proof.
  intros []. right. right.
  exists (wire t), (t_dest t), (t_on_complete t), (t_ctx t), (Z.to_nat (t_retransmit_count t)), ((if t_cancelled t then [None] else []) ++ [Some r]).
  split; [rewrite about_app, lv_story0, about_call; apply story_call|]. split; [lia|].
  destruct (t_cancelled t); [right|left; by eexists]. destruct (lv_cancelled0 eq_refl) as [_ ->]. split; [done|by eexists].
Qed.

Lemma free_ok s ps i p : mgr_ok s ps -> ps !! i = Some p -> exists s', txn_free i s = Some s' /\ mgr_ok s' (swap_remove i ps).
Proof.
  intros H Hi. destruct (slot_live _ _ _ _ H Hi) as [Hs (t & Ht)]. pose proof (mo_live _ _ H _ _ Ht) as Hl.
  pose proof (cancel_over _ _ _ Hl) as Hg. unfold txn_free. rewrite Hs. cbn [mbind option_bind]. rewrite Ht. cbn [mbind option_bind].
  rewrite stop_timer_eq by done. fields. destruct (negb (t_cancelled t) && t_on_complete t) eqn:Ecb.
  - rewrite call_eq. fields. apply andb_prop in Ecb as [_ Eo]. rewrite Eo in *. unfold set_heap. fields. rewrite insert_insert_eq.
    rewrite (compact_eq _ ps i p) by (try apply H; done). eexists. split; [done|]. fields. rewrite delete_insert_eq.
    apply removed_ok; try done. by repeat constructor.
  - rewrite (compact_eq _ ps i p) by (try apply H; done). eexists. split; [done|]. fields. rewrite delete_insert_eq.
    rewrite <- (app_nil_r (log s)). by apply removed_ok.
Qed.

Lemma cancel_loop_ok fuel s ps : mgr_ok s ps -> length ps <= fuel -> exists s', cancel_loop fuel s = Some s' /\ mgr_ok s' [].
Proof.
  revert s ps. induction fuel as [|fuel IH]; intros s ps H Hf; cbn [cancel_loop]; rewrite (mo_count _ _ H).
  - destruct ps; [by exists s|]. cbn in Hf. lia.
  - destruct ps as [|p ps]; [by exists s|]. destruct (free_ok s (p :: ps) 0 p H eq_refl) as (s1 & E & H1). cbn [length]. rewrite E.
    cbn [mbind option_bind]. apply (IH _ _ H1). pose proof (swap_remove_perm 0 (p :: ps) p eq_refl) as Hp%Permutation_length. cbn in Hp, Hf. lia.
Qed.

Lemma find_from_ok s ps id i n : mgr_ok s ps -> i + n = length ps ->
  exists r, find_from s id i n = Some r /\
  match r with
  | Some j => exists p t, ps !! j = Some p /\ heap s !! p = Some t /\ t_txn_id t = id
  | None => forall j p t, i <= j -> ps !! j = Some p -> heap s !! p = Some t -> t_txn_id t <> id
  end.
Proof.
  intros H. revert i. induction n as [|n IH]; intros i Hn; cbn [find_from].
  - exists None. split; [done|]. intros j p t Hj Hp%lookup_lt_Some. lia.
  - destruct (lookup_lt_is_Some_2 ps i) as [p Hp]; [lia|]. destruct (slot_live _ _ _ _ H Hp) as [-> (t & Ht)]. cbn [mbind option_bind].
    rewrite Ht. cbn [mbind option_bind]. case_decide as Eid; [exists (Some i); eauto 6|].
    destruct (IH (S i)) as (r & -> & Hr); [lia|]. exists r. split; [done|]. destruct r; [done|].
    intros j q u Hj Hq Hu. destruct (decide (j = i)) as [->|]; [congruence|]. eapply (Hr j q); [lia|done..].
Qed.

Lemma response_ok s ps mgr msg from : mgr_ok s ps ->
  exists b s', xStunTxnMgrOnResponse mgr msg from s = Some (b, s') /\ exists ps', mgr_ok s' ps'.
Proof.
  intros H. unfold xStunTxnMgrOnResponse. destruct mgr; [|by exists false, s; eauto]. destruct msg as [msg|]; [|by exists false, s; eauto].
  destruct (find_from_ok s ps (txn_id msg) 0 (count s) H) as (r & E & Hr); [by rewrite (mo_count _ _ H)|]. unfold txn_find. rewrite E.
  cbn [mbind option_bind]. destruct r as [i|]; [|by exists false, s; eauto]. destruct Hr as (p & t & Hi & Ht & _).
  destruct (slot_live _ _ _ _ H Hi) as [Hs _]. rewrite Hs. cbn [mbind option_bind]. rewrite Ht. cbn [mbind option_bind].
  rewrite stop_timer_eq by done. unfold txn_free, set_heap. fields. rewrite Hs. cbn [mbind option_bind]. rewrite insert_insert_eq, lookup_insert_eq.
  cbn [mbind option_bind]. unfold stop_timer. fields. cbn [negb andb]. rewrite (compact_eq _ ps i p) by (try apply H; done).
  cbn [mbind option_bind]. eexists _, _. split; [done|]. exists (swap_remove i ps). rewrite call_eq. fields. rewrite delete_insert_eq.
  apply removed_ok; try done; [apply (call_about p t)|]. apply (response_over s). by apply (mo_live _ _ H).
Qed.

(** A transaction that was just made. *)
Definition new_ok (t : xStunTxn) : Prop :=
  t_timer t = None /\ t_retransmit_count t = 0%Z /\ t_rto_ms t = 500%Z /\ t_cancelled t = false.

Lemma slots_snoc (ps : list nat) p : length ps < XSTUN_TXN_MAX ->
  <[length ps := Some p]> ((Some <$> ps) ++ replicate (XSTUN_TXN_MAX - length ps) None) =
  (Some <$> (ps ++ [p])) ++ replicate (XSTUN_TXN_MAX - length (ps ++ [p])) None.
Proof.
  intros H. rewrite insert_app_r_alt, length_fmap, Nat.sub_diag by (rewrite length_fmap; lia).
  rewrite length_app, Nat.add_1_r, fmap_app, <- app_assoc. f_equal.
  by replace (XSTUN_TXN_MAX - length ps) with (S (XSTUN_TXN_MAX - S (length ps))) by lia.
Qed.

(** The new transaction takes the next slot, with its timer or without. *)
Lemma added_ok s ps t h tm fr :
  mgr_ok s ps -> length ps < XSTUN_TXN_MAX -> new_ok t ->
  (h = None /\ tm = timers s /\ fr = S (fresh s) \/
   h = Some (S (fresh s)) /\ tm = <[S (fresh s) := (fresh s, 500%Z)]> (timers s) /\ fr = S (S (fresh s))) ->
  let p := fresh s in
  mgr_ok (State (S (count s)) ((Some <$> (ps ++ [p])) ++ replicate (XSTUN_TXN_MAX - length (ps ++ [p])) None)
    (<[p := set_timer t h]> (heap s)) tm fr
    (log s ++ [Sent p (wire t) (t_dest t); Started p (t_on_complete t)])) (ps ++ [p]).
Proof.
  intros H Hlt (Et & Ek & Er & Ec) Hh p. pose proof H as []. set (evs := [_; _]).
  assert (forall q, q <> p -> about q (log s ++ evs) = about q (log s)) as Hab.
  { intros q Hq. rewrite about_app, (about_other q evs), app_nil_r; [done|]. by repeat constructor; cbn; intros <-. }
  assert (p ∉ ps) as Hnew by (intros Hin%mo_fresh0; subst p; lia).
  assert (forall x q d, q <> p -> tm !! x = Some (q, d) <-> timers s !! x = Some (q, d)) as Hoth.
  { intros x q d Hq. destruct Hh as [(-> & -> & ->)|(-> & -> & ->)]; [done|]. destruct (decide (x = S p)) as [->|]; [|by rewrite lookup_insert_ne].
    subst p. rewrite lookup_insert_eq. split; [congruence|]. intros E. assert (S (fresh s) < fresh s) by (apply mo_handle0; by exists (q, d)). lia. }
  assert (forall x d, tm !! x = Some (p, d) -> h = Some x /\ x < fr) as Hmine.
  { intros x d Hx. destruct Hh as [(-> & -> & ->)|(-> & -> & ->)].
    - apply mo_timer0 in Hx as (u & Hu & _). exfalso. apply Hnew, mo_heap0. by exists u.
    - destruct (decide (x = S p)) as [->|]; [split; [done|subst p; lia]|]. rewrite lookup_insert_ne in Hx by (subst p; lia).
      apply mo_timer0 in Hx as (u & Hu & _). exfalso. apply Hnew, mo_heap0. by exists u. }
  assert (fresh s < fr) as Hfr by (destruct Hh; destruct_and?; lia).
  split; try done; fields.
  - rewrite length_app. cbn. lia.
  - rewrite length_app. cbn. lia.
  - apply NoDup_app. split; [done|]. split; [|apply NoDup_singleton]. by intros x Hx ->%list_elem_of_singleton.
  - intros q. rewrite elem_of_app, list_elem_of_singleton. destruct (decide (q = p)) as [->|].
    + rewrite lookup_insert_eq. split; [by eexists|by right].
    + rewrite lookup_insert_ne by done. rewrite <- mo_heap0. split; [by intros [?|?]|by left].
  - intros q u. destruct (decide (q = p)) as [->|Hne].
    + rewrite lookup_insert_eq. intros [= <-]. split; fields; rewrite ?Ek, ?Er, ?Ec.
      * done.
      * intros x ->. destruct Hh as [(? & _)|([= ->] & -> & _)]; [done|]. by rewrite lookup_insert_eq.
      * lia.
      * done.
      * rewrite about_app. pose proof (about_new _ _ p H (le_n _)) as ->. unfold about, evs. rewrite !filter_cons_True by done. cbn.
        unfold story. cbn. by destruct (t_on_complete t).
    + rewrite lookup_insert_ne by done. intros Hu. destruct (mo_live0 q u Hu) as []. split; try done; [|fields; by rewrite Hab].
      intros x Hx. apply Hoth; [done|]. by apply lv_timer0.
  - intros x q d Hx. destruct (decide (q = p)) as [->|Hne].
    + rewrite lookup_insert_eq. eexists. split; [done|]. by eapply Hmine.
    + rewrite lookup_insert_ne by done. apply Hoth in Hx; [|done]. by eapply mo_timer0.
  - intros q [Hq%mo_fresh0| ->%list_elem_of_singleton]%elem_of_app; [lia|done].
  - intros x [[q d] Hx]. destruct (decide (q = p)) as [->|Hne]; [by eapply Hmine|]. apply Hoth in Hx; [|done].
    assert (x < fresh s) by (apply mo_handle0; by exists (q, d)). lia.
  - intros e [He%mo_log0|He]%elem_of_app; [lia|]. assert (Forall (fun e => ev_txn e = p) evs) as Hev by by repeat constructor.
    rewrite Forall_forall in Hev. by rewrite (Hev e He).
  - intros q Hq. assert (q <> p) as Hne by (intros ->; by rewrite lookup_insert_eq in Hq). rewrite lookup_insert_ne in Hq by done.
    unfold gone_ok. rewrite Hab by done. by apply mo_gone0.
Qed.

(** A send that fails leaves only its event. *)
Lemma failed_send_ok s ps data dest : mgr_ok s ps ->
  mgr_ok (State (count s) (txns s) (heap s) (timers s) (S (fresh s)) (log s ++ [Sent (fresh s) data dest])) ps.
Proof.
  intros H. pose proof H as [].
  assert (forall q, q <> fresh s -> about q (log s ++ [Sent (fresh s) data dest]) = about q (log s)) as Hab.
  { intros q Hq. rewrite about_app, (about_other q [_]), app_nil_r; [done|]. repeat constructor. cbn. by intros <-. }
  split; try done; fields.
  - intros q u Hu. destruct (mo_live0 q u Hu) as []. split; try done. fields. rewrite Hab; [done|].
    assert (q < fresh s) by (apply mo_fresh0, mo_heap0; by exists u). lia.
  - intros q Hq%mo_fresh0. lia.
  - intros x Hx%mo_handle0. lia.
  - intros e [He%mo_log0|He%list_elem_of_singleton]%elem_of_app; [lia|]. subst. cbn. lia.
  - intros q Hq. destruct (decide (q = fresh s)) as [->|Hne].
    + right. left. exists data, dest. rewrite about_app, (about_new _ _ _ H (le_n _)). unfold about. by rewrite filter_cons_True.
    + unfold gone_ok. rewrite Hab by done. by apply mo_gone0.
Qed.

Lemma start_ok env t s ps : mgr_ok s ps -> length ps < XSTUN_TXN_MAX -> new_ok t ->
  exists e s', txn_start env t s = Some (e, s') /\ e = send_result env /\ exists ps', mgr_ok s' ps'.
Proof.
  intros H Hlt Hn. pose proof Hn as (Et & Ek & Er & Ec). unfold txn_start. fields. case_decide as Eok.
  - unfold txn_schedule_retransmit, emit. fields. rewrite lookup_insert_eq. cbn [mbind option_bind].
    destruct (timer_works env); cbn [xTimerStart]; unfold set_heap, set_slot; cbn [mbind option_bind]; fields;
      rewrite insert_insert_eq, (mo_count _ _ H), (mo_slots _ _ H), mem_set_Some
        by (rewrite length_app, length_fmap, length_replicate; lia);
      cbn [mbind option_bind]; rewrite slots_snoc by done; eexists _, _; (split; [done|]); (split; [done|]); exists (ps ++ [fresh s]);
      unfold set_count; fields; rewrite <- app_assoc, <- (mo_count _ _ H); apply added_ok; try done; [right; by rewrite Er|left].
    done.
  - eexists _, _. split; [done|]. split; [done|]. exists ps. unfold set_heap, emit. fields.
    rewrite delete_insert_id by (destruct (heap s !! fresh s) eqn:E; [|done]; assert (fresh s < fresh s) by (apply (mo_fresh _ _ H), (mo_heap _ _ H); by eexists); lia).
    by apply failed_send_ok.
Qed.

(** ** The calls of a client *)

Definition attrs_readable (attrs : option ptr) (len : Z) : Prop :=
  match attrs with Some p => p.2 + Z.to_nat len <= length p.1 | None => True end.

Lemma encode_defined msg buf :
  length (txn_id msg) = 12 -> (0 <= attrs_len msg)%Z -> attrs_readable (attrs msg) (attrs_len msg) ->
  exists r, xStunMsgEncode msg buf (Z.of_nat (length buf)) = Some r.
Proof.
  intros Ht Hl Hr. unfold xStunMsgEncode. destruct (Z.ltb_spec (Z.of_nat (length buf)) (20 + attrs_len msg)); [by eexists|].
  unfold XSTUN_HEADER_SIZE. rewrite mem_write_Some by (rewrite length_be16; lia). rewrite lift_Some, fbind_ok.
  rewrite mem_write_Some by (autorewrite with len; lia). rewrite lift_Some, fbind_ok.
  rewrite mem_write_Some by (autorewrite with len; lia). rewrite lift_Some, fbind_ok.
  rewrite mem_write_Some by (autorewrite with len; lia). rewrite lift_Some, fbind_ok.
  destruct (attrs msg) as [p|]; [|by eexists]. destruct (Z.ltb_spec 0 (attrs_len msg)); [|by eexists]. cbn in Hr.
  unfold read. rewrite mem_read_Some by lia. rewrite lift_Some, fbind_ok.
  rewrite mem_write_Some by (autorewrite with len; lia). by eexists.
Qed.

Lemma send_ok env mgr type attrs len q s ps :
  mgr_ok s ps -> XSTUN_TXN_ID_SIZE <= length (random env) -> (0 <= len)%Z -> attrs_readable attrs len ->
  exists e s', xStunTxnMgrSend env mgr type attrs len q s = Some (e, s') /\ exists ps', mgr_ok s' ps'.
Proof.
  intros H Hr Hl Ha. unfold xStunTxnMgrSend. destruct mgr; [|by eexists _, _; eauto]. destruct (q_dest q) as [dest|]; [|by eexists _, _; eauto].
  destruct (q_send_fn q); [|by eexists _, _; eauto]. case_decide as Hc; [by eexists _, _; eauto|]. rewrite (mo_count _ _ H) in Hc.
  destruct (calloc_works env); [|by eexists _, _; eauto]. cbn [negb].
  assert (length (generate_txn_id (random env)) = 12) as Hid.
  { unfold generate_txn_id. rewrite length_fmap, length_take. unfold XSTUN_TXN_ID_SIZE in *. lia. }
  unfold xStunMsgInit. rewrite mem_read_Some by (unfold XSTUN_TXN_ID_SIZE; lia). cbn [mbind option_bind].
  destruct (encode_defined (Msg type 0 (take XSTUN_TXN_ID_SIZE (drop 0 (generate_txn_id (random env)))) attrs len) (replicate XSTUN_MAX_MSG_SIZE 0%Z))
    as (r & E); [cbn [Stun.txn_id]; by rewrite drop_0, length_take, Hid|done|done|].
  rewrite length_replicate in E. cbn [m_type m_length txn_id]. rewrite E. cbn [mbind option_bind].
  destruct r as [[buf n]|]; [|by eexists _, _; eauto]. destruct (_ =? 0)%Z; [by eexists _, _; eauto|].
  destruct (start_ok env (new_txn (generate_txn_id (random env)) buf n dest q) s ps) as (e & s' & E' & _ & H'); [done|lia|done|]. eauto.
Qed.

Lemma send_raw_ok env mgr src len q s ps :
  mgr_ok s ps -> attrs_readable src len ->
  exists e s', xStunTxnMgrSendRaw env mgr src len q s = Some (e, s') /\ exists ps', mgr_ok s' ps'.
Proof.
  intros H Ha. unfold xStunTxnMgrSendRaw. destruct mgr; [|by eexists _, _; eauto]. destruct src as [src|]; [|by eexists _, _; eauto].
  destruct (q_dest q) as [dest|]; [|by eexists _, _; eauto]. destruct (q_send_fn q); [|by eexists _, _; eauto].
  destruct (Z.ltb_spec len (Z.of_nat XSTUN_HEADER_SIZE)) as [|Hlo]; [by eexists _, _; eauto|].
  destruct (Z.ltb_spec (Z.of_nat XSTUN_MAX_MSG_SIZE) len) as [|Hhi]; [by eexists _, _; eauto|]. cbn [orb].
  case_decide as Hc; [by eexists _, _; eauto|]. rewrite (mo_count _ _ H) in Hc. destruct (calloc_works env); [|by eexists _, _; eauto]. cbn [negb].
  cbn in Ha. unfold read. unfold XSTUN_HEADER_SIZE, XSTUN_TXN_ID_SIZE in *. rewrite mem_read_Some by lia. cbn [mbind option_bind].
  rewrite mem_read_Some by lia. cbn [mbind option_bind]. rewrite mem_write_Some by (rewrite length_replicate, length_take, length_drop; lia).
  cbn [mbind option_bind]. destruct (_ =? 0)%Z; [by eexists _, _; eauto|].
  edestruct start_ok as (e & s' & E' & _ & H'); [exact H|lia| |eauto]. done.
Qed.

Inductive op :=
  | OSend (env : answers) (mgr : bool) (type : Z) (attrs : option ptr) (len : Z) (q : request)
  | OSendRaw (env : answers) (mgr : bool) (msg_buf : option ptr) (len : Z) (q : request)
  | OResponse (mgr : bool) (msg : option xStunMsg) (from : sockaddr)
  | OFire (timer_works : bool) (h : nat)
  | OCancelAll.

Definition exec (o : op) (s : state) : ub state :=
  match o with
  | OSend env mgr type attrs len q => r ← xStunTxnMgrSend env mgr type attrs len q s; Some r.2
  | OSendRaw env mgr src len q => r ← xStunTxnMgrSendRaw env mgr src len q s; Some r.2
  | OResponse mgr msg from => r ← xStunTxnMgrOnResponse mgr msg from s; Some r.2
  | OFire works h => fire works h s
  | OCancelAll => xStunTxnMgrCancelAll s
  end.

Fixpoint run (l : list op) (s : state) : ub state :=
  match l with
  | [] => Some s
  | o :: l => s ← exec o s; run l s
  end.

(** Arguments the caller vouches for: the buffers are as long as said. *)
Definition op_ok (o : op) : Prop :=
  match o with
  | OSend env _ _ attrs len _ => XSTUN_TXN_ID_SIZE <= length (random env) /\ (0 <= len)%Z /\ attrs_readable attrs len
  | OSendRaw _ _ src len _ => attrs_readable src len
  | _ => True
  end.

Lemma exec_ok o s ps : mgr_ok s ps -> op_ok o -> exists s', exec o s = Some s' /\ exists ps', mgr_ok s' ps'.
Proof.
  intros H Ho. destruct o as [env mgr type a len q|env mgr src len q|mgr msg from|works h|]; cbn [exec op_ok] in *.
  - destruct Ho as (? & ? & ?). edestruct send_ok as (e & s' & -> & H'); [done..|]. cbn. eauto.
  - edestruct send_raw_ok as (e & s' & -> & H'); [done..|]. cbn. eauto.
  - edestruct response_ok as (b & s' & -> & H'); [done|]. cbn. eauto.
  - destruct (fire_ok s ps works h H) as (s' & -> & H'). eauto.
  - unfold xStunTxnMgrCancelAll. rewrite (mo_count _ _ H). edestruct (cancel_loop_ok (length ps) s ps H) as (s' & -> & H'); eauto.
Qed.

Lemma txn_run_ok l s ps : mgr_ok s ps -> Forall op_ok l -> exists s', run l s = Some s' /\ exists ps', mgr_ok s' ps'.
Proof.
  revert s ps. induction l as [|o l IH]; intros s ps H; [by exists s; eauto|]. intros [Ho Hl]%Forall_cons. cbn [run].
  destruct (exec_ok _ _ _ H Ho) as (s1 & -> & ps1 & H1). cbn [mbind option_bind]. by eapply IH.
Qed.

Lemma txn_init_ok : mgr_ok xStunTxnMgrInit [].
Proof.
  split; try done; try apply NoDup_nil_2.
  - cbn. lia.
  - intros p. cbn. rewrite lookup_empty. split; [by intros ?%not_elem_of_nil|by intros [? ?]].
  - intros p. by intros ?%not_elem_of_nil.
  - intros h. cbn. rewrite lookup_empty. by intros [? ?].
  - intros e. by intros ?%not_elem_of_nil.
  - intros p _. by left.
Qed.

Lemma reachable_ok ops s : Forall op_ok ops -> run ops xStunTxnMgrInit = Some s -> exists ps, mgr_ok s ps.
Proof. intros Ho E. destruct (txn_run_ok _ _ _ txn_init_ok Ho) as (s' & E' & H). assert (s' = s) as -> by congruence. done. Qed.

(** A slot holds only live transactions. *)
Lemma slot_of s ps i p : mgr_ok s ps -> txns s !! i = Some (Some p) -> p ∈ ps.
Proof.
  intros H. rewrite (mo_slots _ _ H). intros [Hi|[_ Hi]]%lookup_app_Some.
  - rewrite list_lookup_fmap in Hi. destruct (ps !! i) eqn:E; [|done]. injection Hi as ->. by eapply list_elem_of_lookup_2.
  - by apply lookup_replicate in Hi as [? _].
Qed.

(** C25: whatever a client does (sends that may fail in every way, responses
    that match or not, timers, cancelling everything), the manager stays
    defined and in order: at most 32 transactions, each in one slot of the
    array, and no timer pending for a transaction that was freed.  A pending
    transaction has been sent once more than it has retransmissions, at most
    eight times in all, and its timer runs for 500 ms doubled with each of
    them, without overflow; it has been called back only if it timed out.  One
    that is gone failed its first send, or was called back once, or was called
    back by its timeout and then by a late response. *)
Theorem stun_txn_lifecycle ops :
  Forall op_ok ops ->
  exists s, run ops xStunTxnMgrInit = Some s /\ count s <= XSTUN_TXN_MAX /\
    forall p, match heap s !! p with
              | Some t => live_ok s p t /\ exists i, i < count s /\ txns s !! i = Some (Some p)
              | None => gone_ok p (log s) /\ (forall h d, timers s !! h <> Some (p, d)) /\ forall i, txns s !! i <> Some (Some p)
              end.
Proof.
  intros Ho. destruct (txn_run_ok _ _ _ txn_init_ok Ho) as (s & E & ps & H). exists s. split; [done|].
  split; [rewrite (mo_count _ _ H); apply H|]. intros p. destruct (heap s !! p) as [t|] eqn:Ep.
  - split; [by apply H|]. assert (p ∈ ps) as [i Hi]%list_elem_of_lookup by (apply (mo_heap _ _ H); by exists t).
    exists i. split; [rewrite (mo_count _ _ H); by eapply lookup_lt_Some|]. by apply (slot_live _ _ _ _ H Hi).
  - split; [by apply H|]. split.
    + intros h d Hh. destruct (mo_timer _ _ H _ _ _ Hh) as (t & Ht & _). congruence.
    + intros i Hi%(slot_of _ _ _ _ H). apply (mo_heap _ _ H) in Hi as [t Ht]. congruence.
Qed.

(** A client: a request, one retransmission, a response; then a second one. *)
Definition some_request : list Z := [0; 1; 0; 0; 33; 18; 164; 66]%Z ++ replicate 12 7%Z.
Definition some_answers : answers := Answers true (replicate 12 0%Z) xErrno_Ok true.
Definition some_client : request := Request (Some (SockInet 3478 1)) true true 5.
Definition some_ops : list op := [
  OSendRaw some_answers true (Some (some_request, 0)) 20 some_client; OFire true 1;
  OResponse true (Some (Msg 0x0101 0 (replicate 12 7%Z) None 0)) (SockInet 3478 1);
  OSend some_answers true 1 None 0 some_client; OCancelAll].

Lemma stun_txn_lifecycle_witness :
  exists s, run some_ops xStunTxnMgrInit = Some s /\ count s <= XSTUN_TXN_MAX /\ heap s !! 0 = None /\ gone_ok 0 (log s).
Proof.
  assert (Forall op_ok some_ops) as Ho by (repeat constructor; cbn; lia).
  destruct (stun_txn_lifecycle some_ops Ho) as (s & E & Hc & Hp). exists s. split; [done|]. split; [done|].
  assert (heap s !! 0 = None) as E0.
  { assert (match run some_ops xStunTxnMgrInit with Some s => heap s !! 0 | None => None end = None) as H by by vm_compute. by rewrite E in H. }
  split; [done|]. specialize (Hp 0). rewrite E0 in Hp. apply Hp.
Defined.

(** ** Timeouts *)

(** [n] times, the transaction's timer runs to its end and fires; the time that
    takes. *)
Fixpoint wait_out (n : nat) (p : nat) (s : state) : ub (Z * state) :=
  match n with
  | O => Some (0%Z, s)
  | S n =>
      t ← heap s !! p;
      h ← t_timer t;
      e ← timers s !! h;
      s ← fire true h s;
      r ← wait_out n p s;
      Some (e.2 + r.1, r.2)%Z
  end.

Lemma fire_again s p t h d : heap s !! p = Some t -> timers s !! h = Some (p, d) -> t_cancelled t = false -> (t_retransmit_count t < 7)%Z ->
  exists s' h', fire true h s = Some s' /\ heap s' = <[p := set_timer (backoff t) (Some h')]> (heap s).
Proof.
  intros Ht Hh Hc Hk. unfold fire. rewrite Hh. unfold txn_retransmit. cbn [xTimerStop heap]. rewrite Ht. cbn [mbind option_bind].
  change (t_cancelled (set_timer t None)) with (t_cancelled t). rewrite Hc.
  change (t_retransmit_count (set_timer t None)) with (t_retransmit_count t).
  unfold XSTUN_MAX_RETRANSMITS. destruct (Z.leb_spec 7 (t_retransmit_count t)); [lia|].
  unfold txn_schedule_retransmit. cbn. rewrite insert_insert_eq, lookup_insert_eq. cbn [mbind option_bind xTimerStart heap].
  eexists _, _. split; [done|]. cbn. by rewrite insert_insert_eq.
Qed.

Lemma fire_last s p t h d : heap s !! p = Some t -> timers s !! h = Some (p, d) -> t_cancelled t = false -> (7 <= t_retransmit_count t)%Z ->
  exists s', fire true h s = Some s' /\ heap s' = <[p := set_cancelled (set_timer t None)]> (heap s).
Proof.
  intros Ht Hh Hc Hk. unfold fire. rewrite Hh. unfold txn_retransmit. cbn [xTimerStop heap]. rewrite Ht. cbn [mbind option_bind].
  change (t_cancelled (set_timer t None)) with (t_cancelled t). rewrite Hc.
  change (t_retransmit_count (set_timer t None)) with (t_retransmit_count t).
  unfold XSTUN_MAX_RETRANSMITS. destruct (Z.leb_spec 7 (t_retransmit_count t)); [|lia].
  eexists. split; [done|]. rewrite call_eq. cbn. by rewrite insert_insert_eq.
Qed.

(** Left alone, a transaction with a timer runs out. *)
Lemma wait_out_ok n s ps p t :
  mgr_ok s ps -> heap s !! p = Some t -> t_timer t <> None -> n = 7 - Z.to_nat (t_retransmit_count t) ->
  exists s' t', wait_out (S n) p s = Some (500 * (2 ^ 8 - 2 ^ t_retransmit_count t), s')%Z /\ mgr_ok s' ps /\
    heap s' = <[p := t']> (heap s) /\ t_cancelled t' = true /\ t_retransmit_count t' = 7%Z /\
    wire t' = wire t /\ t_dest t' = t_dest t /\ t_on_complete t' = t_on_complete t /\ t_ctx t' = t_ctx t /\ t_txn_id t' = t_txn_id t.
Proof.
  revert s t. induction n as [|n IH]; intros s t H Ht Htm Hn; destruct (t_timer t) as [h|] eqn:Eh; try done;
    pose proof (mo_live _ _ H _ _ Ht) as []; pose proof (lv_timer0 h Eh) as Hh;
    (assert (t_cancelled t = false) as Hc by (destruct (t_cancelled t); [destruct (lv_cancelled0 eq_refl); congruence|done]));
    destruct (fire_ok s ps true h H) as (s1 & E1 & H1).
  - destruct (fire_last s p t h _ Ht Hh Hc) as (s1' & E1' & Hs1); [lia|]. assert (s1' = s1) as -> by congruence.
    assert (t_retransmit_count t = 7%Z) as Ek by lia.
    exists s1, (set_cancelled (set_timer t None)). cbn [wait_out]. rewrite Ht. cbn [mbind option_bind]. rewrite Eh. cbn [mbind option_bind].
    rewrite Hh. cbn [mbind option_bind]. rewrite E1. cbn [mbind option_bind fst snd]. rewrite lv_rto0, Ek. done.
  - destruct (fire_again s p t h _ Ht Hh Hc) as (s1' & h' & E1' & Hs1); [lia|]. assert (s1' = s1) as -> by congruence.
    destruct (IH s1 (set_timer (backoff t) (Some h')) H1) as (s' & t' & E & H' & Hs' & Ht'); [by rewrite Hs1, lookup_insert_eq|done|cbn; lia|].
    exists s', t'. split; [|split; [done|split; [|exact Ht']]].
    + change (wait_out (S (S n)) p s) with (t ← heap s !! p; h ← t_timer t; e ← timers s !! h; s ← fire true h s; r ← wait_out (S n) p s; Some (e.2 + r.1, r.2)%Z).
      rewrite Ht. cbn [mbind option_bind]. rewrite Eh. cbn [mbind option_bind].
      rewrite Hh. cbn [mbind option_bind]. rewrite E1. cbn [mbind option_bind]. rewrite E. cbn [mbind option_bind fst snd].
      do 2 f_equal. fields. rewrite lv_rto0, Z.pow_add_r by lia. lia.
    + by rewrite Hs', Hs1, insert_insert_eq.
Qed.

(** A response to a transaction that is found. *)
Lemma response_calls s ps p t msg from :
  mgr_ok s ps -> heap s !! p = Some t -> txn_id msg = t_txn_id t ->
  (forall q u, heap s !! q = Some u -> t_txn_id u = t_txn_id t -> q = p) ->
  exists s', xStunTxnMgrOnResponse true (Some msg) from s = Some (true, s') /\
    log s' = log s ++ (if t_on_complete t then [Called p (t_ctx t) (Some (msg, from))] else []).
Proof.
  intros H Ht Hid Huniq. unfold xStunTxnMgrOnResponse.
  destruct (find_from_ok s ps (txn_id msg) 0 (count s) H) as (r & E & Hr); [by rewrite (mo_count _ _ H)|]. unfold txn_find. rewrite E.
  cbn [mbind option_bind]. destruct r as [i|].
  - destruct Hr as (q & u & Hi & Hu & Hq). assert (q = p) as -> by (eapply Huniq; [done|congruence]). simplify_eq.
    destruct (slot_live _ _ _ _ H Hi) as [Hs _]. rewrite Hs. cbn [mbind option_bind]. rewrite Ht. cbn [mbind option_bind].
    rewrite stop_timer_eq by done. unfold txn_free, set_heap. fields. rewrite Hs. cbn [mbind option_bind]. rewrite insert_insert_eq, lookup_insert_eq.
    cbn [mbind option_bind]. unfold stop_timer. fields. cbn [negb andb]. rewrite (compact_eq _ ps i p) by (try apply H; done).
    cbn [mbind option_bind]. eexists. split; [done|]. rewrite call_eq. done.
  - assert (p ∈ ps) as [j Hj]%list_elem_of_lookup by (apply (mo_heap _ _ H); by exists t).
    exfalso. by apply (Hr j p t); [lia|..].
Qed.

(** C26: a pending transaction with a timer and no response, after [k]
    retransmissions, times out once its timer has fired [8 - k] times,
    [500 * (2^8 - 2^k)] ms later, and is called back without a message.  But it
    keeps its slot in the manager, so that 32 timeouts leave none for another
    request, and a response that arrives afterwards calls it back again. *)
Theorem stun_txn_timeout ops s p t msg from :
  Forall op_ok ops -> run ops xStunTxnMgrInit = Some s -> heap s !! p = Some t -> t_timer t <> None -> t_on_complete t = true ->
  txn_id msg = t_txn_id t -> (forall q u, heap s !! q = Some u -> t_txn_id u = t_txn_id t -> q = p) ->
  let k := t_retransmit_count t in
  let calls n := story p (wire t) (t_dest t) true (t_ctx t) 7 n in
  exists s' s'', wait_out (8 - Z.to_nat k) p s = Some (500 * (2 ^ 8 - 2 ^ k), s')%Z /\
    about p (log s') = calls [None] /\ count s' = count s /\
    xStunTxnMgrOnResponse true (Some msg) from s' = Some (true, s'') /\
    about p (log s'') = calls [None; Some (msg, from)].
Proof.
  intros Ho E Ht Htm Hcb Hid Huniq k calls. destruct (reachable_ok _ _ Ho E) as (ps & H). pose proof (mo_live _ _ H _ _ Ht) as Hl.
  pose proof (lv_count _ _ _ Hl) as Hk. fold k in Hk.
  destruct (wait_out_ok (7 - Z.to_nat k) s ps p t H Ht Htm eq_refl) as (s' & t' & Ew & H' & Hs' & Hc & Hk' & Hw & Hd & Ho' & Hx & Hi).
  replace (S (7 - Z.to_nat k)) with (8 - Z.to_nat k) in Ew by lia.
  assert (heap s' !! p = Some t') as Ht' by (by rewrite Hs', lookup_insert_eq).
  destruct (response_calls s' ps p t' msg from H' Ht') as (s'' & Er & Hlog); [congruence| |].
  { intros q u Hq Hu. destruct (decide (q = p)); [done|]. rewrite Hs', lookup_insert_ne in Hq by done. eapply Huniq; [done|congruence]. }
  pose proof (lv_story _ _ _ (mo_live _ _ H' _ _ Ht')) as Hst. rewrite Hc, Hk', Hw, Hd, Ho', Hx, Hcb in Hst.
  exists s', s''. split; [done|]. split; [done|]. split; [by rewrite (mo_count _ _ H), (mo_count _ _ H')|]. split; [done|].
  rewrite Hlog, about_app, Hst, about_call, Ho', Hx, Hcb. apply (story_call p _ _ true).
Qed.

Lemma stun_txn_timeout_witness :
  exists s s' s'', run [OSendRaw some_answers true (Some (some_request, 0)) 20 some_client] xStunTxnMgrInit = Some s /\
    wait_out 8 0 s = Some (127500%Z, s') /\
    xStunTxnMgrOnResponse true (Some (Msg 0x0101 0 (replicate 12 7%Z) None 0)) SockOther s' = Some (true, s'').
Proof.
  set (ops := [_]). destruct (run ops xStunTxnMgrInit) as [s|] eqn:E; [|by vm_compute in E].
  destruct (heap s !! 0) as [t|] eqn:Et; [|by vm_compute in E; injection E as <-; vm_compute in Et].
  destruct (stun_txn_timeout ops s 0 t (Msg 0x0101 0 (replicate 12 7%Z) None 0) SockOther) as (s' & s'' & Ew & _ & _ & Er & _).
  - subst ops. apply Forall_singleton. unfold op_ok, attrs_readable, some_request. vm_compute. lia.
  - done.
  - done.
  - vm_compute in E. injection E as <-. vm_compute in Et. by injection Et as <-.
  - vm_compute in E. injection E as <-. vm_compute in Et. by injection Et as <-.
  - vm_compute in E. injection E as <-. vm_compute in Et. by injection Et as <-.
  - intros q u Hq _. vm_compute in E. injection E as E. apply elem_of_map_to_list in Hq.
    assert ((map_to_list (heap s)).*1 = [0]) as Hl by (subst s; by vm_compute).
    apply (list_elem_of_fmap_2 fst) in Hq. rewrite Hl in Hq. by apply list_elem_of_singleton in Hq.
  - exists s, s', s''. split; [done|]. split; [|done].
    assert (t_retransmit_count t = 0%Z) as Ek by (vm_compute in E; injection E as <-; vm_compute in Et; by injection Et as <-).
    rewrite Ek in Ew. exact Ew.
Defined.
