(* ===== verification/TurnChannel.v ===== *)
(** * TurnChannel: ChannelData framing ([libx/x/p2p/turn_channel.c]) *)

From S2P Require Import Prelude Errno Wire Md Hash Sha1 Hmac Crc32 Stun.

Definition XTURN_CHANNEL_MIN : Z := 0x4000.
Definition XTURN_CHANNEL_MAX : Z := 0x7FFF.
Definition XTURN_CHANNEL_HEADER_SIZE : nat := 4.

Definition xTurnIsChannelData (first_byte : Z) : bool := (0x40 <=? first_byte)%Z && (first_byte <=? 0x7F)%Z.

(** The frame written at the start of [out], [-1] as [fail]; [data] may be
    NULL. *)
Definition xTurnChannelDataEncode (channel : Z) (data : option (list Z)) (data_len : nat) (out : list Z) (out_cap : nat)
    : fallible (list Z * nat) :=
  let total := XTURN_CHANNEL_HEADER_SIZE + XSTUN_ALIGN4 data_len in
  if decide (out_cap < total) then fail else
  out ⇐ lift (mem_write out 0 (be16 channel));
  out ⇐ lift (mem_write out 2 (be16 (Z.of_nat data_len)));
  out ⇐ lift (match data with
              | Some d => if decide (0 < data_len) then src ← mem_read d 0 data_len; mem_write out XTURN_CHANNEL_HEADER_SIZE src else Some out
              | None => Some out
              end);
  let padded := XSTUN_ALIGN4 data_len in
  out ⇐ lift (if decide (data_len < padded)
              then mem_write out (XTURN_CHANNEL_HEADER_SIZE + data_len) (replicate (padded - data_len) 0%Z)
              else Some out);
  ok (out, total).

(** The status; on success the channel, the payload's place and its length. *)
Definition xTurnChannelDataDecode (buf : option ptr) (buf_len : Z) : ub (xErrno * option (Z * ptr * Z)) :=
  match buf with
  | None => Some (xErrno_InvalidArg, None)
  | Some buf =>
      if (buf_len <? 4)%Z then Some (xErrno_InvalidArg, None) else
      channel ← read_u16 buf 0;
      len ← read_u16 buf 2;
      if (channel <? XTURN_CHANNEL_MIN)%Z || (XTURN_CHANNEL_MAX <? channel)%Z then Some (xErrno_InvalidArg, None) else
      if (buf_len <? 4 + len)%Z then Some (xErrno_InvalidArg, None) else
      Some (xErrno_Ok, Some (channel, (buf.1, buf.2 + XTURN_CHANNEL_HEADER_SIZE), len))
  end.

(** A frame on the wire. *)
Definition channel_frame (channel : Z) (d : list Z) : list Z :=
  be16 channel ++ be16 (Z.of_nat (length d)) ++ d ++ replicate (XSTUN_ALIGN4 (length d) - length d) 0%Z.

Lemma encode_channel_frame channel d out cap :
  4 + XSTUN_ALIGN4 (length d) <= cap -> cap <= length out ->
  exists out', xTurnChannelDataEncode channel (Some d) (length d) out cap = ok (out', 4 + XSTUN_ALIGN4 (length d)) /\
    mem_write out 0 (channel_frame channel d) = Some out'.
Proof.
  intros Hc Ho. pose proof (XSTUN_ALIGN4_bounds (length d)) as [Hb _]. unfold xTurnChannelDataEncode, XTURN_CHANNEL_HEADER_SIZE.
  rewrite decide_False by lia. unfold channel_frame.
  rewrite !mem_write_app. rewrite mem_write_Some by (rewrite length_be16; lia). rewrite lift_Some, fbind_ok.
  cbn [mbind option_bind]. rewrite length_be16, mem_write_app. change (0 + 2) with 2.
  rewrite mem_write_Some by (autorewrite with len; lia). rewrite lift_Some, fbind_ok. cbn [mbind option_bind].
  rewrite length_be16, mem_write_app. change (2 + 2) with 4. set (b := take 2 _ ++ _).
  assert (length b = length out) as Hlb by (unfold b; autorewrite with len; lia). clearbody b.
  assert ((if decide (0 < length d) then src ← mem_read d 0 (length d); mem_write b 4 src else Some b) = mem_write b 4 d) as ->.
  { case_decide; [|destruct d; [by rewrite mem_write_nil by lia|cbn in *; lia]].
    rewrite mem_read_Some by lia. cbn [mbind option_bind]. by rewrite drop_0, firstn_all. }
  rewrite (mem_write_Some b 4 d) by lia. rewrite lift_Some, fbind_ok. cbn [mbind option_bind]. set (b' := take 4 b ++ _).
  assert (length b' = length out) as Hlb' by (unfold b'; autorewrite with len; lia). clearbody b'.
  case_decide.
  - rewrite mem_write_Some by (rewrite length_replicate; lia). rewrite lift_Some, fbind_ok. by eexists.
  - replace (XSTUN_ALIGN4 (length d) - length d) with 0 by lia. cbn [replicate]. rewrite mem_write_nil by lia. rewrite lift_Some, fbind_ok. by eexists.
Qed.

(** Whatever stands after the header, a frame is read back. *)
Lemma decode_stands buf off channel d :
  (XTURN_CHANNEL_MIN <= channel <= XTURN_CHANNEL_MAX)%Z -> (Z.of_nat (length d) < 2 ^ 16)%Z ->
  stands buf off (be16 channel ++ be16 (Z.of_nat (length d)) ++ d) ->
  forall len, (4 + Z.of_nat (length d) <= len)%Z ->
  xTurnChannelDataDecode (Some (buf, off)) len = Some (xErrno_Ok, Some (channel, (buf, off + 4), Z.of_nat (length d))) /\
  read (buf, off + 4) 0 (length d) = Some d.
Proof.
  unfold XTURN_CHANNEL_MIN, XTURN_CHANNEL_MAX. intros Hc Hd Hs len Hlen. unfold xTurnChannelDataDecode, read_u16, read. cbn [fst snd].
  destruct (Z.ltb_spec len 4); [lia|]. apply stands_be16 in Hs as [E1 Hs]; [|lia]. apply stands_be16 in Hs as [E2 Hs]; [|lia].
  rewrite Nat.add_0_r, E1. cbn [mbind option_bind]. rewrite E2. cbn [mbind option_bind]. unfold XTURN_CHANNEL_MIN, XTURN_CHANNEL_MAX.
  destruct (Z.ltb_spec channel 0x4000); [lia|]. destruct (Z.ltb_spec 0x7FFF channel); [lia|]. cbn [orb].
  destruct (Z.ltb_spec len (4 + Z.of_nat (length d))); [lia|]. split; [done|]. rewrite Nat.add_0_r. replace (off + 4) with (off + 2 + 2) by lia.
  by apply stands_read.
Qed.

(** Data framed for a channel, in a buffer with room for it, is told from a
    STUN message by its first byte and comes back with its channel; the
    decoder does not mind if the padding is cut off, and refuses a frame whose
    data are. *)
Theorem turn_channel_roundtrip channel d out cap :
  (XTURN_CHANNEL_MIN <= channel <= XTURN_CHANNEL_MAX)%Z -> (Z.of_nat (length d) < 2 ^ 16)%Z ->
  4 + XSTUN_ALIGN4 (length d) <= cap -> cap <= length out ->
  exists out', xTurnChannelDataEncode channel (Some d) (length d) out cap = ok (out', 4 + XSTUN_ALIGN4 (length d)) /\
    option_map xTurnIsChannelData (out' !! 0) = Some true /\
    (forall len, (4 + Z.of_nat (length d) <= len)%Z ->
      xTurnChannelDataDecode (Some (out', 0)) len = Some (xErrno_Ok, Some (channel, (out', 4), Z.of_nat (length d)))) /\
    read (out', 4) 0 (length d) = Some d /\
    (forall len, (len < 4 + Z.of_nat (length d))%Z ->
      xTurnChannelDataDecode (Some (out', 0)) len = Some (xErrno_InvalidArg, None)).
Proof.
  intros Hc Hd Hcap Hout. destruct (encode_channel_frame channel d out cap Hcap Hout) as (out' & E & Hw). exists out'. split; [done|].
  apply mem_write_stands in Hw as Hs. unfold channel_frame in Hs. rewrite !app_assoc in Hs. apply stands_app in Hs as [Hs _].
  rewrite <- !app_assoc in Hs. unfold XTURN_CHANNEL_MIN, XTURN_CHANNEL_MAX in *.
  split; [|split; [|split]].
  - unfold be16 at 1 in Hs. cbn [app] in Hs. rewrite (stands_lookup _ _ _ _ Hs). cbn [option_map]. f_equal. unfold xTurnIsChannelData, u8.
    rewrite Z.shiftr_div_pow2 by lia. assert (0x40 <= channel / 2 ^ 8)%Z by (apply Z.div_le_lower_bound; lia).
    assert (channel / 2 ^ 8 < 0x80)%Z by (apply Z.div_lt_upper_bound; lia). rewrite Z.mod_small by lia.
    apply andb_true_intro. split; apply Z.leb_le; lia.
  - intros len Hlen. by apply (decode_stands out' 0 channel d Hc Hd Hs len Hlen).
  - by apply (decode_stands out' 0 channel d Hc Hd Hs (4 + Z.of_nat (length d))%Z).
  - intros len Hlen. unfold xTurnChannelDataDecode, read_u16. cbn [fst snd]. destruct (Z.ltb_spec len 4); [done|].
    apply stands_be16 in Hs as [E1 Hs]; [|lia]. apply stands_be16 in Hs as [E2 _]; [|lia].
    cbn [Nat.add] in *. rewrite E1. cbn [mbind option_bind]. rewrite E2. cbn [mbind option_bind]. unfold XTURN_CHANNEL_MIN, XTURN_CHANNEL_MAX.
    destruct (Z.ltb_spec channel 0x4000); [lia|]. destruct (Z.ltb_spec 0x7FFF channel); [lia|]. cbn [orb].
    destruct (Z.ltb_spec len (4 + Z.of_nat (length d))); [done|lia].
Qed.

Lemma turn_channel_roundtrip_witness :
  exists out', xTurnChannelDataEncode 0x4001 (Some [1; 2; 3]%Z) 3 (replicate 8 255%Z) 8 = ok (out', 8) /\
    read (out', 4) 0 3 = Some [1; 2; 3]%Z.
Proof.
  destruct (turn_channel_roundtrip 0x4001 [1; 2; 3]%Z (replicate 8 255%Z) 8) as (out' & E & _ & _ & R & _).
  - by vm_compute.
  - done.
  - vm_compute. lia.
  - vm_compute. lia.
  - exists out'. split; [exact E|exact R].
Defined.
