(* ===== verification/Ice.v ===== *)
(** * Ice: candidates and candidate pairs ([libx/x/p2p/ice_candidate.c],
    [ice_pair.c])

    Priorities, foundations, type names and the order of the check list.  The C
    library's [qsort] is a parameter: it permutes the array into the order of a
    comparison that is one. *)

From S2P Require Import Prelude Errno Decimal Wire Md Hash Sha1 Hmac Crc32 Stun.
From stdpp Require Import sorting.

(** ** Candidates *)

Inductive xIceCandidateType := xIceCandidateType_Host | xIceCandidateType_Srflx | xIceCandidateType_Prflx | xIceCandidateType_Relay.

#[export] Instance xIceCandidateType_eq_dec : EqDecision xIceCandidateType.
Proof. solve_decision. Defined.

Definition type_code (t : xIceCandidateType) : Z :=
  match t with xIceCandidateType_Host => 0 | xIceCandidateType_Srflx => 1 | xIceCandidateType_Prflx => 2 | xIceCandidateType_Relay => 3 end.

Definition xIceCandidateTypePref (t : xIceCandidateType) : Z :=
  match t with
  | xIceCandidateType_Host => 126 | xIceCandidateType_Srflx => 100
  | xIceCandidateType_Prflx => 110 | xIceCandidateType_Relay => 5
  end.

Definition xIceCandidatePriority (type : xIceCandidateType) (local_pref component_id : Z) : Z :=
  Z.lor (Z.lor (u32 (Z.shiftl (xIceCandidateTypePref type) 24)) (u32 (Z.shiftl local_pref 8))) (u32 (256 - component_id)).

(** The names, as bytes. *)
Definition xIceCandidateTypeStr (t : xIceCandidateType) : list Z :=
  match t with
  | xIceCandidateType_Host => [104; 111; 115; 116]
  | xIceCandidateType_Srflx => [115; 114; 102; 108; 120]
  | xIceCandidateType_Prflx => [112; 114; 102; 108; 120]
  | xIceCandidateType_Relay => [114; 101; 108; 97; 121]
  end%Z.

(** The four comparisons in order, on a NUL-terminated block or NULL. *)
Definition xIceCandidateTypeFromStr (str : option (list Z)) : ub (xErrno * option xIceCandidateType) :=
  match str with
  | None => Some (xErrno_InvalidArg, None)
  | Some block =>
      s ← c_string block;
      Some (if decide (s = xIceCandidateTypeStr xIceCandidateType_Host) then (xErrno_Ok, Some xIceCandidateType_Host)
      else if decide (s = xIceCandidateTypeStr xIceCandidateType_Srflx) then (xErrno_Ok, Some xIceCandidateType_Srflx)
      else if decide (s = xIceCandidateTypeStr xIceCandidateType_Prflx) then (xErrno_Ok, Some xIceCandidateType_Prflx)
      else if decide (s = xIceCandidateTypeStr xIceCandidateType_Relay) then (xErrno_Ok, Some xIceCandidateType_Relay)
      else (xErrno_InvalidArg, None))
  end.

Definition xSockaddrPort (a : sockaddr) : Z := match a with SockInet port _ | SockInet6 port _ => port | SockOther => 0 end.

(** The address in memory, in network order, and the port after it. *)
Definition addr_bytes (a : sockaddr) : list Z :=
  match a with SockInet _ ip => be32 ip | SockInet6 _ addr => addr | SockOther => [] end.
Definition server_bytes (a : sockaddr) : list Z :=
  match a with SockInet port ip => be32 ip ++ be16 port | SockInet6 port addr => addr ++ be16 port | SockOther => [] end.

(** The foundation: the CRC of the type, the base address and the server,
    collected in a block of 128 bytes, in decimal. *)
Definition xIceCandidateFoundation (type : xIceCandidateType) (base_addr : sockaddr) (stun_server : option sockaddr) : ub (list Z) :=
  let buf := replicate 128 0%Z in
  w ← puts (buf, 0) [type_code type];
  w ← puts w (addr_bytes base_addr);
  w ← puts w (match stun_server with Some a => server_bytes a | None => [] end);
  data ← mem_read w.1 0 w.2;
  hash ← crc32 data;
  Some (print_u 10 hash).

(** ** Pairs *)

Record xIcePair := Pair { p_local : nat; p_remote : nat; p_priority : Z; p_nominated : bool }.

Definition xIcePairPriority (controlling_prio controlled_prio : Z) : Z :=
  let g := controlling_prio in
  let d := controlled_prio in
  let min_val := if (g <? d)%Z then g else d in
  let max_val := if (d <? g)%Z then g else d in
  u64 (u64 (2 ^ 32 * min_val) + u64 (2 * max_val) + (if (d <? g)%Z then 1 else 0)).

Definition xIcePairCompare (pa pb : xIcePair) : Z :=
  if (p_priority pb <? p_priority pa)%Z then -1 else if (p_priority pa <? p_priority pb)%Z then 1 else 0.

Section sort.
Variable qsort : (xIcePair -> xIcePair -> Z) -> list xIcePair -> list xIcePair.

Definition xIcePairSort (pairs : list xIcePair) (count : nat) : list xIcePair :=
  qsort xIcePairCompare (take count pairs) ++ drop count pairs.
End sort.

(** What C says of [qsort]: with a comparison that is a total preorder, the
    array is permuted into its order. *)
Definition sorts (qsort : (xIcePair -> xIcePair -> Z) -> list xIcePair -> list xIcePair) : Prop :=
  forall cmp l,
    (forall a b, (cmp a b <= 0 \/ cmp b a <= 0)%Z) -> (forall a b c, cmp a b <= 0 -> cmp b c <= 0 -> cmp a c <= 0)%Z ->
    qsort cmp l ≡ₚ l /\ StronglySorted (fun a b => (cmp a b <= 0)%Z) (qsort cmp l).

(** ** Candidate priorities *)

Definition component_ok (c : Z) : Prop := (1 <= c <= 256)%Z.
Definition pref_ok (p : Z) : Prop := (0 <= p < 2 ^ 16)%Z.

Lemma type_pref_range t : (5 <= xIceCandidateTypePref t <= 126)%Z.
Proof. by destruct t. Qed.

(** The bit operations are the sum of RFC 8445, 5.1.2.1. *)
Lemma candidate_priority_eq t lp c : pref_ok lp -> component_ok c ->
  xIceCandidatePriority t lp c = (2 ^ 24 * xIceCandidateTypePref t + 2 ^ 8 * lp + (256 - c))%Z.
Proof.
  unfold pref_ok, component_ok. intros Hl Hc. pose proof (type_pref_range t) as Ht. unfold xIceCandidatePriority, u32.
  rewrite !Z.shiftl_mul_pow2 by lia. rewrite !Z.mod_small by lia.
  rewrite <- (Z.shiftl_mul_pow2 _ 24) by lia. rewrite lor_shiftl_add by lia.
  replace (xIceCandidateTypePref t * 2 ^ 24 + lp * 2 ^ 8)%Z with ((xIceCandidateTypePref t * 2 ^ 16 + lp) * 2 ^ 8)%Z by lia.
  rewrite <- Z.shiftl_mul_pow2 by lia. rewrite lor_shiftl_add by lia. lia.
Qed.

Lemma pair_priority_eq g d : (0 <= g < 2 ^ 31)%Z -> (0 <= d < 2 ^ 31)%Z ->
  xIcePairPriority g d = (2 ^ 32 * Z.min g d + 2 * Z.max g d + (if (d <? g)%Z then 1 else 0))%Z.
Proof.
  intros Hg Hd. unfold xIcePairPriority, u64. destruct (Z.ltb_spec g d), (Z.ltb_spec d g); try lia.
  all: rewrite !(Z.mod_small _ (2 ^ 64)) by (rewrite ?(Z.mod_small _ (2 ^ 64)) by lia; lia); lia.
Qed.

(** Candidates are ranked by type, then local preference, then component; pairs
    by the lesser of their two priorities, then the greater, then a higher
    controlling side.  Nothing wraps: a candidate priority is below [2^31], and
    the pair priority of two such candidates below [2^63]. *)
Theorem ice_priority_order t1 t2 l1 l2 c1 c2 g d g' d' :
  pref_ok l1 -> pref_ok l2 -> component_ok c1 -> component_ok c2 ->
  (0 <= g < 2 ^ 31)%Z -> (0 <= d < 2 ^ 31)%Z -> (0 <= g' < 2 ^ 31)%Z -> (0 <= d' < 2 ^ 31)%Z ->
  let p1 := xIceCandidatePriority t1 l1 c1 in
  let p2 := xIceCandidatePriority t2 l2 c2 in
  (0 <= p1 < 2 ^ 31)%Z /\
  ((p1 < p2)%Z <->
    (xIceCandidateTypePref t1 < xIceCandidateTypePref t2 \/ t1 = t2 /\ (l1 < l2 \/ l1 = l2 /\ c2 < c1))%Z) /\
  (0 <= xIcePairPriority g d < 2 ^ 63)%Z /\
  ((xIcePairPriority g d < xIcePairPriority g' d')%Z <->
    (Z.min g d < Z.min g' d' \/ Z.min g d = Z.min g' d' /\
      (Z.max g d < Z.max g' d' \/ Z.max g d = Z.max g' d' /\ g <= d /\ d' < g'))%Z).
Proof.
  intros Hl1 Hl2 Hc1 Hc2 Hg Hd Hg' Hd' p1 p2. unfold p1, p2. rewrite !candidate_priority_eq by done.
  unfold pref_ok, component_ok in *. pose proof (type_pref_range t1). pose proof (type_pref_range t2).
  assert (t1 = t2 <-> xIceCandidateTypePref t1 = xIceCandidateTypePref t2) as -> by (by destruct t1, t2).
  rewrite !pair_priority_eq by lia. split; [lia|]. split; [lia|].
  split; destruct (Z.ltb_spec d g), (Z.ltb_spec d' g'); lia.
Qed.

Lemma ice_priority_order_witness :
  (xIceCandidatePriority xIceCandidateType_Relay 65535 1 < xIceCandidatePriority xIceCandidateType_Host 0 256)%Z.
Proof.
  apply (ice_priority_order xIceCandidateType_Relay xIceCandidateType_Host 65535 0 1 256 0 0 0 0); unfold pref_ok, component_ok; cbn; lia.
Defined.

(** Sorting the check list puts the pair of highest priority first and loses
    none. *)
Theorem ice_pair_sort_spec qsort pairs :
  sorts qsort ->
  let l := xIcePairSort qsort pairs (length pairs) in
  l ≡ₚ pairs /\ StronglySorted (fun a b => (p_priority b <= p_priority a)%Z) l.
Proof.
  intros Hq l. unfold l, xIcePairSort. rewrite firstn_all, drop_all, app_nil_r.
  destruct (Hq xIcePairCompare pairs) as [Hp Hs].
  - intros a b. unfold xIcePairCompare. destruct (Z.ltb_spec (p_priority b) (p_priority a)), (Z.ltb_spec (p_priority a) (p_priority b)); lia.
  - intros a b c. unfold xIcePairCompare.
    destruct (Z.ltb_spec (p_priority b) (p_priority a)), (Z.ltb_spec (p_priority a) (p_priority b)), (Z.ltb_spec (p_priority c) (p_priority b)),
      (Z.ltb_spec (p_priority b) (p_priority c)), (Z.ltb_spec (p_priority c) (p_priority a)), (Z.ltb_spec (p_priority a) (p_priority c)); lia.
  - split; [done|]. revert Hs. generalize (qsort xIcePairCompare pairs). induction 1 as [|a r _ IH Ha]; constructor; [done|].
    eapply Forall_impl; [done|]. intros b. unfold xIcePairCompare.
    destruct (Z.ltb_spec (p_priority b) (p_priority a)), (Z.ltb_spec (p_priority a) (p_priority b)); lia.
Qed.

(** Merge sort is such a [qsort]. *)
Definition before (cmp : xIcePair -> xIcePair -> Z) (a b : xIcePair) : Prop := (cmp a b <= 0)%Z.

#[export] Instance before_dec cmp a b : Decision (before cmp a b).
Proof. unfold before. apply _. Defined.

Definition merge_qsort (cmp : xIcePair -> xIcePair -> Z) (l : list xIcePair) : list xIcePair := merge_sort (before cmp) l.

Lemma merge_sorts : sorts merge_qsort.
Proof.
  intros cmp l Htot Htr. split; [apply merge_sort_Permutation|].
  assert (Transitive (before cmp)) by exact Htr. assert (Total (before cmp)) by exact Htot.
  by apply (StronglySorted_merge_sort (before cmp)).
Qed.

Lemma ice_pair_sort_spec_witness :
  p_priority <$> xIcePairSort merge_qsort [Pair 0 0 5 false; Pair 0 1 9 false; Pair 1 0 7 true] 3
  = [9; 7; 5]%Z /\ xIcePairSort merge_qsort [Pair 0 0 5 false] 1 ≡ₚ [Pair 0 0 5 false].
Proof. split; [by vm_compute|]. apply (ice_pair_sort_spec _ [Pair 0 0 5 false] merge_sorts). Defined.

(** ** Type names and foundations *)

(** The name of a type is read back as the type, and nothing else is. *)
Lemma type_str_roundtrip t s :
  Forall (fun c => c <> 0%Z) s ->
  xIceCandidateTypeFromStr (Some (s ++ [0%Z])) = Some (xErrno_Ok, Some t) <-> s = xIceCandidateTypeStr t.
Proof.
  intros Hs. unfold xIceCandidateTypeFromStr. rewrite c_string_plain by done. cbn [mbind option_bind].
  split; [|intros ->; by destruct t]. repeat case_decide; intros [= <-]; done.
Qed.

(** Everything written before the checksum. *)
Definition foundation_key (type : xIceCandidateType) (base : sockaddr) (server : option sockaddr) : list Z :=
  type_code type :: addr_bytes base ++ match server with Some a => server_bytes a | None => [] end.

Definition addr_ok (a : sockaddr) : Prop := sockaddr_ok a /\ bytes_ok (addr_bytes a).

Lemma addr_ok_server a : addr_ok a -> bytes_ok (server_bytes a) /\ length (server_bytes a) <= 18 /\ length (addr_bytes a) <= 16.
Proof.
  intros [Ha Hb]. destruct a as [port ip|port addr|]; cbn [sockaddr_ok addr_bytes server_bytes] in *; [| |done].
  - split; [apply Forall_app; split; [done|apply be16_bytes]|]. autorewrite with len. lia.
  - split; [apply Forall_app; split; [done|apply be16_bytes]|]. autorewrite with len. lia.
Qed.

(** The foundation is defined for all addresses: the block of 128 bytes and the
    field of 32 are large enough.  It is the decimal of the checksum, so that
    candidates of one type, base address and server share it. *)
Lemma foundation_spec type base server :
  addr_ok base -> (match server with Some a => addr_ok a | None => True end) ->
  exists f, xIceCandidateFoundation type base server = Some f /\ length f < 32 /\
    digits_value f = crc_ref (foundation_key type base server).
Proof.
  intros Hb Hs. destruct (addr_ok_server _ Hb) as (_ & _ & Hlb). destruct Hb as [_ Hbb].
  set (tail := match server with Some a => server_bytes a | None => [] end).
  assert (bytes_ok tail /\ length tail <= 18) as [Htb Htl].
  { unfold tail. destruct server as [a|]; [destruct (addr_ok_server a Hs) as (? & ? & _); done|]. split; [done|cbn; lia]. }
  assert (bytes_ok (foundation_key type base server)) as Hk.
  { constructor; [by destruct type; unfold byte_ok; cbn|]. by apply Forall_app. }
  unfold xIceCandidateFoundation. fold tail.
  assert (length (foundation_key type base server) <= 128) as Hlen by (unfold foundation_key; fold tail; cbn; rewrite length_app; lia).
  pose proof (puts_block (replicate 128 0%Z) (foundation_key type base server) ltac:(rewrite length_replicate; exact Hlen)) as E.
  change (foundation_key type base server) with ([type_code type] ++ addr_bytes base ++ tail) in E at 1. rewrite puts_app in E.
  destruct (puts (replicate 128 0%Z, 0) [type_code type]) as [w|]; [|done]. cbn [mbind option_bind] in *. rewrite puts_app in E.
  destruct (puts w (addr_bytes base)) as [w'|]; [|done]. cbn [mbind option_bind] in *. rewrite E. cbn [mbind option_bind fst snd].
  rewrite mem_read_Some by (unfold block_with; rewrite length_app, length_drop, length_replicate; lia). cbn [mbind option_bind].
  unfold block_with. rewrite drop_0, take_app_length. rewrite crc32_Some by done. cbn [mbind option_bind]. eexists. split; [done|].
  pose proof (crc_ref_range _ Hk). split; [pose proof (length_print_u 10 (crc_ref (foundation_key type base server))); lia|].
  apply print_u_value. lia.
Qed.
