(* ===== verification/IOBlock.v ===== *)
(** * IOBlock: the reference-counted blocks of [libx/x/buf/io.c] and their pool

    The blocks live in a store shared by every I/O buffer.  A block is handed
    out with one reference, shared by [xIOBlockRetain] and pushed back to the
    pool by the [xIOBlockRelease] that drops the last reference.  [held_ok]
    says that the counts are exact: it relates the store to the list of the
    references that are held, so a leak, a double release and a use of a pooled
    block all break it.  The pool is the stack the lock-free code implements
    when its calls do not overlap; [Treiber] models the overlapping ones. *)

From S2P Require Import Prelude Errno.

Definition XIOBUFFER_BLOCK_SIZE : nat := Z.to_nat 8192.

Abbreviation bid := positive.

Record xIOBlock := Blk {
  refs : Z;
  size : Z;
  data : list Z;
}.

(** [tries] numbers the requests to [malloc], so that an allocator can fail at
    any of them. *)
Record store := Store {
  blocks : gmap bid xIOBlock;
  pool : list bid;
  tries : nat;
}.

Definition set_block (b : bid) (blk : xIOBlock) (s : store) : store :=
  Store (<[b := blk]> (blocks s)) (pool s) (tries s).

Definition pool_push (b : bid) (s : store) : store := Store (blocks s) (b :: pool s) (tries s).

Definition pool_pop (s : store) : option bid * store :=
  match pool s with
  | [] => (None, s)
  | b :: p => (Some b, Store (blocks s) p (tries s))
  end.

Definition malloc (alloc : nat -> bool) (s : store) : bool * store :=
  (alloc (tries s), Store (blocks s) (pool s) (S (tries s))).

(** The references to [b] in a list of references. *)
Definition held (b : bid) (hs : list bid) : nat := length (filter (eq b) hs).

Section blocks.
(** The size of a block is a macro that a build may set. *)
Context (block_size : nat) (junk : nat -> list Z).

(** The address of a new block is one that no live block has. *)
Definition new_block (refs : Z) (s : store) : bid * store :=
  let b := fresh (dom (blocks s)) in (b, set_block b (Blk refs 0 (junk block_size)) s).

Definition xIOBlockAcquire (alloc : nat -> bool) (s : store) : ub (option bid * store) :=
  let '(r, s) := pool_pop s in
  match r with
  | Some b =>
      blk ← blocks s !! b;
      Some (Some b, set_block b (Blk 1 0 (data blk)) s)
  | None =>
      let '(okm, s) := malloc alloc s in
      if negb okm then Some (None, s) else
      let '(b, s) := new_block 1 s in Some (Some b, s)
  end.

Definition xIOBlockRetain (b : bid) (s : store) : ub store :=
  blk ← blocks s !! b;
  Some (set_block b (Blk (u64 (refs blk + 1)) (size blk) (data blk)) s).

Definition xIOBlockRelease (b : bid) (s : store) : ub store :=
  blk ← blocks s !! b;
  let n := u64 (refs blk - 1) in
  let s := set_block b (Blk n (size blk) (data blk)) s in
  Some (if (n =? 0)%Z then pool_push b s else s).

Fixpoint xIOBlockPoolWarmup (alloc : nat -> bool) (n : nat) (s : store) : xErrno * store :=
  match n with
  | 0 => (xErrno_Ok, s)
  | S n =>
      let '(okm, s) := malloc alloc s in
      if negb okm then (xErrno_NoMemory, s) else
      let '(b, s) := new_block 0 s in
      xIOBlockPoolWarmup alloc n (pool_push b s)
  end.

(** [while ((blk = pool_pop()) != NULL) free(blk);] where freeing a block that
    is not there is undefined. *)
Fixpoint drain_loop (fuel : nat) (s : store) : ub store :=
  match fuel with
  | 0 => None
  | S fuel =>
      let '(r, s) := pool_pop s in
      match r with
      | None => Some s
      | Some b =>
          _ ← blocks s !! b;
          drain_loop fuel (Store (delete b (blocks s)) (pool s) (tries s))
      end
  end.

Definition xIOBlockPoolDrain (s : store) : ub store := drain_loop (S (length (pool s))) s.

(** The bytes a block is given and gives. *)
Definition block_write (b : bid) (pos : nat) (src : list Z) (s : store) : ub store :=
  blk ← blocks s !! b;
  d ← mem_write (data blk) pos src;
  Some (set_block b (Blk (refs blk) (size blk) d) s).

Definition block_read (b : bid) (pos n : nat) (s : store) : ub (list Z) :=
  blk ← blocks s !! b; mem_read (data blk) pos n.

Definition set_size (b : bid) (n : Z) (s : store) : ub store :=
  blk ← blocks s !! b; Some (set_block b (Blk (refs blk) n (data blk)) s).

(** ** The counts are exact *)

Record held_ok (s : store) (hs : list bid) : Prop := {
  ho_pool : NoDup (pool s);
  ho_dom b : is_Some (blocks s !! b) <-> b ∈ pool s \/ b ∈ hs;
  ho_apart b : b ∈ pool s -> b ∉ hs;
  ho_len b blk : blocks s !! b = Some blk -> length (data blk) = block_size;
  ho_refs b blk : blocks s !! b = Some blk -> b ∈ hs -> refs blk = Z.of_nat (held b hs);
}.

(** The bytes of the blocks in [hs] stay what they are. *)
Definition frame (hs : list bid) (s s' : store) : Prop :=
  forall b, b ∈ hs -> data <$> blocks s' !! b = data <$> blocks s !! b.

End blocks.

Section counts.
Context (block_size : nat).
Abbreviation held_ok := (held_ok block_size).

(** ** Counting references *)

Lemma held_cons b c hs : held b (c :: hs) = (if decide (b = c) then 1 else 0) + held b hs.
Proof. unfold held. rewrite filter_cons. by case_decide. Qed.

Lemma held_app b hs hs' : held b (hs ++ hs') = held b hs + held b hs'.
Proof. unfold held. by rewrite filter_app, length_app. Qed.

Lemma held_perm b hs hs' : hs ≡ₚ hs' -> held b hs = held b hs'.
Proof. intros H. unfold held. by rewrite H. Qed.

Lemma held_le b hs : held b hs <= length hs.
Proof. apply length_filter. Qed.

Lemma held_pos b hs : b ∈ hs -> 0 < held b hs.
Proof.
  intros H. unfold held. destruct (filter (eq b) hs) as [|c l] eqn:E; [|cbn; lia].
  exfalso. eapply not_elem_of_nil. rewrite <- E. by apply list_elem_of_filter.
Qed.

Lemma held_zero b hs : b ∉ hs -> held b hs = 0.
Proof.
  intros H. unfold held. destruct (filter (eq b) hs) as [|c l] eqn:E; [done|].
  exfalso. apply H. assert (c ∈ filter (eq b) hs) as Hc by (rewrite E; left).
  apply list_elem_of_filter in Hc as [-> Hc]. done.
Qed.

Lemma held_ok_perm s hs hs' : hs ≡ₚ hs' -> held_ok s hs -> held_ok s hs'.
Proof.
  intros Hp [Hpool Hdom Hap Hlen Hrefs]. split; [done|..].
  - intros b. by rewrite Hdom, Hp.
  - intros b. rewrite <- Hp. apply Hap.
  - done.
  - intros b blk. rewrite <- (held_perm b _ _ Hp), <- Hp. apply Hrefs.
Qed.

Lemma held_lookup s hs b :
  held_ok s hs -> b ∈ hs ->
  exists blk, blocks s !! b = Some blk /\ length (data blk) = block_size /\ refs blk = Z.of_nat (held b hs).
Proof.
  intros H Hb. destruct (proj2 (ho_dom _ _ _ H b)) as [blk E]; [by right|].
  exists blk. split; [done|]. split; [by eapply ho_len|by eapply ho_refs].
Qed.

Lemma frame_refl hs s : frame hs s s.
Proof. by intros b Hb. Qed.

Lemma frame_trans hs s1 s2 s3 : frame hs s1 s2 -> frame hs s2 s3 -> frame hs s1 s3.
Proof. intros H1 H2 b Hb. by rewrite H2, H1. Qed.

Lemma frame_incl hs hs' s s' : hs' ⊆ hs -> frame hs s s' -> frame hs' s s'.
Proof. intros Hi H b Hb. by apply H, Hi. Qed.

(** ** The operations keep the counts exact *)

(** A block with the same bytes under a new count. *)
Lemma held_ok_update s hs hs' b blk n z :
  held_ok s hs -> blocks s !! b = Some blk -> b ∉ pool s -> b ∈ hs' ->
  (forall c, c <> b -> held c hs' = held c hs) -> (forall c, c <> b -> c ∈ hs' <-> c ∈ hs) ->
  n = Z.of_nat (held b hs') ->
  held_ok (set_block b (Blk n z (data blk)) s) hs'.
Proof.
  intros [Hpool Hdom Hap Hlen Hrefs] E Hnp Hb Hheld Hin ->. split; cbn [pool blocks set_block]; [done|..].
  - intros c. destruct (decide (c = b)) as [->|Hc].
    + rewrite lookup_insert_eq. split; [by right|by eexists].
    + rewrite lookup_insert_ne by done. by rewrite Hdom, Hin.
  - intros c Hc. destruct (decide (c = b)) as [->|Hcb]; [done|]. rewrite Hin by done. by apply Hap.
  - intros c blk'. destruct (decide (c = b)) as [->|Hc].
    + rewrite lookup_insert_eq. intros [= <-]. by apply (Hlen b blk).
    + rewrite lookup_insert_ne by done. apply Hlen.
  - intros c blk'. destruct (decide (c = b)) as [->|Hc].
    + rewrite lookup_insert_eq. by intros [= <-].
    + rewrite lookup_insert_ne, Hin, Hheld by done. apply Hrefs.
Qed.

Lemma frame_set_block hs s b blk blk' :
  blocks s !! b = Some blk -> data blk' = data blk -> frame hs s (set_block b blk' s).
Proof.
  intros E Hd c _. cbn [set_block blocks]. destruct (decide (c = b)) as [->|Hc].
  - by rewrite lookup_insert_eq, E; cbn; rewrite Hd.
  - by rewrite lookup_insert_ne.
Qed.

Lemma retain_spec s hs b :
  held_ok s hs -> b ∈ hs -> (Z.of_nat (length hs) < SIZE_MAX)%Z ->
  exists s', xIOBlockRetain b s = Some s' /\ held_ok s' (b :: hs) /\ (forall hs', frame hs' s s').
Proof.
  intros H Hb Hs. destruct (held_lookup _ _ _ H Hb) as (blk & E & _ & Er).
  unfold xIOBlockRetain. rewrite E. cbn [mbind option_bind]. eexists. split; [done|]. split.
  - eapply held_ok_update; [done|done| |by left|..].
    + intros Hp. by eapply ho_apart.
    + intros c Hc. rewrite held_cons. by rewrite decide_False.
    + intros c Hc. rewrite elem_of_cons. naive_solver.
    + rewrite held_cons, decide_True, Er by done. pose proof (held_le b hs).
      unfold SIZE_MAX in Hs. unfold u64. rewrite Z.mod_small by lia. lia.
  - intros hs'. by eapply frame_set_block.
Qed.

(** The last release returns the block to the pool. *)
Lemma release_spec s hs b :
  held_ok s (b :: hs) -> (Z.of_nat (length hs) < SIZE_MAX)%Z ->
  exists s', xIOBlockRelease b s = Some s' /\ held_ok s' hs /\ (forall hs', frame hs' s s').
Proof.
  intros H Hs. destruct (held_lookup _ _ b H) as (blk & E & Hl & Er); [by left|].
  rewrite held_cons, decide_True in Er by done. pose proof (held_le b hs).
  unfold xIOBlockRelease. rewrite E. cbn [mbind option_bind]. rewrite Er.
  assert (u64 (Z.of_nat (1 + held b hs) - 1) = Z.of_nat (held b hs)) as ->.
  { unfold u64. unfold SIZE_MAX in Hs. rewrite Z.mod_small; lia. }
  assert (b ∉ pool s) as Hnp.
  { intros Hp. eapply ho_apart; [done..|]. by left. }
  eexists. split; [done|]. split.
  2: { intros hs'. destruct (_ =? 0)%Z; by apply (frame_set_block hs' s b blk). }
  destruct (decide (b ∈ hs)) as [Hb|Hb].
  - pose proof (held_pos _ _ Hb). rewrite (proj2 (Z.eqb_neq _ _)) by lia.
    eapply held_ok_update; [done|done..| | |done].
    + intros c Hc. rewrite held_cons. by rewrite decide_False.
    + intros c Hc. rewrite elem_of_cons. naive_solver.
  - rewrite (held_zero b hs Hb). change (Z.of_nat 0 =? 0)%Z with true; cbv iota.
    destruct H as [Hpool Hdom Hap Hlen Hrefs]. split; cbn [pool_push set_block pool blocks].
    + by apply NoDup_cons_2.
    + intros c. destruct (decide (c = b)) as [->|Hc].
      * rewrite lookup_insert_eq. split; [by left; left|by eexists].
      * rewrite lookup_insert_ne, Hdom, !elem_of_cons by done. naive_solver.
    + intros c. rewrite elem_of_cons. intros [->|Hc]; [done|]. specialize (Hap c Hc).
      rewrite not_elem_of_cons in Hap. tauto.
    + intros c blk'. destruct (decide (c = b)) as [->|Hc].
      * rewrite lookup_insert_eq. intros [= <-]. by apply (Hlen b blk).
      * rewrite lookup_insert_ne by done. apply Hlen.
    + intros c blk'. destruct (decide (c = b)) as [->|Hc]; [done|].
      rewrite lookup_insert_ne by done. intros E' Hc'.
      rewrite (Hrefs c blk' E') by (by right). by rewrite held_cons, decide_False.
Qed.

(** A block that was not held is handed out with one reference. *)
Lemma held_ok_add s s' hs b blk :
  held_ok s hs -> b ∉ hs -> refs blk = 1%Z -> length (data blk) = block_size ->
  blocks s' = <[b := blk]> (blocks s) -> NoDup (pool s') ->
  (forall c, c ∈ pool s' <-> c ∈ pool s /\ c <> b) ->
  held_ok s' (b :: hs) /\ frame hs s s'.
Proof.
  intros [Hpool Hdom Hap Hlen Hrefs] Hb Hr Hd Eb Hnd Hp. split; [split; [done|..]|].
  - intros c. rewrite Eb, Hp, elem_of_cons. destruct (decide (c = b)) as [->|Hc].
    + rewrite lookup_insert_eq. split; [by right; left|by eexists].
    + rewrite lookup_insert_ne, Hdom by done. naive_solver.
  - intros c [Hc Hcb]%Hp. rewrite not_elem_of_cons. split; [done|]. by apply Hap.
  - intros c blk'. rewrite Eb. destruct (decide (c = b)) as [->|Hc].
    + rewrite lookup_insert_eq. by intros [= <-].
    + rewrite lookup_insert_ne by done. apply Hlen.
  - intros c blk'. rewrite Eb, held_cons. destruct (decide (c = b)) as [->|Hc].
    + rewrite lookup_insert_eq, held_zero by done. by intros [= <-].
    + rewrite lookup_insert_ne, elem_of_cons by done. naive_solver.
  - intros c Hc. rewrite Eb, lookup_insert_ne; [done|]. by intros ->.
Qed.

Context (junk : nat -> list Z).
Hypothesis junk_len : forall n, length (junk n) = n.

Lemma held_ok_tries s hs n : held_ok s hs -> held_ok (Store (blocks s) (pool s) n) hs.
Proof. by intros []. Qed.

Lemma acquire_spec alloc s hs :
  held_ok s hs ->
  exists r s', xIOBlockAcquire block_size junk alloc s = Some (r, s') /\ frame hs s s' /\
    match r with Some b => b ∉ hs /\ held_ok s' (b :: hs) | None => held_ok s' hs /\ exists k, alloc k = false end.
Proof.
  intros H. pose proof H as [Hpool Hdom Hap Hlen Hrefs].
  unfold xIOBlockAcquire, pool_pop. destruct (pool s) as [|b p] eqn:Ep.
  - unfold malloc. destruct (alloc (tries s)) eqn:Ea; cbn [negb new_block blocks].
    + set (b := fresh _). assert (b ∉ dom (blocks s)) as Hf by apply is_fresh.
      assert (b ∉ hs) as Hb.
      { intros Hb. apply Hf, elem_of_dom. apply Hdom. by right. }
      exists (Some b). eexists. split; [done|].
      match goal with |- ?P /\ ?Q /\ ?R => cut (R /\ P); [by intros []|] end.
      apply (held_ok_add s _ hs b (Blk 1 0 (junk block_size))); cbn [data pool set_block]; rewrite ?Ep; try done.
      intros c. split; [|by intros [? _]]. intros Hc. by apply not_elem_of_nil in Hc.
    + exists None. eexists. split; [done|]. split; [done|]. split; [by apply held_ok_tries|by eexists].
  - destruct (proj2 (Hdom b)) as [blk E]; [by left; left|]. cbn [blocks]. rewrite E. cbn [mbind option_bind].
    apply NoDup_cons in Hpool as [Hbp Hpool].
    assert (b ∉ hs) as Hb by (apply Hap; left).
    eexists (Some b), _. split; [done|]. match goal with |- ?P /\ ?Q /\ ?R => cut (R /\ P); [by intros []|] end.
    apply (held_ok_add s _ hs b (Blk 1 0 (data blk))); cbn [pool set_block data]; try done.
    + by eapply Hlen.
    + intros c. rewrite Ep, elem_of_cons. split; [|naive_solver]. intros Hc. split; [by right|]. by intros ->.
Qed.

Lemma set_size_spec s hs b n :
  held_ok s hs -> b ∈ hs ->
  exists s', set_size b n s = Some s' /\ held_ok s' hs /\ frame hs s s'.
Proof.
  intros H Hb. destruct (held_lookup _ _ _ H Hb) as (blk & E & _ & Er).
  unfold set_size. rewrite E. cbn [mbind option_bind]. eexists. split; [done|]. split.
  - eapply held_ok_update; try done. intros Hp. by eapply ho_apart.
  - by eapply frame_set_block.
Qed.

(** A write inside a held block: the other blocks keep their bytes, this one
    those outside the range. *)
Lemma block_write_spec s hs b pos src :
  held_ok s hs -> b ∈ hs -> pos + length src <= block_size ->
  exists s' blk d, block_write b pos src s = Some s' /\ held_ok s' hs /\
    blocks s !! b = Some blk /\ mem_write (data blk) pos src = Some d /\
    length (data blk) = block_size /\
    blocks s' = <[b := Blk (refs blk) (size blk) d]> (blocks s).
Proof.
  intros H Hb Hl. destruct (held_lookup _ _ _ H Hb) as (blk & E & Hlen & Er).
  destruct (mem_write (data blk) pos src) as [d|] eqn:Ed.
  2: { rewrite mem_write_Some in Ed by lia. done. }
  eexists _, blk, d. unfold block_write. rewrite E. cbn [mbind option_bind]. rewrite Ed. cbn [mbind option_bind].
  split; [done|]. split; [|done].
  apply mem_write_length in Ed. destruct H as [Hpool Hdom Hap Hl' Hrefs].
  split; cbn [set_block pool blocks]; try done.
  - intros c. destruct (decide (c = b)) as [->|Hc].
    + rewrite lookup_insert_eq, <- Hdom, E. split; by eexists.
    + by rewrite lookup_insert_ne.
  - intros c blk'. destruct (decide (c = b)) as [->|Hc].
    + rewrite lookup_insert_eq. intros [= <-]. cbn [data]. lia.
    + rewrite lookup_insert_ne by done. apply Hl'.
  - intros c blk'. destruct (decide (c = b)) as [->|Hc].
    + rewrite lookup_insert_eq. by intros [= <-].
    + rewrite lookup_insert_ne by done. apply Hrefs.
Qed.

(** ** The pool *)

Lemma warmup_spec alloc n s hs :
  held_ok s hs ->
  let r := xIOBlockPoolWarmup block_size junk alloc n s in
  held_ok r.2 hs /\ frame hs s r.2 /\
  (r.1 = xErrno_Ok /\ length (pool r.2) = length (pool s) + n \/ r.1 = xErrno_NoMemory).
Proof.
  revert s. induction n as [|n IH]; intros s H; cbn [xIOBlockPoolWarmup].
  { split; [done|]. split; [done|]. left. cbn. split; [done|lia]. }
  unfold malloc. destruct (alloc (tries s)); cbn [negb new_block].
  2: { split; [by apply held_ok_tries|]. split; [done|]. by right. }
  set (b := fresh _). assert (b ∉ dom (blocks s)) as Hf by (cbn [blocks] in b; apply is_fresh).
  match goal with |- context [xIOBlockPoolWarmup block_size junk alloc n ?x] => set (s1 := x) end.
  assert (held_ok s1 hs /\ frame hs s s1) as [H1 Hf1].
  { destruct H as [Hpool Hdom Hap Hlen Hrefs].
    assert (b ∉ pool s /\ b ∉ hs) as [Hbp Hbh].
    { split; intros Hb; apply Hf, elem_of_dom, Hdom; [by left|by right]. }
    split; [split|]; cbn [s1 pool_push set_block pool blocks].
    - by apply NoDup_cons_2.
    - intros c. destruct (decide (c = b)) as [->|Hc].
      + rewrite lookup_insert_eq. split; [by left; left|by eexists].
      + rewrite lookup_insert_ne, Hdom, elem_of_cons by done. naive_solver.
    - intros c. rewrite elem_of_cons. intros [->|Hc]; [done|]. by apply Hap.
    - intros c blk. destruct (decide (c = b)) as [->|Hc].
      + rewrite lookup_insert_eq. intros [= <-]. apply junk_len.
      + rewrite lookup_insert_ne by done. apply Hlen.
    - intros c blk. destruct (decide (c = b)) as [->|Hc]; [done|].
      rewrite lookup_insert_ne by done. apply Hrefs.
    - intros c Hc. cbn [s1 pool_push set_block blocks]. rewrite lookup_insert_ne; [done|]. by intros ->. }
  destruct (IH s1 H1) as (Ho & Hfr & Hr). split; [done|]. split; [by eapply frame_trans|].
  destruct Hr as [[-> ->]|Hr]; [left|by right]. cbn [s1 pool_push set_block pool length]. split; [done|lia].
Qed.

(** Draining frees every pooled block and nothing else. *)
Lemma drain_spec s hs :
  held_ok s hs ->
  exists s', xIOBlockPoolDrain s = Some s' /\ held_ok s' hs /\ pool s' = [] /\ frame hs s s'.
Proof.
  unfold xIOBlockPoolDrain. set (fuel := S (length (pool s))).
  assert (length (pool s) < fuel) as Hf by (unfold fuel; lia). clearbody fuel.
  revert s Hf. induction fuel as [|fuel IH]; intros s Hf H; [lia|]. cbn [drain_loop]. unfold pool_pop.
  destruct (pool s) as [|b p] eqn:Ep.
  { exists s. split; [done|]. by split. }
  pose proof H as [Hpool Hdom Hap Hlen Hrefs]. rewrite Ep in *. cbn [blocks pool tries].
  destruct (proj2 (Hdom b)) as [blk E]; [by left; left|]. rewrite E. cbn [mbind option_bind].
  apply NoDup_cons in Hpool as [Hbp Hpool]. cbn [length] in Hf.
  destruct (IH (Store (delete b (blocks s)) p (tries s))) as (s' & -> & Hs' & Hp & Hfr); [cbn; lia| |].
  { split; cbn [pool blocks]; [done|..].
    - intros c. destruct (decide (c = b)) as [->|Hc].
      + rewrite lookup_delete_eq. split; [intros [? [=]]|]. intros [?|Hb]; [done|]. exfalso.
        eapply Hap; [|done]. left.
      + rewrite lookup_delete_ne, Hdom, elem_of_cons by done. naive_solver.
    - intros c Hc. apply Hap. by right.
    - intros c blk'. rewrite lookup_delete_Some. intros [_ E']. by eapply Hlen.
    - intros c blk'. rewrite lookup_delete_Some. intros [_ E']. by apply Hrefs. }
  exists s'. split; [done|]. split; [done|]. split; [done|].
  eapply frame_trans; [|done]. intros c Hc. cbn [blocks]. rewrite lookup_delete_ne; [done|].
  intros ->. eapply Hap; [|done]. left.
Qed.

End counts.
