(* ===== verification/IOBuf.v ===== *)
(** * IOBuf: the chained I/O buffer ([libx/x/buf/io.c])

    A buffer is an array of slices into the shared blocks of [IOBlock]; its
    contents are the slices' bytes in order.  The array starts inside the
    struct and moves to the heap as it grows.  Buffer pointers are not NULL.
    [read], [writev] and the custom I/O functions are parameters: what arrives,
    or how much is accepted, for the sizes offered. *)

From S2P Require Import Prelude Errno Grow IOBlock.

Definition XIOBUFFER_INLINE_REFS : Z := 8.
Definition sizeof_xIOBufferRef : Z := 24.
Definition IOV_CHUNK : nat := 64.

Record xIOBufferRef := Ref {
  r_block : bid;
  r_off : nat;
  r_len : nat;
}.

(** [io_refs] are the first [nrefs] slots of the array, [io_heap] says that
    [refs] no longer is [inlined]. *)
Record xIOBuffer := IO {
  io_heap : bool;
  io_refs : list xIOBufferRef;
  io_cap : Z;
  io_nbytes : Z;
}.

Definition nrefs (io : xIOBuffer) : Z := Z.of_nat (length (io_refs io)).
Definition with_refs (io : xIOBuffer) (rs : list xIOBufferRef) : xIOBuffer :=
  IO (io_heap io) rs (io_cap io) (io_nbytes io).
Definition add_nbytes (io : xIOBuffer) (n : Z) : xIOBuffer :=
  IO (io_heap io) (io_refs io) (io_cap io) (u64 (io_nbytes io + n)).

Section iobuf.
Context (block_size : nat) (junk : nat -> list Z) (alloc : nat -> bool).

(** A capacity whose size in bytes wraps gives an array shorter than it: the
    model calls that undefined. *)
Definition iobuf_grow_refs (io : xIOBuffer) (needed : Z) (s : store) : ub (xErrno * xIOBuffer * store) :=
  if (needed <=? io_cap io)%Z then Some (xErrno_Ok, io, s) else
  newcap ← double_until 65 (if (io_cap io =? 0)%Z then XIOBUFFER_INLINE_REFS else u64 (io_cap io * 2)) needed;
  let '(okm, s) := malloc alloc s in
  if negb okm then Some (xErrno_NoMemory, io, s)
  else if (newcap * sizeof_xIOBufferRef <=? SIZE_MAX)%Z
  then Some (xErrno_Ok, IO true (io_refs io) newcap (io_nbytes io), s)
  else None.

Definition iobuf_push_ref (io : xIOBuffer) (b : bid) (off len : nat) (adjust_nbytes : bool) (s : store)
    : ub (xErrno * xIOBuffer * store) :=
  if decide (len = 0) then Some (xErrno_Ok, io, s) else
  '(err, io, s) ← iobuf_grow_refs io (nrefs io + 1) s;
  match err with
  | xErrno_Ok =>
      let io := with_refs io (io_refs io ++ [Ref b off len]) in
      Some (xErrno_Ok, if adjust_nbytes then add_nbytes io (Z.of_nat len) else io, s)
  | _ => Some (err, io, s)
  end.

Definition iobuf_shift_refs (io : xIOBuffer) (count : nat) : xIOBuffer :=
  if decide (count = 0) then io
  else if decide (length (io_refs io) <= count) then with_refs io []
  else with_refs io (drop count (io_refs io)).

Definition xIOBufferInit : xIOBuffer := IO false [] XIOBUFFER_INLINE_REFS 0.

Fixpoint release_all (rs : list xIOBufferRef) (s : store) : ub store :=
  match rs with
  | [] => Some s
  | r :: rs => s ← xIOBlockRelease (r_block r) s; release_all rs s
  end.

Definition xIOBufferDeinit (io : xIOBuffer) (s : store) : ub (xIOBuffer * store) :=
  s ← release_all (io_refs io) s; Some (xIOBufferInit, s).

Definition xIOBufferReset (io : xIOBuffer) (s : store) : ub (xIOBuffer * store) :=
  s ← release_all (io_refs io) s; Some (IO (io_heap io) [] (io_cap io) 0, s).

Definition xIOBufferLen (io : xIOBuffer) : Z := io_nbytes io.
Definition xIOBufferEmpty (io : xIOBuffer) : bool := (io_nbytes io =? 0)%Z.
Definition xIOBufferRefCount (io : xIOBuffer) : Z := nrefs io.

(** ** Appending *)

(** The free bytes behind the tail slice; a slice that sticks out of its block
    is undefined. *)
Definition tail_room (io : xIOBuffer) : ub (option (xIOBufferRef * nat)) :=
  match last (io_refs io) with
  | None => Some None
  | Some t =>
      if decide (r_off t + r_len t <= block_size)
      then Some (Some (t, block_size - (r_off t + r_len t))) else None
  end.

(** [src] stored behind the tail slice [t], which grows over it. *)
Definition extend_tail (io : xIOBuffer) (t : xIOBufferRef) (src : list Z) (s : store)
    : ub (xIOBuffer * store) :=
  s ← block_write (r_block t) (r_off t + r_len t) src s;
  let t' := Ref (r_block t) (r_off t) (r_len t + length src) in
  Some (add_nbytes (with_refs io (take (pred (length (io_refs io))) (io_refs io) ++ [t']))
          (Z.of_nat (length src)), s).

(** The acquired block [b] given the bytes [src] and pushed; it is released
    when there is no room for its slice. *)
Definition store_block (io : xIOBuffer) (b : bid) (src : list Z) (s : store)
    : ub (xErrno * xIOBuffer * store) :=
  s ← block_write b 0 src s;
  s ← set_size b (Z.of_nat (length src)) s;
  '(err, io, s) ← iobuf_push_ref io b 0 (length src) true s;
  match err with
  | xErrno_Ok => Some (xErrno_Ok, io, s)
  | _ => s ← xIOBlockRelease b s; Some (err, io, s)
  end.

(** One round of the loop: a new block with a chunk of the source. *)
Definition append_block (io : xIOBuffer) (src : list Z) (s : store)
    : ub (xErrno * xIOBuffer * store) :=
  '(blk, s) ← xIOBlockAcquire block_size junk alloc s;
  match blk with
  | None => Some (xErrno_NoMemory, io, s)
  | Some b => store_block io b src s
  end.

(** [while (len > 0)]: every round takes at least one byte of [src]. *)
Fixpoint append_loop (fuel : nat) (io : xIOBuffer) (src : list Z) (s : store)
    : ub (xErrno * xIOBuffer * store) :=
  match fuel with
  | 0 => None
  | S fuel =>
      if decide (length src = 0) then Some (xErrno_Ok, io, s) else
      '(err, io, s) ← append_block io (take block_size src) s;
      match err with
      | xErrno_Ok => append_loop fuel io (drop block_size src) s
      | _ => Some (err, io, s)
      end
  end.

(** [src] are the [len] bytes at [data]. *)
Definition xIOBufferAppend (io : xIOBuffer) (src : list Z) (s : store) : ub (xErrno * xIOBuffer * store) :=
  if decide (length src = 0) then Some (xErrno_Ok, io, s) else
  room ← tail_room io;
  '(io, src, s) ←
    match room with
    | Some (t, avail) =>
        if decide (0 < avail) then
          '(io, s) ← extend_tail io t (take avail src) s; Some (io, drop avail src, s)
        else Some (io, src, s)
    | None => Some (io, src, s)
    end;
  append_loop (S (length src)) io src s.

(** [str] is the characters before the terminator, or a null pointer. *)
Definition xIOBufferAppendStr (io : xIOBuffer) (str : option (list Z)) (s : store)
    : ub (xErrno * xIOBuffer * store) :=
  match str with
  | None => Some (xErrno_InvalidArg, io, s)
  | Some str => xIOBufferAppend io str s
  end.

(** The two buffers afterwards, [other] last. *)
Definition xIOBufferAppendIOBuffer (io other : xIOBuffer) (s : store)
    : ub (xErrno * xIOBuffer * xIOBuffer * store) :=
  if (nrefs other =? 0)%Z then Some (xErrno_Ok, io, other, s) else
  '(err, io, s) ← iobuf_grow_refs io (nrefs io + nrefs other) s;
  match err with
  | xErrno_Ok =>
      Some (xErrno_Ok, add_nbytes (with_refs io (io_refs io ++ io_refs other)) (io_nbytes other),
            IO (io_heap other) [] (io_cap other) 0, s)
  | _ => Some (err, io, other, s)
  end.

(** ** Taking from the front

    The loops take the slices still to visit; they return how many were used
    up ([shift]) and the rest of the array, whose first slice may have been
    cut short.  A cut slice ends the loop, its bytes being all that was
    wanted. *)

Fixpoint read_loop (rs : list xIOBufferRef) (want : nat) (s : store)
    : ub (list Z * nat * list xIOBufferRef * store) :=
  match rs with
  | [] => Some ([], 0, [], s)
  | r :: rs' =>
      if decide (want = 0) then Some ([], 0, rs, s) else
      let chunk := if decide (want < r_len r) then want else r_len r in
      bs ← block_read (r_block r) (r_off r) chunk s;
      if decide (chunk = r_len r) then
        s ← xIOBlockRelease (r_block r) s;
        '(out, shift, rest, s) ← read_loop rs' (want - chunk) s;
        Some (bs ++ out, S shift, rest, s)
      else Some (bs, 0, Ref (r_block r) (r_off r + chunk) (r_len r - chunk) :: rs', s)
  end.

Fixpoint consume_loop (rs : list xIOBufferRef) (want : nat) (s : store)
    : ub (nat * nat * list xIOBufferRef * store) :=
  match rs with
  | [] => Some (0, 0, [], s)
  | r :: rs' =>
      if decide (want = 0) then Some (0, 0, rs, s) else
      if decide (r_len r <= want) then
        s ← xIOBlockRelease (r_block r) s;
        '(total, shift, rest, s) ← consume_loop rs' (want - r_len r) s;
        Some (r_len r + total, S shift, rest, s)
      else Some (want, 0, Ref (r_block r) (r_off r + want) (r_len r - want) :: rs', s)
  end.

(** Like [consume_loop], the slices going to [dst]; a refused push ends it. *)
Fixpoint cut_loop (rs : list xIOBufferRef) (want : nat) (dst : xIOBuffer) (s : store)
    : ub (nat * nat * list xIOBufferRef * xIOBuffer * store) :=
  match rs with
  | [] => Some (0, 0, [], dst, s)
  | r :: rs' =>
      if decide (want = 0) then Some (0, 0, rs, dst, s) else
      if decide (r_len r <= want) then
        '(err, dst, s) ← iobuf_push_ref dst (r_block r) (r_off r) (r_len r) false s;
        match err with
        | xErrno_Ok =>
            '(total, shift, rest, dst, s) ← cut_loop rs' (want - r_len r) dst s;
            Some (r_len r + total, S shift, rest, dst, s)
        | _ => Some (0, 0, rs, dst, s)
        end
      else
        s ← xIOBlockRetain (r_block r) s;
        '(err, dst, s) ← iobuf_push_ref dst (r_block r) (r_off r) want false s;
        match err with
        | xErrno_Ok =>
            Some (want, 0, Ref (r_block r) (r_off r + want) (r_len r - want) :: rs', dst, s)
        | _ => s ← xIOBlockRelease (r_block r) s; Some (0, 0, rs, dst, s)
        end
  end.

(** After a loop: the used slices are shifted out and the count is lowered. *)
Definition finish (io : xIOBuffer) (shift : nat) (rest : list xIOBufferRef) (total : nat) : xIOBuffer :=
  let io := with_refs io (take shift (io_refs io) ++ rest) in
  let io := if decide (0 < shift) then iobuf_shift_refs io shift else io in
  IO (io_heap io) (io_refs io) (io_cap io) (u64 (io_nbytes io - Z.of_nat total)).

(** [n] clamped to the bytes there are. *)
Definition clamp (io : xIOBuffer) (n : Z) : nat :=
  Z.to_nat (if (io_nbytes io <? n)%Z then io_nbytes io else n).

(** The bytes stored at [out]; their number is the return value. *)
Definition xIOBufferRead (io : xIOBuffer) (len : Z) (s : store) : ub (list Z * xIOBuffer * store) :=
  if (len =? 0)%Z then Some ([], io, s) else
  '(out, shift, rest, s) ← read_loop (io_refs io) (clamp io len) s;
  Some (out, finish io shift rest (length out), s).

Definition xIOBufferConsume (io : xIOBuffer) (n : Z) (s : store) : ub (Z * xIOBuffer * store) :=
  if (n =? 0)%Z then Some (0%Z, io, s) else
  '(total, shift, rest, s) ← consume_loop (io_refs io) (clamp io n) s;
  Some (Z.of_nat total, finish io shift rest total, s).

Definition xIOBufferCut (io dst : xIOBuffer) (n : Z) (s : store) : ub (Z * xIOBuffer * xIOBuffer * store) :=
  if (n =? 0)%Z then Some (0%Z, io, dst, s) else
  '(total, shift, rest, dst, s) ← cut_loop (io_refs io) (clamp io n) dst s;
  Some (Z.of_nat total, finish io shift rest total, add_nbytes dst (Z.of_nat total), s).

(** ** Looking without taking *)

Definition ref_read (s : store) (r : xIOBufferRef) : ub (list Z) := block_read (r_block r) (r_off r) (r_len r) s.

(** The whole contents stored at [out]. *)
Fixpoint copy_refs (rs : list xIOBufferRef) (s : store) : ub (list Z) :=
  match rs with
  | [] => Some []
  | r :: rs => bs ← ref_read s r; out ← copy_refs rs s; Some (bs ++ out)
  end.

Definition xIOBufferCopyTo (io : xIOBuffer) (s : store) : ub (list Z) := copy_refs (io_refs io) s.

(** The bytes of the iovec entries, [max_iov] at most. *)
Fixpoint iov_loop (rs : list xIOBufferRef) (max_iov : nat) (s : store) : ub (list (list Z)) :=
  match rs, max_iov with
  | [], _ | _, 0 => Some []
  | r :: rs, S n =>
      if decide (r_len r = 0) then iov_loop rs max_iov s else
      bs ← ref_read s r; out ← iov_loop rs n s; Some (bs :: out)
  end.

Definition xIOBufferReadIov (io : xIOBuffer) (max_iov : Z) (s : store) : ub (list (list Z)) :=
  if (max_iov <=? 0)%Z then Some [] else iov_loop (io_refs io) (Z.to_nat max_iov) s.

(** ** Input and output *)

(** Input into a new block. *)
Definition read_fresh {C} (fn : C -> nat -> option (list Z) * C) (ctx : C) (io : xIOBuffer) (s : store)
    : ub (Z * xIOBuffer * store * C) :=
  '(blk, s) ← xIOBlockAcquire block_size junk alloc s;
  match blk with
  | None => Some ((-1)%Z, io, s, ctx)
  | Some b =>
      let '(got, ctx) := fn ctx block_size in
      match got with
      | None => s ← xIOBlockRelease b s; Some ((-1)%Z, io, s, ctx)
      | Some bs =>
          if decide (length bs = 0) then s ← xIOBlockRelease b s; Some (0%Z, io, s, ctx) else
          '(err, io, s) ← store_block io b bs s;
          match err with
          | xErrno_Ok => Some (Z.of_nat (length bs), io, s, ctx)
          | _ => Some ((-1)%Z, io, s, ctx)
          end
      end
  end.

(** [fn] is given its context and the room; it answers with the bytes it
    stored there, none at the end of the input, or fails. *)
Definition xIOBufferReadWith {C} (fn : C -> nat -> option (list Z) * C) (ctx : C) (io : xIOBuffer) (s : store)
    : ub (Z * xIOBuffer * store * C) :=
  room ← tail_room io;
  match room with
  | Some (t, avail) =>
      if decide (0 < avail) then
        let '(got, ctx) := fn ctx avail in
        match got with
        | None => Some ((-1)%Z, io, s, ctx)
        | Some bs =>
            if decide (length bs = 0) then Some (0%Z, io, s, ctx)
            else '(io, s) ← extend_tail io t bs s; Some (Z.of_nat (length bs), io, s, ctx)
        end
      else read_fresh fn ctx io s
  | None => read_fresh fn ctx io s
  end.

(** The same over [read], repeated while it is interrupted. *)
Definition xIOBufferReadFd {C} (read : C -> nat -> option (list Z) * C) (ctx : C) (io : xIOBuffer) (s : store)
    : ub (Z * xIOBuffer * store * C) := xIOBufferReadWith read ctx io s.

(** [fn] is given the segments and answers with the number of bytes it took. *)
Definition xIOBufferWriteWith (fn : list (list Z) -> option Z) (io : xIOBuffer) (s : store)
    : ub (Z * xIOBuffer * store) :=
  iov ← xIOBufferReadIov io (Z.of_nat IOV_CHUNK) s;
  if decide (length iov = 0) then Some (0%Z, io, s) else
  match fn iov with
  | None => Some ((-1)%Z, io, s)
  | Some n =>
      if (0 <? n)%Z then '(_, io, s) ← xIOBufferConsume io n s; Some (n, io, s)
      else Some (n, io, s)
  end.

Definition xIOBufferWriteFd (writev : list (list Z) -> option Z) (io : xIOBuffer) (s : store)
    : ub (Z * xIOBuffer * store) := xIOBufferWriteWith writev io s.

End iobuf.

(** ** Contents and well-formedness *)

Definition bytes_of (s : store) (b : bid) : list Z := default [] (data <$> blocks s !! b).
Definition ref_bytes (s : store) (r : xIOBufferRef) : list Z := take (r_len r) (drop (r_off r) (bytes_of s (r_block r))).
Definition contents (s : store) (rs : list xIOBufferRef) : list Z := rs ≫= ref_bytes s.
Definition ids (rs : list xIOBufferRef) : list bid := r_block <$> rs.
Definition total (rs : list xIOBufferRef) : nat := sum_list (r_len <$> rs).

(** Bytes, hence slices, are fewer than this: no size wraps. *)
Definition MAX_BYTES : Z := 2 ^ 58.

Section wf.
Context (block_size : nat) (junk : nat -> list Z) (alloc : nat -> bool).

Definition ref_ok (r : xIOBufferRef) : Prop := 0 < r_len r /\ r_off r + r_len r <= block_size.
Abbreviation refs_ok := (Forall ref_ok).

Record io_ok (io : xIOBuffer) : Prop := {
  ok_refs : refs_ok (io_refs io);
  ok_cap : (nrefs io <= io_cap io)%Z;
  ok_cap_range : (XIOBUFFER_INLINE_REFS <= io_cap io <= 2 * MAX_BYTES)%Z;
  ok_nbytes : io_nbytes io = Z.of_nat (total (io_refs io));
}.

Lemma contents_app s rs rs' : contents s (rs ++ rs') = contents s rs ++ contents s rs'.
Proof. apply bind_app. Qed.

Lemma contents_cons s r rs : contents s (r :: rs) = ref_bytes s r ++ contents s rs.
Proof. reflexivity. Qed.

Lemma ids_app rs rs' : ids (rs ++ rs') = ids rs ++ ids rs'.
Proof. apply fmap_app. Qed.

Lemma total_app rs rs' : total (rs ++ rs') = total rs + total rs'.
Proof. unfold total. induction rs as [|r rs IH]; cbn in *; [done|]. lia. Qed.

Lemma total_cons r rs : total (r :: rs) = r_len r + total rs.
Proof. reflexivity. Qed.

Lemma total_length rs : refs_ok rs -> length rs <= total rs.
Proof. unfold total. induction 1 as [|r rs [Hr _] _ IH]; cbn in *; lia. Qed.

Lemma bytes_of_frame hs s s' b : frame hs s s' -> b ∈ hs -> bytes_of s' b = bytes_of s b.
Proof. intros H Hb. unfold bytes_of. by rewrite H. Qed.

Lemma contents_frame hs s s' rs : frame hs s s' -> ids rs ⊆ hs -> contents s' rs = contents s rs.
Proof.
  intros H Hi. unfold contents. apply Forall_bind_ext, Forall_forall. intros r Hr. unfold ref_bytes.
  rewrite (bytes_of_frame hs s s'); [done..|]. apply Hi. by apply list_elem_of_fmap_2.
Qed.

Lemma bytes_of_length s hs b : held_ok block_size s hs -> b ∈ hs -> length (bytes_of s b) = block_size.
Proof. intros H Hb. destruct (held_lookup _ _ _ _ H Hb) as (blk & E & Hl & _). unfold bytes_of. by rewrite E. Qed.

Lemma ref_bytes_length s hs r :
  held_ok block_size s hs -> r_block r ∈ hs -> ref_ok r -> length (ref_bytes s r) = r_len r.
Proof.
  intros H Hb [_ Hr]. unfold ref_bytes. rewrite length_take, length_drop, (bytes_of_length _ _ _ H Hb). lia.
Qed.

Lemma contents_length s hs rs :
  held_ok block_size s (ids rs ++ hs) -> refs_ok rs -> length (contents s rs) = total rs.
Proof.
  intros H Hr. assert (forall r, r ∈ rs -> r_block r ∈ ids rs ++ hs) as Hin.
  { intros r Hi. apply elem_of_app. left. by apply list_elem_of_fmap_2. }
  generalize dependent (ids rs ++ hs). intros hs' H Hin. induction Hr as [|r rs Hr Hrs IH]; [done|].
  rewrite contents_cons, length_app, IH by (intros; apply Hin; by right).
  rewrite (ref_bytes_length s hs') by (try done; apply Hin; left). done.
Qed.

(** Reading part of a held slice. *)
Lemma block_read_spec s hs b pos n :
  held_ok block_size s hs -> b ∈ hs -> pos + n <= block_size ->
  block_read b pos n s = Some (take n (drop pos (bytes_of s b))).
Proof.
  intros H Hb Hl. destruct (held_lookup _ _ _ _ H Hb) as (blk & E & Hlen & _).
  unfold block_read, bytes_of. rewrite E. cbn [mbind option_bind fmap option_fmap option_map default].
  by rewrite mem_read_Some by lia.
Qed.

(** ** Growing the array of slices *)

Lemma grow_refs_spec io needed s :
  (XIOBUFFER_INLINE_REFS <= io_cap io <= 2 * MAX_BYTES)%Z -> (needed <= MAX_BYTES)%Z ->
  exists err io' n, iobuf_grow_refs alloc io needed s = Some (err, io', Store (blocks s) (pool s) n) /\
    io_refs io' = io_refs io /\ io_nbytes io' = io_nbytes io /\ (io_cap io <= io_cap io' <= 2 * MAX_BYTES)%Z /\
    (err = xErrno_Ok /\ (needed <= io_cap io')%Z \/ err = xErrno_NoMemory /\ exists k, alloc k = false).
Proof.
  unfold XIOBUFFER_INLINE_REFS, MAX_BYTES, iobuf_grow_refs. intros Hc Hn.
  destruct (Z.leb_spec needed (io_cap io)).
  { exists xErrno_Ok, io, (tries s). destruct s. split; [done|]. split; [done|].
    split; [done|]. split; [lia|]. by left. }
  rewrite (proj2 (Z.eqb_neq _ _)) by lia.
  assert (u64 (io_cap io * 2) = io_cap io * 2)%Z as -> by (apply Z.mod_small; lia).
  destruct (double_until_spec 65 (io_cap io * 2) needed) as (c & -> & H1 & H2 & H3); [lia|lia| |lia|].
  { change (2 ^ (Z.of_nat 65 - 1))%Z with (2 ^ 64)%Z. lia. }
  cbn [mbind option_bind]. unfold malloc. destruct (alloc (tries s)) eqn:Ea; cbn [negb].
  2: { exists xErrno_NoMemory, io, (S (tries s)). split; [done|]. split; [done|]. split; [done|]. split; [lia|].
       right. split; [done|]. by exists (tries s). }
  assert (c * sizeof_xIOBufferRef <=? SIZE_MAX = true)%Z as ->.
  { apply Z.leb_le. unfold SIZE_MAX, sizeof_xIOBufferRef. lia. }
  eexists xErrno_Ok, (IO true _ c _), (S (tries s)). split; [done|]. split; [done|]. split; [done|].
  cbn [io_cap]. split; [lia|]. left. split; [done|lia].
Qed.

(** The array after a push, [ok] being what success adds. *)
Lemma push_ref_spec io b off len adjust s :
  refs_ok (io_refs io) -> (nrefs io <= io_cap io)%Z -> (XIOBUFFER_INLINE_REFS <= io_cap io <= 2 * MAX_BYTES)%Z ->
  ref_ok (Ref b off len) -> (nrefs io < MAX_BYTES)%Z ->
  exists err io' n, iobuf_push_ref alloc io b off len adjust s = Some (err, io', Store (blocks s) (pool s) n) /\
    (nrefs io' <= io_cap io')%Z /\ (XIOBUFFER_INLINE_REFS <= io_cap io' <= 2 * MAX_BYTES)%Z /\
    (err = xErrno_Ok /\ io_refs io' = io_refs io ++ [Ref b off len] /\
       io_nbytes io' = (if adjust then u64 (io_nbytes io + Z.of_nat len) else io_nbytes io) \/
     err = xErrno_NoMemory /\ io_refs io' = io_refs io /\ io_nbytes io' = io_nbytes io /\
       exists k, alloc k = false).
Proof.
  intros Hrs Hn Hc [Hlen Hr] Hs. cbn [r_off r_len] in Hlen, Hr. unfold iobuf_push_ref. rewrite decide_False by lia.
  destruct (grow_refs_spec io (nrefs io + 1) s) as (err & io1 & n & -> & Er & En & Hc1 & Hcase); [done|lia|].
  cbn [mbind option_bind]. unfold nrefs in *. destruct Hcase as [[-> Hc2]|[-> Hk]].
  - eexists xErrno_Ok, _, n. split; [done|]. cbn [with_refs]. rewrite <- Er in *.
    split; [|split; [|left; split; [done|]]].
    + destruct adjust; cbn [add_nbytes with_refs io_refs io_cap]; rewrite length_app; cbn [length]; lia.
    + destruct adjust; cbn [add_nbytes with_refs io_refs io_cap]; lia.
    + destruct adjust; cbn [add_nbytes with_refs io_refs io_nbytes]; by rewrite <- En.
  - eexists xErrno_NoMemory, io1, n. split; [done|]. rewrite Er, En. split; [lia|]. split; [lia|]. by right.
Qed.

(** ** Appending *)

Hypothesis junk_len : forall n, length (junk n) = n.

(** What an append of [src] may leave: all of it on success, a prefix when the
    memory ran out. *)
Definition appended (src : list Z) (err : xErrno) (old new : list Z) : Prop :=
  err = xErrno_Ok /\ new = old ++ src \/
  err = xErrno_NoMemory /\ (exists k, alloc k = false) /\ exists k, new = old ++ take k src.

Lemma io_ok_push io b len io' :
  io_ok io -> ref_ok (Ref b 0 len) -> (io_nbytes io + Z.of_nat len <= MAX_BYTES)%Z ->
  (nrefs io' <= io_cap io')%Z -> (XIOBUFFER_INLINE_REFS <= io_cap io' <= 2 * MAX_BYTES)%Z ->
  io_refs io' = io_refs io ++ [Ref b 0 len] -> io_nbytes io' = u64 (io_nbytes io + Z.of_nat len) -> io_ok io'.
Proof.
  intros [Hr Hc Hcr Hn] Hb Hs H1 H2 Er En. split; [|done..|].
  - rewrite Er. apply Forall_app. split; [done|]. by apply Forall_singleton.
  - rewrite En, Er, total_app. cbn. unfold MAX_BYTES in Hs. unfold u64. rewrite Z.mod_small by lia. lia.
Qed.

(** No block is behind two slices. *)
Definition unshared (io : xIOBuffer) (hs : list bid) : Prop := NoDup (ids (io_refs io) ++ hs).

Lemma unshared_eq io io' hs : ids (io_refs io') = ids (io_refs io) -> unshared io hs -> unshared io' hs.
Proof. unfold unshared. by intros ->. Qed.

(** A block just acquired, filled and pushed. *)
Lemma store_block_spec io b src s hs :
  io_ok io -> held_ok block_size s (b :: ids (io_refs io) ++ hs) -> b ∉ ids (io_refs io) ++ hs ->
  0 < length src <= block_size ->
  (io_nbytes io + Z.of_nat (length src) <= MAX_BYTES)%Z -> (Z.of_nat (length hs) <= MAX_BYTES)%Z ->
  exists err io' s', store_block alloc io b src s = Some (err, io', s') /\
    io_ok io' /\ held_ok block_size s' (ids (io_refs io') ++ hs) /\ frame (ids (io_refs io) ++ hs) s s' /\
    io_refs io `prefix_of` io_refs io' /\ (unshared io hs -> unshared io' hs) /\
    (err = xErrno_Ok /\ contents s' (io_refs io') = contents s (io_refs io) ++ src /\
       io_nbytes io' = (io_nbytes io + Z.of_nat (length src))%Z \/
     err = xErrno_NoMemory /\ (exists k, alloc k = false) /\ io_refs io' = io_refs io).
Proof.
  intros Hio H Hb Hlen Hs Hhs. unfold store_block. pose proof (total_length _ (ok_refs _ Hio)) as Htl.
  pose proof (ok_nbytes _ Hio) as Hn. unfold MAX_BYTES in *.
  destruct (block_write_spec block_size s _ b 0 src H) as (s2 & blk & d & -> & H2 & E1 & Ed & Hl1 & E2); [left|lia|].
  cbn [mbind option_bind].
  destruct (set_size_spec block_size s2 _ b (Z.of_nat (length src)) H2) as (s3 & -> & H3 & Hf3); [left|].
  cbn [mbind option_bind].
  assert (ref_ok (Ref b 0 (length src))) as Hb0 by (split; cbn [r_len r_off]; lia).
  assert (forall n, frame (ids (io_refs io) ++ hs) s (Store (blocks s3) (pool s3) n)) as Hf.
  { intros n c Hc. cbn [blocks]. rewrite Hf3 by (by right). rewrite E2, lookup_insert_ne; [done|]. by intros ->. }
  destruct Hio as [Hrs Hc1 Hc2 Hc3].
  destruct (push_ref_spec io b 0 (length src) true s3) as (err & io' & n & -> & Hc1' & Hc2' & Hcase);
    [done..|unfold nrefs, MAX_BYTES; lia|]. cbn [mbind option_bind].
  destruct Hcase as [(-> & Er & En)|(-> & Er & En & Hk)].
  - exists xErrno_Ok, io', (Store (blocks s3) (pool s3) n). split; [done|].
    split; [by eapply (io_ok_push io b)|]. split.
    { eapply held_ok_perm; [|by apply held_ok_tries]. rewrite Er, ids_app. cbn. solve_Permutation. }
    split; [done|]. split; [by eexists|]. split.
    { unfold unshared. rewrite Er, ids_app, <- app_assoc. cbn [ids fmap list_fmap app]. intros Hu.
      rewrite <- Permutation_middle. by constructor. }
    left. split; [done|]. split.
    + rewrite Er, contents_app. f_equal.
      { eapply contents_frame; [done|]. intros c Hc. apply elem_of_app. by left. }
      rewrite contents_cons, app_nil_r. unfold ref_bytes, bytes_of. cbn [r_block r_off r_len blocks].
      rewrite (Hf3 b) by left. rewrite E2, lookup_insert_eq. cbn.
      rewrite mem_write_Some in Ed by lia. injection Ed as <-. by rewrite drop_0, take_app_length.
    + rewrite En. apply Z.mod_small. lia.
  - destruct (release_spec block_size (Store (blocks s3) (pool s3) n) (ids (io_refs io) ++ hs) b) as (s4 & -> & H4 & Hf4).
    { by apply held_ok_tries. }
    { unfold SIZE_MAX, ids. rewrite length_app, length_fmap. lia. }
    cbn [mbind option_bind]. exists xErrno_NoMemory, io', s4. split; [done|].
    split; [split; rewrite ?Er, ?En; done|]. rewrite Er. split; [done|].
    split; [eapply frame_trans; [apply (Hf n)|apply Hf4]|]. split; [done|]. split; [by apply unshared_eq; rewrite Er|]. by right.
Qed.

Lemma append_block_spec io src s hs :
  io_ok io -> held_ok block_size s (ids (io_refs io) ++ hs) -> 0 < length src <= block_size ->
  (io_nbytes io + Z.of_nat (length src) <= MAX_BYTES)%Z -> (Z.of_nat (length hs) <= MAX_BYTES)%Z ->
  exists err io' s', append_block block_size junk alloc io src s = Some (err, io', s') /\
    io_ok io' /\ held_ok block_size s' (ids (io_refs io') ++ hs) /\ frame (ids (io_refs io) ++ hs) s s' /\
    io_refs io `prefix_of` io_refs io' /\ (unshared io hs -> unshared io' hs) /\
    (err = xErrno_Ok /\ contents s' (io_refs io') = contents s (io_refs io) ++ src /\
       io_nbytes io' = (io_nbytes io + Z.of_nat (length src))%Z \/
     err = xErrno_NoMemory /\ (exists k, alloc k = false) /\ io_refs io' = io_refs io).
Proof.
  intros Hio H Hlen Hs Hhs. unfold append_block.
  destruct (acquire_spec block_size junk junk_len alloc s _ H) as (r & s1 & -> & Hf1 & Hr).
  cbn [mbind option_bind]. destruct r as [b|].
  2: { destruct Hr as [Hr Hk]. eexists xErrno_NoMemory, io, s1. do 6 (split; [done|]). by right. }
  destruct Hr as [Hb H1].
  destruct (store_block_spec io b src s1 hs) as (err & io' & s' & E & Hio' & H' & Hf & Hp & Hu & Hcase); try done.
  exists err, io', s'. split; [done|]. split; [done|]. split; [done|]. split; [by eapply frame_trans|]. split; [done|]. split; [done|].
  rewrite <- (contents_frame _ s s1 (io_refs io) Hf1); [done|]. intros c Hc. apply elem_of_app. by left.
Qed.

Lemma append_loop_spec fuel io src s hs :
  length src < fuel -> 0 < block_size ->
  io_ok io -> held_ok block_size s (ids (io_refs io) ++ hs) ->
  (io_nbytes io + Z.of_nat (length src) <= MAX_BYTES)%Z -> (Z.of_nat (length hs) <= MAX_BYTES)%Z ->
  exists err io' s', append_loop block_size junk alloc fuel io src s = Some (err, io', s') /\
    io_ok io' /\ held_ok block_size s' (ids (io_refs io') ++ hs) /\ frame (ids (io_refs io) ++ hs) s s' /\
    (unshared io hs -> unshared io' hs) /\
    appended src err (contents s (io_refs io)) (contents s' (io_refs io')).
Proof.
  intros Hf Hbs. revert io src s Hf. induction fuel as [|fuel IH]; intros io src s Hf Hio H Hs Hhs; [lia|].
  cbn [append_loop]. case_decide as Hl.
  { eexists xErrno_Ok, io, s. do 5 (split; [done|]). left. split; [done|].
    apply nil_length_inv in Hl as ->. by rewrite app_nil_r. }
  set (n := length (take block_size src)). assert (n = block_size `min` length src) as Hn by (unfold n; apply length_take).
  destruct (append_block_spec io (take block_size src) s hs) as (err & io1 & s1 & -> & Hio1 & H1 & Hf1 & Hpre & Hu1 & Hcase);
    [done|done|fold n; lia|fold n; lia|done|]. cbn [mbind option_bind]. fold n in Hcase.
  destruct Hcase as [(-> & Hc & Hnb)|(-> & Hk & Er)].
  - destruct (IH io1 (drop block_size src) s1) as (err & io2 & s2 & -> & Hio2 & H2 & Hf2 & Hu2 & Happ);
      [rewrite length_drop; lia|done|done|rewrite length_drop; lia|done|].
    exists err, io2, s2. split; [done|]. split; [done|]. split; [done|]. split.
    { eapply frame_trans; [done|]. eapply frame_incl; [|done].
      destruct Hpre as [rs ->]. rewrite ids_app. set_solver. }
    split; [by auto|].
    rewrite Hc in Happ. destruct Happ as [[-> ->]|(-> & Hk & k & ->)]; [left|right]; (split; [done|]).
    + by rewrite <- app_assoc, take_drop.
    + split; [done|]. exists (n + k). rewrite <- app_assoc. f_equal.
      rewrite <- (take_drop block_size src) at 3. rewrite take_app. fold n.
      rewrite (take_ge (take block_size src)) by (fold n; lia). by rewrite Nat.add_comm, Nat.add_sub.
  - eexists xErrno_NoMemory, io1, s1. do 5 (split; [done|]). right. split; [done|]. split; [done|].
    exists 0. rewrite app_nil_r, Er. eapply contents_frame; [done|]. intros c Hc. apply elem_of_app. by left.
Qed.

(** The slices that a write behind the tail of [io] does not touch. *)
Definition clear_of (io : xIOBuffer) (r : xIOBufferRef) : Prop :=
  match last (io_refs io) with
  | Some t => r_block r = r_block t -> r_off r + r_len r <= r_off t + r_len t
  | None => True
  end.

Lemma clear_frame hs s s' r :
  frame hs s s' -> r_block r ∈ hs -> ref_bytes s' r = ref_bytes s r.
Proof. intros H Hr. unfold ref_bytes. by rewrite (bytes_of_frame hs s s'). Qed.

(** A slice of a block written behind it. *)
Lemma take_drop_write (m : list Z) pos src d off len :
  mem_write m pos src = Some d -> off + len <= pos -> take len (drop off d) = take len (drop off m).
Proof.
  intros H Hl. apply list_eq. intros i. destruct (decide (i < len)).
  - rewrite !lookup_take_lt, !lookup_drop by done. rewrite (lookup_mem_write _ _ _ _ _ H).
    by rewrite decide_False by lia.
  - by rewrite !lookup_take_ge by lia.
Qed.

Lemma take_drop_written (m : list Z) off len src d :
  mem_write m (off + len) src = Some d -> off + len <= length m ->
  take (len + length src) (drop off d) = take len (drop off m) ++ src.
Proof.
  intros H Hl. unfold mem_write in H. case_decide as Hw; [|done]. injection H as <-.
  rewrite drop_app_le by (rewrite length_take; lia).
  rewrite skipn_firstn_comm. replace (off + len - off) with len by lia.
  rewrite app_assoc, take_app_le by (rewrite length_app, length_take, length_drop; lia).
  apply take_ge. rewrite length_app, length_take. lia.
Qed.

Lemma extend_tail_spec io t src s hs :
  io_ok io -> held_ok block_size s (ids (io_refs io) ++ hs) -> last (io_refs io) = Some t ->
  0 < length src -> r_off t + r_len t + length src <= block_size ->
  (io_nbytes io + Z.of_nat (length src) <= MAX_BYTES)%Z ->
  Forall (clear_of io) (io_refs io) ->
  exists io' s', extend_tail io t src s = Some (io', s') /\ io_ok io' /\
    ids (io_refs io') = ids (io_refs io) /\ held_ok block_size s' (ids (io_refs io') ++ hs) /\
    contents s' (io_refs io') = contents s (io_refs io) ++ src /\
    io_nbytes io' = (io_nbytes io + Z.of_nat (length src))%Z /\
    (forall r, clear_of io r -> ref_bytes s' r = ref_bytes s r).
Proof.
  intros [Hrs Hc1 Hc2 Hc3] H Ht Hlen Hl Hs Hclear. unfold MAX_BYTES in *.
  apply last_Some in Ht as [l Er]. unfold extend_tail. rewrite Er.
  assert (r_block t ∈ ids (io_refs io) ++ hs) as Hin.
  { rewrite Er, ids_app. apply elem_of_app. left. apply elem_of_app. right. left. }
  destruct (block_write_spec block_size s _ (r_block t) (r_off t + r_len t) src H Hin) as
    (s' & blk & d & -> & H' & E & Ed & Hlb & Es'); [lia|].
  cbn [mbind option_bind].
  assert (forall r, clear_of io r -> ref_bytes s' r = ref_bytes s r) as Hkeep.
  { intros r Hr. unfold clear_of in Hr. rewrite Er, last_snoc in Hr. unfold ref_bytes, bytes_of. rewrite Es'.
    destruct (decide (r_block r = r_block t)) as [Eb|Hne].
    - rewrite Eb, lookup_insert_eq, E. cbn [fmap option_fmap option_map default data].
      eapply take_drop_write; [done|]. by apply Hr.
    - by rewrite lookup_insert_ne. }
  rewrite length_app, Nat.add_1_r. cbn [pred length]. rewrite take_app_length.
  assert (ids (l ++ [Ref (r_block t) (r_off t) (r_len t + length src)]) = ids (l ++ [t])) as Eids by (by rewrite !ids_app).
  rewrite Er in Hrs. apply Forall_app in Hrs as [Hrl Hrt%Forall_inv].
  rewrite Er, total_app in Hc3. cbn in Hc3.
  eexists _, s'. split; [done|]. cbn [add_nbytes with_refs io_refs io_nbytes]. split; [|split; [|split; [|split; [|split]]]].
  - split; cbn [add_nbytes with_refs io_refs io_nbytes io_cap nrefs] in *; [|unfold nrefs in *; cbn [io_refs]|done|].
    + apply Forall_app. split; [done|]. apply Forall_singleton. split; cbn [r_off r_len]; lia.
    + rewrite Er in Hc1. cbn [add_nbytes with_refs io_refs io_cap]. rewrite length_app in *. cbn [length] in *. lia.
    + rewrite total_app. cbn. unfold u64. rewrite Z.mod_small by lia. lia.
  - by rewrite Eids.
  - by rewrite Eids, <- Er.
  - rewrite Er in Hclear. apply Forall_app in Hclear as [Hclear _].
    rewrite !contents_app, !contents_cons, !app_nil_r, <- app_assoc. f_equal.
    + apply Forall_bind_ext. eapply Forall_impl; [done|]. apply Hkeep.
    + unfold ref_bytes, bytes_of. cbn [r_block r_off r_len]. rewrite Es', lookup_insert_eq, E.
      cbn [fmap option_fmap option_map default data]. apply take_drop_written; [exact Ed|unfold Datatypes.id; lia].
  - apply Z.mod_small. lia.
  - done.
Qed.

Lemma append_spec io src s hs :
  0 < block_size -> io_ok io -> held_ok block_size s (ids (io_refs io) ++ hs) ->
  (io_nbytes io + Z.of_nat (length src) <= MAX_BYTES)%Z -> (Z.of_nat (length hs) <= MAX_BYTES)%Z ->
  Forall (clear_of io) (io_refs io) ->
  exists err io' s', xIOBufferAppend block_size junk alloc io src s = Some (err, io', s') /\
    io_ok io' /\ held_ok block_size s' (ids (io_refs io') ++ hs) /\
    appended src err (contents s (io_refs io)) (contents s' (io_refs io')) /\
    (unshared io hs -> unshared io' hs) /\
    (forall r, r_block r ∈ ids (io_refs io) ++ hs -> clear_of io r -> ref_bytes s' r = ref_bytes s r).
Proof.
  intros Hbs Hio H Hs Hhs Hclear. unfold xIOBufferAppend. case_decide as Hl.
  { eexists xErrno_Ok, io, s. do 3 (split; [done|]). split; [|done]. left. split; [done|].
    apply nil_length_inv in Hl as ->. by rewrite app_nil_r. }
  assert (forall io1 src1 s1, length src1 <= length src -> io_ok io1 ->
    held_ok block_size s1 (ids (io_refs io1) ++ hs) -> ids (io_refs io1) = ids (io_refs io) ->
    (io_nbytes io1 + Z.of_nat (length src1) <= MAX_BYTES)%Z ->
    (forall r, clear_of io r -> ref_bytes s1 r = ref_bytes s r) ->
    forall pre, src = pre ++ src1 -> contents s1 (io_refs io1) = contents s (io_refs io) ++ pre ->
    exists err io' s', append_loop block_size junk alloc (S (length src1)) io1 src1 s1 = Some (err, io', s') /\
      io_ok io' /\ held_ok block_size s' (ids (io_refs io') ++ hs) /\
      appended src err (contents s (io_refs io)) (contents s' (io_refs io')) /\
      (unshared io hs -> unshared io' hs) /\
      (forall r, r_block r ∈ ids (io_refs io) ++ hs -> clear_of io r -> ref_bytes s' r = ref_bytes s r)) as Hloop.
  { intros io1 src1 s1 Hl1 Hio1 H1 Ei Hs1 Hk1 pre Esrc Hc1.
    destruct (append_loop_spec (S (length src1)) io1 src1 s1 hs) as (err & io2 & s2 & -> & Hio2 & H2 & Hf2 & Hu2 & Happ); try done; [lia|].
    exists err, io2, s2. split; [done|]. split; [done|]. split; [done|]. split.
    - rewrite Hc1 in Happ. rewrite Esrc. destruct Happ as [[-> ->]|(-> & Hk & k & ->)]; [left|right]; rewrite <- app_assoc; [done|].
      split; [done|]. split; [done|]. exists (length pre + k). by rewrite take_app_add.
    - split; [intros Hu; by eapply Hu2, unshared_eq|]. intros r Hr Hcl. rewrite <- (Hk1 r Hcl). eapply clear_frame; [done|]. by rewrite Ei. }
  unfold tail_room. destruct (last (io_refs io)) as [t|] eqn:Et.
  2: { cbn [mbind option_bind]. eapply (Hloop io src s) with (pre := []); try done. by rewrite app_nil_r. }
  assert (ref_ok t) as [Ht1 Ht2].
  { apply last_Some in Et as [l Er]. destruct Hio as [Hrs _ _ _]. rewrite Er in Hrs.
    apply Forall_app in Hrs as [_ Hrt%Forall_inv]. done. }
  rewrite decide_True by done. cbn [mbind option_bind]. case_decide as Hav.
  2: { cbn [mbind option_bind]. eapply (Hloop io src s) with (pre := []); try done. by rewrite app_nil_r. }
  set (avail := block_size - _) in *.
  assert (length (take avail src) = avail `min` length src) as Hlt by apply length_take.
  destruct (extend_tail_spec io t (take avail src) s hs) as (io1 & s1 & -> & Hio1 & Ei & H1 & Hc1 & Hn1 & Hk1); try done; [lia|lia|lia|].
  cbn [mbind option_bind]. eapply (Hloop io1 (drop avail src) s1) with (pre := take avail src); try done.
  - rewrite length_drop. lia.
  - rewrite Hn1, Hlt, length_drop. lia.
  - by rewrite take_drop.
Qed.

End wf.
