(* ===== verification/IOTake.v ===== *)
(** * IOTake: what the removing and moving operations of [IOBuf] do

    The loops that take slices from the front are specified on the list of
    slices: the contents lose a prefix, every reference is released or handed
    over, and no byte of a block changes. *)

From S2P Require Import Prelude Errno IOBlock IOBuf.

Section take.
Context (block_size : nat) (junk : nat -> list Z) (alloc : nat -> bool).
Abbreviation held_ok := (held_ok block_size).
Abbreviation ref_ok := (ref_ok block_size).
Abbreviation io_ok := (io_ok block_size).

(** No block changes its bytes. *)
Abbreviation same_bytes s s' := (forall hs, frame hs s s').

Lemma same_contents s s' rs : same_bytes s s' -> contents s' rs = contents s rs.
Proof. intros H. by apply (contents_frame (ids rs)). Qed.

(** The first slice split at [n]. *)
Lemma ref_bytes_split s r n :
  n <= r_len r ->
  ref_bytes s r = ref_bytes s (Ref (r_block r) (r_off r) n) ++
                  ref_bytes s (Ref (r_block r) (r_off r + n) (r_len r - n)).
Proof.
  intros Hn. unfold ref_bytes. cbn [r_block r_off r_len].
  replace (r_len r) with (n + (r_len r - n)) at 1 by lia.
  by rewrite <- take_take_drop, drop_drop.
Qed.

Lemma held_bound (hs : list bid) : (Z.of_nat (length hs) <= MAX_BYTES)%Z -> (Z.of_nat (length hs) < SIZE_MAX)%Z.
Proof. unfold MAX_BYTES, SIZE_MAX. lia. Qed.

(** ** Consuming and reading *)

Lemma consume_loop_spec rs want s hs :
  Forall ref_ok rs -> held_ok s (ids rs ++ hs) -> want <= total rs ->
  (Z.of_nat (length (ids rs ++ hs)) <= MAX_BYTES)%Z ->
  exists shift rest s', consume_loop rs want s = Some (want, shift, rest, s') /\
    held_ok s' (ids rest ++ hs) /\ same_bytes s s' /\ Forall ref_ok rest /\
    contents s' rest = drop want (contents s rs) /\ total rest = total rs - want /\
    shift + length rest = length rs /\ ids rest `suffix_of` ids rs.
Proof.
  intros Hrs. revert want s. induction Hrs as [|r rs Hr Hrs IH]; intros want s H Hw Hs; cbn [consume_loop].
  { cbn in Hw. assert (want = 0) as -> by lia. exists 0, [], s. split; [done|]. by split. }
  assert (length (contents s (r :: rs)) = total (r :: rs)) as Hlen by (by eapply contents_length; [|constructor]).
  case_decide as Hw0.
  { subst want. exists 0, (r :: rs), s. split; [done|]. split; [done|]. split; [done|]. split; [by constructor|].
    split; [done|]. split; [by rewrite Nat.sub_0_r|]. by split. }
  assert (length (ref_bytes s r) = r_len r) as Hrl.
  { eapply ref_bytes_length; [done| |done]. by left. }
  change (total (r :: rs)) with (r_len r + total rs) in *.
  change (length (ids (r :: rs) ++ hs)) with (S (length (ids rs ++ hs))) in Hs. rewrite contents_cons in *.
  case_decide as Hle.
  - destruct (release_spec block_size s (ids rs ++ hs) (r_block r)) as (s1 & -> & H1 & Hf1); [done| |].
    { apply held_bound. lia. }
    cbn [mbind option_bind].
    destruct (IH (want - r_len r) s1) as (shift & rest & s' & -> & H' & Hf & Hok & Hc & Ht & Hsh & Hsuf); [done|lia|lia|].
    cbn [mbind option_bind]. exists (S shift), rest, s'. split; [repeat f_equal; lia|]. split; [done|].
    split; [intros hs'; by eapply frame_trans|]. split; [done|]. split.
    + rewrite Hc, (same_contents s s1) by done. by rewrite drop_app_ge, Hrl by lia.
    + cbn [length]. split; [lia|]. split; [lia|]. by apply suffix_cons_r.
  - eexists 0, _, s. split; [done|]. split; [done|]. split; [done|]. destruct Hr as [Hr1 Hr2]. split.
    { constructor; [|done]. split; cbn [r_off r_len]; lia. }
    split; [|rewrite total_cons; cbn [r_len length]; split; [lia|by split]]. rewrite contents_cons, (ref_bytes_split s r want), <- app_assoc by lia.
    rewrite drop_app_length'; [done|]. symmetry.
    apply (ref_bytes_length block_size s _ (Ref (r_block r) (r_off r) want) H); [by left|split; cbn [r_off r_len]; lia].
Qed.

(** [read_loop] is [consume_loop] with the bytes copied out. *)
Lemma read_loop_consume rs want s hs :
  Forall ref_ok rs -> held_ok s (ids rs ++ hs) -> want <= total rs ->
  (Z.of_nat (length (ids rs ++ hs)) <= MAX_BYTES)%Z ->
  read_loop rs want s =
  ('(n, shift, rest, s') ← consume_loop rs want s; Some (take want (contents s rs), shift, rest, s')).
Proof.
  intros Hrs. revert want s. induction Hrs as [|r rs Hr Hrs IH]; intros want s H Hw Hs; cbn [consume_loop read_loop].
  { cbn. by rewrite take_nil. }
  case_decide as Hw0; [by subst want|].
  assert (length (ref_bytes s r) = r_len r) as Hrl.
  { eapply ref_bytes_length; [done| |done]. by left. }
  change (total (r :: rs)) with (r_len r + total rs) in *.
  change (length (ids (r :: rs) ++ hs)) with (S (length (ids rs ++ hs))) in Hs. rewrite contents_cons in *. destruct Hr as [Hr1 Hr2].
  destruct (decide (r_len r <= want)) as [Hle|Hle].
  - rewrite (decide_False (P := want < r_len r)) by lia.
    rewrite (block_read_spec block_size s _ _ _ _ H) by (by left || lia).
    cbn [mbind option_bind]. rewrite decide_True by done.
    destruct (release_spec block_size s (ids rs ++ hs) (r_block r)) as (s1 & -> & H1 & Hf1); [done| |].
    { apply held_bound. lia. }
    cbn [mbind option_bind]. rewrite IH by (done || lia || (lia)).
    destruct (consume_loop rs (want - r_len r) s1) as [[[[n shift] rest] s']|]; [|done].
    cbn [mbind option_bind]. rewrite (same_contents s s1) by done.
    by rewrite take_app_ge, Hrl by lia.
  - rewrite (decide_True (P := want < r_len r)) by lia.
    rewrite (block_read_spec block_size s _ _ _ _ H) by (by left || lia).
    cbn [mbind option_bind]. rewrite decide_False by lia.
    rewrite take_app_le by lia. unfold ref_bytes. by rewrite take_take, Nat.min_l by lia.
Qed.

(** The array after a loop. *)
Lemma finish_refs io shift rest n :
  shift <= length (io_refs io) -> io_refs (finish io shift rest n) = rest.
Proof.
  intros Hs. unfold finish, iobuf_shift_refs. cbn [with_refs io_refs].
  assert (length (take shift (io_refs io) ++ rest) = shift + length rest) as Hl.
  { rewrite length_app, length_take. lia. }
  case_decide; [|by replace shift with 0 by lia]. rewrite (decide_False (P := shift = 0)) by lia. case_decide as Hc.
  - cbn [with_refs io_refs]. rewrite Hl in Hc. by destruct rest as [|? ?]; [|cbn in Hc; lia].
  - cbn [with_refs io_refs]. apply drop_app_length'. rewrite length_take. lia.
Qed.

Lemma finish_ok io shift rest n :
  io_ok io -> Forall ref_ok rest -> shift + length rest = length (io_refs io) ->
  n <= total (io_refs io) -> total rest = total (io_refs io) - n -> (io_nbytes io <= MAX_BYTES)%Z ->
  io_ok (finish io shift rest n).
Proof.
  intros [Hr Hc Hcr Hn] Hrest Hs Hle Ht Hm. unfold MAX_BYTES in *.
  assert (io_cap (finish io shift rest n) = io_cap io /\
          io_nbytes (finish io shift rest n) = u64 (io_nbytes io - Z.of_nat n)) as [Ec En].
  { unfold finish, iobuf_shift_refs. cbn. by repeat case_decide. }
  split; unfold nrefs in *; rewrite ?finish_refs, ?Ec, ?En by lia; [done|lia|done|].
  unfold u64. rewrite Z.mod_small by lia. lia.
Qed.

Lemma clamp_le io n : io_ok io -> (0 <= n)%Z -> clamp io n = Z.to_nat n `min` total (io_refs io).
Proof. intros [_ _ _ Hn] H0. unfold clamp. rewrite Hn. destruct (Z.ltb_spec (Z.of_nat (total (io_refs io))) n); lia. Qed.

(** Everything taking from the front establishes. *)
Definition taken (io io' : xIOBuffer) (k : nat) (s s' : store) (hs : list bid) : Prop :=
  io_ok io' /\ held_ok s' (ids (io_refs io') ++ hs) /\ same_bytes s s' /\
  contents s' (io_refs io') = drop k (contents s (io_refs io)) /\ (unshared io hs -> unshared io' hs).

Lemma consume_spec io n s hs :
  io_ok io -> held_ok s (ids (io_refs io) ++ hs) -> (0 <= n)%Z ->
  (Z.of_nat (length (ids (io_refs io) ++ hs)) <= MAX_BYTES)%Z -> (io_nbytes io <= MAX_BYTES)%Z ->
  exists io' s', xIOBufferConsume io n s = Some (Z.of_nat (Z.to_nat n `min` total (io_refs io)), io', s') /\
    taken io io' (Z.to_nat n) s s' hs.
Proof.
  intros Hio H Hn Hs Hnb. unfold xIOBufferConsume. destruct (Z.eqb_spec n 0) as [->|Hn0].
  { exists io, s. split; [done|]. split; [done|]. split; [done|]. by split. }
  rewrite clamp_le by done. pose proof (contents_length block_size _ _ _ H (ok_refs _ _ Hio)) as Hlen.
  destruct (consume_loop_spec (io_refs io) (Z.to_nat n `min` total (io_refs io)) s hs (ok_refs _ _ Hio) H)
    as (shift & rest & s' & -> & H' & Hf & Hrest & Hc & Ht & Hsh & Hsuf); [lia|done|].
  cbn [mbind option_bind]. eexists _, s'. split; [done|]. unfold taken, unshared. rewrite finish_refs by lia.
  split; [apply finish_ok; (done || lia)|]. split; [done|]. split; [done|]. split.
  2: { destruct Hsuf as [pre Epre]. rewrite Epre, <- app_assoc. intros Hu. by apply NoDup_app in Hu as (_ & _ & ?). }
  rewrite Hc. destruct (Nat.min_spec (Z.to_nat n) (total (io_refs io))) as [[? ->]|[? ->]]; [done|].
  by rewrite !drop_ge by lia.
Qed.

Lemma read_spec io n s hs :
  io_ok io -> held_ok s (ids (io_refs io) ++ hs) -> (0 <= n)%Z ->
  (Z.of_nat (length (ids (io_refs io) ++ hs)) <= MAX_BYTES)%Z -> (io_nbytes io <= MAX_BYTES)%Z ->
  exists io' s', xIOBufferRead io n s = Some (take (Z.to_nat n) (contents s (io_refs io)), io', s') /\
    taken io io' (Z.to_nat n) s s' hs.
Proof.
  intros Hio H Hn Hs Hnb. destruct (consume_spec io n s hs Hio H Hn Hs Hnb) as (io' & s' & Ec & Htk).
  exists io', s'. split; [|done]. unfold xIOBufferRead, xIOBufferConsume in *.
  pose proof (contents_length block_size _ _ _ H (ok_refs _ _ Hio)) as Hlen.
  destruct (Z.eqb_spec n 0) as [->|Hn0]; [by simplify_eq|]. rewrite clamp_le in * by done.
  rewrite (read_loop_consume _ _ _ hs) by (done || lia || apply Hio).
  assert (forall k, take (k `min` total (io_refs io)) (contents s (io_refs io)) = take k (contents s (io_refs io))) as Htake.
  { intros k. rewrite <- Hlen. destruct (Nat.min_spec k (length (contents s (io_refs io)))) as [[? ->]|[? ->]]; [done|].
    by rewrite firstn_all, take_ge by lia. }
  destruct (consume_loop _ _ _) as [[[[m shift] rest] s1]|]; [|done]. cbn [mbind option_bind] in *.
  injection Ec as Em <- <-. rewrite Htake, length_take, Hlen. by replace m with (Z.to_nat n `min` total (io_refs io)) by lia.
Qed.

(** ** Cutting *)

(** [io_ok] but for the byte count, which the caller of the loop settles. *)
Definition shape_ok (io : xIOBuffer) : Prop :=
  Forall ref_ok (io_refs io) /\ (nrefs io <= io_cap io)%Z /\
  (XIOBUFFER_INLINE_REFS <= io_cap io <= 2 * MAX_BYTES)%Z.

Lemma io_ok_shape io : io_ok io <-> shape_ok io /\ io_nbytes io = Z.of_nat (total (io_refs io)).
Proof. split; [intros [H1 H2 H3 H4]; by repeat (split; [done|])|intros [(?&?&?) ?]; by split]. Qed.

(** A push onto a buffer whose new slice is [r]; the store only counts the
    request for memory. *)
Lemma push_shape io r s :
  shape_ok io -> ref_ok r -> (nrefs io < MAX_BYTES)%Z ->
  exists err io' n, iobuf_push_ref alloc io (r_block r) (r_off r) (r_len r) false s =
      Some (err, io', Store (blocks s) (pool s) n) /\
    shape_ok io' /\ io_nbytes io' = io_nbytes io /\
    (err = xErrno_Ok /\ io_refs io' = io_refs io ++ [r] \/
     err = xErrno_NoMemory /\ io_refs io' = io_refs io /\ exists k, alloc k = false).
Proof.
  intros (Hr & Hc & Hcr) Hok Hn. destruct r as [b off len].
  destruct (push_ref_spec block_size alloc io b off len false s) as (err & io' & n & E & Hc1 & Hc2 & Hcase); [done..|].
  exists err, io', n. split; [done|]. destruct Hcase as [(-> & Er & En)|(-> & Er & En & Hk)].
  - split; [split; [|done]|]. { rewrite Er. apply Forall_app. split; [done|]. by constructor. } split; [done|]. by left.
  - split; [split; [|done]|]. { by rewrite Er. } split; [done|]. by right.
Qed.

(** What a cut of [k] bytes leaves behind, the slices [rest] and [dst']. *)
Record cut_done (rs rest : list xIOBufferRef) (dst dst' : xIOBuffer) (k : nat) (s s' : store) (hs : list bid) : Prop := {
  cd_held : held_ok s' (ids rest ++ ids (io_refs dst') ++ hs);
  cd_bytes : same_bytes s s';
  cd_rest : Forall ref_ok rest;
  cd_shape : shape_ok dst';
  cd_nbytes : io_nbytes dst' = io_nbytes dst;
  cd_src : contents s' rest = drop k (contents s rs);
  cd_dst : contents s' (io_refs dst') = contents s (io_refs dst) ++ take k (contents s rs);
  cd_total : total rest = total rs - k;
  cd_total_dst : total (io_refs dst') = total (io_refs dst) + k;
}.

Lemma cut_nothing rs dst dst' s n hs :
  Forall ref_ok rs -> shape_ok dst' -> held_ok s (ids rs ++ ids (io_refs dst) ++ hs) ->
  io_refs dst' = io_refs dst -> io_nbytes dst' = io_nbytes dst ->
  cut_done rs rs dst dst' 0 s (Store (blocks s) (pool s) n) hs.
Proof.
  intros Hr Hs H Er En. split; rewrite ?Er; try done.
  - by apply held_ok_tries.
  - by rewrite app_nil_r.
  - lia.
Qed.

Lemma cut_zero rs dst s hs :
  Forall ref_ok rs -> shape_ok dst -> held_ok s (ids rs ++ ids (io_refs dst) ++ hs) ->
  cut_done rs rs dst dst 0 s s hs.
Proof. intros. destruct s as [b p t]. by apply (cut_nothing rs dst dst (Store b p t) t). Qed.

(** The first slice moved whole, then a cut of the others. *)
Lemma cut_cons r rs rest dst dst1 dst' k s s1 s' hs :
  ref_ok r -> held_ok s (ids (r :: rs) ++ ids (io_refs dst) ++ hs) -> Forall ref_ok rs ->
  io_refs dst1 = io_refs dst ++ [r] -> io_nbytes dst1 = io_nbytes dst -> same_bytes s s1 -> k <= total rs ->
  cut_done rs rest dst1 dst' k s1 s' hs -> cut_done (r :: rs) rest dst dst' (r_len r + k) s s' hs.
Proof.
  intros Hr H Hrs Er En Hf Hk [H1 H2 H3 H4 H5 H6 H7 H8 H9].
  assert (length (ref_bytes s r) = r_len r) as Hl.
  { eapply ref_bytes_length; [done|by left|done]. }
  split; try done.
  - intros hs'. by eapply frame_trans.
  - by rewrite H5.
  - rewrite H6, contents_cons, (same_contents s s1), <- drop_drop by done. by rewrite drop_app_length' by done.
  - rewrite H7, Er, contents_app, contents_cons, app_nil_r, !(same_contents s s1) by done.
    rewrite <- app_assoc, (contents_cons s r rs), take_app_add' by done. do 2 f_equal.
    unfold ref_bytes. by rewrite (bytes_of_frame [r_block r] s s1) by (done || left).
  - rewrite H8, total_cons. lia.
  - rewrite H9, Er, total_app, total_cons. cbn. lia.
Qed.

(** The first slice split, both halves holding the block. *)
Lemma cut_split r rs dst dst' n s s' hs :
  ref_ok r -> Forall ref_ok rs -> 0 < n < r_len r -> shape_ok dst' ->
  held_ok s (ids (r :: rs) ++ ids (io_refs dst) ++ hs) ->
  held_ok s' (ids (r :: rs) ++ (ids (io_refs dst) ++ [r_block r]) ++ hs) -> same_bytes s s' ->
  io_refs dst' = io_refs dst ++ [Ref (r_block r) (r_off r) n] -> io_nbytes dst' = io_nbytes dst ->
  cut_done (r :: rs) (Ref (r_block r) (r_off r + n) (r_len r - n) :: rs) dst dst' n s s' hs.
Proof.
  intros Hr Hrs Hn Hsh H H' Hf Er En. pose proof Hr as [Hr1 Hr2].
  assert (length (ref_bytes s (Ref (r_block r) (r_off r) n)) = n) as Hl.
  { apply (ref_bytes_length block_size s _ (Ref (r_block r) (r_off r) n) H); [by left|split; cbn [r_off r_len]; lia]. }
  split; try done.
  - rewrite Er, ids_app. done.
  - constructor; [|done]. split; cbn [r_off r_len]; lia.
  - rewrite (same_contents s s') by done. rewrite !contents_cons, (ref_bytes_split s r n), <- app_assoc by lia.
    by rewrite drop_app_length' by done.
  - rewrite Er, contents_app, !(same_contents s s') by done. f_equal.
    rewrite !contents_cons, (ref_bytes_split s r n), <- app_assoc by lia.
    by rewrite take_app_length', app_nil_r by done.
  - rewrite !total_cons. cbn [r_len]. lia.
  - rewrite Er, total_app, total_cons. cbn. lia.
Qed.

Lemma cut_loop_spec rs want dst s hs :
  Forall ref_ok rs -> shape_ok dst -> held_ok s (ids rs ++ ids (io_refs dst) ++ hs) -> want <= total rs ->
  (Z.of_nat (length (ids rs ++ ids (io_refs dst) ++ hs)) < MAX_BYTES)%Z ->
  exists k shift rest dst' s', cut_loop alloc rs want dst s = Some (k, shift, rest, dst', s') /\
    k <= want /\ (k = want \/ exists j, alloc j = false) /\ shift + length rest = length rs /\
    cut_done rs rest dst dst' k s s' hs.
Proof.
  intros Hrs. revert want dst s. induction Hrs as [|r rs Hr Hrs IH]; intros want dst s Hd H Hw Hs; cbn [cut_loop].
  { cbn in Hw. assert (want = 0) as -> by lia. exists 0, 0, [], dst, s. split; [done|]. split; [done|]. split; [by left|].
    split; [done|]. by apply cut_zero. }
  case_decide as Hw0.
  { subst want. exists 0, 0, (r :: rs), dst, s. split; [done|]. split; [done|]. split; [by left|].
    split; [done|]. apply cut_zero; [by constructor|done..]. }
  rewrite total_cons in Hw.
  change (ids (r :: rs) ++ ids (io_refs dst) ++ hs) with (r_block r :: (ids rs ++ ids (io_refs dst) ++ hs)) in *.
  cbn [length] in Hs. assert (nrefs dst < MAX_BYTES)%Z as Hnd.
  { rewrite !length_app in Hs. unfold nrefs, ids in *. rewrite !length_fmap in Hs. lia. }
  case_decide as Hle.
  - destruct (push_shape dst r s Hd Hr Hnd) as (err & dst1 & n & -> & Hd1 & En & Hcase). cbn [mbind option_bind].
    destruct Hcase as [[-> Er]|(-> & Er & Hk)].
    + destruct (IH (want - r_len r) dst1 (Store (blocks s) (pool s) n)) as (k & shift & rest & dst' & s' & -> & Hk & Hkw & Hsh & Hc).
      { done. }
      { eapply held_ok_perm; [|by apply held_ok_tries]. rewrite Er, ids_app. cbn. solve_Permutation. }
      { lia. }
      { rewrite Er, ids_app. rewrite !length_app in *. cbn. lia. }
      cbn [mbind option_bind]. exists (r_len r + k), (S shift), rest, dst', s'. split; [done|]. split; [lia|]. split.
      { destruct Hkw as [->|?]; [left; lia|by right]. }
      split; [cbn [length]; lia|]. apply (cut_cons r rs rest dst dst1 dst' k s (Store (blocks s) (pool s) n) s' hs); try done. lia.
    + eexists 0, 0, (r :: rs), dst1, _. split; [done|]. split; [lia|]. split; [by right|]. split; [done|].
      by apply cut_nothing; [constructor|..].
  - destruct (retain_spec block_size s _ (r_block r) H) as (s1 & -> & H1 & Hf1); [left| |].
    { apply held_bound. cbn [length]. lia. }
    cbn [mbind option_bind]. pose proof Hr as [Hr1 Hr2].
    destruct (push_shape dst (Ref (r_block r) (r_off r) want) s1 Hd) as (err & dst1 & n & E & Hd1 & En & Hcase);
      [split; cbn [r_off r_len]; lia|done|]. cbn [r_block r_off r_len] in E. rewrite E. clear E. cbn [mbind option_bind].
    destruct Hcase as [[-> Er]|(-> & Er & Hk)].
    + eexists want, 0, _, dst1, _. split; [done|]. split; [done|]. split; [by left|]. split; [done|].
      apply cut_split; try done; [lia|]. eapply held_ok_perm; [|by apply held_ok_tries]. cbn. solve_Permutation.
    + destruct (release_spec block_size (Store (blocks s1) (pool s1) n) _ (r_block r) (held_ok_tries _ _ _ n H1))
        as (s2 & -> & H2 & Hf2). { apply held_bound. cbn [length]. lia. }
      cbn [mbind option_bind]. eexists 0, 0, (r :: rs), dst1, s2. split; [done|]. split; [lia|]. split; [by right|]. split; [done|].
      assert (same_bytes s s2) as Hf. { intros hs'. eapply frame_trans; [apply Hf1|apply Hf2]. }
      split; rewrite ?Er, ?(same_contents s s2), ?app_nil_r, ?Nat.sub_0_r, ?Nat.add_0_r by done; try done.
      by constructor.
Qed.

Lemma cut_spec io dst n s hs :
  io_ok io -> io_ok dst -> held_ok s (ids (io_refs io) ++ ids (io_refs dst) ++ hs) -> (0 <= n)%Z ->
  (Z.of_nat (length (ids (io_refs io) ++ ids (io_refs dst) ++ hs)) < MAX_BYTES)%Z ->
  (io_nbytes io + io_nbytes dst <= MAX_BYTES)%Z ->
  exists k io' dst' s', xIOBufferCut alloc io dst n s = Some (Z.of_nat k, io', dst', s') /\
    k <= Z.to_nat n `min` total (io_refs io) /\
    (k = Z.to_nat n `min` total (io_refs io) \/ exists j, alloc j = false) /\
    io_ok io' /\ io_ok dst' /\ held_ok s' (ids (io_refs io') ++ ids (io_refs dst') ++ hs) /\ same_bytes s s' /\
    contents s' (io_refs io') = drop k (contents s (io_refs io)) /\
    contents s' (io_refs dst') = contents s (io_refs dst) ++ take k (contents s (io_refs io)).
Proof.
  intros Hio Hdst H Hn Hs Hnb. unfold xIOBufferCut. destruct (Z.eqb_spec n 0) as [->|Hn0].
  { exists 0, io, dst, s. do 6 (split; [first [done|lia|by left]|]). split; [done|]. by rewrite app_nil_r. }
  rewrite clamp_le by done. pose proof (proj1 (io_ok_shape dst) Hdst) as [Hsh Hnd].
  destruct (cut_loop_spec (io_refs io) (Z.to_nat n `min` total (io_refs io)) dst s hs)
    as (k & shift & rest & dst' & s' & -> & Hk & Hkw & Hl & [H1 H2 H3 H4 H5 H6 H7 H8 H9]); [apply Hio|done|done|lia|done|].
  cbn [mbind option_bind]. pose proof (ok_nbytes _ _ Hio) as Hni. unfold MAX_BYTES in Hnb.
  eexists k, _, _, s'. split; [done|]. split; [done|]. split; [done|].
  rewrite finish_refs by lia. split; [apply finish_ok; (done || lia || (unfold MAX_BYTES; lia))|]. split.
  - apply io_ok_shape. split; [done|]. cbn [add_nbytes io_refs io_nbytes]. rewrite H5, H9.
    unfold u64. rewrite Z.mod_small by lia. lia.
  - done.
Qed.

(** ** Releasing everything *)

Lemma release_all_spec rs s hs :
  held_ok s (ids rs ++ hs) -> (Z.of_nat (length (ids rs ++ hs)) <= MAX_BYTES)%Z ->
  exists s', release_all rs s = Some s' /\ held_ok s' hs /\ same_bytes s s'.
Proof.
  revert s. induction rs as [|r rs IH]; intros s H Hs; cbn [release_all].
  { by exists s. }
  change (ids (r :: rs) ++ hs) with (r_block r :: (ids rs ++ hs)) in *. cbn [length] in Hs.
  destruct (release_spec block_size s (ids rs ++ hs) (r_block r) H) as (s1 & -> & H1 & Hf1).
  { apply held_bound. lia. }
  cbn [mbind option_bind]. destruct (IH s1 H1) as (s' & -> & H' & Hf); [lia|].
  exists s'. split; [done|]. split; [done|]. intros hs'. by eapply frame_trans.
Qed.

Lemma xIOBufferInit_ok : io_ok xIOBufferInit.
Proof. split; [constructor|done..]. Qed.

Lemma reset_spec io s hs :
  io_ok io -> held_ok s (ids (io_refs io) ++ hs) -> (Z.of_nat (length (ids (io_refs io) ++ hs)) <= MAX_BYTES)%Z ->
  exists io' s', xIOBufferReset io s = Some (io', s') /\ io_ok io' /\ io_refs io' = [] /\
    held_ok s' hs /\ same_bytes s s'.
Proof.
  intros [Hr Hc Hcr Hn] H Hs. unfold xIOBufferReset.
  destruct (release_all_spec _ _ _ H Hs) as (s' & -> & H' & Hf). cbn [mbind option_bind].
  eexists _, s'. split; [done|]. split; [|done]. split; try done.
  unfold nrefs in *. cbn in *. unfold XIOBUFFER_INLINE_REFS in Hcr. lia.
Qed.

Lemma deinit_spec io s hs :
  held_ok s (ids (io_refs io) ++ hs) -> (Z.of_nat (length (ids (io_refs io) ++ hs)) <= MAX_BYTES)%Z ->
  exists s', xIOBufferDeinit io s = Some (xIOBufferInit, s') /\ held_ok s' hs /\ same_bytes s s'.
Proof.
  intros H Hs. unfold xIOBufferDeinit. destruct (release_all_spec _ _ _ H Hs) as (s' & -> & H' & Hf).
  by exists s'.
Qed.

(** ** Moving all slices *)

Lemma append_iobuffer_spec io other s hs :
  io_ok io -> io_ok other -> held_ok s (ids (io_refs io) ++ ids (io_refs other) ++ hs) ->
  (io_nbytes io + io_nbytes other <= MAX_BYTES)%Z ->
  exists err io' other' s', xIOBufferAppendIOBuffer alloc io other s = Some (err, io', other', s') /\
    io_ok io' /\ io_ok other' /\ held_ok s' (ids (io_refs io') ++ ids (io_refs other') ++ hs) /\ same_bytes s s' /\
    (err = xErrno_Ok /\ io_refs io' = io_refs io ++ io_refs other /\ io_refs other' = [] \/
     err = xErrno_NoMemory /\ (exists k, alloc k = false) /\ io_refs io' = io_refs io /\ io_refs other' = io_refs other).
Proof.
  intros Hio Hot H Hs. pose proof (total_length _ _ (ok_refs _ _ Hio)). pose proof (total_length _ _ (ok_refs _ _ Hot)).
  unfold xIOBufferAppendIOBuffer. destruct (Z.eqb_spec (nrefs other) 0) as [Hz|Hz].
  { assert (io_refs other = []) as E. { apply nil_length_inv. unfold nrefs in Hz. lia. }
    exists xErrno_Ok, io, other, s. do 5 (split; [done|]). left. by rewrite E, app_nil_r. }
  pose proof (ok_nbytes _ _ Hio) as Hn1. pose proof (ok_nbytes _ _ Hot) as Hn2.
  destruct Hio as [Hr Hc Hcr Hn]. destruct Hot as [Hr' Hc' Hcr' Hn'].
  destruct (grow_refs_spec alloc io (nrefs io + nrefs other) s) as (err & io1 & n & -> & Er & En & Hc1 & Hcase); [done| |].
  { unfold nrefs. lia. }
  cbn [mbind option_bind]. unfold MAX_BYTES in *. destruct Hcase as [[-> Hc2]|[-> Hk]].
  - eexists xErrno_Ok, _, _, _. split; [done|]. cbn [add_nbytes with_refs io_refs]. rewrite Er. split; [|split; [|split; [|split]]].
    + split; cbn [add_nbytes with_refs io_refs io_nbytes io_cap].
      * by apply Forall_app.
      * unfold nrefs in *. cbn [add_nbytes with_refs io_refs io_cap]. rewrite length_app. lia.
      * unfold MAX_BYTES; lia.
      * rewrite En, total_app. unfold u64. rewrite Z.mod_small by lia. lia.
    + split; cbn [io_refs io_cap io_nbytes]; [constructor| |done|done].
      unfold nrefs. cbn. unfold XIOBUFFER_INLINE_REFS in Hcr'. lia.
    + apply held_ok_tries. rewrite ids_app. by rewrite <- app_assoc.
    + done.
    + by left.
  - eexists xErrno_NoMemory, io1, other, _. split; [done|]. split.
    { split; unfold nrefs in *; rewrite ?Er, ?En; try done; unfold MAX_BYTES; lia. }
    split; [by split|]. rewrite Er. split; [by apply held_ok_tries|]. split; [done|]. by right.
Qed.

(** ** Looking *)

Lemma copy_refs_spec rs s hs :
  Forall ref_ok rs -> held_ok s hs -> ids rs ⊆ hs -> copy_refs rs s = Some (contents s rs).
Proof.
  intros Hrs H. induction Hrs as [|r rs [Hr1 Hr2] Hrs IH]; intros Hi; cbn [copy_refs]; [done|].
  unfold ref_read. rewrite (block_read_spec block_size s hs) by (done || (apply Hi; left)). cbn [mbind option_bind].
  rewrite IH; [done|]. intros b Hb. apply Hi. by right.
Qed.

(** The segments are the slices' bytes, in order. *)
Lemma iov_loop_spec rs n s hs :
  Forall ref_ok rs -> held_ok s hs -> ids rs ⊆ hs -> iov_loop rs n s = Some (ref_bytes s <$> take n rs).
Proof.
  intros Hrs H. revert n. induction Hrs as [|r rs [Hr1 Hr2] Hrs IH]; intros n Hi; cbn [iov_loop]; [by destruct n|].
  destruct n as [|n]; [done|]. rewrite decide_False by lia.
  unfold ref_read. rewrite (block_read_spec block_size s hs) by (done || (apply Hi; left)). cbn [mbind option_bind].
  rewrite IH; [done|]. intros b Hb. apply Hi. by right.
Qed.

Lemma concat_ref_bytes s rs : concat (ref_bytes s <$> rs) = contents s rs.
Proof. induction rs as [|r rs IH]; [done|]. cbn. by f_equal. Qed.

(** ** Input and output *)

Hypothesis junk_len : forall n, length (junk n) = n.

(** A custom read: what arrived is appended, or nothing changed but the pool. *)
Definition received {C} (fn : C -> nat -> option (list Z) * C) (ctx : C) (r : Z) (ctx' : C) (old new : list Z) : Prop :=
  (exists n got, 0 < n <= block_size /\ fn ctx n = (Some got, ctx') /\ r = Z.of_nat (length got) /\ new = old ++ got) \/
  (r = (-1)%Z /\ new = old /\
    ((exists n, 0 < n <= block_size /\ fn ctx n = (None, ctx')) \/
      (exists k, alloc k = false) /\ (ctx' = ctx \/ exists n got, fn ctx n = (Some got, ctx')))).

Lemma frame_same s s' io hs r :
  frame (ids (io_refs io) ++ hs) s s' -> r_block r ∈ ids (io_refs io) ++ hs -> ref_bytes s' r = ref_bytes s r.
Proof. intros H Hr. by apply (clear_frame (ids (io_refs io) ++ hs)). Qed.

Lemma frame_contents s s' io hs :
  frame (ids (io_refs io) ++ hs) s s' -> contents s' (io_refs io) = contents s (io_refs io).
Proof. intros H. eapply contents_frame; [done|]. intros c Hc. apply elem_of_app. by left. Qed.

Lemma read_fresh_spec {C} (fn : C -> nat -> option (list Z) * C) ctx io s hs :
  0 < block_size -> io_ok io -> held_ok s (ids (io_refs io) ++ hs) ->
  (io_nbytes io + Z.of_nat block_size <= MAX_BYTES)%Z -> (Z.of_nat (length hs) <= MAX_BYTES)%Z ->
  (Z.of_nat (length (ids (io_refs io) ++ hs)) <= MAX_BYTES)%Z ->
  (forall n bs ctx', fn ctx n = (Some bs, ctx') -> length bs <= n) ->
  exists r io' s' ctx', read_fresh block_size junk alloc fn ctx io s = Some (r, io', s', ctx') /\
    io_ok io' /\ held_ok s' (ids (io_refs io') ++ hs) /\
    received fn ctx r ctx' (contents s (io_refs io)) (contents s' (io_refs io')) /\
    (unshared io hs -> unshared io' hs) /\
    frame (ids (io_refs io) ++ hs) s s'.
Proof.
  intros Hbs Hio H Hs Hhs Hall Hfn. unfold read_fresh.
  destruct (acquire_spec block_size junk junk_len alloc s _ H) as (b & s1 & -> & Hf1 & Hb).
  cbn [mbind option_bind]. destruct b as [b|].
  2: { destruct Hb as [H1 Hk]. exists (-1)%Z, io, s1, ctx. do 3 (split; [done|]). split; [|by split].
       right. split; [done|]. split; [by eapply frame_contents|]. right. split; [done|by left]. }
  destruct Hb as [Hb H1]. destruct (release_spec block_size s1 _ b H1) as (s2 & Erel & H2 & Hf2); [by apply held_bound|].
  assert (frame (ids (io_refs io) ++ hs) s s2) as Hf by (by eapply frame_trans).
  destruct (fn ctx block_size) as [[bs|] ctx'] eqn:Ef; cbv beta iota.
  2: { rewrite Erel. exists (-1)%Z, io, s2, ctx'. do 3 (split; [done|]). split; [|by split].
       right. split; [done|]. split; [by eapply frame_contents|]. left. by exists block_size. }
  case_decide as Hl.
  { rewrite Erel. exists 0%Z, io, s2, ctx'. do 3 (split; [done|]). split; [|by split].
    left. exists block_size, bs. split; [lia|]. split; [done|]. split; [lia|].
    apply nil_length_inv in Hl as ->. rewrite app_nil_r. by eapply frame_contents. }
  pose proof (Hfn _ _ _ Ef) as Hlen.
  destruct (store_block_spec block_size alloc io b bs s1 hs Hio H1 Hb) as (err & io' & s' & -> & Hio' & H' & Hf' & _ & Hu' & Hcase);
    [lia|lia|done|]. cbn [mbind option_bind].
  assert (frame (ids (io_refs io) ++ hs) s s') as Hff by (by apply (frame_trans _ s s1)).
  destruct Hcase as [(-> & Hc & _)|(-> & Hk & Er)].
  - exists (Z.of_nat (length bs)), io', s', ctx'. do 3 (split; [done|]). split; [|by split].
    left. exists block_size, bs. split; [lia|]. split; [done|]. split; [done|].
    rewrite Hc. f_equal. by eapply frame_contents.
  - exists (-1)%Z, io', s', ctx'. do 3 (split; [done|]). split; [|by split].
    right. split; [done|]. split; [rewrite Er; by eapply frame_contents|]. right. split; [done|]. right. by exists block_size, bs.
Qed.

Lemma read_with_spec {C} (fn : C -> nat -> option (list Z) * C) ctx io s hs :
  0 < block_size -> io_ok io -> held_ok s (ids (io_refs io) ++ hs) ->
  (io_nbytes io + Z.of_nat block_size <= MAX_BYTES)%Z -> (Z.of_nat (length hs) <= MAX_BYTES)%Z ->
  (Z.of_nat (length (ids (io_refs io) ++ hs)) <= MAX_BYTES)%Z ->
  Forall (clear_of io) (io_refs io) -> (forall n bs ctx', fn ctx n = (Some bs, ctx') -> length bs <= n) ->
  exists r io' s' ctx', xIOBufferReadWith block_size junk alloc fn ctx io s = Some (r, io', s', ctx') /\
    io_ok io' /\ held_ok s' (ids (io_refs io') ++ hs) /\
    received fn ctx r ctx' (contents s (io_refs io)) (contents s' (io_refs io')) /\
    (unshared io hs -> unshared io' hs) /\
    (forall r, r_block r ∈ ids (io_refs io) ++ hs -> clear_of io r -> ref_bytes s' r = ref_bytes s r).
Proof.
  intros Hbs Hio H Hs Hhs Hall Hclear Hfn. unfold xIOBufferReadWith, tail_room.
  destruct (read_fresh_spec fn ctx io s hs) as (r & io' & s' & ctx' & Ef & Hio' & H' & Hr & Hu & Hf); [done..|].
  assert (exists r io' s' ctx', read_fresh block_size junk alloc fn ctx io s = Some (r, io', s', ctx') /\
    io_ok io' /\ held_ok s' (ids (io_refs io') ++ hs) /\
    received fn ctx r ctx' (contents s (io_refs io)) (contents s' (io_refs io')) /\
    (unshared io hs -> unshared io' hs) /\
    (forall r, r_block r ∈ ids (io_refs io) ++ hs -> clear_of io r -> ref_bytes s' r = ref_bytes s r)) as Hfresh.
  { exists r, io', s', ctx'. do 5 (split; [done|]). intros r0 Hr0 _. by eapply frame_same. }
  clear r io' s' ctx' Ef Hio' H' Hr Hu Hf. destruct (last (io_refs io)) as [t|] eqn:Et; [|exact Hfresh].
  assert (ref_ok t) as [Ht1 Ht2].
  { apply last_Some in Et as [l Er]. destruct Hio as [Hrs _ _ _]. rewrite Er in Hrs.
    by apply Forall_app in Hrs as [_ Hrt%Forall_inv]. }
  rewrite decide_True by done. cbn [mbind option_bind]. case_decide as Hav; [|exact Hfresh]. clear Hfresh.
  set (avail := block_size - _) in *. destruct (fn ctx avail) as [[bs|] ctx'] eqn:Ef; cbv beta iota.
  2: { exists (-1)%Z, io, s, ctx'. do 3 (split; [done|]). split; [|by split]. right. split; [done|]. split; [done|]. left. exists avail. split; [lia|done]. }
  pose proof (Hfn _ _ _ Ef) as Hlen. case_decide as Hl.
  { exists 0%Z, io, s, ctx'. do 3 (split; [done|]). split; [|by split]. left. exists avail, bs. split; [lia|]. split; [done|]. split; [lia|].
    apply nil_length_inv in Hl as ->. by rewrite app_nil_r. }
  destruct (extend_tail_spec block_size io t bs s hs) as (io1 & s1 & -> & Hio1 & Ei & H1 & Hc1 & _ & Hk1); try done; [lia|lia|lia|].
  cbn [mbind option_bind]. exists (Z.of_nat (length bs)), io1, s1, ctx'. do 3 (split; [done|]).
  split; [|split; [by apply unshared_eq|intros; by apply Hk1]]. left. exists avail, bs. split; [lia|]. done.
Qed.

(** A custom write is offered a prefix of the contents and takes what it
    accepts. *)
Lemma write_with_spec fn io s hs :
  io_ok io -> held_ok s (ids (io_refs io) ++ hs) ->
  (Z.of_nat (length (ids (io_refs io) ++ hs)) <= MAX_BYTES)%Z -> (io_nbytes io <= MAX_BYTES)%Z ->
  (forall segs n, fn segs = Some n -> (0 <= n <= Z.of_nat (length (concat segs)))%Z) ->
  exists r io' s', xIOBufferWriteWith fn io s = Some (r, io', s') /\
    ((contents s (io_refs io) = [] /\ r = 0%Z /\ io' = io /\ s' = s) \/
     exists segs, segs <> [] /\ concat segs `prefix_of` contents s (io_refs io) /\
       ((fn segs = None /\ r = (-1)%Z /\ io' = io /\ s' = s) \/
        (fn segs = Some r /\ taken io io' (Z.to_nat r) s s' hs))).
Proof.
  clear junk_len junk alloc. intros Hio H Hs Hnb Hfn. unfold xIOBufferWriteWith, xIOBufferReadIov. change (Z.of_nat IOV_CHUNK <=? 0)%Z with false.
  cbv iota. rewrite Nat2Z.id. rewrite (iov_loop_spec _ _ _ _ (ok_refs _ _ Hio) H) by set_solver.
  cbn [mbind option_bind]. rewrite length_fmap, length_take. case_decide as Hz.
  { exists 0%Z, io, s. split; [done|]. left. split; [|done].
    assert (io_refs io = []) as ->; [|done]. apply nil_length_inv. unfold IOV_CHUNK in Hz. lia. }
  set (segs := ref_bytes s <$> take IOV_CHUNK (io_refs io)).
  assert (segs <> []) as Hne.
  { intros E. apply (f_equal length) in E. unfold segs in E. rewrite length_fmap, length_take in E. done. }
  assert (concat segs `prefix_of` contents s (io_refs io)) as Hpre.
  { unfold segs. rewrite concat_ref_bytes. exists (contents s (drop IOV_CHUNK (io_refs io))).
    by rewrite <- contents_app, take_drop. }
  destruct (fn segs) as [n|] eqn:Ef.
  2: { exists (-1)%Z, io, s. split; [done|]. right. exists segs. split; [done|]. split; [done|]. by left. }
  pose proof (Hfn _ _ Ef) as Hn. destruct (Z.ltb_spec 0 n).
  - destruct (consume_spec io n s hs Hio H) as (io' & s' & -> & Htk); [lia|done|done|]. cbn [mbind option_bind].
    exists n, io', s'. split; [done|]. right. exists segs. split; [done|]. split; [done|]. by right.
  - exists n, io, s. split; [done|]. right. exists segs. split; [done|]. split; [done|]. right. split; [done|].
    split; [done|]. split; [done|]. split; [done|]. by replace (Z.to_nat n) with 0 by lia.
Qed.

End take.
