(* ===== verification/IOWorld.v ===== *)
(** * IOWorld: all the I/O buffers of a program and the blocks they share

    A world is a store with the buffers over it.  Its abstraction is a list of
    byte queues.  Every operation of [io.c] on a world whose reference counts
    are exact keeps them exact and does to the queues what its name says, on
    one condition: an operation that stores behind the tail of a buffer needs
    that no other slice reaches into that room.  The condition holds as long as
    no slice has been split by a cut, and is what a program that appends to
    the destination of a cut breaks. *)

From S2P Require Import Prelude Errno IOBlock IOBuf IOTake.

Record world := World {
  w_store : store;
  w_bufs : list xIOBuffer;
}.

(** The calls; [fn] is the custom input or output function. *)
Inductive io_op :=
  | OpAppend (i : nat) (src : list Z)
  | OpAppendIOBuffer (i j : nat)
  | OpRead (i : nat) (n : Z)
  | OpConsume (i : nat) (n : Z)
  | OpCut (i j : nat) (n : Z)
  | OpReset (i : nat)
  | OpCopyTo (i : nat)
  | OpReadWith (i : nat) (fn : nat -> option (list Z))
  | OpWriteWith (i : nat) (fn : list (list Z) -> option Z).

Inductive io_res :=
  | RErr (e : xErrno)
  | RCount (n : Z)
  | RBytes (bs : list Z).

Section world.
Context (block_size : nat) (junk : nat -> list Z) (alloc : nat -> bool).

Definition with1 (w : world) (i : nat) (io : xIOBuffer) (s : store) : world :=
  World s (<[i := io]> (w_bufs w)).
Definition with2 (w : world) (i j : nat) (io dst : xIOBuffer) (s : store) : world :=
  World s (<[j := dst]> (<[i := io]> (w_bufs w))).

Definition io_step (w : world) (op : io_op) : ub (io_res * world) :=
  match op with
  | OpAppend i src =>
      io ← w_bufs w !! i;
      '(err, io, s) ← xIOBufferAppend block_size junk alloc io src (w_store w);
      Some (RErr err, with1 w i io s)
  | OpAppendIOBuffer i j =>
      io ← w_bufs w !! i; other ← w_bufs w !! j;
      '(err, io, other, s) ← xIOBufferAppendIOBuffer alloc io other (w_store w);
      Some (RErr err, with2 w i j io other s)
  | OpRead i n =>
      io ← w_bufs w !! i;
      '(out, io, s) ← xIOBufferRead io n (w_store w);
      Some (RBytes out, with1 w i io s)
  | OpConsume i n =>
      io ← w_bufs w !! i;
      '(k, io, s) ← xIOBufferConsume io n (w_store w);
      Some (RCount k, with1 w i io s)
  | OpCut i j n =>
      io ← w_bufs w !! i; dst ← w_bufs w !! j;
      '(k, io, dst, s) ← xIOBufferCut alloc io dst n (w_store w);
      Some (RCount k, with2 w i j io dst s)
  | OpReset i =>
      io ← w_bufs w !! i;
      '(io, s) ← xIOBufferReset io (w_store w);
      Some (RErr xErrno_Ok, with1 w i io s)
  | OpCopyTo i =>
      io ← w_bufs w !! i;
      out ← xIOBufferCopyTo io (w_store w);
      Some (RBytes out, w)
  | OpReadWith i fn =>
      io ← w_bufs w !! i;
      '(n, io, s, _) ← xIOBufferReadWith block_size junk alloc (fun _ room => (fn room, tt)) tt io (w_store w);
      Some (RCount n, with1 w i io s)
  | OpWriteWith i fn =>
      io ← w_bufs w !! i;
      '(n, io, s) ← xIOBufferWriteWith fn io (w_store w);
      Some (RCount n, with1 w i io s)
  end.

(** ** Queues *)

Definition abs (w : world) : list (list Z) := (fun io => contents (w_store w) (io_refs io)) <$> w_bufs w.

Definition starved : Prop := exists k, alloc k = false.

(** What a call does to the queues; a call may fall short only for want of
    memory. *)
Inductive q_step (qs : list (list Z)) : io_op -> io_res -> list (list Z) -> Prop :=
  | QAppend i src q : qs !! i = Some q ->
      q_step qs (OpAppend i src) (RErr xErrno_Ok) (<[i := q ++ src]> qs)
  | QAppendShort i src q k : qs !! i = Some q -> starved ->
      q_step qs (OpAppend i src) (RErr xErrno_NoMemory) (<[i := q ++ take k src]> qs)
  | QMove i j q r : qs !! i = Some q -> qs !! j = Some r ->
      q_step qs (OpAppendIOBuffer i j) (RErr xErrno_Ok) (<[j := []]> (<[i := q ++ r]> qs))
  | QMoveNot i j : starved -> q_step qs (OpAppendIOBuffer i j) (RErr xErrno_NoMemory) qs
  | QRead i n q : qs !! i = Some q ->
      q_step qs (OpRead i n) (RBytes (take (Z.to_nat n) q)) (<[i := drop (Z.to_nat n) q]> qs)
  | QConsume i n q : qs !! i = Some q ->
      q_step qs (OpConsume i n) (RCount (Z.of_nat (Z.to_nat n `min` length q))) (<[i := drop (Z.to_nat n) q]> qs)
  | QCut i j n q r k : qs !! i = Some q -> qs !! j = Some r ->
      k <= Z.to_nat n `min` length q -> (k = Z.to_nat n `min` length q \/ starved) ->
      q_step qs (OpCut i j n) (RCount (Z.of_nat k)) (<[j := r ++ take k q]> (<[i := drop k q]> qs))
  | QReset i : q_step qs (OpReset i) (RErr xErrno_Ok) (<[i := []]> qs)
  | QCopyTo i q : qs !! i = Some q -> q_step qs (OpCopyTo i) (RBytes q) qs
  | QReadWith i fn q n got : qs !! i = Some q -> 0 < n <= block_size -> fn n = Some got ->
      q_step qs (OpReadWith i fn) (RCount (Z.of_nat (length got))) (<[i := q ++ got]> qs)
  | QReadWithNot i fn : (exists n, 0 < n <= block_size /\ fn n = None) \/ starved ->
      q_step qs (OpReadWith i fn) (RCount (-1)) qs
  | QWriteWith i fn q segs n : qs !! i = Some q -> segs <> [] -> concat segs `prefix_of` q -> fn segs = Some n ->
      q_step qs (OpWriteWith i fn) (RCount n) (<[i := drop (Z.to_nat n) q]> qs)
  | QWriteWithNot i fn segs : segs <> [] -> fn segs = None -> q_step qs (OpWriteWith i fn) (RCount (-1)) qs
  | QWriteWithEmpty i fn : qs !! i = Some [] -> q_step qs (OpWriteWith i fn) (RCount 0) qs.

(** ** The invariant and the conditions on a call *)

Definition all_ids (bufs : list xIOBuffer) : list bid := bufs ≫= fun io => ids (io_refs io).
Definition bufs_bytes (bufs : list xIOBuffer) : nat := sum_list ((fun io => total (io_refs io)) <$> bufs).

Record world_ok (w : world) : Prop := {
  wo_bufs : Forall (io_ok block_size) (w_bufs w);
  wo_held : held_ok block_size (w_store w) (all_ids (w_bufs w));
}.

(** No slice reaches into the room behind the tail of [io]. *)
Definition tail_private (w : world) (io : xIOBuffer) : Prop :=
  Forall (fun io' => Forall (clear_of io) (io_refs io')) (w_bufs w).

(** The bytes a call can add. *)
Definition op_bytes (op : io_op) : nat :=
  match op with
  | OpAppend _ src => length src
  | OpReadWith _ _ => block_size
  | _ => 0
  end.

Definition allowed (w : world) (op : io_op) : Prop :=
  (Z.of_nat (bufs_bytes (w_bufs w) + op_bytes op) < MAX_BYTES)%Z /\
  match op with
  | OpAppend i _ => exists io, w_bufs w !! i = Some io /\ tail_private w io
  | OpAppendIOBuffer i j => i <> j /\ is_Some (w_bufs w !! i) /\ is_Some (w_bufs w !! j)
  | OpRead i n | OpConsume i n => is_Some (w_bufs w !! i) /\ (0 <= n)%Z
  | OpCut i j n => i <> j /\ is_Some (w_bufs w !! i) /\ is_Some (w_bufs w !! j) /\ (0 <= n)%Z
  | OpReset i | OpCopyTo i => is_Some (w_bufs w !! i)
  | OpReadWith i fn =>
      (exists io, w_bufs w !! i = Some io /\ tail_private w io) /\
      (forall n bs, fn n = Some bs -> length bs <= n)
  | OpWriteWith i fn =>
      is_Some (w_bufs w !! i) /\
      (forall segs n, fn segs = Some n -> (0 <= n <= Z.of_nat (length (concat segs)))%Z)
  end.

(** ** Lifting the operations to the world *)

Lemma all_ids_perm bufs bufs' : bufs ≡ₚ bufs' -> all_ids bufs ≡ₚ all_ids bufs'.
Proof. intros H. unfold all_ids. by rewrite H. Qed.

Lemma bufs_bytes_cons io bufs : bufs_bytes (io :: bufs) = total (io_refs io) + bufs_bytes bufs.
Proof. reflexivity. Qed.

Lemma bufs_bytes_perm bufs bufs' : bufs ≡ₚ bufs' -> bufs_bytes bufs = bufs_bytes bufs'.
Proof. intros H. unfold bufs_bytes. induction H; cbn in *; lia. Qed.

Lemma length_all_ids bufs : Forall (io_ok block_size) bufs -> length (all_ids bufs) <= bufs_bytes bufs.
Proof.
  induction 1 as [|io bufs [Hr _ _ _] _ IH]; [done|]. rewrite bufs_bytes_cons.
  change (all_ids (io :: bufs)) with (ids (io_refs io) ++ all_ids bufs). unfold ids at 1.
  rewrite length_app, length_fmap. pose proof (total_length _ _ Hr). lia.
Qed.

(** Two buffers and the rest of the world. *)
Lemma split2 (bufs : list xIOBuffer) i j io dst :
  i <> j -> bufs !! i = Some io -> bufs !! j = Some dst ->
  exists rest, bufs ≡ₚ io :: dst :: rest /\ forall io' dst', <[j := dst']> (<[i := io']> bufs) ≡ₚ io' :: dst' :: rest.
Proof.
  revert i j. induction bufs as [|b bufs IH]; intros [|i] [|j] Hij Hi Hj; try done; cbn in Hi, Hj; simplify_eq.
  - destruct (insert_split bufs j dst Hj) as (rest & Hp & Hr). exists rest. split; [by rewrite Hp|].
    intros io' dst'. cbn. by rewrite Hr.
  - destruct (insert_split bufs i io Hi) as (rest & Hp & Hr). exists rest. split; [rewrite Hp; constructor|].
    intros io' dst'. cbn. rewrite Hr. constructor.
  - destruct (IH i j) as (rest & Hp & Hr); [congruence|done|done|]. exists (b :: rest). split.
    + rewrite Hp. solve_Permutation.
    + intros io' dst'. cbn. rewrite Hr. solve_Permutation.
Qed.

(** The counts seen from one buffer, or two. *)
Lemma held1 s bufs io rest : bufs ≡ₚ io :: rest ->
  held_ok block_size s (all_ids bufs) <-> held_ok block_size s (ids (io_refs io) ++ all_ids rest).
Proof. intros Hp. split; apply held_ok_perm; by rewrite (all_ids_perm _ _ Hp). Qed.

Lemma held2 s bufs io dst rest : bufs ≡ₚ io :: dst :: rest ->
  held_ok block_size s (all_ids bufs) <->
  held_ok block_size s (ids (io_refs io) ++ ids (io_refs dst) ++ all_ids rest).
Proof. intros Hp. split; apply held_ok_perm; by rewrite (all_ids_perm _ _ Hp). Qed.

Lemma with1_ok w i io io' s' rest :
  world_ok w -> w_bufs w !! i = Some io -> (forall io', <[i := io']> (w_bufs w) ≡ₚ io' :: rest) ->
  io_ok block_size io' -> held_ok block_size s' (ids (io_refs io') ++ all_ids rest) ->
  world_ok (with1 w i io' s').
Proof.
  intros [Hb _] Hi Hr Hio' H'. split; cbn [with1 w_bufs w_store].
  - by apply Forall_insert.
  - by eapply held1.
Qed.

Lemma with2_ok w i j io dst io' dst' s' rest :
  world_ok w -> i <> j -> w_bufs w !! i = Some io -> w_bufs w !! j = Some dst ->
  (forall io' dst', <[j := dst']> (<[i := io']> (w_bufs w)) ≡ₚ io' :: dst' :: rest) ->
  io_ok block_size io' -> io_ok block_size dst' ->
  held_ok block_size s' (ids (io_refs io') ++ ids (io_refs dst') ++ all_ids rest) ->
  world_ok (with2 w i j io' dst' s').
Proof.
  intros [Hb _] Hij Hi Hj Hr Hio' Hdst' H'. split; cbn [with2 w_bufs w_store].
  - by apply Forall_insert; [apply Forall_insert|].
  - by eapply held2.
Qed.

(** The queues afterwards when the other buffers keep their contents. *)
Lemma abs_with1 w i io io' s' :
  w_bufs w !! i = Some io ->
  (forall k b, k <> i -> w_bufs w !! k = Some b -> contents s' (io_refs b) = contents (w_store w) (io_refs b)) ->
  abs (with1 w i io' s') = <[i := contents s' (io_refs io')]> (abs w).
Proof.
  intros Hi Hk. unfold abs, with1. cbn [w_bufs w_store]. rewrite list_fmap_insert.
  apply list_eq. intros k. destruct (decide (k = i)) as [->|Hne].
  - by rewrite !list_lookup_insert_eq by (rewrite length_fmap; by eapply lookup_lt_Some).
  - rewrite !list_lookup_insert_ne, !list_lookup_fmap by done.
    destruct (w_bufs w !! k) as [b|] eqn:E; [|done]. cbn. by rewrite (Hk k b).
Qed.

Lemma abs_same_bytes w bufs' s' :
  (forall hs, frame hs (w_store w) s') ->
  abs (World s' bufs') = (fun io => contents (w_store w) (io_refs io)) <$> bufs'.
Proof.
  intros Hf. unfold abs. cbn [w_bufs w_store]. apply list_fmap_ext. intros k io _. by apply same_contents.
Qed.

Lemma abs_lookup w i io : w_bufs w !! i = Some io -> abs w !! i = Some (contents (w_store w) (io_refs io)).
Proof. intros H. unfold abs. by rewrite list_lookup_fmap, H. Qed.

(** ** Each call refines its step on the queues *)

Hypothesis junk_len : forall n, length (junk n) = n.
Hypothesis block_pos : 0 < block_size.

Lemma facts1 w i io :
  world_ok w -> w_bufs w !! i = Some io -> (Z.of_nat (bufs_bytes (w_bufs w)) < MAX_BYTES)%Z ->
  exists rest, (forall io', <[i := io']> (w_bufs w) ≡ₚ io' :: rest) /\ io_ok block_size io /\
    held_ok block_size (w_store w) (ids (io_refs io) ++ all_ids rest) /\
    bufs_bytes (w_bufs w) = total (io_refs io) + bufs_bytes rest /\
    (Z.of_nat (length (all_ids rest)) <= MAX_BYTES)%Z /\
    (Z.of_nat (length (ids (io_refs io) ++ all_ids rest)) <= MAX_BYTES)%Z /\
    (io_nbytes io <= MAX_BYTES)%Z.
Proof.
  intros [Hb H] Hi Hm. destruct (insert_split _ _ _ Hi) as (rest & Hp & Hr). exists rest.
  assert (Forall (io_ok block_size) (io :: rest)) as Hbr by (by rewrite <- Hp).
  apply Forall_cons in Hbr as [Hio Hrest]. pose proof (length_all_ids _ Hrest) as Hl.
  pose proof (total_length _ _ (ok_refs _ _ Hio)) as Ht. pose proof (ok_nbytes _ _ Hio) as Hn.
  rewrite (bufs_bytes_perm _ _ Hp), bufs_bytes_cons in *. split; [done|]. split; [done|].
  split; [by eapply held1|]. unfold ids. rewrite length_app, length_fmap. split; [done|]. lia.
Qed.

Lemma facts2 w i j io dst :
  world_ok w -> i <> j -> w_bufs w !! i = Some io -> w_bufs w !! j = Some dst ->
  (Z.of_nat (bufs_bytes (w_bufs w)) < MAX_BYTES)%Z ->
  exists rest, (forall io' dst', <[j := dst']> (<[i := io']> (w_bufs w)) ≡ₚ io' :: dst' :: rest) /\
    io_ok block_size io /\ io_ok block_size dst /\
    held_ok block_size (w_store w) (ids (io_refs io) ++ ids (io_refs dst) ++ all_ids rest) /\
    (Z.of_nat (length (ids (io_refs io) ++ ids (io_refs dst) ++ all_ids rest)) < MAX_BYTES)%Z /\
    (io_nbytes io + io_nbytes dst <= MAX_BYTES)%Z.
Proof.
  intros [Hb H] Hij Hi Hj Hm. destruct (split2 _ _ _ _ _ Hij Hi Hj) as (rest & Hp & Hr). exists rest.
  assert (Forall (io_ok block_size) (io :: dst :: rest)) as Hbr by (by rewrite <- Hp).
  apply Forall_cons in Hbr as [Hio [Hdst Hrest]%Forall_cons]. pose proof (length_all_ids _ Hrest) as Hl.
  pose proof (total_length _ _ (ok_refs _ _ Hio)) as Ht. pose proof (ok_nbytes _ _ Hio) as Hn.
  pose proof (total_length _ _ (ok_refs _ _ Hdst)) as Ht'. pose proof (ok_nbytes _ _ Hdst) as Hn'.
  rewrite (bufs_bytes_perm _ _ Hp), !bufs_bytes_cons in *. split; [done|]. split; [done|]. split; [done|].
  split; [by eapply held2|]. unfold ids. rewrite !length_app, !length_fmap. lia.
Qed.

(** No block is behind two slices, and only a cut can change that. *)
Definition w_unshared (w : world) : Prop := NoDup (all_ids (w_bufs w)).
Definition is_cut (op : io_op) : bool := match op with OpCut _ _ _ => true | _ => false end.

(** What a refining step is. *)
Definition refines (w : world) (op : io_op) : Prop :=
  exists r w', io_step w op = Some (r, w') /\ world_ok w' /\ q_step (abs w) op r (abs w') /\
    (is_cut op = false -> w_unshared w -> w_unshared w').

Lemma unshared1 w i io io' s' rest :
  w_bufs w !! i = Some io -> (forall io', <[i := io']> (w_bufs w) ≡ₚ io' :: rest) ->
  (unshared io (all_ids rest) -> unshared io' (all_ids rest)) ->
  w_unshared w -> w_unshared (with1 w i io' s').
Proof.
  unfold w_unshared. intros Hi Hr Hu. cbn [with1 w_bufs]. rewrite <- (list_insert_id _ _ _ Hi) at 1.
  rewrite (all_ids_perm _ _ (Hr io)), (all_ids_perm _ _ (Hr io')). exact Hu.
Qed.

(** The other buffers after a store behind the private tail of [io]. *)
Lemma private_contents w i io s' k b rest :
  tail_private w io -> w_bufs w !! i = Some io -> (forall io', <[i := io']> (w_bufs w) ≡ₚ io' :: rest) ->
  (forall r, r_block r ∈ ids (io_refs io) ++ all_ids rest -> clear_of io r -> ref_bytes s' r = ref_bytes (w_store w) r) ->
  k <> i -> w_bufs w !! k = Some b -> contents s' (io_refs b) = contents (w_store w) (io_refs b).
Proof.
  intros Hp Hi Hr Hk Hne Hb. apply Forall_bind_ext, Forall_forall. intros r Hrb. apply Hk.
  - apply elem_of_app. right. assert (b ∈ rest) as Hbr.
    { assert (b ∈ <[i := xIOBufferInit]> (w_bufs w)) as Hin.
      { apply (list_elem_of_lookup_2 _ k). by rewrite list_lookup_insert_ne. }
      rewrite Hr in Hin. apply elem_of_cons in Hin as [->|?]; [|done].
      by apply not_elem_of_nil in Hrb. }
    unfold all_ids. apply list_elem_of_bind. exists b. split; [|done]. by apply list_elem_of_fmap_2.
  - unfold tail_private in Hp. rewrite Forall_forall in Hp.
    specialize (Hp b (list_elem_of_lookup_2 _ _ _ Hb)). rewrite Forall_forall in Hp. by apply Hp.
Qed.

Lemma append_refines w i src :
  world_ok w -> allowed w (OpAppend i src) -> refines w (OpAppend i src).
Proof.
  intros Hw (Hm & io & Hi & Hp). cbn [op_bytes] in Hm.
  destruct (facts1 w i io Hw Hi) as (rest & Hr & Hio & H & Hb & Hl & Hl' & Hn); [lia|].
  assert (Forall (clear_of io) (io_refs io)) as Hcl.
  { unfold tail_private in Hp. rewrite Forall_forall in Hp. by eapply Hp, list_elem_of_lookup_2. }
  destruct (append_spec block_size junk alloc junk_len io src (w_store w) (all_ids rest) block_pos Hio H)
    as (err & io' & s' & E & Hio' & H' & Happ & Hu & Hk); [rewrite (ok_nbytes _ _ Hio); lia|done|done|].
  eexists _, (with1 w i io' s'). split; [|split; [by eapply with1_ok|split; [|intros _; by eapply unshared1]]].
  { cbn [io_step]. rewrite Hi. cbn [mbind option_bind]. rewrite E. reflexivity. }
  rewrite (abs_with1 w i io) by (done || (intros; by eapply private_contents)).
  pose proof (abs_lookup w i io Hi). destruct Happ as [[-> ->]|(-> & Hs & k & ->)]; by constructor.
Qed.

Lemma read_with_refines w i fn :
  world_ok w -> allowed w (OpReadWith i fn) -> refines w (OpReadWith i fn).
Proof.
  intros Hw (Hm & (io & Hi & Hp) & Hfn). cbn [op_bytes] in Hm.
  destruct (facts1 w i io Hw Hi) as (rest & Hr & Hio & H & Hb & Hl & Hl' & Hn); [lia|].
  assert (Forall (clear_of io) (io_refs io)) as Hcl.
  { unfold tail_private in Hp. rewrite Forall_forall in Hp. by eapply Hp, list_elem_of_lookup_2. }
  destruct (read_with_spec block_size junk alloc junk_len (fun _ room => (fn room, tt)) tt io (w_store w) (all_ids rest) block_pos Hio H)
    as (n & io' & s' & [] & E & Hio' & H' & Hrec & Hu & Hk); [rewrite (ok_nbytes _ _ Hio); lia|done..|intros k bs [] [= Ek]; by apply Hfn|].
  eexists _, (with1 w i io' s'). split; [|split; [by eapply with1_ok|split; [|intros _; by eapply unshared1]]].
  { cbn [io_step]. rewrite Hi. cbn [mbind option_bind]. rewrite E. reflexivity. }
  rewrite (abs_with1 w i io) by (done || (intros; by eapply private_contents)).
  pose proof (abs_lookup w i io Hi) as Ha. destruct Hrec as [(k & got & Hk' & [= Hgot] & -> & ->)|(-> & -> & Hwhy)].
  - by econstructor.
  - rewrite list_insert_id by done. constructor. destruct Hwhy as [(k & Hk' & [= Ek])|[Hwhy _]]; [left; by exists k|by right].
Qed.

(** An operation on one buffer that changes no byte. *)
Lemma with1_same w i io io' s' rest :
  world_ok w -> w_bufs w !! i = Some io -> (forall io', <[i := io']> (w_bufs w) ≡ₚ io' :: rest) ->
  io_ok block_size io' -> held_ok block_size s' (ids (io_refs io') ++ all_ids rest) ->
  (forall hs, frame hs (w_store w) s') ->
  world_ok (with1 w i io' s') /\
  abs (with1 w i io' s') = <[i := contents s' (io_refs io')]> (abs w).
Proof.
  intros Hw Hi Hr Hio' H' Hf. split; [by eapply with1_ok|]. eapply abs_with1; [done|].
  intros k b _ _. by apply same_contents.
Qed.

Lemma taken_world w i io io' k s' rest :
  world_ok w -> w_bufs w !! i = Some io -> (forall io', <[i := io']> (w_bufs w) ≡ₚ io' :: rest) ->
  taken block_size io io' k (w_store w) s' (all_ids rest) ->
  world_ok (with1 w i io' s') /\
  abs (with1 w i io' s') = <[i := drop k (contents (w_store w) (io_refs io))]> (abs w) /\
  (w_unshared w -> w_unshared (with1 w i io' s')).
Proof.
  intros Hw Hi Hr (Hio' & H' & Hf & <- & Hu). apply and_assoc. split; [by eapply with1_same|by eapply unshared1].
Qed.

Lemma take_refines w i n :
  world_ok w -> allowed w (OpRead i n) -> refines w (OpRead i n) /\ refines w (OpConsume i n).
Proof.
  intros Hw (Hm & (io & Hi) & Hn0). cbn [op_bytes] in Hm. pose proof (abs_lookup w i io Hi) as Ha.
  destruct (facts1 w i io Hw Hi) as (rest & Hr & Hio & H & Hb & Hl & Hl' & Hn); [lia|].
  pose proof (contents_length _ _ _ _ H (ok_refs _ _ Hio)) as Hlen. split.
  - destruct (read_spec block_size io n (w_store w) (all_ids rest)) as (io' & s' & E & Htk); [done..|].
    eapply taken_world in Htk as (Hw' & Ea & Hu); [|done..].
    eexists _, _. split; [|split; [exact Hw'|split; [|by intros _]]].
    { cbn [io_step]. rewrite Hi. cbn [mbind option_bind]. rewrite E. reflexivity. }
    rewrite Ea. by constructor.
  - destruct (consume_spec block_size io n (w_store w) (all_ids rest)) as (io' & s' & E & Htk); [done..|].
    eapply taken_world in Htk as (Hw' & Ea & Hu); [|done..].
    eexists _, _. split; [|split; [exact Hw'|split; [|by intros _]]].
    { cbn [io_step]. rewrite Hi. cbn [mbind option_bind]. rewrite E. reflexivity. }
    rewrite Ea, <- Hlen. by constructor.
Qed.

Lemma reset_refines w i : world_ok w -> allowed w (OpReset i) -> refines w (OpReset i).
Proof.
  intros Hw (Hm & (io & Hi)). cbn [op_bytes] in Hm.
  destruct (facts1 w i io Hw Hi) as (rest & Hr & Hio & H & Hb & Hl & Hl' & Hn); [lia|].
  destruct (reset_spec block_size io (w_store w) (all_ids rest) Hio H Hl') as (io' & s' & E & Hio' & Er & H' & Hf).
  destruct (with1_same w i io io' s' rest) as [Hw' Ea]; [done..|by rewrite Er|done|].
  eexists _, _. split; [|split; [exact Hw'|split]].
  { cbn [io_step]. rewrite Hi. cbn [mbind option_bind]. rewrite E. reflexivity. }
  { rewrite Ea, Er. constructor. }
  intros _. eapply unshared1; [done..|]. unfold unshared. rewrite Er. intros Hu. by apply NoDup_app in Hu as (_ & _ & ?).
Qed.

Lemma copy_refines w i : world_ok w -> allowed w (OpCopyTo i) -> refines w (OpCopyTo i).
Proof.
  intros Hw (Hm & (io & Hi)). cbn [op_bytes] in Hm.
  destruct (facts1 w i io Hw Hi) as (rest & Hr & Hio & H & Hb & Hl & Hl' & Hn); [lia|].
  eexists _, w. split; [|split; [done|split; [|done]]].
  { cbn [io_step]. rewrite Hi. cbn [mbind option_bind]. unfold xIOBufferCopyTo.
    rewrite (copy_refs_spec block_size _ _ _ (ok_refs _ _ Hio) H) by set_solver. reflexivity. }
  constructor. by apply abs_lookup.
Qed.

Lemma write_with_refines w i fn :
  world_ok w -> allowed w (OpWriteWith i fn) -> refines w (OpWriteWith i fn).
Proof.
  intros Hw (Hm & (io & Hi) & Hfn). cbn [op_bytes] in Hm. pose proof (abs_lookup w i io Hi) as Ha.
  destruct (facts1 w i io Hw Hi) as (rest & Hr & Hio & H & Hb & Hl & Hl' & Hn); [lia|].
  destruct (write_with_spec block_size fn io (w_store w) (all_ids rest) Hio H Hl' Hn Hfn) as (n & io' & s' & E & Hcase).
  assert (io_step w (OpWriteWith i fn) = Some (RCount n, with1 w i io' s')) as Estep.
  { cbn [io_step]. rewrite Hi. cbn [mbind option_bind]. by rewrite E. }
  assert (with1 w i io (w_store w) = w) as Eid.
  { unfold with1. rewrite list_insert_id by done. by destruct w. }
  exists (RCount n), (with1 w i io' s'). split; [done|].
  destruct Hcase as [(Hc & -> & -> & ->)|(segs & Hne & Hpre & [(Ef & -> & -> & ->)|[Ef Htk]])].
  - rewrite Eid. split; [done|]. split; [|done]. constructor. by rewrite Ha, Hc.
  - rewrite Eid. split; [done|]. split; [|done]. by eapply QWriteWithNot.
  - eapply taken_world in Htk as (Hw' & -> & Hu); [|done..]. split; [done|]. split; [|by intros _]. by eapply QWriteWith.
Qed.

(** An operation on two buffers that changes no byte. *)
Lemma abs_with2 w i j io' dst' s' :
  (forall hs, frame hs (w_store w) s') ->
  abs (with2 w i j io' dst' s') =
  <[j := contents s' (io_refs dst')]> (<[i := contents s' (io_refs io')]> (abs w)).
Proof.
  intros Hf. unfold with2. rewrite (abs_same_bytes w) by done. unfold abs. rewrite !list_fmap_insert.
  by rewrite <- !(same_contents (w_store w) s').
Qed.

Lemma cut_refines w i j n : world_ok w -> allowed w (OpCut i j n) -> refines w (OpCut i j n).
Proof.
  intros Hw (Hm & Hij & (io & Hi) & (dst & Hj) & Hn). cbn [op_bytes] in Hm.
  destruct (facts2 w i j io dst Hw Hij Hi Hj) as (rest & Hr & Hio & Hdst & H & Hl & Hb); [lia|].
  pose proof (contents_length _ _ _ _ H (ok_refs _ _ Hio)) as Hlen.
  destruct (cut_spec block_size alloc io dst n (w_store w) (all_ids rest) Hio Hdst H Hn Hl Hb)
    as (k & io' & dst' & s' & E & Hk & Hkw & Hio' & Hdst' & H' & Hf & Hc1 & Hc2).
  eexists _, (with2 w i j io' dst' s'). split; [|split; [by eapply (with2_ok w i j io dst)|split; [|done]]].
  { cbn [io_step]. rewrite Hi, Hj. cbn [mbind option_bind]. rewrite E. reflexivity. }
  rewrite abs_with2, Hc1, Hc2 by done. apply QCut; [by apply abs_lookup..|by rewrite Hlen|].
  by rewrite Hlen.
Qed.

Lemma move_refines w i j :
  world_ok w -> allowed w (OpAppendIOBuffer i j) -> refines w (OpAppendIOBuffer i j).
Proof.
  intros Hw (Hm & Hij & (io & Hi) & (dst & Hj)). cbn [op_bytes] in Hm.
  destruct (facts2 w i j io dst Hw Hij Hi Hj) as (rest & Hr & Hio & Hdst & H & Hl & Hb); [lia|].
  destruct (append_iobuffer_spec block_size alloc io dst (w_store w) (all_ids rest) Hio Hdst H Hb)
    as (err & io' & dst' & s' & E & Hio' & Hdst' & H' & Hf & Hcase).
  eexists _, (with2 w i j io' dst' s'). split; [|split; [by eapply (with2_ok w i j io dst)|split]].
  3: { intros _. unfold w_unshared. cbn [with2 w_bufs]. rewrite <- (list_insert_id (w_bufs w) i io Hi) at 1.
       rewrite <- (list_insert_id (<[i:=io]> (w_bufs w)) j dst) at 1 by (by rewrite list_lookup_insert_ne).
       rewrite (all_ids_perm _ _ (Hr io dst)), (all_ids_perm _ _ (Hr io' dst')). unfold all_ids. rewrite !bind_cons.
       destruct Hcase as [(_ & -> & ->)|(_ & _ & -> & ->)]; [|done]. by rewrite ids_app, <- app_assoc. }
  { cbn [io_step]. rewrite Hi, Hj. cbn [mbind option_bind]. rewrite E. reflexivity. }
  pose proof (abs_lookup w i io Hi) as Hai. pose proof (abs_lookup w j dst Hj) as Haj.
  rewrite abs_with2 by done. destruct Hcase as [(-> & -> & ->)|(-> & Hs & -> & ->)].
  - rewrite contents_app, !(same_contents (w_store w) s') by done. by apply QMove.
  - rewrite !(same_contents (w_store w) s') by done.
    rewrite (list_insert_id (abs w) i) by done. rewrite list_insert_id by done. by apply QMoveNot.
Qed.

(** ** The refinement *)


(** ** When tails are private *)

Lemma NoDup_fmap_eq {A B} (f : A -> B) (l : list A) x y :
  NoDup (f <$> l) -> x ∈ l -> y ∈ l -> f x = f y -> x = y.
Proof.
  intros Hnd [i Hi]%list_elem_of_lookup [j Hj]%list_elem_of_lookup E.
  assert (i = j) as ->; [|congruence].
  eapply NoDup_lookup; [done|..]; rewrite list_lookup_fmap; [by rewrite Hi|]. by rewrite Hj, E.
Qed.

Lemma all_ids_refs bufs : all_ids bufs = r_block <$> (bufs ≫= io_refs).
Proof. unfold all_ids. induction bufs as [|io bufs IH]; [done|]. cbn. by rewrite fmap_app, IH. Qed.

(** While no block is shared every tail is private. *)
Lemma unshared_private w i io :
  w_unshared w -> w_bufs w !! i = Some io -> tail_private w io.
Proof.
  unfold w_unshared. rewrite all_ids_refs. intros Hnd Hi. unfold tail_private. rewrite Forall_forall. intros b Hb.
  rewrite Forall_forall. intros r Hr.
  unfold clear_of. destruct (last (io_refs io)) as [t|] eqn:Et; [|done]. intros Eb.
  enough (r = t) as -> by done. eapply NoDup_fmap_eq; [done| | |done].
  - apply list_elem_of_bind. by exists b.
  - apply list_elem_of_bind. exists io. split; [|by eapply list_elem_of_lookup_2].
    apply last_Some in Et as [l ->]. apply elem_of_app. right. left.
Qed.

(** The source of a cut keeps the end of the split block, so its tail stays
    private when it was. *)
Fixpoint io_steps (w : world) (ops : list io_op) : ub (list io_res * world) :=
  match ops with
  | [] => Some ([], w)
  | op :: ops =>
      '(r, w) ← io_step w op;
      '(rs, w) ← io_steps w ops;
      Some (r :: rs, w)
  end.

Definition world_init (n : nat) : world :=
  World (Store ∅ [] 0) (replicate n xIOBufferInit).

Lemma world_init_ok n : world_ok (world_init n).
Proof.
  assert (all_ids (w_bufs (world_init n)) = []) as E.
  { cbn [world_init w_bufs]. induction n as [|n IH]; [done|]. exact IH. }
  split; [apply Forall_replicate, xIOBufferInit_ok|]. rewrite E. split; cbn [world_init w_store pool blocks].
  - constructor.
  - intros b. rewrite lookup_empty. split; [by intros [? [=]]|]. intros [H|H]; by apply not_elem_of_nil in H.
  - intros b H. by apply not_elem_of_nil in H.
  - intros b blk. by rewrite lookup_empty.
  - intros b blk. by rewrite lookup_empty.
Qed.

End world.

(** ** A shared block, and what an append to it does *)

(** Two buffers over one block of eight bytes, as a cut of the first one at 3
    leaves them, and a pooled block. *)
Definition split_world : world :=
  World (Store {[1%positive := Blk 2 6 [10; 11; 12; 13; 14; 15; 0; 0]%Z; 2%positive := Blk 0 0 (replicate 8 0%Z)]} [2%positive] 1)
    [IO false [Ref 1 3 3] 8 3; IO false [Ref 1 0 3] 8 3].

Lemma split_world_ok : world_ok 8 split_world.
Proof.
  split.
  - apply Forall_cons; split; [|apply Forall_singleton]; (split; cbn; [apply Forall_singleton; split; cbn; lia|..]; unfold nrefs, XIOBUFFER_INLINE_REFS, MAX_BYTES, total; cbn; lia).
  - split; cbn [split_world w_store w_bufs pool blocks all_ids].
    + apply NoDup_singleton.
    + intros b. destruct (decide (b = 1%positive)) as [->|H1]; [split; [intros _; right; left|by eexists]|].
      destruct (decide (b = 2%positive)) as [->|H2]; [split; [intros _; left; left|by eexists]|].
      rewrite lookup_insert_ne, lookup_singleton_ne by done. split; [by intros [? [=]]|].
      cbn. rewrite !elem_of_cons, elem_of_nil. naive_solver.
    + intros b ->%list_elem_of_singleton. cbn. rewrite !elem_of_cons, elem_of_nil. naive_solver.
    + intros b blk. destruct (decide (b = 1%positive)) as [->|H1]; [by intros [= <-]|].
      destruct (decide (b = 2%positive)) as [->|H2]; [by intros [= <-]|].
      by rewrite lookup_insert_ne, lookup_singleton_ne by done.
    + intros b blk. destruct (decide (b = 1%positive)) as [->|H1]; [by intros [= <-]|].
      intros _ Hb. exfalso. cbn in Hb. rewrite !elem_of_cons, elem_of_nil in Hb. naive_solver.
Qed.


(** After a cut inside a block, appending to the destination overwrites
    bytes still queued in the source: both hold the block, and the append
    stores behind the destination's slice without looking at the count. *)
Theorem iobuffer_cut_append_aliases :
  exists rs w, io_steps XIOBUFFER_BLOCK_SIZE (fun n => replicate n 0%Z) (fun _ => true) (world_init 2)
    [OpAppend 0 [10; 11; 12; 13; 14; 15]%Z; OpCut 0 1 3; OpAppend 1 [98; 99]%Z] = Some (rs, w) /\
    rs = [RErr xErrno_Ok; RCount 3; RErr xErrno_Ok] /\
    abs w = [[98; 99; 15]; [10; 11; 12; 98; 99]]%Z.
Proof.
  destruct (fmap_Some_1 (fun x => (x.1, abs x.2)) (io_steps XIOBUFFER_BLOCK_SIZE (fun n => replicate n 0%Z)
    (fun _ => true) (world_init 2) [OpAppend 0 [10; 11; 12; 13; 14; 15]%Z; OpCut 0 1 3; OpAppend 1 [98; 99]%Z])
    ([RErr xErrno_Ok; RCount 3; RErr xErrno_Ok], [[98; 99; 15]; [10; 11; 12; 98; 99]]%Z)) as ([rs w] & E & H).
  { vm_compute. reflexivity. }
  exists rs, w. split; [exact E|]. cbn [fst snd] in H. by injection H as -> ->.
Qed.
