(* ===== verification/Treiber.v ===== *)
(** * Treiber: the block pool under interleaving ([libx/x/buf/io.c])

    [pool_push] and [pool_pop] are loops around a compare-and-swap of the head.
    Here every load, store and compare-and-swap is a step of its own, and the
    steps of several threads interleave.  While a block is in use its owner may
    write anything into the word that served as [next].  With any number of
    pushing threads but one that pops, no block is ever handed out twice; with
    two popping threads one is. *)

From S2P Require Import Prelude.

Abbreviation blk := positive.

(** Where a thread is; the arguments are its local variables. *)
Inductive pc :=
  | Idle
  | PushLoad (b : blk)                       (* about to load the head *)
  | PushLink (b : blk) (head : option blk)   (* about to write [node->next] *)
  | PushCas (b : blk) (head : option blk)
  | PopLoad
  | PopNext (head : blk)                     (* about to read [head->next] *)
  | PopCas (head : blk) (next : option blk).

Record thread := Thread {
  at_pc : pc;
  own : list blk;
}.

Record state := State {
  g_pool_head : option blk;
  next_of : gmap blk (option blk);
  threads : list thread;
}.

#[export] Instance option_blk_dec : EqDecision (option blk) := _.

(** What a thread does next: start a call, give an owned block's first word
    another value, or go on with its call; [weak] makes the compare-and-swap
    fail although it need not. *)
Inductive act :=
  | APush (b : blk)
  | APop
  | AScribble (b : blk) (x : option blk)
  | ARun (weak : bool).

Definition remove_one (b : blk) (l : list blk) : list blk :=
  match list_find (eq b) l with Some (i, _) => delete i l | None => l end.

Definition local := (option blk * gmap blk (option blk) * thread)%type.

(** One step of the thread [t]: the head, the memory and the thread after it. *)
Definition thread_step (a : act) (h : option blk) (m : gmap blk (option blk)) (t : thread) : option local :=
  match a, at_pc t with
  | APush b, Idle =>
      if decide (b ∈ own t) then Some (h, m, Thread (PushLoad b) (remove_one b (own t))) else None
  | APop, Idle => Some (h, m, Thread PopLoad (own t))
  | AScribble b x, Idle => if decide (b ∈ own t) then Some (h, <[b := x]> m, t) else None
  | ARun _, PushLoad b => Some (h, m, Thread (PushLink b h) (own t))
  | ARun _, PushLink b hd => Some (h, <[b := hd]> m, Thread (PushCas b hd) (own t))
  | ARun weak, PushCas b hd =>
      if decide (h = hd /\ weak = false) then Some (Some b, m, Thread Idle (own t))
      else Some (h, m, Thread (PushLoad b) (own t))
  | ARun _, PopLoad =>
      match h with
      | None => Some (h, m, Thread Idle (own t))
      | Some b => Some (h, m, Thread (PopNext b) (own t))
      end
  | ARun _, PopNext hd => Some (h, m, Thread (PopCas hd (default None (m !! hd))) (own t))
  | ARun weak, PopCas hd n =>
      if decide (h = Some hd /\ weak = false) then Some (n, m, Thread Idle (hd :: own t))
      else Some (h, m, Thread PopLoad (own t))
  | _, _ => None
  end.

Definition step (ia : nat * act) (s : state) : option state :=
  t ← threads s !! ia.1;
  '(h, m, t) ← thread_step ia.2 (g_pool_head s) (next_of s) t;
  Some (State h m (<[ia.1 := t]> (threads s))).

Fixpoint run (tr : list (nat * act)) (s : state) : option state :=
  match tr with
  | [] => Some s
  | ia :: tr => s ← step ia s; run tr s
  end.

(** ** One popping thread *)

(** [next] chains the blocks of a list from the head. *)
Fixpoint chain (m : gmap blk (option blk)) (h : option blk) (l : list blk) : Prop :=
  match l with
  | [] => h = None
  | b :: l => h = Some b /\ chain m (default None (m !! b)) l
  end.

(** The blocks a thread has: those it owns and the one it is pushing. *)
Definition has (t : thread) : list blk :=
  own t ++ match at_pc t with PushLoad b | PushLink b _ | PushCas b _ => [b] | _ => [] end.

Definition all_have (s : state) : list blk := threads s ≫= has.

(** What the locals of thread [i] say about the pooled blocks [l]. *)
Definition pc_ok (p i : nat) (m : gmap blk (option blk)) (l : list blk) (c : pc) : Prop :=
  match c with
  | PushCas b hd => default None (m !! b) = hd
  | PopLoad => i = p
  | PopNext b => i = p /\ b ∈ l
  | PopCas b n => i = p /\ b ∈ l /\ default None (m !! b) = n
  | _ => True
  end.

(** The blocks [l] are pooled, and no block is in two places. *)
Record pool_ok (p : nat) (s : state) (l : list blk) : Prop := {
  po_chain : chain (next_of s) (g_pool_head s) l;
  po_apart : NoDup (l ++ all_have s);
  po_pcs i t : threads s !! i = Some t -> pc_ok p i (next_of s) l (at_pc t);
}.

Lemma chain_insert m h l b x : b ∉ l -> chain m h l -> chain (<[b := x]> m) h l.
Proof.
  revert h. induction l as [|c l IH]; intros h Hb Hc; cbn [chain] in *; [done|].
  rewrite not_elem_of_cons in Hb. destruct Hb as [Hne Hb]. destruct Hc as [-> Hc].
  split; [done|]. rewrite lookup_insert_ne by done. by apply IH.
Qed.

Lemma remove_one_perm b l : b ∈ l -> remove_one b l ++ [b] ≡ₚ l.
Proof.
  intros Hb. rewrite Permutation_app_comm. symmetry. unfold remove_one. cbn [app]. destruct (list_find (eq b) l) as [[i c]|] eqn:E.
  - apply list_find_Some in E as (Hi & -> & _). by apply delete_Permutation.
  - apply list_find_None in E. rewrite Forall_forall in E. by destruct (E b Hb).
Qed.

(** The invariant after thread [i] became [t']: no block was lost or doubled. *)
Lemma update_ok p s l i t h' m' t' l' :
  pool_ok p s l -> threads s !! i = Some t ->
  chain m' h' l' -> l' ++ has t' ≡ₚ l ++ has t -> pc_ok p i m' l' (at_pc t') ->
  (forall k u, k <> i -> threads s !! k = Some u -> pc_ok p k (next_of s) l (at_pc u) -> pc_ok p k m' l' (at_pc u)) ->
  pool_ok p (State h' m' (<[i := t']> (threads s))) l'.
Proof.
  intros [Hc Hnd Hpcs] Hi Hc' Hperm Hpc Hothers.
  destruct (insert_split _ _ _ Hi) as (rest & Hp & Hr). split; cbn [next_of g_pool_head threads].
  - done.
  - unfold all_have in *. cbn [threads]. rewrite Hr, bind_cons. rewrite Hp, bind_cons in Hnd.
    by rewrite app_assoc, Hperm, <- app_assoc.
  - intros k u. destruct (decide (k = i)) as [->|Hne].
    + rewrite list_lookup_insert_eq by (by eapply lookup_lt_Some). by intros [= <-].
    + rewrite list_lookup_insert_ne by done. intros Hk. by eapply Hothers, Hpcs.
Qed.

(** What the invariant says of one thread's blocks. *)
Lemma has_apart p s l i t b :
  pool_ok p s l -> threads s !! i = Some t -> b ∈ has t ->
  b ∉ l /\ forall k u, k <> i -> threads s !! k = Some u -> b ∉ has u.
Proof.
  intros [_ Hnd _] Hi Hb. split.
  - apply NoDup_app in Hnd as (_ & Hd & _). intros Hl. apply (Hd b Hl).
    apply list_elem_of_bind. exists t. split; [done|]. by eapply list_elem_of_lookup_2.
  - intros k u Hne Hk Hu. apply NoDup_app in Hnd as (_ & _ & Hnd). unfold all_have in Hnd.
    destruct (insert_split _ _ _ Hi) as (rest & Hp & Hr). rewrite Hp, bind_cons in Hnd.
    apply NoDup_app in Hnd as (_ & Hd & _). apply (Hd b Hb), list_elem_of_bind. exists u. split; [done|].
    assert (u ∈ <[i := Thread Idle []]> (threads s)) as Hin.
    { apply (list_elem_of_lookup_2 _ k). by rewrite list_lookup_insert_ne. }
    rewrite Hr in Hin. apply elem_of_cons in Hin as [->|?]; [|done]. by apply not_elem_of_nil in Hu.
Qed.

(** A write to a block that thread [i] has does not disturb the others. *)
Lemma write_others p s l i t b x k u :
  pool_ok p s l -> threads s !! i = Some t -> b ∈ has t -> k <> i -> threads s !! k = Some u ->
  pc_ok p k (next_of s) l (at_pc u) -> pc_ok p k (<[b := x]> (next_of s)) l (at_pc u).
Proof.
  intros H Hi Hb Hne Hk Hpc. destruct (has_apart _ _ _ _ _ _ H Hi Hb) as [Hl Hu]. specialize (Hu k u Hne Hk).
  unfold pc_ok, has in *. destruct (at_pc u) as [| |c hd|c hd| |c|c n]; try done.
  - rewrite lookup_insert_ne; [done|]. intros ->. apply Hu. apply elem_of_app. right. left.
  - destruct Hpc as (-> & Hc & Hn). split; [done|]. split; [done|]. rewrite lookup_insert_ne; [done|]. by intros ->.
Qed.

(** Only thread [p] pops. *)
Definition pops_by (p : nat) (ia : nat * act) : Prop := ia.2 = APop -> ia.1 = p.

Lemma step_ok p ia s s' l :
  pool_ok p s l -> pops_by p ia -> step ia s = Some s' -> exists l', pool_ok p s' l'.
Proof.
  destruct ia as [i a]. unfold pops_by, step. cbn [fst snd]. intros H Ha E.
  destruct (threads s !! i) as [t|] eqn:Hi; [|done]. cbn [mbind option_bind] in E.
  destruct (thread_step a (g_pool_head s) (next_of s) t) as [[[h m] t']|] eqn:Et; [|done].
  cbn [mbind option_bind] in E. injection E as <-. pose proof H as [Hc Hnd Hpcs]. pose proof (Hpcs i t Hi) as Hpc.
  assert (forall b, b ∈ has t -> b ∉ l) as Hbl by (intros b Hb; by eapply has_apart).
  destruct t as [c o]. unfold has in Hbl. cbn [own at_pc] in *.
  destruct a as [b| |b x|weak], c as [|b'|b' hd|b' hd| |hd|hd n]; cbn [thread_step at_pc own] in Et; try done.
  - (* push begins *)
    case_decide as Hb; [|done]. injection Et as <- <- <-. exists l. eapply update_ok; try done.
    unfold has. cbn [own at_pc]. by rewrite remove_one_perm, app_nil_r.
  - (* pop begins *)
    injection Et as <- <- <-. exists l. eapply update_ok; try done. by apply Ha.
  - (* an owner writes *)
    case_decide as Hb; [|done]. injection Et as <- <- <-. exists l.
    assert (b ∈ has (Thread Idle o)) as Hh by (apply elem_of_app; by left).
    eapply update_ok; try done.
    + apply chain_insert; [|done]. apply Hbl. apply elem_of_app. by left.
    + intros k u Hne Hk Hu. by apply (write_others p s l i _ _ _ k u H Hi Hh Hne Hk).
  - (* push loads the head *)
    injection Et as <- <- <-. exists l. by eapply update_ok.
  - (* push links *)
    injection Et as <- <- <-. exists l.
    assert (b' ∈ has (Thread (PushLink b' hd) o)) as Hh by (apply elem_of_app; right; left).
    eapply update_ok; try done.
    + apply chain_insert; [|done]. apply Hbl. apply elem_of_app. right. left.
    + cbn. by rewrite lookup_insert_eq.
    + intros k u Hne Hk Hu. by apply (write_others p s l i _ _ _ k u H Hi Hh Hne Hk).
  - (* push swaps *)
    cbn in Hpc. case_decide as Hcas; injection Et as <- <- <-.
    + destruct Hcas as [Eh _]. exists (b' :: l). eapply update_ok; try done.
      * cbn [chain]. split; [done|]. by rewrite Hpc, <- Eh.
      * unfold has. cbn [own at_pc]. rewrite app_nil_r. solve_Permutation.
      * intros k u Hne Hk. unfold pc_ok. destruct (at_pc u); try done.
        -- intros [-> ?]. split; [done|]. by right.
        -- intros (-> & ? & ?). split; [done|]. split; [by right|done].
    + exists l. by eapply update_ok.
  - (* pop loads the head *)
    destruct (g_pool_head s) as [hd|] eqn:Eh; injection Et as <- <- <-; exists l; eapply update_ok; try done.
    cbn. split; [done|]. destruct l as [|c l]; [done|]. destruct Hc as [[= <-] _]. left.
  - (* pop reads next *)
    injection Et as <- <- <-. exists l. eapply update_ok; try done. by destruct Hpc.
  - (* pop swaps *)
    destruct Hpc as (-> & Hin & Hn). case_decide as Hcas; injection Et as <- <- <-.
    + destruct Hcas as [Eh _]. destruct l as [|c l]; [by apply not_elem_of_nil in Hin|].
      cbn [chain] in Hc. rewrite Eh in Hc. destruct Hc as [[= <-] Hc]. exists l. eapply update_ok; try done.
      * by rewrite <- Hn.
      * unfold has. cbn [own at_pc app]. rewrite !app_nil_r. solve_Permutation.
      * intros k u Hne Hk. unfold pc_ok. destruct (at_pc u); try done; intros [? _]; done.
    + exists l. by eapply update_ok.
Qed.

(** A pool of blocks with the threads idle around it. *)
Fixpoint linked (bs : list blk) : gmap blk (option blk) :=
  match bs with
  | [] => ∅
  | b :: bs => <[b := head bs]> (linked bs)
  end.

Definition pool_of (bs : list blk) (owned : list (list blk)) : state :=
  State (head bs) (linked bs) (Thread Idle <$> owned).

Lemma chain_linked bs : NoDup bs -> chain (linked bs) (head bs) bs.
Proof.
  induction bs as [|b bs IH]; intros Hnd; [done|]. apply NoDup_cons in Hnd as [Hb Hnd].
  split; [done|]. cbn [linked]. rewrite lookup_insert_eq. apply chain_insert; [done|]. by apply IH.
Qed.

Lemma run_ok p tr s s' l :
  pool_ok p s l -> Forall (pops_by p) tr -> run tr s = Some s' -> exists l', pool_ok p s' l'.
Proof.
  intros H Htr. revert s l H. induction Htr as [|ia tr Hia Htr IH]; intros s l H E; cbn [run] in E.
  { injection E as <-. by exists l. }
  destruct (step ia s) as [s1|] eqn:E1; [|done]. destruct (step_ok p ia s s1 l H Hia E1) as [l1 H1].
  by apply (IH s1 l1).
Qed.

Lemma pool_of_ok p bs owned : NoDup (bs ++ concat owned) -> pool_ok p (pool_of bs owned) bs.
Proof.
  intros Hnd. split.
  - apply chain_linked. by apply NoDup_app in Hnd as [? _].
  - assert (all_have (pool_of bs owned) = concat owned) as ->; [|done].
    unfold all_have. cbn [pool_of threads]. clear Hnd. induction owned as [|o owned IH]; [done|].
    rewrite fmap_cons, bind_cons, IH. unfold has. cbn [own at_pc concat]. by rewrite app_nil_r.
  - intros i t. cbn [pool_of threads]. rewrite list_lookup_fmap. destruct (owned !! i); [|done]. by intros [= <-].
Qed.


(** Both threads push while thread 0 pops twice in between. *)
Definition push_pop_trace : list (nat * act) :=
  [(0, APop); (0, ARun false); (1, APush 3%positive); (1, ARun false); (0, ARun false);
   (1, ARun false); (1, ARun false); (0, ARun false); (0, ARun false); (0, ARun false); (0, ARun false)].


(** Thread 0 stops inside [pool_pop] between its two loads and the swap;
    thread 1 pops two blocks and pushes the first one back; thread 0 goes on. *)
Definition aba_trace : list (nat * act) :=
  [(0, APop); (0, ARun false); (0, ARun false);
   (1, APop); (1, ARun false); (1, ARun false); (1, ARun false);
   (1, APop); (1, ARun false); (1, ARun false); (1, ARun false);
   (1, APush 1%positive); (1, ARun false); (1, ARun false); (1, ARun false);
   (0, ARun false);
   (0, APop); (0, ARun false); (0, ARun false); (0, ARun false)].

(** With two popping threads the pool hands a block out twice: the head
    swapped back in between makes a stale compare-and-swap succeed (ABA). *)
Theorem two_poppers_aba :
  exists s, run aba_trace (pool_of [1; 2; 3]%positive [[]; []]) = Some s /\
    own <$> threads s = [[2; 1]; [2]]%positive.
Proof. eexists. split; vm_compute; reflexivity. Qed.
