(* ===== verification/Mpsc.v ===== *)
(** * Mpsc: the multi-producer single-consumer queue ([libx/x/base/mpsc.c])

    [xMpscPush] and [xMpscPop] as their atomic operations, interleaved: any
    number of producers, one consumer.  A step is one load, store, exchange or
    compare-and-swap, in a sequentially consistent memory.  A node may be
    pushed again, by anyone, as soon as it has been returned; while it is in
    nobody's use its word may hold anything. *)

From S2P Require Import Prelude.

Abbreviation node := positive.

(** Where a producer is in [xMpscPush]. *)
Inductive ppc :=
  | PIdle
  | PStart (n : node)            (* about to clear [node->next] *)
  | PXchg (n : node)             (* about to exchange the tail *)
  | PLink (prev n : node)        (* about to store [_tail->next] *)
  | PHead (n : node).            (* about to store the head *)

(** Where the consumer is in [xMpscPop]. *)
Inductive cpc :=
  | CIdle
  | CLoad
  | CNext (h : node)             (* about to load [_head->next] *)
  | CTail (h : node)             (* no next seen: about to swap the tail for NULL *)
  | CSpin (h : node)             (* waiting for [_head->next] *)
  | CStore (h n : node)          (* about to store the head and return [h] *)
  | CDrop (h : node).            (* about to swap the head for NULL and return [h] *)

(** The queue and its threads; [pushed] and [popped] record the exchanges and
    the nodes returned, in order. *)
Record mpsc := Mpsc {
  head : option node;
  tail : option node;
  next : gmap node (option node);
  producers : list ppc;
  consumer : cpc;
  pushed : list node;
  popped : list node;
}.

Definition next_of (s : mpsc) (n : node) : option node := default None (next s !! n).

(** The node a producer is pushing, and whether it is not yet in the queue. *)
Definition flying (p : ppc) : option node :=
  match p with PIdle => None | PStart n | PXchg n | PLink _ n | PHead n => Some n end.
Definition starting (p : ppc) : option node :=
  match p with PStart n | PXchg n => Some n | _ => None end.

(** A node in nobody's hands: returned, or never pushed. *)
Definition free (s : mpsc) (n : node) : Prop :=
  n ∉ drop (length (popped s)) (pushed s) /\ Some n ∉ flying <$> producers s.

#[export] Instance free_dec s n : Decision (free s n) := _.

Definition set_producer (s : mpsc) (i : nat) (p : ppc) : mpsc :=
  Mpsc (head s) (tail s) (next s) (<[i := p]> (producers s)) (consumer s) (pushed s) (popped s).
Definition set_next (s : mpsc) (n : node) (x : option node) : mpsc :=
  Mpsc (head s) (tail s) (<[n := x]> (next s)) (producers s) (consumer s) (pushed s) (popped s).
Definition set_head (s : mpsc) (x : option node) : mpsc :=
  Mpsc x (tail s) (next s) (producers s) (consumer s) (pushed s) (popped s).
Definition set_consumer (s : mpsc) (c : cpc) : mpsc :=
  Mpsc (head s) (tail s) (next s) (producers s) c (pushed s) (popped s).
Definition exchange_tail (s : mpsc) (n : node) : mpsc :=
  Mpsc (head s) (Some n) (next s) (producers s) (consumer s) (pushed s ++ [n]) (popped s).
Definition clear_tail (s : mpsc) : mpsc :=
  Mpsc (head s) None (next s) (producers s) (consumer s) (pushed s) (popped s).

(** The next operation of a push. *)
Definition xMpscPush (s : mpsc) (i : nat) (p : ppc) : option mpsc :=
  match p with
  | PIdle => None
  | PStart n => Some (set_producer (set_next s n None) i (PXchg n))
  | PXchg n =>
      Some (set_producer (exchange_tail s n) i (match tail s with Some prev => PLink prev n | None => PHead n end))
  | PLink prev n => Some (set_producer (set_next s prev (Some n)) i PIdle)
  | PHead n => Some (set_producer (set_head s (Some n)) i PIdle)
  end.

(** A pop that returns a node. *)
Definition return_node (s : mpsc) (h : node) : mpsc :=
  Mpsc (head s) (tail s) (next s) (producers s) CIdle (pushed s) (popped s ++ [h]).

(** The next operation of a pop; the first is its call. *)
Definition xMpscPop (s : mpsc) : mpsc :=
  match consumer s with
  | CIdle => set_consumer s CLoad
  | CLoad => set_consumer s (match head s with None => CIdle | Some h => CNext h end)
  | CNext h => set_consumer s (match next_of s h with None => CTail h | Some n => CStore h n end)
  | CTail h => if decide (tail s = Some h) then set_consumer (clear_tail s) (CDrop h) else set_consumer s (CSpin h)
  | CSpin h => match next_of s h with None => s | Some n => set_consumer s (CStore h n) end
  | CStore h n => return_node (set_head s (Some n)) h
  | CDrop h => return_node (if decide (head s = Some h) then set_head s None else s) h
  end.

Definition xMpscEmpty (s : mpsc) : bool := bool_decide (head s = None).

(** What happens next: a producer starts to push a free node, goes on with its
    push, someone writes to a free node, or the consumer goes on. *)
Inductive act :=
  | ACall (i : nat) (n : node)
  | APush (i : nat)
  | AScribble (n : node) (x : option node)
  | APop.

Definition step (a : act) (s : mpsc) : option mpsc :=
  match a with
  | ACall i n =>
      p ← producers s !! i;
      match p with
      | PIdle => if decide (free s n) then Some (set_producer s i (PStart n)) else None
      | _ => None
      end
  | APush i => p ← producers s !! i; xMpscPush s i p
  | AScribble n x => if decide (free s n) then Some (set_next s n x) else None
  | APop => Some (xMpscPop s)
  end.

Fixpoint run (tr : list act) (s : mpsc) : option mpsc :=
  match tr with
  | [] => Some s
  | a :: tr => s ← step a s; run tr s
  end.

Definition mpsc_init (n : nat) : mpsc := Mpsc None None ∅ (replicate n PIdle) CIdle [] [].

(** ** The invariant *)

(** The node a pop has taken from the queue but not yet returned. *)
Definition hand (s : mpsc) : list node := match consumer s with CDrop h => [h] | _ => [] end.

(** The head does not name a node of the queue. *)
Definition stale (s : mpsc) : Prop := head s = None \/ exists h, consumer s = CDrop h /\ head s = Some h.

Definition consumer_ok (s : mpsc) (R : list node) : Prop :=
  match consumer s with
  | CNext h | CTail h => head s = Some h /\ exists R', R = h :: R'
  | CSpin h => head s = Some h /\ exists y R', R = h :: y :: R'
  | CStore h n => head s = Some h /\ next_of s h = Some n /\ exists R', R = h :: n :: R'
  | _ => True
  end.

(** The nodes [R] are queued. *)
Record queue_ok (s : mpsc) (R : list node) : Prop := {
  qo_history : pushed s = popped s ++ hand s ++ R;
  qo_apart : NoDup (hand s ++ R);
  qo_starting i p n : producers s !! i = Some p -> starting p = Some n -> n ∉ hand s ++ R;
  qo_flying i j p q n : producers s !! i = Some p -> producers s !! j = Some q ->
    flying p = Some n -> flying q = Some n -> i = j;
  qo_tail : tail s = last R;
  qo_link k a b : R !! k = Some a -> R !! S k = Some b ->
    next_of s a = Some b \/ next_of s a = None /\ exists i, producers s !! i = Some (PLink a b);
  qo_end a : last R = Some a -> next_of s a = None;
  qo_plink i a b : producers s !! i = Some (PLink a b) ->
    next_of s a = None /\ exists k, R !! k = Some a /\ R !! S k = Some b;
  qo_xchg i n : producers s !! i = Some (PXchg n) -> next_of s n = None;
  qo_head : match R with
            | [] => stale s
            | x :: _ => head s = Some x \/ stale s /\ exists i, producers s !! i = Some (PHead x)
            end;
  qo_phead i n : producers s !! i = Some (PHead n) -> stale s /\ exists R', R = n :: R';
  qo_consumer : consumer_ok s R;
}.

Lemma next_set_eq s n x : next_of (set_next s n x) n = x.
Proof. unfold next_of. cbn. by rewrite lookup_insert_eq. Qed.

Lemma next_set_ne s n x m : m <> n -> next_of (set_next s n x) m = next_of s m.
Proof. intros H. unfold next_of. cbn. by rewrite lookup_insert_ne. Qed.

(** Another producer's place is untouched by a step of producer [i]. *)
Lemma other_producer (l : list ppc) i j p p' q : l !! i = Some p -> l !! j = Some q -> q <> p -> <[i := p']> l !! j = Some q.
Proof. intros Hi Hj Hne. rewrite list_lookup_insert_ne; [done|]. intros ->. congruence. Qed.

(** Whoever is found among the producers is the one that moved, or another. *)
Lemma moved_producer (l : list ppc) i p' j q : <[i := p']> l !! j = Some q -> j = i /\ q = p' \/ j <> i /\ l !! j = Some q.
Proof. intros [(<- & <- & _)|[Hne H]]%list_lookup_insert_Some; [by left|]. right. split; [by intros ->|done]. Qed.

Ltac on_producers := repeat match goal with
  | H : <[_ := _]> _ !! _ = Some _ |- _ => apply moved_producer in H as [[-> H]|[? H]]; simplify_eq
  end.

(** No two places of the queue hold the same node. *)
Lemma place_unique s R k l a : queue_ok s R -> R !! k = Some a -> R !! l = Some a -> k = l.
Proof. intros H. pose proof (qo_apart _ _ H) as Hnd. apply NoDup_app in Hnd as (_ & _ & Hnd). by apply NoDup_lookup. Qed.

Lemma in_queue s R k a : queue_ok s R -> R !! k = Some a -> a ∈ hand s ++ R.
Proof. intros _ Hk. apply elem_of_app. right. by eapply list_elem_of_lookup_2. Qed.

(** The last node has no successor. *)
Lemma last_place (R : list node) k a b : last R = Some a -> NoDup R -> R !! k = Some a -> R !! S k = Some b -> False.
Proof.
  intros Hl Hnd Hk Hb. rewrite last_lookup in Hl. apply lookup_lt_Some in Hb as Hlt.
  pose proof (NoDup_lookup _ _ _ _ Hnd Hl Hk). lia.
Qed.

Lemma free_apart s R n : queue_ok s R -> free s n -> n ∉ hand s ++ R /\ forall i p, producers s !! i = Some p -> flying p <> Some n.
Proof.
  intros H [Hq Hf]. rewrite (qo_history _ _ H), drop_app_length in Hq. split; [done|].
  intros i p Hi E. apply Hf. rewrite <- E. apply list_elem_of_fmap. exists p. split; [done|]. by eapply list_elem_of_lookup_2.
Qed.

(** A write to the word of a node that is neither queued nor linked from. *)
Lemma write_ok s R n x :
  queue_ok s R -> n ∉ hand s ++ R -> (forall i, producers s !! i = Some (PXchg n) -> x = None) -> queue_ok (set_next s n x) R.
Proof.
  intros [] Hn Hx. assert (forall k a, R !! k = Some a -> a <> n) as Hne.
  { intros k a Hk ->. apply Hn, elem_of_app. right. by eapply list_elem_of_lookup_2. }
  split; try done; cbn.
  - intros k a b Ha Hb. rewrite next_set_ne by eauto. by eapply qo_link0.
  - intros a Ha. rewrite next_set_ne; [by apply qo_end0|]. rewrite last_lookup in Ha. eauto.
  - intros i a b Hi. destruct (qo_plink0 i a b Hi) as (E & k & Ha & Hb). rewrite next_set_ne by eauto. eauto.
  - intros i m Hi. destruct (decide (m = n)) as [->|]; [rewrite next_set_eq; by eapply Hx|]. rewrite next_set_ne by done. by eapply qo_xchg0.
  - unfold consumer_ok in *. cbn. destruct (consumer s) as [| | | | |h m|]; try done.
    destruct qo_consumer0 as (Eh & En & R' & ER). split; [done|]. rewrite next_set_ne; [by split; [|exists R']|].
    apply (Hne 0). by rewrite ER.
Qed.

(** A producer before its exchange: nothing else of the invariant sees it. *)
Lemma outside_ok s R i p p' :
  queue_ok s R -> producers s !! i = Some p -> (p = PIdle \/ starting p <> None) ->
  (p' = PIdle \/ starting p' <> None) ->
  (forall n, starting p' = Some n -> n ∉ hand s ++ R /\ forall j q, j <> i -> producers s !! j = Some q -> flying q <> Some n) ->
  (forall n, p' = PXchg n -> next_of s n = None) ->
  queue_ok (set_producer s i p') R.
Proof.
  intros [] Hi Hp Hp' Hnew Hxn.
  assert (flying p' = starting p') as Hfs by (destruct p'; try done; destruct Hp' as [|]; done).
  split; try done; cbn.
  - intros j q n Hj Hs. on_producers; [by apply Hnew|]. by eapply qo_starting0.
  - intros j k q r n Hj Hk Hq Hr. on_producers; try done.
    1,2: exfalso; first [rewrite Hfs in Hq; destruct (Hnew _ Hq) as [_ Hno] | rewrite Hfs in Hr; destruct (Hnew _ Hr) as [_ Hno]]; by eapply Hno.
    by eapply qo_flying0.
  - intros k a b Ha Hb. destruct (qo_link0 k a b Ha Hb) as [?|(E & j & Hj)]; [by left|]. right. split; [done|]. exists j.
    eapply other_producer; [done..|]. intros <-. by destruct Hp as [|Hp].
  - intros j a b Hj. apply moved_producer in Hj as [[-> Hj]|[? Hj]]; [subst; by destruct Hp'|]. by eapply qo_plink0.
  - intros j n Hj. apply moved_producer in Hj as [[-> Hj]|[? Hj]]; [by apply Hxn|]. by eapply qo_xchg0.
  - destruct R as [|x R]; [done|]. destruct qo_head0 as [?|(Hst & j & Hj)]; [by left|]. right. split; [done|]. exists j.
    eapply other_producer; [done..|]. intros <-. by destruct Hp as [|Hp].
  - intros j n Hj. apply moved_producer in Hj as [[-> Hj]|[? Hj]]; [subst; by destruct Hp'|]. by eapply qo_phead0.
Qed.

(** The exchange: the node joins the end of the queue. *)
Lemma exchange_ok s R i n :
  queue_ok s R -> producers s !! i = Some (PXchg n) ->
  queue_ok (set_producer (exchange_tail s n) i (match tail s with Some prev => PLink prev n | None => PHead n end)) (R ++ [n]).
Proof.
  intros H Hi. pose proof H as []. pose proof (qo_starting0 i _ n Hi eq_refl) as Hn. 
  remember (match tail s with Some _ => _ | None => _ end) as p' eqn:Ep'.
  assert (flying p' = Some n /\ starting p' = None) as [Hf' Hs'] by (rewrite Ep'; by destruct (tail s)).
  assert (next_of s n = None) as Enn by by eapply qo_xchg0.
  split; cbn.
  - by rewrite qo_history0, <- !app_assoc.
  - rewrite app_assoc. apply NoDup_app. split; [done|]. split; [|apply NoDup_singleton]. by intros x Hx ->%list_elem_of_singleton.
  - intros j p m Hj Hs. on_producers. rewrite app_assoc, not_elem_of_app. split; [by eapply qo_starting0|].
    intros ->%list_elem_of_singleton. assert (flying p = Some n) as Hp by (destruct p; done).
    by pose proof (qo_flying0 i j _ _ n Hi Hj eq_refl Hp).
  - intros j k q r m Hj Hk Hq Hr. on_producers; try done; rewrite ?Hf' in *; simplify_eq; eauto.
  - by rewrite last_snoc.
  - intros k a b Ha Hb. change (next_of _ a) with (next_of s a). destruct (decide (S k < length R)) as [Hk|Hk].
    + rewrite lookup_app_l in Ha, Hb by lia. destruct (qo_link0 k a b Ha Hb) as [?|(E & j & Hj)]; [by left|].
      right. split; [done|]. exists j. by eapply other_producer.
    + apply lookup_lt_Some in Hb as Hlt. rewrite length_app in Hlt. cbn in Hlt.
      rewrite lookup_app_r in Hb by lia. rewrite lookup_app_l in Ha by lia.
      assert (S k = length R) as EK by lia. rewrite EK, Nat.sub_diag in Hb. injection Hb as <-.
      assert (last R = Some a) as Hl by (rewrite last_lookup; by rewrite <- EK).
      right. split; [by apply qo_end0|]. exists i. rewrite Ep'. rewrite qo_tail0, Hl. apply list_lookup_insert_eq. by eapply lookup_lt_Some.
  - intros a. rewrite last_snoc. by intros [= <-].
  - intros j a b Hj. change (next_of _ a) with (next_of s a). on_producers.
    + destruct (tail s) as [t|] eqn:Et; simplify_eq. split; [by apply qo_end0|].
      symmetry in qo_tail0. rewrite last_lookup in qo_tail0. exists (pred (length R)). apply lookup_lt_Some in qo_tail0 as Hlt.
      rewrite lookup_app_l by done. split; [done|]. replace (S (pred (length R))) with (length R) by lia.
      by rewrite lookup_app_r, Nat.sub_diag by lia.
    + destruct (qo_plink0 j a b Hj) as (E & k & Ha & Hb). split; [done|]. exists k.
      by rewrite !lookup_app_l by (by eapply lookup_lt_Some).
  - intros j m Hj. change (next_of _ m) with (next_of s m). on_producers; [by destruct (tail s)|by eapply qo_xchg0].
  - destruct R as [|x R]; cbn.
    + right. split; [exact qo_head0|]. exists i. cbn in qo_tail0. rewrite Ep'. rewrite qo_tail0. apply list_lookup_insert_eq. by eapply lookup_lt_Some.
    + destruct qo_head0 as [?|(Hst & j & Hj)]; [by left|]. right. split; [exact Hst|]. exists j. by eapply other_producer.
  - intros j m Hj. on_producers.
    + destruct (tail s) as [t|] eqn:Et; simplify_eq. destruct R as [|x R]; [|by rewrite last_cons in qo_tail0; destruct (last R)].
      split; [exact qo_head0|by exists []].
    + destruct (qo_phead0 j m Hj) as (Hst & R' & ->). split; [exact Hst|]. by exists (R' ++ [n]).
  - unfold consumer_ok in *. cbn. destruct (consumer s); try done.
    + destruct qo_consumer0 as (E & R' & ->). split; [done|]. by exists (R' ++ [n]).
    + destruct qo_consumer0 as (E & R' & ->). split; [done|]. by exists (R' ++ [n]).
    + destruct qo_consumer0 as (E & y & R' & ->). split; [done|]. by exists y, (R' ++ [n]).
    + destruct qo_consumer0 as (E & En & R' & ->). split; [done|]. split; [done|]. by exists (R' ++ [n]).
Qed.

(** A producer's last store: the link from the previous node, ... *)
Lemma link_ok s R i a b :
  queue_ok s R -> producers s !! i = Some (PLink a b) -> queue_ok (set_producer (set_next s a (Some b)) i PIdle) R.
Proof.
  intros H Hi. pose proof H as []. destruct (qo_plink0 i a b Hi) as (Ena & k & Ha & Hb).
  pose proof (in_queue _ _ _ _ H Ha) as Hin.
  assert (forall j p m, producers s !! j = Some p -> starting p = Some m -> m <> a) as Hst by (intros j p m Hj Hp ->; by eapply qo_starting0).
  split; try done; cbn.
  - intros j p m Hj Hp. on_producers. by eapply qo_starting0.
  - intros j l p q m Hj Hl Hp Hq. on_producers; try done. by eapply qo_flying0.
  - intros l x y Hx Hy. destruct (decide (x = a)) as [->|Hne].
    + pose proof (place_unique _ _ _ _ _ H Ha Hx) as <-. left. change (next_of _ a) with (next_of (set_next s a (Some b)) a).
      rewrite next_set_eq. congruence.
    + change (next_of _ x) with (next_of (set_next s a (Some b)) x). rewrite next_set_ne by done.
      destruct (qo_link0 l x y Hx Hy) as [?|(E & j & Hj)]; [by left|]. right. split; [done|]. exists j.
      eapply other_producer; [done..|]. by intros [= -> _].
  - intros x Hx. change (next_of _ x) with (next_of (set_next s a (Some b)) x). rewrite next_set_ne; [by apply qo_end0|].
    intros ->. apply NoDup_app in qo_apart0 as (_ & _ & Hnd). by eapply last_place.
  - intros j x y Hj. on_producers. change (next_of _ x) with (next_of (set_next s a (Some b)) x).
    destruct (qo_plink0 j x y Hj) as (E & l & Hx & Hy). rewrite next_set_ne; [by eauto|]. intros ->.
    pose proof (place_unique _ _ _ _ _ H Ha Hx) as <-. assert (b = y) as -> by congruence. by pose proof (qo_flying0 i j _ _ y Hi Hj eq_refl eq_refl).
  - intros j m Hj. on_producers. change (next_of _ m) with (next_of (set_next s a (Some b)) m).
    rewrite next_set_ne; [by eapply qo_xchg0|]. by eapply Hst.
  - destruct R as [|x R]; [done|]. destruct qo_head0 as [?|(Hs & j & Hj)]; [by left|]. right. split; [done|]. exists j. by eapply other_producer.
  - intros j m Hj. on_producers. by eapply qo_phead0.
  - unfold consumer_ok in *. cbn. destruct (consumer s) as [| | | | |h m|]; try done.
    destruct qo_consumer0 as (Eh & En & R' & ->). split; [done|]. split; [|by exists R'].
    change (next_of _ h) with (next_of (set_next s a (Some b)) h). rewrite next_set_ne by congruence. done.
Qed.

(** ... or the head, when the queue was empty at the exchange. *)
Lemma phead_ok s R i n :
  queue_ok s R -> producers s !! i = Some (PHead n) -> queue_ok (set_producer (set_head s (Some n)) i PIdle) R.
Proof.
  intros H Hi. pose proof H as []. destruct (qo_phead0 i n Hi) as (Hst & R' & ->).
  split; try done; cbn.
  - intros j p m Hj Hp. on_producers. by eapply qo_starting0.
  - intros j l p q m Hj Hl Hp Hq. on_producers; try done. by eapply qo_flying0.
  - intros k a b Ha Hb. destruct (qo_link0 k a b Ha Hb) as [?|(E & j & Hj)]; [by left|]. right. split; [done|]. exists j. by eapply other_producer.
  - intros j a b Hj. on_producers. by eapply qo_plink0.
  - intros j m Hj. on_producers. by eapply qo_xchg0.
  - by left.
  - intros j m Hj. on_producers. destruct (qo_phead0 j m Hj) as (_ & R'' & [= -> _]). by pose proof (qo_flying0 i j _ _ m Hi Hj eq_refl eq_refl).
  - unfold consumer_ok in *. cbn. destruct (consumer s) eqn:Ec; try done; exfalso;
      destruct Hst as [Hst|(x & Hx & _)]; destruct_and?; congruence.
Qed.

(** A step of a producer, whatever the others do, keeps the invariant. *)
Lemma mpsc_push_ok s R i p s' : queue_ok s R -> producers s !! i = Some p -> xMpscPush s i p = Some s' -> exists R', queue_ok s' R'.
Proof.
  intros H Hi Hp. destruct p as [|n|n|prev n|n]; simplify_eq/=; [|eexists; by apply exchange_ok|exists R; by apply link_ok|exists R; by apply phead_ok].
  exists R. pose proof (qo_starting _ _ H i _ n Hi eq_refl) as Hn.
  apply (outside_ok _ _ i (PStart n)); [by apply write_ok|done|by right|by right| |].
  - intros m [= <-]. split; [done|]. intros j q Hj Hq Hf. apply Hj. symmetry. by eapply (qo_flying _ _ H i j).
  - intros m [= <-]. apply next_set_eq.
Qed.

(** ** The consumer *)

(** A step that only moves the consumer, before it has taken the node. *)
Lemma consumer_moves s R c :
  queue_ok s R -> hand s = [] -> hand (set_consumer s c) = [] -> consumer_ok (set_consumer s c) R -> queue_ok (set_consumer s c) R.
Proof.
  intros [] Hh Hh' Hc. assert (stale s -> stale (set_consumer s c)) as Hst.
  { intros [?|(h & E & _)]; [by left|]. unfold hand in Hh. by rewrite E in Hh. }
  split; rewrite ?Hh'; try (done || by rewrite Hh in * ).
  - destruct R as [|x R]; [by apply Hst|]. destruct qo_head0 as [?|(Hs & j & Hj)]; [by left|]. right. split; [by apply Hst|by exists j].
  - intros i n Hi. destruct (qo_phead0 i n Hi) as (Hs & HR). split; [by apply Hst|done].
Qed.

(** A successor that is set is the next node of the queue. *)
Lemma next_queued s h R n : queue_ok s (h :: R) -> next_of s h = Some n -> exists R', R = n :: R'.
Proof.
  intros H Hn. destruct R as [|y R].
  - pose proof (qo_end _ _ H h eq_refl). congruence.
  - destruct (qo_link _ _ H 0 h y eq_refl eq_refl) as [E|[E _]]; [|congruence]. exists R. congruence.
Qed.

(** Taking the last node: the tail becomes NULL. *)
Lemma take_ok s h : queue_ok s [h] -> consumer s = CTail h -> queue_ok (set_consumer (clear_tail s) (CDrop h)) [].
Proof.
  intros H Hc. pose proof H as []. unfold consumer_ok in qo_consumer0. rewrite Hc in qo_consumer0. destruct qo_consumer0 as [Eh _].
  assert (hand s = []) as Hh by (unfold hand; by rewrite Hc). rewrite Hh in *.
  split; try done.
  - intros i a b Hi. by destruct (qo_plink0 i a b Hi) as (_ & [|k] & Ha & Hb).
  - right. by exists h.
  - intros i n Hi. exfalso. destruct (qo_phead0 i n Hi) as ([E|(x & E & _)] & _); congruence.
Qed.

(** Advancing the head past a node whose successor is set. *)
Lemma advance_ok s h n R :
  queue_ok s (h :: n :: R) -> consumer s = CStore h n -> queue_ok (return_node (set_head s (Some n)) h) (n :: R).
Proof.
  intros H Hc. pose proof H as []. unfold consumer_ok in qo_consumer0. rewrite Hc in qo_consumer0. destruct qo_consumer0 as (Eh & En & _).
  assert (hand s = []) as Hh by (unfold hand; by rewrite Hc). rewrite Hh in *. cbn [app] in *.
  split; try done; cbn.
  - by rewrite qo_history0, <- !app_assoc.
  - by apply NoDup_cons in qo_apart0 as [_ ?].
  - intros i p m Hi Hp Hm. eapply qo_starting0; [done..|]. by right.
  - intros k a b Ha Hb. apply (qo_link0 (S k) a b Ha Hb).
  - intros i a b Hi. destruct (qo_plink0 i a b Hi) as (E & [|k] & Ha & Hb); [cbn in Ha; congruence|]. split; [done|]. by exists k.
  - by left.
  - intros i m Hi. exfalso. destruct (qo_phead0 i m Hi) as ([E|(x & E & _)] & _); congruence.
Qed.

(** Returning the node taken last: the head becomes NULL unless a push has
    already set it. *)
Lemma drop_ok s h R :
  queue_ok s R -> consumer s = CDrop h -> queue_ok (return_node (if decide (head s = Some h) then set_head s None else s) h) R.
Proof.
  intros H Hc. pose proof H as []. assert (hand s = [h]) as Hh by (unfold hand; by rewrite Hc). rewrite Hh in *. cbn [app] in *.
  set (s' := if decide _ then _ else _).
  assert (stale s -> head s' = None) as Hst.
  { unfold s'. intros Hs. case_decide as E; [done|]. destruct Hs as [?|(x & Ex & Hx)]; [done|]. congruence. }
  assert (forall x, x <> h -> head s = Some x -> head s' = Some x) as Hkeep by (unfold s'; intros x Hx E; case_decide; [congruence|done]).
  assert (next s' = next s /\ tail s' = tail s /\ producers s' = producers s /\ pushed s' = pushed s /\ popped s' = popped s) as (E1 & E2 & E3 & E4 & E5)
    by (unfold s'; by case_decide).
  apply NoDup_cons in qo_apart0 as [Hnh Hnd].
  split; unfold next_of in *; cbn; rewrite ?E1, ?E2, ?E3, ?E4, ?E5; try done.
  - by rewrite qo_history0, <- !app_assoc.
  - intros i p m Hi Hp Hm. eapply qo_starting0; [done..|]. by right.
  - destruct R as [|x R]; [left; by apply Hst|]. destruct qo_head0 as [E|(Hs & j & Hj)].
    + left. apply Hkeep; [|done]. intros ->. apply Hnh. by left.
    + right. split; [left; by apply Hst|by exists j].
  - intros i m Hi. destruct (qo_phead0 i m Hi) as (Hs & HR). split; [left; by apply Hst|done].
Qed.

Lemma mpsc_pop_ok s R : queue_ok s R -> exists R', queue_ok (xMpscPop s) R'.
Proof.
  intros H. pose proof (qo_consumer _ _ H) as Hc. unfold consumer_ok in Hc. unfold xMpscPop. destruct (consumer s) as [| |h|h|h|h n|h] eqn:Ec.
  - exists R. apply consumer_moves; try done. unfold hand. by rewrite Ec.
  - exists R. apply consumer_moves; [done|unfold hand; by rewrite Ec|unfold hand; cbn; by destruct (head s)|].
    unfold consumer_ok. cbn. destruct (head s) as [h|] eqn:Eh; [|done]. split; [done|].
    pose proof (qo_head _ _ H) as Hh. assert (~ stale s) as Hns by (intros [?|(x & ? & ?)]; congruence).
    destruct R as [|x R]; [done|]. destruct Hh as [E|[? _]]; [|done]. exists R. congruence.
  - destruct Hc as (Eh & R' & ->). exists (h :: R'). apply consumer_moves; [done|unfold hand; by rewrite Ec|unfold hand; cbn; by destruct (next_of s h)|].
    unfold consumer_ok. cbn. destruct (next_of s h) as [n|] eqn:En; [|eauto]. destruct (next_queued _ _ _ _ H En) as (R'' & ->). eauto.
  - destruct Hc as (Eh & R' & ->). case_decide as Et.
    + exists []. apply take_ok; [|done]. destruct R' as [|y R']; [done|]. exfalso. rewrite (qo_tail _ _ H) in Et.
      rewrite last_lookup in Et. pose proof (place_unique _ _ 0 _ h H eq_refl Et). done.
    + exists (h :: R'). apply consumer_moves; [done|unfold hand; by rewrite Ec|done|]. unfold consumer_ok. cbn. split; [done|].
      destruct R' as [|y R']; [|eauto]. by rewrite (qo_tail _ _ H) in Et.
  - destruct Hc as (Eh & y & R' & ->). exists (h :: y :: R'). destruct (next_of s h) as [n|] eqn:En; [|done].
    apply consumer_moves; [done|unfold hand; by rewrite Ec|done|]. unfold consumer_ok. cbn.
    destruct (next_queued _ _ _ _ H En) as (R'' & [= -> ->]). eauto.
  - destruct Hc as (Eh & En & R' & ->). eexists. by apply advance_ok.
  - eexists. by apply drop_ok.
Qed.

Lemma mpsc_step_ok a s R s' : queue_ok s R -> step a s = Some s' -> exists R', queue_ok s' R'.
Proof.
  intros H. destruct a as [i n|i|n x|]; cbn [step].
  - destruct (producers s !! i) as [p|] eqn:Hi; [cbn [mbind option_bind]|done]. destruct p; try done. case_decide as Hf; [|done].
    intros [= <-]. destruct (free_apart _ _ _ H Hf) as [Hn Hfl]. exists R. apply (outside_ok _ _ _ PIdle); [done..|by left|by right| |done].
    intros m [= <-]. split; [done|]. intros j q _ Hj. by eapply Hfl.
  - destruct (producers s !! i) as [p|] eqn:Hi; [cbn [mbind option_bind]|done]. intros Hp. by eapply mpsc_push_ok.
  - case_decide as Hf; [|done]. intros [= <-]. destruct (free_apart _ _ _ H Hf) as [Hn Hfl]. exists R. apply write_ok; [done..|].
    intros i Hi. exfalso. by eapply Hfl.
  - intros [= <-]. by eapply mpsc_pop_ok.
Qed.

Lemma mpsc_run_ok tr s R s' : queue_ok s R -> run tr s = Some s' -> exists R', queue_ok s' R'.
Proof.
  revert s R. induction tr as [|a tr IH]; intros s R H; cbn [run]; [intros [= <-]; by exists R|].
  destruct (step a s) as [t|] eqn:Es; [cbn [mbind option_bind]|done]. destruct (mpsc_step_ok _ _ _ _ H Es) as (R' & H'). by eapply IH.
Qed.

Lemma idle_producer n i p : replicate n PIdle !! i = Some p -> p = PIdle.
Proof. by intros [-> _]%lookup_replicate. Qed.

Lemma mpsc_init_ok n : queue_ok (mpsc_init n) [].
Proof.
  assert (forall i p, producers (mpsc_init n) !! i = Some p -> p = PIdle) as Hidle by (intros i p; apply idle_producer).
  split; try done; try (intros i *; intros Hi; apply Hidle in Hi; subst; done); try by left.
Qed.

Lemma run_app tr tr' s : run (tr ++ tr') s = s' ← run tr s; run tr' s'.
Proof. revert s. induction tr as [|a tr IH]; intros s; [done|]. cbn. destruct (step a s); [apply IH|done]. Qed.

(** ** A consumer left to itself *)

Definition quiet (s : mpsc) : Prop := forall i p, producers s !! i = Some p -> p = PIdle.

(** With every push complete, the links are all there. *)
Lemma quiet_links s R k a b : queue_ok s R -> quiet s -> R !! k = Some a -> R !! S k = Some b -> next_of s a = Some b.
Proof. intros H Hq Ha Hb. by destruct (qo_link _ _ H k a b Ha Hb) as [?|(_ & i & Hi%Hq)]. Qed.

Lemma quiet_head s x R : queue_ok s (x :: R) -> quiet s -> head s = Some x.
Proof. intros H Hq. by destruct (qo_head _ _ H) as [?|(_ & i & Hi%Hq)]. Qed.

(** One call of [xMpscPop] then returns the first node, in four or five
    operations. *)
Lemma quiet_pop s x R : queue_ok s (x :: R) -> quiet s -> consumer s = CIdle ->
  exists k s', run (replicate k APop) s = Some s' /\ queue_ok s' R /\ quiet s' /\ consumer s' = CIdle /\
    popped s' = popped s ++ [x] /\ pushed s' = pushed s.
Proof.
  intros H Hq Hc. pose proof (quiet_head _ _ _ H Hq) as Hx. destruct R as [|y R].
  - assert (next_of s x = None) as Hn by by apply (qo_end _ _ H). assert (tail s = Some x) as Ht by apply (qo_tail _ _ H).
    exists 5, (return_node (set_head (set_consumer (clear_tail s) (CDrop x)) None) x).
    assert (run (replicate 4 APop) s = Some (set_consumer (clear_tail s) (CDrop x))) as E.
    { cbn. unfold xMpscPop. rewrite Hc. cbn. rewrite Hx. cbn. unfold next_of in *. cbn. rewrite Hn. cbn. rewrite decide_True by done. done. }
    split; [|split].
    + change (replicate 5 APop) with (replicate 4 APop ++ [APop]). rewrite run_app, E. cbn. by rewrite decide_True by done.
    + assert (queue_ok (set_consumer s (CTail x)) [x]) as HT.
      { apply consumer_moves; try done; [unfold hand; by rewrite Hc|]. unfold consumer_ok. cbn. eauto. }
      pose proof (drop_ok _ x _ (take_ok _ _ HT eq_refl) eq_refl) as HD. cbn in HD. rewrite decide_True in HD by done. exact HD.
    + done.
  - pose proof (quiet_links _ _ 0 x y H Hq eq_refl eq_refl) as Hn.
    exists 4, (return_node (set_head s (Some y)) x). split; [|split].
    + cbn. unfold xMpscPop. rewrite Hc. cbn. rewrite Hx. cbn. unfold next_of in *. cbn. rewrite Hn. done.
    + assert (queue_ok (set_consumer s (CStore x y)) (x :: y :: R)) as HS.
      { apply consumer_moves; try done; [unfold hand; by rewrite Hc|]. unfold consumer_ok. cbn. eauto. }
      by apply (advance_ok _ _ _ _ HS).
    + done.
Qed.

(** Called until the queue is empty, it returns every node that was pushed. *)
Lemma quiet_drain R s : queue_ok s R -> quiet s -> consumer s = CIdle ->
  exists k s', run (replicate k APop) s = Some s' /\ queue_ok s' [] /\ quiet s' /\ consumer s' = CIdle /\ popped s' = pushed s.
Proof.
  revert s. induction R as [|x R IH]; intros s H Hq Hc.
  - exists 0, s. split; [done|]. do 3 (split; [done|]). rewrite (qo_history _ _ H). unfold hand. rewrite Hc. by rewrite !app_nil_r.
  - destruct (quiet_pop s x R H Hq Hc) as (k & s1 & E & H1 & Hq1 & Hc1 & _ & Ep).
    destruct (IH s1 H1 Hq1 Hc1) as (k' & s2 & E' & H2 & Hq2 & Hc2 & Ep2).
    exists (k + k'), s2. rewrite replicate_add, run_app, E. cbn [mbind option_bind]. split; [exact E'|]. do 3 (split; [done|]). by rewrite Ep2.
Qed.

Lemma quiet_empty s : queue_ok s [] -> consumer s = CIdle -> head s = None /\ tail s = None.
Proof.
  intros H Hc. split; [|apply (qo_tail _ _ H)]. destruct (qo_head _ _ H) as [?|(h & E & _)]; [done|]. congruence.
Qed.

Definition quiet_b (s : mpsc) : bool := forallb (fun p => match p with PIdle => true | _ => false end) (producers s).

Lemma quiet_b_ok s : quiet_b s = true -> quiet s.
Proof. unfold quiet_b. rewrite forallb_forall. intros H i p Hi%list_elem_of_lookup_2%list_elem_of_In%H. by destruct p. Qed.

(** C20: however the pushes of any number of producers and the pops of one
    consumer interleave, and however nodes are reused once returned, the nodes
    come out in the order in which the pushes exchanged the tail: the history
    of pushes is the history of pops followed by the nodes still queued, no
    node twice.  The head is NULL only if nothing is queued or the push of the
    first queued node is not complete, a spinning consumer waits only for a
    push in progress, and once every push is complete the consumer empties the
    queue by itself, leaving both pointers NULL. *)
Theorem mpsc_fifo n tr s :
  run tr (mpsc_init n) = Some s ->
  (exists queued, pushed s = popped s ++ hand s ++ queued /\ NoDup (hand s ++ queued) /\
    (xMpscEmpty s = true -> queued = [] \/ exists i x q, queued = x :: q /\ producers s !! i = Some (PHead x))) /\
  (forall h, consumer s = CSpin h -> next_of s h <> None \/ exists i x, producers s !! i = Some (PLink h x)) /\
  (quiet_b s = true -> consumer s = CIdle -> exists k s',
    run (replicate k APop) s = Some s' /\ popped s' = pushed s /\ consumer s' = CIdle /\ head s' = None /\ tail s' = None).
Proof.
  intros Hr. destruct (mpsc_run_ok _ _ _ _ (mpsc_init_ok n) Hr) as (R & H). split; [|split].
  - exists R. split; [apply H|]. split; [apply H|]. unfold xMpscEmpty. intros Hh%bool_decide_eq_true. pose proof (qo_head _ _ H) as Hq.
    destruct R as [|x R]; [by left|]. destruct Hq as [?|(_ & i & Hi)]; [congruence|]. right. by exists i, x, R.
  - intros h Hc. pose proof (qo_consumer _ _ H) as Ho. unfold consumer_ok in Ho. rewrite Hc in Ho. destruct Ho as (_ & y & R' & ->).
    destruct (qo_link _ _ H 0 h y eq_refl eq_refl) as [E|(_ & i & Hi)]; [left; by rewrite E|]. right. by exists i, y.
  - intros Hq%quiet_b_ok Hc. destruct (quiet_drain R s H Hq Hc) as (k & s' & E & H' & _ & Hc' & Ep). exists k, s'.
    split; [done|]. split; [done|]. split; [done|]. by apply quiet_empty.
Qed.

Definition two_pushes : list act := [ACall 0 1%positive; APush 0; APush 0; ACall 1 2%positive; APush 1; APush 1; APush 1].

Lemma mpsc_fifo_witness :
  exists s, run (two_pushes ++ [APush 0; APop; APop; APop; APop]) (mpsc_init 2) = Some s /\
    popped s = [1%positive] /\ pushed s = [1; 2]%positive /\
    exists queued, pushed s = popped s ++ hand s ++ queued.
Proof.
  destruct (run (two_pushes ++ [APush 0; APop; APop; APop; APop]) (mpsc_init 2)) as [s|] eqn:E; [|by vm_compute in E].
  exists s. split; [done|]. pose proof (mpsc_fifo 2 _ s E) as ((queued & Hp & _) & _ & _).
  assert (popped s = [1%positive] /\ pushed s = [1; 2]%positive) as [E1 E2].
  { assert (option_map popped (Some s) = Some [1%positive] /\ option_map pushed (Some s) = Some [1; 2]%positive) as [A B] by (rewrite <- E; by vm_compute).
    by injection A; injection B. }
  split; [done|]. split; [done|]. by exists queued.
Defined.

(** The queue reports empty, and a pop returns NULL, although the push of node
    2 has returned: the producer that was first has not stored the head. *)
Example mpsc_empty_after_push :
  option_map (fun s => (xMpscEmpty s, consumer s, popped s, producers s)) (run (two_pushes ++ [APop; APop]) (mpsc_init 2))
  = Some (true, CIdle, [], [PHead 1%positive; PIdle]).
Proof. by vm_compute. Qed.
