(* ===== verification/Event.v ===== *)
(** * Event: the event loop ([libx/x/base/event_timer.c], [event_run.c],
    [event_post.c], [event_private.c])

    One loop, current in its thread, over the epoll back end.  A user callback
    is a tree of the API calls it makes, [prog]; what it does may depend on
    their results and on a user state of any type.  The environment decides
    which allocations and registrations succeed, what the clock shows, and
    what each wait in the kernel brings: ready descriptors, signals, and the
    callbacks other threads post meanwhile.  Work offloaded to a task group is
    not part of the model.  [log] records the callbacks invoked; the code has
    no such variable. *)

From S2P Require Import Prelude Errno Heap.

Definition TIMER_POOL_MAX : nat := 256.
Definition EVENT_DONE_BATCH_MAX : nat := 16.
Definition X_EVENT_IO_BATCH_MAX : nat := 64.
Definition X_SIGNAL_MAX : Z := 64.
Definition xEvent_LevelTriggered : Z := 8.
Definition INT_MAX : Z := 2 ^ 31 - 1.

(** [heap_idx] is where the heap records it; [next_free] and [ready_node] are
    the lists the timer is on. *)
Record xTimer_ := Timer {
  deadline : Z;
  fn : nat;
  arg : nat;
  on_cancel : option nat;
  fired : bool;
  repeat_ms : Z;
}.

Record xEventSource_ := Source { s_fd : Z; s_mask : Z; s_fn : nat; s_arg : nat; deleted : bool; level_triggered : bool }.

(** A posted callback: the user's, or [timer_stop_post] with its context. *)
Inductive xWork_ := WPost (fn arg : nat) | WStop (t : Z).

(** The callbacks the loop invokes. *)
Inductive call :=
| CTimer (fn arg : nat)
| CCancel (fn arg : nat)
| CEvent (fn : nat) (fd mask : Z) (arg : nat)
| CPost (fn arg : nat)
| CSignal (fn : nat) (signo : Z) (arg : nat).

(** What a callback does; a timer is its address, 0 for NULL, a source the
    number of its allocation. *)
Inductive prog (U : Type) :=
| Done (u : U)
| TimerStart (fn : option nat) (arg : nat) (on_cancel : option nat) (timeout_ms repeat_ms : Z) (k : Z -> prog U)
| TimerStop (t : Z) (k : xErrno -> prog U)
| EventAdd (fd mask : Z) (fn : option nat) (arg : nat) (k : option nat -> prog U)
| EventMod (src : option nat) (mask : Z) (k : xErrno -> prog U)
| EventDel (src : option nat) (k : xErrno -> prog U)
| Post (fn : option nat) (arg : nat) (k : xErrno -> prog U)
| Signal (signo : Z) (fn : option nat) (arg : nat) (k : xErrno -> prog U)
| LoopStop (k : unit -> prog U).
Arguments Done {U} u.
Arguments TimerStart {U} fn arg on_cancel timeout_ms repeat_ms k.
Arguments TimerStop {U} t k.
Arguments EventAdd {U} fd mask fn arg k.
Arguments EventMod {U} src mask k.
Arguments EventDel {U} src k.
Arguments Post {U} fn arg k.
Arguments Signal {U} signo fn arg k.
Arguments LoopStop {U} k.

(** What the kernel reports beside the wake descriptor. *)
Inductive kevent := KSignal (signo : Z) | KFd (src : nat) (mask : Z).

Inductive xPollEvent_ := PWake | PSignal (signo : Z) | PFd (src : nat) (mask : Z).

(** A wait in the kernel: what other threads post while it lasts, and what it
    returns. *)
Record wait := Wait { posted : list xWork_; ready : list kevent }.

Record env := Env {
  mono : nat -> Z;              (* the clock at its n-th reading *)
  alloc : nat -> bool;          (* the n-th allocation *)
  syscall : nat -> bool;        (* the n-th registration *)
  kernel : nat -> wait;         (* the n-th wait *)
}.

Record xEventLoop_ {U : Type} := Loop {
  timers : gmap Z xTimer_;      (* the structs allocated *)
  timer_heap : xHeap_;
  timer_free_ : list Z;
  timer_nfree : nat;
  items : list nat;             (* sources.items *)
  sources_cap : nat;
  sources : gmap nat xEventSource_;
  active_handles : Z;
  time : Z;
  stopped : bool;
  done : list xWork_;           (* the MPSC queue *)
  work_freelist : nat;          (* how many are on it *)
  wake_pending : bool;
  wake_signalled : bool;        (* the counter of the event descriptor *)
  signal_watches : gmap Z (nat * nat);
  fresh : nat;                  (* addresses given out *)
  n_alloc : nat;
  n_mono : nat;
  n_sys : nat;
  n_wait : nat;
  log : list call;
  user : U;
}.
Arguments xEventLoop_ U : clear implicits.
Arguments Loop {U}.

Section loop.
Context {U : Type}.
Implicit Types (w : xEventLoop_ U).

(** ** Setting the fields *)

Definition set_timers w (x : gmap Z xTimer_) : xEventLoop_ U :=
  Loop
    x (timer_heap w) (timer_free_ w) (timer_nfree w) (items w) (sources_cap w) (sources w) (active_handles w) (time w) (stopped w) (done w) (work_freelist w)
    (wake_pending w) (wake_signalled w) (signal_watches w) (fresh w) (n_alloc w) (n_mono w) (n_sys w) (n_wait w) (log w) (user w).
Definition set_timer_heap w (x : xHeap_) : xEventLoop_ U :=
  Loop
    (timers w) x (timer_free_ w) (timer_nfree w) (items w) (sources_cap w) (sources w) (active_handles w) (time w) (stopped w) (done w) (work_freelist w) (wake_pending
    w) (wake_signalled w) (signal_watches w) (fresh w) (n_alloc w) (n_mono w) (n_sys w) (n_wait w) (log w) (user w).
Definition set_pool w (x : list Z) (n : nat) : xEventLoop_ U :=
  Loop
    (timers w) (timer_heap w) x n (items w) (sources_cap w) (sources w) (active_handles w) (time w) (stopped w) (done w) (work_freelist w) (wake_pending w)
    (wake_signalled w) (signal_watches w) (fresh w) (n_alloc w) (n_mono w) (n_sys w) (n_wait w) (log w) (user w).
Definition set_items w (x : list nat) : xEventLoop_ U :=
  Loop
    (timers w) (timer_heap w) (timer_free_ w) (timer_nfree w) x (sources_cap w) (sources w) (active_handles w) (time w) (stopped w) (done w) (work_freelist w)
    (wake_pending w) (wake_signalled w) (signal_watches w) (fresh w) (n_alloc w) (n_mono w) (n_sys w) (n_wait w) (log w) (user w).
Definition set_cap w (n : nat) : xEventLoop_ U :=
  Loop
    (timers w) (timer_heap w) (timer_free_ w) (timer_nfree w) (items w) n (sources w) (active_handles w) (time w) (stopped w) (done w) (work_freelist w) (wake_pending
    w) (wake_signalled w) (signal_watches w) (fresh w) (n_alloc w) (n_mono w) (n_sys w) (n_wait w) (log w) (user w).
Definition set_sources w (x : gmap nat xEventSource_) : xEventLoop_ U :=
  Loop
    (timers w) (timer_heap w) (timer_free_ w) (timer_nfree w) (items w) (sources_cap w) x (active_handles w) (time w) (stopped w) (done w) (work_freelist w)
    (wake_pending w) (wake_signalled w) (signal_watches w) (fresh w) (n_alloc w) (n_mono w) (n_sys w) (n_wait w) (log w) (user w).
Definition set_active w (n : Z) : xEventLoop_ U :=
  Loop
    (timers w) (timer_heap w) (timer_free_ w) (timer_nfree w) (items w) (sources_cap w) (sources w) n (time w) (stopped w) (done w) (work_freelist w) (wake_pending w)
    (wake_signalled w) (signal_watches w) (fresh w) (n_alloc w) (n_mono w) (n_sys w) (n_wait w) (log w) (user w).
Definition set_time w (n : Z) : xEventLoop_ U :=
  Loop
    (timers w) (timer_heap w) (timer_free_ w) (timer_nfree w) (items w) (sources_cap w) (sources w) (active_handles w) n (stopped w) (done w) (work_freelist w)
    (wake_pending w) (wake_signalled w) (signal_watches w) (fresh w) (n_alloc w) (n_mono w) (n_sys w) (n_wait w) (log w) (user w).
Definition set_stopped w (b : bool) : xEventLoop_ U :=
  Loop
    (timers w) (timer_heap w) (timer_free_ w) (timer_nfree w) (items w) (sources_cap w) (sources w) (active_handles w) (time w) b (done w) (work_freelist w)
    (wake_pending w) (wake_signalled w) (signal_watches w) (fresh w) (n_alloc w) (n_mono w) (n_sys w) (n_wait w) (log w) (user w).
Definition set_done w (x : list xWork_) : xEventLoop_ U :=
  Loop
    (timers w) (timer_heap w) (timer_free_ w) (timer_nfree w) (items w) (sources_cap w) (sources w) (active_handles w) (time w) (stopped w) x (work_freelist w)
    (wake_pending w) (wake_signalled w) (signal_watches w) (fresh w) (n_alloc w) (n_mono w) (n_sys w) (n_wait w) (log w) (user w).
Definition set_works w (n : nat) : xEventLoop_ U :=
  Loop
    (timers w) (timer_heap w) (timer_free_ w) (timer_nfree w) (items w) (sources_cap w) (sources w) (active_handles w) (time w) (stopped w) (done w) n
    (wake_pending w) (wake_signalled w) (signal_watches w) (fresh w) (n_alloc w) (n_mono w) (n_sys w) (n_wait w) (log w) (user w).
Definition set_wake w (p s : bool) : xEventLoop_ U :=
  Loop
    (timers w) (timer_heap w) (timer_free_ w) (timer_nfree w) (items w) (sources_cap w) (sources w) (active_handles w) (time w) (stopped w) (done w) (work_freelist w) p
    s (signal_watches w) (fresh w) (n_alloc w) (n_mono w) (n_sys w) (n_wait w) (log w) (user w).
Definition set_watches w (x : gmap Z (nat * nat)) : xEventLoop_ U :=
  Loop
    (timers w) (timer_heap w) (timer_free_ w) (timer_nfree w) (items w) (sources_cap w) (sources w) (active_handles w) (time w) (stopped w) (done w) (work_freelist w)
    (wake_pending w) (wake_signalled w) x (fresh w) (n_alloc w) (n_mono w) (n_sys w) (n_wait w) (log w) (user w).
Definition set_user w (u : U) : xEventLoop_ U :=
  Loop
    (timers w) (timer_heap w) (timer_free_ w) (timer_nfree w) (items w) (sources_cap w) (sources w) (active_handles w) (time w) (stopped w) (done w) (work_freelist w)
    (wake_pending w) (wake_signalled w) (signal_watches w) (fresh w) (n_alloc w) (n_mono w) (n_sys w) (n_wait w) (log w) u.
Definition log_call w (c : call) : xEventLoop_ U :=
  Loop
    (timers w) (timer_heap w) (timer_free_ w) (timer_nfree w) (items w) (sources_cap w) (sources w) (active_handles w) (time w) (stopped w) (done w) (work_freelist w)
    (wake_pending w) (wake_signalled w) (signal_watches w) (fresh w) (n_alloc w) (n_mono w) (n_sys w) (n_wait w) (log w ++ [c]) (user w).
Definition count_fresh w : xEventLoop_ U :=
  Loop
    (timers w) (timer_heap w) (timer_free_ w) (timer_nfree w) (items w) (sources_cap w) (sources w) (active_handles w) (time w) (stopped w) (done w) (work_freelist w)
    (wake_pending w) (wake_signalled w) (signal_watches w) (S (fresh w)) (n_alloc w) (n_mono w) (n_sys w) (n_wait w) (log w) (user w).
Definition count_alloc w : xEventLoop_ U :=
  Loop
    (timers w) (timer_heap w) (timer_free_ w) (timer_nfree w) (items w) (sources_cap w) (sources w) (active_handles w) (time w) (stopped w) (done w) (work_freelist w)
    (wake_pending w) (wake_signalled w) (signal_watches w) (fresh w) (S (n_alloc w)) (n_mono w) (n_sys w) (n_wait w) (log w) (user w).
Definition count_mono w : xEventLoop_ U :=
  Loop
    (timers w) (timer_heap w) (timer_free_ w) (timer_nfree w) (items w) (sources_cap w) (sources w) (active_handles w) (time w) (stopped w) (done w) (work_freelist w)
    (wake_pending w) (wake_signalled w) (signal_watches w) (fresh w) (n_alloc w) (S (n_mono w)) (n_sys w) (n_wait w) (log w) (user w).
Definition count_sys w : xEventLoop_ U :=
  Loop
    (timers w) (timer_heap w) (timer_free_ w) (timer_nfree w) (items w) (sources_cap w) (sources w) (active_handles w) (time w) (stopped w) (done w) (work_freelist w)
    (wake_pending w) (wake_signalled w) (signal_watches w) (fresh w) (n_alloc w) (n_mono w) (S (n_sys w)) (n_wait w) (log w) (user w).
Definition count_wait w : xEventLoop_ U :=
  Loop
    (timers w) (timer_heap w) (timer_free_ w) (timer_nfree w) (items w) (sources_cap w) (sources w) (active_handles w) (time w) (stopped w) (done w) (work_freelist w)
    (wake_pending w) (wake_signalled w) (signal_watches w) (fresh w) (n_alloc w) (n_mono w) (n_sys w) (S (n_wait w)) (log w) (user w).

(** ** Timers *)

Variable e : env.

Definition deadline_of w (t : Z) : Z := match timers w !! t with Some tm => deadline tm | None => 0%Z end.

Definition timer_cmp w (a b : Z) : Z :=
  if (deadline_of w a <? deadline_of w b)%Z then -1 else if (deadline_of w b <? deadline_of w a)%Z then 1 else 0.

(** [heap_idx], [TIMER_INVALID_IDX] being [None] *)
Definition heap_idx w (t : Z) : option nat := idx (timer_heap w) !! t.

Definition invalidate_idx w (t : Z) : xEventLoop_ U :=
  let h := timer_heap w in set_timer_heap w (mkHeap (data h) (size h) (cap h) (delete t (idx h))).

Definition timer_alloc w : option Z * xEventLoop_ U :=
  match timer_free_ w with
  | t :: free => (Some t, set_pool w free (timer_nfree w - 1))
  | [] =>
      let w' := count_alloc w in
      if alloc e (n_alloc w) then (Some (Z.of_nat (S (fresh w))), count_fresh w') else (None, w')
  end.

(** [memset] and the fields [submit_timer] sets *)
Definition put_timer w (t : Z) (tm : xTimer_) : xEventLoop_ U := set_timers w (<[t := tm]> (timers w)).

Definition timer_free w (t : Z) : xEventLoop_ U :=
  let w := set_active w (active_handles w - 1) in
  if decide (timer_nfree w < TIMER_POOL_MAX) then set_pool w (t :: timer_free_ w) (S (timer_nfree w))
  else set_timers w (delete t (timers w)).

(** A push of the heap; [realloc] is one allocation. *)
Definition heap_push w (t : Z) : ub (xErrno * xEventLoop_ U) :=
  r ← xHeapPush (timer_cmp w) (fun _ => alloc e (n_alloc w)) (Some (timer_heap w)) t;
  h ← r.2;
  Some (r.1, count_alloc (set_timer_heap w h)).

(** [loop_coalesced_wake] and the back end's [wake] *)
Definition xEventLoopWake w : xEventLoop_ U := if wake_pending w then w else set_wake w true true.

Definition submit_timer (fn_ : option nat) (arg_ : nat) (on_cancel_ : option nat) (abs_ms repeat : Z) w : ub (Z * xEventLoop_ U) :=
  match fn_ with
  | None => Some (0%Z, w)
  | Some f =>
      match timer_alloc w with
      | (None, w) => Some (0%Z, w)
      | (Some t, w) =>
          let w := invalidate_idx (put_timer w t (Timer abs_ms f arg_ on_cancel_ false repeat)) t in
          let w := set_active w (active_handles w + 1) in
          r ← heap_push w t;
          let '(err, w) := r : xErrno * xEventLoop_ U in
          if decide (err <> xErrno_Ok) then Some (0%Z, timer_free w t) else Some (t, xEventLoopWake w)
      end
  end.

Definition xMonoMs w : Z * xEventLoop_ U := (mono e (n_mono w), count_mono w).

Definition xTimerStart (fn_ : option nat) (arg_ : nat) (on_cancel_ : option nat) (timeout_ms repeat : Z) w : ub (Z * xEventLoop_ U) :=
  let '(now, w) := xMonoMs w in submit_timer fn_ arg_ on_cancel_ (u64 (now + timeout_ms)) repeat w.

Definition timer_stop_direct (t : Z) w : ub (xErrno * xEventLoop_ U) :=
  if decide (t = 0%Z) then Some (xErrno_InvalidArg, w) else
  tm ← timers w !! t;
  match heap_idx w t with
  | Some i =>
      if fired tm then Some (xErrno_InvalidState, w) else
      r ← xHeapRemove (timer_cmp w) (Some (timer_heap w)) i;
      h ← r.2;
      Some (xErrno_Ok, timer_free (invalidate_idx (set_timer_heap w h) t) t)
  | None => Some (xErrno_InvalidState, w)
  end.

(** ** Sources *)

Definition source_array_add (fd mask : Z) (f arg_ : nat) w : option nat * xEventLoop_ U :=
  let '(ok, w) :=
    if decide (length (items w) = sources_cap w) then
      let w' := count_alloc w in
      if alloc e (n_alloc w) then (true, set_cap w' (if decide (sources_cap w = 0) then 16 else sources_cap w * 2)) else (false, w')
    else (true, w) in
  if ok : bool then
    let w' := count_alloc w in
    if alloc e (n_alloc w) then
      let src := fresh w in
      (Some src, set_items (set_sources (count_fresh w') (<[src := Source fd mask f arg_ false false]> (sources w))) (items w ++ [src]))
    else (None, w')
  else (None, w).

Definition put_source w (src : nat) (s : xEventSource_) : xEventLoop_ U := set_sources w (<[src := s]> (sources w)).

Definition source_array_remove (src : nat) w : ub (xEventLoop_ U) :=
  s ← sources w !! src;
  Some (put_source w src (Source (s_fd s) (s_mask s) (s_fn s) (s_arg s) true (level_triggered s))).

(** The back end's registration of a descriptor *)
Definition backend w : bool * xEventLoop_ U := (syscall e (n_sys w), count_sys w).

Definition xEventAdd (fd mask : Z) (f : option nat) (arg_ : nat) w : ub (option nat * xEventLoop_ U) :=
  match f with
  | None => Some (None, w)
  | Some f =>
      let lt := negb (Z.land mask xEvent_LevelTriggered =? 0)%Z in
      let mask := Z.land mask (Z.lnot xEvent_LevelTriggered) in
      match source_array_add fd mask f arg_ w with
      | (None, w) => Some (None, w)
      | (Some src, w) =>
          let w := put_source w src (Source fd mask f arg_ false lt) in
          let '(ok, w) := backend w in
          if ok : bool then Some (Some src, set_active w (active_handles w + 1))
          else w ← source_array_remove src w; Some (None, w)
      end
  end.

Definition xEventMod (src : option nat) (mask : Z) w : ub (xErrno * xEventLoop_ U) :=
  match src with
  | None => Some (xErrno_InvalidArg, w)
  | Some src =>
      let mask := Z.land mask (Z.lnot xEvent_LevelTriggered) in
      s ← sources w !! src;
      let '(ok, w) := backend w in
      if ok : bool then Some (xErrno_Ok, put_source w src (Source (s_fd s) mask (s_fn s) (s_arg s) (deleted s) (level_triggered s)))
      else Some (xErrno_SysError, w)
  end.

Definition xEventDel (src : option nat) w : ub (xErrno * xEventLoop_ U) :=
  match src with
  | None => Some (xErrno_InvalidArg, w)
  | Some src =>
      let w := set_active w (active_handles w - 1) in
      w ← source_array_remove src w;
      Some (xErrno_Ok, w)
  end.

(** The sources removed are freed; the last item takes the place of each. *)
Fixpoint sweep_loop (fuel i : nat) w : ub (xEventLoop_ U) :=
  match fuel with
  | O => None
  | S fuel =>
      match items w !! i with
      | None => Some w
      | Some src =>
          s ← sources w !! src;
          if deleted s then
            last ← items w !! (length (items w) - 1);
            sweep_loop fuel i (set_items (set_sources w (delete src (sources w))) (take (length (items w) - 1) (<[i := last]> (items w))))
          else sweep_loop fuel (S i) w
      end
  end.
Definition source_array_sweep w : ub (xEventLoop_ U) := sweep_loop (S (length (items w))) 0 w.

(** ** Posting, signals, stopping *)

(** The queue and the wake, as any thread does them *)
Definition enqueue (x : xWork_) w : xEventLoop_ U := xEventLoopWake (set_done w (done w ++ [x])).

(** Work items are recycled. *)
Definition event_work_alloc w : bool * xEventLoop_ U :=
  match work_freelist w with
  | S n => (true, set_works w n)
  | O => (alloc e (n_alloc w), count_alloc w)
  end.
Definition event_work_free w : xEventLoop_ U := set_works w (S (work_freelist w)).

Definition xEventLoopPost (f : option nat) (arg_ : nat) w : xErrno * xEventLoop_ U :=
  match f with
  | None => (xErrno_InvalidArg, w)
  | Some f =>
      let '(ok, w) := event_work_alloc w in
      if ok : bool then (xErrno_Ok, enqueue (WPost f arg_) w) else (xErrno_NoMemory, w)
  end.

Definition SIGKILL : Z := 9.
Definition SIGSTOP : Z := 19.

Definition xSignal (signo : Z) (f : option nat) (arg_ : nat) w : xErrno * xEventLoop_ U :=
  if (signo <? 1)%Z || (X_SIGNAL_MAX <=? signo)%Z || (signo =? SIGKILL)%Z || (signo =? SIGSTOP)%Z then (xErrno_InvalidArg, w) else
  let old := signal_watches w !! signo in
  match f with
  | Some f =>
      let w := set_watches w (<[signo := (f, arg_)]> (signal_watches w)) in
      match old with
      | None =>
          let '(ok, w) := backend w in
          if ok : bool then (xErrno_Ok, w) else (xErrno_SysError, set_watches w (delete signo (signal_watches w)))
      | Some _ => (xErrno_Ok, w)
      end
  | None =>
      match old with
      | None => (xErrno_Ok, w)
      | Some _ => let '(_, w) := backend w in (xErrno_Ok, set_watches w (delete signo (signal_watches w)))
      end
  end.

Definition xEventLoopStop w : xEventLoop_ U := set_wake (set_stopped w true) (wake_pending w) true.

(** ** Callbacks *)

Variable code : call -> U -> prog U.

Fixpoint run_prog (p : prog U) w : ub (xEventLoop_ U) :=
  match p with
  | Done u => Some (set_user w u)
  | TimerStart f a c timeout repeat k => r ← xTimerStart f a c timeout repeat w; run_prog (k r.1) r.2
  | TimerStop t k => r ← timer_stop_direct t w; run_prog (k r.1) r.2
  | EventAdd fd mask f a k => r ← xEventAdd fd mask f a w; run_prog (k r.1) r.2
  | EventMod src mask k => r ← xEventMod src mask w; run_prog (k r.1) r.2
  | EventDel src k => r ← xEventDel src w; run_prog (k r.1) r.2
  | Post f a k => let r := xEventLoopPost f a w in run_prog (k r.1) r.2
  | Signal signo f a k => let r := xSignal signo f a w in run_prog (k r.1) r.2
  | LoopStop k => run_prog (k tt) (xEventLoopStop w)
  end.

Definition dispatch (c : call) w : ub (xEventLoop_ U) := run_prog (code c (user w)) (log_call w c).

(** ** An iteration *)

(** The expired timers leave the heap for the ready list. *)
Fixpoint pop_expired (fuel : nat) (now : Z) w : ub (list Z * xEventLoop_ U) :=
  match fuel with
  | O => None
  | S fuel =>
      if decide (xHeapSize (Some (timer_heap w)) = 0) then Some ([], w) else
      t ← xHeapPeek (Some (timer_heap w));
      tm ← timers w !! t;
      if (now <? deadline tm)%Z then Some ([], w) else
      r ← xHeapPop (timer_cmp w) (Some (timer_heap w));
      h ← r.2;
      let w := put_timer (set_timer_heap w h) t (Timer (deadline tm) (fn tm) (arg tm) (on_cancel tm) true (repeat_ms tm)) in
      r ← pop_expired fuel now (invalidate_idx w t);
      Some (t :: r.1, r.2)
  end.

(** A ready timer is armed again or recycled, then its callback runs.  The
    result of the push is not looked at. *)
Definition fire (t : Z) w : ub (xEventLoop_ U) :=
  tm ← timers w !! t;
  w ← (if decide (0 < repeat_ms tm /\ heap_idx w t = None)%Z then
         let tm := Timer (u64 (deadline tm + repeat_ms tm)) (fn tm) (arg tm) (on_cancel tm) false (repeat_ms tm) in
         r ← heap_push (put_timer w t tm) t; Some r.2
       else if decide (heap_idx w t = None) then Some (timer_free w t)
       else Some w);
  tm ← timers w !! t;
  dispatch (CTimer (fn tm) (arg tm)) w.

Fixpoint fire_all (ts : list Z) w : ub (xEventLoop_ U) :=
  match ts with
  | [] => Some w
  | t :: ts => w ← fire t w; fire_all ts w
  end.

Definition loop_run_timers w : ub (nat * xEventLoop_ U) :=
  r ← pop_expired (S (size (timer_heap w))) (time w) w;
  w ← fire_all r.1 r.2;
  Some (length r.1, w).

Definition run_work (x : xWork_) w : ub (xEventLoop_ U) :=
  match x with
  | WPost f a => dispatch (CPost f a) w
  | WStop t => r ← timer_stop_direct t w; Some r.2
  end.

Fixpoint loop_run_done (max_batch : nat) w : ub (nat * xEventLoop_ U) :=
  match max_batch with
  | O => Some (0, w)
  | S n =>
      match done w with
      | [] => Some (0, w)
      | x :: q =>
          w ← run_work x (set_done w q);
          r ← loop_run_done n (event_work_free w);
          Some (S r.1, r.2)
      end
  end.

(** Another thread's post has its item from the list or from the allocator. *)
Definition post_other w (x : xWork_) : xEventLoop_ U := enqueue x (set_works w (work_freelist w - 1)).

Fixpoint poll_events (evs : list kevent) w : ub (list xPollEvent_) :=
  match evs with
  | [] => Some []
  | KSignal signo :: evs => l ← poll_events evs w; Some (PSignal signo :: l)
  | KFd src mask :: evs =>
      s ← sources w !! src;
      l ← poll_events evs w;
      Some (if deleted s then l else PFd src mask :: l)
  end.

(** [ep_poll]; without a timeout and an event, the wait does not end, [None].
    The wake descriptor is reported first. *)
Definition poll (timeout_ms : Z) w : ub (option (list xPollEvent_) * xEventLoop_ U) :=
  let k := kernel e (n_wait w) in
  let w := fold_left post_other (posted k) (count_wait w) in
  if wake_signalled w then
    r ← loop_run_done EVENT_DONE_BATCH_MAX (set_wake w false false);
    l ← poll_events (take (X_EVENT_IO_BATCH_MAX - 1) (ready k)) r.2;
    Some (Some (PWake :: l), r.2)
  else
    l ← poll_events (take X_EVENT_IO_BATCH_MAX (ready k)) w;
    Some (if decide (ready k = [] /\ timeout_ms = -1)%Z then None else Some l, w).

Fixpoint dispatch_events (l : list xPollEvent_) w : ub (xEventLoop_ U) :=
  match l with
  | [] => Some w
  | PWake :: l => dispatch_events l w
  | PSignal signo :: l =>
      w ← (if (0 <? signo)%Z && (signo <? X_SIGNAL_MAX)%Z then
             match signal_watches w !! signo with
             | Some (f, a) => dispatch (CSignal f signo a) w
             | None => Some w
             end
           else Some w);
      dispatch_events l w
  | PFd src mask :: l =>
      s ← sources w !! src;
      w ← (if deleted s then Some w
           else dispatch (CEvent (s_fn s) (s_fd s) (Z.land mask (Z.lnot xEvent_LevelTriggered)) (s_arg s)) w);
      dispatch_events l w
  end.

(** Whether the wait ended *)
Definition loop_poll_and_dispatch (timeout_ms : Z) w : ub (bool * xEventLoop_ U) :=
  r ← poll timeout_ms w;
  match r.1 with
  | None => Some (false, r.2)
  | Some l => w ← dispatch_events l r.2; Some (true, w)
  end.

(** ** The run loop *)

Inductive mode := RunDefault | RunOnce | RunNowait.
#[global] Instance mode_eq_dec : EqDecision mode.
Proof. solve_decision. Defined.

(** A difference of unsigned 64-bit times as [int64_t], cut to [int] *)
Definition wait_ms (d now : Z) : Z :=
  let x := u64 (d - now) in
  let x := if (x <? 2 ^ 63)%Z then x else (x - 2 ^ 64)%Z in
  if (x <? 0)%Z then 0%Z else if (INT_MAX <? x)%Z then INT_MAX else x.

Definition loop_next_timeout (m : mode) (can_sleep : bool) w : ub Z :=
  if decide (m = RunNowait) then Some 0%Z
  else if decide (m = RunOnce /\ can_sleep = false) then Some 0%Z
  else
    top ← xHeapPeek (Some (timer_heap w));
    if decide (top = 0%Z) then Some (if decide (m = RunOnce) then 0%Z else (-1)%Z) else
    tm ← timers w !! top;
    Some (wait_ms (deadline tm) (time w)).

Definition loop_update_time w : xEventLoop_ U := let '(now, w) := xMonoMs w in set_time w now.

Definition loop_alive w : bool :=
  (0 <? active_handles w)%Z || (0 <? xHeapSize (Some (timer_heap w))) || negb (bool_decide (done w = [])).

Inductive outcome := Returned (alive : bool) | Blocked | Running.

(** The body of [while] in [xEventLoopRun]; [Blocked] is a wait that does not
    end. *)
Definition iteration (m : mode) w : ub (bool * xEventLoop_ U) :=
  let can_sleep := bool_decide (done w = []) in
  r ← loop_run_done EVENT_DONE_BATCH_MAX w;
  timeout ← loop_next_timeout m can_sleep r.2;
  r ← loop_poll_and_dispatch timeout r.2;
  if r.1 : bool then
    r ← loop_run_done EVENT_DONE_BATCH_MAX r.2;
    r ← loop_run_timers (loop_update_time r.2);
    w ← source_array_sweep r.2;
    Some (true, w)
  else Some (false, r.2).

Fixpoint run_loop (fuel : nat) (m : mode) (alive : bool) w : ub (outcome * xEventLoop_ U) :=
  if negb alive || stopped w then Some (Returned alive, set_stopped w false) else
  match fuel with
  | O => Some (Running, w)
  | S fuel =>
      r ← iteration m w;
      if r.1 : bool then
        let alive := loop_alive r.2 in
        if decide (m = RunDefault) then run_loop fuel m alive r.2 else Some (Returned alive, set_stopped r.2 false)
      else Some (Blocked, r.2)
  end.

Definition xEventLoopRun (fuel : nat) (m : mode) w : ub (outcome * xEventLoop_ U) :=
  let alive := loop_alive w in
  let w := if alive then w else loop_update_time w in
  w ← (if decide (m = RunDefault /\ alive = true /\ stopped w = false) then r ← loop_run_timers (loop_update_time w); Some r.2 else Some w);
  run_loop fuel m alive w.

Definition xEventLoopNextTimeout w : ub (Z * xEventLoop_ U) :=
  let w := loop_update_time w in
  top ← xHeapPeek (Some (timer_heap w));
  if decide (top = 0%Z) then Some ((-1)%Z, w) else
  tm ← timers w !! top;
  Some (wait_ms (deadline tm) (time w), w).

(** ** The end of the loop *)

(** [on_cancel] may not call the loop. *)
Definition cancel (tm : xTimer_) w : ub (xEventLoop_ U) :=
  match on_cancel tm with
  | None => Some w
  | Some f =>
      match code (CCancel f (arg tm)) (user w) with
      | Done u => Some (set_user (log_call w (CCancel f (arg tm))) u)
      | _ => None
      end
  end.

Fixpoint timer_heap_destroy (fuel : nat) w : ub (xEventLoop_ U) :=
  match fuel with
  | O => None
  | S fuel =>
      if decide (xHeapSize (Some (timer_heap w)) = 0) then Some w else
      r ← xHeapPop (timer_cmp w) (Some (timer_heap w));
      h ← r.2;
      let t := r.1 in
      tm ← timers w !! t;
      w ← cancel tm (set_timer_heap w h);
      timer_heap_destroy fuel (timer_free w t)
  end.

Definition timer_pool_destroy w : xEventLoop_ U :=
  set_pool (set_timers w (foldr delete (timers w) (timer_free_ w))) [] 0.

Definition source_array_free w : xEventLoop_ U :=
  set_cap (set_items (set_sources w (foldr delete (sources w) (items w))) []) 0.

(** The posts left are dropped with their work items. *)
Definition loop_cleanup_done w : xEventLoop_ U := set_works (set_done w []) 0.

Definition xEventLoopDestroy w : ub (xEventLoop_ U) :=
  w ← timer_heap_destroy (S (size (timer_heap w))) w;
  Some (source_array_free (loop_cleanup_done (timer_pool_destroy w))).
End loop.

(** [xEventLoopCreate], with the back end initialized *)
Definition xEventLoopCreate {U} (h : xHeap_) (u : U) : xEventLoop_ U :=
  Loop ∅ h [] 0 [] 0 ∅ 0 0 false [] 0 false false ∅ 0 0 0 0 0 [] u.

(** ** The current loop of a thread *)

(** Loops are numbered; the stack is what [Leave] restores. *)
Record tls := Tls { tl_loop : option nat; tl_loop_stack : list (option nat) }.

Definition X_LOOP_NEST_MAX : nat := 32.

Definition xEventLoopEnter (loop : option nat) (s : tls) : tls :=
  match loop with
  | None => s
  | Some l =>
      Tls (Some l) (if decide (length (tl_loop_stack s) < X_LOOP_NEST_MAX) then tl_loop s :: tl_loop_stack s else tl_loop_stack s)
  end.

Definition xEventLoopLeave (s : tls) : tls :=
  match tl_loop s with
  | None => s
  | Some _ =>
      match tl_loop_stack s with
      | prev :: stack => Tls prev stack
      | [] => Tls None []
      end
  end.

(** Leaving restores the loop that was current, up to 32 deep. *)
Lemma enter_leave l s : length (tl_loop_stack s) < X_LOOP_NEST_MAX -> xEventLoopLeave (xEventLoopEnter (Some l) s) = s.
Proof. intros H. unfold xEventLoopEnter. rewrite decide_True by done. by destruct s. Qed.

(** At the next level it restores the loop below instead. *)
Example nesting_lost :
  let s := fold_left (fun s l => xEventLoopEnter (Some l) s) (seq 1 33) (Tls None []) in
  tl_loop s = Some 33 /\ tl_loop (xEventLoopLeave s) = Some 31.
Proof. by vm_compute. Qed.
