(* ===== verification/EventTimer.v ===== *)
(** * EventTimer: the timers of the loop

    Every timer struct is in one place: on the heap, on the list of recycled
    structs, or on the ready list of the pass that is running.  Whatever the
    callbacks do, a pass fires the timers that had expired when it began, each
    once, in the order of their deadlines. *)

From Stdlib Require Import Sorting.Sorted.
From S2P Require Import Prelude Errno Heap Event.

Section timers.
Context {U : Type}.
Variable e : env.
Implicit Types (w : xEventLoop_ U) (R : list Z).

#[export] Instance timer_cmp_ok w : CmpOk (timer_cmp w).
Proof.
  split; unfold timer_cmp; intros a b.
  - destruct (Z.ltb_spec (deadline_of w a) (deadline_of w b)), (Z.ltb_spec (deadline_of w b) (deadline_of w a)); lia.
  - intros c. destruct (Z.ltb_spec (deadline_of w b) (deadline_of w a)), (Z.ltb_spec (deadline_of w a) (deadline_of w b)),
      (Z.ltb_spec (deadline_of w c) (deadline_of w b)), (Z.ltb_spec (deadline_of w b) (deadline_of w c)),
      (Z.ltb_spec (deadline_of w c) (deadline_of w a)), (Z.ltb_spec (deadline_of w a) (deadline_of w c)); lia.
Qed.

Lemma above_deadline w a b : above (timer_cmp w) a b <-> (deadline_of w a <= deadline_of w b)%Z.
Proof.
  unfold above, timer_cmp. destruct (Z.ltb_spec (deadline_of w b) (deadline_of w a)), (Z.ltb_spec (deadline_of w a) (deadline_of w b)); lia.
Qed.

(** The order of a heap only looks at its elements. *)
Lemma inv_cmp (cmp cmp' : Z -> Z -> Z) h :
  Heap.inv cmp h -> (forall a b, a ∈ live h -> b ∈ live h -> cmp a b = cmp' a b) -> Heap.inv cmp' h.
Proof.
  intros [W O] H. split; [done|]. intros j Hj a b Ea Eb. pose proof (parent_lt j ltac:(lia)).
  assert (forall k x, k < size h -> data h !! k = Some x -> x ∈ live h) as Hin.
  { intros k x Hk Hx. unfold live. apply list_elem_of_lookup. exists k. by rewrite lookup_take_lt. }
  unfold above. rewrite <- H; [by apply (O j Hj)|by apply (Hin j); [lia|]|by apply (Hin (parent j)); [lia|]].
Qed.

Lemma live_NoDup cmp h : Heap.inv cmp h -> NoDup (live h).
Proof.
  intros [[Wc Ws Wt] _]. apply NoDup_alt. intros i j x Hi Hj. unfold live in *.
  apply lookup_take_Some in Hi as [Hi ?]. apply lookup_take_Some in Hj as [Hj ?].
  pose proof (Wt i x ltac:(done) Hi). pose proof (Wt j x ltac:(done) Hj). congruence.
Qed.

(** [R] are the timers on the ready list. *)
Record ev_inv R w : Prop := {
  ei_heap : Heap.inv (timer_cmp w) (timer_heap w);
  ei_idx : forall t, is_Some (heap_idx w t) <-> t ∈ live (timer_heap w);
  ei_armed : forall t, t ∈ live (timer_heap w) -> exists tm, timers w !! t = Some tm /\ fired tm = false;
  ei_ready : forall t, t ∈ R -> exists tm, timers w !! t = Some tm /\ fired tm = true;
  ei_pool : forall t, t ∈ timer_free_ w -> is_Some (timers w !! t);
  ei_apart : NoDup (timer_free_ w ++ R ++ live (timer_heap w));
  ei_nfree : timer_nfree w = length (timer_free_ w);
  ei_max : timer_nfree w <= TIMER_POOL_MAX;
  ei_addr : forall t, is_Some (timers w !! t) -> (0 < t <= Z.of_nat (fresh w))%Z;
}.

(** A timer in none of the three places. *)
Definition loose R w (t : Z) : Prop := t ∉ timer_free_ w /\ t ∉ R /\ t ∉ live (timer_heap w).

Definition tview w := (timers w, timer_heap w, timer_free_ w, timer_nfree w).

Lemma ev_inv_view R w w' : tview w' = tview w -> fresh w <= fresh w' -> ev_inv R w -> ev_inv R w'.
Proof.
  intros E Hf [Hh Hi Ha Hr Hp Hd Hn Hm Had]. unfold tview in E. injection E as E1 E2 E3 E4. unfold heap_idx in *.
  split; unfold heap_idx; rewrite ?E1, ?E2, ?E3, ?E4; try done.
  - eapply inv_cmp; [exact Hh|]. intros a b _ _. unfold timer_cmp, deadline_of. by rewrite E1.
  - intros t Ht. specialize (Had t Ht). lia.
Qed.

(** Writing a loose timer *)
Lemma put_timer_inv R w t tm : ev_inv R w -> loose R w t -> (0 < t <= Z.of_nat (fresh w))%Z -> ev_inv R (put_timer w t tm).
Proof.
  intros [Hh Hi Ha Hr Hp Hd Hn Hm Had] (Hl1 & Hl2 & Hl3) Ht.
  assert (forall x, x ∈ live (timer_heap w) \/ x ∈ R \/ x ∈ timer_free_ w -> timers (put_timer w t tm) !! x = timers w !! x) as Hx.
  { intros x Hx. cbn [timers put_timer set_timers]. rewrite lookup_insert_ne; [done|]. intros ->. tauto. }
  split; try done.
  - eapply inv_cmp; [exact Hh|]. intros a b Hia Hib. unfold timer_cmp, deadline_of. by rewrite !Hx by tauto.
  - intros x Hxl. rewrite Hx by tauto. by apply Ha.
  - intros x Hxl. rewrite Hx by tauto. by apply Hr.
  - intros x Hxl. rewrite Hx by tauto. by apply Hp.
  - intros x. cbn [timers put_timer set_timers]. destruct (decide (x = t)) as [->|]; [done|]. rewrite lookup_insert_ne by done. apply Had.
Qed.

Lemma loose_idx R w t : ev_inv R w -> loose R w t -> heap_idx w t = None.
Proof. intros I (_ & _ & H). destruct (heap_idx w t) eqn:E; [|done]. destruct H. apply (ei_idx _ _ I). by rewrite E. Qed.

(** Clearing the index of a timer that has none changes nothing. *)
Lemma invalidate_none w t : heap_idx w t = None -> invalidate_idx w t = w.
Proof.
  intros H. unfold invalidate_idx, heap_idx in *. rewrite delete_id by done. by destruct w as [? []].
Qed.

Lemma apart_loose R w t : ev_inv R w -> loose R w t ->
  NoDup (t :: timer_free_ w ++ R ++ live (timer_heap w)).
Proof. intros I (H1 & H2 & H3). apply NoDup_cons. split; [|apply (ei_apart _ _ I)]. rewrite !elem_of_app. tauto. Qed.

Lemma timer_free_inv R w t : ev_inv R w -> loose R w t -> is_Some (timers w !! t) -> ev_inv R (timer_free w t).
Proof.
  intros I Hl Ht. pose proof (apart_loose _ _ _ I Hl) as Hd. destruct I as [Hh Hi Ha Hr Hp _ Hn Hm Had]. unfold timer_free.
  cbn [timer_nfree set_active timer_free_ timers]. case_decide as Hroom.
  - split; try done; cbn [timer_free_ timer_nfree set_pool timers timer_heap set_active].
    + intros x Hx. apply elem_of_cons in Hx as [->|Hx]; [done|by apply Hp].
    + cbn [length]. lia.
  - apply NoDup_cons in Hd as [Hno Hd]. rewrite !not_elem_of_app in Hno. destruct Hno as (N1 & N2 & N3).
    assert (forall x, x ∈ live (timer_heap w) \/ x ∈ R \/ x ∈ timer_free_ w -> delete t (timers w) !! x = timers w !! x) as Hx.
    { intros x Hx. rewrite lookup_delete_ne; [done|]. intros ->. tauto. }
    split; try done; cbn [timer_free_ timer_nfree set_timers timers timer_heap set_active].
    + eapply inv_cmp; [exact Hh|]. intros a b Hia Hib. unfold timer_cmp, deadline_of. cbn [timers set_timers set_active]. by rewrite !Hx by tauto.
    + intros x Hxl. rewrite Hx by tauto. by apply Ha.
    + intros x Hxl. rewrite Hx by tauto. by apply Hr.
    + intros x Hxl. rewrite Hx by tauto. by apply Hp.
    + intros x [y Hy]. apply lookup_delete_Some in Hy as [_ Hy]. by apply Had.
Qed.

(** What the timer functions do not touch *)
Definition oview w := (log w, time w, done w, n_mono w).
Definition sview w := (sources w, active_handles w).

(** Arming a loose timer *)
Lemma heap_push_inv R w t tm : ev_inv R w -> loose R w t -> timers w !! t = Some tm -> fired tm = false ->
  exists err w', heap_push e w t = Some (err, w') /\ ev_inv R w' /\ timers w' = timers w /\ timer_free_ w' = timer_free_ w /\ oview w' = oview w /\ sview w' = sview w /\ fresh w' = fresh w /\ timer_nfree w' = timer_nfree w /\
    (err = xErrno_Ok /\ live (timer_heap w') ≡ₚ t :: live (timer_heap w) \/
     err <> xErrno_Ok /\ timer_heap w' = timer_heap w /\ alloc e (n_alloc w) = false).
Proof.
  intros I Hl Ht Hf. pose proof (apart_loose _ _ _ I Hl) as Hd. pose proof I as [Hh Hi Ha Hr Hp _ Hn Hm Had]. destruct Hl as (L1 & L2 & L3).
  assert (t <> 0%Z) as Hz by (specialize (Had t ltac:(by rewrite Ht)); lia).
  unfold heap_push. pose proof (xHeapPush_spec (timer_cmp w) (fun _ => alloc e (n_alloc w)) (timer_heap w) t Hh Hz L3) as H.
  destruct (decide (has_room _ _)).
  - destruct H as (h' & -> & Hinv & Hlive & Hidx). cbn [mbind option_bind fst snd]. eexists _, _. split; [done|].
    split; [|split_and!; [done|done|done|done|done|done|left; split; [done|exact Hlive]]].
    split; unfold heap_idx in *; cbn [timer_heap timers timer_free_ timer_nfree fresh count_alloc set_timer_heap]; try done.
    + intros x. rewrite Hidx, Hlive, elem_of_cons, Hi. done.
    + intros x. rewrite Hlive, elem_of_cons. intros [->|Hx]; [by exists tm|by apply Ha].
    + eapply NoDup_Permutation_proper; [|exact Hd]. rewrite Hlive. by rewrite <- !Permutation_middle.
  - rewrite H. cbn [mbind option_bind fst snd]. eexists _, _. split; [done|]. split; [by apply (ev_inv_view R w)|].
    split_and!; try done. right. split; [done|]. split; [done|]. unfold has_room in *. destruct (alloc e (n_alloc w)); [tauto|done].
Qed.

Lemma timer_alloc_inv R w o w' : ev_inv R w -> timer_alloc e w = (o, w') ->
  ev_inv R w' /\ timers w' = timers w /\ timer_heap w' = timer_heap w /\ oview w' = oview w /\ sview w' = sview w /\ fresh w <= fresh w' /\
  match o with Some t => loose R w' t /\ (0 < t <= Z.of_nat (fresh w'))%Z /\ timer_nfree w' < TIMER_POOL_MAX | None => True end.
Proof.
  intros I. pose proof I as [Hh Hi Ha Hr Hp Hd Hn Hm Had]. unfold timer_alloc. destruct (timer_free_ w) as [|t free] eqn:Ef.
  - destruct (alloc e (n_alloc w)); intros [= <- <-]; [|by split; [by apply (ev_inv_view R w)|split_and!; try done; cbn; lia]].
    split; [apply (ev_inv_view R w); [done|cbn; lia|done]|]. do 4 (split; [done|]). split; [cbn; lia|].
    split; [|split; [cbn [fresh count_fresh count_alloc]; lia|cbn [timer_nfree count_fresh count_alloc]; rewrite Hn; cbn; unfold TIMER_POOL_MAX; lia]].
    assert (timers w !! Z.of_nat (S (fresh w)) = None) as Hno.
    { apply eq_None_not_Some. intros H. specialize (Had _ H). lia. }
    unfold loose. cbn [timer_free_ timer_heap count_fresh count_alloc]. rewrite Ef. split; [by apply not_elem_of_nil|]. split.
    + intros H. apply Hr in H as (tm & H & _). congruence.
    + intros H. apply Ha in H as (tm & H & _). congruence.
  - intros [= <- <-]. apply NoDup_cons in Hd as [Hno Hd]. rewrite !not_elem_of_app in Hno. destruct Hno as (N1 & N2 & N3).
    split; [|do 4 (split; [done|]); split; [cbn; lia|]; split; [done|]; split; [|cbn in *; lia]].
    + split; try done; cbn [timer_free_ timer_nfree set_pool timers]; [|cbn in Hn; lia|lia]. intros x Hx. apply Hp. by apply elem_of_cons; right.
    + apply Had. apply Hp. by apply elem_of_cons; left.
Qed.

(** ** What the calls of a callback leave alone *)

(** Callbacks post functions of the user. *)
Definition posts (l : list (nat * nat)) : list xWork_ := (fun x => WPost x.1 x.2) <$> l.

Record step R w w' : Prop := {
  st_inv : ev_inv R w';
  st_log : log w' = log w;
  st_time : time w' = time w;
  st_ready : forall t, t ∈ R -> timers w' !! t = timers w !! t;
  st_done : exists new, done w' = done w ++ posts new;
}.

Lemma step_refl R w : ev_inv R w -> step R w w.
Proof. intros I. split; try done. exists []. by rewrite app_nil_r. Qed.

Lemma step_trans R w1 w2 w3 : step R w1 w2 -> step R w2 w3 -> step R w1 w3.
Proof.
  intros [I1 L1 T1 R1 [n1 D1]] [I2 L2 T2 R2 [n2 D2]]. split; [done|congruence|congruence| |].
  - intros t Ht. by rewrite R2, R1.
  - exists (n1 ++ n2). unfold posts in *. by rewrite D2, D1, fmap_app, app_assoc.
Qed.

(** A change of other fields *)
Lemma step_view R w w' : ev_inv R w -> tview w' = tview w -> fresh w <= fresh w' -> log w' = log w -> time w' = time w ->
  (exists new, done w' = done w ++ posts new) -> step R w w'.
Proof.
  intros I E Hf Hl Ht Hd. split; try done; [by eapply ev_inv_view|]. intros t _. unfold tview in E. by injection E as -> _ _ _.
Qed.

Ltac view := by apply step_view; [|done|cbn; lia|done|done|exists []; by rewrite app_nil_r].

Lemma wake_step R w : ev_inv R w -> step R w (xEventLoopWake w).
Proof. intros I. unfold xEventLoopWake. destruct (wake_pending w); [by apply step_refl|view]. Qed.

Lemma ready_not_loose R w t x : loose R w t -> x ∈ R -> x <> t.
Proof. intros (_ & H & _) Hx ->. done. Qed.

Lemma step_timer R w w' : ev_inv R w' -> (forall x, x ∈ R -> timers w' !! x = timers w !! x) -> oview w' = oview w -> step R w w'.
Proof.
  intros I Hr E. unfold oview in E. injection E as E1 E2 E3 _. split; try done. exists []. by rewrite app_nil_r.
Qed.

(** [xTimerStart] always returns; a handle it returns is an armed timer with what
    was asked for.  Without memory nothing changes but the pool. *)
Lemma xTimerStart_spec f a c timeout repeat R w : ev_inv R w ->
  exists t w', xTimerStart e f a c timeout repeat w = Some (t, w') /\ step R w w' /\
    sources w' = sources w /\ fresh w <= fresh w' /\
    (timers w' = timers w \/ exists x tm, timers w' = <[x := tm]> (timers w)) /\
    (t <> 0%Z -> exists f', f = Some f' /\ live (timer_heap w') ≡ₚ t :: live (timer_heap w) /\ active_handles w' = (active_handles w + 1)%Z /\
       timers w' !! t = Some (Timer (u64 (mono e (n_mono w) + timeout)) f' a c false repeat)) /\
    (t = 0%Z -> timer_heap w' = timer_heap w /\ active_handles w' = active_handles w).
Proof.
  intros I0. unfold xTimerStart, submit_timer, xMonoMs.
  assert (step R w (count_mono w)) as S0 by view. pose proof (st_inv _ _ _ S0) as I.
  destruct f as [f|]; [|exists 0%Z, (count_mono w); by split_and!; try done; left].
  destruct (timer_alloc e (count_mono w)) as [o w1] eqn:Ea. destruct (timer_alloc_inv _ _ _ _ I Ea) as (I1 & Et & Eh & Eo & Es & Hfr & Ho).
  unfold sview in Es. injection Es as Es1 Es2. change (sources w1 = sources w) in Es1. change (active_handles w1 = active_handles w) in Es2.
  change (fresh w <= fresh w1) in Hfr. change (timers w1 = timers w) in Et. change (timer_heap w1 = timer_heap w) in Eh.
  assert (step R w w1) as S1 by (eapply step_trans; [exact S0|]; apply step_timer; [done|by intros; rewrite Et|done]).
  destruct o as [t|]; [|exists 0%Z, w1; by split_and!; try done; left].
  destruct Ho as (Hl & Hr & Hroom). set (tm := Timer (u64 (mono e (n_mono w) + timeout)) f a c false repeat).
  pose proof (put_timer_inv _ _ t tm I1 Hl Hr) as I2. assert (loose R (put_timer w1 t tm) t) as Hl2 by done.
  rewrite (invalidate_none (put_timer w1 t tm)) by (by apply (loose_idx R)).
  set (w2 := set_active (put_timer w1 t tm) _). assert (ev_inv R w2) as I3 by (by apply (ev_inv_view R (put_timer w1 t tm))).
  assert (timers w2 = <[t := tm]> (timers w)) as Htm by (cbn [timers w2 set_active put_timer set_timers]; by rewrite Et).
  destruct (heap_push_inv R w2 t tm I3 Hl2) as (err & w3 & -> & I4 & Et3 & Ef3 & Eo3 & Es3 & Hfr3 & Hn3 & Hres);
    [by rewrite Htm, lookup_insert_eq|done|]. cbn [mbind option_bind].
  unfold sview in Es3. injection Es3 as Es3 Ea3. change (sources w3 = sources w1) in Es3. change (active_handles w3 = active_handles w1 + 1)%Z in Ea3.
  change (fresh w3 = fresh w1) in Hfr3. change (timer_nfree w3 = timer_nfree w1) in Hn3.
  assert (step R w w3) as S3.
  { eapply step_trans; [exact S1|]. apply step_timer; [done| |done]. intros x Hx. rewrite Et3, Htm, lookup_insert_ne, Et; [done|].
    intros ->. by apply (ready_not_loose R w1 _ _ Hl Hx). }
  destruct Hres as [[-> Hlive]|(Herr & Hheap & _)].
  - rewrite decide_False by (intros H; by apply H). exists t, (xEventLoopWake w3). split; [done|].
    split; [eapply step_trans; [exact S3|by apply wake_step]|].
    assert (timers (xEventLoopWake w3) = timers w3 /\ timer_heap (xEventLoopWake w3) = timer_heap w3 /\ sources (xEventLoopWake w3) = sources w3 /\
      fresh (xEventLoopWake w3) = fresh w3 /\ active_handles (xEventLoopWake w3) = active_handles w3) as (-> & -> & -> & -> & ->)
      by (unfold xEventLoopWake; by destruct (wake_pending w3)).
    split; [congruence|]. split; [lia|]. split; [right; exists t, tm; congruence|]. split; [|lia]. intros _. exists f. split; [done|].
    split; [rewrite Hlive; by change (timer_heap w2) with (timer_heap w1); rewrite Eh|]. split; [lia|]. by rewrite Et3, Htm, lookup_insert_eq.
  - rewrite decide_True by done. exists 0%Z, (timer_free w3 t). split; [done|].
    assert (loose R w3 t) as Hl3 by (unfold loose; rewrite Ef3, Hheap; exact Hl2).
    assert (ev_inv R (timer_free w3 t)) as I5 by (apply timer_free_inv; [done|done|]; by rewrite Et3, Htm, lookup_insert_eq).
    unfold timer_free in *. cbn [timer_nfree set_active] in *. rewrite decide_True in * by lia.
    split; [eapply step_trans; [exact S3|by apply step_timer]|]. cbn [sources fresh timers timer_heap active_handles set_pool set_active].
    split; [congruence|]. split; [lia|]. split; [right; exists t, tm; congruence|]. split; [done|]. intros _. split; [by rewrite Hheap|lia].
Qed.

Lemma tracked_at h i x : wf h -> x ∈ live h -> idx h !! x = Some i -> i < size h /\ data h !! i = Some x.
Proof.
  intros [Wc Ws Wt] Hx Hi. unfold live in Hx. apply list_elem_of_lookup in Hx as [k Hk]. apply lookup_take_Some in Hk as [Hk Hlt].
  pose proof (Wt k x Hlt Hk). by assert (k = i) as -> by congruence.
Qed.

(** [timer_stop_direct] is defined on every struct that is allocated; a timer it
    stops was armed and is so no more, and no other timer is affected. *)
Lemma timer_stop_spec R w t : ev_inv R w -> (t = 0%Z \/ is_Some (timers w !! t)) ->
  exists err w', timer_stop_direct t w = Some (err, w') /\ step R w w' /\
    (err = xErrno_Ok -> t ∈ live (timer_heap w) /\ t :: live (timer_heap w') ≡ₚ live (timer_heap w) /\
       sources w' = sources w /\ fresh w' = fresh w /\ active_handles w' = (active_handles w - 1)%Z /\
       (timer_nfree w < TIMER_POOL_MAX -> timers w' = timers w)) /\
    (err <> xErrno_Ok -> w' = w /\ t ∉ live (timer_heap w)).
Proof.
  intros I Ht. unfold timer_stop_direct. pose proof I as [Hh Hi Ha Hr Hp Hd Hn Hm Had]. destruct (decide (t = 0%Z)) as [->|Hz].
  { exists xErrno_InvalidArg, w. split; [done|]. split; [by apply step_refl|]. split; [done|]. intros _. split; [done|].
    intros H. apply Ha in H as (tm & H & _). specialize (Had 0%Z ltac:(by rewrite H)). lia. }
  destruct Ht as [?|[tm Htm]]; [done|]. rewrite Htm. cbn [mbind option_bind].
  destruct (heap_idx w t) as [i|] eqn:Ei.
  2: { exists xErrno_InvalidState, w. split; [done|]. split; [by apply step_refl|]. split; [done|]. intros _. split; [done|].
       rewrite <- Hi, Ei. by intros [? ?]. }
  assert (t ∈ live (timer_heap w)) as Hlive by (apply Hi; by rewrite Ei).
  destruct (Ha t Hlive) as (tm' & Htm' & Hf). assert (tm' = tm) as -> by congruence. rewrite Hf.
  destruct (tracked_at _ _ _ (inv_wf _ _ Hh) Hlive Ei) as [Hlt Hat].
  pose proof (xHeapRemove_spec (timer_cmp w) (timer_heap w) i Hh) as H. rewrite decide_False in H by lia.
  destruct H as (x & h' & E & Hinv & Hx & Hperm & Hidx). rewrite E. cbn [mbind option_bind fst snd].
  assert (x ∈ live (timer_heap w)) as Hxl by (rewrite <- Hperm; by apply elem_of_cons; left).
  destruct (tracked_at _ _ _ (inv_wf _ _ Hh) Hxl Hx) as [_ Hat']. assert (x = t) as -> by congruence.
  pose proof (live_NoDup _ _ Hh) as Hnd. rewrite <- Hperm in Hnd. apply NoDup_cons in Hnd as [Hnl _].
  set (w1 := invalidate_idx (set_timer_heap w h') t).
  assert (ev_inv R w1 /\ loose R w1 t) as [I1 Hl1].
  { assert (live (timer_heap w1) = live h') as El by done. split; [split; unfold heap_idx; rewrite ?El; try done|].
    - destruct Hinv as [[Wc Ws Wt] O]. split; [split; [done|done|]|done]. intros k y Hk Hy. cbn [idx timer_heap w1 invalidate_idx set_timer_heap] in *.
      rewrite lookup_delete_ne; [by apply Wt|]. intros ->. destruct Hnl. unfold live. apply list_elem_of_lookup. exists k. by rewrite lookup_take_lt.
    - intros y. cbn [idx timer_heap w1 invalidate_idx set_timer_heap]. destruct (decide (y = t)) as [->|Hy].
      + rewrite lookup_delete_eq. split; [by intros [? ?]|done].
      + rewrite lookup_delete_ne, Hidx by done. change (is_Some (heap_idx w y) <-> y ∈ live h'). rewrite Hi, <- Hperm, elem_of_cons. naive_solver.
    - intros y Hy. apply Ha. rewrite <- Hperm. by apply elem_of_cons; right.
    - rewrite <- Hperm in Hd. rewrite <- !Permutation_middle in Hd. by apply NoDup_cons in Hd as [_ Hd].
    - rewrite <- Hperm in Hd. rewrite <- !Permutation_middle in Hd. apply NoDup_cons in Hd as [Hd _]. rewrite !not_elem_of_app in Hd.
      unfold loose. rewrite El. done. }
  eexists _, _. split; [done|]. split; [|split; [|done]].
  - apply step_timer.
    + apply timer_free_inv; [done|done|]. by exists tm.
    + intros y Hy. unfold timer_free. case_decide; [done|]. cbn [timers set_timers set_active]. apply lookup_delete_ne. intros ->.
      by apply (ready_not_loose _ _ _ _ Hl1 Hy).
    + unfold timer_free. by case_decide.
  - intros _. split; [done|]. rewrite <- Hperm. unfold timer_free. cbn [timer_nfree set_active w1 invalidate_idx set_timer_heap]. case_decide; done.
Qed.

(** ** The other calls *)

Record other w w' : Prop := {
  ot_view : tview w' = tview w;
  ot_fresh : fresh w <= fresh w';
  ot_log : log w' = log w;
  ot_time : time w' = time w;
  ot_done : exists new, done w' = done w ++ posts new;
}.

Lemma other_step R w w' : ev_inv R w -> other w w' -> step R w w'.
Proof. intros I []. by apply step_view. Qed.

Lemma other_refl w : other w w.
Proof. split; try done. exists []. by rewrite app_nil_r. Qed.

Lemma other_trans w1 w2 w3 : other w1 w2 -> other w2 w3 -> other w1 w3.
Proof.
  intros [V1 F1 L1 T1 [n1 D1]] [V2 F2 L2 T2 [n2 D2]]. split; [congruence|lia|congruence|congruence|]. exists (n1 ++ n2). unfold posts in *. by rewrite D2, D1, fmap_app, app_assoc.
Qed.

Ltac same := by split; [done|cbn; lia|done|done|exists []; by rewrite app_nil_r].

Lemma source_array_add_other fd mask f a w : other w (source_array_add e fd mask f a w).2.
Proof.
  unfold source_array_add. assert (forall w1, other w w1 -> other w
    (let w' := count_alloc w1 in if alloc e (n_alloc w1) then
      let src := fresh w1 in (Some src, set_items (set_sources (count_fresh w') (<[src := Source fd mask f a false false]> (sources w1))) (items w1 ++ [src]))
     else (None, w')).2) as H.
  { intros w1 H. eapply other_trans; [exact H|]. cbn zeta. destruct (alloc e (n_alloc w1)); same. }
  case_decide; [|by apply H, other_refl]. cbn zeta. destruct (alloc e (n_alloc w)); [|same]. apply H. same.
Qed.

Lemma source_array_remove_other src w w' : source_array_remove src w = Some w' -> other w w'.
Proof. unfold source_array_remove. destruct (sources w !! src); [|done]. intros [= <-]. same. Qed.

Lemma xEventAdd_other fd mask f a w r : xEventAdd e fd mask f a w = Some r -> other w r.2.
Proof.
  unfold xEventAdd. destruct f as [f|]; [|intros [= <-]; apply other_refl].
  pose proof (source_array_add_other fd (Z.land mask (Z.lnot xEvent_LevelTriggered)) f a w) as H.
  destruct (source_array_add _ _ _ _ _ _) as [[src|] w1]; [|by intros [= <-]]. unfold backend. cbn [snd] in H.
  destruct (syscall _ _).
  - intros [= <-]. eapply other_trans; [exact H|]. same.
  - destruct (source_array_remove _ _) as [w2|] eqn:Er; [|done]. cbn [mbind option_bind]. intros [= <-]. cbn [snd].
    eapply other_trans; [exact H|]. apply source_array_remove_other in Er. eapply other_trans; [|exact Er]. same.
Qed.

Lemma xEventMod_other src mask w r : xEventMod e src mask w = Some r -> other w r.2.
Proof.
  unfold xEventMod. destruct src as [src|]; [|intros [= <-]; apply other_refl]. destruct (sources w !! src); [|done]. cbn [mbind option_bind].
  unfold backend. destruct (syscall _ _); intros [= <-]; same.
Qed.

Lemma xEventDel_other src w r : xEventDel src w = Some r -> other w r.2.
Proof.
  unfold xEventDel. destruct src as [src|]; [|intros [= <-]; apply other_refl]. destruct (source_array_remove _ _) as [w1|] eqn:E; [|done].
  intros [= <-]. apply source_array_remove_other in E. eapply other_trans; [|exact E]. same.
Qed.

Lemma wake_other w : other w (xEventLoopWake w).
Proof. unfold xEventLoopWake. destruct (wake_pending w); [apply other_refl|same]. Qed.

Lemma enqueue_other f a w : other w (enqueue (WPost f a) w).
Proof. eapply other_trans; [|apply wake_other]. split; try done. by exists [(f, a)]. Qed.

Lemma xEventLoopPost_other f a w : other w (xEventLoopPost e f a w).2.
Proof.
  unfold xEventLoopPost, event_work_alloc. destruct f as [f|]; [|apply other_refl]. destruct (work_freelist w).
  - destruct (alloc e (n_alloc w)); [|same]. eapply other_trans; [|apply enqueue_other]. same.
  - eapply other_trans; [|apply enqueue_other]. same.
Qed.

Lemma xSignal_other signo f a w : other w (xSignal e signo f a w).2.
Proof.
  unfold xSignal, backend. destruct (_ || _); [apply other_refl|]. destruct f as [f|], (signal_watches w !! signo); cbn zeta.
  - same.
  - destruct (syscall _ _); same.
  - same.
  - apply other_refl.
Qed.

(** A callback leaves the timers in order, those on the ready list untouched, and
    the callbacks invoked so far on record; what it posts goes behind. *)
Lemma run_prog_step R p w w' : ev_inv R w -> run_prog e p w = Some w' -> step R w w'.
Proof.
  revert w. induction p as [u|f a c to rp k IH|t k IH|fd m f a k IH|src m k IH|src k IH|f a k IH|sg f a k IH|k IH]; intros w I; cbn [run_prog].
  - intros [= <-]. view.
  - destruct (xTimerStart_spec f a c to rp R w I) as (t & w1 & -> & S1 & _). intros H. eapply step_trans; [exact S1|].
    eapply IH; [apply S1|exact H].
  - destruct (decide (t = 0%Z \/ is_Some (timers w !! t))) as [Ht|Ht].
    + destruct (timer_stop_spec R w t I Ht) as (err & w1 & -> & S1 & _). intros H. eapply step_trans; [exact S1|]. eapply IH; [apply S1|exact H].
    + unfold timer_stop_direct. rewrite decide_False by tauto. destruct (timers w !! t); [|done]. destruct Ht. right. done.
  - destruct (xEventAdd _ _ _ _ _ _) as [r|] eqn:E; [|done]. apply xEventAdd_other in E. intros H.
    pose proof (other_step R _ _ I E) as S1. eapply step_trans; [exact S1|]. eapply IH; [apply S1|exact H].
  - destruct (xEventMod _ _ _ _) as [r|] eqn:E; [|done]. apply xEventMod_other in E. intros H.
    pose proof (other_step R _ _ I E) as S1. eapply step_trans; [exact S1|]. eapply IH; [apply S1|exact H].
  - destruct (xEventDel _ _) as [r|] eqn:E; [|done]. apply xEventDel_other in E. intros H.
    pose proof (other_step R _ _ I E) as S1. eapply step_trans; [exact S1|]. eapply IH; [apply S1|exact H].
  - intros H. pose proof (other_step R _ _ I (xEventLoopPost_other f a w)) as S1. eapply step_trans; [exact S1|]. eapply IH; [apply S1|exact H].
  - intros H. pose proof (other_step R _ _ I (xSignal_other sg f a w)) as S1. eapply step_trans; [exact S1|]. eapply IH; [apply S1|exact H].
  - intros H. assert (step R w (xEventLoopStop w)) as S1 by view. eapply step_trans; [exact S1|]. eapply IH; [apply S1|exact H].
Qed.

(** ** A pass over the expired timers *)

(** What a timer is but for whether it fired *)
Definition static (tm : xTimer_) := (deadline tm, fn tm, arg tm, on_cancel tm, repeat_ms tm).

(** A minimum leaves the heap for the ready list. *)
Lemma pop_one R w t tm h' : ev_inv R w -> xHeapPop (timer_cmp w) (Some (timer_heap w)) = Some (t, Some h') ->
  Heap.inv (timer_cmp w) h' -> t :: live h' ≡ₚ live (timer_heap w) -> (forall x, is_Some (idx h' !! x) <-> is_Some (idx (timer_heap w) !! x)) ->
  timers w !! t = Some tm ->
  let tm' := Timer (deadline tm) (fn tm) (arg tm) (on_cancel tm) true (repeat_ms tm) in
  ev_inv (R ++ [t]) (invalidate_idx (put_timer (set_timer_heap w h') t tm') t).
Proof.
  intros [Hh Hi Ha Hr Hp Hd Hn Hm Had] _ Hinv Hperm Hidx Htm tm'.
  pose proof (live_NoDup _ _ Hh) as Hnd. rewrite <- Hperm in Hnd. apply NoDup_cons in Hnd as [Hnl _].
  pose proof Hd as Hd'. rewrite <- Hperm in Hd. rewrite <- !Permutation_middle in Hd. apply NoDup_cons in Hd as [Hnt Hd].
  rewrite !not_elem_of_app in Hnt. destruct Hnt as (N1 & N2 & _).
  assert (forall x, x <> t -> <[t := tm']> (timers w) !! x = timers w !! x) as Hx by (intros; by rewrite lookup_insert_ne).
  split; unfold heap_idx; cbn [timer_heap timers timer_free_ timer_nfree fresh invalidate_idx put_timer set_timers set_timer_heap idx]; try done.
  - apply (inv_cmp (timer_cmp w)).
    + destruct Hinv as [[Wc Ws Wt] O]. split; [split; [done|done|]|done]. intros k y Hk Hy. cbn [idx data size] in *.
      rewrite lookup_delete_ne; [by apply Wt|]. intros ->. destruct Hnl. unfold live. apply list_elem_of_lookup. exists k. by rewrite lookup_take_lt.
    + intros a b Hia Hib. unfold timer_cmp, deadline_of. cbn [timers invalidate_idx put_timer set_timers set_timer_heap].
      change (a ∈ live h') in Hia. change (b ∈ live h') in Hib. rewrite !Hx by (intros ->; done). done.
  - intros y. change (is_Some (delete t (idx h') !! y) <-> y ∈ live h'). destruct (decide (y = t)) as [->|Hy].
    + rewrite lookup_delete_eq. split; [by intros [? ?]|done].
    + rewrite lookup_delete_ne, Hidx by done. change (is_Some (heap_idx w y) <-> y ∈ live h'). rewrite Hi, <- Hperm, elem_of_cons. naive_solver.
  - intros y Hy. change (y ∈ live h') in Hy. rewrite Hx by (intros ->; done). apply Ha. rewrite <- Hperm. by apply elem_of_cons; right.
  - intros y Hy. apply elem_of_app in Hy as [Hy|Hy%list_elem_of_singleton].
    + rewrite Hx by (intros ->; done). by apply Hr.
    + subst y. rewrite lookup_insert_eq. by exists tm'.
  - intros y Hy. rewrite Hx by (intros ->; done). by apply Hp.
  - change (NoDup (timer_free_ w ++ (R ++ [t]) ++ live h')). rewrite <- app_assoc. cbn [app]. rewrite <- Hperm in Hd'. exact Hd'.
  - intros y. destruct (decide (y = t)) as [->|Hy]; [|rewrite Hx by done; apply Had]. intros _. apply Had. by exists tm.
Qed.

Lemma pop_expired_spec fuel now R w : ev_inv R w -> size (timer_heap w) < fuel ->
  exists ts w', pop_expired fuel now w = Some (ts, w') /\ ev_inv (R ++ ts) w' /\ oview w' = oview w /\
    ts ++ live (timer_heap w') ≡ₚ live (timer_heap w) /\
    (forall t, static <$> timers w' !! t = static <$> timers w !! t) /\
    Forall (fun t => (deadline_of w t <= now)%Z) ts /\ Forall (fun t => (now < deadline_of w t)%Z) (live (timer_heap w')) /\
    StronglySorted (fun a b => (deadline_of w a <= deadline_of w b)%Z) ts.
Proof.
  revert R w. induction fuel as [|fuel IH]; intros R w I Hf; [lia|]. cbn [pop_expired xHeapSize].
  pose proof (xHeapPop_spec (timer_cmp w) (timer_heap w) (ei_heap _ _ I)) as H.
  destruct (decide (size (timer_heap w) = 0)) as [Hz|Hnz].
  { exists [], w. rewrite app_nil_r. unfold live. rewrite Hz, take_0. split_and!; try done. constructor. }
  destruct H as (t & h' & E & Hinv & Ek & Hperm & Hmin & Hidx). rewrite Ek. cbn [mbind option_bind].
  destruct (ei_armed _ _ I t) as (tm & Htm & Hfired); [rewrite <- Hperm; by apply elem_of_cons; left|]. rewrite Htm. cbn [mbind option_bind].
  assert (deadline_of w t = deadline tm) as Hdl by (unfold deadline_of; by rewrite Htm).
  rewrite Forall_forall in Hmin. destruct (Z.ltb_spec now (deadline tm)) as [Hlt|Hge].
  { exists [], w. rewrite app_nil_r. split_and!; try done; [|constructor]. apply Forall_forall. intros x Hx. apply Hmin in Hx. apply above_deadline in Hx. lia. }
  rewrite E. cbn [mbind option_bind fst snd]. pose proof (pop_one R w t tm h' I E Hinv Hperm Hidx Htm) as I1. cbn zeta in I1.
  set (w1 := invalidate_idx _ t) in *. assert (size (timer_heap w1) < fuel) as Hf1.
  { assert (size h' < size (timer_heap w)) as Hs; [|change (size h' < fuel); lia].
    apply Permutation_length in Hperm. cbn [length] in Hperm. unfold live in Hperm. rewrite !length_take in Hperm.
    destruct Hinv as [[Wc Ws _] _]. destruct (inv_wf _ _ (ei_heap _ _ I)) as [Wc' Ws' _]. lia. }
  destruct (IH (R ++ [t]) w1 I1 Hf1) as (ts & w' & -> & I' & Eo & Hp' & Hst & Hle & Hgt & Hs). cbn [mbind option_bind fst snd].
  assert (forall x, static <$> timers w1 !! x = static <$> timers w !! x) as Hst1.
  { intros x. cbn [timers w1 invalidate_idx put_timer set_timers set_timer_heap]. destruct (decide (x = t)) as [->|]; [|by rewrite lookup_insert_ne].
    by rewrite lookup_insert_eq, Htm. }
  assert (forall x, deadline_of w1 x = deadline_of w x) as Hdeq.
  { intros x. specialize (Hst1 x). unfold deadline_of. destruct (timers w1 !! x), (timers w !! x); try done. cbn in Hst1. unfold static in Hst1. by injection Hst1. }
  exists (t :: ts), w'. split; [done|]. split; [by rewrite <- app_assoc in I'|]. split; [by rewrite Eo|].
  split; [cbn [app]; rewrite Hp'; exact Hperm|]. split; [intros x; by rewrite Hst|].
  assert (Forall (fun x => (deadline_of w x <= now)%Z) ts) as Hle'.
  { eapply Forall_impl; [exact Hle|]. intros x; cbv beta. by rewrite Hdeq. }
  split; [apply Forall_cons; split; [lia|done]|]. split; [eapply Forall_impl; [exact Hgt|]; intros x; cbv beta; by rewrite Hdeq|].
  constructor.
  - clear -Hs Hdeq. induction Hs as [|a l Hs IH Hall]; constructor; [done|]. eapply Forall_impl; [exact Hall|]. intros x; cbv beta. by rewrite !Hdeq.
  - apply Forall_forall. intros x Hx. rewrite Hdl. assert (x ∈ live (timer_heap w)) as Hxl.
    { rewrite <- Hperm. apply elem_of_cons. right. change (live h') with (live (timer_heap w1)). rewrite <- Hp'. apply elem_of_app. by left. }
    apply Hmin, above_deadline in Hxl. lia.
Qed.

Variable code : call -> U -> prog U.

Lemma ev_inv_drop t R w : ev_inv (t :: R) w -> ev_inv R w /\ loose R w t.
Proof.
  intros [Hh Hi Ha Hr Hp Hd Hn Hm Had]. assert (NoDup (t :: timer_free_ w ++ R ++ live (timer_heap w))) as Hd'.
  { eapply NoDup_Permutation_proper; [|exact Hd]. cbn [app]. by rewrite <- Permutation_middle. }
  apply NoDup_cons in Hd' as [Hno Hd']. rewrite !not_elem_of_app in Hno. split; [|exact Hno]. split; try done.
  intros x Hx. apply Hr. by apply elem_of_cons; right.
Qed.

(** The callback of a timer on the ready list *)
Definition call_of w (t : Z) : call := match timers w !! t with Some tm => CTimer (fn tm) (arg tm) | None => CTimer 0 0 end.

Lemma call_of_static w w' t : static <$> timers w' !! t = static <$> timers w !! t -> call_of w' t = call_of w t.
Proof. unfold call_of. destruct (timers w' !! t), (timers w !! t); cbn; try done. unfold static. intros [= ? ? ? ? ?]. congruence. Qed.

(** Before its callback runs, a ready timer is armed again or recycled, unless
    its struct has been freed with the list full. *)
Definition settle w (t : Z) (tm : xTimer_) : ub (xEventLoop_ U) :=
  if decide (0 < repeat_ms tm /\ heap_idx w t = None)%Z then
    let tm := Timer (u64 (deadline tm + repeat_ms tm)) (fn tm) (arg tm) (on_cancel tm) false (repeat_ms tm) in
    r ← heap_push e (put_timer w t tm) t; Some r.2
  else if decide (heap_idx w t = None) then Some (timer_free w t)
  else Some w.

Lemma settle_spec t R w tm : ev_inv (t :: R) w -> timers w !! t = Some tm ->
  exists w', settle w t tm = Some w' /\ ev_inv R w' /\ oview w' = oview w /\ (forall x, x ∈ R -> timers w' !! x = timers w !! x) /\
    sources w' = sources w /\ fresh w' = fresh w /\
    (timer_nfree w < TIMER_POOL_MAX -> forall x, is_Some (timers w' !! x) <-> is_Some (timers w !! x)) /\
    (active_handles w' = active_handles w /\ live (timer_heap w') ≡ₚ t :: live (timer_heap w) \/
     active_handles w' = active_handles w /\ timer_heap w' = timer_heap w /\ alloc e (n_alloc w) = false \/
     active_handles w' = (active_handles w - 1)%Z /\ timer_heap w' = timer_heap w) /\
    (timers w' !! t = None /\ ~ timer_nfree w < TIMER_POOL_MAX \/ exists tm', timers w' !! t = Some tm' /\ fn tm' = fn tm /\ arg tm' = arg tm).
Proof.
  intros I Htm. destruct (ev_inv_drop _ _ _ I) as [I0 Hl]. pose proof (loose_idx _ _ _ I0 Hl) as Hidx. unfold settle. rewrite Hidx.
  assert (forall x, x ∈ R -> x <> t) as Hne by (intros x Hx; by apply (ready_not_loose R w)).
  destruct (decide (0 < repeat_ms tm /\ None = None)%Z) as [Hrep|Hrep].
  - set (tm' := Timer (u64 (deadline tm + repeat_ms tm)) (fn tm) (arg tm) (on_cancel tm) false (repeat_ms tm)).
    pose proof (put_timer_inv R w t tm' I0 Hl (ei_addr _ _ I0 t ltac:(by rewrite Htm))) as I1.
    destruct (heap_push_inv R (put_timer w t tm') t tm' I1 Hl) as (err & w' & -> & I2 & Et & _ & Eo & Es & Hfr & _ & Hres); [apply lookup_insert_eq|done|].
    unfold sview in Es. injection Es as Es1 Es2.
    cbn [mbind option_bind snd]. exists w'. split; [done|]. split; [done|]. split; [done|]. rewrite Et. cbn [timers put_timer set_timers]. split.
    + intros x Hx. by rewrite lookup_insert_ne by (symmetry; apply Hne, Hx).
    + split; [done|]. split; [done|]. split.
      { intros _ x. destruct (decide (x = t)) as [->|]; [|by rewrite lookup_insert_ne]. rewrite lookup_insert_eq, Htm. naive_solver. }
      split; [|right; exists tm'; by rewrite lookup_insert_eq]. destruct Hres as [[_ Hlive]|(_ & Hheap & Hno)]; [by left|right; left; done].
  - rewrite decide_True by done. exists (timer_free w t). split; [done|]. split; [by apply timer_free_inv; [| |exists tm]|].
    unfold timer_free. cbn [timer_nfree set_active]. case_decide; cbn [timers set_pool set_timers set_active]; (split; [done|]); split.
    + done.
    + do 3 (split; [done|]). split; [right; right; done|]. right. by exists tm.
    + intros x Hx. by rewrite lookup_delete_ne by (symmetry; apply Hne, Hx).
    + do 2 (split; [done|]). split; [done|]. split; [right; right; done|]. left. by rewrite lookup_delete_eq.
Qed.

Lemma fire_settle t w : fire e code t w =
  (tm ← timers w !! t; w ← settle w t tm; tm ← timers w !! t; dispatch e code (CTimer (fn tm) (arg tm)) w).
Proof. reflexivity. Qed.

Lemma callback_step c R w w' : ev_inv R w -> dispatch e code c w = Some w' ->
  ev_inv R w' /\ log w' = log w ++ [c] /\ time w' = time w /\ (forall x, x ∈ R -> timers w' !! x = timers w !! x) /\
  exists new, done w' = done w ++ posts new.
Proof.
  intros I H. unfold dispatch in H. apply (run_prog_step R) in H as [I' L T Hr D]; [|by apply (ev_inv_view R w)]. done.
Qed.

Lemma fire_spec t R w w' : ev_inv (t :: R) w -> fire e code t w = Some w' ->
  ev_inv R w' /\ log w' = log w ++ [call_of w t] /\ time w' = time w /\ (forall x, x ∈ R -> timers w' !! x = timers w !! x).
Proof.
  intros I. destruct (ei_ready _ _ I t) as (tm & Htm & _); [by apply elem_of_cons; left|].
  rewrite fire_settle, Htm. cbn [mbind option_bind]. destruct (settle_spec t R w tm I Htm) as (w1 & -> & I1 & Eo & Hr & _ & _ & _ & _ & Hcase). cbn [mbind option_bind].
  destruct Hcase as [[-> _]|(tm' & -> & Ef & Ea)]; [done|]. cbn [mbind option_bind]. intros H.
  apply (callback_step _ R) in H as (I' & L & T & Hr' & _); [|done]. unfold oview in Eo. injection Eo as E1 E2 _ _.
  split; [done|]. split; [unfold call_of; rewrite L, E1, Htm; congruence|]. split; [congruence|]. intros x Hx. by rewrite Hr', Hr.
Qed.

Lemma fire_all_spec ts R w w' : ev_inv (ts ++ R) w -> fire_all e code ts w = Some w' ->
  ev_inv R w' /\ log w' = log w ++ (call_of w <$> ts) /\ time w' = time w.
Proof.
  revert w. induction ts as [|t ts IH]; intros w I; cbn [fire_all].
  { intros [= <-]. by rewrite app_nil_r. }
  destruct (fire e code t w) as [w1|] eqn:E; [|done]. cbn [mbind option_bind]. cbn [app] in I.
  apply (fire_spec t (ts ++ R)) in E as (I1 & L1 & T1 & Hr); [|done]. intros H. apply IH in H as (I' & L & T); [|done].
  split; [done|]. split; [|congruence]. rewrite L, L1, <- app_assoc. f_equal. rewrite fmap_cons. cbn [app]. f_equal.
  apply list_fmap_ext. intros i x Hx. unfold call_of. rewrite Hr; [done|]. apply elem_of_app. left. by apply list_elem_of_lookup_2 in Hx.
Qed.
End timers.
