(* ===== verification/EventSafe.v ===== *)
(** * EventSafe: callbacks that keep to the rules keep the loop in order

    A callback may stop the timers it has been given and change or remove the
    sources that are registered.  While there are no more timer structs than
    the list of recycled ones can hold, such callbacks run to their end, and
    [active_handles] counts the armed timers and the registered sources. *)

From S2P Require Import Prelude Errno Heap Event EventTimer.

Section safe.
Context {U : Type}.
Variable e : env.
Variable code : call -> U -> prog U.
Implicit Types (w : xEventLoop_ U) (R : list Z).

(** The handles the user's state holds *)
Variable kt : U -> gset Z.
Variable ks : U -> gset nat.

(** At most [n] timers are started; [T] are timers handed out, [S] the sources
    registered. *)
Fixpoint prog_ok (n : nat) (T : gset Z) (S : gset nat) (p : prog U) : Prop :=
  match p with
  | Done u => kt u ⊆ T /\ ks u ⊆ S
  | TimerStart _ _ _ _ _ k => match n with O => False | Datatypes.S n => forall t, prog_ok n (T ∪ {[t]}) S (k t) end
  | TimerStop t k => (t = 0%Z \/ t ∈ T) /\ forall err, prog_ok n T S (k err)
  | EventAdd _ _ _ _ k => prog_ok n T S (k None) /\ forall s, s ∉ S -> prog_ok n T (S ∪ {[s]}) (k (Some s))
  | EventMod src _ k => match src with Some s => s ∈ S | None => True end /\ forall err, prog_ok n T S (k err)
  | EventDel src k => match src with Some s => s ∈ S | None => True end /\
      forall err, prog_ok n T (match src with Some s => S ∖ {[s]} | None => S end) (k err)
  | Post _ _ k => forall err, prog_ok n T S (k err)
  | Signal _ _ _ k => forall err, prog_ok n T S (k err)
  | LoopStop k => prog_ok n T S (k tt)
  end.

Definition is_registered (s : xEventSource_) : bool := negb (deleted s).
Definition registered w : gmap nat xEventSource_ := filter (fun x => is_registered x.2 = true) (sources w).

(** [T] and [S] are what they are said to be. *)
Record knows (T : gset Z) (S : gset nat) w : Prop := {
  kn_timers : forall t, t ∈ T -> t = 0%Z \/ is_Some (timers w !! t);
  kn_sources : forall s, s ∈ S -> is_Some (registered w !! s);
  kn_fresh : forall s, is_Some (sources w !! s) -> s < fresh w;
}.

(** What [active_handles] counts beyond what is there *)
Definition surplus R w : Z :=
  (active_handles w - Z.of_nat (length (live (timer_heap w)) + length R + base.size (registered w)))%Z.

(** ** The pool *)

Lemma pool_room R w t : ev_inv R w -> t ∉ timer_free_ w -> is_Some (timers w !! t) -> base.size (timers w) <= TIMER_POOL_MAX ->
  timer_nfree w < TIMER_POOL_MAX.
Proof.
  intros I Hl Ht Hs. rewrite (ei_nfree _ _ I).
  assert (NoDup (t :: timer_free_ w)) as Hd.
  { apply NoDup_cons. split; [done|]. pose proof (ei_apart _ _ I) as H. by apply NoDup_app in H as [? _]. }
  assert (list_to_set (t :: timer_free_ w) ⊆ (dom (timers w) : gset Z)) as Hsub.
  { intros x Hx. apply elem_of_list_to_set, elem_of_cons in Hx as [->|Hx]; apply elem_of_dom; [done|by apply (ei_pool _ _ I)]. }
  apply subseteq_size in Hsub. rewrite size_list_to_set, size_dom in Hsub by done. cbn [length] in Hsub. lia.
Qed.

Lemma live_not_pooled R w t : ev_inv R w -> t ∈ live (timer_heap w) -> t ∉ timer_free_ w.
Proof.
  intros I Hl Hp. pose proof (ei_apart _ _ I) as H. apply NoDup_app in H as (_ & H & _). apply (H t Hp). apply elem_of_app. by right.
Qed.

(** ** Each call keeps its part *)

(** Timers are only added, and the surplus stays. *)
Record grows (n : nat) R w w' : Prop := {
  gr_timers : forall t, is_Some (timers w !! t) -> is_Some (timers w' !! t);
  gr_size : base.size (timers w') <= base.size (timers w) + n;
  gr_surplus : surplus R w' = surplus R w;
  gr_fresh : fresh w <= fresh w';
}.

Lemma grows_trans n m R w1 w2 w3 : grows n R w1 w2 -> grows m R w2 w3 -> grows (n + m) R w1 w3.
Proof. intros [] []. split; [by auto|lia|congruence|lia]. Qed.

Lemma grows_le n m R w1 w2 : n <= m -> grows n R w1 w2 -> grows m R w1 w2.
Proof. intros H []. split; [done|lia|done|done]. Qed.

Lemma grows_same R w w' : timers w' = timers w -> fresh w <= fresh w' -> surplus R w' = surplus R w -> grows 0 R w w'.
Proof. intros E Hf Hs. split; [by intros t; rewrite E|rewrite E; lia|done|done]. Qed.

Lemma surplus_view R w w' : active_handles w' = active_handles w -> timer_heap w' = timer_heap w -> sources w' = sources w -> surplus R w' = surplus R w.
Proof. intros E1 E2 E3. unfold surplus, registered. by rewrite E1, E2, E3. Qed.

Lemma knows_view T S w w' : timers w' = timers w -> sources w' = sources w -> fresh w <= fresh w' -> knows T S w -> knows T S w'.
Proof.
  intros E1 E2 Hf [Ht Hs Hfr]. split; unfold registered in *; rewrite ?E1, ?E2; [done|done|]. intros s H. specialize (Hfr s H). lia.
Qed.

(** *** Sources *)

Lemma registered_put w src s : registered (put_source w src s) = if is_registered s then <[src := s]> (registered w) else delete src (registered w).
Proof.
  unfold registered. cbn [sources put_source set_sources]. destruct (is_registered s) eqn:E.
  - by rewrite map_filter_insert_True.
  - by rewrite map_filter_insert_False, map_filter_delete by (cbn; congruence).
Qed.

Lemma registered_lookup w src s : registered w !! src = Some s -> sources w !! src = Some s /\ deleted s = false.
Proof. intros H. apply map_lookup_filter_Some in H as [H1 H2]. cbn in H2. unfold is_registered in H2. by destruct (deleted s). Qed.

Lemma registered_fresh w : (forall s, is_Some (sources w !! s) -> s < fresh w) -> registered w !! fresh w = None.
Proof.
  intros H. destruct (registered w !! fresh w) as [s|] eqn:E; [|done]. apply registered_lookup in E as [E _]. specialize (H (fresh w) ltac:(by rewrite E)). lia.
Qed.

(** A source put in or taken out *)
Lemma knows_put T S w src s : knows T S w -> src < fresh w -> (is_registered s = false -> src ∉ S) -> knows T S (put_source w src s).
Proof.
  intros [Ht Hs Hf] Hsrc Hr. split; [done| |].
  - intros x Hx. rewrite registered_put. destruct (is_registered s).
    + destruct (decide (x = src)) as [->|]; [by rewrite lookup_insert_eq|]. rewrite lookup_insert_ne by done. by apply Hs.
    + rewrite lookup_delete_ne by (intros ->; by apply Hr). by apply Hs.
  - intros x. cbn [sources put_source set_sources]. destruct (decide (x = src)) as [->|]; [done|]. rewrite lookup_insert_ne by done. apply Hf.
Qed.

Lemma source_array_add_safe fd mask f a T S R w : knows T S w ->
  let r := source_array_add e fd mask f a w in
  timers r.2 = timers w /\ fresh w <= fresh r.2 /\ active_handles r.2 = active_handles w /\ timer_heap r.2 = timer_heap w /\
  match r.1 with
  | None => sources r.2 = sources w
  | Some s => s = fresh w /\ fresh r.2 = Datatypes.S s /\ exists x, sources r.2 = <[s := x]> (sources w)
  end.
Proof.
  intros K. unfold source_array_add. destruct (decide (length (items w) = sources_cap w)); cbn zeta.
  - destruct (alloc e (n_alloc w)); cbn [fst snd]; [|by split_and!].
    set (w1 := set_cap _ _). destruct (alloc e (n_alloc w1)); cbn [fst snd]; split_and!; try done; try (cbn; lia). by eexists.
  - destruct (alloc e (n_alloc w)); cbn [fst snd]; split_and!; try done; try (cbn; lia). by eexists.
Qed.

Lemma xEventAdd_safe fd mask f a T S R w : knows T S w ->
  exists o w', xEventAdd e fd mask f a w = Some (o, w') /\ grows 0 R w w' /\
    match o with None => knows T S w' | Some s => s ∉ S /\ knows T (S ∪ {[s]}) w' end.
Proof.
  intros K. unfold xEventAdd. destruct f as [f|]; [|exists None, w; split; [done|]; split; [by apply grows_same|done]].
  destruct (source_array_add_safe fd (Z.land mask (Z.lnot xEvent_LevelTriggered)) f a T S R w K) as (Et & Hf & Ea & Eh & Hm).
  destruct (source_array_add _ _ _ _ _ w) as [[s|] w1]; cbn [fst snd] in *.
  2: { exists None, w1. split; [done|]. split; [apply grows_same; [done|done|by apply surplus_view]|by apply (knows_view _ _ w)]. }
  destruct Hm as (-> & Efr & x & Es). pose proof (registered_fresh w (kn_fresh _ _ _ K)) as Hno.
  assert (fresh w ∉ S) as HnS by (intros H; apply (kn_sources _ _ _ K) in H as [y Hy]; congruence).
  (* whatever is put at the new place *)
  assert (forall n y, let w2 := set_active (count_sys (put_source w1 (fresh w) y)) n in
    registered w2 = (if is_registered y then <[fresh w := y]> (registered w) else registered w) /\
    (forall s, is_Some (sources w2 !! s) -> s < fresh w2)) as Hput.
  { intros n y w2. split.
    - assert (registered w2 = registered (put_source w (fresh w) y)) as ->.
      { unfold registered. f_equal. change (sources w2) with (<[fresh w := y]> (sources w1)). by rewrite Es, insert_insert_eq. }
      rewrite registered_put. destruct (is_registered y); [done|]. by apply delete_id.
    - intros s. change (sources w2) with (<[fresh w := y]> (sources w1)). change (fresh w2) with (fresh w1). rewrite Es, insert_insert_eq, Efr.
      destruct (decide (s = fresh w)) as [->|]; [lia|]. rewrite lookup_insert_ne by done. intros H. apply (kn_fresh _ _ _ K) in H. lia. }
  unfold backend. cbn [fst snd]. destruct (syscall e _).
  - set (y := Source fd (Z.land mask (Z.lnot xEvent_LevelTriggered)) f a false (negb (Z.land mask xEvent_LevelTriggered =? 0)%Z)).
    destruct (Hput (active_handles w1 + 1)%Z y) as [Hreg Hfr]. set (w2 := set_active _ _) in Hreg, Hfr.
    exists (Some (fresh w)), w2. split; [done|]. cbn [is_registered deleted negb y] in Hreg. split.
    + apply grows_same; [done|done|]. unfold surplus. rewrite Hreg. change (active_handles w2) with (active_handles w1 + 1)%Z.
      change (timer_heap w2) with (timer_heap w1). rewrite map_size_insert_None, Ea, Eh by done. lia.
    + split; [done|]. split; [intros t Ht; change (timers w2) with (timers w1); rewrite Et; by apply (kn_timers _ _ _ K)| |exact Hfr].
      intros s Hs. rewrite Hreg. apply elem_of_union in Hs as [Hs|Hs%elem_of_singleton]; [|subst s; by rewrite lookup_insert_eq].
      rewrite lookup_insert_ne by (intros <-; done). by apply (kn_sources _ _ _ K).
  - unfold source_array_remove. change (sources (count_sys ?u)) with (sources u). cbn [sources put_source set_sources]. rewrite lookup_insert_eq. cbn [mbind option_bind].
    eexists None, _. split; [done|]. match goal with |- context [put_source (count_sys (put_source w1 (fresh w) ?z)) (fresh w) ?y] =>
      set (w2 := put_source (count_sys (put_source w1 (fresh w) z)) (fresh w) y); destruct (Hput (active_handles w1) y) as [Hreg Hfr] end.
    cbn [is_registered deleted negb] in Hreg.
    assert (sources w2 = <[fresh w := Source (s_fd (Source fd (Z.land mask (Z.lnot xEvent_LevelTriggered)) f a false (negb (Z.land mask xEvent_LevelTriggered =? 0)%Z)))
      (Z.land mask (Z.lnot xEvent_LevelTriggered)) f a true (negb (Z.land mask xEvent_LevelTriggered =? 0)%Z)]> (sources w1)) as Es2.
    { unfold w2. cbn [sources put_source set_sources count_sys]. by rewrite insert_insert_eq. }
    assert (registered w2 = registered w) as Hreg2.
    { rewrite <- Hreg. unfold registered. f_equal. rewrite Es2. done. }
    split.
    + apply grows_same; [done|done|]. unfold surplus. rewrite Hreg2. change (active_handles w2) with (active_handles w1). change (timer_heap w2) with (timer_heap w1). by rewrite Ea, Eh.
    + split; [intros t Ht; change (timers w2) with (timers w1); rewrite Et; by apply (kn_timers _ _ _ K)|intros s Hs; rewrite Hreg2; by apply (kn_sources _ _ _ K)|].
      intros s. rewrite Es2. apply Hfr.
Qed.

Lemma xEventMod_safe src mask T S R w : knows T S w -> match src with Some s => s ∈ S | None => True end ->
  exists r, xEventMod e src mask w = Some r /\ grows 0 R w r.2 /\ knows T S r.2.
Proof.
  intros K Hs. unfold xEventMod. destruct src as [src|]; [|eexists; split; [done|]; split; [by apply grows_same|done]].
  destruct (kn_sources _ _ _ K _ Hs) as [s Hreg]. destruct (registered_lookup _ _ _ Hreg) as [Hsrc Hdel]. rewrite Hsrc. cbn [mbind option_bind].
  assert (src < fresh w) as Hlt by (apply (kn_fresh _ _ _ K); by rewrite Hsrc).
  unfold backend. destruct (syscall e _); eexists; (split; [done|]); cbn [snd]; (split; [apply grows_same; try done|]).
  - unfold surplus. rewrite registered_put. unfold is_registered. cbn [deleted]. rewrite Hdel. cbn [negb].
    change (registered (count_sys w)) with (registered w). by rewrite map_size_insert_Some.
  - apply knows_put; [by apply (knows_view _ _ w)|done|]. cbn [is_registered deleted]. by rewrite Hdel.
  - by apply (knows_view _ _ w).
Qed.

Lemma xEventDel_safe src T S R w : knows T S w -> match src with Some s => s ∈ S | None => True end ->
  exists r, xEventDel src w = Some r /\ grows 0 R w r.2 /\ knows T (match src with Some s => S ∖ {[s]} | None => S end) r.2.
Proof.
  intros K Hs. unfold xEventDel. destruct src as [src|]; [|eexists; split; [done|]; split; [by apply grows_same|done]].
  destruct (kn_sources _ _ _ K _ Hs) as [s Hreg]. destruct (registered_lookup _ _ _ Hreg) as [Hsrc Hdel].
  unfold source_array_remove. cbn [sources set_active]. rewrite Hsrc. cbn [mbind option_bind].
  assert (src < fresh w) as Hlt by (apply (kn_fresh _ _ _ K); by rewrite Hsrc).
  eexists. split; [done|]. cbn [snd]. split.
  - apply grows_same; [done|done|]. unfold surplus. rewrite registered_put. cbn [is_registered deleted negb].
    change (registered (set_active w ?n)) with (registered w). rewrite map_size_delete_Some by done.
    cbn [active_handles put_source set_sources set_active timer_heap].
    assert (base.size (registered w) <> 0) by (intros H0; apply map_size_empty_iff in H0; rewrite H0 in Hreg; by rewrite lookup_empty in Hreg). lia.
  - apply knows_put; [|done|intros _; set_solver]. destruct K as [Kt Ks Kf]. split; [done| |done]. intros x Hx. apply Ks. set_solver.
Qed.

(** *** Timers, posts, signals *)

Lemma start_safe f a c to rp T S R w : ev_inv R w -> knows T S w ->
  exists t w1, xTimerStart e f a c to rp w = Some (t, w1) /\ ev_inv R w1 /\ grows 1 R w w1 /\ knows (T ∪ {[t]}) S w1.
Proof.
  intros I [Kt Ks Kf]. destruct (xTimerStart_spec e f a c to rp R w I) as (t & w1 & -> & St & Esrc & Hfr & Ht & Hyes & Hno).
  assert (grows 1 R w w1) as G.
  { split; [| | |done].
    - intros x Hx. destruct Ht as [->|(y & tm & ->)]; [done|]. destruct (decide (x = y)) as [->|]; [by rewrite lookup_insert_eq|by rewrite lookup_insert_ne].
    - destruct Ht as [->|(y & tm & ->)]; [lia|]. rewrite map_size_insert. destruct (timers w !! y); cbn [id]; lia.
    - unfold surplus, registered. rewrite Esrc. destruct (decide (t = 0%Z)) as [Hz|Hnz]; [by destruct (Hno Hz) as [-> ->]|].
      destruct (Hyes Hnz) as (f' & _ & Hl & -> & _). rewrite Hl. cbn [length]. lia. }
  exists t, w1. split; [done|]. split; [apply St|]. split; [done|]. split.
  - intros x Hx. apply elem_of_union in Hx as [Hx|Hx%elem_of_singleton].
    + destruct (Kt x Hx); [by left|right; by apply G].
    + subst x. destruct (decide (t = 0%Z)) as [Hz|Hnz]; [by left|]. destruct (Hyes Hnz) as (f' & _ & _ & _ & ->). by right.
  - unfold registered. rewrite Esrc. exact Ks.
  - rewrite Esrc. intros s H. specialize (Kf s H). lia.
Qed.

Lemma stop_safe t T S R w : ev_inv R w -> knows T S w -> (t = 0%Z \/ t ∈ T) -> base.size (timers w) <= TIMER_POOL_MAX ->
  exists err w1, timer_stop_direct t w = Some (err, w1) /\ ev_inv R w1 /\ grows 0 R w w1 /\ knows T S w1.
Proof.
  intros I K Ht Hs. destruct (timer_stop_spec R w t I) as (err & w1 & -> & St & Hyes & Hno); [destruct Ht as [->|Ht]; [by left|by apply (kn_timers _ _ _ K)]|].
  exists err, w1. split; [done|]. split; [apply St|].
  destruct (decide (err = xErrno_Ok)) as [He|He]; [|destruct (Hno He) as [-> _]; split; [by apply grows_same|done]].
  destruct (Hyes He) as (Hl & Hp & Es & Ef & Ea & Et). assert (timers w1 = timers w) as Et'.
  { apply Et. apply (pool_room R w t); [done|by apply (live_not_pooled R)| |lia]. destruct (ei_armed _ _ I t Hl) as (tm & -> & _). done. }
  split; [|apply (knows_view _ _ w); [done|done|lia|done]]. apply grows_same; [done|lia|].
  unfold surplus, registered. rewrite Es, Ea, <- Hp. cbn [length]. lia.
Qed.

(** A call that is none of the timers' or sources' business *)
Lemma aside_safe T S R w w1 : ev_inv R w -> knows T S w -> other w w1 ->
  sources w1 = sources w -> active_handles w1 = active_handles w -> ev_inv R w1 /\ grows 0 R w w1 /\ knows T S w1.
Proof.
  intros I K Ho E2 E3. pose proof (ot_view _ _ Ho) as Hv. unfold tview in Hv. injection Hv as E1 E4 _ _.
  split; [apply (other_step R _ _ I Ho)|]. split; [apply grows_same; [done|apply Ho|by apply surplus_view]|].
  apply (knows_view _ _ w); [done|done|apply Ho|done].
Qed.

Lemma post_safe f a T S R w : ev_inv R w -> knows T S w ->
  ev_inv R (xEventLoopPost e f a w).2 /\ grows 0 R w (xEventLoopPost e f a w).2 /\ knows T S (xEventLoopPost e f a w).2.
Proof.
  intros I K. apply aside_safe; [done|done|apply xEventLoopPost_other|..];
    unfold xEventLoopPost, event_work_alloc, enqueue, xEventLoopWake; (destruct f; [|done]); destruct (work_freelist w);
    try (destruct (alloc e _); [|done]); cbn [fst snd]; by destruct (wake_pending _).
Qed.

Lemma signal_safe sg f a T S R w : ev_inv R w -> knows T S w ->
  ev_inv R (xSignal e sg f a w).2 /\ grows 0 R w (xSignal e sg f a w).2 /\ knows T S (xSignal e sg f a w).2.
Proof.
  intros I K. apply aside_safe; [done|done|apply xSignal_other|..]; unfold xSignal, backend; (destruct (_ || _); [done|]);
    destruct f, (signal_watches w !! sg); try done; cbn zeta; by destruct (syscall e _).
Qed.

(** ** Callbacks that keep to the rules *)

Lemma run_prog_safe n p T S R w : ev_inv R w -> prog_ok n T S p -> knows T S w -> base.size (timers w) + n <= TIMER_POOL_MAX ->
  exists w', run_prog e p w = Some w' /\ grows n R w w' /\ knows (kt (user w')) (ks (user w')) w'.
Proof.
  revert n T S w. induction p as [u|f a c to rp k IH|t k IH|fd m f a k IH|src m k IH|src k IH|f a k IH|sg f a k IH|k IH];
    intros n T S w I Hok K Hs; cbn [run_prog prog_ok] in *.
  - destruct Hok as [H1 H2]. exists (set_user w u). split; [done|]. split; [by apply (grows_le 0); [lia|apply grows_same]|].
    destruct K as [Kt Ks Kf]. split; [intros t Ht; apply Kt; set_solver|intros s Hs'; apply Ks; set_solver|done].
  - destruct n as [|n]; [done|]. destruct (start_safe f a c to rp T S R w I K) as (t & w1 & -> & I1 & G1 & K1). cbn [mbind option_bind fst snd].
    destruct (IH t n _ _ w1 I1 (Hok t) K1) as (w' & E & G & K'); [pose proof (gr_size _ _ _ _ G1); lia|].
    exists w'. split; [done|]. split; [|done]. by apply (grows_trans 1 n R w w1).
  - destruct Hok as [Ht Hok]. destruct (stop_safe t T S R w I K Ht ltac:(lia)) as (err & w1 & -> & I1 & G1 & K1). cbn [mbind option_bind fst snd].
    destruct (IH err n T S w1 I1 (Hok err) K1) as (w' & E & G & K'); [pose proof (gr_size _ _ _ _ G1); lia|].
    exists w'. split; [done|]. split; [|done]. by apply (grows_trans 0 n R w w1).
  - destruct Hok as [Hn Hy]. destruct (xEventAdd_safe fd m f a T S R w K) as (o & w1 & E & G1 & K1). pose proof (xEventAdd_other e _ _ _ _ _ _ E) as Ho.
    rewrite E. cbn [mbind option_bind fst snd] in *. pose proof (st_inv _ _ _ (other_step R _ _ I Ho)) as I1. pose proof (gr_size _ _ _ _ G1).
    assert (exists T' S', prog_ok n T' S' (k o) /\ knows T' S' w1) as (T' & S' & Hk & K2) by (destruct o as [s|]; [destruct K1; eauto|eauto]).
    destruct (IH o n _ _ w1 I1 Hk K2) as (w' & E' & G & K'); [lia|]. exists w'. split; [done|]. split; [|done]. by apply (grows_trans 0 n R w w1).
  - destruct Hok as [Hsrc Hok]. destruct (xEventMod_safe src m T S R w K Hsrc) as (r & E & G1 & K1). pose proof (xEventMod_other e _ _ _ _ E) as Ho.
    rewrite E. cbn [mbind option_bind]. pose proof (gr_size _ _ _ _ G1).
    destruct (IH r.1 n _ _ r.2 (st_inv _ _ _ (other_step R _ _ I Ho)) (Hok _) K1) as (w' & E' & G & K'); [lia|].
    exists w'. split; [done|]. split; [|done]. by apply (grows_trans 0 n R w r.2).
  - destruct Hok as [Hsrc Hok]. destruct (xEventDel_safe src T S R w K Hsrc) as (r & E & G1 & K1). pose proof (xEventDel_other _ _ _ E) as Ho.
    rewrite E. cbn [mbind option_bind]. pose proof (gr_size _ _ _ _ G1).
    destruct (IH r.1 n _ _ r.2 (st_inv _ _ _ (other_step R _ _ I Ho)) (Hok _) K1) as (w' & E' & G & K'); [lia|].
    exists w'. split; [done|]. split; [|done]. by apply (grows_trans 0 n R w r.2).
  - destruct (post_safe f a T S R w I K) as (I1 & G1 & K1). pose proof (gr_size _ _ _ _ G1).
    destruct (IH (xEventLoopPost e f a w).1 n T S _ I1 (Hok _) K1) as (w' & E' & G & K'); [lia|]. exists w'. split; [done|]. split; [|done]. eapply (grows_trans 0 n); done.
  - destruct (signal_safe sg f a T S R w I K) as (I1 & G1 & K1). pose proof (gr_size _ _ _ _ G1).
    destruct (IH (xSignal e sg f a w).1 n T S _ I1 (Hok _) K1) as (w' & E' & G & K'); [lia|]. exists w'. split; [done|]. split; [|done]. eapply (grows_trans 0 n); done.
  - destruct (aside_safe T S R w (xEventLoopStop w) I K) as (I1 & G1 & K1); [by split; [..|exists []; by rewrite app_nil_r]|done|done|].
    destruct (IH tt n T S _ I1 Hok K1) as (w' & E' & G & K'); [done|]. exists w'. split; [done|]. split; [|done]. eapply (grows_trans 0 n); done.
Qed.

Lemma list_filter_all {A} (P : A -> Prop) `{!forall x, Decision (P x)} l : Forall P l -> filter P l = l.
Proof. induction 1 as [|x l Hx _ IH]; [done|]. by rewrite filter_cons_True, IH. Qed.

Lemma list_filter_none {A} (P : A -> Prop) `{!forall x, Decision (P x)} l : Forall (fun x => ~ P x) l -> filter P l = [].
Proof. induction 1 as [|x l Hx _ IH]; [done|]. by rewrite filter_cons_False. Qed.

(** Each callback starts at most [a] timers. *)
Definition code_ok (a : nat) : Prop := forall c u, prog_ok a (kt u) (ks u) (code c u).
Definition user_ok w : Prop := knows (kt (user w)) (ks (user w)) w.

Lemma dispatch_safe a c R w : code_ok a -> ev_inv R w -> user_ok w -> base.size (timers w) + a <= TIMER_POOL_MAX ->
  exists w', dispatch e code c w = Some w' /\ grows a R w w' /\ user_ok w'.
Proof.
  intros Hc I K Hs. unfold dispatch.
  destruct (run_prog_safe a (code c (user w)) (kt (user w)) (ks (user w)) R (log_call w c)) as (w' & E & G & K'); [by apply (ev_inv_view R w)|apply Hc|by apply (knows_view _ _ w)|done|].
  exists w'. split; [done|]. split; [|done]. destruct G as [Gt Gs Gu Gf]. split; [done|done|exact Gu|done].
Qed.

Lemma fire_safe a t R w : code_ok a -> ev_inv (t :: R) w -> user_ok w -> base.size (timers w) + a <= TIMER_POOL_MAX ->
  exists w', fire e code t w = Some w' /\ ev_inv R w' /\ user_ok w' /\ base.size (timers w') <= base.size (timers w) + a /\
    (surplus (t :: R) w <= surplus R w')%Z /\ ((forall n, alloc e n = true) -> surplus R w' = surplus (t :: R) w).
Proof.
  intros Hc I K Hs. destruct (ei_ready _ _ I t) as (tm & Htm & _); [by apply elem_of_cons; left|].
  destruct (settle_spec e t R w tm I Htm) as (w1 & E1 & I1 & Eo & _ & Es & Ef & Ed & Ha & Hcase). destruct (ev_inv_drop _ _ _ I) as [I0 Hl].
  assert (timer_nfree w < TIMER_POOL_MAX) as Hroom by (apply (pool_room R w t); [done|apply Hl|by rewrite Htm|lia]). specialize (Ed Hroom).
  destruct Hcase as [[_ ?]|(tm' & Htm' & _)]; [done|].
  assert (user w1 = user w) as Eu.
  { revert E1. unfold settle, heap_push. case_decide.
    - destruct (xHeapPush _ _ _ _) as [[er [h|]]|]; [|done|done]. cbn [mbind option_bind snd]. by intros [= <-].
    - case_decide; [|by intros [= <-]]. intros [= <-]. unfold timer_free. by case_decide. }
  assert (base.size (timers w1) = base.size (timers w)) as Esz.
  { rewrite <- !(size_dom (D := gset Z)). f_equal. apply set_eq. intros x. rewrite !elem_of_dom. apply Ed. }
  assert (user_ok w1) as K1.
  { unfold user_ok. rewrite Eu. destruct K as [Kt Ks Kf]. split; [|unfold registered; by rewrite Es|by rewrite Es, Ef].
    intros x Hx. rewrite Ed. by apply Kt. }
  assert (surplus (t :: R) w <= surplus R w1)%Z as S1.
  { unfold surplus, registered. rewrite Es. cbn [length]. destruct Ha as [[-> ->]|[(-> & -> & _)|[-> ->]]]; cbn [length]; lia. }
  assert ((forall n, alloc e n = true) -> surplus R w1 = surplus (t :: R) w) as S2.
  { intros Hal. unfold surplus, registered. rewrite Es. cbn [length]. destruct Ha as [[-> ->]|[(_ & _ & Hno)|[-> ->]]]; cbn [length]; [lia|by rewrite Hal in Hno|lia]. }
  destruct (dispatch_safe a (CTimer (fn tm') (arg tm')) R w1 Hc I1 K1) as (w' & E' & G & K'); [lia|].
  destruct (callback_step _ _ _ _ _ _ I1 E') as (I' & _). exists w'. rewrite fire_settle, Htm. cbn [mbind option_bind]. rewrite E1. cbn [mbind option_bind].
  rewrite Htm'. cbn [mbind option_bind]. split; [done|]. split; [done|]. split; [done|]. destruct G as [_ Gs Gu _]. rewrite Gu. split; [lia|]. done.
Qed.

Lemma fire_all_safe a ts w : code_ok a -> ev_inv ts w -> user_ok w -> base.size (timers w) + a * length ts <= TIMER_POOL_MAX ->
  exists w', fire_all e code ts w = Some w' /\ ev_inv [] w' /\ user_ok w' /\
    (surplus ts w <= surplus [] w')%Z /\ ((forall n, alloc e n = true) -> surplus [] w' = surplus ts w).
Proof.
  intros Hc. revert w. induction ts as [|t ts IH]; intros w I K Hs; cbn [fire_all length] in *; [exists w; split_and!; done|].
  destruct (fire_safe a t ts w Hc I K) as (w1 & -> & I1 & K1 & Hsz & Hle & Heq); [lia|]. cbn [mbind option_bind].
  destruct (IH w1 I1 K1) as (w' & E & I' & K' & Hle' & Heq'); [lia|]. exists w'. split; [done|]. split; [done|]. split; [done|].
  split; [lia|]. intros Hal. rewrite Heq', Heq by done. done.
Qed.

Lemma pop_expired_same fuel now w ts w' : pop_expired fuel now w = Some (ts, w') ->
  sources w' = sources w /\ fresh w' = fresh w /\ active_handles w' = active_handles w /\ user w' = user w /\
  (forall t, is_Some (timers w' !! t) <-> is_Some (timers w !! t)).
Proof.
  revert w ts. induction fuel as [|fuel IH]; intros w ts; cbn [pop_expired]; [done|].
  destruct (decide (xHeapSize (Some (timer_heap w)) = 0)); [by intros [= <- <-]|].
  destruct (xHeapPeek _) as [t|]; [|done]. cbn [mbind option_bind]. destruct (timers w !! t) as [tm|] eqn:Et; [|done]. cbn [mbind option_bind].
  destruct (_ <? _)%Z; [by intros [= <- <-]|]. destruct (xHeapPop _ _) as [[x [h|]]|]; [|done|done]. cbn [mbind option_bind snd].
  set (w1 := invalidate_idx _ t). destruct (pop_expired fuel now w1) as [[ts' w2]|] eqn:E; [|done]. cbn [mbind option_bind fst snd].
  intros [= <- <-]. apply IH in E as (E1 & E2 & E3 & E4 & E5). split_and!; try done. intros y. rewrite E5.
  cbn [timers w1 invalidate_idx put_timer set_timers set_timer_heap]. destruct (decide (y = t)) as [->|]; [|by rewrite lookup_insert_ne].
  rewrite lookup_insert_eq, Et. naive_solver.
Qed.

Lemma run_timers_safe a w : code_ok a -> ev_inv [] w -> user_ok w ->
  base.size (timers w) + a * length (filter (fun t => (deadline_of w t <= time w)%Z) (live (timer_heap w))) <= TIMER_POOL_MAX ->
  exists n w', loop_run_timers e code w = Some (n, w') /\ ev_inv [] w' /\ user_ok w' /\
    (surplus [] w <= surplus [] w')%Z /\ ((forall n, alloc e n = true) -> surplus [] w' = surplus [] w).
Proof.
  intros Hc I K Hs. unfold loop_run_timers.
  destruct (pop_expired_spec (Datatypes.S (size (timer_heap w))) (time w) [] w I ltac:(lia)) as (ts & w1 & E & I1 & Eo & Hp & Hst & Hle & Hgt & _).
  rewrite E. cbn [mbind option_bind fst snd]. destruct (pop_expired_same _ _ _ _ _ E) as (Es & Ef & Ea & Eu & Edom).
  assert (length (filter (fun t => (deadline_of w t <= time w)%Z) (live (timer_heap w))) = length ts) as El.
  { rewrite <- Hp, filter_app, length_app. rewrite (list_filter_all _ ts) by done.
    rewrite (list_filter_none _ (live (timer_heap w1))); [cbn; lia|]. eapply Forall_impl; [exact Hgt|]. cbn. lia. }
  assert (base.size (timers w1) = base.size (timers w)) as Esz.
  { rewrite <- !(size_dom (D := gset Z)). f_equal. apply set_eq. intros x. rewrite !elem_of_dom. apply Edom. }
  destruct (fire_all_safe a ts w1 Hc I1) as (w' & -> & I' & K' & Hsle & Hseq).
  { unfold user_ok. rewrite Eu. destruct K as [Kt Ks Kf]. split; [|unfold registered; by rewrite Es|by rewrite Es, Ef]. intros x Hx. rewrite Edom. by apply Kt. }
  { lia. }
  assert (surplus ts w1 = surplus [] w) as E1.
  { unfold surplus, registered. rewrite Es, Ea, <- Hp, length_app. cbn [length]. lia. }
  rewrite E1 in *. cbn [mbind option_bind]. exists (length ts), w'. done.
Qed.

(** ** Posts *)

(** The callbacks of work items *)
Definition calls_of (l : list xWork_) : list call := omap (fun x => match x with WPost f a => Some (CPost f a) | WStop _ => None end) l.

(** Other threads stop timers they were given. *)
Definition stops_ok w : Prop := forall t, WStop t ∈ done w -> t = 0%Z \/ is_Some (timers w !! t).

Lemma stop_aside t w err w1 : timer_stop_direct t w = Some (err, w1) -> user w1 = user w /\ log w1 = log w /\ done w1 = done w.
Proof.
  unfold timer_stop_direct. destruct (decide (t = 0%Z)); [by intros [= <- <-]|]. destruct (timers w !! t) as [tm|]; [|done]. cbn [mbind option_bind].
  destruct (heap_idx w t); [|by intros [= <- <-]]. destruct (fired tm); [by intros [= <- <-]|].
  destruct (xHeapRemove _ _ _) as [[x [h|]]|]; [|done|done]. cbn [mbind option_bind snd]. intros [= <- <-]. unfold timer_free. by case_decide.
Qed.

Lemma run_work_safe a x w : code_ok a -> ev_inv [] w -> user_ok w -> (forall t, x = WStop t -> t = 0%Z \/ is_Some (timers w !! t)) ->
  base.size (timers w) + a <= TIMER_POOL_MAX ->
  exists w' new, run_work e code x w = Some w' /\ ev_inv [] w' /\ user_ok w' /\ grows a [] w w' /\
    log w' = log w ++ calls_of [x] /\ done w' = done w ++ posts new.
Proof.
  intros Hc I K Hx Hs. destruct x as [f b|t]; cbn [run_work].
  - destruct (dispatch_safe a (CPost f b) [] w Hc I K Hs) as (w' & E & G & K'). destruct (callback_step _ _ _ _ _ _ I E) as (I' & L & _ & _ & new & D).
    by exists w', new.
  - destruct K as [Kt Ks Kf]. assert (knows (kt (user w) ∪ {[t]}) (ks (user w)) w) as K1.
    { split; [|done|done]. intros y Hy. apply elem_of_union in Hy as [Hy|Hy%elem_of_singleton]; [by apply Kt|]. subst y. by apply Hx. }
    destruct (stop_safe t (kt (user w) ∪ {[t]}) (ks (user w)) [] w I K1) as (err & w1 & E & I1 & G & K2); [right; set_solver|lia|].
    destruct (stop_aside _ _ _ _ E) as (Eu & El & Ed). rewrite E. cbn [mbind option_bind snd]. exists w1, []. split; [done|]. split; [done|]. split.
    { unfold user_ok. rewrite Eu. destruct K2 as [Kt2 Ks2 Kf2]. split; [|done|done]. intros y Hy. apply Kt2. set_solver. }
    split; [by apply (grows_le 0); [lia|]|]. rewrite El, Ed. cbn. by rewrite !app_nil_r.
Qed.

Lemma run_done_safe a n w : code_ok a -> ev_inv [] w -> user_ok w -> stops_ok w -> base.size (timers w) + a * n <= TIMER_POOL_MAX ->
  exists taken new w', loop_run_done e code n w = Some (length taken, w') /\ ev_inv [] w' /\ user_ok w' /\ surplus [] w' = surplus [] w /\
    done w ++ posts new = taken ++ done w' /\ log w' = log w ++ calls_of taken /\
    length taken <= n /\ (length taken < n -> done w' = []).
Proof.
  intros Hc. revert w. induction n as [|n IH]; intros w I K Hst Hs; cbn [loop_run_done].
  { exists [], [], w. cbn. rewrite !app_nil_r. split_and!; try done; lia. }
  destruct (done w) as [|x q] eqn:Ed.
  { exists [], [], w. cbn. rewrite !app_nil_r. split_and!; try done; lia. }
  assert (ev_inv [] (set_done w q) /\ user_ok (set_done w q)) as [I1 K1] by (split; [by apply (ev_inv_view [] w)|by apply (knows_view _ _ w)]).
  destruct (run_work_safe a x (set_done w q) Hc I1 K1) as (w1 & new1 & -> & I2 & K2 & G & L & D); [|cbn; lia|].
  { intros t ->. apply Hst. rewrite Ed. by apply elem_of_cons; left. }
  cbn [mbind option_bind]. change (done (set_done w q)) with q in D. change (log (set_done w q)) with (log w) in L.
  assert (surplus [] (set_done w q) = surplus [] w) as Es by done. rewrite <- Es.
  destruct (IH (event_work_free w1)) as (taken & new & w' & -> & I' & K' & Su & D' & L' & Hlen & Hend).
  - by apply (ev_inv_view [] w1).
  - by apply (knows_view _ _ w1).
  - intros t Ht. change (done (event_work_free w1)) with (done w1) in Ht. rewrite D in Ht. apply elem_of_app in Ht as [Ht|Ht].
    + destruct (Hst t) as [?|?]; [rewrite Ed; by apply elem_of_cons; right|by left|right; by apply G].
    + unfold posts in Ht. apply list_elem_of_fmap in Ht as (y & ? & _). done.
  - change (timers (event_work_free w1)) with (timers w1). pose proof (gr_size _ _ _ _ G). cbn in *. lia.
  - cbn [mbind option_bind fst snd]. exists (x :: taken), (new1 ++ new), w'. split; [done|]. split; [done|]. split; [done|].
    split; [rewrite Su; exact (gr_surplus _ _ _ _ G)|]. change (done (event_work_free w1)) with (done w1) in D'. change (log (event_work_free w1)) with (log w1) in L'.
    split; [|split; [|split; [cbn; lia|cbn; intros; apply Hend; lia]]].
    + unfold posts in *. rewrite fmap_app. cbn [app]. f_equal. rewrite <- D', D. by rewrite app_assoc.
    + rewrite L', L, <- app_assoc. f_equal. unfold calls_of. by destruct x.
Qed.

Lemma alive_spec w : ev_inv [] w -> surplus [] w = 0%Z -> loop_alive w = false <-> live (timer_heap w) = [] /\ registered w = ∅ /\ done w = [].
Proof.
  unfold surplus, loop_alive. cbn [length xHeapSize]. intros I H. rewrite !orb_false_iff, negb_false_iff, bool_decide_eq_true. split.
  - intros [[H1 H2] H3]. apply Z.ltb_ge in H1. assert (length (live (timer_heap w)) = 0 /\ base.size (registered w) = 0) as [E1 E2] by lia.
    split; [by apply length_zero_iff_nil|]. split; [by apply map_size_empty_iff|done].
  - intros (E1 & E2 & E3). rewrite E1, E2, map_size_empty in H. cbn [length] in H. split; [split|done].
    + apply Z.ltb_ge. lia.
    + apply Nat.ltb_ge. unfold live in E1. apply (f_equal length) in E1. rewrite length_take in E1. cbn in E1.
      destruct (inv_wf _ _ (ei_heap _ _ I)) as [Wc Ws _]. lia.
Qed.
End safe.
