(* ===== verification/EventLoop.v ===== *)
(** * EventLoop: what the event loop promises, and where it does not keep it *)

From Stdlib Require Import Sorting.Sorted.
From S2P Require Import Prelude Errno Heap Event EventTimer EventSafe.

(** A loop with an empty heap is in order. *)
Lemma loop_create_inv {U} (h : xHeap_) (u : U) : length (data h) = cap h -> size h = 0 -> idx h = ∅ -> ev_inv [] (xEventLoopCreate h u).
Proof.
  intros Hl Hz Hi. assert (live h = []) as El by (unfold live; by rewrite Hz).
  split; unfold heap_idx; cbn [timer_heap timers timer_free_ timer_nfree fresh xEventLoopCreate app]; rewrite ?El; try done.
  - split; [split; [done|lia|intros i a; lia]|intros j; lia].
  - intros t. rewrite Hi, lookup_empty. split; [by intros [? ?]|by intros ?%elem_of_nil].
  - by intros t ?%elem_of_nil.
  - by intros t ?%elem_of_nil.
  - by intros t ?%elem_of_nil.
  - constructor.
  - unfold TIMER_POOL_MAX. lia.
  - intros t. rewrite lookup_empty. by intros [? ?].
Qed.

Lemma set_time_inv {U} R (w : xEventLoop_ U) n : ev_inv R w -> ev_inv R (set_time w n).
Proof. by apply ev_inv_view. Qed.

Lemma set_done_inv {U} R (w : xEventLoop_ U) q : ev_inv R w -> ev_inv R (set_done w q).
Proof. by apply ev_inv_view. Qed.

(** ** The time a wait may take *)

Lemma wait_ms_spec d now : (- 2 ^ 63 <= d - now < 2 ^ 63)%Z ->
  wait_ms d now = Z.min (Z.max 0 (d - now)) INT_MAX.
Proof.
  intros H. unfold wait_ms, INT_MAX, u64. destruct (decide (0 <= d - now)%Z).
  - rewrite Z.mod_small by lia. destruct (Z.ltb_spec (d - now) (2 ^ 63)); [|lia]. destruct (Z.ltb_spec (d - now) 0); [lia|].
    destruct (Z.ltb_spec (2 ^ 31 - 1) (d - now)); lia.
  - replace ((d - now) mod 2 ^ 64)%Z with (d - now + 2 ^ 64)%Z.
    2: { apply Z.mod_unique with (q := (-1)%Z); lia. }
    destruct (Z.ltb_spec (d - now + 2 ^ 64) (2 ^ 63)); [lia|]. destruct (Z.ltb_spec (d - now + 2 ^ 64 - 2 ^ 64) 0); lia.
Qed.


(** ** Passes *)

(** C16: Whatever the callbacks do, a pass of [loop_run_timers] over a loop in order
    invokes exactly the timers that had expired when it began, each once and
    in the order of their deadlines, with the function and argument they were
    started with, and leaves the loop in order: no callback can make another
    expired timer fire twice, out of turn or not at all. *)
Theorem event_timers_fire {U : Type} (e : env) (code : call -> U -> prog U) (w w' : xEventLoop_ U) (n : nat) :
  ev_inv [] w -> loop_run_timers e code w = Some (n, w') ->
  exists ts, log w' = log w ++ (call_of w <$> ts) /\ n = length ts /\ NoDup ts /\
    (forall t, t ∈ ts <-> t ∈ live (timer_heap w) /\ (deadline_of w t <= time w)%Z) /\
    StronglySorted (fun a b => (deadline_of w a <= deadline_of w b)%Z) ts /\
    ev_inv [] w'.
Proof.
  intros I. unfold loop_run_timers.
  destruct (pop_expired_spec (S (size (timer_heap w))) (time w) [] w I ltac:(lia)) as (ts & w1 & -> & I1 & Eo & Hp & Hst & Hle & Hgt & Hs).
  cbn [mbind option_bind fst snd]. destruct (fire_all e code ts w1) as [w2|] eqn:E; [|done]. cbn [mbind option_bind]. intros [= <- <-].
  apply (fire_all_spec e code ts []) in E as (I2 & L & T); [|by rewrite app_nil_r]. unfold oview in Eo. injection Eo as E1 E2 _ _.
  exists ts. split; [|split; [done|split; [|split; [|done]]]].
  - rewrite L, E1. f_equal. apply list_fmap_ext. intros i x _. apply call_of_static, Hst.
  - pose proof (live_NoDup _ _ (ei_heap _ _ I)) as Hnd. rewrite <- Hp in Hnd. by apply NoDup_app in Hnd as [? _].
  - intros t. rewrite <- Hp, elem_of_app. rewrite Forall_forall in Hle, Hgt. split; [by intros Ht; split; [left|apply Hle]|].
    intros [[Ht|Ht] Hd]; [done|]. apply Hgt in Ht. lia.
Qed.

(** C17: Callbacks that stop only timers they were given and change or remove only
    registered sources, each starting at most [a] timers, run to their end in
    a pass over the timers while there are at most 256 timer structs, the
    bound of the recycling list; the loop stays in order, and
    [active_handles], when it counted the armed timers and the registered
    sources, still counts no less, and exactly those while memory lasts: the
    loop then ends just when no timer, no source and no post is left. *)
Theorem event_pass_safe {U : Type} (e : env) (code : call -> U -> prog U) (kt : U -> gset Z) (ks : U -> gset nat)
    (a : nat) (w : xEventLoop_ U) :
  code_ok code kt ks a -> ev_inv [] w -> user_ok kt ks w ->
  base.size (timers w) + a * length (filter (fun t => (deadline_of w t <= time w)%Z) (live (timer_heap w))) <= TIMER_POOL_MAX ->
  exists n w', loop_run_timers e code w = Some (n, w') /\ ev_inv [] w' /\ user_ok kt ks w' /\
    (surplus [] w <= surplus [] w')%Z /\
    ((forall n, alloc e n = true) -> surplus [] w = 0%Z ->
       surplus [] w' = 0%Z /\ (loop_alive w' = false <-> live (timer_heap w') = [] /\ registered w' = ∅ /\ done w' = [])).
Proof.
  intros Hc I K Hs. destruct (run_timers_safe e code kt ks a w Hc I K Hs) as (n & w' & E & I' & K' & Hle & Heq).
  exists n, w'. split; [done|]. split; [done|]. split; [done|]. split; [done|]. intros Hal Hz. rewrite (Heq Hal). split; [done|].
  apply alive_spec; [done|]. by rewrite (Heq Hal).
Qed.

(** C18: Posted callbacks run in the order of the posts, each once: a call of
    [loop_run_done] takes works off the front of the queue, at most
    [max_batch] and less only when it empties it, and what the callbacks post
    meanwhile goes behind; a post of [xTimerStop] from another thread stops
    the timer. *)
Theorem event_posts_fifo {U : Type} (e : env) (code : call -> U -> prog U) (kt : U -> gset Z) (ks : U -> gset nat)
    (a max_batch : nat) (w : xEventLoop_ U) :
  code_ok code kt ks a -> ev_inv [] w -> user_ok kt ks w -> stops_ok w ->
  base.size (timers w) + a * max_batch <= TIMER_POOL_MAX ->
  exists taken new w', loop_run_done e code max_batch w = Some (length taken, w') /\
    done w ++ posts new = taken ++ done w' /\ log w' = log w ++ calls_of taken /\
    length taken <= max_batch /\ (length taken < max_batch -> done w' = []) /\
    ev_inv [] w' /\ user_ok kt ks w'.
Proof.
  intros Hc I K Hst Hs. destruct (run_done_safe e code kt ks a max_batch w Hc I K Hst Hs) as (taken & new & w' & E & I' & K' & _ & D & L & Hn & Hend).
  exists taken, new, w'. done.
Qed.

(** ** At concrete inputs *)

Module Demo.
(** Everything succeeds; the clock starts at 1000 and advances by 10 at each
    reading; nothing happens in the kernel. *)
Definition quiet : env := Env (fun n => 1000 + 10 * Z.of_nat n)%Z (fun _ => true) (fun _ => true) (fun _ => Wait [] []).

(** The callback of function 1 starts function 2 after 5 ms and posts function
    3; the others do nothing.  The state counts the calls. *)
Definition code (c : call) (u : nat) : prog nat :=
  match c with
  | CTimer 1 arg => TimerStart (Some 2) arg None 5 0 (fun _ => Post (Some 3) arg (fun _ => Done (S u)))
  | _ => Done (S u)
  end.

Definition heap16 : xHeap_ := mkHeap (replicate 16 0%Z) 0 16 ∅.

(** Two timers, the later one started first, and a source *)
Definition setup : prog nat :=
  TimerStart (Some 1) 11 None 30 0 (fun _ => TimerStart (Some 1) 12 None 0 7 (fun _ => EventAdd 5 1 (Some 4) 13 (fun _ => Done 0))).

Definition start : xEventLoop_ nat := xEventLoopCreate heap16 0.
Definition armed : xEventLoop_ nat := default start (run_prog quiet setup start).
Definition due : xEventLoop_ nat := set_time armed 1030.

Lemma start_inv : ev_inv [] start.
Proof. by apply loop_create_inv. Qed.

Lemma armed_inv : ev_inv [] armed.
Proof.
  assert (run_prog quiet setup start = Some armed) as E.
  { unfold armed. assert (is_Some (run_prog quiet setup start)) as [x E]; [|by rewrite E]. vm_compute. by eexists. }
  apply (run_prog_step quiet [] setup) in E; [apply E|apply start_inv].
Qed.

Lemma due_inv : ev_inv [] due.
Proof. exact (set_time_inv [] armed 1030 armed_inv). Qed.

Lemma code_rules : code_ok code (fun _ => ∅) (fun _ => ∅) 1.
Proof. intros [[|[|f]] a|f a|f fd m a|f a|f sg a] u; cbn; set_solver. Qed.

Lemma knows_none (w : xEventLoop_ nat) : bool_decide (map_Forall (fun s _ => s < fresh w) (sources w)) = true -> user_ok (fun _ => ∅) (fun _ => ∅) w.
Proof.
  intros H%bool_decide_eq_true. split; [by intros t ?%not_elem_of_empty|by intros s ?%not_elem_of_empty|]. intros s [x Hx]. exact (H s x Hx).
Qed.

Lemma due_user : user_ok (fun _ => ∅) (fun _ => ∅) due.
Proof. apply knows_none. vm_compute. reflexivity. Qed.

(** Posts of two threads, one of which stops the first timer *)
Definition queued : xEventLoop_ nat := set_done armed [WPost 3 21; WStop 1; WPost 3 22].

Lemma queued_inv : ev_inv [] queued.
Proof. exact (set_done_inv [] armed _ armed_inv). Qed.

Lemma queued_user : user_ok (fun _ => ∅) (fun _ => ∅) queued.
Proof. apply knows_none. vm_compute. reflexivity. Qed.

Lemma queued_stops : stops_ok queued.
Proof.
  intros t Ht. right. assert (t = 1%Z) as ->; [|by vm_compute; eexists].
  change (done queued) with [WPost 3 21; WStop 1; WPost 3 22] in Ht. set_solver.
Qed.
End Demo.

Example event_timers_fire_witness : exists n w', loop_run_timers Demo.quiet Demo.code Demo.due = Some (n, w') /\
  exists ts, log w' = log Demo.due ++ (call_of Demo.due <$> ts) /\ n = length ts /\ NoDup ts /\
    (forall t, t ∈ ts <-> t ∈ live (timer_heap Demo.due) /\ (deadline_of Demo.due t <= time Demo.due)%Z) /\
    StronglySorted (fun a b => (deadline_of Demo.due a <= deadline_of Demo.due b)%Z) ts /\ ev_inv [] w'.
Proof.
  destruct (loop_run_timers Demo.quiet Demo.code Demo.due) as [[n w']|] eqn:E; [|exfalso; vm_compute in E; discriminate].
  exists n, w'. split; [reflexivity|]. exact (event_timers_fire Demo.quiet Demo.code Demo.due w' n Demo.due_inv E).
Defined.

Example event_pass_safe_witness : exists n w', loop_run_timers Demo.quiet Demo.code Demo.due = Some (n, w') /\ ev_inv [] w' /\
  user_ok (fun _ => ∅) (fun _ => ∅) w' /\ (surplus [] Demo.due <= surplus [] w')%Z /\
  ((forall n, alloc Demo.quiet n = true) -> surplus [] Demo.due = 0%Z ->
     surplus [] w' = 0%Z /\ (loop_alive w' = false <-> live (timer_heap w') = [] /\ registered w' = ∅ /\ done w' = [])).
Proof.
  apply (event_pass_safe Demo.quiet Demo.code (fun _ => ∅) (fun _ => ∅) 1 Demo.due).
  - exact Demo.code_rules.
  - exact Demo.due_inv.
  - exact Demo.due_user.
  - apply Nat.leb_le. vm_compute. reflexivity.
Defined.

Example event_posts_fifo_witness : exists taken new w', loop_run_done Demo.quiet Demo.code 2 Demo.queued = Some (length taken, w') /\
  done Demo.queued ++ posts new = taken ++ done w' /\ log w' = log Demo.queued ++ calls_of taken /\
  length taken <= 2 /\ (length taken < 2 -> done w' = []) /\ ev_inv [] w' /\ user_ok (fun _ => ∅) (fun _ => ∅) w'.
Proof.
  apply (event_posts_fifo Demo.quiet Demo.code (fun _ => ∅) (fun _ => ∅) 1 2 Demo.queued).
  - exact Demo.code_rules.
  - exact Demo.queued_inv.
  - exact Demo.queued_user.
  - exact Demo.queued_stops.
  - apply Nat.leb_le. vm_compute. reflexivity.
Defined.


(** The pass at 1030 fires both timers, the earlier deadline first; the repeating
    one is armed again and each callback has started a timer. *)
Example due_pass : (fun r => (r.1, log r.2, live (timer_heap r.2))) <$> loop_run_timers Demo.quiet Demo.code Demo.due =
  Some (2, [CTimer 1 12; CTimer 1 11], [2; 4; 1]%Z).
Proof. vm_compute. reflexivity. Qed.

(** ** What goes wrong *)

Module Trouble.
Import Demo.

Fixpoint starts (n : nat) : prog nat := match n with O => Done 0 | S n => TimerStart (Some 2) n None 0 0 (fun _ => starts n) end.
Definition many (n : nat) : xEventLoop_ nat := set_time (default start (run_prog quiet (starts n) start)) 100000.

(** One-shot timers are recycled before their callback is looked up: with 256
    structs on the list the 257th is freed and then read. *)
Example timer_freed_then_read :
  fst <$> loop_run_timers quiet code (many 256) = Some 256 /\ loop_run_timers quiet code (many 257) = None.
Proof. split; vm_compute; reflexivity. Qed.

(** Another thread posts [n] functions during the first wait; nothing else ever
    happens. *)
Definition burst (n : nat) : env :=
  Env (fun _ => 1000)%Z (fun _ => true) (fun _ => true) (fun k => if decide (k = 0) then Wait (replicate n (WPost 3 0)) [] else Wait [] []).
Definition with_fd : xEventLoop_ nat := default start (run_prog quiet (EventAdd 5 1 (Some 4) 13 (fun _ => Done 0)) start).

(** Forty-eight posts are served, then the loop sleeps: of a longer burst the rest
    stays in the queue, since the wakes were merged into one and the default
    mode does not look at the queue before it waits without a timeout. *)
Example posts_left_asleep :
  (fun r => (r.1, length (log r.2), length (done r.2))) <$> xEventLoopRun (burst 48) code 10 RunDefault with_fd = Some (Blocked, 48, 0) /\
  (fun r => (r.1, length (log r.2), length (done r.2))) <$> xEventLoopRun (burst 100) code 10 RunDefault with_fd = Some (Blocked, 48, 52).
Proof. split; vm_compute; reflexivity. Qed.

(** A full heap that cannot grow: the first callback starts a timer in the place
    of the repeating one, 16, which is lost, though still counted as active. *)
Definition tight (n : nat) : env := Env (fun _ => 1000)%Z (fun k => k <? n) (fun _ => true) (fun _ => Wait [] []).
Definition refill (c : call) (u : nat) : prog nat :=
  match c with
  | CTimer 1 _ => TimerStart (Some 2) 0 None 500 0 (fun _ => TimerStart (Some 2) 0 None 500 0 (fun _ => Done u))
  | _ => Done u
  end.
Fixpoint idle (n : nat) (k : prog nat) : prog nat := match n with O => k | S n => TimerStart (Some 2) 0 None 500 0 (fun _ => idle n k) end.
Definition full : xEventLoop_ nat :=
  default start (run_prog quiet (idle 14 (TimerStart (Some 1) 0 None 0 0 (fun _ => TimerStart (Some 3) 0 None 1 50 (fun _ => Done 0)))) start).
Example repeating_timer_lost :
  (fun r => (log r.2, bool_decide (16%Z ∈ live (timer_heap r.2)), surplus [] r.2)) <$>
    loop_run_timers (tight (n_alloc full + 3)) refill (set_time full 1300) =
  Some ([CTimer 1 0; CTimer 3 0], false, 1%Z).
Proof. vm_compute. reflexivity. Qed.

(** A timeout near 2^64 wraps into the past. *)
Example long_timeout_fires_now :
  (fun w => deadline_of w 1) <$> run_prog quiet (TimerStart (Some 2) 0 None (2 ^ 64 - 1) 0 (fun _ => Done 0)) start = Some 999%Z.
Proof. vm_compute. reflexivity. Qed.
End Trouble.
