(* ===== verification/ByteQueue.v ===== *)
(** * ByteQueue: what the protocol code needs of an I/O buffer

    The frame codec works on an [xIOBuffer] it only peeks at, reads, consumes
    and appends to.  [ByteQueue] is that interface with its contract over the
    queue of bytes; [WsIO] discharges it with the chained buffers of [IOBuf]. *)

From S2P Require Import Prelude Errno.

(** [q_room n q]: the buffer is well formed and [n] more bytes may come.
    [q_starved] is the environment in which memory can run out. *)
Class ByteQueue (Q : Type) := {
  q_bytes : Q -> list Z;
  q_room : nat -> Q -> Prop;
  q_starved : Prop;
  q_len : Q -> Z;
  q_peek : nat -> Q -> fallible (list Z);
  q_consume : nat -> Q -> ub Q;
  q_read : nat -> Q -> ub (list Z * Q);
  q_append : list Z -> Q -> ub (xErrno * Q);

  q_room_le n m q : m <= n -> q_room n q -> q_room m q;
  q_len_spec n q : q_room n q -> q_len q = Z.of_nat (length (q_bytes q));
  q_peek_spec n k q : q_room n q ->
    q_peek k q = if decide (k <= length (q_bytes q)) then ok (take k (q_bytes q)) else fail;
  q_consume_spec n k q : q_room n q -> k <= length (q_bytes q) ->
    exists q', q_consume k q = Some q' /\ q_room n q' /\ q_bytes q' = drop k (q_bytes q);
  q_read_spec n k q : q_room n q -> k <= length (q_bytes q) ->
    exists q', q_read k q = Some (take k (q_bytes q), q') /\ q_room n q' /\ q_bytes q' = drop k (q_bytes q);
  q_append_spec n src q : q_room (length src + n) q ->
    exists e q', q_append src q = Some (e, q') /\ q_room n q' /\
      (e = xErrno_Ok /\ q_bytes q' = q_bytes q ++ src \/
       e <> xErrno_Ok /\ q_starved /\ exists k, q_bytes q' = q_bytes q ++ take k src);
}.

(** The plain list of bytes, the interface's reference model. *)
#[export, program] Instance list_queue : ByteQueue (list Z) := {
  q_bytes l := l;
  q_room _ _ := True;
  q_starved := False;
  q_len l := Z.of_nat (length l);
  q_peek k l := if decide (k <= length l) then ok (take k l) else fail;
  q_consume k l := Some (drop k l);
  q_read k l := Some (take k l, drop k l);
  q_append src l := Some (xErrno_Ok, l ++ src);
}.
Solve All Obligations with naive_solver.

(** What a connection needs on top: buffers that are filled from a transport,
    offered to one segment by segment, copied out whole and emptied.  [q_fits]
    is the size a buffer may grow to. *)
Class ByteStream (Q : Type) `{!ByteQueue Q} := {
  q_reset : Q -> ub Q;
  q_deinit : Q -> ub Q;
  q_copy : Q -> ub (list Z);
  q_iov : nat -> Q -> ub (list (list Z));
  q_fill {C} : (C -> nat -> option (list Z) * C) -> C -> Q -> ub (Z * Q * C);
  q_chunk : nat;
  q_fits : nat -> Prop;

  q_room_iff n q : q_room n q <-> q_room 0 q /\ q_fits (length (q_bytes q) + n);
  q_reset_spec q : q_room 0 q -> exists q', q_reset q = Some q' /\ q_room 0 q' /\ q_bytes q' = [];
  q_deinit_spec q : q_room 0 q -> exists q', q_deinit q = Some q' /\ q_bytes q' = [];
  q_copy_spec q : q_room 0 q -> q_copy q = Some (q_bytes q);
  q_iov_spec k q : q_room 0 q ->
    exists segs, q_iov k q = Some segs /\ concat segs `prefix_of` q_bytes q /\ Forall (fun v => v <> []) segs /\
      (0 < k -> segs = [] -> q_bytes q = []);
  q_fill_spec {C} (fn : C -> nat -> option (list Z) * C) ctx q :
    q_room q_chunk q -> (forall c k bs c', fn c k = (Some bs, c') -> length bs <= k) ->
    exists r q' ctx', q_fill fn ctx q = Some (r, q', ctx') /\ q_room 0 q' /\
      ((exists k got, 0 < k <= q_chunk /\ fn ctx k = (Some got, ctx') /\ r = Z.of_nat (length got) /\
          q_bytes q' = q_bytes q ++ got) \/
       (r = (-1)%Z /\ q_bytes q' = q_bytes q /\
          ((exists k, 0 < k <= q_chunk /\ fn ctx k = (None, ctx')) \/
            q_starved /\ (ctx' = ctx \/ exists k got, fn ctx k = (Some got, ctx')))));
}.

#[export, program] Instance list_stream : ByteStream (list Z) := {
  q_reset _ := Some [];
  q_deinit _ := Some [];
  q_copy l := Some l;
  q_iov _ l := Some (if decide (l = []) then [] else [l]);
  q_fill _ fn ctx l :=
    match fn ctx 64 with
    | (Some got, ctx) => Some (Z.of_nat (length got), l ++ got, ctx)
    | (None, ctx) => Some ((-1)%Z, l, ctx)
    end;
  q_chunk := 64;
  q_fits _ := True;
}.
Next Obligation. done. Qed.
Next Obligation. intros. by eexists. Qed.
Next Obligation. intros. by eexists. Qed.
Next Obligation. done. Qed.
Next Obligation.
  intros k l _. cbn. case_decide as H.
  - exists []. split; [done|]. split; [apply prefix_nil|]. by split; [constructor|].
  - exists [l]. split; [done|]. cbn. rewrite app_nil_r. split; [done|]. split; [by constructor|done].
Qed.
Next Obligation.
  intros C fn ctx l _ _. cbn. destruct (fn ctx 64) as [[got|] ctx'] eqn:E; (do 3 eexists); (split; [reflexivity|]); (split; [done|]).
  - left. exists 64, got. split; [lia|done].
  - right. split; [done|]. split; [done|]. left. exists 64. split; [lia|done].
Qed.
