(* ===== verification/WsFrame.v ===== *)
(** * WsFrame: the WebSocket frame codec ([libx/x/http/ws_frame.c])

    The parser is incremental: its phases are run in sequence, and one that
    lacks bytes returns until more have arrived.  Parser and encoder work on
    any [ByteQueue].  The masking key and the memory for a payload come from
    the environment. *)

From S2P Require Import Prelude Errno Wire ByteQueue.

Definition XWS_OPCODE_CLOSE : Z := 0x8.
Definition WS_MAX_PAYLOAD : Z := 16 * 1024 * 1024.

Inductive xWsFrameResult := WsOk | WsNeedMore | WsError.

Inductive xWsFrameParserPhase := PhHeader | PhLen16 | PhLen64 | PhMask | PhPayload.

Record xWsFrame := WsFrame {
  f_fin : Z;
  f_rsv1 : Z;
  f_opcode : Z;
  f_masked : Z;
  f_key : list Z;
  f_len : Z;
  f_payload : option (list Z);
}.

Record xWsFrameParser := WsParser {
  p_phase : xWsFrameParserPhase;
  p_frame : xWsFrame;
  p_read : nat;
  p_expect_masked : Z;
  p_allow_rsv1 : bool;
}.

Definition zero_frame : xWsFrame := WsFrame 0 0 0 0 [0; 0; 0; 0]%Z 0 None.

Definition xWsFrameParserInit (expect_masked : Z) : xWsFrameParser :=
  WsParser PhHeader zero_frame 0 expect_masked false.

Definition xWsFrameParserReset (p : xWsFrameParser) : xWsFrameParser :=
  WsParser PhHeader zero_frame 0 (p_expect_masked p) (p_allow_rsv1 p).

Definition is_control_opcode (opcode : Z) : bool := (0x8 <=? opcode)%Z.

(** [i] is the index of the first byte of [data]: four at a time, then the
    rest with [key[i & 3]]. *)
Fixpoint unmask_payload (i : nat) (data key : list Z) : list Z :=
  match data with
  | a :: b :: c :: d :: data' =>
      Z.lxor a (key !!! 0) :: Z.lxor b (key !!! 1) :: Z.lxor c (key !!! 2) :: Z.lxor d (key !!! 3) ::
      unmask_payload (i + 4) data' key
  | _ => imap (fun j x => Z.lxor x (key !!! Nat.land (i + j) 3)) data
  end.

Definition set_phase (p : xWsFrameParser) (ph : xWsFrameParserPhase) : xWsFrameParser :=
  WsParser ph (p_frame p) (p_read p) (p_expect_masked p) (p_allow_rsv1 p).
Definition set_frame (p : xWsFrameParser) (f : xWsFrame) : xWsFrameParser :=
  WsParser (p_phase p) f (p_read p) (p_expect_masked p) (p_allow_rsv1 p).
Definition set_len (f : xWsFrame) (n : Z) : xWsFrame :=
  WsFrame (f_fin f) (f_rsv1 f) (f_opcode f) (f_masked f) (f_key f) n (f_payload f).
Definition set_payload (f : xWsFrame) (d : option (list Z)) : xWsFrame :=
  WsFrame (f_fin f) (f_rsv1 f) (f_opcode f) (f_masked f) (f_key f) (f_len f) d.

Section ws.
Context {Q : Type} `{!ByteQueue Q}.

(** A phase returns from the parser or falls through to the next one. *)
Inductive flow :=
  | Return (r : xWsFrameResult) (p : xWsFrameParser) (q : Q)
  | Next (p : xWsFrameParser) (q : Q).

Definition andthen (m : ub flow) (k : xWsFrameParser -> Q -> ub flow) : ub flow :=
  x ← m; match x with Return r p q => Some (Return r p q) | Next p q => k p q end.

(** The phase after the length. *)
Definition after_len (f : xWsFrame) : xWsFrameParserPhase :=
  if (f_masked f =? 0)%Z then PhPayload else PhMask.

Definition parse_header (p : xWsFrameParser) (q : Q) : ub flow :=
  match p_phase p with
  | PhHeader =>
      hdr ← q_peek 2 q;
      match hdr with
      | Some [h0; h1] =>
          let f := WsFrame (Z.land (Z.shiftr h0 7) 1) (Z.land (Z.shiftr h0 6) 1) (Z.land h0 0x0F)
                     (Z.land (Z.shiftr h1 7) 1) (f_key (p_frame p)) (f_len (p_frame p)) (f_payload (p_frame p)) in
          let p := set_frame p f in
          if negb (Z.land h0 0x30 =? 0)%Z then Some (Return WsError p q)
          else if negb (f_rsv1 f =? 0)%Z && (negb (p_allow_rsv1 p) || is_control_opcode (f_opcode f))
          then Some (Return WsError p q)
          else if negb (f_masked f =? p_expect_masked p)%Z then Some (Return WsError p q)
          else
            let len7 := Z.land h1 0x7F in
            q ← q_consume 2 q;
            let p :=
              if (len7 <? 126)%Z then set_phase (set_frame p (set_len f len7)) (after_len f)
              else if (len7 =? 126)%Z then set_phase p PhLen16
              else set_phase p PhLen64 in
            if is_control_opcode (f_opcode f) && ((f_fin f =? 0)%Z || (126 <=? len7)%Z)
            then Some (Return WsError p q)
            else Some (Next p q)
      | Some _ => None
      | None => Some (Return WsNeedMore p q)
      end
  | _ => Some (Next p q)
  end.

Definition parse_len16 (p : xWsFrameParser) (q : Q) : ub flow :=
  match p_phase p with
  | PhLen16 =>
      buf ← q_peek 2 q;
      match buf with
      | Some [b0; b1] =>
          q ← q_consume 2 q;
          let f := set_len (p_frame p) (Z.lor (Z.shiftl b0 8) b1) in
          Some (Next (set_phase (set_frame p f) (after_len f)) q)
      | Some _ => None
      | None => Some (Return WsNeedMore p q)
      end
  | _ => Some (Next p q)
  end.

Definition parse_len64 (p : xWsFrameParser) (q : Q) : ub flow :=
  match p_phase p with
  | PhLen64 =>
      buf ← q_peek 8 q;
      match buf with
      | Some bs =>
          let f := set_len (p_frame p) (foldl (fun n b => Z.lor (u64 (Z.shiftl n 8)) b) 0%Z bs) in
          if negb (Z.shiftr (f_len f) 63 =? 0)%Z then Some (Return WsError (set_frame p f) q) else
          q ← q_consume 8 q;
          Some (Next (set_phase (set_frame p f) (after_len f)) q)
      | None => Some (Return WsNeedMore p q)
      end
  | _ => Some (Next p q)
  end.

Definition parse_mask (p : xWsFrameParser) (q : Q) : ub flow :=
  match p_phase p with
  | PhMask =>
      key ← q_peek 4 q;
      match key with
      | Some key =>
          q ← q_consume 4 q;
          let f := p_frame p in
          Some (Next (set_phase (set_frame p (WsFrame (f_fin f) (f_rsv1 f) (f_opcode f) (f_masked f) key (f_len f) (f_payload f))) PhPayload) q)
      | None => Some (Return WsNeedMore p q)
      end
  | _ => Some (Next p q)
  end.

(** The label [done]. *)
Definition parse_done (p : xWsFrameParser) (q : Q) : flow :=
  let f := p_frame p in
  if is_control_opcode (f_opcode f) && (125 <? f_len f)%Z
  then Return WsError (set_frame p (set_payload f None)) q
  else Return WsOk p q.

(** [malloc] of the payload is refused when [alloc] says so. *)
Definition alloc_payload (alloc : oracle) (p : xWsFrameParser) : option xWsFrameParser :=
  let f := p_frame p in
  match f_payload f with
  | Some _ => Some p
  | None =>
      if (WS_MAX_PAYLOAD <? f_len f)%Z then None
      else if alloc (f_len f)
      then Some (WsParser (p_phase p) (set_payload f (Some (replicate (Z.to_nat (f_len f)) 0%Z))) 0
                   (p_expect_masked p) (p_allow_rsv1 p))
      else None
  end.

Definition parse_payload (alloc : oracle) (p : xWsFrameParser) (q : Q) : ub flow :=
  match p_phase p with
  | PhPayload =>
      if (f_len (p_frame p) =? 0)%Z then Some (parse_done (set_frame p (set_payload (p_frame p) None)) q) else
      match alloc_payload alloc p with
      | None => Some (Return WsError p q)
      | Some p =>
          let f := p_frame p in
          let remaining := u64 (f_len f - Z.of_nat (p_read p)) in
          let take := Z.to_nat (if (q_len q <? remaining)%Z then q_len q else remaining) in
          d ← f_payload f;
          '(d, q) ← (if decide (0 < take) then
                       '(bs, q) ← q_read take q;
                       d ← mem_write d (p_read p) bs; Some (d, q)
                     else Some (d, q));
          let p := WsParser (p_phase p) (set_payload f (Some d)) (p_read p + take)
                     (p_expect_masked p) (p_allow_rsv1 p) in
          if (Z.of_nat (p_read p) <? f_len f)%Z then Some (Return WsNeedMore p q)
          else if (f_masked f =? 0)%Z then Some (parse_done p q)
          else Some (parse_done (set_frame p (set_payload f (Some (unmask_payload 0 d (f_key f))))) q)
      end
  | _ => Some (Return WsNeedMore p q)
  end.

Definition xWsFrameParse (alloc : oracle) (p : xWsFrameParser) (q : Q)
    : ub (xWsFrameResult * xWsFrameParser * Q) :=
  r ← andthen (andthen (andthen (andthen (parse_header p q) parse_len16) parse_len64) parse_mask) (parse_payload alloc);
  match r with
  | Return r p q => Some (r, p, q)
  | Next _ _ => None
  end.

(** ** Encoder *)

(** The bytes of [hdr] before the masking key. *)
Definition ws_header (fin rsv1 : bool) (opcode : Z) (payload_len : Z) (masked : bool) : list Z :=
  let h0 := Z.lor (Z.lor (if fin then 0x80 else 0x00) (if rsv1 then 0x40 else 0x00)) (Z.land opcode 0x0F) in
  let mask_bit := if masked then 0x80%Z else 0x00%Z in
  if (payload_len <? 126)%Z then [u8 h0; Z.lor mask_bit (u8 payload_len)]
  else if (payload_len <=? 0xFFFF)%Z then [u8 h0; Z.lor mask_bit 126; u8 (Z.shiftr payload_len 8); u8 payload_len]
  else u8 h0 :: Z.lor mask_bit 127 :: ((fun i => u8 (Z.shiftr payload_len (56 - i * 8))) <$> seqZ 0 8).

(** [key] are the four random bytes; the C result as [true] for 0, [false] for
    -1. *)
Definition xWsFrameEncodeEx (alloc : oracle) (key : list Z) (q : Q) (fin rsv1 : bool) (opcode : Z)
    (payload : option (list Z)) (payload_len : nat) (masked : bool) : ub (bool * Q) :=
  let hdr := ws_header fin rsv1 opcode (Z.of_nat payload_len) masked ++ (if masked then key else []) in
  '(e, q) ← q_append hdr q;
  if decide (e <> xErrno_Ok) then Some (false, q) else
  match payload with
  | Some data =>
      if decide (0 < payload_len) then
        src ← mem_read data 0 payload_len;
        if masked then
          if negb (alloc (Z.of_nat payload_len)) then Some (false, q) else
          '(e, q) ← q_append (unmask_payload 0 src key) q;
          Some (bool_decide (e = xErrno_Ok), q)
        else
          '(e, q) ← q_append src q;
          Some (bool_decide (e = xErrno_Ok), q)
      else Some (true, q)
  | None => Some (true, q)
  end.

Definition xWsFrameEncode (alloc : oracle) (key : list Z) (q : Q) (fin : bool) (opcode : Z)
    (payload : option (list Z)) (payload_len : nat) (masked : bool) : ub (bool * Q) :=
  xWsFrameEncodeEx alloc key q fin false opcode payload payload_len masked.

(** The payload of a close frame: the code and the reason. *)
Definition xWsFrameEncodeClose (alloc : oracle) (key : list Z) (q : Q) (code : Z) (reason : option (list Z))
    (len : nat) (masked : bool) : ub (bool * Q) :=
  if negb (alloc (Z.of_nat (2 + len))) then Some (false, q) else
  payload ← mem_write (replicate (2 + len) 0%Z) 0 [u8 (Z.shiftr code 8); u8 code];
  payload ← (match reason with
             | Some r => if decide (0 < len) then src ← mem_read r 0 len; mem_write payload 2 src else Some payload
             | None => Some payload
             end);
  xWsFrameEncode alloc key q true XWS_OPCODE_CLOSE (Some payload) (2 + len) masked.

End ws.
