(* ===== verification/WsParse.v ===== *)
(** * WsParse: the frame parser against the wire form of a frame

    [wire F] is the byte string of the frame [F].  [expects F p R] relates a
    parser state to the bytes of the frame it has still to see; every phase
    keeps the relation whatever part of those bytes is in the buffer, so the
    outcome does not depend on how the bytes arrive. *)

From S2P Require Import Prelude Errno Wire ByteQueue WsFrame.

Record frame := Frame {
  s_fin : bool;
  s_rsv1 : bool;
  s_op : Z;
  s_masked : bool;
  s_key : list Z;
  s_data : list Z;
}.

Definition body_data (F : frame) : list Z :=
  if s_masked F then unmask_payload 0 (s_data F) (s_key F) else s_data F.
Definition key_part (F : frame) : list Z := if s_masked F then s_key F else [].
Definition flen (F : frame) : Z := Z.of_nat (length (s_data F)).
Definition wire (F : frame) : list Z :=
  ws_header (s_fin F) (s_rsv1 F) (s_op F) (flen F) (s_masked F) ++ key_part F ++ body_data F.

Definition b2z (b : bool) : Z := if b then 1%Z else 0%Z.

(** The frame a parser delivers. *)
Definition delivered (F : frame) : xWsFrame :=
  WsFrame (b2z (s_fin F)) (b2z (s_rsv1 F)) (s_op F) (b2z (s_masked F))
    (if s_masked F then s_key F else [0; 0; 0; 0]%Z) (flen F)
    (if decide (s_data F = []) then None else Some (s_data F)).

(** The frames a peer may send to a parser with these settings. *)
Record frame_ok (masked : Z) (rsv1 : bool) (F : frame) : Prop := {
  fo_op : (0 <= s_op F < 16)%Z;
  fo_data : bytes_ok (s_data F);
  fo_key : bytes_ok (s_key F);
  fo_key_len : length (s_key F) = 4;
  fo_len : (flen F <= WS_MAX_PAYLOAD)%Z;
  fo_control : is_control_opcode (s_op F) = true -> s_fin F = true /\ (flen F <= 125)%Z;
  fo_rsv1 : s_rsv1 F = true -> rsv1 = true /\ is_control_opcode (s_op F) = false;
  fo_masked : masked = b2z (s_masked F);
}.

(** ** Masking *)

Lemma land_3 n : Nat.land n 3 = n mod 4.
Proof. apply (Nat.land_ones n 2). Qed.

(** The unrolled loop is the bytewise exclusive or with the key repeated. *)
Lemma unmask_eq key : forall data i, i mod 4 = 0 ->
  unmask_payload i data key = imap (fun j x => Z.lxor x (key !!! ((i + j) mod 4))) data.
Proof.
  fix IH 1. intros data i Hi. destruct data as [|a [|b [|c [|d data]]]].
  1-4: apply imap_ext; intros j x _; by rewrite land_3.
  assert (forall m, (i + m) mod 4 = m mod 4) as Hc.
  { intros m. rewrite Nat.Div0.add_mod, Hi. apply Nat.Div0.mod_mod. }
  cbn [unmask_payload]. rewrite (IH data (i + 4)) by apply (Hc 4).
  rewrite !imap_cons. unfold compose. rewrite !Hc. do 4 f_equal.
  apply imap_ext. intros j x _. do 3 f_equal. lia.
Qed.

Lemma unmask_imap data key :
  unmask_payload 0 data key = imap (fun j x => Z.lxor x (key !!! (j mod 4))) data.
Proof. by rewrite unmask_eq. Qed.

Lemma length_unmask data key : length (unmask_payload 0 data key) = length data.
Proof. rewrite unmask_imap. apply length_imap. Qed.

(** Masking twice with one key is the identity. *)
Lemma unmask_twice data key : unmask_payload 0 (unmask_payload 0 data key) key = data.
Proof.
  rewrite !unmask_imap. apply list_eq. intros j. rewrite !list_lookup_imap.
  destruct (data !! j) as [x|]; [|done]. cbn. by rewrite Z.lxor_assoc, Z.lxor_nilpotent, Z.lxor_0_r.
Qed.

(** ** Header bits *)

Definition header0 (fin rsv1 : bool) (op : Z) : Z :=
  u8 (Z.lor (Z.lor (if fin then 0x80 else 0x00) (if rsv1 then 0x40 else 0x00)) (Z.land op 0x0F)).

Lemma header0_bits fin rsv1 op :
  (0 <= op < 16)%Z ->
  Z.land (Z.shiftr (header0 fin rsv1 op) 7) 1 = b2z fin /\ Z.land (Z.shiftr (header0 fin rsv1 op) 6) 1 = b2z rsv1 /\
  Z.land (header0 fin rsv1 op) 0x0F = op /\ Z.land (header0 fin rsv1 op) 0x30 = 0%Z.
Proof.
  intros Hop.
  pose proof (range_exhaust 16 (fun op => forallb (fun f => forallb (fun r =>
    (Z.land (Z.shiftr (header0 f r op) 7) 1 =? b2z f)%Z && (Z.land (Z.shiftr (header0 f r op) 6) 1 =? b2z r)%Z &&
    (Z.land (header0 f r op) 0x0F =? op)%Z && (Z.land (header0 f r op) 0x30 =? 0)%Z) [true; false]) [true; false])
    eq_refl op Hop) as H.
  cbn [forallb] in H. rewrite !andb_true_r, !andb_true_iff, !Z.eqb_eq in H. destruct fin, rsv1; tauto.
Qed.

Lemma header1_bits (masked : bool) len7 :
  (0 <= len7 < 128)%Z ->
  let h1 := Z.lor (if masked then 0x80 else 0x00) len7 in
  Z.land (Z.shiftr h1 7) 1 = b2z masked /\ Z.land h1 0x7F = len7.
Proof.
  intros Hl. pose proof (range_exhaust 128 (fun l => forallb (fun m : bool =>
    (Z.land (Z.shiftr (Z.lor (if m then 0x80 else 0x00) l) 7) 1 =? b2z m)%Z &&
    (Z.land (Z.lor (if m then 0x80 else 0x00) l) 0x7F =? l)%Z) [true; false]) eq_refl len7 Hl) as H.
  cbn [forallb] in H. rewrite !andb_true_r, !andb_true_iff, !Z.eqb_eq in H. destruct masked; cbn zeta; tauto.
Qed.

(** The lengths read back. *)
Lemma len16_back n : (0 <= n < 65536)%Z -> Z.lor (Z.shiftl (u8 (Z.shiftr n 8)) 8) (u8 n) = n.
Proof.
  intros Hn. unfold u8. rewrite lor_shiftl_add by (lia || apply Z.mod_pos_bound; lia).
  rewrite Z.shiftr_div_pow2 by lia. rewrite (Z.mod_small (n / 2 ^ 8)).
  - pose proof (Z.div_mod n (2 ^ 8)). lia.
  - split; [apply Z.div_pos; lia|apply Z.div_lt_upper_bound; lia].
Qed.

Lemma len64_step n s t : (0 <= n < 2 ^ 64)%Z -> (0 <= s)%Z -> t = (s + 8)%Z ->
  Z.lor (u64 (Z.shiftl (Z.shiftr n t) 8)) (u8 (Z.shiftr n s)) = Z.shiftr n s.
Proof.
  intros Hn Hs ->. set (x := Z.shiftr n s).
  assert (0 <= x <= n)%Z as Hx.
  { unfold x. rewrite Z.shiftr_div_pow2 by lia. split; [apply Z.div_pos; lia|]. apply Z.div_le_upper_bound; nia. }
  rewrite <- (Z.shiftr_shiftr n s 8) by lia. fold x. rewrite (Z.shiftr_div_pow2 x) by lia.
  assert (0 <= x / 2 ^ 8)%Z by (apply Z.div_pos; lia). pose proof (Z.div_mod x (2 ^ 8) ltac:(lia)) as Hdm.
  pose proof (Z.mod_pos_bound x (2 ^ 8) ltac:(lia)) as Hm.
  assert (u64 (Z.shiftl (x / 2 ^ 8) 8) = Z.shiftl (x / 2 ^ 8) 8) as ->.
  { rewrite Z.shiftl_mul_pow2 by lia. apply Z.mod_small. lia. }
  unfold u8. rewrite lor_shiftl_add by lia. lia.
Qed.

Lemma len64_back n : (0 <= n < 2 ^ 63)%Z ->
  foldl (fun a b => Z.lor (u64 (Z.shiftl a 8)) b) 0%Z ((fun i => u8 (Z.shiftr n (56 - i * 8))) <$> seqZ 0 8) = n.
Proof.
  intros Hn. change (seqZ 0 8) with [0; 1; 2; 3; 4; 5; 6; 7]%Z. cbn [fmap list_fmap foldl].
  assert (0%Z = Z.shiftr n 64) as E0.
  { rewrite Z.shiftr_div_pow2 by lia. symmetry. apply Z.div_small. lia. }
  rewrite E0 at 1.
  change (56 - 0 * 8)%Z with 56%Z. change (56 - 1 * 8)%Z with 48%Z. change (56 - 2 * 8)%Z with 40%Z.
  change (56 - 3 * 8)%Z with 32%Z. change (56 - 4 * 8)%Z with 24%Z. change (56 - 5 * 8)%Z with 16%Z.
  change (56 - 6 * 8)%Z with 8%Z. change (56 - 7 * 8)%Z with 0%Z.
  rewrite (len64_step n 56 64) by lia. rewrite (len64_step n 48 56) by lia. rewrite (len64_step n 40 48) by lia.
  rewrite (len64_step n 32 40) by lia. rewrite (len64_step n 24 32) by lia. rewrite (len64_step n 16 24) by lia.
  rewrite (len64_step n 8 16) by lia. rewrite (len64_step n 0 8) by lia. apply Z.shiftr_0_r.
Qed.

(** ** The parser and the bytes to come *)

Definition rank (ph : xWsFrameParserPhase) : nat :=
  match ph with PhHeader => 0 | PhLen16 => 1 | PhLen64 => 2 | PhMask => 3 | PhPayload => 4 end.

Definition key0 : list Z := [0; 0; 0; 0]%Z.
Definition partial (F : frame) (key : list Z) (len : Z) (pl : option (list Z)) : xWsFrame :=
  WsFrame (b2z (s_fin F)) (b2z (s_rsv1 F)) (s_op F) (b2z (s_masked F)) key len pl.
Definition keyf (F : frame) : list Z := if s_masked F then s_key F else key0.

(** What is written into the payload after [n] bytes. *)
Definition filled (F : frame) (n : nat) : list Z :=
  take n (body_data F) ++ replicate (length (s_data F) - n) 0%Z.

Section expects.
Context (F : frame) (m : Z) (a : bool).

Inductive expects : xWsFrameParser -> list Z -> Prop :=
  | ExHeader : expects (WsParser PhHeader zero_frame 0 m a) (wire F)
  | ExLen16 : (0 <= flen F < 65536)%Z ->
      expects (WsParser PhLen16 (partial F key0 0 None) 0 m a)
        ([u8 (Z.shiftr (flen F) 8); u8 (flen F)] ++ key_part F ++ body_data F)
  | ExLen64 :
      expects (WsParser PhLen64 (partial F key0 0 None) 0 m a)
        (((fun i => u8 (Z.shiftr (flen F) (56 - i * 8))) <$> seqZ 0 8) ++ key_part F ++ body_data F)
  | ExMask : s_masked F = true ->
      expects (WsParser PhMask (partial F key0 (flen F) None) 0 m a) (s_key F ++ body_data F)
  | ExPayload : expects (WsParser PhPayload (partial F (keyf F) (flen F) None) 0 m a) (body_data F)
  | ExPart n : n < length (s_data F) ->
      expects (WsParser PhPayload (partial F (keyf F) (flen F) (Some (filled F n))) n m a) (drop n (body_data F)).

Context {Q : Type} `{!ByteQueue Q}.

(** Some of the bytes [R] moved from the buffer into the parser. *)
Definition moved (n : nat) (q : Q) (R : list Z) (p' : xWsFrameParser) (q' : Q) (R' : list Z) : Prop :=
  (exists c, R = c ++ R' /\ q_bytes q = c ++ q_bytes q') /\ q_room n q' /\ expects p' R'.

(** The outcome of a phase of rank [k]: it goes on, it waits with the buffer
    drained below what is missing, or the frame is there. *)
Definition good (k n : nat) (q : Q) (R : list Z) (r : flow) : Prop :=
  match r with
  | Next p' q' => k < rank (p_phase p') /\ exists R', moved n q R p' q' R'
  | Return WsNeedMore p' q' => exists R', moved n q R p' q' R' /\ length (q_bytes q') < length R'
  | Return WsOk p' q' =>
      q_bytes q = R ++ q_bytes q' /\ q_room n q' /\ p_frame p' = delivered F /\
      p_expect_masked p' = m /\ p_allow_rsv1 p' = a
  | Return WsError _ _ => False
  end.

(** The buffer and the bytes to come agree as far as both go. *)
Definition agree (B R : list Z) : Prop := exists x y, B ++ x = R ++ y.

Lemma agree_drop c B R : agree (c ++ B) (c ++ R) -> agree B R.
Proof. intros (x & y & H). exists x, y. rewrite <- !app_assoc in H. by apply app_inv_head in H. Qed.

Lemma moved_refl n q R p : q_room n q -> expects p R -> moved n q R p q R.
Proof. intros Hq He. split; [by exists []|done]. Qed.

Lemma moved_trans n q R p1 q1 R1 p2 q2 R2 :
  moved n q R p1 q1 R1 -> moved n q1 R1 p2 q2 R2 -> moved n q R p2 q2 R2.
Proof.
  intros [(c1 & E1 & B1) _] [(c2 & E2 & B2) [Hq He]]. split; [|done]. exists (c1 ++ c2).
  rewrite <- !app_assoc. by rewrite E1, E2, B1, B2.
Qed.

Lemma moved_agree n q R p' q' R' : moved n q R p' q' R' -> agree (q_bytes q) R -> agree (q_bytes q') R'.
Proof. intros [(c & -> & ->) _]. apply agree_drop. Qed.

(** Running one phase after the others. *)
Lemma good_andthen k k' n q R r (next : xWsFrameParser -> Q -> ub flow) :
  k < k' -> agree (q_bytes q) R -> good k n q R r ->
  (forall p1 q1 R1, k < rank (p_phase p1) -> q_room n q1 -> agree (q_bytes q1) R1 -> expects p1 R1 ->
     exists r', next p1 q1 = Some r' /\ good k' n q1 R1 r') ->
  exists r', andthen (Some r) next = Some r' /\ good k' n q R r'.
Proof.
  intros Hk Ha Hg Hnext. unfold andthen. cbn [mbind option_bind]. destruct r as [r p1 q1|p1 q1].
  { exists (Return r p1 q1). split; [done|]. destruct r; exact Hg. }
  destruct Hg as [Hr (R1 & Hm)]. destruct (Hnext p1 q1 R1 Hr) as (r' & E & Hg');
    [apply Hm|by eapply moved_agree|apply Hm|].
  exists r'. split; [done|]. destruct r' as [[] p2 q2|p2 q2]; cbn [good] in *.
  - destruct Hm as [(c & -> & ->) _]. destruct Hg' as (-> & Hg'). by rewrite app_assoc.
  - destruct Hg' as (R2 & Hm2 & Hl). exists R2. split; [by eapply moved_trans|done].
  - done.
  - destruct Hg' as (Hr2 & R2 & Hm2). split; [done|]. exists R2. by eapply moved_trans.
Qed.

(** A field [w] is there, and then it is peeked and consumed, or it is not. *)
Lemma peek_field n q w R' :
  q_room n q -> agree (q_bytes q) (w ++ R') ->
  (q_peek (length w) q = ok w /\
   exists q', q_consume (length w) q = Some q' /\ q_room n q' /\ q_bytes q = w ++ q_bytes q' /\
     agree (q_bytes q') R') \/
  (q_peek (length w) q = fail /\ length (q_bytes q) < length w).
Proof.
  intros Hq (x & y & E). rewrite (q_peek_spec n) by done. case_decide as Hl; [left|right; split; [done|lia]].
  assert (q_bytes q = w ++ drop (length w) (q_bytes q)) as Eb.
  { rewrite <- (take_drop (length w) (q_bytes q)) at 1. f_equal.
    apply (f_equal (take (length w))) in E. rewrite <- app_assoc, take_app_length, take_app_le in E by done. done. }
  split; [by rewrite Eb, take_app_length|].
  destruct (q_consume_spec n (length w) q Hq Hl) as (q' & E' & Hq' & Eq'). exists q'. split; [done|]. split; [done|].
  rewrite Eq'. split; [done|]. apply (agree_drop w). rewrite <- Eb. by exists x, y.
Qed.

Lemma flen_nonneg : (0 <= flen F)%Z.
Proof. unfold flen. lia. Qed.

(** The state after the length is known. *)
Lemma after_len_expects :
  expects (WsParser (after_len (partial F key0 (flen F) None)) (partial F key0 (flen F) None) 0 m a)
    (key_part F ++ body_data F).
Proof.
  unfold after_len, key_part. cbn [partial f_masked]. destruct (s_masked F) eqn:Em; cbn [b2z Z.eqb].
  - by apply ExMask.
  - pose proof ExPayload as H. unfold keyf in H. by rewrite Em in H.
Qed.

Lemma after_len_rank len pl : 2 < rank (after_len (partial F key0 len pl)).
Proof. unfold after_len. destruct (_ =? 0)%Z; cbn; lia. Qed.

Hypothesis Hok : frame_ok m a F.

(** One phase: enough is there, or it waits. *)
Lemma wait_good k n q R p :
  q_room n q -> expects p R -> length (q_bytes q) < length R -> good k n q R (Return WsNeedMore p q).
Proof. intros Hq He Hl. exists R. split; [by apply moved_refl|done]. Qed.

Lemma next_good k n q p w R p' q' R' :
  expects p R -> R = w ++ R' -> q_bytes q = w ++ q_bytes q' -> q_room n q' -> expects p' R' -> k < rank (p_phase p') ->
  good k n q R (Next p' q').
Proof. intros He ER EB Hq He' Hk. split; [done|]. exists R'. split; [by exists w|done]. Qed.

Lemma skip_good k n q p R : q_room n q -> expects p R -> k < rank (p_phase p) -> good k n q R (Next p q).
Proof. intros Hq He Hk. split; [done|]. exists R. by apply moved_refl. Qed.

Lemma parse_len16_good n p q R :
  0 < rank (p_phase p) -> q_room n q -> agree (q_bytes q) R -> expects p R ->
  exists r, parse_len16 p q = Some r /\ good 1 n q R r.
Proof.
  intros Hr Hq Ha He. destruct He; cbn in Hr; try lia; unfold parse_len16; cbn [p_phase];
    try (eexists; split; [reflexivity|]; apply skip_good; [done|econstructor; eassumption|cbn; lia]).
  destruct (peek_field n q _ _ Hq Ha) as [[E (q' & Ec & Hq' & Eb & _)]|[E Hl]]; cbn [length] in E; rewrite E.
  - cbn [mbind option_bind ok]. cbn [length] in Ec. rewrite Ec. cbn [mbind option_bind].
    eexists. split; [reflexivity|]. rewrite len16_back by done.
    eapply next_good; [by apply ExLen16|done|done|done|apply after_len_expects|].
    cbn [p_phase set_phase]. pose proof (after_len_rank (flen F) None). unfold set_len. cbn. unfold partial in *. lia.
  - eexists. split; [reflexivity|]. apply wait_good; [done|by apply ExLen16|]. rewrite length_app. cbn [length] in *. lia.
Qed.

Lemma parse_len64_good n p q R :
  1 < rank (p_phase p) -> q_room n q -> agree (q_bytes q) R -> expects p R ->
  exists r, parse_len64 p q = Some r /\ good 2 n q R r.
Proof.
  intros Hr Hq Ha He. destruct He; cbn in Hr; try lia; unfold parse_len64; cbn [p_phase];
    try (eexists; split; [reflexivity|]; apply skip_good; [done|econstructor; eassumption|cbn; lia]).
  destruct (peek_field n q _ _ Hq Ha) as [[E (q' & Ec & Hq' & Eb & _)]|[E Hl]];
    change (length (_ <$> seqZ 0 8)) with 8 in *; rewrite E.
  - cbn [mbind option_bind ok]. pose proof (fo_len _ _ _ Hok) as Hmax. unfold WS_MAX_PAYLOAD in Hmax. pose proof flen_nonneg.
    rewrite len64_back by lia. cbn [f_len set_len]. assert (Z.shiftr (flen F) 63 = 0%Z) as ->.
    { rewrite Z.shiftr_div_pow2 by lia. apply Z.div_small. lia. }
    cbn [Z.eqb negb]. rewrite Ec. cbn [mbind option_bind]. eexists. split; [reflexivity|].
    eapply next_good; [by apply ExLen64|done|done|done|apply after_len_expects|].
    cbn [p_phase set_phase]. apply after_len_rank.
  - eexists. split; [reflexivity|]. apply wait_good; [done|by apply ExLen64|]. rewrite length_app.
    change (length (_ <$> seqZ 0 8)) with 8. lia.
Qed.

Lemma parse_mask_good n p q R :
  2 < rank (p_phase p) -> q_room n q -> agree (q_bytes q) R -> expects p R ->
  exists r, parse_mask p q = Some r /\ good 3 n q R r.
Proof.
  intros Hr Hq Ha He. destruct He as [| | |Hm| |]; cbn in Hr; try lia; unfold parse_mask; cbn [p_phase];
    try (eexists; split; [reflexivity|]; apply skip_good; [done|econstructor; eassumption|cbn; lia]).
  pose proof (fo_key_len _ _ _ Hok) as Hk.
  destruct (peek_field n q _ _ Hq Ha) as [[E (q' & Ec & Hq' & Eb & _)]|[E Hl]]; rewrite Hk in *; rewrite E.
  - cbn [mbind option_bind ok]. rewrite Ec. cbn [mbind option_bind]. eexists. split; [reflexivity|].
    eapply next_good; [by apply ExMask|done|done|done| |cbn; lia].
    pose proof ExPayload as H. unfold keyf in H. rewrite Hm in H. exact H.
  - eexists. split; [reflexivity|]. apply wait_good; [done|by apply ExMask|]. rewrite length_app. lia.
Qed.

(** ** The header *)

Lemma header_cases :
  exists h1 ext, ws_header (s_fin F) (s_rsv1 F) (s_op F) (flen F) (s_masked F) =
      [header0 (s_fin F) (s_rsv1 F) (s_op F); Z.lor (if s_masked F then 0x80 else 0x00) h1] ++ ext /\
    (0 <= h1 < 128)%Z /\
    ((h1 < 126)%Z /\ h1 = flen F /\ ext = [] \/
     h1 = 126%Z /\ (126 <= flen F < 65536)%Z /\ ext = [u8 (Z.shiftr (flen F) 8); u8 (flen F)] \/
     h1 = 127%Z /\ (65536 <= flen F)%Z /\ ext = (fun i => u8 (Z.shiftr (flen F) (56 - i * 8))) <$> seqZ 0 8).
Proof.
  unfold ws_header. pose proof flen_nonneg. destruct (Z.ltb_spec (flen F) 126).
  { exists (flen F), []. rewrite (u8_small (flen F)) by lia. split; [by destruct (s_masked F)|]. split; [lia|]. left. split; [lia|done]. }
  destruct (Z.leb_spec (flen F) 0xFFFF).
  - exists 126%Z, [u8 (Z.shiftr (flen F) 8); u8 (flen F)]. split; [by destruct (s_masked F)|]. split; [lia|]. right. left. split; [done|]. split; [lia|done].
  - eexists 127%Z, _. split; [by destruct (s_masked F)|]. split; [lia|]. right. right. split; [done|]. split; [lia|done].
Qed.

(** None of the checks of the header phase rejects the frame. *)
Lemma header_passes len7 f :
  f_rsv1 f = b2z (s_rsv1 F) -> f_opcode f = s_op F -> f_masked f = b2z (s_masked F) -> f_fin f = b2z (s_fin F) ->
  (len7 < 126 /\ len7 = flen F \/ 126 <= len7 /\ 126 <= flen F)%Z ->
  negb (f_rsv1 f =? 0)%Z && (negb a || is_control_opcode (f_opcode f)) = false /\
  negb (f_masked f =? m)%Z = false /\
  is_control_opcode (f_opcode f) && ((f_fin f =? 0)%Z || (126 <=? len7)%Z) = false.
Proof.
  intros -> -> -> -> Hl. destruct Hok as [_ _ _ _ _ Hctl Hrsv Hm]. split; [|split].
  - destruct (s_rsv1 F); [|done]. destruct Hrsv as [-> ->]; done.
  - rewrite Hm. by rewrite Z.eqb_refl.
  - destruct (is_control_opcode (s_op F)); [|done]. destruct Hctl as [-> Hc]; [done|].
    cbn. apply Z.leb_gt. lia.
Qed.

Lemma parse_header_good n p q R :
  q_room n q -> agree (q_bytes q) R -> expects p R -> exists r, parse_header p q = Some r /\ good 0 n q R r.
Proof.
  intros Hq Ha He. destruct He; unfold parse_header; cbn [p_phase];
    try (eexists; split; [reflexivity|]; apply skip_good; [done|econstructor; eassumption|cbn; lia]).
  destruct header_cases as (h1 & ext & Eh & Hh1 & Hcase). pose proof (fo_op _ _ _ Hok) as Hop.
  pose proof (header0_bits (s_fin F) (s_rsv1 F) (s_op F) Hop) as (B1 & B2 & B3 & B4).
  pose proof (header1_bits (s_masked F) h1 Hh1) as [B5 B6].
  assert (wire F = [header0 (s_fin F) (s_rsv1 F) (s_op F); Z.lor (if s_masked F then 0x80 else 0x00) h1] ++
    ext ++ key_part F ++ body_data F) as Ew by (unfold wire; by rewrite Eh, <- app_assoc).
  pose proof Ha as Ha'. rewrite Ew in Ha'.
  destruct (peek_field n q _ _ Hq Ha') as [[E (q' & Ec & Hq' & Eb & _)]|[E Hl]]; cbn [length] in *; rewrite E.
  2: { eexists. split; [reflexivity|]. apply wait_good; [done|constructor|]. rewrite Ew, length_app. cbn [length]. lia. }
  cbn [mbind option_bind ok p_frame zero_frame f_key f_len f_payload]. rewrite B1, B2, B3, B4, B5, B6, Ec.
  cbn [Z.eqb negb mbind option_bind set_frame p_expect_masked p_allow_rsv1 p_phase p_read].
  destruct (header_passes h1 (partial F key0 0 None)) as (P1 & P2 & P3); [done..| |].
  { destruct Hcase as [(? & ? & _)|[(? & ? & _)|(? & ? & _)]]; lia. }
  unfold partial, key0 in P1, P2, P3.
  rewrite P1, P2, P3. eexists. split; [reflexivity|].
  assert (forall p' R', expects p' R' -> ext ++ key_part F ++ body_data F = R' -> 0 < rank (p_phase p') ->
    good 0 n q (wire F) (Next p' q')) as Hnext.
  { intros p' R' He' <- Hr. eapply next_good; [constructor|exact Ew|done..]. }
  destruct Hcase as [(Hl & -> & ->)|[(-> & Hl & ->)|(-> & Hl & ->)]].
  - rewrite (proj2 (Z.ltb_lt _ _)) by done. eapply Hnext; [apply after_len_expects|done|].
    cbn [p_phase set_phase]. pose proof (after_len_rank 0%Z None). unfold partial, key0 in *. lia.
  - cbn [Z.ltb Z.eqb Z.compare Pos.compare Pos.compare_cont]. eapply Hnext; [apply ExLen16; lia|done|cbn; lia].
  - cbn [Z.ltb Z.eqb Z.compare Pos.compare Pos.compare_cont Pos.eqb]. eapply Hnext; [apply ExLen64|done|cbn; lia].
Qed.

(** ** The payload *)

Lemma length_body : length (body_data F) = length (s_data F).
Proof. unfold body_data. destruct (s_masked F); [apply length_unmask|done]. Qed.

Lemma length_filled n : n <= length (s_data F) -> length (filled F n) = length (s_data F).
Proof. intros H. unfold filled. rewrite length_app, length_take, length_replicate, length_body. lia. Qed.

(** Bytes stored behind those already there. *)
Lemma filled_write n k :
  n + k <= length (s_data F) ->
  mem_write (filled F n) n (take k (drop n (body_data F))) = Some (filled F (n + k)).
Proof.
  intros H. assert (length (take k (drop n (body_data F))) = k) as Hk.
  { rewrite length_take, length_drop, length_body. lia. }
  rewrite mem_write_Some by (rewrite length_filled, Hk; lia). rewrite Hk. f_equal. unfold filled.
  assert (length (take n (body_data F)) = n) as Hn by (rewrite length_take, length_body; lia).
  rewrite take_app_length', drop_app_ge by lia. rewrite Hn, drop_replicate, app_assoc, take_take_drop.
  do 2 f_equal. lia.
Qed.

Lemma filled_all : filled F (length (s_data F)) = body_data F.
Proof.
  unfold filled. rewrite Nat.sub_diag, app_nil_r. apply take_ge. rewrite length_body. lia.
Qed.

Lemma done_good n q q' p R :
  q_bytes q = R ++ q_bytes q' -> q_room n q' -> p_frame p = delivered F -> p_expect_masked p = m ->
  p_allow_rsv1 p = a -> good 4 n q R (parse_done p q').
Proof.
  intros Eb Hq Ef Em Ea. unfold parse_done. rewrite Ef. cbn [delivered f_opcode f_len].
  assert (is_control_opcode (s_op F) && (125 <? flen F)%Z = false) as ->; [|done].
  destruct (is_control_opcode (s_op F)) eqn:Ec; [|done]. destruct (fo_control _ _ _ Hok Ec) as [_ Hl].
  apply Z.ltb_ge. lia.
Qed.

(** The end of the payload phase, the memory being there. *)
Lemma payload_tail n k q R :
  k < length (s_data F) -> q_room n q -> agree (q_bytes q) (drop k (body_data F)) -> R = drop k (body_data F) ->
  let take' := length (q_bytes q) `min` (length (s_data F) - k) in
  exists d' q', (if decide (0 < take') then
                   '(bs, q) ← q_read take' q; d ← mem_write (filled F k) k bs; Some (d, q)
                 else Some (filled F k, q)) = Some (d', q') /\
    d' = filled F (k + take') /\ q_bytes q = take take' R ++ q_bytes q' /\ q_room n q' /\
    (k + take' < length (s_data F) -> q_bytes q' = []).
Proof.
  intros Hk Hq (x & y & E) -> take'. assert (take' <= length (q_bytes q)) as Ht by lia.
  assert (take take' (q_bytes q) = take take' (drop k (body_data F))) as Et.
  { apply (f_equal (take take')) in E. rewrite !take_app_le in E; [done| |done].
    rewrite length_drop, length_body. lia. }
  case_decide as H0.
  - destruct (q_read_spec n take' q Hq Ht) as (q' & -> & Hq' & Eq'). cbn [mbind option_bind].
    rewrite Et, filled_write by lia. cbn [mbind option_bind]. eexists _, q'. split; [done|]. split; [done|].
    split; [by rewrite Eq', <- Et, take_drop|]. split; [done|]. intros Hlt. rewrite Eq'. apply drop_ge. lia.
  - assert (take' = 0) as E0 by lia. exists (filled F k), q. rewrite E0, Nat.add_0_r. do 4 (split; [done|]).
    intros _. apply nil_length_inv. lia.
Qed.

Lemma unmasked_body : (if s_masked F then unmask_payload 0 (body_data F) (keyf F) else body_data F) = s_data F.
Proof. unfold body_data, keyf. destruct (s_masked F); [apply unmask_twice|done]. Qed.

Lemma payload_run alloc n k q :
  k < length (s_data F) -> q_room n q -> agree (q_bytes q) (drop k (body_data F)) ->
  exists r, parse_payload alloc (WsParser PhPayload (partial F (keyf F) (flen F) (Some (filled F k))) k m a) q = Some r /\
    good 4 n q (drop k (body_data F)) r.
Proof.
  intros Hk Hq Ha. unfold parse_payload. cbn [p_phase p_frame partial f_len f_payload alloc_payload p_read].
  pose proof (fo_len _ _ _ Hok) as Hmax. unfold WS_MAX_PAYLOAD, flen in *.
  rewrite (proj2 (Z.eqb_neq _ 0)) by lia. rewrite (q_len_spec n) by done.
  assert (u64 (Z.of_nat (length (s_data F)) - Z.of_nat k) = Z.of_nat (length (s_data F) - k)) as ->.
  { unfold u64. rewrite Z.mod_small by lia. lia. }
  assert (Z.to_nat (if (Z.of_nat (length (q_bytes q)) <? Z.of_nat (length (s_data F) - k))%Z
    then Z.of_nat (length (q_bytes q)) else Z.of_nat (length (s_data F) - k)) =
    length (q_bytes q) `min` (length (s_data F) - k)) as ->.
  { destruct (Z.ltb_spec (Z.of_nat (length (q_bytes q))) (Z.of_nat (length (s_data F) - k))); lia. }
  destruct (payload_tail n k q _ Hk Hq Ha eq_refl) as (d' & q' & Erun & -> & Eb & Hq' & Hempty).
  set (take' := length (q_bytes q) `min` (length (s_data F) - k)) in *.
  cbn [mbind option_bind] in Erun |- *. rewrite Erun. cbn [mbind option_bind p_read].
  destruct (Z.ltb_spec (Z.of_nat (k + take')) (Z.of_nat (length (s_data F)))) as [Hlt|Hge].
  - eexists. split; [reflexivity|]. exists (drop (k + take') (body_data F)). split.
    + split; [|split; [done|apply ExPart; lia]]. exists (take take' (drop k (body_data F))).
      rewrite <- drop_drop. split; [by rewrite take_drop|done].
    + rewrite Hempty, length_drop, length_body by lia. cbn. lia.
  - assert (k + take' = length (s_data F)) as Eall by lia.
    assert (take take' (drop k (body_data F)) = drop k (body_data F)) as Ett.
    { apply take_ge. rewrite length_drop, length_body. lia. }
    rewrite Ett in Eb. rewrite Eall, filled_all. pose proof unmasked_body as Hu.
    assert (s_data F <> []) as Hne. { intros E0. rewrite E0 in Hk. cbn in Hk. lia. }
    assert (forall d, d = s_data F ->
      set_payload (partial F (keyf F) (Z.of_nat (length (s_data F))) (Some (filled F k))) (Some d) = delivered F) as Hdel.
    { intros d ->. unfold delivered. by rewrite decide_False. }
    cbn [partial f_masked f_key]. destruct (s_masked F); cbn [b2z Z.eqb] in *;
      (eexists; split; [reflexivity|]); apply done_good; try done; by apply Hdel.
Qed.

Lemma parse_payload_good alloc n p q R :
  3 < rank (p_phase p) -> q_room n q -> agree (q_bytes q) R -> expects p R -> alloc (flen F) = true ->
  exists r, parse_payload alloc p q = Some r /\ good 4 n q R r.
Proof.
  intros Hr Hq Ha He Hal. destruct He as [| | | | |k Hk]; cbn in Hr; try lia; [|by apply payload_run].
  destruct (decide (s_data F = [])) as [E0|Hne].
  - unfold parse_payload. cbn [p_phase p_frame partial f_len]. unfold flen in *. rewrite E0. cbn [length Z.of_nat Z.eqb].
    eexists. split; [reflexivity|].
    assert (body_data F = []) as ->. { apply nil_length_inv. by rewrite length_body, E0. }
    apply done_good; try done. unfold delivered, keyf, flen. rewrite E0, decide_True by done. reflexivity.
  - assert (0 < length (s_data F)) as Hpos. { destruct (s_data F); [done|cbn; lia]. }
    destruct (payload_run alloc n 0 q Hpos Hq Ha) as (r & E & Hg). exists r. split; [|done]. rewrite <- E.
    unfold parse_payload. cbn [p_phase p_frame partial f_len f_payload alloc_payload p_read p_expect_masked p_allow_rsv1].
    pose proof (fo_len _ _ _ Hok) as Hmax. rewrite (proj2 (Z.ltb_ge _ _)) by done. rewrite Hal.
    unfold flen. rewrite Nat2Z.id. unfold filled. cbn [take app]. by rewrite Nat.sub_0_r.
Qed.

(** All phases. *)
Lemma parse_good alloc n p q R :
  q_room n q -> agree (q_bytes q) R -> expects p R -> alloc (flen F) = true ->
  exists r p' q', xWsFrameParse alloc p q = Some (r, p', q') /\ good 4 n q R (Return r p' q').
Proof.
  intros Hq Ha He Hal. unfold xWsFrameParse.
  destruct (parse_header_good n p q R Hq Ha He) as (r0 & -> & G0).
  destruct (good_andthen 0 1 n q R r0 parse_len16) as (r1 & -> & G1); [lia|done|done|intros; by apply parse_len16_good|].
  destruct (good_andthen 1 2 n q R r1 parse_len64) as (r2 & -> & G2); [lia|done|done|intros; by apply parse_len64_good|].
  destruct (good_andthen 2 3 n q R r2 parse_mask) as (r3 & -> & G3); [lia|done|done|intros; by apply parse_mask_good|].
  destruct (good_andthen 3 4 n q R r3 (parse_payload alloc)) as (r4 & -> & G4); [lia|done|done|intros; by apply parse_payload_good|].
  cbn [mbind option_bind]. destruct r4 as [r p' q'|p' q']; [by exists r, p', q'|].
  destruct G4 as [Hr _]. exfalso. destruct (p_phase p'); cbn in Hr; lia.
Qed.

End expects.

(** ** Chunks *)

Section feed.
Context {Q : Type} `{!ByteQueue Q}.

(** A reader that appends what arrives and parses after every arrival, up to
    the first frame. *)
Inductive fed :=
  | FedFrame (p : xWsFrameParser) (q : Q) (later : list (list Z))
  | FedMore (p : xWsFrameParser) (q : Q)
  | FedError
  | FedNoMemory.

Fixpoint feed (alloc : oracle) (p : xWsFrameParser) (q : Q) (chunks : list (list Z)) : ub fed :=
  match chunks with
  | [] => Some (FedMore p q)
  | c :: cs =>
      '(e, q) ← q_append c q;
      if decide (e <> xErrno_Ok) then Some FedNoMemory else
      '(r, p, q) ← xWsFrameParse alloc p q;
      match r with
      | WsOk => Some (FedFrame p q cs)
      | WsNeedMore => feed alloc p q cs
      | WsError => Some FedError
      end
  end.

Lemma feed_good F m a alloc p q R chunks rest :
  frame_ok m a F -> alloc (flen F) = true -> expects F m a p R ->
  length (q_bytes q) < length R -> q_bytes q ++ concat chunks = R ++ rest ->
  q_room (length (concat chunks)) q ->
  (feed alloc p q chunks = Some FedNoMemory /\ q_starved) \/
  exists p' q' later, feed alloc p q chunks = Some (FedFrame p' q' later) /\
    p_frame p' = delivered F /\ q_bytes q' ++ concat later = rest.
Proof.
  intros Hok Hal. revert p q R. induction chunks as [|c cs IH]; intros p q R He Hl E Hq.
  { exfalso. cbn [concat] in E. rewrite app_nil_r in E. apply (f_equal length) in E. rewrite length_app in E. lia. }
  cbn [feed concat] in *. rewrite length_app in Hq.
  destruct (q_append_spec _ _ _ Hq) as (e & q1 & -> & Hq1 & Hcase). cbn [mbind option_bind].
  destruct Hcase as [[-> E1]|(Hne & Hs & _)]; [|left; by rewrite decide_True].
  rewrite decide_False by (intros H; by apply H).
  assert (q_bytes q1 ++ concat cs = R ++ rest) as E2 by (by rewrite E1, <- app_assoc).
  assert (agree (q_bytes q1) R) as Ha by (by exists (concat cs), rest).
  destruct (parse_good F m a Hok alloc _ p q1 R Hq1 Ha He Hal) as (r & p' & q' & -> & Hg). cbn [mbind option_bind].
  destruct r; cbn [good] in Hg.
  - right. exists p', q', cs. split; [done|]. destruct Hg as (Eb & _ & Ef & _). split; [done|].
    rewrite Eb, <- app_assoc in E2. by apply app_inv_head in E2.
  - destruct Hg as (R' & ((w & -> & Eb) & Hq' & He') & Hl'). apply (IH p' q' R'); [done|done| |done].
    rewrite Eb, <- !app_assoc in E2. by apply app_inv_head in E2.
  - done.
Qed.

Lemma wire_ne F : 0 < length (wire F).
Proof. unfold wire, ws_header. destruct (_ <? _)%Z; [cbn; lia|]. destruct (_ <=? _)%Z; cbn; lia. Qed.

(** What the encoder appends. *)
Lemma encode_spec alloc key q F n data :
  q_room (length (wire F) + n) q -> s_key F = key -> length (s_data F) <= length data ->
  take (length (s_data F)) data = s_data F ->
  exists b q', xWsFrameEncodeEx alloc key q (s_fin F) (s_rsv1 F) (s_op F) (Some data) (length (s_data F)) (s_masked F) = Some (b, q') /\ q_room n q' /\
    (b = true /\ q_bytes q' = q_bytes q ++ wire F \/ b = false /\ (q_starved \/ alloc (flen F) = false)).
Proof.
  intros Hq <- Hl Ed. unfold xWsFrameEncodeEx. unfold wire in *.
  change (if s_masked F then s_key F else []) with (key_part F).
  fold (flen F). set (hdr := ws_header _ _ _ _ _) in *.
  assert (length (body_data F) = length (s_data F)) as Hb by apply length_body.
  rewrite app_assoc, length_app in Hq.
  replace (length (hdr ++ key_part F) + length (body_data F) + n) with
    (length (hdr ++ key_part F) + (length (body_data F) + n)) in Hq by lia.
  destruct (q_append_spec _ _ _ Hq) as (e & q1 & -> & Hq1 & Hcase). cbn [mbind option_bind].
  destruct Hcase as [[-> E1]|(Hne & Hs & _)].
  2: { rewrite decide_True by done. exists false, q1. split; [done|]. split; [by eapply q_room_le; [|exact Hq1]; lia|]. right. split; [done|by left]. }
  rewrite decide_False by (intros H; by apply H). case_decide as H0.
  2: { exists true, q1. split; [done|]. split; [by eapply q_room_le; [|exact Hq1]; lia|]. left. split; [done|]. rewrite E1.
       assert (body_data F = []) as -> by (apply nil_length_inv; lia). by rewrite app_nil_r. }
  rewrite mem_read_Some by lia. rewrite drop_0, Ed. cbn [mbind option_bind].
  assert (forall src, src = body_data F -> exists b q',
    ('(e, q) ← q_append src q1; Some (bool_decide (e = xErrno_Ok), q)) = Some (b, q') /\ q_room n q' /\
    (b = true /\ q_bytes q' = q_bytes q ++ hdr ++ key_part F ++ body_data F \/ b = false /\ (q_starved \/ alloc (flen F) = false))) as Hsend.
  { intros src ->. destruct (q_append_spec _ _ _ Hq1) as (e & q2 & -> & Hq2 & Hcase). cbn [mbind option_bind].
    exists (bool_decide (e = xErrno_Ok)), q2. split; [done|]. split; [done|]. destruct Hcase as [[-> E2]|(Hne & Hs & _)].
    - left. split; [done|]. by rewrite E2, E1, <- !app_assoc.
    - right. split; [by rewrite bool_decide_false|by left]. }
  destruct (s_masked F) eqn:Em.
  - fold (flen F). destruct (alloc (flen F)); cbn [negb].
    + apply Hsend. unfold body_data. by rewrite Em.
    + exists false, q1. split; [done|]. split; [by eapply q_room_le; [|exact Hq1]; lia|]. right. split; [done|by right].
  - apply Hsend. unfold body_data. by rewrite Em.
Qed.

End feed.

