(* ===== verification/WsSafe.v ===== *)
(** * WsSafe: the frame parser on arbitrary input

    Whatever bytes arrive, the parser neither reads nor writes out of bounds,
    it only takes bytes from the front of the buffer, and the frames it
    delivers obey the rules of the protocol. *)

From S2P Require Import Prelude Errno Wire ByteQueue WsFrame WsParse.

Section safe.
Context {Q : Type} `{!ByteQueue Q} (m : Z) (a : bool).

(** The header checks passed. *)
Record hdr_valid (f : xWsFrame) : Prop := {
  hv_op : (0 <= f_opcode f < 16)%Z;
  hv_masked : f_masked f = m;
  hv_fin : is_control_opcode (f_opcode f) = true -> f_fin f <> 0%Z;
  hv_rsv1 : f_rsv1 f <> 0%Z -> a = true /\ is_control_opcode (f_opcode f) = false;
}.

Definition len_valid (f : xWsFrame) : Prop :=
  (0 <= f_len f < 2 ^ 63)%Z /\ (is_control_opcode (f_opcode f) = true -> (f_len f <= 125)%Z).

(** A parser between two calls. *)
Definition parser_ok (p : xWsFrameParser) : Prop :=
  p_expect_masked p = m /\ p_allow_rsv1 p = a /\
  let f := p_frame p in
  match p_phase p with
  | PhHeader => f_payload f = None
  | PhLen16 | PhLen64 => hdr_valid f /\ f_payload f = None /\ is_control_opcode (f_opcode f) = false
  | PhMask => hdr_valid f /\ f_payload f = None /\ len_valid f
  | PhPayload => hdr_valid f /\ len_valid f /\
      match f_payload f with
      | None => True
      | Some d => Z.of_nat (length d) = f_len f /\ (f_len f <= WS_MAX_PAYLOAD)%Z /\ p_read p < length d
      end
  end.

(** A delivered frame. *)
Definition frame_valid (f : xWsFrame) : Prop :=
  hdr_valid f /\ len_valid f /\ (f_len f <= WS_MAX_PAYLOAD)%Z /\
  match f_payload f with None => f_len f = 0%Z | Some d => Z.of_nat (length d) = f_len f end.

Definition drained (n : nat) (q q' : Q) : Prop := q_room n q' /\ exists c, q_bytes q = c ++ q_bytes q'.

Definition safe (k n : nat) (q : Q) (r : flow) : Prop :=
  match r with
  | Next p' q' => drained n q q' /\ parser_ok p' /\ k < rank (p_phase p')
  | Return WsNeedMore p' q' => drained n q q' /\ parser_ok p'
  | Return WsOk p' q' => drained n q q' /\ frame_valid (p_frame p')
  | Return WsError _ q' => drained n q q'
  end.

Lemma drained_refl n q : q_room n q -> drained n q q.
Proof. intros H. split; [done|]. by exists []. Qed.

Lemma drained_trans n q1 q2 q3 : drained n q1 q2 -> drained n q2 q3 -> drained n q1 q3.
Proof. intros [_ [c1 E1]] [H [c2 E2]]. split; [done|]. exists (c1 ++ c2). by rewrite E1, E2, app_assoc. Qed.

Lemma drained_bytes n q q' : drained n q q' -> bytes_ok (q_bytes q) -> bytes_ok (q_bytes q').
Proof. intros [_ [c ->]] H. by apply Forall_app in H as [_ ?]. Qed.

Lemma safe_andthen k k' n q r (next : xWsFrameParser -> Q -> ub flow) :
  k < k' -> bytes_ok (q_bytes q) -> safe k n q r ->
  (forall p1 q1, k < rank (p_phase p1) -> q_room n q1 -> bytes_ok (q_bytes q1) -> parser_ok p1 ->
     exists r', next p1 q1 = Some r' /\ safe k' n q1 r') ->
  exists r', andthen (Some r) next = Some r' /\ safe k' n q r'.
Proof.
  intros Hk Hb Hs Hnext. unfold andthen. cbn [mbind option_bind]. destruct r as [r p1 q1|p1 q1].
  { exists (Return r p1 q1). split; [done|]. destruct r; exact Hs. }
  destruct Hs as (Ht & Hp & Hr). destruct (Hnext p1 q1 Hr) as (r' & E & Hs'); [apply Ht|by eapply drained_bytes|done|].
  exists r'. split; [done|].
  destruct r' as [[] p2 q2|p2 q2]; cbn [safe] in *; intuition (eauto using drained_trans).
Qed.

(** A field of [k] bytes. *)
Lemma peek_any n k q :
  q_room n q -> bytes_ok (q_bytes q) ->
  (exists w, q_peek k q = ok w /\ length w = k /\ bytes_ok w /\
     exists q', q_consume k q = Some q' /\ drained n q q') \/ q_peek k q = fail.
Proof.
  intros Hq Hb. rewrite (q_peek_spec n) by done. case_decide as Hl; [left|by right].
  exists (take k (q_bytes q)). split; [done|]. split; [rewrite length_take; lia|]. split; [by apply Forall_take|].
  destruct (q_consume_spec n k q Hq Hl) as (q' & E & Hq' & Eq). exists q'. split; [done|]. split; [done|].
  exists (take k (q_bytes q)). by rewrite Eq, take_drop.
Qed.

Lemma wait_safe k n q p : q_room n q -> parser_ok p -> safe k n q (Return WsNeedMore p q).
Proof. intros Hq Hp. split; [by apply drained_refl|done]. Qed.

Lemma skip_safe k n q p : q_room n q -> parser_ok p -> k < rank (p_phase p) -> safe k n q (Next p q).
Proof. intros Hq Hp Hk. split; [by apply drained_refl|done]. Qed.

(** The state after the length: mask or payload. *)
Lemma after_len_ok f rd :
  hdr_valid f -> len_valid f -> f_payload f = None -> parser_ok (WsParser (after_len f) f rd m a).
Proof.
  intros Hh Hl Hp. split; [done|]. split; [done|]. unfold after_len. cbn [p_phase p_frame].
  destruct (f_masked f =? 0)%Z; cbn; [|done]. by rewrite Hp.
Qed.

Lemma after_len_rank2 f : 2 < rank (after_len f).
Proof. unfold after_len. destruct (f_masked f =? 0)%Z; cbn; lia. Qed.

Lemma parse_header_safe n p q :
  q_room n q -> bytes_ok (q_bytes q) -> parser_ok p -> exists r, parse_header p q = Some r /\ safe 0 n q r.
Proof.
  intros Hq Hb Hp. unfold parse_header. destruct p as [ph f rd em al]. cbn [p_phase].
  destruct ph; try (eexists; split; [reflexivity|]; apply skip_safe; [done..|cbn; lia]).
  destruct (peek_any n 2 q Hq Hb) as [(w & -> & Hl & Hw & q' & Ec & Ht)| ->].
  2: { eexists. split; [reflexivity|]. by apply wait_safe. }
  destruct w as [|h0 [|h1 [|]]]; try (cbn in Hl; lia). cbn [mbind option_bind ok]. rewrite Ec.
  apply Forall_cons in Hw as [B0 [B1 _]%Forall_cons]. destruct Hp as (Em & Ea & Hp). cbn in Em, Ea, Hp. subst em al.
  cbn [p_frame set_frame p_expect_masked p_allow_rsv1 f_rsv1 f_opcode f_masked f_fin]. rewrite Hp.
  destruct (Z.land h0 0x30 =? 0)%Z; cbn [negb]; [|eexists; split; [reflexivity|]; by apply drained_refl].
  destruct (negb (Z.land (Z.shiftr h0 6) 1 =? 0)%Z && (negb a || is_control_opcode (Z.land h0 0x0F))) eqn:Er;
    [eexists; split; [reflexivity|]; by apply drained_refl|].
  destruct (Z.eqb_spec (Z.land (Z.shiftr h1 7) 1) m) as [Hm|Hm]; cbn [negb];
    [|eexists; split; [reflexivity|]; by apply drained_refl].
  cbn [mbind option_bind]. destruct (is_control_opcode (Z.land h0 0x0F) && _) eqn:Ectl;
    [eexists; split; [reflexivity|]; exact Ht|].
  unfold byte_ok in *. pose proof (land_bound h0 0x0F ltac:(lia) ltac:(lia)). pose proof (land_bound h1 0x7F ltac:(lia) ltac:(lia)).
  set (f' := WsFrame (Z.land (Z.shiftr h0 7) 1) (Z.land (Z.shiftr h0 6) 1) (Z.land h0 0x0F) (Z.land (Z.shiftr h1 7) 1)
    (f_key f) (f_len f) None). set (len7 := Z.land h1 0x7F) in *.
  assert (forall l, hdr_valid (set_len f' l)) as Hh.
  { intros l. split; cbn; [lia|done| |].
    - intros Ho. rewrite Ho in Ectl. cbn in Ectl. apply orb_false_iff in Ectl as [Ef _]. by apply Z.eqb_neq.
    - intros Hr. apply Z.eqb_neq in Hr. rewrite Hr in Er. cbn in Er. apply orb_false_iff in Er as [Ea' Eo].
      split; [by destruct a|done]. }
  assert (126 <= len7 -> is_control_opcode (Z.land h0 15) = false)%Z as Hctl.
  { intros Hle. apply Z.leb_le in Hle. destruct (is_control_opcode _); [|done]. cbn in Ectl. by rewrite Hle, orb_true_r in Ectl. }
  eexists. split; [reflexivity|]. split; [exact Ht|]. destruct (Z.ltb_spec len7 126) as [Hlt|Hge].
  - split.
    + apply (after_len_ok (set_len f' len7)); [apply Hh| |done]. split; cbn; lia.
    + cbn [p_phase set_phase]. pose proof (after_len_rank2 f'). lia.
  - specialize (Hctl Hge). destruct (len7 =? 126)%Z; (split; [|cbn; lia]); split; try done; split; try done;
      cbn [p_phase set_phase p_frame set_frame]; split; try done; apply (Hh (f_len f)).
Qed.

Lemma parse_len16_safe n p q :
  0 < rank (p_phase p) -> q_room n q -> bytes_ok (q_bytes q) -> parser_ok p ->
  exists r, parse_len16 p q = Some r /\ safe 1 n q r.
Proof.
  intros Hr Hq Hb Hp. unfold parse_len16. destruct p as [ph f rd em al]. cbn [p_phase] in *.
  destruct ph; cbn in Hr; try lia; try (eexists; split; [reflexivity|]; apply skip_safe; [done..|cbn; lia]).
  destruct (peek_any n 2 q Hq Hb) as [(w & -> & Hl & Hw & q' & Ec & Ht)| ->].
  2: { eexists. split; [reflexivity|]. by apply wait_safe. }
  destruct w as [|h0 [|h1 [|]]]; try (cbn in Hl; lia). cbn [mbind option_bind ok]. rewrite Ec. cbn [mbind option_bind].
  apply Forall_cons in Hw as [B0 [B1 _]%Forall_cons]. destruct Hp as (Em & Ea & Hh & Hp & Hc). cbn in Em, Ea, Hh, Hp, Hc. subst em al.
  unfold byte_ok in *. eexists. split; [reflexivity|]. split; [exact Ht|]. cbn [p_phase set_phase p_frame set_frame].
  split; [|pose proof (after_len_rank2 (set_len f (Z.lor (Z.shiftl h0 8) h1))); lia]. apply (after_len_ok (set_len f (Z.lor (Z.shiftl h0 8) h1))); [by destruct Hh| |done].
  split; cbn [f_len set_len f_opcode]; [|by rewrite Hc]. rewrite lor_shiftl_add by lia. lia.
Qed.

Lemma len64_nonneg bs n : (0 <= n)%Z -> bytes_ok bs -> (0 <= foldl (fun n b => Z.lor (u64 (Z.shiftl n 8)) b) n bs)%Z.
Proof.
  intros Hn Hb. revert n Hn. induction Hb as [|b bs Hb Hbs IH]; intros n Hn; [done|]. cbn [foldl]. apply IH.
  unfold byte_ok in Hb. apply Z.lor_nonneg. split; [|lia]. apply Z.mod_pos_bound. lia.
Qed.

Lemma parse_len64_safe n p q :
  1 < rank (p_phase p) -> q_room n q -> bytes_ok (q_bytes q) -> parser_ok p ->
  exists r, parse_len64 p q = Some r /\ safe 2 n q r.
Proof.
  intros Hr Hq Hb Hp. unfold parse_len64. destruct p as [ph f rd em al]. cbn [p_phase] in *.
  destruct ph; cbn in Hr; try lia; try (eexists; split; [reflexivity|]; apply skip_safe; [done..|cbn; lia]).
  destruct (peek_any n 8 q Hq Hb) as [(w & -> & Hl & Hw & q' & Ec & Ht)| ->].
  2: { eexists. split; [reflexivity|]. by apply wait_safe. }
  cbn [mbind option_bind ok p_frame f_len set_len]. set (len := foldl _ _ w).
  assert (0 <= len)%Z as H0 by (by apply len64_nonneg).
  destruct (Z.eqb_spec (Z.shiftr len 63) 0) as [H63|H63]; cbn [negb]; [|eexists; split; [reflexivity|]; by apply drained_refl].
  rewrite Ec. cbn [mbind option_bind].
  destruct Hp as (Em & Ea & Hh & Hp & Hc). cbn in Em, Ea, Hh, Hp, Hc. subst em al.
  eexists. split; [reflexivity|]. split; [exact Ht|]. cbn [p_phase set_phase p_frame set_frame].
  split; [|pose proof (after_len_rank2 (set_len f len)); lia]. apply (after_len_ok (set_len f len)); [by destruct Hh| |done].
  split; cbn [f_len set_len f_opcode]; [|by rewrite Hc]. rewrite Z.shiftr_div_pow2 in H63 by lia.
  apply Z.div_small_iff in H63; lia.
Qed.

Lemma parse_mask_safe n p q :
  2 < rank (p_phase p) -> q_room n q -> bytes_ok (q_bytes q) -> parser_ok p ->
  exists r, parse_mask p q = Some r /\ safe 3 n q r.
Proof.
  intros Hr Hq Hb Hp. unfold parse_mask. destruct p as [ph f rd em al]. cbn [p_phase] in *.
  destruct ph; cbn in Hr; try lia; try (eexists; split; [reflexivity|]; apply skip_safe; [done..|cbn; lia]).
  destruct (peek_any n 4 q Hq Hb) as [(w & -> & Hl & Hw & q' & Ec & Ht)| ->].
  2: { eexists. split; [reflexivity|]. by apply wait_safe. }
  cbn [mbind option_bind ok]. rewrite Ec. cbn [mbind option_bind].
  destruct Hp as (Em & Ea & Hh & Hp & Hlv). cbn in Em, Ea, Hh, Hp, Hlv. subst em al.
  eexists. split; [reflexivity|]. split; [exact Ht|]. split; [|cbn; lia]. split; [done|]. split; [done|].
  cbn [p_phase set_phase p_frame set_frame f_payload]. rewrite Hp. split; [by destruct Hh|done].
Qed.

Lemma parse_done_safe n q q' p :
  drained n q q' -> frame_valid (p_frame p) -> safe 4 n q (parse_done p q').
Proof. intros Ht Hv. unfold parse_done. destruct (_ && _); cbn [safe]; done. Qed.

(** The payload read into memory that is there. *)
Lemma payload_safe alloc n f d rd q :
  hdr_valid f -> len_valid f -> f_payload f = Some d -> Z.of_nat (length d) = f_len f ->
  (f_len f <= WS_MAX_PAYLOAD)%Z -> rd < length d -> q_room n q ->
  exists r, parse_payload alloc (WsParser PhPayload f rd m a) q = Some r /\ safe 4 n q r.
Proof.
  intros Hh Hl Hp Hd Hmax Hrd Hq. unfold parse_payload, alloc_payload. cbn [p_phase p_frame p_read].
  rewrite (proj2 (Z.eqb_neq _ _)) by lia. rewrite Hp. cbn [p_frame p_read]. unfold WS_MAX_PAYLOAD in Hmax.
  assert (u64 (f_len f - Z.of_nat rd) = Z.of_nat (length d - rd)) as ->.
  { unfold u64. rewrite Z.mod_small by lia. lia. }
  rewrite (q_len_spec n) by done. set (take' := Z.to_nat _).
  assert (take' = length (q_bytes q) `min` (length d - rd)) as Et.
  { unfold take'. destruct (Z.ltb_spec (Z.of_nat (length (q_bytes q))) (Z.of_nat (length d - rd))); lia. }
  clearbody take'. rewrite Hp. cbn [mbind option_bind].
  assert (exists d' q', (if decide (0 < take') then
     '(bs, q) ← q_read take' q; d ← mem_write d rd bs; Some (d, q) else Some (d, q)) = Some (d', q') /\
     length d' = length d /\ drained n q q') as (d' & q' & Erun & Hd' & Ht).
  { case_decide as H0; [|exists d, q; split; [done|]; split; [done|]; by apply drained_refl].
    destruct (q_read_spec n take' q Hq) as (q' & -> & Hq' & Eq); [lia|]. cbn [mbind option_bind].
    destruct (mem_write d rd (take take' (q_bytes q))) as [d'|] eqn:Ew.
    2: { rewrite mem_write_Some in Ew by (rewrite length_take; lia). done. }
    exists d', q'. split; [done|]. split; [by eapply mem_write_length|]. split; [done|].
    exists (take take' (q_bytes q)). by rewrite Eq, take_drop. }
  cbn [mbind option_bind] in Erun |- *. rewrite Erun. cbn [mbind option_bind p_read].
  destruct (Z.ltb_spec (Z.of_nat (rd + take')) (f_len f)).
  - eexists. split; [reflexivity|]. split; [done|]. split; [done|]. split; [done|]. cbn.
    split; [by destruct Hh|]. split; [done|]. unfold WS_MAX_PAYLOAD. lia.
  - destruct (f_masked f =? 0)%Z; (eexists; split; [reflexivity|]); apply parse_done_safe; try done;
      cbn [p_frame set_frame set_payload]; (split; [by destruct Hh|]); (split; [done|]); cbn;
      rewrite ?length_unmask; unfold WS_MAX_PAYLOAD; lia.
Qed.

Lemma parse_payload_safe alloc n p q :
  3 < rank (p_phase p) -> q_room n q -> bytes_ok (q_bytes q) -> parser_ok p ->
  exists r, parse_payload alloc p q = Some r /\ safe 4 n q r.
Proof.
  intros Hr Hq Hb Hp. destruct p as [ph f rd em al]. destruct ph; cbn in Hr; try lia.
  destruct Hp as (Em & Ea & Hh & Hl & Hp). cbn in Em, Ea, Hh, Hl, Hp. subst em al.
  destruct (f_payload f) as [d|] eqn:Ep.
  { destruct Hp as (Hd & Hmax & Hrd). by eapply payload_safe. }
  destruct (Z.eqb_spec (f_len f) 0) as [H0|H0].
  { unfold parse_payload. cbn [p_phase p_frame]. rewrite H0. cbn [Z.eqb]. eexists. split; [reflexivity|].
    apply parse_done_safe; [by apply drained_refl|]. cbn. split; [by destruct Hh|]. split; [done|]. cbn. unfold WS_MAX_PAYLOAD. lia. }
  destruct (alloc_payload alloc (WsParser PhPayload f rd m a)) as [p1|] eqn:Eal.
  2: { unfold parse_payload. cbn [p_phase p_frame]. rewrite (proj2 (Z.eqb_neq _ _)) by done. rewrite Eal.
       eexists. split; [reflexivity|]. by apply drained_refl. }
  unfold alloc_payload in Eal. cbn [p_frame] in Eal. rewrite Ep in Eal.
  destruct (Z.ltb_spec WS_MAX_PAYLOAD (f_len f)); [done|]. destruct (alloc (f_len f)) eqn:Eok; [|done].
  set (d := replicate (Z.to_nat (f_len f)) 0%Z). destruct Hl as [Hl Hc].
  assert (Z.of_nat (length d) = f_len f) as Hd by (unfold d; rewrite length_replicate; lia).
  destruct (payload_safe alloc n (set_payload f (Some d)) d 0 q) as (r & E & Hs); try done; [by destruct Hh|cbn; lia|].
  exists r. split; [|done]. rewrite <- E. unfold parse_payload, alloc_payload. cbn [p_phase p_frame f_len set_payload f_payload].
  rewrite (proj2 (Z.eqb_neq _ _)) by done. rewrite Ep, (proj2 (Z.ltb_ge _ _)) by done. by rewrite Eok.
Qed.

Lemma parse_any alloc n p q :
  q_room n q -> bytes_ok (q_bytes q) -> parser_ok p ->
  exists r p' q', xWsFrameParse alloc p q = Some (r, p', q') /\
    q_room n q' /\ (exists c, q_bytes q = c ++ q_bytes q') /\
    match r with WsOk => frame_valid (p_frame p') | WsNeedMore => parser_ok p' | WsError => True end.
Proof.
  intros Hq Hb Hp. unfold xWsFrameParse.
  destruct (parse_header_safe n p q Hq Hb Hp) as (r0 & -> & G0).
  destruct (safe_andthen 0 1 n q r0 parse_len16) as (r1 & -> & G1); [lia|done|done|intros; by apply parse_len16_safe|].
  destruct (safe_andthen 1 2 n q r1 parse_len64) as (r2 & -> & G2); [lia|done|done|intros; by apply parse_len64_safe|].
  destruct (safe_andthen 2 3 n q r2 parse_mask) as (r3 & -> & G3); [lia|done|done|intros; by apply parse_mask_safe|].
  destruct (safe_andthen 3 4 n q r3 (parse_payload alloc)) as (r4 & -> & G4); [lia|done|done|intros; by apply parse_payload_safe|].
  cbn [mbind option_bind]. destruct r4 as [r p' q'|p' q'].
  - exists r, p', q'. split; [done|]. destruct r; cbn [safe] in G4; unfold drained in G4; tauto.
  - destruct G4 as (_ & _ & Hr). exfalso. destruct (p_phase p'); cbn in Hr; lia.
Qed.

End safe.
