(* ===== verification/WsIO.v ===== *)
(** * WsIO: the frame codec on the chained buffers, and its theorems

    [io_peek] of [libx/x/http/ws_frame.c] and the instance of [ByteQueue] that
    the buffers of [io.c] provide while none of their blocks is shared; the
    other holders of blocks are a parameter. *)

From S2P Require Import Prelude Errno IOBlock IOBuf IOTake ByteQueue WsFrame WsParse WsSafe.

(** The copying loop of [io_peek]. *)
Fixpoint peek_loop (rs : list xIOBufferRef) (copied n : nat) (s : store) : ub (list Z) :=
  match rs with
  | [] => Some []
  | r :: rs =>
      if decide (n <= copied) then Some [] else
      let want := n - copied in
      let take := if decide (r_len r < want) then r_len r else want in
      bs ← block_read (r_block r) (r_off r) take s;
      out ← peek_loop rs (copied + take) n s;
      Some (bs ++ out)
  end.

(** The [n] bytes stored at [out], or the result 0. *)
Definition io_peek (n : nat) (io : xIOBuffer) (s : store) : fallible (list Z) :=
  if (xIOBufferLen io <? Z.of_nat n)%Z then fail else lift (peek_loop (io_refs io) 0 n s).

(** A buffer with the store it lives in. *)
Record ioq := IOQ {
  iq_buf : xIOBuffer;
  iq_store : store;
}.

Section ioq.
Context (block_size : nat) (junk : nat -> list Z) (alloc : nat -> bool) (hs : list bid).
Hypothesis junk_len : forall n, length (junk n) = n.
Hypothesis block_pos : 0 < block_size.

Definition ioq_room (n : nat) (q : ioq) : Prop :=
  io_ok block_size (iq_buf q) /\ held_ok block_size (iq_store q) (ids (io_refs (iq_buf q)) ++ hs) /\
  unshared (iq_buf q) hs /\ (io_nbytes (iq_buf q) + Z.of_nat (n + length hs) < MAX_BYTES)%Z.

Definition ioq_bytes (q : ioq) : list Z := contents (iq_store q) (io_refs (iq_buf q)).

Lemma peek_loop_spec rs copied n s hs' :
  Forall (ref_ok block_size) rs -> held_ok block_size s hs' -> ids rs ⊆ hs' ->
  peek_loop rs copied n s = Some (take (n - copied) (contents s rs)).
Proof.
  intros Hrs H. revert copied. induction Hrs as [|r rs [Hr1 Hr2] Hrs IH]; intros copied Hi; cbn [peek_loop].
  { cbn. by rewrite take_nil. }
  case_decide as Hn. { by replace (n - copied) with 0 by lia. }
  assert (length (ref_bytes s r) = r_len r) as Hl.
  { eapply ref_bytes_length; [done| |done]. apply Hi. left. }
  set (k := if decide _ then _ else _). assert (k = r_len r `min` (n - copied)) as Hk.
  { unfold k. case_decide; lia. }
  rewrite (block_read_spec block_size s hs') by (done || (apply Hi; left) || lia). cbn [mbind option_bind].
  rewrite IH by (intros b Hb; apply Hi; by right). cbn [mbind option_bind]. rewrite contents_cons. f_equal.
  assert (take k (drop (r_off r) (bytes_of s (r_block r))) = take k (ref_bytes s r)) as ->.
  { unfold ref_bytes. rewrite take_take. f_equal. lia. }
  destruct (decide (r_len r <= n - copied)).
  - rewrite take_app_ge, Hl by lia. rewrite take_ge by lia. do 2 f_equal. lia.
  - rewrite take_app_le by lia. replace (n - (copied + k)) with 0 by lia. rewrite app_nil_r. f_equal. lia.
Qed.

Lemma unshared_clear io : unshared io hs -> Forall (clear_of io) (io_refs io).
Proof.
  unfold unshared. intros Hnd. apply NoDup_app in Hnd as (Hnd & _). rewrite Forall_forall. intros r Hr.
  unfold clear_of. destruct (last (io_refs io)) as [t|] eqn:Et; [|done]. intros Eb.
  apply last_Some in Et as [l El]. enough (r = t) as -> by done.
  assert (t ∈ io_refs io) as Ht by (rewrite El; apply elem_of_app; right; left).
  apply list_elem_of_lookup in Hr as [i Hi]. apply list_elem_of_lookup in Ht as [j Hj].
  assert (i = j) as ->; [|congruence]. eapply NoDup_lookup; [exact Hnd|..]; unfold ids; rewrite list_lookup_fmap;
    [by rewrite Hi|by rewrite Hj, Eb].
Qed.

Lemma room_facts n q : ioq_room n q ->
  io_nbytes (iq_buf q) = Z.of_nat (length (ioq_bytes q)) /\ total (io_refs (iq_buf q)) = length (ioq_bytes q) /\
  (Z.of_nat (length (ids (io_refs (iq_buf q)) ++ hs)) <= MAX_BYTES)%Z /\ (io_nbytes (iq_buf q) <= MAX_BYTES)%Z /\
  (Z.of_nat (length hs) <= MAX_BYTES)%Z.
Proof.
  intros (Hio & H & _ & Hn). unfold ioq_bytes. rewrite (contents_length _ _ _ _ H) by apply Hio.
  pose proof (total_length _ _ (ok_refs _ _ Hio)). pose proof (ok_nbytes _ _ Hio).
  unfold ids. rewrite length_app, length_fmap. lia.
Qed.

Lemma taken_room n k q io' s' :
  ioq_room n q -> taken block_size (iq_buf q) io' k (iq_store q) s' hs ->
  ioq_room n (IOQ io' s') /\ ioq_bytes (IOQ io' s') = drop k (ioq_bytes q).
Proof.
  intros Hq (Hio' & H' & Hf & Hc & Hu). split; [|exact Hc]. destruct (room_facts n q Hq) as (Hn & _).
  destruct Hq as (Hio & H & Hun & Hb). split; [done|]. split; [done|]. split; [by apply Hu|].
  cbn [iq_buf iq_store] in *. rewrite (ok_nbytes _ _ Hio'). rewrite <- (contents_length _ _ _ _ H') by apply Hio'.
  rewrite Hc, length_drop. unfold ioq_bytes in Hn. lia.
Qed.

Definition ioq_consume (n : nat) (q : ioq) : ub ioq :=
  '(_, io, s) ← xIOBufferConsume (iq_buf q) (Z.of_nat n) (iq_store q); Some (IOQ io s).
Definition ioq_read (n : nat) (q : ioq) : ub (list Z * ioq) :=
  '(out, io, s) ← xIOBufferRead (iq_buf q) (Z.of_nat n) (iq_store q); Some (out, IOQ io s).
Definition ioq_append (src : list Z) (q : ioq) : ub (xErrno * ioq) :=
  '(e, io, s) ← xIOBufferAppend block_size junk alloc (iq_buf q) src (iq_store q); Some (e, IOQ io s).

#[export, program] Instance ioq_queue : ByteQueue ioq := {
  q_bytes := ioq_bytes;
  q_room := ioq_room;
  q_starved := exists k, alloc k = false;
  q_len q := xIOBufferLen (iq_buf q);
  q_peek n q := io_peek n (iq_buf q) (iq_store q);
  q_consume := ioq_consume;
  q_read := ioq_read;
  q_append := ioq_append;
}.
Next Obligation. intros n m q Hm (H1 & H2 & H3 & H4). do 3 (split; [done|]). lia. Qed.
Next Obligation. intros n q Hq. by apply (room_facts n q). Qed.
Next Obligation.
  intros n k q Hq. destruct (room_facts n q Hq) as (Hn & _). destruct Hq as (Hio & H & _).
  unfold io_peek, xIOBufferLen. rewrite Hn. case_decide as Hk.
  - rewrite (proj2 (Z.ltb_ge _ _)) by lia. rewrite (peek_loop_spec _ _ _ _ _ (ok_refs _ _ Hio) H) by set_solver.
    by rewrite lift_Some, Nat.sub_0_r.
  - by rewrite (proj2 (Z.ltb_lt _ _)) by lia.
Qed.
Next Obligation.
  intros n k q Hq Hk. destruct (room_facts n q Hq) as (Hn & Ht & Hl & Hm & _).
  unfold ioq_consume. destruct (consume_spec block_size (iq_buf q) (Z.of_nat k) (iq_store q) hs) as (io' & s' & -> & Htk);
    [apply Hq|apply Hq|lia|done|done|].
  cbn [mbind option_bind]. rewrite Nat2Z.id in Htk. exists (IOQ io' s'). split; [done|]. by apply taken_room.
Qed.
Next Obligation.
  intros n k q Hq Hk. destruct (room_facts n q Hq) as (Hn & Ht & Hl & Hm & _).
  unfold ioq_read. destruct (read_spec block_size (iq_buf q) (Z.of_nat k) (iq_store q) hs) as (io' & s' & -> & Htk);
    [apply Hq|apply Hq|lia|done|done|].
  cbn [mbind option_bind]. rewrite Nat2Z.id in *. exists (IOQ io' s'). split; [done|]. by apply taken_room.
Qed.
Next Obligation.
  intros n src q Hq. destruct (room_facts _ q Hq) as (Hn & Ht & Hl & Hm & Hhs). destruct Hq as (Hio & H & Hu & Hb).
  unfold ioq_append. destruct (append_spec block_size junk alloc junk_len (iq_buf q) src (iq_store q) hs block_pos Hio H)
    as (e & io' & s' & -> & Hio' & H' & Happ & Hu' & _); [lia|done|by apply unshared_clear|].
  cbn [mbind option_bind]. exists e, (IOQ io' s'). split; [done|].
  assert (length (contents s' (io_refs io')) <= length (ioq_bytes q) + length src) as Hlen.
  { unfold ioq_bytes. destruct Happ as [[_ ->]|(_ & _ & k & ->)]; rewrite length_app, ?length_take; lia. }
  split.
  - split; [done|]. split; [done|]. split; [by apply Hu'|]. cbn [iq_buf]. rewrite (ok_nbytes _ _ Hio').
    rewrite <- (contents_length _ _ _ _ H') by apply Hio'. lia.
  - unfold ioq_bytes. cbn [iq_buf iq_store]. destruct Happ as [[-> ->]|(-> & Hs & k & ->)]; [by left|right].
    split; [done|]. split; [done|]. by exists k.
Qed.

End ioq.

(** ** Round trip *)

(** C6: A valid frame written by the encoder into one buffer and arriving in
    another in any pieces, followed by anything, is delivered by the parser as
    it was sent, unmasked, with exactly the bytes behind it left over; sender
    and receiver may use any two implementations of the buffer. *)
Theorem ws_frame_roundtrip {Q1 Q2} `{!ByteQueue Q1} `{!ByteQueue Q2} alloc F (q1 : Q1) (q2 : Q2) chunks rest :
  frame_ok (b2z (s_masked F)) (s_rsv1 F) F -> (forall n, alloc n = true) ->
  ~ q_starved (Q := Q1) -> ~ q_starved (Q := Q2) ->
  q_room (length (wire F)) q1 -> q_room (length (concat chunks)) q2 -> q_bytes q2 = [] ->
  concat chunks = wire F ++ rest ->
  exists q1' p' q2' later,
    xWsFrameEncodeEx alloc (s_key F) q1 (s_fin F) (s_rsv1 F) (s_op F) (Some (s_data F)) (length (s_data F)) (s_masked F) =
      Some (true, q1') /\ q_bytes q1' = q_bytes q1 ++ wire F /\
    feed alloc (WsParser PhHeader zero_frame 0 (b2z (s_masked F)) (s_rsv1 F)) q2 chunks = Some (FedFrame p' q2' later) /\
    p_frame p' = delivered F /\ q_bytes q2' ++ concat later = rest.
Proof.
  intros Hok Hal Hs1 Hs2 Hq1 Hq2 E2 Ec.
  destruct (encode_spec alloc (s_key F) q1 F 0 (s_data F)) as (b & q1' & E & _ & Hb); [by rewrite Nat.add_0_r|done|done|by apply take_ge|].
  destruct Hb as [[-> Eb]|(_ & [?|Hn])]; [|done|by rewrite Hal in Hn].
  destruct (feed_good F _ _ alloc _ q2 (wire F) chunks rest Hok (Hal _) (ExHeader F _ _)) as [[_ ?]|(p' & q2' & later & Hf & Hd & Hr)];
    [rewrite E2; apply wire_ne|by rewrite E2, Ec|done|done|].
  by exists q1', p', q2', later.
Qed.

(** A masked text frame sent through two chained buffers with blocks of eight
    bytes, arriving in four pieces with the start of another frame. *)
Definition demo_frame : frame := Frame true false 1 true [7; 8; 9; 10]%Z [72; 101; 108; 108; 111]%Z.
Definition demo_chunks : list (list Z) := [[0x81]; [0x85; 7; 8]; [9; 10; 79; 109; 101; 102]; [104; 0x89; 0x80]]%Z.
Definition zeros (n : nat) : list Z := replicate n 0%Z.
Definition plenty (n : nat) : bool := true.

Lemma zeros_len n : length (zeros n) = n.
Proof. apply length_replicate. Qed.

Definition demo_queue : ByteQueue ioq := ioq_queue 8 zeros plenty [] zeros_len (Nat.lt_0_succ 7).
Definition empty_ioq : ioq := IOQ xIOBufferInit (Store ∅ [] 0).

Lemma empty_held : held_ok 8 (Store ∅ [] 0) [].
Proof.
  split; cbn [pool blocks].
  - constructor.
  - intros b. rewrite lookup_empty. split; [by intros [? [=]]|]. intros [H|H]; by apply not_elem_of_nil in H.
  - intros b H. by apply not_elem_of_nil in H.
  - intros b blk. by rewrite lookup_empty.
  - intros b blk. by rewrite lookup_empty.
Qed.

Lemma empty_room n : (Z.of_nat n < MAX_BYTES)%Z -> ioq_room 8 [] n empty_ioq.
Proof.
  intros Hn. split; [apply xIOBufferInit_ok|]. split; [exact empty_held|]. split; [constructor|]. cbn. lia.
Qed.

Lemma ws_frame_roundtrip_witness :
  frame_ok 1 false demo_frame /\ concat demo_chunks = wire demo_frame ++ [0x89; 0x80]%Z /\
  exists q1' p' q2' later,
    xWsFrameEncodeEx (Q := ioq) (ByteQueue0 := demo_queue) (fun _ => true) [7; 8; 9; 10]%Z empty_ioq true false 1
      (Some [72; 101; 108; 108; 111]%Z) 5 true = Some (true, q1') /\
    ioq_bytes q1' = ioq_bytes empty_ioq ++ wire demo_frame /\
    feed (ByteQueue0 := demo_queue) (fun _ => true) (WsParser PhHeader zero_frame 0 1 false) empty_ioq demo_chunks =
      Some (FedFrame p' q2' later) /\
    p_frame p' = delivered demo_frame /\ ioq_bytes q2' ++ concat later = [0x89; 0x80]%Z.
Proof.
  assert (frame_ok 1 false demo_frame) as Hok.
  { split; cbn; try done; repeat constructor; lia. }
  assert (concat demo_chunks = wire demo_frame ++ [0x89; 0x80]%Z) as Hc by (vm_compute; reflexivity).
  split; [exact Hok|]. split; [exact Hc|].
  apply (ws_frame_roundtrip (ByteQueue0 := demo_queue) (ByteQueue1 := demo_queue) (fun _ => true) demo_frame
    empty_ioq empty_ioq demo_chunks [0x89; 0x80]%Z);
    [exact Hok|reflexivity|by intros [k [=]]|by intros [k [=]]|apply empty_room; vm_compute; reflexivity|
     apply empty_room; vm_compute; reflexivity|reflexivity|exact Hc].
Defined.

(** ** Any input *)


