(* ===== verification/IOStream.v ===== *)
(** * IOStream: the chained buffers as streams

    The operations of [libx/x/buf/io.c] a connection uses besides those of
    [WsIO]: filling from a transport, the segments offered to one, copying
    out, emptying.  [ioq_stream] discharges [ByteStream]. *)

From S2P Require Import Prelude Errno IOBlock IOBuf IOTake ByteQueue WsIO.

Section stream.
Context (block_size : nat) (junk : nat -> list Z) (alloc : nat -> bool) (hs : list bid).
Hypothesis junk_len : forall n, length (junk n) = n.
Hypothesis block_pos : 0 < block_size.

#[local] Instance the_queue : ByteQueue ioq := ioq_queue block_size junk alloc hs junk_len block_pos.

Definition ioq_reset (q : ioq) : ub ioq := '(io, s) ← xIOBufferReset (iq_buf q) (iq_store q); Some (IOQ io s).
Definition ioq_deinit (q : ioq) : ub ioq := '(io, s) ← xIOBufferDeinit (iq_buf q) (iq_store q); Some (IOQ io s).
Definition ioq_fill {C} (fn : C -> nat -> option (list Z) * C) (ctx : C) (q : ioq) : ub (Z * ioq * C) :=
  '(r, io, s, ctx) ← xIOBufferReadWith block_size junk alloc fn ctx (iq_buf q) (iq_store q); Some (r, IOQ io s, ctx).

#[export, program] Instance ioq_stream : ByteStream ioq := {
  q_reset := ioq_reset;
  q_deinit := ioq_deinit;
  q_copy q := xIOBufferCopyTo (iq_buf q) (iq_store q);
  q_iov k q := xIOBufferReadIov (iq_buf q) (Z.of_nat k) (iq_store q);
  q_fill C := ioq_fill;
  q_chunk := block_size;
  q_fits n := (Z.of_nat (n + length hs) < MAX_BYTES)%Z;
}.
Next Obligation.
  intros n q. split.
  - intros Hq. destruct (room_facts block_size hs block_pos n q Hq) as (Hn & _). destruct Hq as (H1 & H2 & H3 & H4).
    split; [do 3 (split; [done|]); lia|]. cbn in *. lia.
  - intros [Hq Hf]. destruct (room_facts block_size hs block_pos 0 q Hq) as (Hn & _). destruct Hq as (H1 & H2 & H3 & H4).
    do 3 (split; [done|]). cbn in *. lia.
Qed.
Next Obligation.
  intros q Hq. destruct (room_facts block_size hs block_pos 0 q Hq) as (Hn & Ht & Hl & Hm & Hhs). destruct Hq as (Hio & H & Hu & Hb).
  unfold ioq_reset. destruct (reset_spec block_size (iq_buf q) (iq_store q) hs Hio H Hl) as (io' & s' & -> & Hio' & Er & H' & _).
  cbn [mbind option_bind]. exists (IOQ io' s'). split; [done|]. split.
  - split; [done|]. cbn [iq_buf iq_store]. rewrite Er. split; [done|]. split.
    + unfold unshared in *. rewrite Er. cbn. by apply NoDup_app in Hu as (_ & _ & ?).
    + rewrite (ok_nbytes _ _ Hio'), Er. cbn in *. lia.
  - cbn. unfold ioq_bytes. cbn [iq_buf iq_store]. by rewrite Er.
Qed.
Next Obligation.
  intros q Hq. destruct (room_facts block_size hs block_pos 0 q Hq) as (Hn & Ht & Hl & Hm & Hhs). destruct Hq as (Hio & H & Hu & Hb).
  unfold ioq_deinit. destruct (deinit_spec block_size (iq_buf q) (iq_store q) hs H Hl) as (s' & -> & H' & _).
  by eexists.
Qed.
Next Obligation. intros q (Hio & H & _). eapply copy_refs_spec; [apply Hio|exact H|set_solver]. Qed.
Next Obligation.
  intros k q (Hio & H & _). unfold xIOBufferReadIov. cbn [q_bytes the_queue ioq_queue]. unfold ioq_bytes.
  destruct (Z.leb_spec (Z.of_nat k) 0).
  { exists []. split; [done|]. split; [apply prefix_nil|]. split; [constructor|lia]. }
  rewrite (iov_loop_spec block_size _ _ _ _ (ok_refs _ _ Hio) H) by set_solver. rewrite Nat2Z.id.
  eexists. split; [done|]. split; [|split].
  - rewrite concat_ref_bytes. exists (contents (iq_store q) (drop k (io_refs (iq_buf q)))). by rewrite <- contents_app, take_drop.
  - apply Forall_fmap, Forall_forall. intros r Hr Er. apply elem_of_take in Hr as (i & Hi & _).
    pose proof (ok_refs _ _ Hio) as Hrs. rewrite Forall_lookup in Hrs. destruct (Hrs _ _ Hi) as [Hr1 Hr2].
    apply (f_equal length) in Er. rewrite (ref_bytes_length block_size _ (ids (io_refs (iq_buf q)) ++ hs) r) in Er;
      [cbn in Er; lia|done| |done].
    apply elem_of_app. left. unfold ids. apply list_elem_of_fmap. exists r. split; [done|]. by eapply list_elem_of_lookup_2.
  - intros _ Es. apply (f_equal length) in Es. rewrite length_fmap, length_take in Es. cbn in Es.
    assert (io_refs (iq_buf q) = []) as ->; [|done]. apply nil_length_inv. lia.
Qed.
Next Obligation.
  intros C fn ctx q Hq Hfn. destruct (room_facts block_size hs block_pos _ q Hq) as (Hn & Ht & Hl & Hm & Hhs). destruct Hq as (Hio & H & Hu & Hb).
  unfold ioq_fill.
  destruct (read_with_spec block_size junk alloc junk_len fn ctx (iq_buf q) (iq_store q) hs block_pos Hio H)
    as (r & io' & s' & ctx' & -> & Hio' & H' & Hrec & Hu' & _); [lia|done|done|by apply (unshared_clear hs)|intros; by eapply Hfn|].
  cbn [mbind option_bind]. exists r, (IOQ io' s'), ctx'. split; [done|].
  pose proof (contents_length block_size _ _ _ H') as Hlen. specialize (Hlen (ok_refs _ _ Hio')).
  split.
  - split; [done|]. split; [done|]. split; [by apply Hu'|]. cbn [iq_buf]. rewrite (ok_nbytes _ _ Hio'), <- Hlen.
    unfold ioq_bytes in Hn. destruct Hrec as [(k & got & Hk & Hgot & _ & ->)|(_ & -> & _)]; [|lia].
    apply Hfn in Hgot. rewrite length_app. cbn in Hk. lia.
  - destruct Hrec as [(k & got & Hk & Hgot & -> & E)|(-> & E & [Hf|[Hs Hc]])].
    + left. exists k, got. by repeat split; try apply Hk.
    + right. split; [done|]. split; [done|]. by left.
    + right. split; [done|]. split; [done|]. by right.
Qed.

End stream.
