(* ===== verification/WsMem.v ===== *)
(** * WsMem: the frame parser after a protocol error

    A connection goes on parsing after an error until the peer answers its
    Close frame, so the parser runs from states in which the checks of [WsSafe]
    have failed.  What survives an error is memory safety: [parser_mem] is
    kept by every outcome, and no frame is delivered for nothing. *)

From S2P Require Import Prelude Errno Wire ByteQueue WsFrame WsParse WsSafe.

#[export] Instance phase_eq_dec : EqDecision xWsFrameParserPhase.
Proof. solve_decision. Defined.

Definition payload_mem (f : xWsFrame) (rd : nat) : Prop :=
  match f_payload f with
  | None => True
  | Some d => Z.of_nat (length d) = f_len f /\ rd < length d
  end.

(** The payload is there exactly while it is being read. *)
Definition parser_mem (p : xWsFrameParser) : Prop :=
  let f := p_frame p in
  match p_phase p with
  | PhHeader | PhLen16 | PhLen64 => f_payload f = None
  | PhMask => f_payload f = None /\ (0 <= f_len f < 2 ^ 63)%Z
  | PhPayload => (0 <= f_len f < 2 ^ 63)%Z /\ payload_mem f (p_read p)
  end.

(** What a delivered frame is good for: its payload may be read, and that of a
    control frame is short. *)
Definition frame_mem (f : xWsFrame) : Prop :=
  (0 <= f_len f)%Z /\ (is_control_opcode (f_opcode f) = true -> (f_len f <= 125)%Z) /\
  match f_payload f with None => f_len f = 0%Z | Some d => Z.of_nat (length d) = f_len f end.

(** Bytes to come count twice, a frame begun once: every delivered frame, after
    which the parser is reset, lowers this. *)
Definition parse_weight {Q} `{!ByteQueue Q} (p : xWsFrameParser) (q : Q) : nat :=
  2 * length (q_bytes q) + (if decide (p_phase p = PhHeader) then 0 else 1).

Section mem.
Context {Q : Type} `{!ByteQueue Q}.

Definition in_mem (k : nat) (q : Q) (r : flow) : Prop :=
  match r with
  | Next p' q' => drained 0 q q' /\ parser_mem p' /\ k < rank (p_phase p')
  | Return WsOk p' q' => drained 0 q q' /\ frame_mem (p_frame p')
  | Return _ p' q' => drained 0 q q' /\ parser_mem p'
  end.

Lemma in_mem_andthen k k' q r (next : xWsFrameParser -> Q -> ub flow) :
  bytes_ok (q_bytes q) -> in_mem k q r ->
  (forall p1 q1, k < rank (p_phase p1) -> q_room 0 q1 -> bytes_ok (q_bytes q1) -> parser_mem p1 ->
     exists r', next p1 q1 = Some r' /\ in_mem k' q1 r') ->
  exists r', andthen (Some r) next = Some r' /\ in_mem k' q r'.
Proof.
  intros Hb Hs Hnext. unfold andthen. cbn [mbind option_bind]. destruct r as [r p1 q1|p1 q1].
  { exists (Return r p1 q1). split; [done|]. destruct r; exact Hs. }
  destruct Hs as (Ht & Hp & Hr). destruct (Hnext p1 q1 Hr) as (r' & E & Hs'); [apply Ht|by eapply drained_bytes|done|].
  exists r'. split; [done|].
  destruct r' as [[] p2 q2|p2 q2]; cbn [in_mem] in *; intuition (eauto using drained_trans).
Qed.

Ltac stay := eexists; split; [reflexivity|]; cbn [in_mem]; (split; [by apply drained_refl|]).

Lemma after_len_mem f rd m a :
  f_payload f = None -> (0 <= f_len f < 2 ^ 63)%Z -> parser_mem (WsParser (after_len f) f rd m a).
Proof.
  intros Hp Hl. unfold after_len. destruct (f_masked f =? 0)%Z; [|done]. split; [done|].
  unfold payload_mem. cbn [p_frame]. by rewrite Hp.
Qed.

(** The base header: two bytes or nothing. *)
Lemma parse_header_mem p q :
  q_room 0 q -> bytes_ok (q_bytes q) -> parser_mem p -> exists r, parse_header p q = Some r /\ in_mem 0 q r.
Proof.
  intros Hq Hb Hp. unfold parse_header. destruct p as [ph f rd em al]. cbn [p_phase].
  destruct ph; try (stay; split; [done|cbn; lia]).
  destruct (peek_any 0 2 q Hq Hb) as [(w & -> & Hl & Hw & q' & Ec & Ht)| ->]; [|by stay].
  destruct w as [|h0 [|h1 [|]]]; try (cbn in Hl; lia). cbn [mbind option_bind ok]. rewrite Ec.
  apply Forall_cons in Hw as [B0 [B1 _]%Forall_cons]. cbn in Hp.
  cbn [p_frame set_frame p_expect_masked p_allow_rsv1 f_rsv1 f_opcode f_masked f_fin]. rewrite Hp.
  set (f' := WsFrame _ _ _ _ _ _ None). set (len7 := Z.land h1 0x7F).
  repeat (destruct (negb _); [by stay|]). destruct (negb _ && _); [by stay|].
  destruct (negb _); [by stay|]. cbn [mbind option_bind].
  unfold byte_ok in B1. pose proof (land_bound h1 0x7F ltac:(lia) ltac:(lia)) as H7. fold len7 in H7.
  set (p' := if (len7 <? 126)%Z then _ else _).
  assert (parser_mem p' /\ 0 < rank (p_phase p')) as [Hm Hr].
  { unfold p'. destruct (len7 <? 126)%Z; [|by destruct (len7 =? 126)%Z; (split; [done|cbn; lia])].
    split; [by apply (after_len_mem (set_len f' len7)); [|cbn; lia]|].
    cbn [p_phase set_phase]. pose proof (after_len_rank2 f'). lia. }
  destruct (is_control_opcode _ && _); (eexists; split; [reflexivity|]); by cbn [in_mem].
Qed.

Lemma parse_len16_mem p q :
  0 < rank (p_phase p) -> q_room 0 q -> bytes_ok (q_bytes q) -> parser_mem p ->
  exists r, parse_len16 p q = Some r /\ in_mem 1 q r.
Proof.
  intros Hr Hq Hb Hp. unfold parse_len16. destruct p as [ph f rd em al]. cbn [p_phase] in *.
  destruct ph; cbn in Hr; try lia; try (stay; split; [done|cbn; lia]).
  destruct (peek_any 0 2 q Hq Hb) as [(w & -> & Hl & Hw & q' & Ec & Ht)| ->]; [|by stay].
  destruct w as [|h0 [|h1 [|]]]; try (cbn in Hl; lia). cbn [mbind option_bind ok]. rewrite Ec. cbn [mbind option_bind].
  apply Forall_cons in Hw as [B0 [B1 _]%Forall_cons]. unfold byte_ok in *.
  eexists. split; [reflexivity|]. split; [exact Ht|]. cbn [p_phase set_phase p_frame set_frame].
  split; [|pose proof (after_len_rank2 (set_len f (Z.lor (Z.shiftl h0 8) h1))); lia].
  apply (after_len_mem (set_len f (Z.lor (Z.shiftl h0 8) h1))); [done|].
  cbn [f_len set_len]. rewrite lor_shiftl_add by lia. lia.
Qed.

Lemma parse_len64_mem p q :
  1 < rank (p_phase p) -> q_room 0 q -> bytes_ok (q_bytes q) -> parser_mem p ->
  exists r, parse_len64 p q = Some r /\ in_mem 2 q r.
Proof.
  intros Hr Hq Hb Hp. unfold parse_len64. destruct p as [ph f rd em al]. cbn [p_phase] in *.
  destruct ph; cbn in Hr; try lia; try (stay; split; [done|cbn; lia]).
  destruct (peek_any 0 8 q Hq Hb) as [(w & -> & Hl & Hw & q' & Ec & Ht)| ->]; [|by stay].
  cbn [mbind option_bind ok p_frame f_len set_len]. set (len := foldl _ _ w).
  assert (0 <= len)%Z as H0 by (by apply len64_nonneg).
  destruct (Z.eqb_spec (Z.shiftr len 63) 0) as [H63|H63]; cbn [negb]; [|by stay].
  rewrite Ec. cbn [mbind option_bind].
  eexists. split; [reflexivity|]. split; [exact Ht|]. cbn [p_phase set_phase p_frame set_frame].
  split; [|pose proof (after_len_rank2 (set_len f len)); lia]. apply (after_len_mem (set_len f len)); [done|].
  cbn [f_len set_len]. rewrite Z.shiftr_div_pow2 in H63 by lia. apply Z.div_small_iff in H63; lia.
Qed.

Lemma parse_mask_mem p q :
  2 < rank (p_phase p) -> q_room 0 q -> bytes_ok (q_bytes q) -> parser_mem p ->
  exists r, parse_mask p q = Some r /\ in_mem 3 q r.
Proof.
  intros Hr Hq Hb Hp. unfold parse_mask. destruct p as [ph f rd em al]. cbn [p_phase] in *.
  destruct ph; cbn in Hr; try lia; try (stay; split; [done|cbn; lia]).
  destruct (peek_any 0 4 q Hq Hb) as [(w & -> & Hl & Hw & q' & Ec & Ht)| ->]; [|by stay].
  cbn [mbind option_bind ok]. rewrite Ec. cbn [mbind option_bind]. destruct Hp as [Hp Hlen]. cbn in Hp, Hlen.
  eexists. split; [reflexivity|]. split; [exact Ht|]. split; [|cbn; lia]. split; [done|].
  unfold payload_mem. cbn. by rewrite Hp.
Qed.

Lemma parse_done_mem q q' p :
  drained 0 q q' -> (0 <= f_len (p_frame p) < 2 ^ 63)%Z -> p_phase p = PhPayload ->
  match f_payload (p_frame p) with None => f_len (p_frame p) = 0%Z | Some d => Z.of_nat (length d) = f_len (p_frame p) end ->
  in_mem 4 q (parse_done p q').
Proof.
  intros Ht Hl Hp Hd. unfold parse_done. destruct (is_control_opcode _) eqn:Ec; cbn [andb in_mem].
  - destruct (Z.ltb_spec 125 (f_len (p_frame p))); cbn [in_mem]; (split; [done|]).
    + unfold parser_mem. cbn [p_phase set_frame]. by rewrite Hp.
    + split; [lia|]. by split; [intros _; lia|].
  - split; [done|]. split; [lia|]. by split; [rewrite Ec|].
Qed.

(** Bytes read into a payload that is there. *)
Lemma payload_mem_run alloc f d rd m a q :
  (0 <= f_len f < 2 ^ 63)%Z -> f_payload f = Some d -> Z.of_nat (length d) = f_len f -> rd < length d -> q_room 0 q ->
  exists r, parse_payload alloc (WsParser PhPayload f rd m a) q = Some r /\ in_mem 4 q r.
Proof.
  intros Hl Hp Hd Hrd Hq. unfold parse_payload, alloc_payload. cbn [p_phase p_frame p_read].
  rewrite (proj2 (Z.eqb_neq _ _)) by lia. rewrite Hp. cbn [p_frame p_read].
  assert (u64 (f_len f - Z.of_nat rd) = Z.of_nat (length d - rd)) as ->.
  { unfold u64. rewrite Z.mod_small by lia. lia. }
  rewrite (q_len_spec 0) by done. set (take' := Z.to_nat _).
  assert (take' = length (q_bytes q) `min` (length d - rd)) as Et.
  { unfold take'. destruct (Z.ltb_spec (Z.of_nat (length (q_bytes q))) (Z.of_nat (length d - rd))); lia. }
  clearbody take'. rewrite Hp. cbn [mbind option_bind].
  assert (exists d' q', (if decide (0 < take') then
     '(bs, q) ← q_read take' q; d ← mem_write d rd bs; Some (d, q) else Some (d, q)) = Some (d', q') /\
     length d' = length d /\ drained 0 q q') as (d' & q' & Erun & Hd' & Ht).
  { case_decide as H0; [|exists d, q; split; [done|]; split; [done|]; by apply drained_refl].
    destruct (q_read_spec 0 take' q Hq) as (q' & -> & Hq' & Eq); [lia|]. cbn [mbind option_bind].
    destruct (mem_write d rd (take take' (q_bytes q))) as [d'|] eqn:Ew.
    2: { rewrite mem_write_Some in Ew by (rewrite length_take; lia). done. }
    exists d', q'. split; [done|]. split; [by eapply mem_write_length|]. split; [done|].
    exists (take take' (q_bytes q)). by rewrite Eq, take_drop. }
  cbn [mbind option_bind] in Erun |- *. rewrite Erun. cbn [mbind option_bind p_read].
  destruct (Z.ltb_spec (Z.of_nat (rd + take')) (f_len f)).
  - eexists. split; [reflexivity|]. split; [done|]. split; [done|]. cbn. lia.
  - destruct (f_masked f =? 0)%Z; (eexists; split; [reflexivity|]); apply parse_done_mem; try done;
      cbn [p_frame set_frame set_payload f_payload f_len]; rewrite ?length_unmask; lia.
Qed.

Lemma parse_payload_mem alloc p q :
  3 < rank (p_phase p) -> q_room 0 q -> bytes_ok (q_bytes q) -> parser_mem p ->
  exists r, parse_payload alloc p q = Some r /\ in_mem 4 q r.
Proof.
  intros Hr Hq Hb Hp. destruct p as [ph f rd em al]. destruct ph; cbn in Hr; try lia.
  destruct Hp as [Hl Hp]. cbn in Hl, Hp. unfold payload_mem in Hp. cbn [p_frame p_read] in *.
  destruct (f_payload f) as [d|] eqn:Ep. { destruct Hp as [Hd Hrd]. by eapply payload_mem_run. }
  destruct (Z.eqb_spec (f_len f) 0) as [H0|H0].
  { unfold parse_payload. cbn [p_phase p_frame]. rewrite H0. cbn [Z.eqb]. eexists. split; [reflexivity|].
    apply parse_done_mem; [by apply drained_refl|cbn; lia|done|done]. }
  destruct (alloc_payload alloc (WsParser PhPayload f rd em al)) as [p1|] eqn:Eal.
  2: { unfold parse_payload. cbn [p_phase p_frame]. rewrite (proj2 (Z.eqb_neq _ _)) by done. rewrite Eal.
       stay. split; [done|]. unfold payload_mem. cbn. by rewrite Ep. }
  unfold alloc_payload in Eal. cbn [p_frame] in Eal. rewrite Ep in Eal.
  destruct (Z.ltb_spec WS_MAX_PAYLOAD (f_len f)); [done|]. destruct (alloc (f_len f)) eqn:Eok; [|done].
  set (d := replicate (Z.to_nat (f_len f)) 0%Z).
  assert (Z.of_nat (length d) = f_len f) as Hd by (unfold d; rewrite length_replicate; lia).
  destruct (payload_mem_run alloc (set_payload f (Some d)) d 0 em al q) as (r & E & Hs); try done; [cbn; lia|].
  exists r. split; [|done]. rewrite <- E. unfold parse_payload, alloc_payload. cbn [p_phase p_frame f_len set_payload f_payload].
  rewrite (proj2 (Z.eqb_neq _ _)) by done. rewrite Ep, (proj2 (Z.ltb_ge _ _)) by done. by rewrite Eok.
Qed.

(** From the base header on, what is delivered was taken from the buffer. *)
Lemma parse_header_takes p q r :
  q_room 0 q -> bytes_ok (q_bytes q) -> p_phase p = PhHeader -> parse_header p q = Some r ->
  match r with
  | Return WsOk _ _ => False
  | Return _ _ _ => True
  | Next p' q' => length (q_bytes q') < length (q_bytes q)
  end.
Proof.
  intros Hq Hb Hp. unfold parse_header. rewrite Hp.
  rewrite (q_peek_spec 0) by done. case_decide as Hl; [|by intros [= <-]].
  destruct (take 2 (q_bytes q)) as [|h0 [|h1 [|]]] eqn:Et; try by intros.
  cbn [mbind option_bind ok]. destruct (negb _); [by intros [= <-]|]. destruct (negb _ && _); [by intros [= <-]|].
  destruct (negb _); [by intros [= <-]|].
  destruct (q_consume_spec 0 2 q Hq Hl) as (q' & -> & _ & Eq). cbn [mbind option_bind].
  destruct (_ && _); intros [= <-]; [done|]. rewrite Eq, length_drop. lia.
Qed.

Lemma drained_length (q q' : Q) : drained 0 q q' -> length (q_bytes q') <= length (q_bytes q).
Proof. intros [_ [c ->]]. rewrite length_app. lia. Qed.

Lemma andthen_Return r p (q : Q) k : andthen (Some (Return r p q)) k = Some (Return r p q).
Proof. done. Qed.

Lemma andthen_Next p (q : Q) k : andthen (Some (Next p q)) k = k p q.
Proof. done. Qed.

(** The parser from any state it can be in, on any bytes. *)
Lemma parse_mem alloc p q :
  q_room 0 q -> bytes_ok (q_bytes q) -> parser_mem p ->
  exists r p' q', xWsFrameParse alloc p q = Some (r, p', q') /\ drained 0 q q' /\
    match r with
    | WsOk => frame_mem (p_frame p') /\ 2 * length (q_bytes q') < parse_weight p q
    | _ => parser_mem p'
    end.
Proof.
  intros Hq Hb Hp. unfold xWsFrameParse, parse_weight.
  destruct (parse_header_mem p q Hq Hb Hp) as (r0 & E0 & G0). rewrite E0.
  pose proof (parse_header_takes p q r0 Hq Hb) as Hk.
  destruct r0 as [r0 p0 q0|p0 q0].
  { rewrite !andthen_Return. cbn [mbind option_bind]. exists r0, p0, q0. split; [done|]. cbn [in_mem] in G0. destruct r0; [|tauto..].
    destruct G0 as [Hd Hf]. split; [done|]. split; [done|]. case_decide as Hph; [by specialize (Hk Hph E0)|].
    pose proof (drained_length _ _ Hd). lia. }
  rewrite andthen_Next. destruct G0 as (Hd0 & Hp0 & Hr0).
  assert (bytes_ok (q_bytes q0)) as Hb0 by (by eapply drained_bytes).
  destruct (parse_len16_mem p0 q0 Hr0 (proj1 Hd0) Hb0 Hp0) as (r1 & -> & G1).
  destruct (in_mem_andthen 1 2 q0 r1 parse_len64) as (r2 & -> & G2); [done|done|intros; by apply parse_len64_mem|].
  destruct (in_mem_andthen 2 3 q0 r2 parse_mask) as (r3 & -> & G3); [done|done|intros; by apply parse_mask_mem|].
  destruct (in_mem_andthen 3 4 q0 r3 (parse_payload alloc)) as (r4 & -> & G4); [done|done|intros; by apply parse_payload_mem|].
  cbn [mbind option_bind]. destruct r4 as [r p' q'|p' q'].
  2: { destruct G4 as (_ & _ & Hr). exfalso. destruct (p_phase p'); cbn in Hr; lia. }
  exists r, p', q'. split; [done|].
  destruct r; cbn [in_mem] in G4; destruct G4 as [Hd G4]; (split; [by eapply drained_trans|]); [|done..].
  split; [done|]. pose proof (drained_length _ _ Hd). case_decide as Hph; [specialize (Hk Hph E0); lia|].
  pose proof (drained_length _ _ Hd0). lia.
Qed.

End mem.
