(* ===== verification/WsConn.v ===== *)
(** * WsConn: the WebSocket connection ([libx/x/http/ws.c])

    One connection as a state machine over any [ByteStream]: it is created,
    handles socket events, timer events and calls of its user, and is
    destroyed.  The transport's answers are scripts of the environment; a
    callback of the user is a program over the connection's API, run while the
    frame is being processed.  [None] is undefined behaviour, the use of a
    destroyed connection included.  Built without XHTTP_WS_DEFLATE.  The
    three buffers exchange no blocks, so each is a stream of its own. *)

From S2P Require Import Prelude Errno Wire ByteQueue WsFrame.

Definition XWS_MAX_IOV : nat := 64.
Definition XWS_OPCODE_CONTINUATION : Z := 0x0.
Definition XWS_OPCODE_TEXT : Z := 0x1.
Definition XWS_OPCODE_BINARY : Z := 0x2.
Definition XWS_OPCODE_PING : Z := 0x9.
Definition XWS_OPCODE_PONG : Z := 0xA.
Definition XWS_CLOSE_GOING_AWAY : Z := 1001.
Definition XWS_CLOSE_PROTOCOL_ERR : Z := 1002.
Definition XWS_CLOSE_NO_STATUS : Z := 1005.
Definition XWS_CLOSE_ABNORMAL : Z := 1006.

Inductive xWsCloseState := StOpen | StCloseSent | StCloseReceived | StClosed.
Inductive xWsOpcode := OpText | OpBinary.

#[export] Instance state_eq_dec : EqDecision xWsCloseState.
Proof. solve_decision. Defined.

(** ** Environment *)

(** Answers of [transport.read] and [transport.writev].  A read of no bytes is
    the end of the stream; past the end of a script every call would block. *)
Inductive rans := RData (bs : list Z) | RAgain | RFail.
Inductive wans := WTook (n : nat) | WAgain | WFail.

(** The read script and whether [errno] says EAGAIN. *)
Definition transport_read (ctx : list rans * bool) (room : nat) : option (list Z) * (list rans * bool) :=
  match ctx.1 with
  | [] => (None, ([], true))
  | RAgain :: s => (None, (s, true))
  | RFail :: s => (None, (s, false))
  | RData bs :: s =>
      if decide (length bs <= room) then (Some bs, (s, ctx.2))
      else (Some (take room bs), (RData (drop room bs) :: s, ctx.2))
  end.

(** The calls a callback makes, each depending on the results before. *)
Inductive ucall := USend (op : xWsOpcode) (payload : option (list Z)) (len : nat) | UClose (code : Z).
Inductive user (U : Type) := UDone (u : U) | UCall (c : ucall) (k : xErrno -> user U).
Arguments UDone {U}.
Arguments UCall {U}.

(** What the connection does to the outside. *)
Inductive obs :=
  | OMessage (op : xWsOpcode) (payload : option (list Z)) (len : nat)
  | OClose (code : Z) (reason : option (list Z)) (len : nat)
  | OSent (bs : list Z).

Section conn.
Context {Q : Type} `{!ByteQueue Q} `{!ByteStream Q} {U : Type}.

Record xWsConn_ := Conn {
  read_buf : Q;
  write_buf : Q;
  frag_buf : Q;
  parser : xWsFrameParser;
  frag_opcode : Z;
  in_fragment : bool;
  frag_compressed : bool;
  close_state : xWsCloseState;
  close_code : Z;
  close_reason : option (list Z);
  idle_timer : option nat;
  idle_timeout_ms : Z;
  is_client : bool;
  writing : bool;
}.

(** The connection, whether it still exists, the socket's interest in writes,
    the timers armed, and the environment. *)
Record world := World {
  conn : xWsConn_;
  alive : bool;
  mask_write : bool;
  timers : list nat;
  next_timer : nat;
  next_key : nat;
  reads : list rans;
  writes : list wans;
  user_state : U;
  out : list obs;
}.

Definition set_conn (w : world) (c : xWsConn_) : world :=
  World c (alive w) (mask_write w) (timers w) (next_timer w) (next_key w) (reads w) (writes w) (user_state w) (out w).
Definition set_mask (w : world) (b : bool) : world :=
  World (conn w) (alive w) b (timers w) (next_timer w) (next_key w) (reads w) (writes w) (user_state w) (out w).
Definition set_timers (w : world) (l : list nat) (n : nat) : world :=
  World (conn w) (alive w) (mask_write w) l n (next_key w) (reads w) (writes w) (user_state w) (out w).
Definition set_user (w : world) (u : U) : world :=
  World (conn w) (alive w) (mask_write w) (timers w) (next_timer w) (next_key w) (reads w) (writes w) u (out w).
Definition set_script (w : world) (rs : list rans) (ws : list wans) : world :=
  World (conn w) (alive w) (mask_write w) (timers w) (next_timer w) (next_key w) rs ws (user_state w) (out w).
Definition used_key (w : world) : world :=
  World (conn w) (alive w) (mask_write w) (timers w) (next_timer w) (S (next_key w)) (reads w) (writes w) (user_state w) (out w).
Definition emit (w : world) (o : obs) : world :=
  World (conn w) (alive w) (mask_write w) (timers w) (next_timer w) (next_key w) (reads w) (writes w) (user_state w) (out w ++ [o]).
Definition set_dead (w : world) : world :=
  World (conn w) false (mask_write w) (timers w) (next_timer w) (next_key w) (reads w) (writes w) (user_state w) (out w).

Definition set_read (c : xWsConn_) (q : Q) : xWsConn_ :=
  Conn q (write_buf c) (frag_buf c) (parser c) (frag_opcode c) (in_fragment c) (frag_compressed c) (close_state c)
    (close_code c) (close_reason c) (idle_timer c) (idle_timeout_ms c) (is_client c) (writing c).
Definition set_write (c : xWsConn_) (q : Q) : xWsConn_ :=
  Conn (read_buf c) q (frag_buf c) (parser c) (frag_opcode c) (in_fragment c) (frag_compressed c) (close_state c)
    (close_code c) (close_reason c) (idle_timer c) (idle_timeout_ms c) (is_client c) (writing c).
Definition set_frag (c : xWsConn_) (q : Q) : xWsConn_ :=
  Conn (read_buf c) (write_buf c) q (parser c) (frag_opcode c) (in_fragment c) (frag_compressed c) (close_state c)
    (close_code c) (close_reason c) (idle_timer c) (idle_timeout_ms c) (is_client c) (writing c).
Definition set_parser (c : xWsConn_) (p : xWsFrameParser) : xWsConn_ :=
  Conn (read_buf c) (write_buf c) (frag_buf c) p (frag_opcode c) (in_fragment c) (frag_compressed c) (close_state c)
    (close_code c) (close_reason c) (idle_timer c) (idle_timeout_ms c) (is_client c) (writing c).
Definition set_fragment (c : xWsConn_) (op : Z) (inf comp : bool) : xWsConn_ :=
  Conn (read_buf c) (write_buf c) (frag_buf c) (parser c) op inf comp (close_state c)
    (close_code c) (close_reason c) (idle_timer c) (idle_timeout_ms c) (is_client c) (writing c).
Definition set_state (c : xWsConn_) (st : xWsCloseState) : xWsConn_ :=
  Conn (read_buf c) (write_buf c) (frag_buf c) (parser c) (frag_opcode c) (in_fragment c) (frag_compressed c) st
    (close_code c) (close_reason c) (idle_timer c) (idle_timeout_ms c) (is_client c) (writing c).
Definition set_code (c : xWsConn_) (code : Z) (reason : option (list Z)) : xWsConn_ :=
  Conn (read_buf c) (write_buf c) (frag_buf c) (parser c) (frag_opcode c) (in_fragment c) (frag_compressed c) (close_state c)
    code reason (idle_timer c) (idle_timeout_ms c) (is_client c) (writing c).
Definition set_timer (c : xWsConn_) (t : option nat) : xWsConn_ :=
  Conn (read_buf c) (write_buf c) (frag_buf c) (parser c) (frag_opcode c) (in_fragment c) (frag_compressed c) (close_state c)
    (close_code c) (close_reason c) t (idle_timeout_ms c) (is_client c) (writing c).
Definition set_writing (c : xWsConn_) (b : bool) : xWsConn_ :=
  Conn (read_buf c) (write_buf c) (frag_buf c) (parser c) (frag_opcode c) (in_fragment c) (frag_compressed c) (close_state c)
    (close_code c) (close_reason c) (idle_timer c) (idle_timeout_ms c) (is_client c) b.

(** [malloc], the random masking keys, whether a timer can be started, and the
    user's callbacks, which may be absent. *)
Context (alloc : oracle) (key : nat -> list Z) (timer_ok : nat -> bool).
Context (on_message : option (U -> xWsOpcode -> option (list Z) -> nat -> user U)).
Context (on_close : option (U -> Z -> option (list Z) -> nat -> U)).

(** ** Timers *)

Definition xTimerStop (h : nat) (w : world) : world := set_timers w (filter (fun t => t <> h) (timers w)) (next_timer w).

Definition stop_idle (w : world) : world :=
  match idle_timer (conn w) with Some h => xTimerStop h w | None => w end.

(** [conn->idle_timer = xTimerStart(...)]; a timer that cannot be started is
    NULL. *)
Definition start_idle (w : world) : world :=
  let h := next_timer w in
  if timer_ok h then set_conn (set_timers w (h :: timers w) (S h)) (set_timer (conn w) (Some h))
  else set_conn (set_timers w (timers w) (S h)) (set_timer (conn w) None).

Definition ws_reset_idle_timer (w : world) : world :=
  if (idle_timeout_ms (conn w) <=? 0)%Z then w else start_idle (stop_idle w).

(** ** Close notification and flushing *)

(** A callback finds the connection closed: what it calls returns at once
    ([closed_send], [closed_close]), so that only its own state changes. *)
Definition ws_fire_close (w : world) (code : Z) (reason : option (list Z)) (len : nat) : world :=
  if decide (close_state (conn w) = StClosed) then w else
  let w := set_conn w (set_state (conn w) StClosed) in
  match on_close with
  | Some f => set_user (emit w (OClose code reason len)) (f (user_state w) code reason len)
  | None => w
  end.

(** [xSocketSetMask] with the write interest [b], and [conn->writing = b]. *)
Definition write_interest (w : world) (b : bool) : world := set_mask (set_conn w (set_writing (conn w) b)) b.

Definition next_write (w : world) : wans * world :=
  match writes w with
  | [] => (WAgain, w)
  | a :: ws => (a, set_script w (reads w) ws)
  end.

Inductive flushed := FlushReturned (w : world) | FlushLeft (w : world).

(** The draining loop; the transport takes no more than it is offered. *)
Fixpoint flush_loop (fuel : nat) (w : world) : ub flushed :=
  match fuel with
  | 0 => None
  | S fuel =>
      if (q_len (write_buf (conn w)) =? 0)%Z then Some (FlushLeft w) else
      iov ← q_iov XWS_MAX_IOV (write_buf (conn w));
      if decide (length iov = 0) then Some (FlushLeft w) else
      let '(a, w) := next_write w in
      match a with
      | WAgain => Some (FlushReturned (if writing (conn w) then w else write_interest w true))
      | WFail => Some (FlushReturned (ws_fire_close w XWS_CLOSE_ABNORMAL None 0))
      | WTook n =>
          let n := n `min` length (concat iov) in
          if decide (0 < n) then
            q ← q_consume n (write_buf (conn w));
            flush_loop fuel (emit (set_conn w (set_write (conn w) q)) (OSent (take n (concat iov))))
          else Some (FlushLeft w)
      end
  end.

Definition ws_try_flush (w : world) : ub world :=
  r ← flush_loop (S (Z.to_nat (q_len (write_buf (conn w))))) w;
  match r with
  | FlushReturned w => Some w
  | FlushLeft w =>
      if (q_len (write_buf (conn w)) =? 0)%Z then
        let w := if writing (conn w) then write_interest w false else w in
        if decide (close_state (conn w) = StCloseReceived) then
          Some (ws_fire_close w (close_code (conn w)) (close_reason (conn w))
                  (from_option length 0 (close_reason (conn w))))
        else Some w
      else Some (if writing (conn w) then w else write_interest w true)
  end.

(** ** Sending *)

(** A frame encoded into the write buffer; a client's frame uses up a key. *)
Definition encode (w : world) (op : Z) (payload : option (list Z)) (len : nat) : ub (bool * world) :=
  let c := conn w in
  '(b, q) ← xWsFrameEncode alloc (key (next_key w)) (write_buf c) true op payload len (is_client c);
  Some (b, set_conn (if is_client c then used_key w else w) (set_write c q)).

Definition encode_close (w : world) (code : Z) (reason : option (list Z)) (len : nat) : ub (bool * world) :=
  let c := conn w in
  '(b, q) ← xWsFrameEncodeClose alloc (key (next_key w)) (write_buf c) code reason len (is_client c);
  Some (b, set_conn (if is_client c then used_key w else w) (set_write c q)).

Definition xWsConnClose (w : world) (code : Z) (reason : option (list Z)) (len : nat) : ub world :=
  if decide (close_state (conn w) = StOpen) then
    let w := set_conn w (set_code (set_state (conn w) StCloseSent) code (close_reason (conn w))) in
    '(_, w) ← encode_close w code reason len;
    w ← ws_try_flush w;
    Some (start_idle (stop_idle w))
  else Some w.

Definition data_opcode (op : xWsOpcode) : Z := match op with OpText => XWS_OPCODE_TEXT | OpBinary => XWS_OPCODE_BINARY end.

Definition xWsSend (w : world) (op : xWsOpcode) (payload : option (list Z)) (len : nat) : ub (xErrno * world) :=
  if negb (alive w) then None else
  if decide (close_state (conn w) = StOpen) then
    '(b, w) ← encode w (data_opcode op) payload len;
    if negb b then Some (xErrno_NoMemory, w) else
    w ← ws_try_flush w;
    Some (xErrno_Ok, w)
  else Some (xErrno_InvalidState, w).

Definition xWsClose (w : world) (code : Z) : ub (xErrno * world) :=
  if negb (alive w) then None else
  w ← xWsConnClose w code None 0;
  Some (xErrno_Ok, w).

Definition api (w : world) (c : ucall) : ub (xErrno * world) :=
  match c with
  | USend op payload len => xWsSend w op payload len
  | UClose code => xWsClose w code
  end.

(** A callback run on the connection. *)
Fixpoint run_user (p : user U) (w : world) : ub world :=
  match p with
  | UDone u => Some (set_user w u)
  | UCall c k => '(e, w) ← api w c; run_user (k e) w
  end.

(** ** Frames *)

Definition wire_opcode (op : Z) : xWsOpcode := if (op =? XWS_OPCODE_TEXT)%Z then OpText else OpBinary.

(** [on_message], where there is one. *)
Definition deliver (w : world) (op : Z) (payload : option (list Z)) (len : nat) : ub world :=
  match on_message with
  | Some f => run_user (f (user_state w) (wire_opcode op) payload len) (emit w (OMessage (wire_opcode op) payload len))
  | None => Some w
  end.

(** Fragment bytes; that memory ran out is not looked at. *)
Definition append_fragment (w : world) (f : xWsFrame) : ub world :=
  if (0 <? f_len f)%Z then
    d ← f_payload f;
    src ← mem_read d 0 (Z.to_nat (f_len f));
    '(_, q) ← q_append src (frag_buf (conn w));
    Some (set_conn w (set_frag (conn w) q))
  else Some w.

(** Code, reason and its length of a Close frame. *)
Definition close_payload (f : xWsFrame) : ub (Z * option (list Z) * nat) :=
  if (2 <=? f_len f)%Z then
    d ← f_payload f;
    b0 ← d !! 0; b1 ← d !! 1;
    let code := u16 (Z.lor (Z.shiftl b0 8) b1) in
    if (2 <? f_len f)%Z then
      reason ← mem_read d 2 (Z.to_nat (f_len f) - 2);
      Some (code, Some reason, Z.to_nat (f_len f) - 2)
    else Some (code, None, 0)
  else Some (XWS_CLOSE_NO_STATUS, None, 0).

Definition process_close (w : world) (f : xWsFrame) : ub world :=
  '(code, reason, len) ← close_payload f;
  match close_state (conn w) with
  | StOpen =>
      let kept := if decide (0 < len) then if alloc (Z.of_nat len) then reason else None else None in
      let w := set_conn w (set_code (set_state (conn w) StCloseReceived) code kept) in
      '(_, w) ← encode_close w code reason len;
      ws_try_flush w
  | StCloseSent => Some (ws_fire_close w code reason len)
  | _ => Some w
  end.

Definition process_data (w : world) (f : xWsFrame) : ub world :=
  if negb (f_fin f =? 0)%Z then
    if in_fragment (conn w) then xWsConnClose w XWS_CLOSE_PROTOCOL_ERR None 0
    else deliver w (f_opcode f) (f_payload f) (Z.to_nat (f_len f))
  else if in_fragment (conn w) then xWsConnClose w XWS_CLOSE_PROTOCOL_ERR None 0
  else
    let w := set_conn w (set_fragment (conn w) (f_opcode f) true (negb (f_rsv1 f =? 0)%Z)) in
    q ← q_reset (frag_buf (conn w));
    append_fragment (set_conn w (set_frag (conn w) q)) f.

Definition process_continuation (w : world) (f : xWsFrame) : ub world :=
  if negb (in_fragment (conn w)) then xWsConnClose w XWS_CLOSE_PROTOCOL_ERR None 0 else
  w ← append_fragment w f;
  if negb (f_fin f =? 0)%Z then
    let w := set_conn w (set_fragment (conn w) (frag_opcode (conn w)) false (frag_compressed (conn w))) in
    let total := q_len (frag_buf (conn w)) in
    assembled ← (if (0 <? total)%Z then
                   if alloc total then d ← q_copy (frag_buf (conn w)); Some (Some d) else Some None
                 else Some None);
    q ← q_reset (frag_buf (conn w));
    let w := set_conn w (set_frag (conn w) q) in
    deliver w (frag_opcode (conn w)) assembled (Z.to_nat total)
  else Some w.

Definition ws_process_frame (w : world) (f : xWsFrame) : ub world :=
  let op := f_opcode f in
  if (op =? XWS_OPCODE_PING)%Z then
    '(_, w) ← encode w XWS_OPCODE_PONG (f_payload f) (Z.to_nat (f_len f));
    ws_try_flush w
  else if (op =? XWS_OPCODE_PONG)%Z then Some w
  else if (op =? XWS_OPCODE_CLOSE)%Z then process_close w f
  else if (op =? XWS_OPCODE_TEXT)%Z || (op =? XWS_OPCODE_BINARY)%Z then process_data w f
  else if (op =? XWS_OPCODE_CONTINUATION)%Z then process_continuation w f
  else xWsConnClose w XWS_CLOSE_PROTOCOL_ERR None 0.

(** ** Life cycle *)

Definition xWsConnDestroy (w : world) : ub world :=
  let w := set_conn (stop_idle w) (set_timer (conn w) None) in
  r ← q_deinit (read_buf (conn w));
  q ← q_deinit (write_buf (conn w));
  g ← q_deinit (frag_buf (conn w));
  Some (set_dead (set_conn w (set_frag (set_write (set_read (conn w) r) q) g))).

Definition ws_idle_timeout (w : world) : ub world :=
  let w := set_conn w (set_timer (conn w) None) in
  if decide (close_state (conn w) = StOpen) then xWsConnClose w XWS_CLOSE_GOING_AWAY None 0
  else xWsConnDestroy (ws_fire_close w (close_code (conn w)) None 0).

(** ** Events *)

(** How often the transport can still answer with data. *)
Definition script_size (rs : list rans) : nat :=
  sum_list ((fun a => match a with RData bs => S (length bs) | _ => 1 end) <$> rs).

Inductive read_end := ReadBlocked (w : world) | ReadClosed (w : world).

(** Reading until the transport would block. *)
Fixpoint read_loop (fuel : nat) (w : world) : ub read_end :=
  match fuel with
  | 0 => None
  | S fuel =>
      r ← q_fill transport_read (reads w, false) (read_buf (conn w));
      let '(n, q, (rs, again)) := (r : Z * Q * (list rans * bool)) in
      let w := set_script (set_conn w (set_read (conn w) q)) rs (writes w) in
      if (n <? 0)%Z then
        if again then Some (ReadBlocked w) else Some (ReadClosed (ws_fire_close w XWS_CLOSE_ABNORMAL None 0))
      else if (n =? 0)%Z then Some (ReadClosed (ws_fire_close w XWS_CLOSE_ABNORMAL None 0))
      else read_loop fuel w
  end.

(** Parsing and processing until bytes are missing, the connection is closed
    or a frame is refused. *)
Fixpoint frame_loop (fuel : nat) (w : world) : ub world :=
  match fuel with
  | 0 => None
  | S fuel =>
      if decide (close_state (conn w) = StClosed) then Some w else
      '(r, p, q) ← xWsFrameParse alloc (parser (conn w)) (read_buf (conn w));
      let w := set_conn w (set_parser (set_read (conn w) q) p) in
      match r with
      | WsOk =>
          w ← ws_process_frame w (p_frame p);
          frame_loop fuel (set_conn w (set_parser (conn w) (xWsFrameParserReset (parser (conn w)))))
      | WsNeedMore => Some w
      | WsError => xWsConnClose w XWS_CLOSE_PROTOCOL_ERR None 0
      end
  end.

Definition frame_fuel (w : world) : nat := 2 * Z.to_nat (q_len (read_buf (conn w))) + 2.

Definition ws_on_event (w : world) (can_read can_write timeout : bool) : ub world :=
  if negb (alive w) then None else
  if decide (close_state (conn w) = StClosed) then xWsConnDestroy w else
  if timeout then ws_idle_timeout w else
  w ← (if can_write then ws_try_flush w else Some w);
  if can_write && bool_decide (close_state (conn w) = StClosed) then xWsConnDestroy w else
  if can_read then
    r ← read_loop (S (script_size (reads w))) w;
    match r with
    | ReadClosed w => xWsConnDestroy w
    | ReadBlocked w =>
        let w := ws_reset_idle_timer w in
        w ← frame_loop (frame_fuel w) w;
        if decide (close_state (conn w) = StClosed) then xWsConnDestroy w else Some w
    end
  else Some w.

(** The connection over three fresh buffers; [None] when [calloc] fails. *)
Definition xWsConnCreate (calloc : bool) (r q g : Q) (server : bool) (timeout_ms : Z) (u : U) : option world :=
  if calloc then
    let c := Conn r q g (xWsFrameParserInit (if server then 1 else 0)) 0 false false StOpen 0 None None timeout_ms
               (negb server) false in
    Some (ws_reset_idle_timer (World c true false [] 0 0 [] [] u []))
  else None.

(** What can happen to a connection: the socket is ready, its timer fires, or
    it is called by its user outside a callback. *)
Inductive event :=
  | EvSocket (can_read can_write timeout : bool)
  | EvTimer
  | EvCall (c : ucall).

Definition ws_event (w : world) (e : event) : ub world :=
  match e with
  | EvSocket r q t => ws_on_event w r q t
  | EvTimer =>
      match timers w with
      | [] => Some w
      | h :: _ => if alive w then ws_idle_timeout (xTimerStop h w) else None
      end
  | EvCall c => '(_, w) ← api w c; Some w
  end.

(** Events with the answers the transport gives during each, as long as the
    connection exists. *)
Fixpoint ws_run (w : world) (evs : list (event * list rans * list wans)) : ub world :=
  match evs with
  | [] => Some w
  | (e, rs, ws) :: evs =>
      if alive w then w ← ws_event (set_script w rs ws) e; ws_run w evs else Some w
  end.

End conn.
