(* ===== verification/WsConnSafe.v ===== *)
(** * WsConnSafe: what holds of a connection whatever happens to it

    Any events, any answers of the transport and the allocator, any program of
    the user: nothing undefined happens, the timer that is armed is the one the
    connection knows, none stays armed when it is destroyed, and the end is
    reported once, after everything else. *)

From S2P Require Import Prelude Errno Wire ByteQueue WsFrame WsParse WsSafe WsMem WsConn.

(** Obligations of the environment: bytes are bytes, and a call names as many
    bytes as it brings. *)
Definition rans_ok (a : rans) : Prop := match a with RData bs => bytes_ok bs | _ => True end.
Definition payload_ok (payload : option (list Z)) (len : nat) : Prop :=
  match payload with Some d => len <= length d | None => True end.
Definition ucall_ok (c : ucall) : Prop :=
  match c with USend _ payload len => payload_ok payload len | UClose _ => True end.
Fixpoint user_ok {U} (p : user U) : Prop :=
  match p with UDone _ => True | UCall c k => ucall_ok c /\ forall e, user_ok (k e) end.
Definition event_ok (e : event) : Prop :=
  match e with EvSocket _ _ timeout => timeout = false | EvTimer => True | EvCall c => ucall_ok c end.

Definition quiet (o : obs) : Prop := match o with OClose _ _ _ => False | _ => True end.

(** A read returns no more than there is room for. *)
Lemma transport_read_fits (ctx : list rans * bool) k bs ctx' : transport_read ctx k = (Some bs, ctx') -> length bs <= k.
Proof.
  destruct ctx as [[|[bs'| |] s] e]; cbn; try done. case_decide; intros [= <- <-]; [done|]. rewrite length_take. lia.
Qed.

Lemma transport_read_ok rs e k r rs' e' : Forall rans_ok rs -> transport_read (rs, e) k = (r, (rs', e')) ->
  Forall rans_ok rs' /\ match r with Some bs => bytes_ok bs | None => True end.
Proof.
  intros H. destruct rs as [|[bs| |] s]; cbn; [by intros [= <- <- <-]| |by intros [= <- <- <-]; inversion H..].
  apply Forall_cons in H as [Hb Hs]. cbn in Hb.
  case_decide; intros [= <- <- <-]; (split; [|by try apply Forall_take]); [done|].
  constructor; [by apply Forall_drop|done].
Qed.

Lemma filter_self (h : nat) : filter (fun t => t <> h) [h] = [].
Proof. rewrite filter_cons_False by naive_solver. done. Qed.

Section safe.
Context {Q : Type} `{!ByteQueue Q} `{!ByteStream Q} {U : Type}.
Context (alloc : oracle) (key : nat -> list Z) (timer_ok : nat -> bool).
Context (on_message : option (U -> xWsOpcode -> option (list Z) -> nat -> user U)).
Context (on_close : option (U -> Z -> option (list Z) -> nat -> U)).
Hypothesis fits : forall n, q_fits n.
Hypothesis message_ok : forall f u op payload len, on_message = Some f -> payload_ok payload len -> user_ok (f u op payload len).

Implicit Types w : world (Q := Q) (U := U).

(** The end is the last thing reported, once the connection is closed. *)
Definition trace_ok (st : xWsCloseState) (tr : list obs) : Prop :=
  match st, on_close with
  | StClosed, Some _ => exists pre code reason len, tr = pre ++ [OClose code reason len] /\ Forall quiet pre
  | _, _ => Forall quiet tr
  end.

Record conn_inv w : Prop := {
  ci_alive : alive w = true;
  ci_read : q_room 0 (read_buf (conn w));
  ci_bytes : bytes_ok (q_bytes (read_buf (conn w)));
  ci_write : q_room 0 (write_buf (conn w));
  ci_frag : q_room 0 (frag_buf (conn w));
  ci_timers : timers w = option_list (idle_timer (conn w));
  ci_mask : mask_write w = writing (conn w);
  ci_reads : Forall rans_ok (reads w);
  ci_trace : trace_ok (close_state (conn w)) (out w);
}.

Definition dead_ok w : Prop :=
  alive w = false /\ timers w = [] /\ close_state (conn w) = StClosed /\ trace_ok StClosed (out w).

(** The input side is untouched. *)
Definition keeps w w' : Prop :=
  read_buf (conn w') = read_buf (conn w) /\ parser (conn w') = parser (conn w) /\ reads w' = reads w.

Definition fine w (m : ub world) : Prop := exists w', m = Some w' /\ conn_inv w' /\ keeps w w'.
Definition opened w : Prop := close_state (conn w) <> StClosed.

Lemma keeps_refl w : keeps w w.
Proof. done. Qed.

Lemma keeps_trans w1 w2 w3 : keeps w1 w2 -> keeps w2 w3 -> keeps w1 w3.
Proof. intros (E1 & E2 & E3) (F1 & F2 & F3). unfold keeps. by rewrite F1, F2, F3. Qed.

Lemma fine_now w w' : conn_inv w' -> keeps w w' -> fine w (Some w').
Proof. intros. by exists w'. Qed.

Lemma fine_bind w m k :
  fine w m -> (forall w', conn_inv w' -> keeps w w' -> fine w' (k w')) -> fine w (w' ← m; k w').
Proof.
  intros (w' & -> & H & Hk) Hnext. cbn [mbind option_bind]. destruct (Hnext w' H Hk) as (w2 & -> & H2 & Hk2).
  exists w2. split; [done|]. split; [done|]. by eapply keeps_trans.
Qed.

Lemma room_any n (q : Q) : q_room 0 q -> q_room n q.
Proof. intros H. apply q_room_iff. split; [done|apply fits]. Qed.

Lemma trace_open st tr : st <> StClosed -> trace_ok st tr <-> Forall quiet tr.
Proof. unfold trace_ok. by destruct st. Qed.

(** ** Encoding *)

Lemma append_any src (q : Q) : q_room 0 q -> exists e q', q_append src q = Some (e, q') /\ q_room 0 q'.
Proof.
  intros Hq. destruct (q_append_spec 0 src q) as (e & q' & E & Hq' & _); [by apply room_any|]. by exists e, q'.
Qed.

Lemma encode_any k (q : Q) fin op payload len masked :
  q_room 0 q -> payload_ok payload len ->
  exists b q', xWsFrameEncode alloc k q fin op payload len masked = Some (b, q') /\ q_room 0 q'.
Proof.
  intros Hq Hp. unfold xWsFrameEncode, xWsFrameEncodeEx.
  destruct (append_any (ws_header fin false op (Z.of_nat len) masked ++ (if masked then k else [])) q Hq) as (e & q1 & -> & Hq1).
  cbn [mbind option_bind]. case_decide; [by exists false, q1|]. destruct payload as [d|]; [|by exists true, q1].
  case_decide; [|by exists true, q1]. rewrite mem_read_Some by (cbn in Hp; lia). cbn [mbind option_bind].
  assert (forall src, exists b q', ('(e, q) ← q_append src q1; Some (bool_decide (e = xErrno_Ok), q)) = Some (b, q') /\ q_room 0 q') as Hs.
  { intros src. destruct (append_any src q1 Hq1) as (e2 & q2 & -> & Hq2). by eexists _, q2. }
  destruct masked; [|apply Hs]. destruct (negb _); [by exists false, q1|apply Hs].
Qed.

Lemma encode_close_any k (q : Q) code reason len masked :
  q_room 0 q -> payload_ok reason len ->
  exists b q', xWsFrameEncodeClose alloc k q code reason len masked = Some (b, q') /\ q_room 0 q'.
Proof.
  intros Hq Hp. unfold xWsFrameEncodeClose. destruct (negb _); [by exists false, q|].
  set (w := [u8 (Z.shiftr code 8); u8 code]).
  destruct (mem_write (replicate (2 + len) 0%Z) 0 w) as [d|] eqn:E.
  2: { rewrite mem_write_Some in E by (rewrite length_replicate; cbn; lia). done. }
  apply mem_write_length in E. rewrite length_replicate in E. cbn [mbind option_bind].
  assert (exists d', (match reason with
      | Some r => if decide (0 < len) then src ← mem_read r 0 len; mem_write d 2 src else Some d
      | None => Some d end) = Some d' /\ length d' = 2 + len) as (d' & -> & Hd').
  { destruct reason as [r|]; [|by exists d]. case_decide; [|by exists d]. cbn in Hp.
    rewrite mem_read_Some by lia. cbn [mbind option_bind].
    destruct (mem_write d 2 (take len (drop 0 r))) as [d'|] eqn:E'.
    2: { rewrite mem_write_Some in E' by (rewrite length_take, length_drop; lia). done. }
    exists d'. split; [done|]. apply mem_write_length in E'. lia. }
  cbn [mbind option_bind]. apply encode_any; [done|]. cbn. lia.
Qed.

(** ** Small steps that keep the invariant *)

Lemma inv_write w q : conn_inv w -> q_room 0 q -> conn_inv (set_conn w (set_write (conn w) q)).
Proof. by intros [] ?. Qed.

Lemma inv_frag w q : conn_inv w -> q_room 0 q -> conn_inv (set_conn w (set_frag (conn w) q)).
Proof. by intros [] ?. Qed.

Lemma inv_state w st : conn_inv w -> opened w -> st <> StClosed -> conn_inv (set_conn w (set_state (conn w) st)).
Proof. intros [] Ho Hs. split; try done. cbn. apply trace_open; [done|]. by apply (trace_open (close_state (conn w))). Qed.

Lemma inv_interest w b : conn_inv w -> conn_inv (write_interest w b).
Proof. by intros []. Qed.

Lemma inv_emit w o : conn_inv w -> opened w -> quiet o -> conn_inv (emit w o).
Proof.
  intros [] Ho Hq. split; try done. cbn. apply trace_open; [done|]. apply Forall_app. split; [|by constructor].
  by apply (trace_open (close_state (conn w))).
Qed.

Lemma inv_script w rs ws : conn_inv w -> Forall rans_ok rs -> conn_inv (set_script w rs ws).
Proof. by intros [] ?. Qed.

Lemma start_fine w : conn_inv w -> idle_timer (conn w) = None -> fine w (Some (start_idle timer_ok w)).
Proof.
  intros [] Ht. rewrite Ht in ci_timers0. cbn in ci_timers0. unfold start_idle.
  destruct (timer_ok _); (apply fine_now; [|done]); split; try done; cbn; by rewrite ci_timers0.
Qed.

Lemma stop_spec w : conn_inv w -> timers (stop_idle w) = [] /\ conn (stop_idle w) = conn w.
Proof.
  intros H. unfold stop_idle. pose proof (ci_timers _ H) as Et. destruct (idle_timer (conn w)) as [h|]; [|done].
  cbn. rewrite Et. split; [apply filter_self|done].
Qed.

(** Any timer in place of the one that is stopped. *)
Lemma restart_inv w : conn_inv w -> conn_inv (start_idle timer_ok (stop_idle w)) /\ keeps w (start_idle timer_ok (stop_idle w)).
Proof.
  intros H. destruct (stop_spec w H) as [Et Ec]. unfold start_idle. rewrite Ec, Et.
  assert (forall w', alive (stop_idle w) = alive w /\ mask_write (stop_idle w) = mask_write w /\
    reads (stop_idle w) = reads w /\ out (stop_idle w) = out w) as Es.
  { intros _. unfold stop_idle. by destruct (idle_timer (conn w)). }
  destruct (Es w) as (Ea & Em & Er & Eo). destruct H.
  destruct (timer_ok _); (split; [|done]); split; cbn; try done; by rewrite ?Ea, ?Em, ?Er, ?Eo.
Qed.

Lemma reset_timer_inv w : conn_inv w -> conn_inv (ws_reset_idle_timer timer_ok w) /\ keeps w (ws_reset_idle_timer timer_ok w).
Proof. intros H. unfold ws_reset_idle_timer. destruct (_ <=? 0)%Z; [by split|]. by apply restart_inv. Qed.

Lemma fire_close_inv w code reason len : conn_inv w ->
  conn_inv (ws_fire_close on_close w code reason len) /\ keeps w (ws_fire_close on_close w code reason len) /\
  close_state (conn (ws_fire_close on_close w code reason len)) = StClosed.
Proof.
  intros H. unfold ws_fire_close. case_decide as Hc; [done|]. destruct H.
  apply trace_open in ci_trace0; [|done]. destruct on_close as [f|] eqn:Ef; (split; [|done]); split; try done; cbn; unfold trace_ok; rewrite Ef; [|done].
  by eexists _, _, _, _.
Qed.

(** ** Flushing *)

Lemma flush_loop_fine fuel w :
  conn_inv w -> opened w -> length (q_bytes (write_buf (conn w))) < fuel ->
  exists r, flush_loop on_close fuel w = Some r /\
    match r with
    | FlushReturned w' => conn_inv w' /\ keeps w w'
    | FlushLeft w' => conn_inv w' /\ keeps w w' /\ opened w'
    end.
Proof.
  revert w. induction fuel as [|fuel IH]; intros w H Ho Hf; [lia|]. cbn [flush_loop].
  rewrite (q_len_spec 0) by apply H. destruct (Z.eqb_spec (Z.of_nat (length (q_bytes (write_buf (conn w))))) 0) as [_|Hne].
  { by exists (FlushLeft w). }
  destruct (q_iov_spec XWS_MAX_IOV _ (ci_write _ H)) as (segs & -> & Hpre & _ & _). cbn [mbind option_bind].
  case_decide; [by exists (FlushLeft w)|].
  assert (conn_inv (next_write w).2 /\ keeps w (next_write w).2 /\ conn (next_write w).2 = conn w) as (H1 & Hk1 & Ec).
  { unfold next_write. destruct (writes w); [done|]. cbn. split; [|done]. apply inv_script; [done|apply H]. }
  destruct (next_write w) as [a w1]. cbn [snd] in *. assert (opened w1) as Ho1 by (unfold opened; by rewrite Ec).
  destruct a as [n| |].
  - set (k := n `min` length (concat segs)). case_decide as Hk0.
    + apply prefix_length in Hpre. rewrite <- Ec in Hpre.
      destruct (q_consume_spec 0 k _ (ci_write _ H1)) as (q & -> & Hq & Eq); [lia|]. cbn [mbind option_bind].
      destruct (IH (emit (set_conn w1 (set_write (conn w1) q)) (OSent (take k (concat segs))))) as (r & -> & Hr).
      * by apply inv_emit; [apply inv_write|..].
      * done.
      * cbn. rewrite Eq, length_drop. rewrite <- Ec in Hf. lia.
      * exists r. split; [done|]. by destruct r as [w'|w']; (split; [apply Hr|]); [|split; [|apply Hr]]; (eapply keeps_trans; [exact Hk1|apply Hr]).
    + by exists (FlushLeft w1).
  - eexists. split; [done|]. destruct (writing (conn w1)); [done|]. split; [by apply inv_interest|done].
  - eexists. split; [done|]. destruct (fire_close_inv w1 XWS_CLOSE_ABNORMAL None 0 H1) as (H2 & Hk2 & _).
    split; [done|by eapply keeps_trans].
Qed.

Lemma flush_fine w : conn_inv w -> opened w -> fine w (ws_try_flush on_close w).
Proof.
  intros H Ho. unfold ws_try_flush. rewrite (q_len_spec 0) by apply H. rewrite Nat2Z.id.
  destruct (flush_loop_fine _ w H Ho (Nat.lt_succ_diag_r _)) as (r & -> & Hr). cbn [mbind option_bind].
  destruct r as [w'|w']; [destruct Hr; by apply fine_now|]. destruct Hr as (H' & Hk & Ho').
  destruct (_ =? 0)%Z.
  - set (w2 := if writing _ then _ else _).
    assert (conn_inv w2 /\ keeps w w2) as [H2 Hk2].
    { unfold w2. destruct (writing _); [|done]. split; [by apply inv_interest|done]. }
    case_decide; [|by apply fine_now]. destruct (fire_close_inv w2 (close_code (conn w2)) (close_reason (conn w2))
      (from_option length 0 (close_reason (conn w2))) H2) as (H3 & Hk3 & _).
    apply fine_now; [done|by eapply keeps_trans].
  - apply fine_now; destruct (writing (conn w')); try done. by apply inv_interest.
Qed.

(** ** Sending *)

Lemma encode_fine w op payload len :
  conn_inv w -> payload_ok payload len ->
  exists b w', encode alloc key w op payload len = Some (b, w') /\ conn_inv w' /\ keeps w w' /\
    close_state (conn w') = close_state (conn w).
Proof.
  intros H Hp. unfold encode.
  destruct (encode_any (key (next_key w)) _ true op payload len (is_client (conn w)) (ci_write _ H) Hp) as (b & q & -> & Hq).
  cbn [mbind option_bind]. eexists b, _. split; [done|]. split; [|by destruct (is_client (conn w))].
  destruct H. by destruct (is_client (conn w)).
Qed.

Lemma encode_close_fine w code reason len :
  conn_inv w -> payload_ok reason len ->
  exists b w', encode_close alloc key w code reason len = Some (b, w') /\ conn_inv w' /\ keeps w w' /\
    close_state (conn w') = close_state (conn w).
Proof.
  intros H Hp. unfold encode_close.
  destruct (encode_close_any (key (next_key w)) _ code reason len (is_client (conn w)) (ci_write _ H) Hp) as (b & q & -> & Hq).
  cbn [mbind option_bind]. eexists b, _. split; [done|]. split; [|by destruct (is_client (conn w))].
  destruct H. by destruct (is_client (conn w)).
Qed.

Lemma close_fine w code reason len :
  conn_inv w -> payload_ok reason len -> fine w (xWsConnClose alloc key timer_ok on_close w code reason len).
Proof.
  intros H Hp. unfold xWsConnClose. case_decide as Hs; [|by apply fine_now].
  set (w1 := set_conn w _). assert (conn_inv w1) as H1.
  { assert (opened w) as Ho by (unfold opened; by rewrite Hs).
    destruct (inv_state w StCloseSent H Ho ltac:(done)). by split. }
  destruct (encode_close_fine w1 code reason len H1 Hp) as (b & w2 & -> & H2 & Hk2 & Ec). cbn [mbind option_bind].
  assert (opened w2) as Ho2 by (unfold opened; by rewrite Ec).
  destruct (flush_fine w2 H2 Ho2) as (w3 & -> & H3 & Hk3). cbn [mbind option_bind].
  destruct (restart_inv w3 H3) as [H4 Hk4]. apply fine_now; [done|].
  eapply keeps_trans; [|exact Hk4]. eapply keeps_trans; [|exact Hk3]. exact Hk2.
Qed.

Lemma api_fine w c : conn_inv w -> ucall_ok c ->
  exists e w', api alloc key timer_ok on_close w c = Some (e, w') /\ conn_inv w' /\ keeps w w'.
Proof.
  intros H Hc. destruct c as [op payload len|code]; cbn [api].
  - unfold xWsSend. rewrite (ci_alive _ H). cbn [negb]. case_decide as Hs; [|by eexists _, w].
    destruct (encode_fine w (data_opcode op) payload len H Hc) as (b & w1 & -> & H1 & Hk1 & Ec). cbn [mbind option_bind].
    destruct b; cbn [negb]; [|by eexists _, w1].
    destruct (flush_fine w1 H1) as (w2 & -> & H2 & Hk2); [by unfold opened; rewrite Ec, Hs|].
    cbn [mbind option_bind]. eexists _, w2. split; [done|]. split; [done|by eapply keeps_trans].
  - unfold xWsClose. rewrite (ci_alive _ H). cbn [negb].
    destruct (close_fine w code None 0 H I) as (w1 & -> & H1 & Hk1). by eexists _, w1.
Qed.

(** What a callback calls on a closed connection changes nothing. *)
Lemma closed_send w op payload len : alive w = true -> close_state (conn w) = StClosed ->
  xWsSend alloc key on_close w op payload len = Some (xErrno_InvalidState, w).
Proof. intros Ha Hs. unfold xWsSend. by rewrite Ha, Hs. Qed.

Lemma closed_close w code : alive w = true -> close_state (conn w) = StClosed ->
  xWsClose alloc key timer_ok on_close w code = Some (xErrno_Ok, w).
Proof. intros Ha Hs. unfold xWsClose, xWsConnClose. by rewrite Ha, Hs. Qed.

Lemma run_user_fine p : forall w, conn_inv w -> user_ok p -> fine w (run_user alloc key timer_ok on_close p w).
Proof.
  induction p as [u|c k IH]; intros w H Hp; cbn [run_user].
  { apply fine_now; [|done]. by destruct H. }
  destruct Hp as [Hc Hk]. destruct (api_fine w c H Hc) as (e & w1 & -> & H1 & Hk1). cbn [mbind option_bind].
  destruct (IH e w1 H1 (Hk e)) as (w2 & -> & H2 & Hk2). exists w2. split; [done|]. split; [done|]. by eapply keeps_trans.
Qed.

(** ** Frames *)

Lemma deliver_fine w op payload len :
  conn_inv w -> opened w -> payload_ok payload len -> fine w (deliver alloc key timer_ok on_message on_close w op payload len).
Proof.
  intros H Ho Hp. unfold deliver. destruct on_message as [f|] eqn:Ef; [|by apply fine_now].
  destruct (run_user_fine (f (user_state w) (wire_opcode op) payload len) (emit w (OMessage (wire_opcode op) payload len)))
    as (w' & -> & H' & Hk'); [by apply inv_emit|by apply message_ok|]. by exists w'.
Qed.

Lemma frame_payload_ok f : frame_mem f -> payload_ok (f_payload f) (Z.to_nat (f_len f)).
Proof. intros (_ & _ & H). destruct (f_payload f); cbn; [lia|done]. Qed.

Lemma append_fragment_fine w f : conn_inv w -> frame_mem f -> fine w (append_fragment w f).
Proof.
  intros H (Hl & _ & Hd). unfold append_fragment. destruct (Z.ltb_spec 0 (f_len f)); [|by apply fine_now].
  destruct (f_payload f) as [d|]; [|lia]. cbn [mbind option_bind]. rewrite mem_read_Some by (cbn; lia). cbn [mbind option_bind].
  destruct (append_any (take (Z.to_nat (f_len f)) (drop 0 d)) _ (ci_frag _ H)) as (e & q & -> & Hq). cbn [mbind option_bind].
  apply fine_now; [by apply inv_frag|done].
Qed.

Lemma close_payload_Some f : frame_mem f -> exists code reason len, close_payload f = Some (code, reason, len) /\ payload_ok reason len.
Proof.
  intros (Hl & _ & Hd). unfold close_payload. destruct (Z.leb_spec 2 (f_len f)); [|by eexists _, _, _].
  destruct (f_payload f) as [d|]; [|lia]. cbn [mbind option_bind].
  destruct d as [|b0 [|b1 d]]; try (cbn in Hd; lia). cbn [lookup list_lookup mbind option_bind].
  destruct (2 <? f_len f)%Z; [|by eexists _, _, _]. rewrite mem_read_Some by lia. cbn [mbind option_bind].
  eexists _, _, _. split; [done|]. unfold payload_ok. rewrite length_take, length_drop. lia.
Qed.

Lemma process_close_fine w f :
  conn_inv w -> opened w -> frame_mem f -> fine w (process_close alloc key on_close w f).
Proof.
  intros H Ho Hf. unfold process_close. destruct (close_payload_Some f Hf) as (code & reason & len & -> & Hp).
  cbn [mbind option_bind]. destruct (close_state (conn w)) eqn:Es; try by apply fine_now.
  - set (w1 := set_conn w _). assert (conn_inv w1) as H1.
    { destruct (inv_state w StCloseReceived H Ho ltac:(done)). by split. }
    destruct (encode_close_fine w1 code reason len H1 Hp) as (b & w2 & -> & H2 & Hk2 & Ec). cbn [mbind option_bind].
    destruct (flush_fine w2 H2) as (w3 & -> & H3 & Hk3); [by unfold opened; rewrite Ec|].
    exists w3. split; [done|]. split; [done|]. by eapply keeps_trans.
  - destruct (fire_close_inv w code reason len H) as (H1 & Hk1 & _). by apply fine_now.
Qed.

Lemma process_data_fine w f :
  conn_inv w -> opened w -> frame_mem f -> fine w (process_data alloc key timer_ok on_message on_close w f).
Proof.
  intros H Ho Hf. unfold process_data. destruct (negb _).
  { destruct (in_fragment _); [by apply close_fine|]. apply deliver_fine; [done..|]. by apply frame_payload_ok. }
  destruct (in_fragment _); [by apply close_fine|]. set (w1 := set_conn w _).
  assert (conn_inv w1) as H1 by (by destruct H).
  destruct (q_reset_spec _ (ci_frag _ H1)) as (q & -> & Hq & _). cbn [mbind option_bind].
  destruct (append_fragment_fine (set_conn w1 (set_frag (conn w1) q)) f) as (w2 & -> & H2 & Hk2); [by apply inv_frag|done|].
  by exists w2.
Qed.

Lemma process_continuation_fine w f :
  conn_inv w -> opened w -> frame_mem f -> fine w (process_continuation alloc key timer_ok on_message on_close w f).
Proof.
  intros H Ho Hf. unfold process_continuation. destruct (negb _); [by apply close_fine|].
  pose proof (append_fragment_fine w f H Hf) as Ha.
  assert (forall w1, append_fragment w f = Some w1 -> opened w1) as Hop.
  { intros w1. unfold append_fragment. destruct (_ <? _)%Z; [|by intros [= <-]]. destruct (f_payload f) as [d|]; [|done].
    cbn [mbind option_bind]. destruct (mem_read _ _ _); [|done]. cbn [mbind option_bind].
    destruct (q_append _ _) as [[]|]; [|done]. by intros [= <-]. }
  destruct Ha as (w1 & E & H1 & Hk1). specialize (Hop w1 E). rewrite E. cbn [mbind option_bind].
  destruct (negb _); [|by apply fine_now]. set (w2 := set_conn w1 _).
  assert (conn_inv w2) as H2 by (by destruct H1).
  rewrite (q_len_spec 0) by apply H2. rewrite Nat2Z.id. rewrite (q_copy_spec _ (ci_frag _ H2)).
  destruct (q_reset_spec _ (ci_frag _ H2)) as (q & -> & Hq & _).
  set (bs := q_bytes (frag_buf (conn w2))).
  assert (exists d, (if (0 <? Z.of_nat (length bs))%Z then if alloc (Z.of_nat (length bs)) then d ← Some bs; Some (Some d) else Some None
     else Some None) = Some d /\ payload_ok d (length bs)) as (d & -> & Hd).
  { destruct (_ <? _)%Z; [|by exists None]. destruct (alloc _); [exists (Some bs); split; [done|cbn; lia]|by exists None]. }
  cbn [mbind option_bind].
  destruct (deliver_fine (set_conn w2 (set_frag (conn w2) q)) (frag_opcode (conn (set_conn w2 (set_frag (conn w2) q)))) d (length bs))
    as (w3 & E3 & H3 & Hk3); [by apply inv_frag|done|done|].
  exists w3. split; [exact E3|]. split; [done|]. by eapply keeps_trans.
Qed.

Lemma process_frame_fine w f :
  conn_inv w -> opened w -> frame_mem f -> fine w (ws_process_frame alloc key timer_ok on_message on_close w f).
Proof.
  intros H Ho Hf. unfold ws_process_frame. destruct (_ =? XWS_OPCODE_PING)%Z.
  { destruct (encode_fine w XWS_OPCODE_PONG (f_payload f) (Z.to_nat (f_len f)) H) as (b & w1 & -> & H1 & Hk1 & Ec);
      [by apply frame_payload_ok|]. cbn [mbind option_bind].
    destruct (flush_fine w1 H1) as (w2 & -> & H2 & Hk2); [by unfold opened; rewrite Ec|].
    exists w2. split; [done|]. split; [done|]. by eapply keeps_trans. }
  destruct (_ =? XWS_OPCODE_PONG)%Z; [by apply fine_now|].
  destruct (_ =? XWS_OPCODE_CLOSE)%Z; [by apply process_close_fine|].
  destruct (_ || _); [by apply process_data_fine|].
  destruct (_ =? XWS_OPCODE_CONTINUATION)%Z; [by apply process_continuation_fine|]. by apply close_fine.
Qed.

(** ** Loops *)

Definition inv w : Prop := conn_inv w /\ parser_mem (parser (conn w)).

Lemma fine_inv w w' : inv w -> conn_inv w' -> keeps w w' -> inv w'.
Proof. intros [_ Hp] H (_ & Ep & _). split; [done|]. by rewrite Ep. Qed.

Lemma drained_inv w q p :
  conn_inv w -> drained 0 (read_buf (conn w)) q -> conn_inv (set_conn w (set_parser (set_read (conn w) q) p)).
Proof. intros [] Hd. split; try done; cbn; [apply Hd|by eapply drained_bytes]. Qed.

(** Every frame lowers the weight, so the loop ends. *)
Lemma frame_loop_fine fuel w :
  inv w -> parse_weight (parser (conn w)) (read_buf (conn w)) < fuel ->
  exists w', frame_loop alloc key timer_ok on_message on_close fuel w = Some w' /\ inv w'.
Proof.
  revert w. induction fuel as [|fuel IH]; intros w [H Hp] Hf; [lia|]. cbn [frame_loop].
  case_decide as Hs; [by exists w|].
  destruct (parse_mem alloc (parser (conn w)) (read_buf (conn w))) as (r & p & q & -> & Hd & Hr); [apply H|apply H|done|].
  cbn [mbind option_bind]. set (w1 := set_conn w (set_parser (set_read (conn w) q) p)).
  assert (conn_inv w1) as H1 by (by apply drained_inv). destruct r.
  - destruct Hr as [Hfm Hw]. destruct (process_frame_fine w1 (p_frame p) H1 Hs Hfm) as (w2 & -> & H2 & Er & Ep & _).
    cbn [mbind option_bind]. apply IH.
    + split; [by destruct H2|done].
    + cbn [conn set_conn set_parser parser read_buf]. rewrite Er. unfold parse_weight, xWsFrameParserReset in *. cbn [p_phase] in *.
      rewrite decide_True by done. cbn [conn w1 set_conn set_parser set_read read_buf]. lia.
  - by exists w1.
  - destruct (close_fine w1 XWS_CLOSE_PROTOCOL_ERR None 0 H1 I) as (w2 & -> & H2 & Hk2).
    exists w2. split; [done|]. by apply (fine_inv w1).
Qed.

Lemma script_size_cons a rs :
  script_size (a :: rs) = match a with RData bs => S (length bs) | _ => 1 end + script_size rs.
Proof. done. Qed.

(** Every read that brings bytes shortens the script. *)
Lemma transport_read_shorter rs e k got rs' e' :
  transport_read (rs, e) k = (Some got, (rs', e')) -> 0 < length got -> script_size rs' < script_size rs.
Proof.
  destruct rs as [|[bs| |] s]; cbn [transport_read fst]; try done.
  case_decide as Hl; intros [= <- <- _] Hg; rewrite ?script_size_cons; [lia|]. rewrite length_take in Hg. rewrite length_drop. lia.
Qed.

Lemma fill_inv w q rs :
  conn_inv w -> q_room 0 q -> bytes_ok (q_bytes q) -> Forall rans_ok rs ->
  conn_inv (set_script (set_conn w (set_read (conn w) q)) rs (writes w)).
Proof. by intros [] ???. Qed.

Lemma read_loop_fine fuel w :
  inv w -> script_size (reads w) < fuel ->
  exists r, read_loop on_close fuel w = Some r /\
    match r with ReadBlocked w' => inv w' | ReadClosed w' => inv w' /\ close_state (conn w') = StClosed end.
Proof.
  revert w. induction fuel as [|fuel IH]; intros w [H Hp] Hf; [lia|]. cbn [read_loop].
  destruct (q_fill_spec transport_read (reads w, false) (read_buf (conn w))) as (r & q & [rs again] & -> & Hq & Hcase);
    [by apply room_any, H|apply transport_read_fits|].
  cbn [mbind option_bind]. set (w1 := set_script _ _ _).
  assert (Forall rans_ok rs -> bytes_ok (q_bytes q) -> inv w1) as Hinv.
  { intros Hrs Hb. split; [by apply fill_inv|exact Hp]. }
  assert (forall w', inv w' -> exists r, Some (ReadClosed (ws_fire_close on_close w' XWS_CLOSE_ABNORMAL None 0)) = Some r /\
    match r with ReadBlocked w' => inv w' | ReadClosed w' => inv w' /\ close_state (conn w') = StClosed end) as Hclose.
  { intros w' Hi. eexists. split; [done|]. destruct (fire_close_inv w' XWS_CLOSE_ABNORMAL None 0 (proj1 Hi)) as (H2 & Hk2 & E2).
    split; [by eapply fine_inv|done]. }
  destruct Hcase as [(k & got & Hk & Et & -> & Eq)|(-> & Eq & Hwhy)].
  - destruct (transport_read_ok _ _ _ _ _ _ (ci_reads _ H) Et) as [Hrs Hgot].
    specialize (Hinv Hrs ltac:(rewrite Eq; by apply Forall_app; split; [apply H|])).
    rewrite (proj2 (Z.ltb_ge _ _)) by lia. destruct (Z.eqb_spec (Z.of_nat (length got)) 0); [by apply Hclose|].
    apply IH; [done|]. apply transport_read_shorter in Et; [|lia]. cbn [w1 set_script reads]. lia.
  - assert (Forall rans_ok rs) as Hrs.
    { destruct Hwhy as [(k & _ & Et)|(_ & [[= -> _]|(k & got & Et)])]; [|apply H|]; by eapply transport_read_ok, Et; apply H. }
    change (-1 <? 0)%Z with true. cbv iota. specialize (Hinv Hrs ltac:(rewrite Eq; apply H)).
    destruct again; [by eexists|by apply Hclose].
Qed.

(** ** Life cycle and events *)

Definition settled w : Prop := inv w \/ dead_ok w.

Lemma destroy_dead w : conn_inv w -> close_state (conn w) = StClosed -> exists w', xWsConnDestroy w = Some w' /\ dead_ok w' /\ out w' = out w.
Proof.
  intros H Hc. unfold xWsConnDestroy. destruct (stop_spec w H) as [Et Ec].
  set (w1 := set_conn (stop_idle w) (set_timer (conn w) None)).
  destruct (q_deinit_spec _ (ci_read _ H)) as (r & E1 & _). destruct (q_deinit_spec _ (ci_write _ H)) as (q & E2 & _).
  destruct (q_deinit_spec _ (ci_frag _ H)) as (g & E3 & _).
  change (read_buf (conn w1)) with (read_buf (conn w)). change (write_buf (conn w1)) with (write_buf (conn w)).
  change (frag_buf (conn w1)) with (frag_buf (conn w)). rewrite E1, E2, E3. cbn [mbind option_bind].
  assert (out (stop_idle w) = out w) as Eo by (unfold stop_idle; by destruct (idle_timer (conn w))).
  eexists. split; [done|]. split; [|exact Eo]. split; [done|]. split; [exact Et|]. split; [exact Hc|].
  rewrite <- Hc. cbn. rewrite Eo. apply H.
Qed.

Lemma idle_timeout_settled w :
  alive w = true -> timers w = [] -> inv (set_conn w (set_timer (conn w) None)) ->
  exists w', ws_idle_timeout alloc key timer_ok on_close w = Some w' /\ settled w'.
Proof.
  intros Ha Et H. unfold ws_idle_timeout. set (w1 := set_conn w (set_timer (conn w) None)) in *.
  case_decide.
  - destruct (close_fine w1 XWS_CLOSE_GOING_AWAY None 0 (proj1 H) I) as (w2 & -> & H2 & Hk2).
    exists w2. split; [done|]. left. by eapply fine_inv.
  - destruct (fire_close_inv w1 (close_code (conn w1)) None 0 (proj1 H)) as (H2 & _ & E2).
    destruct (destroy_dead _ H2 E2) as (w3 & -> & H3 & _). exists w3. split; [done|by right].
Qed.

Lemma frame_fuel_enough w : inv w -> parse_weight (parser (conn w)) (read_buf (conn w)) < frame_fuel w.
Proof. intros [H _]. unfold frame_fuel, parse_weight. rewrite (q_len_spec 0), Nat2Z.id by apply H. case_decide; lia. Qed.

Lemma on_event_settled w r q :
  inv w -> exists w', ws_on_event alloc key timer_ok on_message on_close w r q false = Some w' /\ settled w'.
Proof.
  intros H. unfold ws_on_event. rewrite (ci_alive _ (proj1 H)). cbn [negb].
  assert (forall w', inv w' -> close_state (conn w') = StClosed -> exists w2, xWsConnDestroy w' = Some w2 /\ settled w2) as Hd.
  { intros w' [H' _] E. destruct (destroy_dead w' H' E) as (w2 & -> & H2 & _). exists w2. split; [done|by right]. }
  case_decide as Hs; [by apply Hd|].
  assert (exists w1, (if q then ws_try_flush on_close w else Some w) = Some w1 /\ inv w1) as (w1 & -> & H1).
  { destruct q; [|by exists w]. destruct (flush_fine w (proj1 H) Hs) as (w1 & -> & H1 & Hk). exists w1. split; [done|by eapply fine_inv]. }
  cbn [mbind option_bind]. destruct (q && _) eqn:Eq.
  { apply andb_true_iff in Eq as [_ Eq]. apply bool_decide_eq_true in Eq. by apply Hd. }
  destruct r; [|exists w1; split; [done|by left]].
  destruct (read_loop_fine _ w1 H1 (Nat.lt_succ_diag_r _)) as (e & -> & He). cbn [mbind option_bind].
  destruct e as [w2|w2]; [|destruct He; by apply Hd].
  destruct (reset_timer_inv w2 (proj1 He)) as [H3 Hk3]. set (w3 := ws_reset_idle_timer timer_ok w2) in *.
  assert (inv w3) as Hi3 by (by eapply fine_inv).
  destruct (frame_loop_fine _ w3 Hi3 (frame_fuel_enough w3 Hi3)) as (w4 & -> & H4). cbn [mbind option_bind].
  destruct (decide (close_state (conn w4) = StClosed)); [by apply Hd|]. exists w4. split; [done|by left].
Qed.

Lemma event_settled w e :
  inv w -> event_ok e -> exists w', ws_event alloc key timer_ok on_message on_close w e = Some w' /\ settled w'.
Proof.
  intros H He. destruct e as [r q t| |c]; cbn [ws_event].
  - cbn in He. subst t. by apply on_event_settled.
  - pose proof (ci_timers _ (proj1 H)) as Et. destruct (idle_timer (conn w)) as [h|] eqn:Eh; rewrite Et.
    2: { exists w. split; [done|by left]. }
    cbn [option_list]. rewrite (ci_alive _ (proj1 H)). apply idle_timeout_settled.
    + apply (ci_alive _ (proj1 H)).
    + cbn. rewrite Et. apply filter_self.
    + destruct H as [[] Hp]. split; [|done]. split; try done. cbn in *. rewrite ci_timers0, Eh. apply filter_self.
  - destruct (api_fine w c (proj1 H) He) as (x & w1 & -> & H1 & Hk1). cbn [mbind option_bind].
    exists w1. split; [done|]. left. by eapply fine_inv.
Qed.

Definition inputs_ok (evs : list (event * list rans * list wans)) : Prop :=
  Forall (fun x => event_ok x.1.1 /\ Forall rans_ok x.1.2) evs.

Lemma run_settled evs w : settled w -> inputs_ok evs ->
  exists w', ws_run alloc key timer_ok on_message on_close w evs = Some w' /\ settled w'.
Proof.
  intros H Hev. revert w H. induction Hev as [|[[e rs] ws] evs [He Hrs] _ IH]; intros w H; [by exists w|].
  cbn [ws_run]. destruct H as [H|H].
  2: { destruct H as (Ha & Hr). rewrite Ha. exists w. split; [done|by right]. }
  rewrite (ci_alive _ (proj1 H)).
  destruct (event_settled (set_script w rs ws) e) as (w1 & -> & H1); [|done|].
  { destruct H as [H Hp]. split; [by apply inv_script|done]. }
  cbn [mbind option_bind]. by apply IH.
Qed.

Lemma create_inv (r q g : Q) server ms (u : U) w :
  q_room 0 r -> q_room 0 q -> q_room 0 g -> q_bytes r = [] ->
  xWsConnCreate timer_ok true r q g server ms u = Some w -> inv w.
Proof.
  intros Hr Hq Hg Eb. unfold xWsConnCreate. intros [= <-].
  set (w0 := World _ _ _ _ _ _ _ _ _ _).
  assert (inv w0) as H0.
  { split; [|done]. split; cbn; try done. rewrite Eb. constructor. }
  destruct (reset_timer_inv w0 (proj1 H0)) as [H1 Hk1]. by apply (fine_inv w0).
Qed.


End safe.

(** ** A concrete connection *)

(** A server whose user echoes every message and forgets everything. *)
Definition zero_key (n : nat) : list Z := [0; 0; 0; 0]%Z.
Definition any_timer (n : nat) : bool := true.
Definition echo_message (u : unit) (op : xWsOpcode) (payload : option (list Z)) (len : nat) : user unit :=
  UCall (USend op payload len) (fun _ => UDone u).
Definition forget (u : unit) (code : Z) (reason : option (list Z)) (len : nat) : unit := u.

(** The greeting "Hello" of a client, then the end of the stream. *)
Definition hello_bytes : list Z := [0x81; 0x85; 7; 8; 9; 10; 79; 109; 101; 102; 104]%Z.
Definition hello_events : list (event * list rans * list wans) :=
  [(EvSocket true false false, [RData hello_bytes], [WTook 3; WAgain]); (EvSocket true true false, [RData []], [WFail])].
Definition new_server : world (Q := list Z) (U := unit) :=
  World (Conn [] [] [] (xWsFrameParserInit 1) 0 false false StOpen 0 None (Some 0) 1000 false false)
    true false [0] 1 0 [] [] tt [].

