(* ===== verification/WsConnRx.v ===== *)
(** * WsConnRx: what a connection receives and answers

    With memory at hand and a transport that may block but does not fail, a
    connection turns the frames its peer sends into messages and pongs.
    [stream] is the grammar of RFC 6455 for messages in fragments with control
    frames between them. *)

From S2P Require Import Prelude Errno Wire ByteQueue WsFrame WsParse WsSafe WsMem WsConn WsConnSafe.

(** A message: its opcode and its bytes. *)
Definition message : Type := Z * list Z.

Definition data_op (op : Z) : Prop := op = XWS_OPCODE_TEXT \/ op = XWS_OPCODE_BINARY.

(** Frames, the messages they complete, the payloads of the pings among them;
    before and after, the message that has begun. *)
Inductive stream : option message -> list frame -> list message -> list (list Z) -> option message -> Prop :=
  | SNil st : stream st [] [] [] st
  | SWhole F fs ms ps st' : data_op (s_op F) -> s_fin F = true -> stream None fs ms ps st' ->
      stream None (F :: fs) ((s_op F, s_data F) :: ms) ps st'
  | SFirst F fs ms ps st' : data_op (s_op F) -> s_fin F = false -> stream (Some (s_op F, s_data F)) fs ms ps st' ->
      stream None (F :: fs) ms ps st'
  | SMore op acc F fs ms ps st' : s_op F = XWS_OPCODE_CONTINUATION -> s_fin F = false ->
      stream (Some (op, acc ++ s_data F)) fs ms ps st' -> stream (Some (op, acc)) (F :: fs) ms ps st'
  | SLast op acc F fs ms ps st' : s_op F = XWS_OPCODE_CONTINUATION -> s_fin F = true -> stream None fs ms ps st' ->
      stream (Some (op, acc)) (F :: fs) ((op, acc ++ s_data F) :: ms) ps st'
  | SPing st F fs ms ps st' : s_op F = XWS_OPCODE_PING -> stream st fs ms ps st' ->
      stream st (F :: fs) ms (s_data F :: ps) st'
  | SPong st F fs ms ps st' : s_op F = XWS_OPCODE_PONG -> stream st fs ms ps st' -> stream st (F :: fs) ms ps st'.

Definition bytes_or_null (bs : list Z) : option (list Z) := if decide (bs = []) then None else Some bs.
Definition message_obs (m : message) : obs := OMessage (wire_opcode m.1) (bytes_or_null m.2) (length m.2).

Definition is_message (o : obs) : bool := match o with OMessage _ _ _ => true | _ => false end.
Definition sent_bytes (o : obs) : list Z := match o with OSent bs => bs | _ => [] end.

(** What was delivered, and what was handed to the transport. *)
Definition delivered_msgs (tr : list obs) : list obs := filter (fun o => is_message o = true) tr.
Definition sent (tr : list obs) : list Z := tr ≫= sent_bytes.

Definition no_wfail (ws : list wans) : Prop := Forall (fun a => a <> WFail) ws.

(** A run of arrivals, each with its chunks and the answers to its writes. *)
Definition arrival_event (x : bool * list (list Z) * list wans) : event * list rans * list wans :=
  (EvSocket true x.1.1 false, RData <$> x.1.2, x.2).
Definition arrivals (evs : list (bool * list (list Z) * list wans)) : list (event * list rans * list wans) := arrival_event <$> evs.
Definition arrived (evs : list (bool * list (list Z) * list wans)) : list Z := evs ≫= (fun x => concat x.1.2).
Definition arrivals_ok (evs : list (bool * list (list Z) * list wans)) : Prop :=
  Forall (fun x => Forall (fun c => c <> [] /\ bytes_ok c) x.1.2 /\ no_wfail x.2) evs.

Lemma delivered_msgs_app tr o :
  delivered_msgs (tr ++ [o]) = delivered_msgs tr ++ (if is_message o then [o] else []).
Proof.
  unfold delivered_msgs. rewrite filter_app. f_equal. destruct (is_message o) eqn:E.
  - rewrite filter_cons_True by done. done.
  - rewrite filter_cons_False by (by rewrite E). done.
Qed.

Lemma sent_app tr o : sent (tr ++ [o]) = sent tr ++ sent_bytes o.
Proof. unfold sent. rewrite bind_app. cbn. by rewrite app_nil_r. Qed.

Section rx.
Context {Q : Type} `{!ByteQueue Q} `{!ByteStream Q} {U : Type}.
Context (alloc : oracle) (key : nat -> list Z) (timer_ok : nat -> bool).
Context (heard : U -> xWsOpcode -> option (list Z) -> nat -> U).
Context (on_close : option (U -> Z -> option (list Z) -> nat -> U)).
Hypothesis fits : forall n, q_fits n.
Hypothesis plenty : forall n, alloc n = true.
Hypothesis fed : ~ q_starved.

(** A user that listens: it makes no calls while a message is delivered. *)
Definition listener : option (U -> xWsOpcode -> option (list Z) -> nat -> user U) :=
  Some (fun u op payload len => UDone (heard u op payload len)).

Implicit Types w : world (Q := Q) (U := U).

(** Every byte meant for the peer, sent or still queued. *)
Definition outgoing w : list Z := sent (out w) ++ q_bytes (write_buf (conn w)).

(** What flushing leaves alone. *)
Definition rx_view w :=
  (read_buf (conn w), parser (conn w), frag_buf (conn w), frag_opcode (conn w), in_fragment (conn w),
   close_state (conn w), is_client (conn w), (close_code (conn w), close_reason (conn w)),
   delivered_msgs (out w), reads w).

Definition flush_view w := (rx_view w, next_key w).

(** ** Flushing without failures *)

Lemma flush_loop_good fuel w :
  conn_inv on_close w -> opened w -> no_wfail (writes w) -> length (q_bytes (write_buf (conn w))) < fuel ->
  exists w', (flush_loop on_close fuel w = Some (FlushLeft w') \/
              flush_loop on_close fuel w = Some (FlushReturned w') /\ writing (conn w') = true /\ q_bytes (write_buf (conn w')) <> []) /\
    conn_inv on_close w' /\ flush_view w' = flush_view w /\ outgoing w' = outgoing w /\ no_wfail (writes w').
Proof.
  revert w. induction fuel as [|fuel IH]; intros w H Ho Hw Hf; [lia|]. cbn [flush_loop].
  rewrite (q_len_spec 0) by apply H. destruct (Z.eqb_spec (Z.of_nat (length (q_bytes (write_buf (conn w))))) 0) as [_|Hne].
  { exists w. split; [by left|done]. }
  destruct (q_iov_spec XWS_MAX_IOV _ (ci_write _ _ H)) as (segs & -> & Hpre & _ & _). cbn [mbind option_bind].
  case_decide; [exists w; split; [by left|done]|].
  assert (conn_inv on_close (next_write w).2 /\ conn (next_write w).2 = conn w /\ flush_view (next_write w).2 = flush_view w /\
    outgoing (next_write w).2 = outgoing w /\ no_wfail (writes (next_write w).2) /\ (next_write w).1 <> WFail) as (H1 & Ec & Ev & Eo & Hw1 & Hnf).
  { unfold next_write. destruct (writes w) as [|a ws] eqn:Ew; cbn [fst snd]; [by rewrite Ew|]. apply Forall_cons in Hw as [Ha Hws].
    split; [apply inv_script; [done|apply H]|done]. }
  destruct (next_write w) as [a w1]. cbn [fst snd] in *.
  assert (q_bytes (write_buf (conn w1)) <> []) as Hne1.
  { rewrite Ec. intros E. rewrite E in Hne. done. }
  destruct a as [n| |]; [| |done].
  - set (k := n `min` length (concat segs)). case_decide as Hk0.
    2: { exists w1. split; [by left|done]. }
    destruct Hpre as [later Hpre]. rewrite <- Ec in Hpre.
    assert (length (concat segs) <= length (q_bytes (write_buf (conn w1)))) as Hlen by (rewrite Hpre, length_app; lia).
    destruct (q_consume_spec 0 k _ (ci_write _ _ H1)) as (q & -> & Hq & Eq); [lia|]. cbn [mbind option_bind].
    set (w2 := emit _ _). destruct (IH w2) as (w' & Hrun & H' & Ev' & Eo' & Hw').
    + apply inv_emit; [by apply inv_write| |done]. unfold opened. cbn. by rewrite Ec.
    + unfold opened, w2. cbn. by rewrite Ec.
    + done.
    + unfold w2. cbn. rewrite Eq, length_drop. rewrite <- Ec in Hf. lia.
    + exists w'. split; [done|]. split; [done|]. rewrite Ev', Eo'. split; [|split; [|done]].
      * rewrite <- Ev. unfold flush_view, rx_view, w2. cbn. by rewrite delivered_msgs_app, app_nil_r.
      * rewrite <- Eo. unfold outgoing, w2. cbn. rewrite sent_app, <- app_assoc, Eq. f_equal. cbn.
        rewrite Hpre, drop_app_le by lia. by rewrite app_assoc, take_drop.
  - exists (if writing (conn w1) then w1 else write_interest w1 true). split.
    + right. split; [done|]. by destruct (writing (conn w1)) eqn:Ewr.
    + destruct (writing (conn w1)); [done|]. split; [by apply inv_interest|done].
Qed.

(** With a flush pending, the socket waits for writes. *)
Lemma flush_good w :
  conn_inv on_close w -> opened w -> close_state (conn w) <> StCloseReceived -> no_wfail (writes w) ->
  exists w', ws_try_flush on_close w = Some w' /\ conn_inv on_close w' /\ flush_view w' = flush_view w /\
    outgoing w' = outgoing w /\ no_wfail (writes w') /\ (q_bytes (write_buf (conn w')) <> [] -> writing (conn w') = true).
Proof.
  intros H Ho Hc Hw. unfold ws_try_flush. rewrite (q_len_spec 0) by apply H. rewrite Nat2Z.id.
  destruct (flush_loop_good _ w H Ho Hw (Nat.lt_succ_diag_r _)) as (w1 & [E|(E & Hwr & _)] & H1 & Ev & Eo & Hw1); rewrite E; cbn [mbind option_bind].
  2: { by exists w1. }
  rewrite (q_len_spec 0) by apply H1. destruct (Z.eqb_spec (Z.of_nat (length (q_bytes (write_buf (conn w1))))) 0) as [E0|E0].
  - set (w2 := if writing _ then _ else _).
    assert (conn_inv on_close w2 /\ flush_view w2 = flush_view w1 /\ outgoing w2 = outgoing w1 /\ no_wfail (writes w2) /\ write_buf (conn w2) = write_buf (conn w1))
      as (H2 & Ev2 & Eo2 & Hw2 & Eb2).
    { unfold w2. destruct (writing _); [|done]. split; [by apply inv_interest|done]. }
    rewrite decide_False.
    + exists w2. split; [done|]. split; [done|]. rewrite Ev2, Eo2. do 3 (split; [done|]). rewrite Eb2. intros Hne.
      by destruct (q_bytes (write_buf (conn w1))).
    + intros Es. apply Hc. assert (close_state (conn w2) = close_state (conn w)) as <-; [|done].
      assert (flush_view w2 = flush_view w) as E2 by (by rewrite Ev2). injection E2. congruence.
  - eexists. split; [done|]. destruct (writing (conn w1)) eqn:Ewr; [done|]. split; [by apply inv_interest|done].
Qed.

(** ** Encoding with memory at hand *)

(** Frames of the connection's own, each masked with the next key. *)
Fixpoint encoded (masked : bool) (k : nat) (l : list message) : list Z :=
  match l with
  | [] => []
  | m :: l => wire (Frame true false m.1 masked (key k) m.2) ++ encoded masked (S k) l
  end.

Lemma encoded_app masked k l l' : encoded masked k (l ++ l') = encoded masked k l ++ encoded masked (k + length l) l'.
Proof.
  revert k. induction l as [|m l IH]; intros k; cbn [app encoded length]; [by rewrite Nat.add_0_r|].
  by rewrite IH, <- app_assoc, Nat.add_succ_comm.
Qed.

(** Without masking the key does not matter. *)
Lemma encoded_unmasked k k' l : encoded false k l = encoded false k' l.
Proof. revert k k'. induction l as [|m l IH]; intros k k'; [done|]. cbn [encoded]. by rewrite (IH (S k) (S k')). Qed.

Lemma encode_null k (q : Q) fin op masked :
  xWsFrameEncode alloc k q fin op None 0 masked = xWsFrameEncode alloc k q fin op (Some []) 0 masked.
Proof. done. Qed.

Lemma encode_frame k (q : Q) op payload data masked :
  q_room 0 q -> payload = bytes_or_null data \/ (exists d, payload = Some d /\ take (length data) d = data) ->
  exists q', xWsFrameEncode alloc k q true op payload (length data) masked = Some (true, q') /\ q_room 0 q' /\
    q_bytes q' = q_bytes q ++ wire (Frame true false op masked k data).
Proof.
  intros Hq Hp. set (F := Frame true false op masked k data).
  assert (forall d, take (length data) d = data -> exists q', xWsFrameEncode alloc k q true op (Some d) (length data) masked = Some (true, q') /\
    q_room 0 q' /\ q_bytes q' = q_bytes q ++ wire F) as Hsome.
  { intros d Ed. destruct (encode_spec alloc k q F 0 d) as (b & q' & E & Hq' & Hb).
    - rewrite Nat.add_0_r. by apply room_any.
    - done.
    - cbn. rewrite <- Ed at 1. rewrite length_take. lia.
    - done.
    - destruct Hb as [[-> Eb]|(_ & [?|Hal])]; [|done|by rewrite plenty in Hal]. by exists q'. }
  destruct Hp as [->|(d & -> & Ed)]; [|by apply Hsome]. unfold bytes_or_null. case_decide as H0.
  - rewrite H0 in *. cbn [length]. rewrite encode_null. by apply Hsome.
  - apply Hsome. by apply take_ge.
Qed.

Lemma encode_good w op payload data :
  conn_inv on_close w -> payload = bytes_or_null data \/ (exists d, payload = Some d /\ take (length data) d = data) ->
  exists w', encode alloc key w op payload (length data) = Some (true, w') /\ conn_inv on_close w' /\ rx_view w' = rx_view w /\
    outgoing w' = outgoing w ++ wire (Frame true false op (is_client (conn w)) (key (next_key w)) data) /\
    next_key w' = next_key w + (if is_client (conn w) then 1 else 0) /\ writes w' = writes w.
Proof.
  intros H Hp. unfold encode.
  destruct (encode_frame (key (next_key w)) _ op payload data (is_client (conn w)) (ci_write _ _ H) Hp) as (q & -> & Hq & Eq).
  cbn [mbind option_bind]. eexists. split; [done|].
  split; [destruct H; by destruct (is_client (conn w))|].
  split; [by destruct (is_client (conn w))|]. unfold outgoing. split; [|split; [destruct (is_client (conn w)); cbn; lia|by destruct (is_client (conn w))]].
  transitivity (sent (out w) ++ q_bytes q); [by destruct (is_client (conn w))|]. by rewrite Eq, app_assoc.
Qed.

(** ** Receiving *)

Section receiving.
Context (base : list Z) (k0 : nat) (masked : bool).

(** A live connection that has received the messages [ms] and answered the
    pings [ps], with the message [st] begun. *)
Record receiving w (st : option message) (ms : list message) (ps : list (list Z)) : Prop := {
  rv_inv : conn_inv on_close w;
  rv_open : close_state (conn w) = StOpen;
  rv_writes : no_wfail (writes w);
  rv_frag : match st with
            | None => in_fragment (conn w) = false
            | Some (op, acc) => in_fragment (conn w) = true /\ frag_opcode (conn w) = op /\ q_bytes (frag_buf (conn w)) = acc
            end;
  rv_msgs : delivered_msgs (out w) = message_obs <$> ms;
  rv_client : is_client (conn w) = masked;
  rv_out : outgoing w = base ++ encoded masked k0 (pair XWS_OPCODE_PONG <$> ps);
  rv_key : masked = true -> next_key w = k0 + length ps;
  rv_flush : q_bytes (write_buf (conn w)) <> [] -> writing (conn w) = true;
}.

Lemma receiving_view w w' st ms ps :
  receiving w st ms ps -> conn_inv on_close w' -> rx_view w' = rx_view w -> next_key w' = next_key w ->
  outgoing w' = outgoing w -> no_wfail (writes w') ->
  (q_bytes (write_buf (conn w')) <> [] -> writing (conn w') = true) -> receiving w' st ms ps.
Proof.
  intros [] H Ev Ek Eo Hw Hf. injection Ev as E1 E2 E3 E4 E5 E6 E7 E8 E9 E10 E11.
  split; try done; rewrite ?E3, ?E4, ?E5, ?E6, ?E7, ?E10, ?Ek, ?Eo; done.
Qed.

(** A ping is answered with its payload. *)
Lemma ping_good w st ms ps data :
  receiving w st ms ps ->
  exists w', ('(_, w) ← encode alloc key w XWS_OPCODE_PONG (bytes_or_null data) (length data); ws_try_flush on_close w) = Some w' /\
    receiving w' st ms (ps ++ [data]).
Proof.
  intros H. destruct (encode_good w XWS_OPCODE_PONG (bytes_or_null data) data (rv_inv _ _ _ _ H)) as (w1 & -> & H1 & Ev1 & Eo1 & Ek1 & Ew1);
    [by left|]. cbn [mbind option_bind].
  assert (close_state (conn w1) = StOpen /\ is_client (conn w1) = is_client (conn w)) as [Es1 Ec1].
  { injection Ev1. intros. split; [etrans; [eassumption|apply H]|done]. }
  destruct (flush_good w1 H1) as (w2 & -> & H2 & Ev2 & Eo2 & Hw2 & Hf2);
    [by unfold opened; rewrite Es1|by rewrite Es1|rewrite Ew1; apply H|].
  exists w2. split; [done|]. injection Ev2 as E1 E2 E3 E4 E5 E6 E7 E8 E9 E10 E11 E12.
  injection Ev1 as F1 F2 F3 F4 F5 F6 F7 F8 F9 F10 F11. destruct H. split; try done.
  - by rewrite E6, F6.
  - by rewrite E3, E4, E5, F3, F4, F5.
  - by rewrite E10, F10.
  - by rewrite E7, F7.
  - rewrite Eo2, Eo1, rv_out0, rv_client0, fmap_app, encoded_app, <- app_assoc. do 2 f_equal. cbn. rewrite app_nil_r, length_fmap.
    destruct masked; [by rewrite rv_key0|]. reflexivity.
  - rewrite E12, Ek1, rv_client0. intros Ecl. rewrite Ecl, rv_key0, length_app by done. cbn. lia.
Qed.

(** A message reaches the listener. *)
Lemma deliver_good w ms ps op data :
  receiving w None ms ps ->
  exists w', deliver alloc key timer_ok listener on_close w op (bytes_or_null data) (length data) = Some w' /\
    receiving w' None (ms ++ [(op, data)]) ps.
Proof.
  intros []. unfold deliver, listener. cbn [run_user]. eexists. split; [done|].
  split; try done; cbn.
  - by destruct (inv_emit on_close w (message_obs (op, data)) rv_inv0 ltac:(by unfold opened; rewrite rv_open0) I).
  - by rewrite delivered_msgs_app, rv_msgs0, fmap_app.
  - unfold outgoing in *. cbn. rewrite sent_app. cbn. by rewrite app_nil_r.
Qed.

Lemma append_good (q : Q) src : q_room 0 q -> exists q', q_append src q = Some (xErrno_Ok, q') /\ q_room 0 q' /\ q_bytes q' = q_bytes q ++ src.
Proof.
  intros Hq. destruct (q_append_spec 0 src q) as (e & q' & E & Hq' & Hcase); [by apply room_any|].
  destruct Hcase as [[-> Eb]|(_ & ? & _)]; [by exists q'|done].
Qed.

(** The payload of a frame joins the message begun. *)
Lemma fragment_good w F op acc ms ps :
  receiving w (Some (op, acc)) ms ps ->
  exists w', append_fragment w (delivered F) = Some w' /\ receiving w' (Some (op, acc ++ s_data F)) ms ps.
Proof.
  intros H. unfold append_fragment, delivered, flen. cbn [f_len f_payload]. case_decide as H0.
  { rewrite H0. cbn. exists w. split; [done|]. by rewrite app_nil_r. }
  rewrite (proj2 (Z.ltb_lt _ _)). 2: { destruct (s_data F); [done|cbn; lia]. }
  cbn [mbind option_bind]. rewrite mem_read_Some by lia. rewrite drop_0, take_ge by lia. cbn [mbind option_bind].
  destruct (append_good (frag_buf (conn w)) (s_data F)) as (q & -> & Hq & Eq); [apply H|]. cbn [mbind option_bind].
  eexists. split; [done|]. destruct H. split; try done; cbn.
  - by apply inv_frag.
  - destruct rv_frag0 as (? & ? & <-). by rewrite Eq.
Qed.

Lemma flag (b : bool) : negb (b2z b =? 0)%Z = b.
Proof. by destruct b. Qed.

(** A frame that continues the stream. *)
Lemma process_stream F w st ms ps m1 p1 st1 :
  receiving w st ms ps -> stream st [F] m1 p1 st1 ->
  exists w', ws_process_frame alloc key timer_ok listener on_close w (delivered F) = Some w' /\ receiving w' st1 (ms ++ m1) (ps ++ p1).
Proof.
  intros H Hs. unfold ws_process_frame. cbn [f_opcode delivered].
  assert (bytes_or_null (s_data F) = f_payload (delivered F)) as Ep by done.
  assert (Z.to_nat (f_len (delivered F)) = length (s_data F)) as El by (cbn; unfold flen; lia).
  inversion Hs as [|? ? ? ? ? Hop Hfin Hn|? ? ? ? ? Hop Hfin Hn|? ? ? ? ? ? ? Hop Hfin Hn|? ? ? ? ? ? ? Hop Hfin Hn
    |? ? ? ? ? ? Hop Hn|? ? ? ? ? ? Hop Hn]; subst; inversion Hn; subst.
  - (* a whole message *)
    assert (process_data alloc key timer_ok listener on_close w (delivered F) =
      deliver alloc key timer_ok listener on_close w (s_op F) (bytes_or_null (s_data F)) (length (s_data F))) as Eq.
    { unfold process_data. cbn [f_fin delivered]. rewrite flag, Hfin, (rv_frag _ _ _ _ H), El. done. }
    destruct (deliver_good w ms ps (s_op F) (s_data F) H) as (w' & E & H'). exists w'. rewrite app_nil_r. split; [|done].
    rewrite <- E, <- Eq. destruct Hop as [-> | ->]; reflexivity.
  - (* the first fragment *)
    set (w1 := set_conn w (set_fragment (conn w) (s_op F) true (negb (b2z (s_rsv1 F) =? 0)%Z))).
    assert (conn_inv on_close w1) as H1 by (by destruct H as [[]]).
    destruct (q_reset_spec _ (ci_frag _ _ H1)) as (q & Er & Hq & Eq0).
    destruct (fragment_good (set_conn w1 (set_frag (conn w1) q)) F (s_op F) [] ms ps) as (w' & E & H').
    { destruct H. split; try done. by apply inv_frag. }
    exists w'. rewrite !app_nil_r. split; [|done]. rewrite <- E.
    assert (process_data alloc key timer_ok listener on_close w (delivered F) =
      append_fragment (set_conn w1 (set_frag (conn w1) q)) (delivered F)) as <-.
    { unfold process_data. cbn [f_fin delivered]. rewrite flag, Hfin, (rv_frag _ _ _ _ H). cbn [f_opcode f_rsv1].
      change (q_reset _) with (q_reset (frag_buf (conn w1))). by rewrite Er. }
    destruct Hop as [-> | ->]; reflexivity.
  - (* a later fragment *)
    rewrite Hop. cbn. unfold process_continuation. destruct (rv_frag _ _ _ _ H) as (-> & _). cbn [negb].
    destruct (fragment_good w F op acc ms ps H) as (w' & -> & H'). cbn [mbind option_bind f_fin delivered].
    rewrite flag, Hfin. exists w'. by rewrite !app_nil_r.
  - (* the last fragment *)
    rewrite Hop. cbn. unfold process_continuation. destruct (rv_frag _ _ _ _ H) as (-> & _). cbn [negb].
    destruct (fragment_good w F op acc ms ps H) as (w1 & -> & H1). cbn [mbind option_bind f_fin delivered].
    rewrite flag, Hfin. destruct (rv_frag _ _ _ _ H1) as (_ & Eop & Eacc). set (w2 := set_conn w1 _).
    assert (conn_inv on_close w2) as H2 by (by destruct H1 as [[]]).
    rewrite (q_len_spec 0) by apply H2. change (frag_buf (conn w2)) with (frag_buf (conn w1)). rewrite Eacc, Nat2Z.id.
    rewrite (q_copy_spec _ (ci_frag _ _ (rv_inv _ _ _ _ H1))), Eacc, plenty.
    destruct (q_reset_spec _ (ci_frag _ _ (rv_inv _ _ _ _ H1))) as (q & -> & Hq & _). set (data := acc ++ s_data F) in *.
    assert ((if (0 <? Z.of_nat (length data))%Z then d ← Some data; Some (Some d) else Some None) = Some (bytes_or_null data)) as ->.
    { unfold bytes_or_null. case_decide as H0; [by rewrite H0|]. rewrite (proj2 (Z.ltb_lt _ _)); [done|].
      destruct data; [done|cbn; lia]. }
    cbn [mbind option_bind].
    destruct (deliver_good (set_conn w2 (set_frag (conn w2) q)) ms ps op data) as (w' & E & H').
    { destruct H1. split; try done. by apply inv_frag. }
    exists w'. rewrite app_nil_r. split; [|done]. rewrite <- E. cbn. by rewrite Eop.
  - (* a ping *)
    rewrite Hop, El. destruct (ping_good w st1 ms ps (s_data F) H) as (w' & E & H').
    exists w'. rewrite app_nil_r. split; [exact E|done].
  - (* a pong *)
    rewrite Hop. cbn. exists w. by rewrite !app_nil_r.
Qed.

(** ** Frames from the buffer *)

Lemma stream_cons st F fs ms ps st1 :
  stream st (F :: fs) ms ps st1 ->
  exists m1 m2 p1 p2 st', stream st [F] m1 p1 st' /\ stream st' fs m2 p2 st1 /\ ms = m1 ++ m2 /\ ps = p1 ++ p2.
Proof.
  intros H. inversion H; subst.
  - exists [(s_op F, s_data F)], ms0, [], ps, None. repeat split; try done. by apply SWhole; [..|apply SNil].
  - exists [], ms, [], ps, (Some (s_op F, s_data F)). repeat split; try done. by apply SFirst, SNil.
  - exists [], ms, [], ps, (Some (op, acc ++ s_data F)). repeat split; try done. by apply SMore, SNil.
  - exists [(op, acc ++ s_data F)], ms0, [], ps, None. repeat split; try done. by apply SLast, SNil.
  - exists [], ms, [s_data F], ps0, st. repeat split; try done. by apply SPing, SNil.
  - exists [], ms, [], ps, st. repeat split; try done. by apply SPong, SNil.
Qed.

(** The bytes buffered and those to come are what is left of the frames. *)
Definition pending (m : Z) (p : xWsFrameParser) (B future : list Z) (fs : list frame) : Prop :=
  match fs with
  | [] => p = WsParser PhHeader zero_frame 0 m false /\ B ++ future = []
  | F :: fs => exists R, expects F m false p R /\ B ++ future = R ++ concat (wire <$> fs)
  end.

Lemma parse_empty m (q : Q) :
  q_room 0 q -> q_bytes q = [] ->
  xWsFrameParse alloc (WsParser PhHeader zero_frame 0 m false) q = Some (WsNeedMore, WsParser PhHeader zero_frame 0 m false, q).
Proof.
  intros Hq E. unfold xWsFrameParse, parse_header. cbn [p_phase]. rewrite (q_peek_spec 0), E by done. reflexivity.
Qed.

Lemma receiving_read w st ms ps q p :
  receiving w st ms ps -> drained 0 (read_buf (conn w)) q -> receiving (set_conn w (set_parser (set_read (conn w) q) p)) st ms ps.
Proof. intros [] Hd. split; try done. by apply drained_inv. Qed.

Lemma receiving_parser w st ms ps p :
  receiving w st ms ps -> receiving (set_conn w (set_parser (conn w) p)) st ms ps.
Proof. intros [[]]. by split. Qed.

(** What the loop has left: the frames not yet complete. *)
Definition leaves m w' ms ps ms1 ps1 st1 (future : list Z) : Prop :=
  exists fs2 m1 m2 p1 p2 st', ms1 = m1 ++ m2 /\ ps1 = p1 ++ p2 /\ stream st' fs2 m2 p2 st1 /\
    receiving w' st' (ms ++ m1) (ps ++ p1) /\ Forall (frame_ok m false) fs2 /\
    pending m (parser (conn w')) (q_bytes (read_buf (conn w'))) future fs2 /\ (future = [] -> fs2 = []).

Lemma frame_loop_stream m fuel w fs st ms ps ms1 ps1 st1 future :
  receiving w st ms ps -> stream st fs ms1 ps1 st1 -> Forall (frame_ok m false) fs ->
  pending m (parser (conn w)) (q_bytes (read_buf (conn w))) future fs ->
  parse_weight (parser (conn w)) (read_buf (conn w)) < fuel ->
  exists w', frame_loop alloc key timer_ok listener on_close fuel w = Some w' /\
    leaves m w' ms ps ms1 ps1 st1 future.
Proof.
  revert w fs st ms ps ms1 ps1 st1. induction fuel as [|fuel IH]; intros w fs st ms ps ms1 ps1 st1 H Hs Hok Hp Hf; [lia|].
  cbn [frame_loop]. rewrite decide_False by (by rewrite (rv_open _ _ _ _ H)).
  pose proof (ci_read _ _ (rv_inv _ _ _ _ H)) as Hq. destruct fs as [|F fs].
  { destruct Hp as [Ep Eb]. rewrite Ep, parse_empty by (done || by apply app_nil in Eb as [-> _]). cbn [mbind option_bind].
    eexists. split; [done|]. inversion Hs; subst. exists [], [], [], [], [], st1. rewrite !app_nil_r. do 2 (split; [done|]).
    split; [apply SNil|]. split; [apply receiving_read; [done|by apply drained_refl]|]. by split; [constructor|]. }
  apply Forall_cons in Hok as [HF Hok]. destruct Hp as (R & He & Eb).
  destruct (parse_good F m false HF alloc 0 (parser (conn w)) (read_buf (conn w)) R) as (r & p' & q' & -> & Hg);
    [done|by exists future, (concat (wire <$> fs))|done|apply plenty|].
  cbn [mbind option_bind]. set (w1 := set_conn w _). destruct r; cbn [good] in Hg; [| |done].
  - destruct Hg as (Eq & Hq' & Ef & Em & Ea).
    assert (receiving w1 st ms ps) as H1 by (apply receiving_read; [done|split; [done|by exists R]]).
    destruct (stream_cons _ _ _ _ _ _ Hs) as (m1 & m2 & p1 & p2 & st' & Hs1 & Hs2 & -> & ->).
    destruct (process_stream F w1 st ms ps m1 p1 st' H1 Hs1) as (w2 & E2 & H2). rewrite Ef, E2. cbn [mbind option_bind].
    assert (keeps w1 w2) as (Er & Epr & _).
    { destruct (process_frame_fine alloc key timer_ok listener on_close fits) with (w := w1) (f := delivered F) as (w2' & E2' & _ & Hk).
      - intros f u op payload len [= <-] _. exact I.
      - apply H1.
      - unfold opened. by rewrite (rv_open _ _ _ _ H1).
      - unfold frame_mem, delivered, flen. cbn. split; [lia|]. split; [apply (fo_control _ _ _ HF)|]. case_decide as H0; [by rewrite H0|done].
      - congruence. }
    assert (p_expect_masked (parser (conn w2)) = m /\ p_allow_rsv1 (parser (conn w2)) = false) as [Em2 Ea2].
    { rewrite Epr. done. }
    destruct (IH (set_conn w2 (set_parser (conn w2) (xWsFrameParserReset (parser (conn w2))))) fs st' (ms ++ m1) (ps ++ p1) m2 p2 st1)
      as (w' & -> & fs2 & n1 & n2 & o1 & o2 & st2 & -> & -> & Hs3 & H3 & Hok3 & Hp3 & Hend).
    + by apply receiving_parser.
    + done.
    + done.
    + cbn [conn set_conn set_parser parser read_buf]. unfold xWsFrameParserReset. rewrite Em2, Ea2, Er.
      cbn [w1 conn set_conn set_parser set_read read_buf]. rewrite Eq, <- app_assoc in Eb. apply app_inv_head in Eb.
      destruct fs as [|F2 fs]; [by split|]. exists (wire F2). split; [constructor|done].
    + cbn [conn set_conn set_parser parser read_buf]. rewrite Er. unfold parse_weight, xWsFrameParserReset in *. cbn [p_phase].
      rewrite decide_True by done. cbn [w1 conn set_conn set_parser set_read read_buf].
      rewrite Eq, length_app in Hf. case_decide as Hph; [|lia].
      destruct He; try done. pose proof (wire_ne F). lia.
    + exists w'. split; [done|]. exists fs2, (m1 ++ n1), n2, (p1 ++ o1), o2, st2. rewrite !app_assoc. by rewrite <- !app_assoc, !(app_assoc ms), !(app_assoc ps).
  - destruct Hg as (R' & ((c & ER & EB) & Hq' & He') & Hl). exists w1. split; [done|].
    exists (F :: fs), [], ms1, [], ps1, st. rewrite !app_nil_r. split; [done|]. split; [done|]. split; [done|].
    split; [apply receiving_read; [done|split; [done|by exists c]]|]. split; [by constructor|].
    cbn [w1 conn set_conn set_parser set_read read_buf parser pending].
    assert (q_bytes q' ++ future = R' ++ concat (wire <$> fs)) as Eb'.
    { rewrite ER, EB, <- !app_assoc in Eb. by apply app_inv_head in Eb. }
    split; [by exists R'|]. intros ->. exfalso. rewrite app_nil_r in Eb'.
    apply (f_equal length) in Eb'. rewrite length_app in Eb'. lia.
Qed.

(** ** Events *)

(** One read of what has arrived. *)
Lemma fill_chunk (q : Q) c chunks tail :
  q_room 0 q -> Forall (fun c => c <> []) (c :: chunks) ->
  exists got q' chunks', q_fill transport_read ((RData <$> c :: chunks) ++ tail, false) q =
      Some (Z.of_nat (length got), q', ((RData <$> chunks') ++ tail, false)) /\
    q_room 0 q' /\ q_bytes q' = q_bytes q ++ got /\ got <> [] /\ concat (c :: chunks) = got ++ concat chunks' /\
    Forall (fun c => c <> []) chunks' /\ script_size ((RData <$> chunks') ++ tail) < script_size ((RData <$> c :: chunks) ++ tail).
Proof.
  intros Hq Hne.
  destruct (q_fill_spec transport_read ((RData <$> c :: chunks) ++ tail, false) q) as (r & q' & [rs again] & -> & Hq' & Hcase);
    [by apply room_any|apply transport_read_fits|]. apply Forall_cons in Hne as [Hc Hne].
  assert (forall k, transport_read ((RData <$> c :: chunks) ++ tail, false) k =
    if decide (length c <= k) then (Some c, ((RData <$> chunks) ++ tail, false))
    else (Some (take k c), ((RData <$> drop k c :: chunks) ++ tail, false))) as Etr by done.
  destruct Hcase as [(k & got & Hk & Et & -> & Eq)|(-> & Eq & [(k & Hk & Et)|[? _]])]; [|by rewrite Etr in Et; case_decide|done].
  pose proof Et as Et'. rewrite Etr in Et. case_decide as Hl; injection Et as <- <- <-.
  - assert (0 < length c) by (destruct c; [done|cbn; lia]). exists c, q', chunks. do 6 (split; [done|]). by eapply transport_read_shorter.
  - assert (take k c <> []) as Htk.
    { intros E. apply (f_equal length) in E. rewrite length_take in E. destruct c; [done|cbn in *; lia]. }
    exists (take k c), q', (drop k c :: chunks). do 4 (split; [done|]). cbn [concat].
    split; [by rewrite app_assoc, take_drop|]. split.
    + constructor; [|done]. intros E. apply (f_equal length) in E. rewrite length_drop in E. cbn in E. lia.
    + eapply transport_read_shorter; [exact Et'|]. destruct (take k c); [done|cbn; lia].
Qed.

Lemma receiving_fill w q rs st ms ps :
  receiving w st ms ps -> q_room 0 q -> bytes_ok (q_bytes q) -> Forall rans_ok rs ->
  receiving (set_script (set_conn w (set_read (conn w) q)) rs (writes w)) st ms ps.
Proof. intros [] ???. split; try done. by apply fill_inv. Qed.

(** Reading takes what has arrived. *)
Lemma read_loop_good fuel w chunks st ms ps :
  receiving w st ms ps -> reads w = RData <$> chunks -> Forall (fun c => c <> [] /\ bytes_ok c) chunks -> script_size (reads w) < fuel ->
  exists w', read_loop on_close fuel w = Some (ReadBlocked w') /\ receiving w' st ms ps /\ parser (conn w') = parser (conn w) /\
    q_bytes (read_buf (conn w')) = q_bytes (read_buf (conn w)) ++ concat chunks.
Proof.
  revert w chunks. induction fuel as [|fuel IH]; intros w chunks H Er Hch Hf; [lia|]. cbn [read_loop].
  pose proof (ci_read _ _ (rv_inv _ _ _ _ H)) as Hq. pose proof (ci_bytes _ _ (rv_inv _ _ _ _ H)) as Hb. rewrite Er in *.
  destruct chunks as [|c chunks].
  - destruct (q_fill_spec transport_read (RData <$> [], false) (read_buf (conn w))) as (r & q & ctx & -> & Hq' & Hcase);
      [by apply room_any|apply transport_read_fits|].
    destruct Hcase as [(k & got & Hk & [=] & _)|(-> & Eq & [(k & Hk & [= <-])|[? _]])]; [|done].
    cbn [mbind option_bind]. change (-1 <? 0)%Z with true. cbv iota. eexists. split; [done|].
    split; [apply receiving_fill; [done|done|by rewrite Eq|constructor]|]. split; [done|]. cbn. by rewrite Eq, app_nil_r.
  - apply Forall_and in Hch as [Hne Hby].
    destruct (fill_chunk (read_buf (conn w)) c chunks [] Hq Hne) as (got & q & chunks' & E & Hq' & Eq & Hgot & Ec & Hne' & Hsz).
    rewrite !app_nil_r in *. rewrite E. cbn [mbind option_bind]. set (w1 := set_script _ _ _).
    assert (0 < length got) by (destruct got; [done|cbn; lia]).
    rewrite (proj2 (Z.ltb_ge _ _)), (proj2 (Z.eqb_neq _ _)) by lia.
    assert (bytes_ok (got ++ concat chunks')) as [Hgb Hcb]%Forall_app.
    { rewrite <- Ec. apply Forall_concat. exact Hby. }
    assert (Forall bytes_ok chunks') as Hby' by (by apply Forall_concat).
    destruct (IH w1 chunks') as (w' & -> & H' & Ep' & Eb').
    + apply receiving_fill; [done|done|rewrite Eq; by apply Forall_app|by apply Forall_fmap].
    + done.
    + apply Forall_and. by split.
    + cbn [w1 set_script reads]. lia.
    + exists w'. split; [done|]. split; [done|]. split; [by rewrite Ep'|]. rewrite Eb'. change (read_buf (conn w1)) with q.
      by rewrite Eq, Ec, app_assoc.
Qed.

Lemma reset_timer_view w st ms ps :
  receiving w st ms ps -> receiving (ws_reset_idle_timer timer_ok w) st ms ps /\
    parser (conn (ws_reset_idle_timer timer_ok w)) = parser (conn w) /\ read_buf (conn (ws_reset_idle_timer timer_ok w)) = read_buf (conn w).
Proof.
  intros H. destruct (reset_timer_inv timer_ok on_close w (rv_inv _ _ _ _ H)) as (H1 & Er & Ep & _). split; [|done].
  revert H1. unfold ws_reset_idle_timer. destruct (_ <=? 0)%Z; [done|]. intros H1.
  unfold start_idle, stop_idle in *. destruct H. destruct (idle_timer (conn w)), (timer_ok _); by split.
Qed.

(** An arrival up to the parsing: queued answers flushed, bytes read. *)
Lemma arrival_reads w can_write chunks ws st ms ps :
  receiving w st ms ps -> Forall (fun c => c <> [] /\ bytes_ok c) chunks -> no_wfail ws ->
  exists w3, ws_event alloc key timer_ok listener on_close (set_script w (RData <$> chunks) ws) (EvSocket true can_write false) =
      (w ← frame_loop alloc key timer_ok listener on_close (frame_fuel w3) w3;
       if decide (close_state (conn w) = StClosed) then xWsConnDestroy w else Some w) /\
    receiving w3 st ms ps /\ parser (conn w3) = parser (conn w) /\
    q_bytes (read_buf (conn w3)) = q_bytes (read_buf (conn w)) ++ concat chunks.
Proof.
  intros H Hch Hws. cbn [ws_event]. set (w0 := set_script w (RData <$> chunks) ws).
  assert (receiving w0 st ms ps) as H0.
  { destruct H. split; try done. apply inv_script; [done|]. apply Forall_fmap. by apply Forall_and in Hch as [_ ?]. }
  unfold ws_on_event. rewrite (ci_alive _ _ (rv_inv _ _ _ _ H0)). cbn [negb].
  rewrite decide_False by (by rewrite (rv_open _ _ _ _ H0)).
  assert (exists w1, (if can_write then ws_try_flush on_close w0 else Some w0) = Some w1 /\ receiving w1 st ms ps /\
    reads w1 = RData <$> chunks /\ parser (conn w1) = parser (conn w) /\ read_buf (conn w1) = read_buf (conn w)) as (w1 & -> & H1 & Er1 & Ep1 & Eb1).
  { destruct can_write; [|by exists w0].
    destruct (flush_good w0 (rv_inv _ _ _ _ H0)) as (w1 & -> & Hi1 & Ev1 & Eo1 & Hw1 & Hf1);
      [unfold opened; by rewrite (rv_open _ _ _ _ H0)|by rewrite (rv_open _ _ _ _ H0)|done|].
    exists w1. split; [done|]. apply pair_eq in Ev1 as [Ev1 Ek1]. split; [by apply (receiving_view w0)|].
    injection Ev1 as E1 E2 E3 E4 E5 E6 E7 E8 E9 E10 E11. by rewrite E1, E2, E11. }
  cbn [mbind option_bind]. rewrite bool_decide_false by (by rewrite (rv_open _ _ _ _ H1)). rewrite andb_false_r.
  destruct (read_loop_good _ w1 chunks st ms ps H1 Er1 Hch (Nat.lt_succ_diag_r _)) as (w2 & -> & H2 & Ep2 & Eb2).
  cbn [mbind option_bind]. destruct (reset_timer_view w2 st ms ps H2) as (H3 & Ep3 & Eb3).
  exists (ws_reset_idle_timer timer_ok w2). split; [done|]. split; [done|]. by rewrite Ep3, Eb3, Ep2, Eb2, Ep1, Eb1.
Qed.

Lemma fuel_enough w : conn_inv on_close w -> parse_weight (parser (conn w)) (read_buf (conn w)) < frame_fuel w.
Proof. intros H. unfold frame_fuel, parse_weight. rewrite (q_len_spec 0), Nat2Z.id by apply H. case_decide; lia. Qed.

(** An arrival: everything complete is processed. *)
Lemma arrival m w can_write chunks ws fs st ms ps ms1 ps1 st1 future :
  receiving w st ms ps -> stream st fs ms1 ps1 st1 -> Forall (frame_ok m false) fs ->
  Forall (fun c => c <> [] /\ bytes_ok c) chunks -> no_wfail ws ->
  pending m (parser (conn w)) (q_bytes (read_buf (conn w))) (concat chunks ++ future) fs ->
  exists w', ws_event alloc key timer_ok listener on_close (set_script w (RData <$> chunks) ws) (EvSocket true can_write false) = Some w' /\
    leaves m w' ms ps ms1 ps1 st1 future.
Proof.
  intros H Hs Hok Hch Hws Hp.
  destruct (arrival_reads w can_write chunks ws st ms ps H Hch Hws) as (w3 & -> & H3 & Ep & Eb).
  destruct (frame_loop_stream m (frame_fuel w3) w3 fs st ms ps ms1 ps1 st1 future) as (w4 & -> & Hl); try done.
  - rewrite Ep, Eb. unfold pending in *. by rewrite <- app_assoc.
  - by apply fuel_enough, (rv_inv _ _ _ _ H3).
  - cbn [mbind option_bind]. exists w4. split; [|done]. destruct Hl as (fs2 & m1 & m2 & p1 & p2 & st' & _ & _ & _ & H4 & _).
    by rewrite decide_False by (by rewrite (rv_open _ _ _ _ H4)).
Qed.

Lemma run_stream m evs w fs st ms ps ms1 ps1 st1 :
  receiving w st ms ps -> stream st fs ms1 ps1 st1 -> Forall (frame_ok m false) fs -> arrivals_ok evs ->
  pending m (parser (conn w)) (q_bytes (read_buf (conn w))) (arrived evs) fs -> (evs = [] -> fs = []) ->
  exists w', ws_run alloc key timer_ok listener on_close w (arrivals evs) = Some w' /\
    receiving w' st1 (ms ++ ms1) (ps ++ ps1) /\ parser (conn w') = WsParser PhHeader zero_frame 0 m false /\
    q_bytes (read_buf (conn w')) = [].
Proof.
  revert w fs st ms ps ms1 ps1. induction evs as [|[[cw chunks] ws] evs IH]; intros w fs st ms ps ms1 ps1 H Hs Hok He Hp Hnil.
  { rewrite Hnil in * by done. inversion Hs; subst. rewrite !app_nil_r. destruct Hp as [Hp Hb]. apply app_nil in Hb as [Hb _]. by exists w. }
  cbn [arrivals fmap list_fmap ws_run arrival_event fst snd]. rewrite (ci_alive _ _ (rv_inv _ _ _ _ H)).
  apply Forall_cons in He as [[Hch Hws] He].
  destruct (arrival m w cw chunks ws fs st ms ps ms1 ps1 st1 (arrived evs)) as (w1 & -> & fs2 & m1 & m2 & p1 & p2 & st' & -> & -> & Hs2 & H2 & Hok2 & Hp2 & Hend);
    try done. cbn [mbind option_bind].
  destruct (IH w1 fs2 st' (ms ++ m1) (ps ++ p1) m2 p2) as (w' & Erun & H' & Hr); try done.
  { intros ->. by apply Hend. }
  exists w'. split; [exact Erun|]. by rewrite !app_assoc.
Qed.
End receiving.

Lemma create_receiving (r q g : Q) server ms (u : U) w :
  q_room 0 r -> q_room 0 q -> q_room 0 g -> q_bytes r = [] -> q_bytes q = [] ->
  xWsConnCreate timer_ok true r q g server ms u = Some w ->
  receiving [] 0 (negb server) w None [] [] /\
    parser (conn w) = WsParser PhHeader zero_frame 0 (b2z server) false /\ q_bytes (read_buf (conn w)) = [].
Proof.
  intros Hr Hq Hg Er Eq. unfold xWsConnCreate. intros [= <-]. set (w0 := World _ _ _ _ _ _ _ _ _ _).
  assert (receiving [] 0 (negb server) w0 None [] []) as H0.
  { split; try done; cbn; [|by constructor|by rewrite Eq..].
    split; cbn; try done. rewrite Er. constructor. }
  destruct (reset_timer_view [] 0 (negb server) w0 None [] [] H0) as (H1 & Ep & Eb). split; [done|]. rewrite Ep, Eb.
  split; [by destruct server|done].
Qed.

(** C9: A connection whose peer sends the frames of a well-formed stream -
    messages whole or in fragments, pings and pongs anywhere between them -
    delivers exactly the messages, in order and put together, and answers
    every ping with a pong of its payload, however the bytes are cut into
    arrivals and whatever part of the answers the transport takes each time;
    it stays open, and waits for writes while answers are queued. *)
Theorem ws_stream_received (r q g : Q) server timeout u w evs fs ms ps :
  q_room 0 r -> q_room 0 q -> q_room 0 g -> q_bytes r = [] -> q_bytes q = [] ->
  xWsConnCreate timer_ok true r q g server timeout u = Some w ->
  stream None fs ms ps None -> Forall (frame_ok (b2z server) false) fs ->
  arrivals_ok evs -> arrived evs = concat (wire <$> fs) ->
  exists w', ws_run alloc key timer_ok listener on_close w (arrivals evs) = Some w' /\
    alive w' = true /\ close_state (conn w') = StOpen /\
    delivered_msgs (out w') = message_obs <$> ms /\
    outgoing w' = encoded (negb server) 0 (pair XWS_OPCODE_PONG <$> ps) /\
    (q_bytes (write_buf (conn w')) <> [] -> mask_write w' = true).
Proof.
  intros Hr Hq Hg Er Eq Ew Hs Hok He Ea.
  destruct (create_receiving r q g server timeout u w Hr Hq Hg Er Eq Ew) as (H & Ep & Eb).
  destruct (run_stream [] 0 (negb server) (b2z server) evs w fs None [] [] ms ps None H Hs Hok He) as (w' & Erun & H' & _).
  - rewrite Ep, Eb, Ea. destruct fs as [|F fs]; [done|]. exists (wire F). split; [constructor|done].
  - intros ->. destruct fs as [|F fs]; [done|]. apply (f_equal length) in Ea. cbn in Ea. rewrite length_app in Ea.
    pose proof (wire_ne F). lia.
  - exists w'. split; [done|]. destruct H'. split; [apply rv_inv0|]. split; [done|]. split; [done|]. split; [done|].
    intros Hne. rewrite (ci_mask _ _ rv_inv0). by apply rv_flush0.
Qed.

(** ** The end of a stream *)

Lemma read_loop_eof fuel w chunks f :
  conn_inv on_close w -> opened w -> on_close = Some f -> reads w = (RData <$> chunks) ++ [RData []] ->
  Forall (fun c => c <> [] /\ bytes_ok c) chunks -> script_size (reads w) < fuel ->
  exists w', read_loop on_close fuel w = Some (ReadClosed w') /\ conn_inv on_close w' /\ close_state (conn w') = StClosed /\
    out w' = out w ++ [OClose XWS_CLOSE_ABNORMAL None 0].
Proof.
  revert w chunks. induction fuel as [|fuel IH]; intros w chunks H Ho Ef Er Hch Hf; [lia|]. cbn [read_loop].
  pose proof (ci_read _ _ H) as Hq. pose proof (ci_bytes _ _ H) as Hb. rewrite Er in *. destruct chunks as [|c chunks].
  - destruct (q_fill_spec transport_read ((RData <$> []) ++ [RData []], false) (read_buf (conn w))) as (r & q & ctx & -> & Hq' & Hcase);
      [by apply room_any|apply transport_read_fits|].
    destruct Hcase as [(k & got & Hk & Et & -> & Eq)|(-> & Eq & [(k & Hk & [=])|[? _]])]; [|done].
    injection Et as <- <-. cbn [mbind option_bind length]. change (Z.of_nat 0 <? 0)%Z with false. change (Z.of_nat 0 =? 0)%Z with true.
    cbv iota. set (w1 := set_script _ _ _). eexists. split; [done|].
    assert (conn_inv on_close w1) as H1 by (apply fill_inv; [done|done|rewrite Eq, app_nil_r; done|constructor]).
    destruct (fire_close_inv on_close w1 XWS_CLOSE_ABNORMAL None 0 H1) as (H2 & _ & E2). split; [done|]. split; [done|].
    unfold ws_fire_close. rewrite decide_False by exact Ho. by rewrite Ef.
  - apply Forall_and in Hch as [Hne Hby].
    destruct (fill_chunk (read_buf (conn w)) c chunks [RData []] Hq Hne) as (got & q & chunks' & -> & Hq' & Eq & Hgot & Ec & Hne' & Hsz).
    cbn [mbind option_bind]. set (w1 := set_script _ _ _).
    assert (0 < length got) by (destruct got; [done|cbn; lia]).
    rewrite (proj2 (Z.ltb_ge _ _)), (proj2 (Z.eqb_neq _ _)) by lia.
    assert (bytes_ok (got ++ concat chunks')) as [Hgb Hcb]%Forall_app.
    { rewrite <- Ec. apply Forall_concat. exact Hby. }
    assert (Forall bytes_ok chunks') as Hby' by (by apply Forall_concat).
    apply (IH w1 chunks'); try done.
    + apply fill_inv; [done|done|rewrite Eq; by apply Forall_app|]. apply Forall_app. split; [by apply Forall_fmap|].
      constructor; [constructor|done].
    + apply Forall_and. by split.
    + cbn [w1 set_script reads]. lia.
Qed.

(** Whatever arrives together with the end of the stream is lost: the
    reading loop reaches the end before anything is parsed, so the user hears
    of an abnormal closure only, even when the peer's last messages and its
    Close frame had arrived. *)
Theorem ws_eof_drops_data w f chunks ws :
  conn_inv on_close w -> opened w -> on_close = Some f -> Forall (fun c => c <> [] /\ bytes_ok c) chunks ->
  exists w', ws_event alloc key timer_ok listener on_close (set_script w ((RData <$> chunks) ++ [RData []]) ws) (EvSocket true false false) = Some w' /\
    alive w' = false /\ out w' = out w ++ [OClose XWS_CLOSE_ABNORMAL None 0].
Proof.
  intros H Ho Ef Hch. set (w0 := set_script _ _ _). cbn [ws_event]. unfold ws_on_event.
  assert (conn_inv on_close w0) as H0.
  { apply inv_script; [done|]. apply Forall_app. split; [|by repeat constructor]. apply Forall_fmap. by apply Forall_and in Hch as [_ ?]. }
  rewrite (ci_alive _ _ H0). cbn [negb]. rewrite decide_False by exact Ho. cbn [mbind option_bind andb].
  destruct (read_loop_eof _ w0 chunks f H0 Ho Ef eq_refl Hch (Nat.lt_succ_diag_r _)) as (w1 & -> & H1 & E1 & Eo1).
  cbn [mbind option_bind]. destruct (destroy_dead on_close w1 H1 E1) as (w2 & -> & (Ha & _) & Eo2).
  exists w2. split; [done|]. split; [done|]. by rewrite Eo2, Eo1.
Qed.
End rx.

(** ** Concrete peers *)

Definition note (u : unit) (op : xWsOpcode) (payload : option (list Z)) (len : nat) : unit := u.
Definition yes (n : Z) : bool := true.

(** A client's message in two fragments with a ping between them. *)
Definition mask : list Z := [7; 8; 9; 10]%Z.
Definition chat_frames : list frame :=
  [Frame false false 1 true mask [72; 101]%Z; Frame true false 9 true mask [33]%Z; Frame true false 0 true mask [108; 108; 111]%Z].
Definition chat_bytes : list Z := Eval vm_compute in concat (wire <$> chat_frames).
Definition chat_arrivals : list (bool * list (list Z) * list wans) :=
  [(false, [take 9 chat_bytes], []); (true, [drop 9 chat_bytes], [WTook 2; WAgain])].

Lemma chat_ok : stream None chat_frames [(1%Z, [72; 101; 108; 108; 111]%Z)] [[33]%Z] None /\
  Forall (frame_ok (b2z true) false) chat_frames /\ arrivals_ok chat_arrivals /\ arrived chat_arrivals = concat (wire <$> chat_frames).
Proof.
  split.
  { apply SFirst; [by left|done|]. apply SPing; [done|]. apply (SLast 1 [72; 101]%Z); [done|done|apply SNil]. }
  split; [|split; [|vm_compute; reflexivity]].
  - repeat constructor; cbn; unfold byte_ok, WS_MAX_PAYLOAD; try lia; try done.
  - repeat constructor; try done; unfold byte_ok; lia.
Qed.

Lemma ws_stream_received_witness :
  stream None chat_frames [(1%Z, [72; 101; 108; 108; 111]%Z)] [[33]%Z] None /\
  exists w', ws_run yes zero_key any_timer (listener note) (Some forget) new_server (arrivals chat_arrivals) = Some w' /\
    alive w' = true /\ close_state (conn w') = StOpen /\
    delivered_msgs (out w') = [OMessage OpText (Some [72; 101; 108; 108; 111]%Z) 5] /\
    outgoing w' = encoded zero_key (negb true) 0 (pair XWS_OPCODE_PONG <$> [[33]%Z]) /\
    (q_bytes (write_buf (conn w')) <> [] -> mask_write w' = true).
Proof.
  destruct chat_ok as (Hs & Hf & Ha & Ea). split; [exact Hs|].
  apply (ws_stream_received (Q := list Z) yes zero_key any_timer note (Some forget)) with
    (r := []) (q := []) (g := []) (server := true) (timeout := 1000%Z) (u := tt) (fs := chat_frames)
    (ms := [(1%Z, [72; 101; 108; 108; 111]%Z)]) (ps := [[33]%Z]); try exact I; try reflexivity; try assumption.
  intros [].
Defined.

(** A whole message and the end of the stream in one arrival. *)
Lemma new_server_inv : conn_inv (Some forget) new_server.
Proof. split; cbn; try done; by constructor. Qed.

Lemma ws_eof_drops_data_witness :
  conn_inv (Some forget) new_server /\
  exists w', ws_event yes zero_key any_timer (listener note) (Some forget)
      (set_script new_server ((RData <$> [hello_bytes]) ++ [RData []]) []) (EvSocket true false false) = Some w' /\
    alive w' = false /\ out w' = out new_server ++ [OClose XWS_CLOSE_ABNORMAL None 0].
Proof.
  split; [exact new_server_inv|].
  apply (ws_eof_drops_data (Q := list Z) yes zero_key any_timer note (Some forget)) with (f := forget).
  - intros n. exact I.
  - intros [].
  - exact new_server_inv.
  - discriminate.
  - reflexivity.
  - repeat constructor; try discriminate; unfold byte_ok; lia.
Defined.
