(* ===== verification/WsConnTalk.v ===== *)
(** * WsConnTalk: two ends talking, and the end of the talk

    What one connection sends another receives, through the frame codec and
    any cutting of the bytes; a Close frame of the peer is echoed and, once the
    echo is out, reported with its code and reason. *)

From S2P Require Import Prelude Errno Wire ByteQueue WsFrame WsParse WsSafe WsMem WsConn WsConnSafe WsConnRx.

Section talk.
Context {Q : Type} `{!ByteQueue Q} `{!ByteStream Q} {U : Type}.
Context (alloc : oracle) (key : nat -> list Z) (timer_ok : nat -> bool).
Context (heard : U -> xWsOpcode -> option (list Z) -> nat -> U).
Context (on_close : option (U -> Z -> option (list Z) -> nat -> U)).
Hypothesis fits : forall n, q_fits n.
Hypothesis plenty : forall n, alloc n = true.
Hypothesis fed : ~ q_starved.

Implicit Types w : world (Q := Q) (U := U).

(** ** Sending *)

Record speaking w (l : list message) : Prop := {
  sp_inv : conn_inv on_close w;
  sp_open : close_state (conn w) = StOpen;
  sp_client : is_client (conn w) = true;
  sp_out : outgoing w = encoded key true 0 l;
  sp_key : next_key w = length l;
}.

(** What a user sends: its opcode and its bytes. *)
Definition send_event (x : xWsOpcode * list Z * list wans) : event * list rans * list wans :=
  (EvCall (USend x.1.1 (Some x.1.2) (length x.1.2)), [], x.2).
Definition sent_message (x : xWsOpcode * list Z * list wans) : message := (data_opcode x.1.1, x.1.2).

Lemma send_good w l x :
  speaking w l -> no_wfail x.2 ->
  exists w', ws_event alloc key timer_ok (listener heard) on_close (set_script w [] x.2) (send_event x).1.1 = Some w' /\
    speaking w' (l ++ [sent_message x]).
Proof.
  intros [] Hw. destruct x as [[op d] ws]. cbn [send_event fst snd ws_event api] in *. unfold xWsSend.
  set (w0 := set_script w [] ws). assert (conn_inv on_close w0) as H0 by (by apply inv_script).
  rewrite (ci_alive _ _ H0). cbn [negb]. change (close_state (conn w0)) with (close_state (conn w)). rewrite sp_open0, decide_True by done.
  destruct (encode_good alloc key on_close fits plenty fed w0 (data_opcode op) (Some d) d H0) as (w1 & -> & H1 & Ev1 & Eo1 & Ek1 & Ew1).
  { right. exists d. split; [done|]. by apply take_ge. }
  cbn [mbind option_bind negb]. injection Ev1 as F1 F2 F3 F4 F5 F6 F7 F8 F9 F10 F11.
  destruct (flush_good on_close w1 H1) as (w2 & -> & H2 & Ev2 & Eo2 & Hw2 & Hf2);
    [unfold opened; rewrite F6; cbn; by rewrite sp_open0|rewrite F6; cbn; by rewrite sp_open0|by rewrite Ew1|].
  cbn [mbind option_bind]. exists w2. split; [done|]. apply pair_eq in Ev2 as [Ev2 Ek2].
  injection Ev2 as E1 E2 E3 E4 E5 E6 E7 E8 E9 E10 E11. change (is_client (conn w0)) with (is_client (conn w)) in *.
  change (next_key w0) with (next_key w) in *. change (outgoing w0) with (outgoing w) in *.
  change (close_state (conn w0)) with (close_state (conn w)) in *. rewrite sp_client0, sp_key0 in *. split.
  - done.
  - by rewrite E6, F6.
  - by rewrite E7, F7.
  - rewrite Eo2, Eo1, sp_out0, encoded_app. do 2 f_equal. cbn. by rewrite app_nil_r.
  - rewrite Ek2, Ek1, length_app. done.
Qed.

Lemma run_sends xs w l :
  speaking w l -> Forall (fun x => no_wfail x.2) xs ->
  exists w', ws_run alloc key timer_ok (listener heard) on_close w (send_event <$> xs) = Some w' /\ speaking w' (l ++ (sent_message <$> xs)).
Proof.
  intros H Hx. revert w l H. induction Hx as [|x xs Hw Hxs IH]; intros w l H.
  { exists w. split; [done|]. by rewrite app_nil_r. }
  cbn [fmap list_fmap ws_run]. destruct (send_event x) as [[e rs] ws] eqn:Ex.
  assert (rs = [] /\ ws = x.2 /\ e = (send_event x).1.1) as (-> & -> & ->) by (rewrite Ex; injection Ex; done).
  rewrite (ci_alive _ _ (sp_inv _ _ H)).
  destruct (send_good w l x H Hw) as (w1 & -> & H1). cbn [mbind option_bind].
  destruct (IH w1 _ H1) as (w' & E & H'). exists w'. split; [exact E|]. by rewrite <- app_assoc in H'.
Qed.

Lemma create_speaking (r q g : Q) timeout (u : U) w :
  q_room 0 r -> q_room 0 q -> q_room 0 g -> q_bytes r = [] -> q_bytes q = [] ->
  xWsConnCreate timer_ok true r q g false timeout u = Some w -> speaking w [].
Proof.
  intros Hr Hq Hg Er Eq Ew.
  destruct (create_receiving key timer_ok on_close r q g false timeout u w Hr Hq Hg Er Eq Ew) as (H & _).
  destruct H. split; try done. cbn in rv_key. by apply rv_key.
Qed.

(** The frames of whole messages form a stream. *)
Lemma whole_stream masked k l :
  Forall (fun m => data_op m.1) l ->
  exists fs, stream None fs l [] None /\ concat (wire <$> fs) = encoded key masked k l /\
    ((forall n, length (key n) = 4 /\ bytes_ok (key n)) ->
     Forall (fun m => bytes_ok m.2 /\ (Z.of_nat (length m.2) <= WS_MAX_PAYLOAD)%Z) l -> Forall (frame_ok (b2z masked) false) fs).
Proof.
  intros Hl. revert k. induction Hl as [|[op d] l Hop _ IH]; intros k.
  { exists []. split; [constructor|]. split; [done|]. by constructor. }
  destruct (IH (S k)) as (fs & Hs & Ec & Hok). exists (Frame true false op masked (key k) d :: fs).
  split; [by apply (SWhole (Frame true false op masked (key k) d))|]. split; [cbn; by rewrite Ec|].
  intros Hk [[Hb Hm] Hrest]%Forall_cons. constructor; [|by apply Hok]. destruct (Hk k) as [Hk1 Hk2].
  cbn in Hop, Hm, Hb. unfold data_op, XWS_OPCODE_TEXT, XWS_OPCODE_BINARY in Hop.
  split; cbn; try done; [lia|]. intros Hc. exfalso. unfold is_control_opcode in Hc. apply Z.leb_le in Hc. lia.
Qed.

(** C8: What a client's user sends is what the server's user gets: the
    messages sent through [xWsSend], framed and masked by the client, handed
    to its transport in any portions, arriving at the server in any pieces,
    are delivered whole and in order - once the client's queue has drained. *)
Theorem ws_end_to_end (rc qc gc rs qs gs : Q) t1 t2 (uc us : U) wc ws xs evs :
  q_room 0 rc -> q_room 0 qc -> q_room 0 gc -> q_bytes rc = [] -> q_bytes qc = [] ->
  q_room 0 rs -> q_room 0 qs -> q_room 0 gs -> q_bytes rs = [] -> q_bytes qs = [] ->
  xWsConnCreate timer_ok true rc qc gc false t1 uc = Some wc ->
  xWsConnCreate timer_ok true rs qs gs true t2 us = Some ws ->
  (forall n, length (key n) = 4 /\ bytes_ok (key n)) ->
  Forall (fun x => bytes_ok x.1.2 /\ (Z.of_nat (length x.1.2) <= WS_MAX_PAYLOAD)%Z /\ no_wfail x.2) xs ->
  arrivals_ok evs ->
  exists wc', ws_run alloc key timer_ok (listener heard) on_close wc (send_event <$> xs) = Some wc' /\
    (q_bytes (write_buf (conn wc')) = [] -> arrived evs = sent (out wc') ->
     exists ws', ws_run alloc key timer_ok (listener heard) on_close ws (arrivals evs) = Some ws' /\
       delivered_msgs (out ws') = message_obs <$> (sent_message <$> xs)).
Proof.
  intros Hrc Hqc Hgc Erc Eqc Hrs Hqs Hgs Ers Eqs Ewc Ews Hkey Hxs Hev.
  destruct (run_sends xs wc []) as (wc' & Erun & H'); [by apply (create_speaking rc qc gc t1 uc wc)|by eapply Forall_impl; [exact Hxs|]; cbn; tauto|].
  exists wc'. split; [done|]. intros Edone Earr. cbn [app] in H'.
  destruct (whole_stream true 0 (sent_message <$> xs)) as (fs & Hs & Ec & Hok).
  { apply Forall_fmap, Forall_true. intros [[op d] ?]. destruct op; [by left|by right]. }
  destruct (create_receiving key timer_ok on_close rs qs gs true t2 us ws Hrs Hqs Hgs Ers Eqs Ews) as (H & Ep & Eb).
  destruct (run_stream alloc key timer_ok heard on_close fits plenty fed [] 0 false 1 evs ws fs None [] [] (sent_message <$> xs) [] None H Hs)
    as (ws' & Erun' & Hw' & _).
  - apply Hok; [done|]. apply Forall_fmap. eapply Forall_impl; [exact Hxs|]. cbn. tauto.
  - done.
  - rewrite Ep, Eb, Earr. pose proof (sp_out _ _ H') as Eo. unfold outgoing in Eo. rewrite Edone, app_nil_r in Eo.
    rewrite Eo, <- Ec. destruct fs as [|F fs]; [done|]. exists (wire F). split; [constructor|done].
  - intros ->. destruct fs as [|F fs]; [done|]. pose proof (sp_out _ _ H') as Eo. unfold outgoing in Eo.
    rewrite Edone, app_nil_r, <- Earr, <- Ec in Eo. apply (f_equal length) in Eo. cbn in Eo. rewrite length_app in Eo. pose proof (wire_ne F). lia.
  - exists ws'. split; [done|]. apply Hw'.
Qed.

(** ** The peer closes *)

(** The payload of a Close frame with a status. *)
Definition status (code : Z) (reason : list Z) : list Z := [u8 (Z.shiftr code 8); u8 code] ++ reason.
Definition close_frame (masked : bool) (k : list Z) (code : Z) (reason : list Z) : frame :=
  Frame true false XWS_OPCODE_CLOSE masked k (status code reason).

Lemma encode_close_frame k (q : Q) code reason masked :
  q_room 0 q ->
  exists q', xWsFrameEncodeClose alloc k q code (bytes_or_null reason) (length reason) masked = Some (true, q') /\ q_room 0 q' /\
    q_bytes q' = q_bytes q ++ wire (close_frame masked k code reason).
Proof.
  intros Hq. unfold xWsFrameEncodeClose. rewrite plenty. cbn [negb].
  set (c := [u8 (Z.shiftr code 8); u8 code]).
  assert (exists d, mem_write (replicate (2 + length reason) 0%Z) 0 c = Some d /\ length d = 2 + length reason /\ take 2 d = c) as (d & -> & Hd & Ht).
  { rewrite mem_write_Some by (rewrite length_replicate; cbn; lia). eexists. split; [done|]. cbn. by rewrite drop_0, length_replicate. }
  cbn [mbind option_bind].
  assert ((match bytes_or_null reason with
           | Some r => if decide (0 < length reason) then src ← mem_read r 0 (length reason); mem_write d 2 src else Some d
           | None => Some d end) = Some (status code reason)) as ->.
  { unfold bytes_or_null, status. fold c. case_decide as H0.
    - rewrite H0 in *. cbn in Hd. rewrite app_nil_r, <- Ht. by rewrite take_ge by lia.
    - rewrite decide_True by (destruct reason; [done|cbn; lia]). rewrite mem_read_Some by lia. cbn [mbind option_bind].
      rewrite drop_0, take_ge by lia. rewrite mem_write_Some by lia. rewrite Ht. rewrite drop_ge by lia. by rewrite app_nil_r. }
  cbn [mbind option_bind].
  assert (2 + length reason = length (status code reason)) as -> by done.
  apply (encode_frame alloc fits plenty fed k q XWS_OPCODE_CLOSE (Some (status code reason)) (status code reason) masked Hq).
  right. eexists. split; [done|]. by apply take_ge.
Qed.

(** The state after the peer's Close frame, with everything for the peer in
    [final]: waiting for the echo to drain, or done and reported. *)
Definition closing w (code : Z) (reason : list Z) (final : list Z) : Prop :=
  conn_inv on_close w /\ close_state (conn w) = StCloseReceived /\ close_code (conn w) = code /\
  close_reason (conn w) = bytes_or_null reason /\ outgoing w = final /\ no_wfail (writes w).
Definition reported w (code : Z) (reason : list Z) (final : list Z) : Prop :=
  close_state (conn w) = StClosed /\
  exists pre, out w = pre ++ [OClose code (bytes_or_null reason) (length reason)] /\ sent pre = final.

Hypothesis listening : on_close <> None.

Lemma flush_closing w code reason final :
  closing w code reason final ->
  exists w', ws_try_flush on_close w = Some w' /\ conn_inv on_close w' /\
    (closing w' code reason final /\ writing (conn w') = true \/ reported w' code reason final).
Proof.
  intros (H & Hs & Hc & Hr & Ho & Hw). unfold ws_try_flush. rewrite (q_len_spec 0) by apply H. rewrite Nat2Z.id.
  destruct (flush_loop_good on_close _ w H ltac:(unfold opened; by rewrite Hs) Hw (Nat.lt_succ_diag_r _)) as (w1 & Hcase & H1 & Ev & Eo & Hw1).
  apply pair_eq in Ev as [Ev Ek]. injection Ev as E1 E2 E3 E4 E5 E6 E7 E8 E9 E10 E11.
  assert (closing w1 code reason final) as Hcl.
  { split; [done|]. by rewrite E6, E8, E9, Eo. }
  destruct Hcase as [E|(E & Hwr & _)]; rewrite E; cbn [mbind option_bind].
  2: { exists w1. split; [done|]. split; [done|]. by left. }
  rewrite (q_len_spec 0) by apply H1. destruct (Z.eqb_spec (Z.of_nat (length (q_bytes (write_buf (conn w1))))) 0) as [E0|E0].
  - set (w2 := if writing _ then _ else _).
    assert (conn_inv on_close w2 /\ close_state (conn w2) = close_state (conn w1) /\ close_code (conn w2) = close_code (conn w1) /\
      close_reason (conn w2) = close_reason (conn w1) /\ out w2 = out w1) as (H2 & F1 & F2 & F3 & F4).
    { unfold w2. destruct (writing _); [|done]. split; [by apply inv_interest|done]. }
    rewrite decide_True by (by rewrite F1, E6). eexists. split; [done|].
    destruct (fire_close_inv on_close w2 (close_code (conn w2)) (close_reason (conn w2)) (from_option length 0 (close_reason (conn w2))) H2)
      as (H3 & _ & E3'). split; [done|]. right. split; [done|].
    unfold ws_fire_close. rewrite decide_False by (by rewrite F1, E6, Hs). destruct on_close as [f|]; [|done].
    exists (out w1). cbn. rewrite F2, F3, F4, E8, E9, Hc, Hr. split.
    + do 2 f_equal. unfold bytes_or_null. case_decide as H0; cbn; [|done]. by rewrite H0.
    + unfold outgoing in *. assert (q_bytes (write_buf (conn w1)) = []) as E0' by (apply nil_length_inv; lia).
      rewrite E0', app_nil_r in Eo. congruence.
  - eexists. split; [done|]. destruct (writing (conn w1)) eqn:Ewr.
    + split; [done|]. by left.
    + split; [by apply inv_interest|]. left. split; [|done]. destruct Hcl as (? & ? & ? & ? & ? & ?). split; [by apply inv_interest|done].
Qed.

Definition echo base k0 masked (ps : list (list Z)) (code : Z) (reason : list Z) : list Z :=
  base ++ encoded key masked k0 (pair XWS_OPCODE_PONG <$> ps) ++ wire (close_frame masked (key (k0 + length ps)) code reason).

(** The code of a status is read back. *)
Lemma status_code code : (0 <= code < 65536)%Z -> u16 (Z.lor (Z.shiftl (u8 (Z.shiftr code 8)) 8) (u8 code)) = code.
Proof.
  intros H. rewrite lor_shiftl_add by first [lia | unfold u8; apply Z.mod_pos_bound; lia]. unfold u8, u16.
  rewrite Z.shiftr_div_pow2 by lia. change (2 ^ 8)%Z with 256%Z. change (2 ^ 16)%Z with 65536%Z.
  pose proof (Z.div_mod code 256 ltac:(lia)) as Hd. pose proof (Z.mod_pos_bound code 256 ltac:(lia)) as Hm.
  assert (0 <= code / 256 < 256)%Z by (split; [apply Z.div_pos; lia|apply Z.div_lt_upper_bound; lia]).
  rewrite (Z.mod_small (code / 256)) by lia. rewrite Z.mod_small by lia. lia.
Qed.

Lemma close_payload_status masked k code reason :
  (0 <= code < 65536)%Z -> close_payload (delivered (close_frame masked k code reason)) = Some (code, bytes_or_null reason, length reason).
Proof.
  intros Hc. unfold close_payload, delivered, close_frame, flen. cbn [f_len f_payload s_data s_fin s_masked s_key].
  assert (Z.of_nat (length (status code reason)) = 2 + Z.of_nat (length reason))%Z as El by (cbn; lia). rewrite El.
  rewrite (proj2 (Z.leb_le _ _)) by lia. rewrite decide_False by done. cbn [mbind option_bind status app lookup list_lookup].
  rewrite status_code by done. unfold bytes_or_null. case_decide as H0; [by rewrite H0|].
  assert (length reason <> 0) by (by intros ?%nil_length_inv).
  rewrite (proj2 (Z.ltb_lt _ _)) by lia. rewrite mem_read_Some by (cbn [length]; lia). cbn [mbind option_bind drop].
  replace (Z.to_nat (2 + Z.of_nat (length reason)) - 2) with (length reason) by lia. by rewrite ?drop_0, take_ge by done.
Qed.

(** The peer's Close frame while the connection is open. *)
Lemma close_processed base k0 masked w ms ps fm k code reason :
  receiving key on_close base k0 masked w None ms ps -> (0 <= code < 65536)%Z ->
  exists w', ws_process_frame alloc key timer_ok (listener heard) on_close w (delivered (close_frame fm k code reason)) = Some w' /\
    conn_inv on_close w' /\
    (closing w' code reason (echo base k0 masked ps code reason) /\ writing (conn w') = true \/
     reported w' code reason (echo base k0 masked ps code reason)).
Proof.
  intros H Hc. change (ws_process_frame _ _ _ _ _ w _) with (process_close alloc key on_close w (delivered (close_frame fm k code reason))).
  unfold process_close. rewrite close_payload_status by done. cbn [mbind option_bind]. rewrite (rv_open _ _ _ _ _ _ _ _ _ H).
  assert ((if decide (0 < length reason) then if alloc (Z.of_nat (length reason)) then bytes_or_null reason else None else None) = bytes_or_null reason) as ->.
  { rewrite plenty. case_decide; [done|]. unfold bytes_or_null. rewrite decide_True; [done|]. apply nil_length_inv. lia. }
  set (w1 := set_conn w _). assert (conn_inv on_close w1) as H1.
  { destruct (inv_state on_close w StCloseReceived (rv_inv _ _ _ _ _ _ _ _ _ H)); [|done|by split].
    unfold opened. by rewrite (rv_open _ _ _ _ _ _ _ _ _ H). }
  unfold encode_close. change (write_buf (conn w1)) with (write_buf (conn w)). change (next_key w1) with (next_key w).
  change (is_client (conn w1)) with (is_client (conn w)). rewrite (rv_client _ _ _ _ _ _ _ _ _ H).
  destruct (encode_close_frame (key (next_key w)) (write_buf (conn w)) code reason masked (ci_write _ _ (rv_inv _ _ _ _ _ _ _ _ _ H))) as (q & -> & Hq & Eq).
  cbn [mbind option_bind]. set (w2 := set_conn _ (set_write (conn w1) q)).
  destruct (flush_closing w2 code reason (echo base k0 masked ps code reason)) as (w' & -> & H' & Hr); [|by exists w'].
  pose proof (rv_out _ _ _ _ _ _ _ _ _ H) as Eo. pose proof (rv_key _ _ _ _ _ _ _ _ _ H) as Ek.
  split; [by destruct H1, masked|]. split; [done|]. split; [done|]. split; [done|]. split; [|destruct masked; apply H].
  unfold outgoing in *. transitivity (sent (out w) ++ q_bytes q); [by destruct masked|].
  rewrite Eq, app_assoc, Eo, <- app_assoc. unfold echo. do 2 f_equal. destruct masked; [by rewrite Ek|done].
Qed.

Lemma closing_parser w code reason final p :
  closing w code reason final -> closing (set_conn w (set_parser (conn w) p)) code reason final.
Proof. intros (H & Hr). split; [by destruct H|exact Hr]. Qed.

(** The parsing loop on exactly the peer's Close frame. *)
Lemma close_loop base k0 masked m w ms ps fm k code reason fuel :
  receiving key on_close base k0 masked w None ms ps -> (0 <= code < 65536)%Z ->
  frame_ok m false (close_frame fm k code reason) -> parser (conn w) = WsParser PhHeader zero_frame 0 m false ->
  q_bytes (read_buf (conn w)) = wire (close_frame fm k code reason) -> parse_weight (parser (conn w)) (read_buf (conn w)) < fuel ->
  exists w', frame_loop alloc key timer_ok (listener heard) on_close fuel w = Some w' /\ conn_inv on_close w' /\
    (closing w' code reason (echo base k0 masked ps code reason) /\ writing (conn w') = true \/
     reported w' code reason (echo base k0 masked ps code reason)).
Proof.
  intros H Hc Hok Ep Eb Hf. set (F := close_frame fm k code reason) in *. pose proof (wire_ne F) as Hne.
  destruct fuel as [|[|fuel]]; [lia|unfold parse_weight in Hf; rewrite Eb in Hf; lia|].
  cbn [frame_loop]. rewrite decide_False by (by rewrite (rv_open _ _ _ _ _ _ _ _ _ H)).
  pose proof (ci_read _ _ (rv_inv _ _ _ _ _ _ _ _ _ H)) as Hq.
  destruct (parse_good F m false Hok alloc 0 (parser (conn w)) (read_buf (conn w)) (wire F)) as (r & p' & q' & -> & Hg);
    [done|by exists [], []; rewrite Eb|rewrite Ep; constructor|apply plenty|].
  cbn [mbind option_bind]. set (w1 := set_conn w _). destruct r; cbn [good] in Hg; [| |done].
  2: { exfalso. destruct Hg as (R' & ((c & E1 & E2) & _) & Hl). rewrite Eb, E1 in E2. apply app_inv_head in E2. subst R'. lia. }
  destruct Hg as (Eq & Hq' & Ef & Em & Ea). rewrite Eb in Eq. apply (f_equal length) in Eq as El. rewrite length_app in El.
  assert (q_bytes q' = []) as Eq' by (apply nil_length_inv; lia).
  assert (receiving key on_close base k0 masked w1 None ms ps) as H1.
  { apply receiving_read; [done|]. split; [done|]. exists (wire F). by rewrite Eb, Eq', app_nil_r. }
  rewrite Ef. destruct (close_processed base k0 masked w1 ms ps fm k code reason H1 Hc) as (w2 & E2 & H2 & Hr).
  assert (keeps w1 w2) as (Er & Epr & _).
  { destruct (process_frame_fine alloc key timer_ok (listener heard) on_close fits) with (w := w1) (f := delivered F) as (w2' & E2' & _ & Hk).
    - intros f u op payload len [= <-] _. exact I.
    - apply H1.
    - unfold opened. by rewrite (rv_open _ _ _ _ _ _ _ _ _ H1).
    - unfold frame_mem. cbn. unfold flen. split; [lia|]. split; [apply (fo_control _ _ _ Hok)|done].
    - fold F in E2. congruence. }
  fold F in E2. rewrite E2. cbn [mbind option_bind]. set (w3 := set_conn w2 _).
  assert (conn_inv on_close w3) as H3 by (by destruct H2).
  destruct Hr as [[Hcl Hwr]|Hrep].
  - assert (closing w3 code reason (echo base k0 masked ps code reason)) as Hcl3 by (by apply closing_parser).
    rewrite decide_False by (destruct Hcl3 as (_ & -> & _); done).
    assert (parser (conn w3) = WsParser PhHeader zero_frame 0 m false) as ->.
    { cbn. rewrite Epr. cbn. unfold xWsFrameParserReset. by rewrite Em, Ea. }
    assert (read_buf (conn w3) = q') as -> by (cbn; by rewrite Er).
    rewrite parse_empty by done. cbn [mbind option_bind].
    assert (conn_inv on_close (set_conn w3 (set_parser (set_read (conn w3) q') (WsParser PhHeader zero_frame 0 m false)))) as H4.
    { apply drained_inv; [done|]. cbn. rewrite Er. by apply drained_refl. }
    eexists. split; [done|]. destruct Hcl3 as (_ & Hcl3). split; [exact H4|]. left. split; [|exact Hwr]. by split.
  - rewrite decide_True by apply Hrep. exists w3. split; [done|]. split; [done|]. right. exact Hrep.
Qed.

(** C10: The peer's Close frame, in any pieces, is answered with a frame of the
    same code and reason behind all pongs; the connection is destroyed and its
    end reported with this code and reason in the very call that hands the
    last byte of the answer to the transport, now or at a later readiness;
    until then the socket waits for writes. *)
Theorem ws_close_answered base k0 masked m w ms ps fm k code reason can_write chunks ws later :
  receiving key on_close base k0 masked w None ms ps -> parser (conn w) = WsParser PhHeader zero_frame 0 m false ->
  q_bytes (read_buf (conn w)) = [] -> (0 <= code < 65536)%Z -> frame_ok m false (close_frame fm k code reason) ->
  Forall (fun c => c <> [] /\ bytes_ok c) chunks -> concat chunks = wire (close_frame fm k code reason) ->
  no_wfail ws -> Forall no_wfail later ->
  exists w', ws_run alloc key timer_ok (listener heard) on_close w
      ((EvSocket true can_write false, RData <$> chunks, ws) :: ((fun ws => (EvSocket false true false, [], ws)) <$> later)) = Some w' /\
    (alive w' = true /\ close_state (conn w') = StCloseReceived /\ mask_write w' = true /\
       outgoing w' = echo base k0 masked ps code reason \/
     alive w' = false /\
       exists pre, out w' = pre ++ [OClose code (bytes_or_null reason) (length reason)] /\ sent pre = echo base k0 masked ps code reason).
Proof.
  intros H Ep Eb Hc Hok Hch Ech Hws Hlater. set (final := echo base k0 masked ps code reason).
  assert (forall w', conn_inv on_close w' -> reported w' code reason final -> exists w2, xWsConnDestroy w' = Some w2 /\ alive w2 = false /\
    exists pre, out w2 = pre ++ [OClose code (bytes_or_null reason) (length reason)] /\ sent pre = final) as Hdone.
  { intros w' H' [Es Ho]. destruct (destroy_dead on_close w' H' Es) as (w2 & E2 & (Ha & _) & Eo). exists w2. by rewrite Eo. }
  assert (forall w' : world, alive w' = false ->
    ws_run alloc key timer_ok (listener heard) on_close w' ((fun ws => (EvSocket false true false, [], ws)) <$> later) = Some w') as Hdead.
  { intros w' Ha. destruct later; [done|]. cbn. by rewrite Ha. }
  cbn [ws_run]. rewrite (ci_alive _ _ (rv_inv _ _ _ _ _ _ _ _ _ H)).
  destruct (arrival_reads alloc key timer_ok heard on_close fits fed base k0 masked w can_write chunks ws None ms ps H Hch Hws) as (w3 & -> & H3 & Ep3 & Eb3).
  destruct (close_loop base k0 masked m w3 ms ps fm k code reason (frame_fuel w3)) as (w4 & -> & H4 & Hr); try done.
  { by rewrite Ep3. } { by rewrite Eb3, Eb, Ech. } { apply (fuel_enough on_close), H3. }
  cbn [mbind option_bind]. fold final in Hr. destruct Hr as [[Hcl Hwr]|Hrep].
  2: { rewrite decide_True by apply Hrep. destruct (Hdone w4 H4 Hrep) as (w5 & -> & Ha & Ho). cbn [mbind option_bind].
       exists w5. split; [by apply Hdead|]. by right. }
  rewrite decide_False by (destruct Hcl as (_ & -> & _); done). cbn [mbind option_bind].
  clear H3 Ep3 Eb3 w3 H Ep Eb Hch Ech Hws w. revert w4 H4 Hcl Hwr.
  induction Hlater as [|ws' later Hw _ IH]; intros w H Hcl Hwr.
  { exists w. split; [done|]. left. destruct Hcl as (_ & Hs & _ & _ & Ho & _). split; [apply H|]. split; [done|].
    split; [by rewrite (ci_mask _ _ H)|done]. }
  cbn [fmap list_fmap ws_run]. rewrite (ci_alive _ _ H). set (w0 := set_script w [] ws').
  assert (conn_inv on_close w0) as H0 by (by apply inv_script).
  assert (closing w0 code reason final) as Hcl0 by (destruct Hcl as (? & ? & ? & ? & ? & ?); done).
  cbn [ws_event]. unfold ws_on_event. rewrite (ci_alive _ _ H0). cbn [negb].
  rewrite decide_False by (destruct Hcl0 as (_ & -> & _); done).
  destruct (flush_closing w0 code reason final Hcl0) as (w1 & -> & H1 & Hr). cbn [mbind option_bind andb].
  destruct Hr as [[Hcl1 Hwr1]|Hrep].
  - rewrite bool_decide_false by (destruct Hcl1 as (_ & -> & _); done). cbn [mbind option_bind]. apply IH; try done.
    intros w' Ha. destruct later; [done|]. cbn. by rewrite Ha.
  - rewrite bool_decide_true by apply Hrep. destruct (Hdone w1 H1 Hrep) as (w2 & -> & Ha & Ho). cbn [mbind option_bind].
    exists w2. split; [|by right]. destruct later; [done|]. cbn. by rewrite Ha.
Qed.
End talk.

(** ** Concrete peers *)

Definition new_client : world (Q := list Z) (U := unit) :=
  World (Conn [] [] [] (xWsFrameParserInit 0) 0 false false StOpen 0 None None 0 true false)
    true false [] 0 0 [] [] tt [].
Definition two_sends : list (xWsOpcode * list Z * list wans) :=
  [(OpText, [72; 105]%Z, [WTook 4; WAgain]); (OpBinary, [], [WTook 100])].

Lemma zero_key_ok n : length (zero_key n) = 4 /\ bytes_ok (zero_key n).
Proof. split; [done|]. repeat constructor; lia. Qed.

Lemma ws_end_to_end_witness :
  exists wc', ws_run yes zero_key any_timer (listener note) (Some forget) new_client (send_event <$> two_sends) = Some wc' /\
    (q_bytes (write_buf (conn wc')) = [] ->
     arrived [(false, [[129; 130; 0; 0; 0]; [0; 72; 105; 130; 128; 0; 0; 0; 0]]%Z, [])] = sent (out wc') ->
     exists ws', ws_run yes zero_key any_timer (listener note) (Some forget) new_server
         (arrivals [(false, [[129; 130; 0; 0; 0]; [0; 72; 105; 130; 128; 0; 0; 0; 0]]%Z, [])]) = Some ws' /\
       delivered_msgs (out ws') = message_obs <$> (sent_message <$> two_sends)).
Proof.
  apply (ws_end_to_end (Q := list Z) yes zero_key any_timer note (Some forget)) with
    (rc := []) (qc := []) (gc := []) (rs := []) (qs := []) (gs := []) (t1 := 0%Z) (t2 := 1000%Z) (uc := tt) (us := tt);
    try exact I; try reflexivity.
  - intros [].
  - intros n. apply zero_key_ok.
  - repeat constructor; try discriminate; try (unfold byte_ok; lia); cbn; unfold WS_MAX_PAYLOAD; lia.
  - repeat constructor; try discriminate; unfold byte_ok; lia.
Defined.

(** The hypotheses of the witness meet: the client's queue has drained and
    these are the bytes it sent. *)
Example two_sends_drained :
  match ws_run yes zero_key any_timer (listener note) (Some forget) new_client (send_event <$> two_sends) with
  | Some wc' => q_bytes (write_buf (conn wc')) = [] /\ sent (out wc') = [129; 130; 0; 0; 0; 0; 72; 105; 130; 128; 0; 0; 0; 0]%Z
  | None => False
  end.
Proof. vm_compute. by split. Qed.

Lemma new_server_receiving : receiving zero_key (Some forget) [] 0 false new_server None [] [].
Proof. split; cbn; try done; [exact new_server_inv|constructor]. Qed.

(** "bye" with the status 1000. *)
Definition bye : list Z := [98; 121; 101]%Z.
Definition bye_chunks : list (list Z) := [[136; 133; 0]; [0; 0; 0; 3; 232; 98; 121; 101]]%Z.

Lemma bye_ok : frame_ok 1 false (close_frame true [0; 0; 0; 0]%Z 1000 bye).
Proof.
  split; try done.
  - cbn -[u8]. repeat (constructor; [first [apply u8_byte | unfold byte_ok; lia]|]). constructor.
  - repeat constructor; lia.
Qed.

Lemma ws_close_answered_witness :
  receiving zero_key (Some forget) [] 0 false new_server None [] [] /\
  exists w', ws_run yes zero_key any_timer (listener note) (Some forget) new_server
      ((EvSocket true false false, RData <$> bye_chunks, [WTook 3; WAgain]) :: ((fun ws => (EvSocket false true false, [], ws)) <$> [[WTook 100]])) = Some w' /\
    (alive w' = true /\ close_state (conn w') = StCloseReceived /\ mask_write w' = true /\
       outgoing w' = echo zero_key [] 0 false [] 1000 bye \/
     alive w' = false /\
       exists pre, out w' = pre ++ [OClose 1000 (bytes_or_null bye) (length bye)] /\ sent pre = echo zero_key [] 0 false [] 1000 bye).
Proof.
  split; [exact new_server_receiving|].
  apply (ws_close_answered (Q := list Z) yes zero_key any_timer note (Some forget)) with
    (m := 1%Z) (ms := []) (fm := true) (k := [0; 0; 0; 0]%Z); try reflexivity; try (intros; exact I).
  - intros [].
  - discriminate.
  - exact new_server_receiving.
  - lia.
  - exact bye_ok.
  - repeat constructor; try discriminate; unfold byte_ok; lia.
  - repeat constructor; discriminate.
  - repeat constructor; discriminate.
Defined.

(** ** Where the connection leaves the protocol *)

(** A message behind the peer's Close frame still reaches the user while the
    answer waits to be sent. *)
Example ws_message_after_close :
  out <$> ws_run yes zero_key any_timer (listener note) (Some forget) new_server
    [(EvSocket true false false, [RData ([136; 130; 0; 0; 0; 0; 3; 232] ++ hello_bytes)%Z], [WAgain])] =
  Some [OMessage OpText (Some [72; 101; 108; 108; 111]%Z) 5].
Proof. vm_compute. reflexivity. Qed.

(** A Close frame without a status is answered with the status 1005, which
    must not appear on the wire. *)
Example ws_echoes_no_status :
  sent ∘ out <$> ws_run yes zero_key any_timer (listener note) (Some forget) new_server
    [(EvSocket true false false, [RData [136; 128; 0; 0; 0; 0]%Z], [WTook 100])] =
  Some [136; 2; 3; 237]%Z.
Proof. vm_compute. reflexivity. Qed.

(** A client's send that fails for want of memory leaves its header behind;
    the next message goes out after it. *)
Definition short_of (n : Z) (k : Z) : bool := negb (k =? n)%Z.
Example ws_failed_send_corrupts :
  sent ∘ out <$> ws_run (short_of 5) zero_key any_timer (listener note) (Some forget) new_client
    (send_event <$> [(OpText, [1; 2; 3; 4; 5]%Z, []); (OpText, [6]%Z, [WTook 100])]) =
  Some [129; 133; 0; 0; 0; 0; 129; 129; 0; 0; 0; 0; 6]%Z.
Proof. vm_compute. reflexivity. Qed.

(** A reassembled message for which memory runs out is delivered as null with
    its length. *)
Example ws_null_message :
  out <$> ws_run (short_of 5) zero_key any_timer (listener note) (Some forget) new_server
    [(EvSocket true false false, [RData [1; 130; 0; 0; 0; 0; 72; 101; 128; 131; 0; 0; 0; 0; 108; 108; 111]%Z], [])] =
  Some [OMessage OpText None 5].
Proof. vm_compute. reflexivity. Qed.
