(* ===== verification/JsonTok.v ===== *)
(** * JsonTok: the JSON tokenizer ([libx/x/json/json_parse.c])

    The pair of pointers [cur], [end] is the text between them.  [strtod] and
    [strtoll] are given a pointer only: they read the text and whatever lies
    in memory behind it ([after]).  Binary floating point and its decimal
    conversions are the C library's ([CDouble]). *)

From Stdlib Require Import Ascii String.
From S2P Require Import Prelude Decimal Arena.

(** The bytes of a C string literal. *)
Definition str (s : string) : list Z := (fun a => Z.of_N (N_of_ascii a)) <$> list_ascii_of_string s.

Definition lit_null : list Z := Eval cbv in str "null".
Definition lit_true : list Z := Eval cbv in str "true".
Definition lit_false : list Z := Eval cbv in str "false".

(** The double quote and the backslash. *)
Definition QUOTE : Z := 34.
Definition BACKSLASH : Z := 92.

(** [strtod] is undefined when it reads past the memory; [fmt_17g] is what
    [snprintf] prints for ["%.17g"]. *)
Class CDouble (D : Type) := {
  strtod : list Z -> ub D;
  fmt_17g : D -> list Z;
}.

(** ** Whitespace and literals *)

Definition is_ws (c : Z) : bool := (c =? 32)%Z || (c =? 9)%Z || (c =? 10)%Z || (c =? 13)%Z.

Fixpoint xjson_tok_skip_ws (cur : list Z) : list Z :=
  match cur with
  | c :: cur' => if is_ws c then xjson_tok_skip_ws cur' else cur
  | [] => []
  end.

(** The result and the cursor; a failure keeps the cursor behind the skipped
    whitespace. *)
Definition xjson_tok_match (cur lit : list Z) : bool * list Z :=
  let cur := xjson_tok_skip_ws cur in
  if decide (length cur < length lit) then (false, cur)
  else if decide (take (length lit) cur <> lit) then (false, cur)
  else (true, drop (length lit) cur).

(** ** Strings *)

(** The first pass, from behind the opening quote: the length up to the
    closing quote, whether there is an escape, and the text behind. *)
Fixpoint find_close (s : list Z) (n : nat) (needs_unescape : bool) : option (nat * bool * list Z) :=
  match s with
  | [] => None
  | c :: s =>
      if (c =? QUOTE)%Z then Some (n, needs_unescape, s)
      else if (c =? BACKSLASH)%Z then
        match s with
        | [] => None
        | _ :: s => find_close s (S (S n)) true
        end
      else find_close s (S n) needs_unescape
  end.

Definition hex_digit_value (h : Z) : option Z :=
  if (48 <=? h)%Z && (h <=? 57)%Z then Some (h - 48)%Z
  else if (97 <=? h)%Z && (h <=? 102)%Z then Some (h - 97 + 10)%Z
  else if (65 <=? h)%Z && (h <=? 70)%Z then Some (h - 65 + 10)%Z
  else None.

(** The loop over the four digits of an escape. *)
Definition codepoint_of (hs : list Z) : option Z :=
  foldl (fun cp h => cp ← cp; d ← hex_digit_value h; Some (Z.lor (u32 (Z.shiftl cp 4)) d)) (Some 0%Z) hs.

Definition utf8_of (codepoint : Z) : list Z :=
  if (codepoint <=? 0x7F)%Z then [u8 codepoint]
  else if (codepoint <=? 0x7FF)%Z then
    [u8 (Z.lor 0xC0 (Z.shiftr codepoint 6)); u8 (Z.lor 0x80 (Z.land codepoint 0x3F))]
  else
    [u8 (Z.lor 0xE0 (Z.shiftr codepoint 12)); u8 (Z.lor 0x80 (Z.land (Z.shiftr codepoint 6) 0x3F));
     u8 (Z.lor 0x80 (Z.land codepoint 0x3F))].

(** The one-letter escapes. *)
Definition simple_escape (c : Z) : option Z :=
  if (c =? QUOTE)%Z then Some QUOTE
  else if (c =? BACKSLASH)%Z then Some BACKSLASH
  else if (c =? 47)%Z then Some 47%Z
  else if (c =? 98)%Z then Some 8%Z
  else if (c =? 102)%Z then Some 12%Z
  else if (c =? 110)%Z then Some 10%Z
  else if (c =? 114)%Z then Some 13%Z
  else if (c =? 116)%Z then Some 9%Z
  else None.

(** The second pass over the text up to and with the closing quote, writing
    through [dst]. *)
Fixpoint unescape (src : list Z) (dst : list Z * nat) : fallible (list Z * nat) :=
  match src with
  | [] => ok dst
  | c :: src =>
      if (c =? QUOTE)%Z then ok dst
      else if negb (c =? BACKSLASH)%Z then dst ← put dst c; unescape src dst
      else
        match src with
        | [] => ok dst
        | c :: src =>
            match simple_escape c with
            | Some x => dst ← put dst x; unescape src dst
            | None =>
                if (c =? 117)%Z then
                  match src with
                  | h0 :: h1 :: h2 :: h3 :: src =>
                      match codepoint_of [h0; h1; h2; h3] with
                      | Some cp => dst ← puts dst (utf8_of cp); unescape src dst
                      | None => fail
                      end
                  | _ => fail
                  end
                else fail
            end
        end
  end.

(** The decoded bytes, the cursor and the arena.  The block from the arena is
    uninitialized memory, filled here with zeros; the bytes are returned as
    the caller reads them. *)
Definition xjson_tok_string (cur : list Z) (a : xArena) : fallible (list Z * list Z * xArena) :=
  match cur with
  | [] => fail
  | q :: start =>
      if negb (q =? QUOTE)%Z then fail else
      match find_close start 0 false with
      | None => fail
      | Some (len, needs_unescape, cur) =>
          match xArenaAlloc a (Z.of_nat len + 1) with
          | None => fail
          | Some (_, a) =>
              let buf := replicate (len + 1) 0%Z in
              if negb needs_unescape then
                src ← mem_read start 0 len;
                buf ← mem_write buf 0 src;
                buf ← mem_set buf len 0%Z;
                ok (take len buf, cur, a)
              else
                src ← mem_read start 0 (len + 1);
                '(buf, dst) ⇐ unescape src (buf, 0);
                buf ← mem_set buf dst 0%Z;
                ok (take dst buf, cur, a)
          end
      end
  end.

(** ** Numbers *)

Fixpoint skip_digits (cur : list Z) : list Z :=
  match cur with
  | c :: cur' => if is_digit c then skip_digits cur' else cur
  | [] => []
  end.

(** At least one digit, and all that follow. *)
Definition some_digits (cur : list Z) : option (list Z) :=
  match cur with
  | c :: _ => if is_digit c then Some (skip_digits cur) else None
  | [] => None
  end.

(** The fraction, if there is one: whether there is, and the cursor. *)
Definition number_frac (cur : list Z) : option (bool * list Z) :=
  match cur with
  | c :: cur' => if (c =? 46)%Z then cur ← some_digits cur'; Some (true, cur) else Some (false, cur)
  | [] => Some (false, [])
  end.

Definition skip_sign (cur : list Z) : list Z :=
  match cur with
  | c :: cur' => if (c =? 43)%Z || (c =? 45)%Z then cur' else cur
  | [] => []
  end.

Definition number_exp (cur : list Z) : option (bool * list Z) :=
  match cur with
  | c :: cur' =>
      if (c =? 101)%Z || (c =? 69)%Z then cur ← some_digits (skip_sign cur'); Some (true, cur)
      else Some (false, cur)
  | [] => Some (false, [])
  end.

(** Whether the number is floating point, and the cursor behind it. *)
Definition number_scan (cur : list Z) : option (bool * list Z) :=
  let cur := match cur with c :: cur' => if (c =? 45)%Z then cur' else cur | [] => [] end in
  match cur with
  | [] => None
  | c :: cur' =>
      if negb (is_digit c) then None
      else if (c =? 48)%Z && match cur' with d :: _ => is_digit d | [] => false end then None
      else
        '(dot, cur) ← number_frac (skip_digits cur);
        '(ex, cur) ← number_exp cur;
        Some (dot || ex, cur)
  end.

Inductive token_number (D : Type) :=
  | NumInt (z : Z)
  | NumDouble (d : D).
Arguments NumInt {D}.
Arguments NumDouble {D}.

Definition xjson_tok_number {D} `{!CDouble D} (after cur : list Z) : fallible (token_number D * list Z) :=
  match number_scan cur with
  | None => fail
  | Some (is_double, cur') =>
      if is_double
      then d ← strtod (cur ++ after); ok (NumDouble d, cur')
      else z ← strtoll (cur ++ after); ok (NumInt z, cur')
  end.
