(* ===== verification/Json.v ===== *)
(** * Json: the nodes of the JSON library and the parser ([libx/x/json/json.c])

    A node is its fields; the sibling list threaded through [next] is a list
    of children.  The parser builds a fresh node for every value, so that a
    document is a tree; node and string memory comes from one arena, whose
    position is threaded through. *)

From S2P Require Import Prelude Decimal Arena JsonTok.

Definition XJSON_NULL : Z := 0x00.
Definition XJSON_BOOL : Z := 0x01.
Definition XJSON_INT : Z := 0x02.
Definition XJSON_DOUBLE : Z := 0x03.
Definition XJSON_STRING : Z := 0x04.
Definition XJSON_ARRAY : Z := 0x05.
Definition XJSON_OBJECT : Z := 0x06.

(** [sizeof(struct xJson_)] on an LP64 target. *)
Definition SIZEOF_XJSON : Z := 56.

(** The union, with the type bits of [flags]; [A] is the type of children. *)
Inductive xJsonValue (D A : Type) :=
  | VNull
  | VBool (b : Z)
  | VInt (z : Z)
  | VDouble (d : D)
  | VString (s : list Z)
  | VArray (children : list A)
  | VObject (children : list A).
Arguments VNull {D A}.
Arguments VBool {D A}.
Arguments VInt {D A}.
Arguments VDouble {D A}.
Arguments VString {D A}.
Arguments VArray {D A}.
Arguments VObject {D A}.

(** The owned bit of [flags], whether [arena] is set, and the key, null for
    what is no member. *)
Record xJsonMeta := Meta {
  m_owned : bool;
  m_arena : bool;
  m_key : option (list Z);
  m_key_len : nat;
}.

Inductive xJson_ (D : Type) :=
  | Node (m : xJsonMeta) (v : xJsonValue D (xJson_ D)).
Arguments Node {D}.

Section node_ind.
Context {D : Type} (P : xJson_ D -> Prop).
Hypothesis Hnull : forall m, P (Node m VNull).
Hypothesis Hbool : forall m b, P (Node m (VBool b)).
Hypothesis Hint : forall m z, P (Node m (VInt z)).
Hypothesis Hdouble : forall m d, P (Node m (VDouble d)).
Hypothesis Hstring : forall m s, P (Node m (VString s)).
Hypothesis Harray : forall m c, Forall P c -> P (Node m (VArray c)).
Hypothesis Hobject : forall m c, Forall P c -> P (Node m (VObject c)).

Fixpoint node_ind (n : xJson_ D) : P n :=
  let all := fix all (c : list (xJson_ D)) : Forall P c :=
    match c with
    | [] => Forall_nil_2 P
    | n :: c => Forall_cons_2 P n c (node_ind n) (all c)
    end in
  match n with
  | Node m VNull => Hnull m
  | Node m (VBool b) => Hbool m b
  | Node m (VInt z) => Hint m z
  | Node m (VDouble d) => Hdouble m d
  | Node m (VString s) => Hstring m s
  | Node m (VArray c) => Harray m c (all c)
  | Node m (VObject c) => Hobject m c (all c)
  end.
End node_ind.

Section json.
Context {D : Type} `{!CDouble D}.

Abbreviation node := (xJson_ D).

Definition meta (n : node) : xJsonMeta := match n with Node m _ => m end.
Definition value (n : node) : xJsonValue D node := match n with Node _ v => v end.

Definition type_of (n : node) : Z :=
  match value n with
  | VNull => XJSON_NULL
  | VBool _ => XJSON_BOOL
  | VInt _ => XJSON_INT
  | VDouble _ => XJSON_DOUBLE
  | VString _ => XJSON_STRING
  | VArray _ => XJSON_ARRAY
  | VObject _ => XJSON_OBJECT
  end.

(** [flags |= XJSON_FLAG_OWNED] *)
Definition set_owned (n : node) : node :=
  match n with Node m v => Node (Meta true (m_arena m) (m_key m) (m_key_len m)) v end.

Definition set_key (key : option (list Z)) (key_len : nat) (n : node) : node :=
  match n with Node m v => Node (Meta (m_owned m) (m_arena m) key key_len) v end.

(** The type and the accessors; on a node of another type they read the wrong
    member of the union. *)
Definition xJsonType (n : node) : Z := type_of n.
Definition xJsonBool (n : node) : ub Z := match value n with VBool b => Some b | _ => None end.
Definition xJsonInt (n : node) : ub Z := match value n with VInt z => Some z | _ => None end.
Definition xJsonDouble (n : node) : ub D := match value n with VDouble d => Some d | _ => None end.
Definition xJsonString (n : node) : ub (list Z) := match value n with VString s => Some s | _ => None end.
Definition xJsonStringLength (n : node) : ub nat :=
  match value n with VString s => Some (length s) | _ => None end.

(** ** Parser *)

(** The state between two calls: the text from [cur] to [end], and the arena. *)
Abbreviation pstate := (list Z * xArena)%type.

(** An allocation that fails sets [error]; every caller then returns null. *)
Definition xjson_p_new_node_ (a : xArena) (v : xJsonValue D node) : fallible (node * xArena) :=
  match xArenaAlloc a SIZEOF_XJSON with
  | Some (_, a) => ok (Node (Meta false true None 0) v, a)
  | None => fail
  end.

Definition xjson_p_string_node_ (s : pstate) : fallible (node * pstate) :=
  '(str, cur, a) ⇐ xjson_tok_string s.1 s.2;
  '(n, a) ⇐ xjson_p_new_node_ a (VString str);
  ok (n, (cur, a)).

Definition xjson_p_number_ (after : list Z) (s : pstate) : fallible (node * pstate) :=
  '(x, cur) ⇐ xjson_tok_number after s.1;
  '(n, a) ⇐ xjson_p_new_node_ s.2 (match x with NumInt z => VInt z | NumDouble d => VDouble d end);
  ok (n, (cur, a)).

(** A literal that does not match is an error. *)
Definition xjson_p_literal (lit : list Z) (v : xJsonValue D node) (s : pstate) : fallible (node * pstate) :=
  match xjson_tok_match s.1 lit with
  | (true, cur) => '(n, a) ⇐ xjson_p_new_node_ s.2 v; ok (n, (cur, a))
  | (false, _) => fail
  end.

(** The three functions call each other; every call has less fuel.  The loops
    carry the children so far. *)
Fixpoint xjson_p_value_ (fuel : nat) (after : list Z) (s : pstate) : fallible (node * pstate) :=
  match fuel with
  | 0 => None
  | S fuel =>
      let cur := xjson_tok_skip_ws s.1 in
      let s := (cur, s.2) in
      match cur with
      | [] => fail
      | c :: rest =>
          if (c =? QUOTE)%Z then xjson_p_string_node_ s
          else if (c =? 123)%Z then
            '(_, a) ⇐ xjson_p_new_node_ s.2 (VObject []);
            match xjson_tok_match rest [125%Z] with
            | (true, cur) => ok (Node (Meta false true None 0) (VObject []), (cur, a))
            | (false, cur) =>
                '(c, s) ⇐ xjson_p_object_ fuel after [] (cur, a);
                ok (Node (Meta false true None 0) (VObject c), s)
            end
          else if (c =? 91)%Z then
            '(_, a) ⇐ xjson_p_new_node_ s.2 (VArray []);
            match xjson_tok_match rest [93%Z] with
            | (true, cur) => ok (Node (Meta false true None 0) (VArray []), (cur, a))
            | (false, cur) =>
                '(c, s) ⇐ xjson_p_array_ fuel after [] (cur, a);
                ok (Node (Meta false true None 0) (VArray c), s)
            end
          else if (c =? 116)%Z then xjson_p_literal lit_true (VBool 1) s
          else if (c =? 102)%Z then xjson_p_literal lit_false (VBool 0) s
          else if (c =? 110)%Z then xjson_p_literal lit_null VNull s
          else if (c =? 45)%Z || is_digit c then xjson_p_number_ after s
          else fail
      end
  end
with xjson_p_array_ (fuel : nat) (after : list Z) (children : list node) (s : pstate)
    : fallible (list node * pstate) :=
  match fuel with
  | 0 => None
  | S fuel =>
      '(elem, s) ⇐ xjson_p_value_ fuel after s;
      let children := children ++ [set_owned elem] in
      match xjson_tok_match s.1 [93%Z] with
      | (true, cur) => ok (children, (cur, s.2))
      | (false, cur) =>
          match xjson_tok_match cur [44%Z] with
          | (true, cur) => xjson_p_array_ fuel after children (cur, s.2)
          | (false, _) => fail
          end
      end
  end
with xjson_p_object_ (fuel : nat) (after : list Z) (children : list node) (s : pstate)
    : fallible (list node * pstate) :=
  match fuel with
  | 0 => None
  | S fuel =>
      '(key, cur, a) ⇐ xjson_tok_string s.1 s.2;
      match xjson_tok_match cur [58%Z] with
      | (false, _) => fail
      | (true, cur) =>
          '(val, s) ⇐ xjson_p_value_ fuel after (cur, a);
          let children := children ++ [set_key (Some key) (length key) (set_owned val)] in
          match xjson_tok_match s.1 [125%Z] with
          | (true, cur) => ok (children, (cur, s.2))
          | (false, cur) =>
              match xjson_tok_match cur [44%Z] with
              | (true, cur) => xjson_p_object_ fuel after children (cur, s.2)
              | (false, _) => fail
              end
          end
      end
  end.

(** Enough for every text of [len] bytes ([parse_total]). *)
Definition json_parse_fuel (len : nat) : nat := 2 * len + 1.

Definition arena_cap (len : nat) : Z :=
  let cap := u64 (Z.of_nat len * 8) in if (cap <? 4096)%Z then 4096%Z else cap.

(** [json] is the memory from the pointer on (null: [None]), [len] the length
    given.  [copy_strings] is stored and never read. *)
Definition xjson_do_parse_ (malloc : Z -> option Z) (alloc : oracle) (json : option (list Z)) (len : nat)
    (copy_strings : bool) : fallible node :=
  match json with
  | None => fail
  | Some mem =>
      if decide (len = 0) then fail else
      if decide (length mem < len) then None else
      match xArenaCreate malloc alloc (arena_cap len) with
      | None => fail
      | Some a =>
          '(root, s) ⇐ xjson_p_value_ (json_parse_fuel len) (drop len mem) (take len mem, a);
          match xjson_tok_skip_ws s.1 with
          | [] => ok root
          | _ :: _ => fail
          end
      end
  end.

Definition xJsonParse (malloc : Z -> option Z) (alloc : oracle) (json : option (list Z)) (len : nat) : fallible node :=
  xjson_do_parse_ malloc alloc json len false.
Definition xJsonParseCopy (malloc : Z -> option Z) (alloc : oracle) (json : option (list Z)) (len : nat) : fallible node :=
  xjson_do_parse_ malloc alloc json len true.

End json.
