(* ===== verification/JsonPrint.v ===== *)
(** * JsonPrint: the JSON serializer ([libx/x/json/json.c])

    The serializer writes pieces through a cursor that always advances; a
    piece that does not fit is left out and sets the result.  Without a buffer
    it only measures.  [render] is the text it means to write. *)

From S2P Require Import Prelude Decimal Arena JsonTok Json.

(** The buffer (null: [None]), the cursor and whether a write has failed. *)
Record writer := Writer {
  w_buf : option (list Z);
  w_pos : nat;
  w_err : bool;
}.

(** ** Writing *)

Definition xjson_write_ (cap : nat) (s : list Z) (w : writer) : ub writer :=
  let pos := w_pos w + length s in
  match w_buf w with
  | None => Some (Writer None pos (w_err w))
  | Some buf =>
      if decide (pos <= cap)
      then buf ← mem_write buf (pos - length s) s; Some (Writer (Some buf) pos (w_err w))
      else Some (Writer (Some buf) pos true)
  end.

Definition xjson_write_c_ (cap : nat) (c : Z) (w : writer) : ub writer := xjson_write_ cap [c] w.

(** [n] spaces. *)
Fixpoint write_spaces (cap n : nat) (w : writer) : ub writer :=
  match n with
  | 0 => Some w
  | S n => w ← xjson_write_c_ cap 32 w; write_spaces cap n w
  end.

Definition xjson_write_indent_ (cap depth : nat) (w : writer) : ub writer :=
  w ← xjson_write_c_ cap 10 w; write_spaces cap (depth * 2) w.

(** [%04x] of a byte. *)
Definition hex4 (c : Z) : list Z :=
  let digit d := if (d <? 10)%Z then (48 + d)%Z else (87 + d)%Z in
  [48; 48; digit (c / 16); digit (c mod 16)]%Z.

(** What is written for one byte of a string. *)
Definition escape (c : Z) : list Z :=
  if (c =? QUOTE)%Z then [BACKSLASH; QUOTE]
  else if (c =? BACKSLASH)%Z then [BACKSLASH; BACKSLASH]
  else if (c =? 8)%Z then [BACKSLASH; 98%Z]
  else if (c =? 12)%Z then [BACKSLASH; 102%Z]
  else if (c =? 10)%Z then [BACKSLASH; 110%Z]
  else if (c =? 13)%Z then [BACKSLASH; 114%Z]
  else if (c =? 9)%Z then [BACKSLASH; 116%Z]
  else if (c <? 0x20)%Z then BACKSLASH :: 117%Z :: hex4 c
  else [c].

Fixpoint stringify_loop (cap : nat) (s : list Z) (w : writer) : ub writer :=
  match s with
  | [] => Some w
  | c :: s => w ← xjson_write_ cap (escape c) w; stringify_loop cap s w
  end.

(** [len] bytes of the NUL-terminated [s] (null: [None]). *)
Definition xjson_stringify_str_ (cap : nat) (s : option (list Z)) (len : nat) (w : writer) : ub writer :=
  w ← xjson_write_c_ cap QUOTE w;
  bytes ← (match s with
           | Some s => mem_read (s ++ [0%Z]) 0 len
           | None => if decide (len = 0) then Some [] else None
           end);
  w ← stringify_loop cap bytes w;
  xjson_write_c_ cap QUOTE w.

(** The loop over the children, separated by commas; [f] writes one. *)
Definition write_children {A} (cap : nat) (f : A -> writer -> ub writer) :=
  fix loop (first : bool) (c : list A) (w : writer) : ub writer :=
    match c with
    | [] => Some w
    | child :: c =>
        w ← (if first then Some w else xjson_write_c_ cap 44 w);
        w ← f child w;
        loop false c w
    end.

Section print.
Context {D : Type} `{!CDouble D}.

Abbreviation node := (xJson_ D).

(** The text of a double in [tmp], 64 bytes: two more are added when there is
    neither a point nor an exponent. *)
Definition double_text (d : D) : ub (list Z) :=
  let t := fmt_17g d in
  if decide (64 <= length t) then None
  else if existsb (fun c => (c =? 46)%Z || (c =? 101)%Z || (c =? 69)%Z) t then Some t
  else if decide (62 < length t) then None
  else Some (t ++ [46; 48]%Z).

Fixpoint xjson_strify_impl_ (pretty : bool) (cap indent : nat) (n : node) (w : writer) : ub writer :=
  match n with Node m v =>
  match v with
  | VNull => xjson_write_ cap lit_null w
  | VBool b => xjson_write_ cap (if (b =? 0)%Z then lit_false else lit_true) w
  | VInt z => xjson_write_ cap (print_lld z) w
  | VDouble d => t ← double_text d; xjson_write_ cap t w
  | VString s => xjson_stringify_str_ cap (Some s) (length s) w
  | VArray [] => w ← xjson_write_c_ cap 91 w; xjson_write_c_ cap 93 w
  | VArray children =>
      w ← xjson_write_c_ cap 91 w;
      w ← write_children cap (fun child w =>
             w ← (if pretty then xjson_write_indent_ cap (indent + 1) w else Some w);
             xjson_strify_impl_ pretty cap (indent + 1) child w) true children w;
      w ← (if pretty then xjson_write_indent_ cap indent w else Some w);
      xjson_write_c_ cap 93 w
  | VObject [] => w ← xjson_write_c_ cap 123 w; xjson_write_c_ cap 125 w
  | VObject children =>
      w ← xjson_write_c_ cap 123 w;
      w ← write_children cap (fun child w =>
             w ← (if pretty then xjson_write_indent_ cap (indent + 1) w else Some w);
             w ← xjson_stringify_str_ cap (m_key (meta child)) (m_key_len (meta child)) w;
             w ← xjson_write_c_ cap 58 w;
             w ← (if pretty then xjson_write_c_ cap 32 w else Some w);
             xjson_strify_impl_ pretty cap (indent + 1) child w) true children w;
      w ← (if pretty then xjson_write_indent_ cap indent w else Some w);
      xjson_write_c_ cap 125 w
  end end.

(** Measure, allocate, write, terminate.  [junk] is what the fresh block
    holds. *)
Definition xjson_stringify_alloc_ (alloc : oracle) (junk : nat -> list Z) (node : option node) (pretty : bool)
    : fallible (list Z) :=
  match node with
  | None => fail
  | Some n =>
      w ← xjson_strify_impl_ pretty 0 0 n (Writer None 0 false);
      if w_err w then fail else
      if negb (alloc (Z.of_nat (w_pos w + 1))) then fail else
      w ← xjson_strify_impl_ pretty (w_pos w + 1) 0 n (Writer (Some (junk (w_pos w + 1))) 0 false);
      if w_err w then fail else
      buf ← w_buf w;
      buf ← mem_set buf (w_pos w) 0%Z;
      ok buf
  end.

Definition xJsonStringify (alloc : oracle) (junk : nat -> list Z) (node : option node) : fallible (list Z) :=
  xjson_stringify_alloc_ alloc junk node false.
Definition xJsonStringifyPretty (alloc : oracle) (junk : nat -> list Z) (node : option node) : fallible (list Z) :=
  xjson_stringify_alloc_ alloc junk node true.

(** The result ([true] for 0), the buffer and [*len] after the call; a null
    [len] is [None]. *)
Definition xJsonStringifyTo (node : option node) (pretty : bool) (buf : option (list Z)) (len : option nat)
    : ub (bool * option (list Z) * option nat) :=
  match node, len with
  | Some n, Some cap =>
      w ← xjson_strify_impl_ pretty cap 0 n (Writer buf 0 false);
      let len := Some (w_pos w + 1) in
      if w_err w || bool_decide (cap <= w_pos w) then Some (false, w_buf w, len) else
      match w_buf w with
      | None => Some (true, None, len)
      | Some buf => buf ← mem_set buf (w_pos w) 0%Z; Some (true, Some buf, len)
      end
  | _, _ => Some (false, buf, len)
  end.

(** ** The text *)

Fixpoint sep_by (ts : list (list Z)) : list Z :=
  match ts with
  | [] => []
  | [t] => t
  | t :: ts => t ++ 44%Z :: sep_by ts
  end.

Definition newline (pretty : bool) (indent : nat) : list Z :=
  if pretty then 10%Z :: replicate (indent * 2) 32%Z else [].

Definition quoted (s : list Z) : list Z := QUOTE :: (s ≫= escape) ++ [QUOTE].

Fixpoint render (pretty : bool) (indent : nat) (n : node) : list Z :=
  match n with Node m v =>
  match v with
  | VNull => lit_null
  | VBool b => if (b =? 0)%Z then lit_false else lit_true
  | VInt z => print_lld z
  | VDouble d => default [] (double_text d)
  | VString s => quoted s
  | VArray [] => [91; 93]%Z
  | VArray children =>
      91%Z :: sep_by ((fun c => newline pretty (indent + 1) ++ render pretty (indent + 1) c) <$> children) ++
      newline pretty indent ++ [93%Z]
  | VObject [] => [123; 125]%Z
  | VObject children =>
      123%Z :: sep_by ((fun c => newline pretty (indent + 1) ++ quoted (default [] (m_key (meta c))) ++
                         58%Z :: (if pretty then [32%Z] else []) ++ render pretty (indent + 1) c) <$> children) ++
      newline pretty indent ++ [125%Z]
  end end.

(** What the serializer handles: doubles that fit [tmp], members with a key. *)
Definition has_key (n : node) : Prop := exists k, m_key (meta n) = Some k /\ m_key_len (meta n) = length k.

Inductive printable : node -> Prop :=
  | pr_null m : printable (Node m VNull)
  | pr_bool m b : printable (Node m (VBool b))
  | pr_int m z : printable (Node m (VInt z))
  | pr_double m d t : double_text d = Some t -> printable (Node m (VDouble d))
  | pr_string m s : printable (Node m (VString s))
  | pr_array m c : Forall printable c -> printable (Node m (VArray c))
  | pr_object m c : Forall printable c -> Forall has_key c -> printable (Node m (VObject c)).

(** ** What a run of writes leaves *)

(** The block holds [cap] bytes, and the cursor has not passed them unseen. *)
Definition fits (cap : nat) (w : writer) : Prop :=
  match w_buf w with
  | Some buf => cap <= length buf /\ (cap < w_pos w -> w_err w = true)
  | None => True
  end.

(** From [w] to [w'] the text [t] has been written, or has not fitted. *)
Definition wrote (cap : nat) (t : list Z) (w w' : writer) : Prop :=
  let pos := w_pos w + length t in
  match w_buf w with
  | None => w' = Writer None pos (w_err w)
  | Some buf =>
      if decide (pos <= cap)
      then exists buf', mem_write buf (w_pos w) t = Some buf' /\ w' = Writer (Some buf') pos (w_err w)
      else exists buf', length buf' = length buf /\ w' = Writer (Some buf') pos true
  end.

Definition writes (cap : nat) (t : list Z) (f : writer -> ub writer) : Prop :=
  forall w, fits cap w -> exists w', f w = Some w' /\ wrote cap t w w'.

Lemma wrote_fits cap t w w' : fits cap w -> wrote cap t w w' -> fits cap w'.
Proof.
  unfold fits, wrote. destruct (w_buf w) as [buf|]; [|by intros _ ->]. intros [Hc _]. case_decide.
  - intros (buf' & E & ->). apply mem_write_length in E. cbn. lia.
  - intros (buf' & E & ->). cbn. rewrite E. done.
Qed.

Lemma wrote_app cap t1 t2 w w1 w2 :
  fits cap w -> wrote cap t1 w w1 -> wrote cap t2 w1 w2 -> wrote cap (t1 ++ t2) w w2.
Proof.
  unfold fits, wrote. rewrite length_app. destruct (w_buf w) as [buf|].
  - intros [Hc _]. destruct (decide (w_pos w + length t1 <= cap)).
    + intros (b1 & E1 & ->). cbn [w_buf w_pos w_err]. rewrite mem_write_app, E1. cbn [mbind option_bind].
      replace (w_pos w + length t1 + length t2) with (w_pos w + (length t1 + length t2)) by lia.
      case_decide; [done|]. intros (b2 & ? & ->). exists b2. apply mem_write_length in E1. split; [congruence|done].
    + intros (b1 & E1 & ->). cbn [w_buf w_pos w_err]. rewrite !decide_False by lia.
      intros (b2 & ? & ->). exists b2. split; [congruence|]. f_equal. lia.
  - intros _ -> ->. cbn. f_equal. lia.
Qed.

Lemma writes_write cap t : writes cap t (xjson_write_ cap t).
Proof.
  intros w Hw. unfold xjson_write_, wrote, fits in *. destruct (w_buf w) as [buf|]; [|by eexists].
  destruct Hw as [Hc _]. case_decide; [|by eauto].
  replace (w_pos w + length t - length t) with (w_pos w) by lia.
  rewrite mem_write_Some by lia. cbn [mbind option_bind]. by eauto.
Qed.

Lemma writes_nil cap : writes cap [] Some.
Proof.
  intros w Hw. exists w. split; [done|]. unfold wrote, fits in *. cbn [length]. rewrite Nat.add_0_r.
  destruct w as [[buf|] pos err]; cbn in *; [|done]. destruct Hw as [Hc He].
  case_decide; [|exists buf; rewrite He by lia; done]. exists buf. by rewrite mem_write_nil by lia.
Qed.

Lemma writes_then cap t1 t2 f g : writes cap t1 f -> writes cap t2 g -> writes cap (t1 ++ t2) (fun w => w ← f w; g w).
Proof.
  intros Hf Hg w Hw. destruct (Hf w Hw) as (w1 & -> & H1).
  destruct (Hg w1 (wrote_fits _ _ _ _ Hw H1)) as (w2 & E2 & H2). cbn [mbind option_bind].
  exists w2. split; [done|]. by apply (wrote_app cap t1 t2 w w1 w2).
Qed.

Lemma writes_if cap (b : bool) t1 t2 f g :
  writes cap t1 f -> writes cap t2 g -> writes cap (if b then t1 else t2) (fun w => if b then f w else g w).
Proof. by destruct b. Qed.

Create HintDb writes.
#[local] Hint Resolve writes_write writes_nil writes_then writes_if : writes.

Lemma writes_spaces cap n : writes cap (replicate n 32%Z) (write_spaces cap n).
Proof.
  induction n as [|n IH]; [apply writes_nil|]. cbn [replicate write_spaces].
  apply (writes_then cap [32%Z]); [apply writes_write|exact IH].
Qed.

Lemma writes_newline cap (pretty : bool) indent :
  writes cap (newline pretty indent) (fun w => if pretty then xjson_write_indent_ cap indent w else Some w).
Proof.
  apply writes_if; [|apply writes_nil]. apply (writes_then cap [10%Z]); [apply writes_write|apply writes_spaces].
Qed.

Lemma writes_escaped cap s : writes cap (s ≫= escape) (stringify_loop cap s).
Proof.
  induction s as [|c s IH]; [apply writes_nil|]. rewrite bind_cons. cbn [stringify_loop].
  apply (writes_then cap (escape c)); [apply writes_write|exact IH].
Qed.

Lemma writes_str cap s len :
  len = length s -> writes cap (quoted s) (xjson_stringify_str_ cap (Some s) len).
Proof.
  intros ->. unfold quoted, xjson_stringify_str_.
  rewrite mem_read_Some by (rewrite length_app; cbn; lia). rewrite drop_0, take_app_length. cbn [mbind option_bind].
  apply (writes_then cap [QUOTE]); [apply writes_write|].
  apply writes_then; [apply writes_escaped|apply writes_write].
Qed.

Lemma writes_children {A} cap (item : A -> list Z) (f : A -> writer -> ub writer) (c : list A) (first : bool) :
  Forall (fun n => writes cap (item n) (f n)) c ->
  writes cap ((if first then [] else match c with [] => [] | _ => [44%Z] end) ++ sep_by (item <$> c)) (write_children cap f first c).
Proof.
  intros H. revert first. induction H as [|n c Hn Hc IH]; intros first; cbn [write_children].
  { destruct first; apply writes_nil. }
  rewrite fmap_cons.
  assert (sep_by (item n :: (item <$> c)) = item n ++ match c with [] => [] | _ => [44%Z] end ++ sep_by (item <$> c)) as ->.
  { destruct c; [|done]. cbn. by rewrite app_nil_r. }
  apply writes_then; [destruct first; [apply writes_nil|apply writes_write]|].
  apply writes_then; [exact Hn|apply (IH false)].
Qed.

(** The serializer writes the text of [render]. *)
Lemma writes_node cap pretty indent n :
  printable n -> writes cap (render pretty indent n) (xjson_strify_impl_ pretty cap indent n).
Proof.
  intros H. revert indent. induction n as [m|m b|m z|m d|m s|m c IH|m c IH] using node_ind; intros indent; cbn [render];
    inversion H; subst; try apply writes_write.
  - cbn [xjson_strify_impl_]. rewrite H1. cbn [default mbind option_bind]. apply writes_write.
  - cbn [xjson_strify_impl_]. by apply writes_str.
  - destruct c as [|n c]; [apply (writes_then cap [91%Z]); apply writes_write|].
    apply (writes_then cap [91%Z]); [apply writes_write|].
    apply writes_then; [|apply writes_then; [apply writes_newline|apply writes_write]].
    apply (writes_children cap _ _ (n :: c) true). eapply Forall_impl; [exact (proj2 (Forall_and _ _) (conj IH H1))|].
    intros x [Hx ?]. apply writes_then; [apply writes_newline|by apply Hx].
  - destruct c as [|n c]; [apply (writes_then cap [123%Z]); apply writes_write|].
    apply (writes_then cap [123%Z]); [apply writes_write|].
    apply writes_then; [|apply writes_then; [apply writes_newline|apply writes_write]].
    apply (writes_children cap _ _ (n :: c) true).
    eapply Forall_impl; [exact (proj2 (Forall_and _ _) (conj IH (proj2 (Forall_and _ _) (conj H2 H3))))|].
    intros x (Hx & ? & k & -> & Hk). cbn [default].
    apply writes_then; [apply writes_newline|]. apply writes_then; [by apply writes_str|].
    apply (writes_then cap [58%Z]); [apply writes_write|].
    apply writes_then; [apply writes_if; [apply writes_write|apply writes_nil]|by apply Hx].
Qed.

(** ** The whole functions *)

Lemma render_measured pretty n :
  printable n ->
  xjson_strify_impl_ pretty 0 0 n (Writer None 0 false) = Some (Writer None (length (render pretty 0 n)) false).
Proof. intros H. destruct (writes_node 0 pretty 0 n H (Writer None 0 false) I) as (w & -> & ->). done. Qed.

Lemma json_stringify_eq alloc junk n pretty :
  printable n -> (forall k, length (junk k) = k) ->
  xjson_stringify_alloc_ alloc junk (Some n) pretty =
    if alloc (Z.of_nat (length (render pretty 0 n) + 1)) then ok (render pretty 0 n ++ [0%Z]) else fail.
Proof.
  intros H Hj. unfold xjson_stringify_alloc_. rewrite render_measured by done. cbn [mbind option_bind w_err w_pos].
  destruct (alloc _); [|done]. cbn [negb].
  pose proof (writes_node (length (render pretty 0 n) + 1) pretty 0 n H
    (Writer (Some (junk (length (render pretty 0 n) + 1))) 0 false)) as (w & -> & Hw).
  { unfold fits. cbn. rewrite Hj. lia. }
  unfold wrote in Hw. cbn [w_buf w_pos w_err Nat.add] in Hw. rewrite decide_True in Hw by lia.
  destruct Hw as (buf & E & ->). cbn [mbind option_bind w_err w_buf w_pos].
  rewrite mem_write_Some in E by (rewrite Hj; lia). injection E as <-.
  rewrite mem_set_Some; cycle 1.
  { rewrite length_app, length_drop, Hj. lia. }
  cbn [mbind option_bind]. f_equal. f_equal. rewrite insert_app_r_alt, Nat.sub_diag by lia. f_equal.
  destruct (drop _ (junk _)) as [|x l] eqn:E; apply (f_equal length) in E; rewrite length_drop, Hj in E; cbn in E; [lia|].
  destruct l; [done|cbn in E; lia].
Qed.

(** C39: [xJsonStringifyTo] reports the bytes it needs in [*len] whatever the
    buffer, succeeds just when they fit, and then leaves the text with a NUL
    at the start of the buffer, the rest as it was. *)
Theorem json_stringify_to_spec n pretty buf cap :
  printable n -> cap <= length buf ->
  let t := render pretty 0 n in
  if decide (length t < cap)
  then xJsonStringifyTo (Some n) pretty (Some buf) (Some cap) =
         Some (true, Some (t ++ [0%Z] ++ drop (length t + 1) buf), Some (length t + 1))
  else exists buf', length buf' = length buf /\
         xJsonStringifyTo (Some n) pretty (Some buf) (Some cap) = Some (false, Some buf', Some (length t + 1)).
Proof.
  intros H Hc t. unfold xJsonStringifyTo.
  destruct (writes_node cap pretty 0 n H (Writer (Some buf) 0 false)) as (w & -> & Hw).
  { unfold fits. cbn. lia. }
  fold t in Hw. unfold wrote in Hw. cbn [w_buf w_pos w_err Nat.add] in Hw. cbn [mbind option_bind].
  destruct (decide (length t <= cap)).
  - destruct Hw as (buf' & E & ->). cbn [w_err w_buf w_pos orb]. rewrite bool_decide_decide.
    pose proof (mem_write_length _ _ _ _ E) as Hl. case_decide.
    + rewrite decide_False by lia. rewrite mem_set_Some by lia. cbn [mbind option_bind].
      rewrite mem_write_Some in E by (cbn; lia). injection E as <-.
      do 3 f_equal. rewrite insert_app_r_alt, Nat.sub_diag by lia. do 2 f_equal.
      assert (length (drop (length t) buf) = length buf - length t) as Hd by apply length_drop.
      destruct (drop (length t) buf) as [|x r] eqn:E; [cbn in Hd; lia|]. cbn [insert list_insert app]. f_equal.
      by rewrite <- drop_drop, E.
    + rewrite decide_True by lia. by exists buf'.
  - destruct Hw as (buf' & Hl & ->). rewrite decide_False by lia. by exists buf'.
Qed.

End print.

(** ** Doubles that are integers *)

(** Below [10^17] such a double prints as its digits. *)
#[export] Instance int_doubles : CDouble Z := {| strtod := strtoll; fmt_17g := print_lld |}.

Lemma json_stringify_to_spec_witness :
  let n : xJson_ Z := Node (Meta false false None 0) (VArray [Node (Meta true false None 0) (VInt 5%Z)]) in
  printable n /\
  xJsonStringifyTo (Some n) false (Some [1; 2; 3; 4; 5; 6]%Z) (Some 4) = Some (true, Some [91; 53; 93; 0; 5; 6]%Z, Some 4) /\
  exists buf, length buf = 3 /\ xJsonStringifyTo (Some n) false (Some [1; 2; 3]%Z) (Some 3) = Some (false, Some buf, Some 4).
Proof.
  intros n. assert (printable n) as Hn by (repeat constructor). split; [exact Hn|]. split.
  - refine (eq_trans (json_stringify_to_spec n false [1; 2; 3; 4; 5; 6]%Z 4 Hn _) _); [cbn; lia|reflexivity].
  - exact (json_stringify_to_spec n false [1; 2; 3]%Z 3 Hn ltac:(cbn; lia)).
Defined.
