(* ===== verification/JsonText.v ===== *)
(** * JsonText: what the tokenizer reads back from the serializer

    Each kind of token the serializer writes is read back by the tokenizer,
    with the cursor right behind it. *)

From S2P Require Import Prelude Decimal Arena JsonTok Json JsonPrint.

(** ** Whitespace and literals *)

Abbreviation all_ws := (Forall (fun c => is_ws c = true)).

Lemma skip_ws_app ws t : all_ws ws -> xjson_tok_skip_ws (ws ++ t) = xjson_tok_skip_ws t.
Proof. induction 1 as [|c ws Hc Hws IH]; [done|]. cbn [app xjson_tok_skip_ws]. by rewrite Hc. Qed.

Lemma skip_ws_stop c t : is_ws c = false -> xjson_tok_skip_ws (c :: t) = c :: t.
Proof. intros H. cbn. by rewrite H. Qed.

Lemma newline_ws pretty indent : all_ws (newline pretty indent).
Proof. destruct pretty; [|done]. constructor; [done|]. by apply Forall_replicate. Qed.

Lemma match_skip ws t lit : all_ws ws -> xjson_tok_match (ws ++ t) lit = xjson_tok_match t lit.
Proof. intros H. unfold xjson_tok_match. by rewrite skip_ws_app. Qed.

Lemma match_lit c lit t :
  is_ws c = false -> xjson_tok_match ((c :: lit) ++ t) (c :: lit) = (true, t).
Proof.
  intros H. unfold xjson_tok_match. cbn [app]. rewrite skip_ws_stop by done.
  change (c :: lit ++ t) with ((c :: lit) ++ t). rewrite length_app, decide_False by lia.
  rewrite take_app_length, decide_False by (by intros []). by rewrite drop_app_length.
Qed.

Lemma match_other c d t : is_ws c = false -> c <> d -> xjson_tok_match (c :: t) [d] = (false, c :: t).
Proof.
  intros H Hc. unfold xjson_tok_match. rewrite skip_ws_stop by done. cbn [length take].
  rewrite decide_False by lia. rewrite decide_True by congruence. done.
Qed.

(** ** Strings *)

(** A byte is written as itself or as a backslash, a letter and more. *)
Lemma escape_shape c :
  byte_ok c ->
  (escape c = [c] /\ (c =? QUOTE)%Z = false /\ (c =? BACKSLASH)%Z = false) \/
  (exists e more, escape c = BACKSLASH :: e :: more /\
     Forall (fun x => (x =? QUOTE)%Z = false /\ (x =? BACKSLASH)%Z = false) more).
Proof.
  intros Hc. unfold escape. destruct (c =? QUOTE)%Z eqn:E1; [right; by eexists _, []|].
  destruct (c =? BACKSLASH)%Z eqn:E2; [right; by eexists _, []|].
  repeat (case_match; [right; by eexists _, []|]).
  destruct (Z.ltb_spec c 0x20); [|by left]. right. eexists _, _. split; [reflexivity|].
  assert (forallb (fun x => negb (x =? QUOTE)%Z && negb (x =? BACKSLASH)%Z) (hex4 c) = true) as F.
  { apply (range_exhaust 32 (fun c => forallb (fun x => negb (x =? QUOTE)%Z && negb (x =? BACKSLASH)%Z) (hex4 c)));
      [vm_compute; reflexivity|]. unfold byte_ok in Hc. lia. }
  rewrite Forall_forall. intros x Hx. rewrite forallb_forall in F.
  specialize (F x (proj1 (list_elem_of_In _ _) Hx)). apply andb_true_iff in F as [F1 F2].
  by rewrite negb_true_iff in F1, F2.
Qed.

Lemma length_escape c : 0 < length (escape c).
Proof. unfold escape. repeat case_match; cbn; lia. Qed.

Lemma find_close_plain more t n b :
  Forall (fun x => (x =? QUOTE)%Z = false /\ (x =? BACKSLASH)%Z = false) more ->
  find_close (more ++ t) n b = find_close t (n + length more) b.
Proof.
  intros H. revert n. induction H as [|x more [Hq Hb] H IH]; intros n; cbn [app find_close length].
  { by rewrite Nat.add_0_r. }
  rewrite Hq, Hb, IH. f_equal. lia.
Qed.

(** The first pass finds the end of an escaped string; without an escape the
    string is its own text. *)
Lemma find_close_escaped s t n b :
  bytes_ok s ->
  exists b', find_close ((s ≫= escape) ++ QUOTE :: t) n b = Some (n + length (s ≫= escape), b', t) /\
    (b' = false -> b = false /\ s ≫= escape = s).
Proof.
  intros H. revert n b. induction H as [|c s Hc Hs IH]; intros n b.
  { exists b. cbn. by rewrite Nat.add_0_r. }
  rewrite bind_cons, <- app_assoc, length_app.
  destruct (escape_shape c Hc) as [(E & Hq & Hb)|(e & more & E & Hm)]; rewrite E.
  - cbn [app find_close]. rewrite Hq, Hb. destruct (IH (S n) b) as (b' & -> & Hb'). exists b'.
    split; [do 3 f_equal; cbn; lia|]. intros ->. destruct (Hb' eq_refl) as [-> ->]. done.
  - cbn [app find_close]. change (BACKSLASH =? QUOTE)%Z with false. rewrite Z.eqb_refl. cbn beta iota.
    rewrite find_close_plain by done. destruct (IH (S (S n) + length more) true) as (b' & -> & Hb'). exists b'.
    split; [do 3 f_equal; cbn; lia|]. intros ->. by destruct (Hb' eq_refl).
Qed.

(** The second pass undoes each escape. *)
Lemma unescape_escape c s dst : byte_ok c -> unescape (escape c ++ s) dst = (dst ← put dst c; unescape s dst).
Proof.
  intros Hc. unfold escape.
  destruct (Z.eqb_spec c QUOTE) as [->|]; [reflexivity|].
  destruct (Z.eqb_spec c BACKSLASH) as [->|]; [reflexivity|].
  repeat match goal with |- context [(c =? ?k)%Z] => destruct (Z.eqb_spec c k) as [->|]; [reflexivity|] end.
  destruct (Z.ltb_spec c 0x20).
  - assert (codepoint_of (hex4 c) = Some c /\ utf8_of c = [c]) as [E1 E2].
    { unfold byte_ok in Hc.
      assert (forallb (fun c => bool_decide (codepoint_of (hex4 c) = Some c /\ utf8_of c = [c])) (seqZ 0 32) = true) as F
        by (vm_compute; reflexivity).
      pose proof (range_exhaust 32 _ F c ltac:(lia)) as F'. by apply bool_decide_eq_true in F'. }
    unfold hex4 in *. cbn [app unescape] in *. change (BACKSLASH =? QUOTE)%Z with false.
    change (BACKSLASH =? BACKSLASH)%Z with true. cbn [negb].
    change (simple_escape 117) with (@None Z). change (117 =? 117)%Z with true. cbn beta iota.
    rewrite E1, E2. cbn [puts]. by destruct (put dst c).
  - cbn [app unescape]. by rewrite (proj2 (Z.eqb_neq c QUOTE)), (proj2 (Z.eqb_neq c BACKSLASH)) by done.
Qed.

Lemma unescape_escaped s dst : bytes_ok s -> unescape ((s ≫= escape) ++ [QUOTE]) dst = lift (puts dst s).
Proof.
  intros H. revert dst. induction H as [|c s Hc Hs IH]; intros dst; [reflexivity|].
  rewrite bind_cons, <- app_assoc, unescape_escape by done. cbn [puts].
  destruct (put dst c) as [dst'|]; [|done]. cbn [mbind option_bind]. apply IH.
Qed.

Lemma length_le_escaped (s : list Z) : length s <= length (s ≫= escape).
Proof.
  induction s as [|c s IH]; [cbn; lia|]. rewrite bind_cons, length_app. pose proof (length_escape c). cbn. lia.
Qed.

Definition alloc1 (a : xArena) (size : Z) : option xArena := snd <$> xArenaAlloc a size.

(** What a string of the text asks of the arena: its escaped length and a NUL. *)
Definition string_need (s : list Z) : Z := Z.of_nat (length (s ≫= escape)) + 1.

Lemma tok_string_quoted s t a :
  bytes_ok s ->
  xjson_tok_string (quoted s ++ t) a =
    match alloc1 a (string_need s) with Some a => ok (s, t, a) | None => fail end.
Proof.
  intros Hs. unfold xjson_tok_string, quoted, alloc1, string_need. cbn [app]. rewrite Z.eqb_refl. cbn [negb].
  rewrite <- app_assoc. cbn [app]. destruct (find_close_escaped s t 0 false Hs) as (b & -> & Hb).
  cbn [Nat.add]. destruct (xArenaAlloc a _) as [[p a']|]; [|done]. cbn [fmap option_fmap option_map snd].
  destruct b; cbn [negb].
  - rewrite mem_read_Some by (rewrite length_app; cbn; lia). rewrite drop_0. cbn [mbind option_bind].
    replace (take (length (s ≫= escape) + 1) ((s ≫= escape) ++ QUOTE :: t)) with ((s ≫= escape) ++ [QUOTE]).
    2:{ rewrite take_app_add'; [|done]. done. }
    rewrite unescape_escaped by done. pose proof (length_le_escaped s).
    rewrite puts_block by (rewrite length_replicate; lia). rewrite lift_Some, fbind_ok.
    unfold block_with. rewrite mem_set_Some by (rewrite length_app, length_drop, length_replicate; lia).
    cbn [mbind option_bind]. f_equal. f_equal. f_equal. f_equal.
    rewrite take_insert_ge by lia. by rewrite take_app_length.
  - destruct (Hb eq_refl) as [_ ->]. rewrite mem_read_Some by (rewrite length_app; cbn; lia).
    rewrite drop_0, take_app_length. cbn [mbind option_bind].
    rewrite mem_write_Some by (rewrite length_replicate; lia). cbn [mbind option_bind].
    rewrite mem_set_Some by (rewrite !length_app, length_drop, length_replicate, length_take; lia).
    cbn [mbind option_bind]. f_equal. f_equal. f_equal. f_equal.
    rewrite take_insert_ge by lia. rewrite take_0. cbn [app]. by rewrite take_app_length.
Qed.

(** ** Numbers *)

Abbreviation all_digits := (Forall (fun c => 48 <= c <= 57)%Z).

(** A byte that cannot continue a number. *)
Definition number_stop (c : Z) : bool :=
  negb (is_digit c || (c =? 46)%Z || (c =? 101)%Z || (c =? 69)%Z).

(** What follows a number in the text, the end of the text included. *)
Definition stops (t : list Z) : Prop := match t with c :: _ => number_stop c = true | [] => True end.

(** What follows in memory. *)
Definition ended (t : list Z) : Prop := exists c t', t = c :: t' /\ number_stop c = true.

Definition digits1 (ds : list Z) : Prop := ds <> [] /\ all_digits ds.

(** The grammar of numbers, with whether it is floating point. *)
Inductive number_shape : list Z -> bool -> Prop :=
  Number_shape sign ds fr ex :
    (sign = [] \/ sign = [45%Z]) ->
    all_digits ds -> (exists d ds', ds = d :: ds' /\ (d = 48%Z -> ds' = [])) ->
    (fr = [] \/ exists fs, fr = 46%Z :: fs /\ digits1 fs) ->
    (ex = [] \/ exists e s xs, ex = e :: s ++ xs /\ (e = 101%Z \/ e = 69%Z) /\
                 (s = [] \/ s = [43%Z] \/ s = [45%Z]) /\ digits1 xs) ->
    number_shape (sign ++ ds ++ fr ++ ex) (negb (bool_decide (fr = [] /\ ex = []))).

Lemma number_stop_spec c :
  number_stop c = true -> is_digit c = false /\ (c =? 46)%Z = false /\ (c =? 101)%Z = false /\ (c =? 69)%Z = false.
Proof. unfold number_stop. rewrite negb_true_iff, !orb_false_iff. tauto. Qed.

Lemma all_digits_spec c : (48 <= c <= 57)%Z -> is_digit c = true.
Proof. by rewrite is_digit_spec. Qed.

Lemma skip_digits_app ds t :
  all_digits ds -> match t with c :: _ => is_digit c = false | [] => True end -> skip_digits (ds ++ t) = t.
Proof.
  intros H Ht. induction H as [|d ds Hd Hds IH]; cbn [app skip_digits].
  - destruct t; [done|]. cbn [skip_digits]. by rewrite Ht.
  - by rewrite all_digits_spec.
Qed.

Lemma some_digits_app ds t :
  digits1 ds -> match t with c :: _ => is_digit c = false | [] => True end -> some_digits (ds ++ t) = Some t.
Proof.
  intros [Hne H] Ht. destruct ds as [|d ds]; [done|]. cbn [app some_digits].
  rewrite all_digits_spec by (by apply Forall_inv in H).
  change (d :: ds ++ t) with ((d :: ds) ++ t). by rewrite skip_digits_app.
Qed.

Lemma number_exp_app ex t :
  (ex = [] \/ exists e s xs, ex = e :: s ++ xs /\ (e = 101%Z \/ e = 69%Z) /\
               (s = [] \/ s = [43%Z] \/ s = [45%Z]) /\ digits1 xs) ->
  stops t -> number_exp (ex ++ t) = Some (negb (bool_decide (ex = [])), t).
Proof.
  intros Hex Ht. assert (match t with c :: _ => is_digit c = false | [] => True end) as Hd.
  { destruct t; [done|]. by apply number_stop_spec in Ht as (? & _). }
  destruct Hex as [-> | (e & s & xs & -> & He & Hs & Hxs)].
  - destruct t as [|c t]; [done|]. cbn [app number_exp]. apply number_stop_spec in Ht as (_ & _ & H1 & H2).
    by rewrite H1, H2.
  - cbn [app number_exp].
    assert ((e =? 101)%Z || (e =? 69)%Z = true) as -> by (destruct He as [-> | ->]; reflexivity).
    assert (skip_sign ((s ++ xs) ++ t) = xs ++ t) as ->.
    { destruct Hs as [-> | [-> | ->]]; [|reflexivity..]. destruct Hxs as [Hne Hxs]. destruct xs as [|x xs]; [done|].
      apply Forall_inv in Hxs. cbn [app skip_sign].
      by rewrite (proj2 (Z.eqb_neq x 43)), (proj2 (Z.eqb_neq x 45)) by lia. }
    rewrite some_digits_app by done. done.
Qed.

Lemma number_frac_app fr t :
  (fr = [] \/ exists fs, fr = 46%Z :: fs /\ digits1 fs) ->
  match t with c :: _ => is_digit c = false /\ (c =? 46)%Z = false | [] => True end ->
  number_frac (fr ++ t) = Some (negb (bool_decide (fr = [])), t).
Proof.
  intros [-> | (fs & -> & Hfs)] Ht.
  - destruct t as [|c t]; [done|]. cbn [app number_frac]. by destruct Ht as [_ ->].
  - cbn [app number_frac]. change (46 =? 46)%Z with true. cbn beta iota. rewrite some_digits_app; [done..|].
    destruct t; [done|]. tauto.
Qed.

(** A number is scanned up to the byte that cannot continue it. *)
Lemma number_scan_app u b t : number_shape u b -> stops t -> number_scan (u ++ t) = Some (b, t).
Proof.
  intros [sign ds fr ex Hsign Hds (d & ds' & -> & H0) Hfr Hex] Ht. rewrite <- !app_assoc.
  pose proof (Forall_inv Hds) as Hd. cbv beta in Hd.
  assert (match ex ++ t with c :: _ => is_digit c = false /\ (c =? 46)%Z = false | [] => True end) as Hx.
  { destruct Hex as [-> | (e & s & xs & -> & He & _)]; [|by destruct He as [-> | ->]].
    destruct t; [done|]. apply number_stop_spec in Ht as (? & ? & _). done. }
  assert (match fr ++ ex ++ t with c :: _ => is_digit c = false | [] => True end) as Hf.
  { destruct Hfr as [-> | (fs & -> & _)]; [|done]. cbn [app]. destruct (ex ++ t); [done|]. tauto. }
  assert (number_scan (sign ++ (d :: ds') ++ fr ++ ex ++ t) = number_scan ((d :: ds') ++ fr ++ ex ++ t)) as ->.
  { destruct Hsign as [-> | ->]; [done|]. cbn [app]. unfold number_scan at 1 2.
    change (45 =? 45)%Z with true. by rewrite (proj2 (Z.eqb_neq d 45)) by lia. }
  cbn [app]. unfold number_scan. rewrite (proj2 (Z.eqb_neq d 45)), all_digits_spec by lia. cbn [negb].
  assert ((d =? 48)%Z && match ds' ++ fr ++ ex ++ t with d :: _ => is_digit d | [] => false end = false) as ->.
  { destruct (Z.eqb_spec d 48); [|done]. rewrite H0 by done. cbn [app andb]. by destruct (fr ++ ex ++ t). }
  change (d :: ds' ++ fr ++ ex ++ t) with ((d :: ds') ++ fr ++ ex ++ t).
  rewrite skip_digits_app by done. rewrite number_frac_app by done. cbn [mbind option_bind].
  rewrite number_exp_app by done. cbn [mbind option_bind]. f_equal. f_equal.
  repeat case_bool_decide; cbn; tauto.
Qed.

Lemma print_lld_number z : int64_ok z -> number_shape (print_lld z) false.
Proof.
  intros Hz. destruct (print_lld_shape z Hz) as (sign & ds & -> & Hs & Hds & Hf & _).
  rewrite <- (app_nil_r ds). apply (Number_shape sign ds [] []); by auto.
Qed.

(** [%.17g] prints a number, in fewer bytes than [tmp] has, that [strtod]
    reads back as the same double (17 digits tell all doubles apart). *)
Class CDoubleLaws (D : Type) `{!CDouble D} (finite : D -> Prop) := {
  fmt_17g_number d : finite d -> exists b, number_shape (fmt_17g d) b;
  fmt_17g_length d : finite d -> length (fmt_17g d) <= 24;
  strtod_fmt d c t rest : finite d -> double_text d = Some t -> number_stop c = true -> strtod (t ++ c :: rest) = Some d;
}.

Section numbers.
Context {D : Type} `{!CDouble D}.

(** A number without a point or an exponent is told from the rest by its bytes. *)
Lemma existsb_point u b :
  number_shape u b -> existsb (fun c => (c =? 46)%Z || (c =? 101)%Z || (c =? 69)%Z) u = b.
Proof.
  intros [sign ds fr ex Hsign Hds _ Hfr Hex]. rewrite !existsb_app.
  assert (forall l, all_digits l -> existsb (fun c => (c =? 46)%Z || (c =? 101)%Z || (c =? 69)%Z) l = false) as Hno.
  { induction 1 as [|c l Hc Hl IH]; [done|]. cbn [existsb]. rewrite IH.
    by rewrite !(proj2 (Z.eqb_neq _ _)) by lia. }
  rewrite (Hno ds) by done.
  assert (existsb (fun c => (c =? 46)%Z || (c =? 101)%Z || (c =? 69)%Z) sign = false) as -> by (by destruct Hsign as [-> | ->]).
  cbn [orb].
  destruct Hfr as [-> | (fs & -> & _)]; [|by rewrite bool_decide_false by (by intros [? _])].
  destruct Hex as [-> | (e & s & xs & -> & He & _)]; [done|]. rewrite bool_decide_false by (by intros [_ ?]).
  by destruct He as [-> | ->].
Qed.

Lemma double_text_number `{!CDoubleLaws D finite} d :
  finite d -> exists t, double_text d = Some t /\ number_shape t true.
Proof.
  intros Hf. destruct (fmt_17g_number d Hf) as [b Hb]. pose proof (fmt_17g_length d Hf) as Hl.
  unfold double_text. rewrite decide_False by lia. rewrite (existsb_point _ b) by done.
  destruct b; [by eexists|]. rewrite decide_False by lia. eexists. split; [reflexivity|].
  inversion Hb as [sign ds fr ex Hsign Hds Hd Hfr Hex Eu Eb].
  apply negb_false_iff, bool_decide_eq_true in Eb as [-> ->]. rewrite !app_nil_r, <- app_assoc.
  rewrite <- (app_nil_r [46; 48]%Z). apply (Number_shape sign ds [46; 48]%Z []); try by auto.
  right. exists [48%Z]. split; [done|]. split; [done|]. by repeat constructor.
Qed.

Lemma tok_number_int after z t :
  int64_ok z -> stops t -> ended (t ++ after) ->
  xjson_tok_number after (print_lld z ++ t) = ok (NumInt z : token_number D, t).
Proof.
  intros Hz Ht (c & r & E & Hc). unfold xjson_tok_number.
  rewrite (number_scan_app _ false) by (done || by apply print_lld_number).
  rewrite <- app_assoc, E, strtoll_print; [done..|]. by apply number_stop_spec in Hc as (? & _).
Qed.

Lemma tok_number_double `{!CDoubleLaws D finite} after d u t :
  finite d -> double_text d = Some u -> stops t -> ended (t ++ after) ->
  xjson_tok_number after (u ++ t) = ok (NumDouble d, t).
Proof.
  intros Hf Eu Ht (c & r & E & Hc). destruct (double_text_number d Hf) as (u' & Eu' & Hu).
  rewrite Eu in Eu'. injection Eu' as <-. unfold xjson_tok_number. rewrite (number_scan_app _ true) by done.
  by rewrite <- app_assoc, E, (strtod_fmt d c u r).
Qed.

End numbers.
