(* ===== verification/JsonRound.v ===== *)
(** * JsonRound: parsing what the serializer wrote

    The outcome of [xJsonParse] on a serialized document is computed exactly:
    the document again when the arena holds it, null otherwise; and null for
    the pretty form of a document with an object of two or more members. *)

From S2P Require Import Prelude Decimal Arena JsonTok Json JsonPrint JsonText.

(** The requests to the arena, in order, with the default alignment. *)
Fixpoint alloc_seq (a : xArena) (sizes : list Z) : option xArena :=
  match sizes with
  | [] => Some a
  | size :: sizes => a ← alloc1 a size; alloc_seq a sizes
  end.

Lemma alloc_seq_app a l1 l2 : alloc_seq a (l1 ++ l2) = (a ← alloc_seq a l1; alloc_seq a l2).
Proof.
  revert a. induction l1 as [|s l1 IH]; intros a; [done|]. cbn [app alloc_seq].
  destruct (alloc1 a s); [|done]. apply IH.
Qed.

Lemma alloc_seq_one a size : alloc_seq a [size] = alloc1 a size.
Proof. cbn. by destruct (alloc1 a size). Qed.

Section round.
Context {D : Type} `{!CDouble D}.

Abbreviation node := (xJson_ D).

(** ** Documents *)

Definition key_ok (n : node) : Prop :=
  exists k, m_key (meta n) = Some k /\ m_key_len (meta n) = length k /\ bytes_ok k.

Inductive document (finite : D -> Prop) : node -> Prop :=
  | doc_null m : document finite (Node m VNull)
  | doc_bool m b : b = 0%Z \/ b = 1%Z -> document finite (Node m (VBool b))
  | doc_int m z : int64_ok z -> document finite (Node m (VInt z))
  | doc_double m d : finite d -> document finite (Node m (VDouble d))
  | doc_string m s : bytes_ok s -> document finite (Node m (VString s))
  | doc_array m c : Forall (document finite) c -> document finite (Node m (VArray c))
  | doc_object m c : Forall (document finite) c -> Forall key_ok c -> document finite (Node m (VObject c)).

(** The node the parser makes of a document: fresh, from an arena; children
    are owned, members have their key. *)
Fixpoint parsed (n : node) : node :=
  match n with Node _ v =>
    Node (Meta false true None 0)
      (match v with
       | VArray c => VArray ((fun x => set_owned (parsed x)) <$> c)
       | VObject c => VObject ((fun x => set_key (m_key (meta x)) (m_key_len (meta x)) (set_owned (parsed x))) <$> c)
       | _ => v
       end)
  end.

Definition key_need (n : node) : Z := string_need (default [] (m_key (meta n))).

(** The requests the parser makes for it. *)
Fixpoint need (n : node) : list Z :=
  match n with Node _ v =>
    match v with
    | VString s => [string_need s; SIZEOF_XJSON]
    | VArray c => SIZEOF_XJSON :: (c ≫= need)
    | VObject c => SIZEOF_XJSON :: (c ≫= fun x => key_need x :: need x)
    | _ => [SIZEOF_XJSON]
    end
  end.

(** Whether some object has two members or more. *)
Fixpoint multi (n : node) : bool :=
  match n with Node _ v =>
    match v with
    | VArray c => existsb multi c
    | VObject c => (2 <=? length c) || existsb multi c
    | _ => false
    end
  end.

Lemma document_printable `{!CDoubleLaws D finite} n : document finite n -> printable n.
Proof.
  induction n as [m|m b|m z|m d|m s|m c IH|m c IH] using node_ind; intros H; inversion H as [| | |? ? Hf| |? ? Hc|? ? Hc Hk]; subst.
  - constructor.
  - constructor.
  - constructor.
  - destruct (double_text_number d Hf) as (t & Ht & _). by econstructor.
  - constructor.
  - constructor. eapply Forall_impl; [exact (proj2 (Forall_and _ _) (conj IH Hc))|]. intros x [? ?]; auto.
  - constructor.
    + eapply Forall_impl; [exact (proj2 (Forall_and _ _) (conj IH Hc))|]. intros x [? ?]; auto.
    + eapply Forall_impl; [exact Hk|]. intros x (k & ? & ? & _). by exists k.
Qed.

(** ** One value *)

(** The outcome of reading a text: rejected, or read when the arena grants the
    requests. *)
Definition outcome {A} (rejected : bool) (a : xArena) (sizes : list Z) (r : A) (t : list Z)
    : fallible (A * (list Z * xArena)) :=
  if rejected then fail else
  match alloc_seq a sizes with Some a => ok (r, (t, a)) | None => fail end.

Section binds.
Context {B : Type} (rejected' : bool) (sizes' : list Z) (r' : B) (t' : list Z).

Lemma outcome_bind {A} rejected a sizes (r : A) t (k : A * (list Z * xArena) -> fallible (B * (list Z * xArena))) :
  (rejected = true -> rejected' = true) ->
  (rejected = false -> forall a', k (r, (t, a')) = outcome rejected' a' sizes' r' t') ->
  fbind k (outcome rejected a sizes r t) = outcome rejected' a (sizes ++ sizes') r' t'.
Proof.
  intros H1 H2. unfold outcome at 1. destruct rejected; [unfold outcome; by rewrite H1|].
  specialize (H2 eq_refl). unfold outcome in *. rewrite alloc_seq_app.
  destruct (alloc_seq a sizes) as [a'|]; [by rewrite fbind_ok|]. by destruct rejected'.
Qed.

Lemma tok_string_bind s t a (k : list Z * list Z * xArena -> fallible (B * (list Z * xArena))) :
  bytes_ok s -> (forall a', k (s, t, a') = outcome rejected' a' sizes' r' t') ->
  fbind k (xjson_tok_string (quoted s ++ t) a) = outcome rejected' a (string_need s :: sizes') r' t'.
Proof.
  intros Hs Hk. rewrite tok_string_quoted by done. unfold outcome in *. cbn [alloc_seq].
  destruct (alloc1 a (string_need s)) as [a'|]; [by rewrite fbind_ok|]. by destruct rejected'.
Qed.

Lemma new_node_bind v a (k : node * xArena -> fallible (B * (list Z * xArena))) :
  (forall a', k (Node (Meta false true None 0) v, a') = outcome rejected' a' sizes' r' t') ->
  fbind k (xjson_p_new_node_ a v) = outcome rejected' a (SIZEOF_XJSON :: sizes') r' t'.
Proof.
  intros Hk. unfold xjson_p_new_node_, outcome in *. cbn [alloc_seq]. unfold alloc1.
  destruct (xArenaAlloc a SIZEOF_XJSON) as [[p a']|]; cbn; [apply Hk|]. by destruct rejected'.
Qed.

End binds.

Lemma outcome_nil {A} a (r : A) t : outcome false a [] r t = ok (r, (t, a)).
Proof. done. Qed.

(** Leading whitespace does not matter. *)
Lemma value_ws_skip fuel after ws t a :
  all_ws ws -> xjson_p_value_ (D := D) fuel after (ws ++ t, a) = xjson_p_value_ fuel after (t, a).
Proof. intros H. destruct fuel; [done|]. cbn [xjson_p_value_ fst snd]. by rewrite skip_ws_app. Qed.

(** A number goes to the number branch. *)
Lemma number_first u b :
  number_shape u b ->
  exists c u', u = c :: u' /\ is_ws c = false /\ (c =? 45)%Z || is_digit c = true /\
    Forall (fun k => (c =? k)%Z = false) [QUOTE; 123; 91; 116; 102; 110]%Z.
Proof.
  intros [sign ds fr ex [-> | ->] Hds (d & ds' & -> & _) _ _]; [|by exists 45%Z, ((d :: ds') ++ fr ++ ex); repeat constructor].
  exists d, (ds' ++ fr ++ ex). apply Forall_inv in Hds. cbv beta in Hds. split; [done|].
  unfold is_ws, QUOTE. rewrite !(proj2 (Z.eqb_neq d _)) by lia. rewrite all_digits_spec by lia.
  split; [done|]. split; [done|]. repeat constructor; apply Z.eqb_neq; lia.
Qed.

Lemma value_number fuel after u b t a :
  number_shape u b -> xjson_p_value_ (D := D) (S fuel) after (u ++ t, a) = xjson_p_number_ after (u ++ t, a).
Proof.
  intros Hu. destruct (number_first u b Hu) as (c & u' & -> & Hw & Hc & F). cbn [app xjson_p_value_ fst snd].
  rewrite skip_ws_stop by done. rewrite !Forall_cons in F. destruct F as (-> & -> & -> & -> & -> & -> & _).
  by rewrite Hc.
Qed.

Lemma literal_read lit v c t a :
  lit = c :: tail lit -> is_ws c = false ->
  xjson_p_literal lit v (lit ++ t, a) = outcome false a [SIZEOF_XJSON] (Node (Meta false true None 0) v : node) t.
Proof.
  intros Hl Hc. unfold xjson_p_literal. cbn [fst snd]. rewrite Hl, match_lit by done.
  by apply (new_node_bind false []).
Qed.

(** ** Children *)

Context {finite : D -> Prop} `{!CDoubleLaws D finite} (after : list Z).

Definition value_read (pretty : bool) (n : node) : Prop :=
  forall indent fuel t a,
    stops t -> ended (t ++ after) -> 2 * length (render pretty indent n) < fuel ->
    xjson_p_value_ fuel after (render pretty indent n ++ t, a) = outcome (pretty && multi n) a (need n) (parsed n) t.

Lemma sep_by_cons t ts : ts <> [] -> sep_by (t :: ts) = t ++ 44%Z :: sep_by ts.
Proof. by destruct ts. Qed.

Definition element (pretty : bool) (indent : nat) (x : node) : list Z :=
  newline pretty indent ++ render pretty indent x.

Definition member (pretty : bool) (indent : nat) (x : node) : list Z :=
  newline pretty indent ++ quoted (default [] (m_key (meta x))) ++
  58%Z :: (if pretty then [32%Z] else []) ++ render pretty indent x.

Lemma newline_stops pretty indent c t : number_stop c = true -> stops (newline pretty indent ++ c :: t).
Proof. by destruct pretty. Qed.

Lemma newline_ended pretty indent c t : number_stop c = true -> ended ((newline pretty indent ++ c :: t) ++ after).
Proof. intros H. destruct pretty; eexists _, _; split; [reflexivity|done|reflexivity|done]. Qed.

Lemma match_char c t : is_ws c = false -> xjson_tok_match (c :: t) [c] = (true, t).
Proof. apply (match_lit c []). Qed.

(** The two ways a child ends: the closing bracket or a comma. *)
Lemma match_close pretty indent c t :
  is_ws c = false -> xjson_tok_match (newline pretty indent ++ c :: t) [c] = (true, t).
Proof. intros H. rewrite match_skip by apply newline_ws. by apply (match_lit c []). Qed.

Lemma array_read pretty indent c :
  c <> [] -> Forall (value_read pretty) c ->
  forall acc fuel t a, 2 * length (sep_by (element pretty (indent + 1) <$> c)) + 1 < fuel ->
    xjson_p_array_ fuel after acc (sep_by (element pretty (indent + 1) <$> c) ++ newline pretty indent ++ 93%Z :: t, a) =
    outcome (pretty && existsb multi c) a (c ≫= need) (acc ++ ((fun x => set_owned (parsed x)) <$> c)) t.
Proof.
  intros Hne H. induction H as [|x c Hx Hc IH]; [done|]. intros acc fuel t a Hf.
  destruct fuel as [|fuel]; [lia|]. cbn [xjson_p_array_]. rewrite fmap_cons in Hf |- *. rewrite bind_cons. cbn [existsb].
  destruct c as [|y c].
  - cbn [fmap list_fmap sep_by] in Hf |- *. unfold element in *. rewrite <- app_assoc, length_app in *.
    rewrite value_ws_skip by apply newline_ws. rewrite Hx; [|by apply newline_stops|by apply newline_ended|lia].
    cbn [mbind list_bind]. rewrite orb_false_r. apply outcome_bind; [done|]. intros -> a'. cbn [fst snd].
    rewrite match_close by done. done.
  - rewrite sep_by_cons in Hf |- * by done. rewrite length_app in Hf. cbn [length] in Hf. unfold element at 1 in Hf. unfold element at 1.
    rewrite length_app in Hf. rewrite <- !app_assoc. rewrite value_ws_skip by apply newline_ws.
    rewrite Hx; [|done|by eexists _, _|lia]. cbn [app].
    apply outcome_bind; [by intros [-> ->]%andb_true_iff|]. intros Hm a'. cbn [fst snd].
    rewrite match_other, (match_char 44%Z) by done. cbn [fst snd].
    rewrite IH by (done || lia). rewrite (fmap_cons _ x), <- app_assoc. f_equal.
    apply andb_false_iff in Hm as [-> | ->]; done.
Qed.

(** A key is not looked for behind whitespace, except for the first one. *)
Lemma string_needs_quote c t a : (c =? QUOTE)%Z = false -> xjson_tok_string (c :: t) a = fail.
Proof. intros H. unfold xjson_tok_string. by rewrite H. Qed.

(** One turn of the loop over members. *)
Lemma object_unfold fuel acc cur a :
  xjson_p_object_ (D := D) (S fuel) after acc (cur, a) =
    '(key, cur, a) ⇐ xjson_tok_string cur a;
    match xjson_tok_match cur [58%Z] with
    | (false, _) => fail
    | (true, cur) =>
        '(val, s) ⇐ xjson_p_value_ fuel after (cur, a);
        let children := acc ++ [set_key (Some key) (length key) (set_owned val)] in
        match xjson_tok_match s.1 [125%Z] with
        | (true, cur) => ok (children, (cur, s.2))
        | (false, cur) =>
            match xjson_tok_match cur [44%Z] with
            | (true, cur) => xjson_p_object_ fuel after children (cur, s.2)
            | (false, _) => fail
            end
        end
    end.
Proof. reflexivity. Qed.

Definition member_text (pretty : bool) (indent : nat) (x : node) : list Z :=
  quoted (default [] (m_key (meta x))) ++ 58%Z :: (if pretty then [32%Z] else []) ++ render pretty indent x.

Lemma sep_by_members pretty indent y c :
  sep_by (member pretty indent <$> y :: c) =
  newline pretty indent ++ member_text pretty indent y ++ match c with [] => [] | _ => [44%Z] end ++ sep_by (member pretty indent <$> c).
Proof.
  rewrite fmap_cons. unfold member at 1. fold (member_text pretty indent y). destruct c as [|z c].
  - cbn [fmap list_fmap sep_by app]. by rewrite app_nil_r.
  - rewrite sep_by_cons by done. by rewrite <- app_assoc.
Qed.

(** The members from a key on; the text before the first key is skipped. *)
Lemma object_read pretty indent x c :
  Forall (value_read pretty) (x :: c) -> Forall key_ok (x :: c) ->
  forall acc fuel t a,
    2 * length (member_text pretty (indent + 1) x) + 2 * length (sep_by (member pretty (indent + 1) <$> c)) + 3 < fuel ->
    xjson_p_object_ fuel after acc
      (member_text pretty (indent + 1) x ++ match c with [] => [] | _ => [44%Z] end ++
       sep_by (member pretty (indent + 1) <$> c) ++ newline pretty indent ++ 125%Z :: t, a) =
    outcome (pretty && ((2 <=? length (x :: c)) || existsb multi (x :: c))) a ((x :: c) ≫= fun x => key_need x :: need x)
      (acc ++ ((fun x => set_key (m_key (meta x)) (m_key_len (meta x)) (set_owned (parsed x))) <$> x :: c)) t.
Proof.
  revert x. induction c as [|y c IH]; intros x Hx Hk acc fuel t a Hf;
    apply Forall_cons in Hx as [Hx Hc]; apply Forall_cons in Hk as [(k & Ek & El & Hkb) Hkc];
    (destruct fuel as [|fuel]; [lia|]); rewrite object_unfold; unfold member_text at 1; unfold member_text in Hf at 1;
    unfold key_need; rewrite bind_cons; rewrite Ek in *; cbn [default from_option id] in *; rewrite <- !app_assoc; cbn [app existsb length] in *;
    rewrite length_app in Hf; cbn [length] in Hf; rewrite length_app in Hf;
    apply tok_string_bind; [done| |done|]; intros a1; rewrite (match_char 58%Z) by done; rewrite <- !app_assoc.
  - rewrite value_ws_skip by (by destruct pretty; repeat constructor).
    cbn [fmap list_fmap sep_by app].
    rewrite Hx; [|by apply newline_stops|by apply newline_ended|lia].
    cbn [mbind list_bind]. change (2 <=? 1) with false. cbn [orb]. rewrite orb_false_r. apply outcome_bind; [done|]. intros -> a'. cbn [fst snd].
    rewrite match_close by done. by rewrite Ek, El.
  - rewrite value_ws_skip by (by destruct pretty; repeat constructor). rewrite (sep_by_members pretty (indent + 1) y c) in Hf |- *.
    rewrite Hx; [|done|by eexists _, _|lia].
    apply outcome_bind; [by intros [-> ->]%andb_true_iff|]. intros Hm a'. cbn [fst snd app].
    rewrite match_other, match_char by done. cbn [fst snd]. destruct fuel as [|fuel]; [lia|]. destruct pretty.
    { rewrite <- !app_assoc. cbn [app newline]. rewrite object_unfold, string_needs_quote by done. done. }
    cbn [andb newline app] in *. rewrite <- !app_assoc. rewrite !length_app in Hf.
    rewrite IH by (done || (unfold member_text in *; lia)).
    rewrite (fmap_cons _ x), <- app_assoc, Ek, El. done.
Qed.

Lemma value_array fuel t a :
  xjson_p_value_ (D := D) (S fuel) after (91%Z :: t, a) =
    '(_, a) ⇐ xjson_p_new_node_ (D := D) a (VArray []);
    match xjson_tok_match t [93%Z] with
    | (true, cur) => ok (Node (Meta false true None 0) (VArray []), (cur, a))
    | (false, cur) =>
        '(c, s) ⇐ xjson_p_array_ fuel after [] (cur, a);
        ok (Node (Meta false true None 0) (VArray c), s)
    end.
Proof. reflexivity. Qed.

Lemma value_object fuel t a :
  xjson_p_value_ (D := D) (S fuel) after (123%Z :: t, a) =
    '(_, a) ⇐ xjson_p_new_node_ (D := D) a (VObject []);
    match xjson_tok_match t [125%Z] with
    | (true, cur) => ok (Node (Meta false true None 0) (VObject []), (cur, a))
    | (false, cur) =>
        '(c, s) ⇐ xjson_p_object_ fuel after [] (cur, a);
        ok (Node (Meta false true None 0) (VObject c), s)
    end.
Proof. reflexivity. Qed.

(** The first byte of a value. *)
Definition value_first (c : Z) : Prop := is_ws c = false /\ c <> 93%Z.

Lemma render_first pretty indent n :
  document finite n -> exists c t, render pretty indent n = c :: t /\ value_first c.
Proof.
  unfold value_first.
  destruct n as [m [|b|z|d|s|c|c]]; intros H; inversion H as [|? ? Hb|? ? Hz|? ? Hd|? ? Hs|? ? Hc|? ? Hc Hk]; subst; cbn [render].
  - by eexists _, _.
  - destruct Hb as [-> | ->]; by eexists _, _.
  - destruct (number_first _ _ (print_lld_number z Hz)) as (c & u & -> & ? & Hc & _). exists c, u. split; [done|].
    split; [done|]. intros ->. done.
  - destruct (double_text_number d Hd) as (u & -> & Hu). cbn [default from_option id].
    destruct (number_first _ _ Hu) as (c & u' & -> & ? & Hc & _). exists c, u'. split; [done|].
    split; [done|]. intros ->. done.
  - by eexists _, _.
  - destruct c; by eexists _, _.
  - destruct c; by eexists _, _.
Qed.

Lemma skip_ws_idem t : xjson_tok_skip_ws (xjson_tok_skip_ws t) = xjson_tok_skip_ws t.
Proof.
  induction t as [|c t IH]; [done|]. cbn [xjson_tok_skip_ws]. destruct (is_ws c) eqn:E; [done|].
  cbn [xjson_tok_skip_ws]. by rewrite E.
Qed.

Lemma array_skip fuel acc t a :
  xjson_p_array_ (D := D) fuel after acc (xjson_tok_skip_ws t, a) = xjson_p_array_ fuel after acc (t, a).
Proof.
  destruct fuel as [|[|fuel]]; [done..|]. cbn [xjson_p_array_ xjson_p_value_ fst snd]. by rewrite skip_ws_idem.
Qed.

(** A child instead of the closing bracket. *)
Lemma match_child pretty indent c t d :
  is_ws c = false -> c <> d ->
  xjson_tok_match (newline pretty indent ++ c :: t) [d] = (false, xjson_tok_skip_ws (newline pretty indent ++ c :: t)).
Proof.
  intros Hc Hd. rewrite match_skip, skip_ws_app by apply newline_ws. by rewrite match_other, skip_ws_stop.
Qed.

(** Every serialized document is read as [outcome] says. *)
Lemma document_read pretty n : document finite n -> value_read pretty n.
Proof.
  induction n as [m|m b|m z|m d|m s|m c IH|m c IH] using node_ind;
    intros H indent fuel t a Ht He Hf; inversion H as [|? ? Hb|? ? Hz|? ? Hd|? ? Hs|? ? Hc|? ? Hc Hk]; subst;
    (destruct fuel as [|fuel]; [lia|]); cbn [render multi need parsed] in *; rewrite ?andb_false_r.
  - by apply (literal_read lit_null VNull 110%Z).
  - destruct Hb as [-> | ->]; [by apply (literal_read lit_false (VBool 0) 102%Z)|by apply (literal_read lit_true (VBool 1) 116%Z)].
  - rewrite (value_number _ _ _ false) by (by apply print_lld_number). unfold xjson_p_number_. cbn [fst snd].
    rewrite (tok_number_int after z t) by done. rewrite fbind_ok. by apply (new_node_bind false []).
  - destruct (double_text_number d Hd) as (u & Eu & Hu). rewrite Eu. cbn [default from_option id].
    rewrite (value_number _ _ _ true) by done. unfold xjson_p_number_. cbn [fst snd].
    rewrite (tok_number_double after d u t) by done. rewrite fbind_ok. by apply (new_node_bind false []).
  - unfold quoted. cbn [app xjson_p_value_ fst snd]. rewrite skip_ws_stop by done. rewrite Z.eqb_refl.
    change (QUOTE :: ((s ≫= escape) ++ [QUOTE]) ++ t) with (quoted s ++ t). unfold xjson_p_string_node_. cbn [fst snd].
    apply tok_string_bind; [done|]. intros a'. by apply (new_node_bind false []).
  - assert (Forall (value_read pretty) c) as Hv.
    { eapply Forall_impl; [exact (proj2 (Forall_and _ _) (conj IH Hc))|]. intros x [? ?]; auto. }
    destruct c as [|x c].
    { cbn [app]. rewrite value_array. apply new_node_bind. intros a'. rewrite match_char by done. by destruct pretty. }
    destruct (render_first pretty (indent + 1) x (Forall_inv Hc)) as (k & u & Ek & Hw & Hk).
    assert (exists u', sep_by (element pretty (indent + 1) <$> x :: c) = newline pretty (indent + 1) ++ k :: u') as (u' & Eu).
    { rewrite fmap_cons. unfold element at 1. rewrite Ek. destruct c; [by eexists|].
      rewrite sep_by_cons by done. rewrite <- app_assoc. by eexists. }
    change ((fun c0 => newline pretty (indent + 1) ++ render pretty (indent + 1) c0) <$> x :: c)
      with (element pretty (indent + 1) <$> x :: c) in *.
    cbn [length app] in *. rewrite !length_app in Hf. rewrite <- !app_assoc, value_array.
    apply new_node_bind. intros a'. rewrite Eu, <- app_assoc. cbn [app]. rewrite match_child by done.
    rewrite array_skip, app_comm_cons, app_assoc, <- Eu.
    rewrite <- (app_nil_r ((x :: c) ≫= need)), array_read by (done || lia).
    apply outcome_bind; [done|]. by intros ->.
  - assert (Forall (value_read pretty) c) as Hv.
    { eapply Forall_impl; [exact (proj2 (Forall_and _ _) (conj IH Hc))|]. intros x [? ?]; auto. }
    destruct c as [|x c].
    { cbn [app]. rewrite value_object. apply new_node_bind. intros a'. rewrite match_char by done. by destruct pretty. }
    change ((fun c0 => newline pretty (indent + 1) ++ quoted (default [] (m_key (meta c0))) ++
               58%Z :: (if pretty then [32%Z] else []) ++ render pretty (indent + 1) c0) <$> x :: c)
      with (member pretty (indent + 1) <$> x :: c) in *.
    rewrite sep_by_members in Hf |- *. cbn [length app] in *. rewrite !length_app in Hf. cbn [length] in Hf.
    rewrite <- !app_assoc, value_object. apply new_node_bind. intros a'.
    assert (exists u, member_text pretty (indent + 1) x = QUOTE :: u) as (u & Eu) by (by eexists).
    rewrite Eu. cbn [app]. rewrite match_child by done. rewrite skip_ws_app by apply newline_ws.
    rewrite skip_ws_stop, app_comm_cons, <- Eu by done.
    rewrite <- (app_nil_r ((x :: c) ≫= _)), object_read by (done || lia).
    apply outcome_bind; [done|]. intros Hm a2. cbn [length existsb] in *. by rewrite Hm.
Qed.

End round.

(** ** The arena of one call *)

(** The bytes used after a list of requests, [u] before. *)
Definition total_from (u : Z) (sizes : list Z) : Z := fold_left (fun u size => pad16 u + size)%Z sizes u.
Definition total (sizes : list Z) : Z := total_from 0 sizes.

Lemma total_from_le u sizes : Forall (fun s => 0 <= s)%Z sizes -> (u <= total_from u sizes)%Z.
Proof.
  intros H. revert u. induction H as [|s sizes Hs H IH]; intros u; cbn; [lia|].
  specialize (IH (pad16 u + s)%Z). pose proof (pad16_bounds u). unfold total_from in IH. lia.
Qed.

Lemma alloc_seq_total a sizes u :
  arena16 a -> (0 <= u <= capacity a)%Z -> Forall (fun s => 0 <= s < 2 ^ 62)%Z sizes ->
  alloc_seq (at_used a u) sizes =
    if (capacity a <? total_from u sizes)%Z then None else Some (at_used a (total_from u sizes)).
Proof.
  intros Ha Hu Hs. revert u Hu. induction Hs as [|s sizes Hs Hss IH]; intros u Hu; cbn [alloc_seq].
  { cbn. by rewrite (proj2 (Z.ltb_ge _ _)) by lia. }
  unfold alloc1. rewrite xArenaAlloc_used by (done || by apply arena16_at_used). cbv zeta.
  rewrite used_at_used.
  change (capacity (at_used a u)) with (capacity a). change (total_from u (s :: sizes)) with (total_from (pad16 u + s) sizes).
  pose proof (pad16_bounds u). pose proof (total_from_le (pad16 u + s) sizes) as Ht.
  destruct (Z.ltb_spec (capacity a) (pad16 u + s)).
  - rewrite (proj2 (Z.ltb_lt _ _)); [done|]. eapply Z.lt_le_trans; [exact H0|]. apply Ht.
    eapply Forall_impl; [exact Hss|]. cbn. lia.
  - cbn [mbind option_bind]. apply IH. lia.
Qed.

(** [malloc] answers with an aligned address, and the buffer ends in the
    lower part of the address space. *)
Definition malloc_ok (malloc : Z -> option Z) (size : Z) : Prop :=
  exists p, malloc size = Some p /\ (0 <= p)%Z /\ (p mod 16 = 0)%Z /\ (p + size < 2 ^ 62)%Z.

Lemma arena_cap_pos len : (4096 <= arena_cap len)%Z.
Proof. unfold arena_cap. destruct (Z.ltb_spec (u64 (Z.of_nat len * 8)) 4096); lia. Qed.

Lemma create_fresh malloc alloc len :
  malloc_ok malloc (arena_cap len) -> alloc 24%Z = true ->
  exists a, xArenaCreate malloc alloc (arena_cap len) = Some (at_used a 0) /\ arena16 a /\ capacity a = arena_cap len.
Proof.
  intros (p & E & H0 & H16 & Hs) Ha. pose proof (arena_cap_pos len). unfold xArenaCreate. rewrite E, Ha. cbn [mbind option_bind].
  exists (Arena p p (p + arena_cap len)). unfold at_used, arena16, arena_ok, capacity. cbn.
  unfold u64. rewrite Z.mod_small by lia. rewrite Z.add_0_r. repeat split; lia.
Qed.

Section parse.
Context {D : Type} `{!CDouble D} {finite : D -> Prop} `{!CDoubleLaws D finite}.

Lemma parse_rendered malloc alloc pretty (n : xJson_ D) copy more :
  document finite n ->
  let t := render pretty 0 n in
  Forall (fun s => 0 <= s < 2 ^ 62)%Z (need n) ->
  malloc_ok malloc (arena_cap (length t)) -> alloc 24%Z = true ->
  xjson_do_parse_ malloc alloc (Some (t ++ 0%Z :: more)) (length t) copy =
    if (pretty && multi n) || (arena_cap (length t) <? total (need n))%Z then fail else ok (parsed n).
Proof.
  intros Hd t Hneed Hm Ha. unfold xjson_do_parse_.
  destruct (render_first pretty 0 n Hd) as (c & u & Ec & _). fold t in Ec.
  rewrite decide_False by (by rewrite Ec). rewrite length_app, decide_False by lia.
  rewrite drop_app_length, take_app_length.
  destruct (create_fresh malloc alloc (length t) Hm Ha) as (a & -> & Ha16 & Hcap).
  assert (arena16 a) as Hok by done.
  rewrite <- (app_nil_r t) at 2. subst t. rewrite (document_read (0%Z :: more) pretty n Hd);
    [|done|by eexists _, _|unfold json_parse_fuel; lia].
  unfold outcome. destruct (pretty && multi n); [done|]. cbn [orb].
  rewrite alloc_seq_total by (done || (rewrite Hcap; pose proof (arena_cap_pos (length (render pretty 0 n))); lia)).
  rewrite Hcap. fold (total (need n)). by destruct (_ <? _)%Z.
Qed.

(** C11: Serializing a document and parsing the text gives the document back,
    exactly when the arena the parser sizes from the length of the text holds
    its nodes and strings; the pretty form is also refused when an object has
    two or more members. *)
Theorem json_roundtrip malloc alloc salloc junk pretty (n : xJson_ D) buf :
  document finite n -> (forall k, length (junk k) = k) ->
  xjson_stringify_alloc_ salloc junk (Some n) pretty = ok buf ->
  Forall (fun s => 0 <= s < 2 ^ 62)%Z (need n) ->
  let len := length buf - 1 in
  malloc_ok malloc (arena_cap len) -> alloc 24%Z = true ->
  xJsonParse malloc alloc (Some buf) len =
    if (pretty && multi n) || (arena_cap len <? total (need n))%Z then fail else ok (parsed n).
Proof.
  intros Hd Hj E Hneed len Hm Ha. rewrite json_stringify_eq in E by (done || by apply (document_printable (finite := finite))).
  destruct (salloc _); [|done]. injection E as <-. subst len. rewrite length_app, Nat.add_sub in *.
  by apply parse_rendered.
Qed.

End parse.

(** ** Doubles that are integers *)

Definition small_int (z : Z) : Prop := (- 10 ^ 17 < z < 10 ^ 17)%Z.

#[export] Instance int_doubles_laws : CDoubleLaws Z small_int.
Proof.
  assert (forall d, small_int d -> int64_ok d) as Hok by (unfold small_int, int64_ok, INT64_MIN, INT64_MAX; lia).
  split.
  - intros d Hd. exists false. by apply print_lld_number, Hok.
  - intros d Hd. cbn [fmt_17g int_doubles]. unfold print_lld. pose proof (length_print_u 19 d).
    pose proof (length_print_u 19 (- d)). destruct (d <? 0)%Z; cbn [length]; lia.
  - intros d c t rest Hd Et Hc. cbn [strtod int_doubles]. unfold double_text in Et. cbn [fmt_17g int_doubles] in Et.
    case_decide; [done|]. rewrite (existsb_point _ false) in Et by (by apply print_lld_number, Hok).
    case_decide; [done|]. injection Et as <-. rewrite <- app_assoc. apply strtoll_print; [by apply Hok|done].
Qed.

(** A document with every kind of value. *)
Definition sample : xJson_ Z :=
  let m := Meta false false None 0 in
  let member k v := Node (Meta true false (Some k) (length k)) v in
  Node m (VObject
    [member [97%Z] (VArray [Node m (VInt (-7)); Node m (VBool 1); Node m VNull; Node m (VDouble 12%Z)]);
     member [34%Z; 10%Z] (VString [120; 0; 92; 200]%Z)]).

Lemma sample_document : document small_int sample.
Proof.
  unfold sample, small_int. repeat constructor; try lia; try (eexists; split; [reflexivity|]; split; [reflexivity|]; repeat constructor);
    unfold int64_ok, INT64_MIN, INT64_MAX, byte_ok; lia.
Qed.

Definition malloc_at (p : Z) (size : Z) : option Z := Some p.

Lemma malloc_at_ok p size : (0 <= p)%Z -> (p mod 16 = 0)%Z -> (p + size < 2 ^ 62)%Z -> malloc_ok (malloc_at p) size.
Proof. intros. by exists p. Qed.

Lemma json_roundtrip_witness :
  exists buf, xjson_stringify_alloc_ (fun _ => true) (fun k => replicate k 7%Z) (Some sample) false = ok buf /\
    xJsonParse (malloc_at 4096) (fun _ => true) (Some buf) (length buf - 1) = ok (parsed sample).
Proof.
  eexists. split; [vm_compute; reflexivity|].
  rewrite (json_roundtrip (finite := small_int) (malloc_at 4096) (fun _ => true) (fun _ => true)
             (fun k => replicate k 7%Z) false sample _ sample_document).
  - vm_compute. reflexivity.
  - intros k. apply length_replicate.
  - vm_compute. reflexivity.
  - apply (bool_decide_unpack _). vm_compute. exact I.
  - apply malloc_at_ok; vm_compute; congruence.
  - reflexivity.
Defined.

(** ** A document the arena does not hold *)

(** The array of [k] zeros, [[0,0,...]]. *)
Definition zeros (k : nat) : xJson_ Z :=
  let m := Meta true false None 0 in Node (Meta false false None 0) (VArray (replicate k (Node m (VInt 0)))).

Lemma length_sep_by (t : list Z) k : 0 < k -> length (sep_by (replicate k t)) + 1 = k * (length t + 1).
Proof.
  induction k as [|[|k] IH]; intros Hk; [lia|cbn; lia|]. change (replicate (S (S k)) t) with (t :: replicate (S k) t).
  rewrite sep_by_cons by done. rewrite length_app. cbn [length]. specialize (IH ltac:(lia)). lia.
Qed.

Lemma render_zeros k : 0 < k -> length (render false 0 (zeros k)) = 2 * k + 1.
Proof.
  intros Hk. pose proof (length_sep_by [48%Z] k Hk) as Hl. unfold zeros. cbn [render newline app].
  rewrite fmap_replicate. change (render false (0 + 1) (Node _ (VInt 0))) with [48%Z].
  destruct k as [|k]; [lia|]. cbn [replicate length] in *. rewrite length_app. cbn [length] in *. lia.
Qed.

Lemma zeros_document k : document small_int (zeros k).
Proof. apply doc_array. apply Forall_replicate, doc_int. unfold int64_ok, INT64_MIN, INT64_MAX. lia. Qed.

Lemma need_zeros k : need (zeros k) = replicate (S k) SIZEOF_XJSON.
Proof. unfold zeros. cbn [need replicate]. f_equal. induction k as [|k IH]; [done|]. cbn [replicate]. rewrite bind_cons, IH. done. Qed.

Lemma total_nodes k j :
  total_from (64 * j + 56) (replicate k SIZEOF_XJSON) = (64 * (j + Z.of_nat k) + 56)%Z.
Proof.
  revert j. induction k as [|k IH]; intros j; [cbn; lia|]. cbn [replicate].
  change (total_from (64 * j + 56) (SIZEOF_XJSON :: replicate k SIZEOF_XJSON))
    with (total_from (pad16 (64 * j + 56) + SIZEOF_XJSON) (replicate k SIZEOF_XJSON)).
  assert (pad16 (64 * j + 56) + SIZEOF_XJSON = 64 * (j + 1) + 56)%Z as ->.
  { unfold pad16, align_up, SIZEOF_XJSON. replace (64 * j + 56 + 16 - 1)%Z with (7 + (4 * j + 4) * 16)%Z by lia.
    rewrite Z.div_add by lia. change (7 / 16)%Z with 0%Z. lia. }
  rewrite IH. lia.
Qed.

(** The array of [k] zeros is parsed when [k] is at most 63 and refused
    from 64 on, however long: two bytes of text give sixteen bytes of arena,
    and a node takes 64. *)
Theorem json_small_arrays malloc alloc k copy :
  0 < k -> (Z.of_nat k < 2 ^ 50)%Z -> malloc_ok malloc (arena_cap (2 * k + 1)) -> alloc 24%Z = true ->
  xjson_do_parse_ malloc alloc (Some (render false 0 (zeros k) ++ [0%Z])) (2 * k + 1) copy =
    if decide (k <= 63) then ok (parsed (zeros k)) else fail.
Proof.
  intros Hk Hb Hm Ha. rewrite <- (render_zeros k) in * by done.
  rewrite (parse_rendered (finite := small_int)); [|apply zeros_document| |done..].
  - cbn [andb orb]. rewrite need_zeros, render_zeros by done. unfold total.
    change (total_from 0 (replicate (S k) SIZEOF_XJSON)) with (total_from (64 * 0 + 56) (replicate k SIZEOF_XJSON)).
    rewrite total_nodes. unfold arena_cap, u64. rewrite Z.mod_small by lia.
    destruct (Z.ltb_spec (Z.of_nat (2 * k + 1) * 8) 4096).
    + destruct (Z.ltb_spec 4096 (64 * (0 + Z.of_nat k) + 56)); case_decide; done || lia.
    + rewrite (proj2 (Z.ltb_lt _ _)) by lia. rewrite decide_False by lia. done.
  - rewrite need_zeros. apply Forall_replicate. unfold SIZEOF_XJSON. lia.
Qed.

Lemma json_small_arrays_witness :
  xjson_do_parse_ (malloc_at 4096) (fun _ => true) (Some (render false 0 (zeros 64) ++ [0%Z])) 129 false = fail.
Proof.
  change 129 with (2 * 64 + 1).
  rewrite (json_small_arrays (malloc_at 4096) (fun _ => true) 64 false); [reflexivity|lia|lia| |reflexivity].
  apply malloc_at_ok; vm_compute; congruence.
Defined.
