(* ===== verification/JsonSafe.v ===== *)
(** * JsonSafe: the parser on arbitrary text

    On any bytes with a NUL somewhere behind them the parser returns, and
    reads and writes only inside the text, its terminator and its own
    blocks. *)

From S2P Require Import Prelude Decimal Arena JsonTok Json JsonPrint JsonText JsonRound.

(** A step that is defined and leaves a cursor no further than [n] bytes from
    the end. *)
Definition safe {A} (n : nat) (cursor : A -> list Z) (m : fallible A) : Prop :=
  match m with
  | None => False
  | Some None => True
  | Some (Some x) => length (cursor x) <= n
  end.

Lemma safe_bind {A B} n n' c c' (m : fallible A) (k : A -> fallible B) :
  safe n c m -> (forall x, length (c x) <= n -> safe n' c' (k x)) -> safe n' c' (fbind k m).
Proof. destruct m as [[x|]|]; [|done..]. intros Hm Hk. by apply Hk. Qed.

Lemma safe_le {A} n n' (c : A -> list Z) m : n <= n' -> safe n c m -> safe n' c m.
Proof. intros H. destruct m as [[x|]|]; cbn; [lia|done..]. Qed.

(** ** Tokens *)

Lemma skip_ws_length t : length (xjson_tok_skip_ws t) <= length t.
Proof. induction t as [|c t IH]; [done|]. cbn [xjson_tok_skip_ws]. destruct (is_ws c); cbn; lia. Qed.

Lemma match_length t lit b cur :
  xjson_tok_match t lit = (b, cur) ->
  length cur <= length t /\ (b = true -> length cur + length lit <= length t).
Proof.
  unfold xjson_tok_match. pose proof (skip_ws_length t). repeat case_decide; intros [= <- <-]; [lia|lia|].
  rewrite length_drop. lia.
Qed.

(** The first pass stops at a quote inside the text. *)
Lemma find_close_inside s n b len b' cur :
  find_close s n b = Some (len, b', cur) -> n <= len /\ length s = len - n + 1 + length cur.
Proof.
  remember (length s) as k eqn:Ek. revert s n b Ek. induction k as [k IH] using lt_wf_ind. intros s n b ->.
  destruct s as [|c s]; [done|]. cbn [find_close length] in *. destruct (c =? QUOTE)%Z.
  { intros [= <- <- <-]. lia. }
  destruct (c =? BACKSLASH)%Z.
  - destruct s as [|e s]; [done|]. intros E. cbn [length] in *.
    destruct (IH (length s) ltac:(lia) s _ _ eq_refl E). lia.
  - intros E. destruct (IH (length s) ltac:(lia) s _ _ eq_refl E). lia.
Qed.

(** A cursor with room for [l] more bytes and a NUL. *)
Definition room (l : nat) (w : list Z * nat) : Prop := w.2 + l < length w.1.

Lemma put_room l w c : room (S l) w -> exists w', put w c = Some w' /\ room l w' /\ length w'.1 = length w.1.
Proof.
  unfold room. destruct w as [d o]. cbn [fst snd]. intros H. rewrite put_Some by lia. eexists. split; [done|].
  cbn [fst snd]. rewrite length_insert. lia.
Qed.

Lemma puts_room l w cs :
  room (length cs + l) w -> exists w', puts w cs = Some w' /\ room l w' /\ length w'.1 = length w.1.
Proof.
  revert w. induction cs as [|c cs IH]; intros w H; cbn [puts length] in *; [by eexists|].
  destruct (put_room (length cs + l) w c H) as (w1 & -> & H1 & L1). cbn [mbind option_bind].
  destruct (IH w1 H1) as (w2 & -> & H2 & L2). eexists. split; [done|]. split; [done|congruence].
Qed.

Lemma length_utf8_of cp : length (utf8_of cp) <= 3.
Proof. unfold utf8_of. repeat case_match; cbn; lia. Qed.

Lemma room_le l l' w : l' <= l -> room l w -> room l' w.
Proof. unfold room. lia. Qed.

(** The digits of an escape are neither quotes nor backslashes. *)
Lemma hex_digit_plain h d : hex_digit_value h = Some d -> (h =? QUOTE)%Z = false /\ (h =? BACKSLASH)%Z = false.
Proof.
  unfold hex_digit_value, QUOTE, BACKSLASH. intros H. rewrite !Z.eqb_neq.
  destruct (Z.leb_spec 48 h), (Z.leb_spec h 57), (Z.leb_spec 97 h), (Z.leb_spec h 102), (Z.leb_spec 65 h), (Z.leb_spec h 70);
    cbn in H; try done; lia.
Qed.

Lemma codepoint_plain hs cp :
  codepoint_of hs = Some cp -> Forall (fun h => (h =? QUOTE)%Z = false /\ (h =? BACKSLASH)%Z = false) hs.
Proof.
  unfold codepoint_of. generalize (Some 0%Z). induction hs as [|h hs IH]; intros o H; [done|]. cbn [foldl] in H.
  destruct o as [o|]; cbn [mbind option_bind] in H.
  - destruct (hex_digit_value h) as [d|] eqn:E; cbn [mbind option_bind] in H.
    + constructor; [by eapply hex_digit_plain|by eapply IH].
    + exfalso. clear - H. induction hs; [done|]. by apply IHhs.
  - exfalso. clear - H. induction hs; [done|]. by apply IHhs.
Qed.

(** The second pass writes no more bytes than the first one counted. *)
Lemma unescape_safe s n b l b' cur w :
  find_close s n b = Some (n + l, b', cur) -> room l w ->
  match unescape (take (l + 1) s) w with
  | None => False
  | Some None => True
  | Some (Some w') => room 0 w' /\ length w'.1 = length w.1
  end.
Proof.
  remember (length s) as k eqn:Ek. revert s n b l w Ek. induction k as [k IH] using lt_wf_ind.
  intros s n b l w -> E Hr. destruct s as [|c s]; [done|]. rewrite Nat.add_1_r. cbn [find_close take unescape length] in *.
  destruct (c =? QUOTE)%Z eqn:Eq. { split; [|done]. by apply (room_le l); [lia|]. }
  destruct (c =? BACKSLASH)%Z; cbn [negb].
  2:{ pose proof (find_close_inside _ _ _ _ _ _ E). destruct l as [|l]; [lia|].
      destruct (put_room l w c Hr) as (w1 & -> & H1 & L1). cbn [mbind option_bind].
      rewrite <- Nat.add_1_r, <- L1. apply (IH (length s) ltac:(lia) s (S n) b); [done| |done].
      by replace (S n + l) with (n + S l) by lia. }
  destruct s as [|e s]; [done|]. pose proof (find_close_inside _ _ _ _ _ _ E) as [Hle _].
  destruct l as [|[|l]]; [lia..|]. cbn [take length] in *.
  destruct (simple_escape e) as [x|].
  { destruct (put_room l w x) as (w1 & -> & H1 & L1); [by apply (room_le (S (S l))); [lia|]|]. cbn [mbind option_bind].
    rewrite <- Nat.add_1_r, <- L1. apply (IH (length s) ltac:(lia) s (S (S n)) true); [done| |done].
    by replace (S (S n) + l) with (n + S (S l)) by lia. }
  destruct (e =? 117)%Z; [|done].
  destruct (take (S l) s) as [|h0 [|h1 [|h2 [|h3 s']]]] eqn:Es; try done.
  destruct (codepoint_of [h0; h1; h2; h3]) as [cp|] eqn:Ecp; [|done]. apply codepoint_plain in Ecp.
  assert (exists t, s = [h0; h1; h2; h3] ++ t) as [t ->].
  { exists (drop 4 s). rewrite <- (take_drop 4 s) at 1. f_equal.
    apply (f_equal (take 4)) in Es. rewrite take_take in Es. cbn in Es.
    destruct l as [|[|[|l]]]; cbn in Es; try (by destruct s as [|? [|? [|? [|? ?]]]]); done. }
  rewrite find_close_plain in E by done. cbn [length] in *.
  pose proof (find_close_inside _ _ _ _ _ _ E) as [Hle' _]. do 4 (destruct l as [|l]; [lia|]).
  cbn [app take] in Es. injection Es as <-.
  destruct (puts_room l w (utf8_of cp)) as (w1 & -> & H1 & L1).
  { pose proof (length_utf8_of cp). by apply (room_le (S (S (S (S (S (S l))))))); [lia|]. }
  cbn [mbind option_bind]. rewrite <- Nat.add_1_r, <- L1.
  apply (IH (length t) ltac:(cbn; lia) t (S (S n) + 4) true); [done| |done].
  by replace (S (S n) + 4 + l) with (n + S (S (S (S (S (S l)))))) by lia.
Qed.

Lemma tok_string_safe cur a :
  match xjson_tok_string cur a with
  | None => False
  | Some None => True
  | Some (Some (s, cur', a')) => length cur' + 2 <= length cur
  end.
Proof.
  destruct cur as [|q start]; [done|]. cbn [xjson_tok_string]. destruct (q =? QUOTE)%Z; [|done]. cbn [negb].
  destruct (find_close start 0 false) as [[[len b] cur]|] eqn:E; [|done].
  destruct (find_close_inside _ _ _ _ _ _ E) as [_ Hl]. cbn [length].
  destruct (xArenaAlloc a (Z.of_nat len + 1)) as [[p a']|]; [|done]. destruct b; cbn [negb].
  - rewrite mem_read_Some by lia. rewrite drop_0. cbn [mbind option_bind].
    pose proof (unescape_safe start 0 false len true cur (replicate (len + 1) 0%Z, 0) E) as H.
    unfold room in H. cbn [fst snd] in H. rewrite length_replicate in H. specialize (H ltac:(lia)).
    destruct (unescape _ _) as [[[buf dst]|]|]; cbn [fbind] in *; [|done..]. destruct H as [H1 H2].
    cbn [fst snd] in *. rewrite mem_set_Some by lia. cbn. lia.
  - rewrite mem_read_Some by lia. rewrite drop_0. cbn [mbind option_bind].
    assert (length (take len start) = len) as Ht by (rewrite length_take; lia).
    rewrite mem_write_Some by (rewrite length_replicate; lia). cbn [mbind option_bind].
    rewrite mem_set_Some; [cbn; lia|]. autorewrite with len. lia.
Qed.

(** ** Numbers *)

Lemma skip_digits_length t : length (skip_digits t) <= length t.
Proof. induction t as [|c t IH]; [done|]. cbn [skip_digits]. destruct (is_digit c); cbn; lia. Qed.

Lemma some_digits_length t t' : some_digits t = Some t' -> length t' <= length t.
Proof.
  destruct t as [|c t]; [done|]. cbn [some_digits]. destruct (is_digit c); [|done]. intros [= <-].
  apply (skip_digits_length (c :: t)).
Qed.

Lemma number_frac_length t b t' : number_frac t = Some (b, t') -> length t' <= length t.
Proof.
  destruct t as [|c t]; [by intros [= <- <-]|]. cbn [number_frac]. destruct (c =? 46)%Z; [|by intros [= <- <-]].
  destruct (some_digits t) eqn:E; [|done]. intros [= <- <-]. apply some_digits_length in E. cbn. lia.
Qed.

Lemma number_exp_length t b t' : number_exp t = Some (b, t') -> length t' <= length t.
Proof.
  destruct t as [|c t]; [by intros [= <- <-]|]. cbn [number_exp]. destruct (_ || _); [|by intros [= <- <-]].
  destruct (some_digits _) eqn:E; [|done]. intros [= <- <-]. apply some_digits_length in E.
  assert (length (skip_sign t) <= length t); [|cbn; lia]. destruct t; [done|]. cbn. destruct (_ || _); cbn; lia.
Qed.

(** At least one digit is consumed. *)
Lemma number_scan_length t b t' : number_scan t = Some (b, t') -> length t' < length t.
Proof.
  unfold number_scan. set (u := match t with c :: t' => if (c =? 45)%Z then t' else t | [] => [] end).
  assert (length u <= length t) as Hu. { subst u. destruct t; [done|]. destruct (_ =? _)%Z; cbn; lia. }
  destruct u as [|c u']; [done|]. destruct (is_digit c) eqn:Ec; [|done]. cbn [negb]. destruct (_ && _); [done|].
  cbn [skip_digits]. rewrite Ec. pose proof (skip_digits_length u').
  destruct (number_frac _) as [[dot t1]|] eqn:E1; [|done]. cbn [mbind option_bind].
  destruct (number_exp t1) as [[ex t2]|] eqn:E2; [|done]. intros [= <- <-].
  apply number_frac_length in E1. apply number_exp_length in E2. cbn in Hu. lia.
Qed.

Lemma digits_run_nul s r acc : exists v, digits_run (s ++ 0%Z :: r) acc = Some v.
Proof.
  revert acc. induction s as [|c s IH]; intros acc; cbn [app digits_run]; [by eexists|].
  destruct (is_digit c); [apply IH|by eexists].
Qed.

Lemma strtoll_nul s r : exists v, strtoll (s ++ 0%Z :: r) = Some v.
Proof.
  unfold strtoll. destruct s as [|c s]; cbn [app].
  - by eexists.
  - destruct (c =? 45)%Z.
    + destruct (digits_run_nul s r 0) as [v ->]. by eexists.
    + destruct (digits_run_nul (c :: s) r 0) as [v E]. cbn [app] in E. rewrite E. by eexists.
Qed.

(** [strtod] stops at a NUL. *)
Class CDoubleNul (D : Type) `{!CDouble D} :=
  strtod_nul s r : exists d, strtod (s ++ 0%Z :: r) = Some d.

Section safe.
Context {D : Type} `{!CDouble D, !CDoubleNul D} (after : list Z).
Hypothesis Hafter : exists s r, after = s ++ 0%Z :: r.

Abbreviation node := (xJson_ D).

Lemma tok_number_safe cur : safe (pred (length cur)) snd (xjson_tok_number (D := D) after cur).
Proof using Type*.
  destruct Hafter as (s & r & ->). unfold xjson_tok_number.
  destruct (number_scan cur) as [[b cur']|] eqn:E; [|done]. apply number_scan_length in E. destruct b.
  - rewrite app_assoc. destruct (strtod_nul (cur ++ s) r) as [d ->]. cbn. lia.
  - rewrite app_assoc. destruct (strtoll_nul (cur ++ s) r) as [z ->]. cbn. lia.
Qed.

(** Where a state is. *)
Definition at_cur {A} (x : A * (list Z * xArena)) : list Z := x.2.1.

Lemma new_node_safe {B} n (c : B -> list Z) a v (k : node * xArena -> fallible B) :
  (forall x, safe n c (k x)) -> safe n c (fbind k (xjson_p_new_node_ a v)).
Proof. intros H. unfold xjson_p_new_node_. destruct (xArenaAlloc a _) as [[p a']|]; [apply H|done]. Qed.

Lemma string_node_safe cur a : safe (pred (length cur)) (at_cur (A := node)) (xjson_p_string_node_ (cur, a)).
Proof.
  unfold xjson_p_string_node_. cbn [fst snd]. pose proof (tok_string_safe cur a) as H.
  destruct (xjson_tok_string cur a) as [[[[s cur'] a']|]|]; cbn [fbind]; [|done..].
  apply new_node_safe. intros [n a2]. cbn. lia.
Qed.

Lemma number_node_safe cur a : safe (pred (length cur)) (at_cur (A := node)) (xjson_p_number_ after (cur, a)).
Proof using Type*.
  unfold xjson_p_number_. cbn [fst snd]. pose proof (tok_number_safe cur) as H.
  destruct (xjson_tok_number after cur) as [[[x cur']|]|]; cbn [fbind] in *; [|done..].
  apply new_node_safe. intros [n a2]. exact H.
Qed.

Lemma literal_safe c lit v cur a : safe (pred (length cur)) (at_cur (A := node)) (xjson_p_literal (c :: lit) v (cur, a)).
Proof.
  unfold xjson_p_literal. cbn [fst snd]. destruct (xjson_tok_match cur (c :: lit)) as [[] cur'] eqn:E; [|done].
  apply match_length in E as [_ E]. specialize (E eq_refl). cbn [length] in E. apply new_node_safe. intros [n a2]. cbn. lia.
Qed.

(** Every value consumes a byte, so that the fuel suffices. *)
Lemma parser_safe fuel :
  (forall cur a, 2 * length cur < fuel -> safe (pred (length cur)) at_cur (xjson_p_value_ (D := D) fuel after (cur, a))) /\
  (forall c cur a, 2 * length cur + 1 < fuel -> safe (length cur) at_cur (xjson_p_array_ (D := D) fuel after c (cur, a))) /\
  (forall c cur a, 2 * length cur + 1 < fuel -> safe (length cur) at_cur (xjson_p_object_ (D := D) fuel after c (cur, a))).
Proof using Type*.
  induction fuel as [|fuel (IHv & IHa & IHo)]; [split; [|split]; intros; lia|]. split; [|split].
  - intros cur a Hf. cbn [xjson_p_value_ fst snd]. pose proof (skip_ws_length cur) as Hw.
    destruct (xjson_tok_skip_ws cur) as [|c rest] eqn:Es; [done|]. cbn [length] in Hw.
    apply (safe_le (pred (length (c :: rest)))); [cbn; lia|].
    destruct (c =? QUOTE)%Z; [apply string_node_safe|].
    destruct (c =? 123)%Z.
    { apply new_node_safe. intros [n a1]. destruct (xjson_tok_match rest [125%Z]) as [b cur1] eqn:Em.
      apply match_length in Em as [Em _]. destruct b; [cbn; lia|].
      eapply safe_bind; [apply IHo; lia|]. intros [c1 s1] H. unfold at_cur in *. cbn in *. lia. }
    destruct (c =? 91)%Z.
    { apply new_node_safe. intros [n a1]. destruct (xjson_tok_match rest [93%Z]) as [b cur1] eqn:Em.
      apply match_length in Em as [Em _]. destruct b; [cbn; lia|].
      eapply safe_bind; [apply IHa; lia|]. intros [c1 s1] H. unfold at_cur in *. cbn in *. lia. }
    destruct (c =? 116)%Z; [apply literal_safe|]. destruct (c =? 102)%Z; [apply literal_safe|].
    destruct (c =? 110)%Z; [apply literal_safe|]. destruct (_ || _); [apply number_node_safe|done].
  - intros c cur a Hf. cbn [xjson_p_array_]. eapply safe_bind; [apply IHv; lia|]. intros [e [cur1 a1]] H. unfold at_cur in H. cbn in H.
    cbn [fst snd]. destruct (xjson_tok_match cur1 [93%Z]) as [b cur2] eqn:E2. apply match_length in E2 as [E2 _].
    destruct b; [cbn; lia|]. destruct (xjson_tok_match cur2 [44%Z]) as [b cur3] eqn:E3.
    apply match_length in E3 as [_ E3]. destruct b; [|done]. specialize (E3 eq_refl). cbn [length] in E3.
    apply (safe_le (length cur3)); [lia|]. apply IHa. lia.
  - intros c cur a Hf. rewrite object_unfold. pose proof (tok_string_safe cur a) as Hs.
    destruct (xjson_tok_string cur a) as [[[[key cur0] a0]|]|]; cbn [fbind]; [|done..].
    destruct (xjson_tok_match cur0 [58%Z]) as [b cur1] eqn:E1. apply match_length in E1 as [E1 _]. destruct b; [|done].
    eapply safe_bind; [apply IHv; lia|]. intros [e [cur2 a2]] H. unfold at_cur in H. cbn in H. cbn [fst snd].
    destruct (xjson_tok_match cur2 [125%Z]) as [b cur3] eqn:E3. apply match_length in E3 as [E3 _].
    destruct b; [cbn; lia|]. destruct (xjson_tok_match cur3 [44%Z]) as [b cur4] eqn:E4.
    apply match_length in E4 as [_ E4]. destruct b; [|done]. specialize (E4 eq_refl). cbn [length] in E4.
    apply (safe_le (length cur4)); [lia|]. apply IHo. lia.
Qed.

End safe.

(** C12: On any bytes followed by a NUL in memory, whatever the length given
    and whatever the allocator answers, the parser returns a document or
    null: it never runs out of text, block or recursion. *)
Theorem json_parse_safe {D} `{!CDouble D, !CDoubleNul D} malloc alloc (mem : list Z) len copy :
  len <= length mem -> 0%Z ∈ drop len mem ->
  exists r : option (xJson_ D), xjson_do_parse_ malloc alloc (Some mem) len copy = Some r.
Proof.
  intros Hl Hz. unfold xjson_do_parse_. case_decide; [by eexists|]. rewrite decide_False by lia.
  destruct (xArenaCreate malloc alloc _) as [a|]; [|by eexists].
  assert (exists s r, drop len mem = s ++ 0%Z :: r) as Ha by (by apply list_elem_of_split).
  destruct (parser_safe (D := D) (drop len mem) Ha (json_parse_fuel len)) as [Hv _].
  specialize (Hv (take len mem) a). rewrite length_take in Hv. unfold json_parse_fuel in Hv at 1.
  specialize (Hv ltac:(lia)).
  destruct (xjson_p_value_ _ _ _) as [[[n s]|]|]; [|by eexists|done]. cbn [fbind].
  destruct (xjson_tok_skip_ws s.1); by eexists.
Qed.

#[export] Instance int_doubles_nul : CDoubleNul Z.
Proof. intros s r. apply strtoll_nul. Qed.

(** A length shorter than the text: the number is read past it. *)
Lemma json_parse_safe_witness :
  exists r : option (xJson_ Z),
    xjson_do_parse_ (malloc_at 4096) (fun _ => true) (Some [49; 50; 51; 0]%Z) 1 false = Some r.
Proof. apply json_parse_safe; [cbn; lia|]. cbn. repeat constructor. Defined.

(** The length does not bound a number: of the digits [123] given with
    length 1 the parser makes 123, and it reads outside a block that holds
    just the digit. *)
Theorem json_number_past_end :
  xJsonParse (D := Z) (malloc_at 4096) (fun _ => true) (Some [49; 50; 51; 0]%Z) 1 =
    ok (Node (Meta false true None 0) (VInt 123)) /\
  xJsonParse (D := Z) (malloc_at 4096) (fun _ => true) (Some [49]%Z) 1 = None.
Proof. split; vm_compute; reflexivity. Qed.
