(* ===== verification/JsonSax.v ===== *)
(** * JsonSax: the callback parser ([libx/x/json/json_sax.c])

    The same recursive descent as the DOM parser, with a callback per token
    instead of a node.  A callback maps the context to a result and a context;
    any result but 0 stops the parser.  The fields [error] and [depth] are
    written and never read, and are left out. *)

From S2P Require Import Prelude Decimal Arena JsonTok Json JsonPrint JsonText JsonRound JsonSafe.

Section sax.
Context {D : Type} `{!CDouble D} {C : Type}.

Record xJsonSaxHandler := Handler {
  on_null : C -> Z * C;
  on_bool : Z -> C -> Z * C;
  on_int : Z -> C -> Z * C;
  on_double : D -> C -> Z * C;
  on_string : list Z -> C -> Z * C;
  on_key : list Z -> C -> Z * C;
  on_array_begin : C -> Z * C;
  on_array_end : C -> Z * C;
  on_object_begin : C -> Z * C;
  on_object_end : C -> Z * C;
}.

Record xJsonSax_ := Sax {
  s_cur : list Z;
  s_arena : xArena;
  s_ctx : C;
}.

Definition with_cur (cur : list Z) (s : xJsonSax_) : xJsonSax_ := Sax cur (s_arena s) (s_ctx s).

Definition call (cb : C -> Z * C) (s : xJsonSax_) : Z * xJsonSax_ :=
  let '(r, ctx) := cb (s_ctx s) in (r, Sax (s_cur s) (s_arena s) ctx).

Context (h : xJsonSaxHandler).

Definition xjson_sax_string_ (s : xJsonSax_) : ub (Z * xJsonSax_) :=
  x ← xjson_tok_string (s_cur s) (s_arena s);
  match x with
  | None => Some ((-1)%Z, s)
  | Some (str, cur, a) => Some (call (on_string h str) (Sax cur a (s_ctx s)))
  end.

Definition xjson_sax_number_ (after : list Z) (s : xJsonSax_) : ub (Z * xJsonSax_) :=
  x ← xjson_tok_number after (s_cur s);
  match x with
  | None => Some ((-1)%Z, s)
  | Some (NumDouble d, cur) => Some (call (on_double h d) (with_cur cur s))
  | Some (NumInt z, cur) => Some (call (on_int h z) (with_cur cur s))
  end.

Definition xjson_sax_literal (lit : list Z) (cb : C -> Z * C) (s : xJsonSax_) : ub (Z * xJsonSax_) :=
  match xjson_tok_match (s_cur s) lit with
  | (true, cur) => Some (call cb (with_cur cur s))
  | (false, cur) => Some ((-1)%Z, with_cur cur s)
  end.

(** The loops pass a negative result on as -1. *)
Fixpoint xjson_sax_value_ (fuel : nat) (after : list Z) (s : xJsonSax_) : ub (Z * xJsonSax_) :=
  match fuel with
  | 0 => None
  | S fuel =>
      let cur := xjson_tok_skip_ws (s_cur s) in
      let s := with_cur cur s in
      match cur with
      | [] => Some ((-1)%Z, s)
      | c :: rest =>
          if (c =? QUOTE)%Z then xjson_sax_string_ s
          else if (c =? 123)%Z then
            let '(r, s) := call (on_object_begin h) (with_cur rest s) in
            if negb (r =? 0)%Z then Some (r, s) else
            match xjson_tok_match (s_cur s) [125%Z] with
            | (true, cur) => Some (call (on_object_end h) (with_cur cur s))
            | (false, cur) => xjson_sax_object_ fuel after (with_cur cur s)
            end
          else if (c =? 91)%Z then
            let '(r, s) := call (on_array_begin h) (with_cur rest s) in
            if negb (r =? 0)%Z then Some (r, s) else
            match xjson_tok_match (s_cur s) [93%Z] with
            | (true, cur) => Some (call (on_array_end h) (with_cur cur s))
            | (false, cur) => xjson_sax_array_ fuel after (with_cur cur s)
            end
          else if (c =? 116)%Z then xjson_sax_literal lit_true (on_bool h 1) s
          else if (c =? 102)%Z then xjson_sax_literal lit_false (on_bool h 0) s
          else if (c =? 110)%Z then xjson_sax_literal lit_null (on_null h) s
          else if (c =? 45)%Z || is_digit c then xjson_sax_number_ after s
          else Some ((-1)%Z, s)
      end
  end
with xjson_sax_array_ (fuel : nat) (after : list Z) (s : xJsonSax_) : ub (Z * xJsonSax_) :=
  match fuel with
  | 0 => None
  | S fuel =>
      '(r, s) ← xjson_sax_value_ fuel after s;
      if negb (r =? 0)%Z then Some (if (r <? 0)%Z then (-1)%Z else r, s) else
      match xjson_tok_match (s_cur s) [93%Z] with
      | (true, cur) => Some (call (on_array_end h) (with_cur cur s))
      | (false, cur) =>
          match xjson_tok_match cur [44%Z] with
          | (true, cur) => xjson_sax_array_ fuel after (with_cur cur s)
          | (false, cur) => Some ((-1)%Z, with_cur cur s)
          end
      end
  end
with xjson_sax_object_ (fuel : nat) (after : list Z) (s : xJsonSax_) : ub (Z * xJsonSax_) :=
  match fuel with
  | 0 => None
  | S fuel =>
      x ← xjson_tok_string (s_cur s) (s_arena s);
      match x with
      | None => Some ((-1)%Z, s)
      | Some (key, cur, a) =>
          match xjson_tok_match cur [58%Z] with
          | (false, cur) => Some ((-1)%Z, Sax cur a (s_ctx s))
          | (true, cur) =>
              let '(r, s) := call (on_key h key) (Sax cur a (s_ctx s)) in
              if negb (r =? 0)%Z then Some (r, s) else
              '(r, s) ← xjson_sax_value_ fuel after s;
              if negb (r =? 0)%Z then Some (if (r <? 0)%Z then (-1)%Z else r, s) else
              match xjson_tok_match (s_cur s) [125%Z] with
              | (true, cur) => Some (call (on_object_end h) (with_cur cur s))
              | (false, cur) =>
                  match xjson_tok_match cur [44%Z] with
                  | (true, cur) => xjson_sax_object_ fuel after (with_cur cur s)
                  | (false, cur) => Some ((-1)%Z, with_cur cur s)
                  end
              end
          end
      end
  end.

(** The result and the context at the end. *)
Definition xJsonSaxParse (malloc : Z -> option Z) (alloc : oracle) (json : option (list Z)) (len : nat) (ctx : C)
    : ub (Z * C) :=
  match json with
  | None => Some ((-1)%Z, ctx)
  | Some mem =>
      if decide (len = 0) then Some ((-1)%Z, ctx) else
      if decide (length mem < len) then None else
      match xArenaCreate malloc alloc 4096 with
      | None => Some ((-1)%Z, ctx)
      | Some a =>
          '(r, s) ← xjson_sax_value_ (json_parse_fuel len) (drop len mem) (Sax (take len mem) a ctx);
          match xjson_tok_skip_ws (s_cur s) with
          | _ :: _ => Some (if (r =? 0)%Z then (-1)%Z else r, s_ctx s)
          | [] => Some (r, s_ctx s)
          end
      end
  end.

(** ** The callbacks a document stands for *)

Inductive event :=
  | EvNull
  | EvBool (b : Z)
  | EvInt (z : Z)
  | EvDouble (d : D)
  | EvString (s : list Z)
  | EvKey (s : list Z)
  | EvArrayBegin
  | EvArrayEnd
  | EvObjectBegin
  | EvObjectEnd.

Definition handle (e : event) : C -> Z * C :=
  match e with
  | EvNull => on_null h
  | EvBool b => on_bool h b
  | EvInt z => on_int h z
  | EvDouble d => on_double h d
  | EvString s => on_string h s
  | EvKey s => on_key h s
  | EvArrayBegin => on_array_begin h
  | EvArrayEnd => on_array_end h
  | EvObjectBegin => on_object_begin h
  | EvObjectEnd => on_object_end h
  end.

(** In document order. *)
Fixpoint events (n : xJson_ D) : list event :=
  match n with Node _ v =>
    match v with
    | VNull => [EvNull]
    | VBool b => [EvBool b]
    | VInt z => [EvInt z]
    | VDouble d => [EvDouble d]
    | VString s => [EvString s]
    | VArray c => EvArrayBegin :: (c ≫= events) ++ [EvArrayEnd]
    | VObject c => EvObjectBegin :: (c ≫= fun x => EvKey (default [] (m_key (meta x))) :: events x) ++ [EvObjectEnd]
    end
  end.

(** The callbacks in order, up to the first that does not return 0. *)
Fixpoint run_events (evs : list event) (ctx : C) : Z * C :=
  match evs with
  | [] => (0%Z, ctx)
  | e :: evs =>
      let '(r, ctx) := handle e ctx in
      if (r =? 0)%Z then run_events evs ctx else (r, ctx)
  end.

Lemma run_events_app l1 l2 ctx :
  run_events (l1 ++ l2) ctx =
    let '(r, ctx) := run_events l1 ctx in if (r =? 0)%Z then run_events l2 ctx else (r, ctx).
Proof.
  revert ctx. induction l1 as [|e l1 IH]; intros ctx; [done|]. cbn [app run_events].
  destruct (handle e ctx) as [r ctx']. destruct (r =? 0)%Z eqn:E; [apply IH|]. by rewrite E.
Qed.

(** ** The two parsers side by side *)

(** An arena that grants what the other one grants. *)
Definition arena_le (b a : xArena) : Prop :=
  arena16 a /\ arena16 b /\ (used b <= used a)%Z /\ (capacity a <= capacity b)%Z.

Lemma arena_le_alloc b a size p a' :
  arena_le b a -> (0 <= size < 2 ^ 62)%Z -> xArenaAlloc a size = Some (p, a') ->
  arena_le b a' /\ exists q b', xArenaAlloc b size = Some (q, b') /\ arena_le b' a'.
Proof.
  intros (Ha & Hb & Hu & Hc) Hs E. pose proof (xArenaAlloc_used a size Ha Hs) as Ea.
  pose proof (xArenaAlloc_used b size Hb Hs) as Eb. rewrite E in Ea. cbn [fmap option_fmap option_map snd] in Ea.
  cbv zeta in Ea, Eb. destruct (Z.ltb_spec (capacity a) (pad16 (used a) + size)); [done|]. injection Ea as ->.
  pose proof (pad16_bounds (used a)). pose proof (pad16_bounds (used b)).
  assert (pad16 (used b) <= pad16 (used a))%Z.
  { apply (align_up_least (used b) 16 (pad16 (used a))); [lia|lia|]. by apply (align_up_bounds (used a) 16). }
  assert (0 <= used b)%Z by (destruct Hb as ((? & ?) & _); unfold used; lia).
  assert (arena16 (at_used a (pad16 (used a) + size))) by (apply arena16_at_used; [done|lia]).
  split; [split; [done|]; split; [done|]; split; [rewrite used_at_used; lia|exact Hc]|].
  rewrite (proj2 (Z.ltb_ge _ _)) in Eb by lia.
  destruct (xArenaAlloc b size) as [[q b']|]; [|done]. injection Eb as ->. exists q. eexists. split; [done|].
  split; [done|]. split; [apply arena16_at_used; [done|lia]|]. split; [|exact Hc]. rewrite !used_at_used. lia.
Qed.

Lemma tok_string_le b a cur s cur' a' :
  arena_le b a -> (Z.of_nat (length cur) < 2 ^ 61)%Z -> xjson_tok_string cur a = ok (s, cur', a') ->
  exists b', xjson_tok_string cur b = ok (s, cur', b') /\ arena_le b' a'.
Proof.
  intros Hle Hl E. destruct cur as [|q start]; [done|]. cbn [xjson_tok_string length] in *.
  destruct (negb _); [done|]. destruct (find_close start 0 false) as [[[len esc] t]|] eqn:Ef; [|done].
  destruct (find_close_inside _ _ _ _ _ _ Ef) as [_ Hlen].
  destruct (xArenaAlloc a (Z.of_nat len + 1)) as [[p a1]|] eqn:Ea; [|done].
  destruct (arena_le_alloc b a (Z.of_nat len + 1) p a1 Hle ltac:(lia) Ea) as (_ & q' & b1 & -> & Hle1).
  destruct (negb esc).
  - destruct (mem_read start 0 len) as [src|]; [|done]. cbn [mbind option_bind] in *.
    destruct (mem_write _ 0 src) as [buf|]; [|done]. cbn [mbind option_bind] in *.
    destruct (mem_set buf len 0%Z) as [buf'|]; [|done]. cbn [mbind option_bind] in *. injection E as <- <- <-. by eexists.
  - destruct (mem_read start 0 (len + 1)) as [src|]; [|done]. cbn [mbind option_bind] in *.
    destruct (unescape _ _) as [[[buf dst]|]|]; [|done..]. cbn [fbind] in *.
    destruct (mem_set buf dst 0%Z) as [buf'|]; [|done]. cbn [mbind option_bind] in *. injection E as <- <- <-. by eexists.
Qed.

Lemma fbind_inv {A B} (m : fallible A) (k : A -> fallible B) y :
  fbind k m = ok y -> exists x, m = ok x /\ k x = ok y.
Proof. destruct m as [[x|]|]; [|done..]. by exists x. Qed.

(** The events have been delivered, and the parsers are at the same place; or
    a callback has stopped this one. *)
Definition delivered (m : ub (Z * xJsonSax_)) (evs : list event) (ctx : C) (cur : list Z) (a : xArena) : Prop :=
  let '(r, c) := run_events evs ctx in
  if (r =? 0)%Z then exists b, m = Some (0%Z, Sax cur b c) /\ arena_le b a
  else exists s, m = Some (r, s) /\ s_ctx s = c.

(** Results are not negative: a nested parser would turn them into -1. *)
Hypothesis Hnonneg : forall e ctx, (0 <= (handle e ctx).1)%Z.

Lemma run_events_nonneg evs ctx : (0 <= (run_events evs ctx).1)%Z.
Proof using Hnonneg.
  revert ctx. induction evs as [|e evs IH]; intros ctx; [done|]. cbn [run_events].
  pose proof (Hnonneg e ctx). destruct (handle e ctx) as [r ctx']. by destruct (r =? 0)%Z.
Qed.

Lemma delivered_call e cur b a ctx :
  arena_le b a -> delivered (Some (call (handle e) (Sax cur b ctx))) [e] ctx cur a.
Proof using.
  clear Hnonneg. intros Hle. unfold delivered, call. cbn [run_events s_ctx s_cur s_arena].
  destruct (handle e ctx) as [r c]. destruct (Z.eqb_spec r 0) as [->|Hr].
  - cbn. by exists b.
  - rewrite (proj2 (Z.eqb_neq _ _)) by done. by eexists.
Qed.

(** What follows a part that may have been stopped. *)
Lemma delivered_bind m evs1 evs2 ctx cur a cur' a' (k : Z * xJsonSax_ -> ub (Z * xJsonSax_)) :
  delivered m evs1 ctx cur a ->
  (forall r s, (0 < r)%Z -> k (r, s) = Some (r, s)) ->
  (forall b c, arena_le b a -> delivered (k (0%Z, Sax cur b c)) evs2 c cur' a') ->
  delivered (x ← m; k x) (evs1 ++ evs2) ctx cur' a'.
Proof using Hnonneg.
  intros Hm Hstop Hk. unfold delivered in *. rewrite run_events_app. pose proof (run_events_nonneg evs1 ctx) as Hn.
  destruct (run_events evs1 ctx) as [r c]. cbn [fst] in Hn. destruct (Z.eqb_spec r 0) as [->|Hr].
  - destruct Hm as (b & -> & Hle). cbn [mbind option_bind]. by apply Hk.
  - destruct Hm as (s & -> & Hs). cbn [mbind option_bind]. rewrite Hstop by lia.
    rewrite (proj2 (Z.eqb_neq _ _)) by done. by exists s.
Qed.

Lemma new_node_inv a v x : xjson_p_new_node_ (D := D) a v = ok x ->
  exists p a', x = (Node (Meta false true None 0) v, a') /\ xArenaAlloc a SIZEOF_XJSON = Some (p, a').
Proof using.
  clear Hnonneg. unfold xjson_p_new_node_. destruct (xArenaAlloc a SIZEOF_XJSON) as [[p a']|]; [|done]. intros [= <-]. eauto.
Qed.

Lemma node_le b a v n a' :
  arena_le b a -> xjson_p_new_node_ (D := D) a v = ok (n, a') -> n = Node (Meta false true None 0) v /\ arena_le b a'.
Proof using.
  clear Hnonneg. intros Hle E. destruct (new_node_inv _ _ _ E) as (p & a1 & [= -> ->] & Ea). split; [done|].
  by destruct (arena_le_alloc b a SIZEOF_XJSON p a1 Hle ltac:(by split) Ea).
Qed.

Lemma string_delivered cur a n cur' a' b ctx :
  (Z.of_nat (length cur) < 2 ^ 61)%Z -> arena_le b a -> xjson_p_string_node_ (cur, a) = ok (n, (cur', a')) ->
  delivered (xjson_sax_string_ (Sax cur b ctx)) (events n) ctx cur' a'.
Proof using.
  clear Hnonneg. intros Hl Hle E. unfold xjson_p_string_node_ in E. cbn [fst snd] in E.
  apply fbind_inv in E as ([[s cur1] a1] & Es & E). apply fbind_inv in E as ([n1 a2] & En & [= <- <- <-]).
  destruct (tok_string_le b a cur s cur1 a1 Hle Hl Es) as (b1 & Eb & Hle1).
  destruct (node_le b1 a1 _ _ _ Hle1 En) as [-> Hle2].
  unfold xjson_sax_string_. cbn [s_cur s_arena s_ctx]. rewrite Eb. cbn [mbind option_bind ok]. by apply (delivered_call (EvString s)).
Qed.

Lemma number_delivered after cur a n cur' a' b ctx :
  arena_le b a -> xjson_p_number_ after (cur, a) = ok (n, (cur', a')) ->
  delivered (xjson_sax_number_ after (Sax cur b ctx)) (events n) ctx cur' a'.
Proof using.
  clear Hnonneg. intros Hle E. unfold xjson_p_number_ in E. cbn [fst snd] in E.
  apply fbind_inv in E as ([x cur1] & Ex & E). apply fbind_inv in E as ([n1 a1] & En & [= <- <- <-]).
  destruct (node_le b a _ _ _ Hle En) as [-> Hle1].
  unfold xjson_sax_number_. cbn [s_cur]. rewrite Ex. cbn [mbind option_bind ok].
  destruct x as [z|d]; [by apply (delivered_call (EvInt z))|by apply (delivered_call (EvDouble d))].
Qed.

Lemma literal_delivered lit v e cur a n cur' a' b ctx :
  arena_le b a -> (forall m, events (Node m v) = [e]) -> xjson_p_literal lit v (cur, a) = ok (n, (cur', a')) ->
  delivered (xjson_sax_literal lit (handle e) (Sax cur b ctx)) (events n) ctx cur' a'.
Proof using.
  clear Hnonneg. intros Hle Hv E. unfold xjson_p_literal in E. cbn [fst snd] in E.
  destruct (xjson_tok_match cur lit) as [[] cur1] eqn:Em; [|done].
  apply fbind_inv in E as ([n1 a1] & En & [= <- <- <-]). destruct (node_le b a _ _ _ Hle En) as [-> Hle1].
  unfold xjson_sax_literal. cbn [s_cur]. rewrite Em, Hv. by apply delivered_call.
Qed.

Lemma events_owned n : events (set_owned n) = events n.
Proof. by destruct n. Qed.

Lemma events_key k l n : events (set_key k l n) = events n.
Proof. by destruct n. Qed.

Definition element_events (c : list (xJson_ D)) : list event := c ≫= events.
Definition member_events (c : list (xJson_ D)) : list event :=
  c ≫= fun x => EvKey (default [] (m_key (meta x))) :: events x.

(** The DOM parser's steps, for the three functions with fuel [fuel]. *)
Definition value_sim (after : list Z) (fuel : nat) : Prop :=
  forall cur a n cur' a',
    (Z.of_nat (length cur) < 2 ^ 61)%Z -> xjson_p_value_ (D := D) fuel after (cur, a) = ok (n, (cur', a')) ->
    length cur' <= length cur /\
    forall b ctx, arena_le b a -> delivered (xjson_sax_value_ fuel after (Sax cur b ctx)) (events n) ctx cur' a'.

Definition array_sim (after : list Z) (fuel : nat) : Prop :=
  forall acc cur a c cur' a',
    (Z.of_nat (length cur) < 2 ^ 61)%Z -> xjson_p_array_ (D := D) fuel after acc (cur, a) = ok (c, (cur', a')) ->
    exists new, c = acc ++ new /\ length cur' <= length cur /\
      forall b ctx, arena_le b a ->
        delivered (xjson_sax_array_ fuel after (Sax cur b ctx)) (element_events new ++ [EvArrayEnd]) ctx cur' a'.

Definition object_sim (after : list Z) (fuel : nat) : Prop :=
  forall acc cur a c cur' a',
    (Z.of_nat (length cur) < 2 ^ 61)%Z -> xjson_p_object_ (D := D) fuel after acc (cur, a) = ok (c, (cur', a')) ->
    exists new, c = acc ++ new /\ length cur' <= length cur /\
      forall b ctx, arena_le b a ->
        delivered (xjson_sax_object_ fuel after (Sax cur b ctx)) (member_events new ++ [EvObjectEnd]) ctx cur' a'.

(** A positive result is passed on by the loops. *)
Lemma stop_passed r (s : xJsonSax_) (k : ub (Z * xJsonSax_)) :
  (0 < r)%Z -> (if negb (r =? 0)%Z then Some (if (r <? 0)%Z then (-1)%Z else r, s) else k) = Some (r, s).
Proof using. intros H. by rewrite (proj2 (Z.eqb_neq r 0)), (proj2 (Z.ltb_ge r 0)) by lia. Qed.

Lemma element_events_cons n c : element_events (set_owned n :: c) = events n ++ element_events c.
Proof using. unfold element_events. by rewrite bind_cons, events_owned. Qed.

Lemma member_events_cons k n c :
  member_events (set_key (Some k) (length k) (set_owned n) :: c) = EvKey k :: events n ++ member_events c.
Proof using. unfold member_events. rewrite bind_cons, events_key, events_owned. by destruct n. Qed.

Lemma array_step after fuel : value_sim after fuel -> array_sim after fuel -> array_sim after (S fuel).
Proof using Hnonneg.
  intros IHv IHa acc cur a c cur' a' Hl E. cbn [xjson_p_array_] in E.
  apply fbind_inv in E as ([n [cur1 a1]] & Ev & E). cbn [fst snd] in E.
  destruct (IHv cur a n cur1 a1 Hl Ev) as [Hl1 Hd].
  destruct (xjson_tok_match cur1 [93%Z]) as [[] cur2] eqn:E2; pose proof (match_length _ _ _ _ E2) as [Hl2 _].
  - injection E as <- <- <-. exists [set_owned n]. split; [done|]. split; [lia|]. intros b ctx Hle.
    rewrite element_events_cons. cbn [element_events mbind list_bind]. rewrite app_nil_r.
    eapply delivered_bind; [by apply Hd|intros; by apply stop_passed|]. intros b1 c1 Hle1.
    change (negb (0 =? 0)%Z) with false. cbn [s_cur]. rewrite E2. by apply (delivered_call EvArrayEnd).
  - destruct (xjson_tok_match cur2 [44%Z]) as [[] cur3] eqn:E3; [|done]. pose proof (match_length _ _ _ _ E3) as [Hl3 _].
    destruct (IHa _ cur3 a1 c cur' a' ltac:(lia) E) as (new & -> & Hl4 & Hd').
    exists (set_owned n :: new). split; [by rewrite <- app_assoc|]. split; [lia|]. intros b ctx Hle.
    rewrite element_events_cons, <- app_assoc.
    eapply delivered_bind; [by apply Hd|intros; by apply stop_passed|]. intros b1 c1 Hle1.
    change (negb (0 =? 0)%Z) with false. cbn [s_cur]. rewrite E2, E3. by apply Hd'.
Qed.

Lemma delivered_cons_call e evs ctx cur b a cur' a' (k : Z * xJsonSax_ -> ub (Z * xJsonSax_)) :
  arena_le b a ->
  (forall r s, (0 < r)%Z -> k (r, s) = Some (r, s)) ->
  (forall c, delivered (k (0%Z, Sax cur b c)) evs c cur' a') ->
  delivered (k (call (handle e) (Sax cur b ctx))) (e :: evs) ctx cur' a'.
Proof using Hnonneg.
  intros Hle Hstop Hk. unfold delivered, call in *. cbn [run_events s_cur s_arena s_ctx].
  pose proof (Hnonneg e ctx). destruct (handle e ctx) as [r c]. cbn [fst] in *. destruct (Z.eqb_spec r 0) as [->|Hr].
  - apply Hk.
  - rewrite Hstop by lia. rewrite (proj2 (Z.eqb_neq r 0)) by done. by eexists.
Qed.

(** Use it on the first callback of the goal, which delivers [e]. *)
Ltac by_call e :=
  lazymatch goal with |- delivered ?m _ _ _ _ =>
    match m with context [call ?f ?s] =>
      let p := eval pattern (call f s) in m in
      lazymatch p with ?K _ => change m with (K (call (handle e) s)); eapply (delivered_cons_call e) with (k := K) end
    end
  end.

Lemma stop_returned r (s : xJsonSax_) (k : ub (Z * xJsonSax_)) :
  (0 < r)%Z -> (if negb (r =? 0)%Z then Some (r, s) else k) = Some (r, s).
Proof using. intros H. by rewrite (proj2 (Z.eqb_neq r 0)) by lia. Qed.

Lemma object_step after fuel : value_sim after fuel -> object_sim after fuel -> object_sim after (S fuel).
Proof using Hnonneg.
  intros IHv IHo acc cur a c cur' a' Hl E. rewrite object_unfold in E.
  apply fbind_inv in E as ([[key cur0] a0] & Es & E).
  pose proof (tok_string_safe cur a) as Hl0. rewrite Es in Hl0. cbn [ok] in Hl0.
  destruct (xjson_tok_match cur0 [58%Z]) as [[] cur1] eqn:E1; [|done]. pose proof (match_length _ _ _ _ E1) as [Hl1 _].
  apply fbind_inv in E as ([n [cur2 a2]] & Ev & E). cbn [fst snd] in E.
  destruct (IHv cur1 a0 n cur2 a2 ltac:(lia) Ev) as [Hl2 Hd].
  destruct (xjson_tok_match cur2 [125%Z]) as [[] cur3] eqn:E3; pose proof (match_length _ _ _ _ E3) as [Hl3 _].
  - injection E as <- <- <-. exists [set_key (Some key) (length key) (set_owned n)]. split; [done|]. split; [lia|].
    intros b ctx Hle. rewrite member_events_cons. cbn [member_events mbind list_bind app]. rewrite app_nil_r.
    destruct (tok_string_le b a cur key cur0 a0 Hle Hl Es) as (b0 & Eb & Hle0).
    cbn [xjson_sax_object_ s_cur s_arena s_ctx]. rewrite Eb. cbn [mbind option_bind ok]. rewrite E1.
    by_call (EvKey key); [exact Hle0|intros; by apply stop_returned|]. intros c1. change (negb (0 =? 0)%Z) with false. cbn beta iota.
    eapply delivered_bind; [by apply Hd|intros; by apply stop_passed|]. intros b1 c2 Hle1.
    change (negb (0 =? 0)%Z) with false. cbn [s_cur]. rewrite E3. by apply (delivered_call EvObjectEnd).
  - destruct (xjson_tok_match cur3 [44%Z]) as [[] cur4] eqn:E4; [|done]. pose proof (match_length _ _ _ _ E4) as [Hl4 _].
    destruct (IHo _ cur4 a2 c cur' a' ltac:(lia) E) as (new & -> & Hl5 & Hd').
    exists (set_key (Some key) (length key) (set_owned n) :: new). split; [by rewrite <- app_assoc|]. split; [lia|].
    intros b ctx Hle. rewrite member_events_cons. cbn [app]. rewrite <- app_assoc.
    destruct (tok_string_le b a cur key cur0 a0 Hle Hl Es) as (b0 & Eb & Hle0).
    cbn [xjson_sax_object_ s_cur s_arena s_ctx]. rewrite Eb. cbn [mbind option_bind ok]. rewrite E1.
    by_call (EvKey key); [exact Hle0|intros; by apply stop_returned|]. intros c1. change (negb (0 =? 0)%Z) with false. cbn beta iota.
    eapply delivered_bind; [by apply Hd|intros; by apply stop_passed|]. intros b1 c2 Hle1.
    change (negb (0 =? 0)%Z) with false. cbn [s_cur]. rewrite E3, E4. by apply Hd'.
Qed.

(** A value in brackets; [dom] and [sax] are the loops behind the opening one. *)
Lemma bracket_sim ev_open ev_close lit (mk : list (xJson_ D) -> xJsonValue D (xJson_ D))
    (dom : list Z * xArena -> fallible (list (xJson_ D) * (list Z * xArena))) (sax : xJsonSax_ -> ub (Z * xJsonSax_))
    evs rest a n cur' a' :
  (forall m c, events (Node m (mk c)) = ev_open :: evs c ++ [ev_close]) -> evs [] = [] ->
  (forall cur a c cur' a', (Z.of_nat (length cur) < 2 ^ 61)%Z -> dom (cur, a) = ok (c, (cur', a')) ->
     length cur' <= length cur /\
     forall b ctx, arena_le b a -> delivered (sax (Sax cur b ctx)) (evs c ++ [ev_close]) ctx cur' a') ->
  (Z.of_nat (length rest) < 2 ^ 61)%Z ->
  ('(_, a) ⇐ xjson_p_new_node_ a (mk []);
   match xjson_tok_match rest lit with
   | (true, cur) => ok (Node (Meta false true None 0) (mk []), (cur, a))
   | (false, cur) => '(c, s) ⇐ dom (cur, a); ok (Node (Meta false true None 0) (mk c), s)
   end) = ok (n, (cur', a')) ->
  length cur' <= length rest /\
  forall b ctx, arena_le b a ->
    delivered
      (let '(r, s) := call (handle ev_open) (Sax rest b ctx) in
       if negb (r =? 0)%Z then Some (r, s) else
       match xjson_tok_match (s_cur s) lit with
       | (true, cur) => Some (call (handle ev_close) (Sax cur (s_arena s) (s_ctx s)))
       | (false, cur) => sax (Sax cur (s_arena s) (s_ctx s))
       end) (events n) ctx cur' a'.
Proof using Hnonneg.
  intros Hev Hnil Hloop Hl E. apply fbind_inv in E as ([x a1] & En & E).
  destruct (xjson_tok_match rest lit) as [[] cur1] eqn:E2; pose proof (match_length _ _ _ _ E2) as [Hl2 _].
  - injection E as <- <- <-. split; [lia|]. intros b ctx Hle. rewrite Hev, Hnil.
    destruct (node_le b a _ _ _ Hle En) as [_ Hle1].
    by_call ev_open; [exact Hle1|intros; by apply stop_returned|]. intros c1.
    change (negb (0 =? 0)%Z) with false. cbn [s_cur]. rewrite E2. by apply delivered_call.
  - apply fbind_inv in E as ([ch [cur2 a2]] & Eo & [= <- <- <-]).
    destruct (Hloop cur1 a1 ch cur2 a2 ltac:(lia) Eo) as [Hl3 Hd]. split; [lia|]. intros b ctx Hle. rewrite Hev.
    destruct (node_le b a _ _ _ Hle En) as [_ Hle1].
    by_call ev_open; [exact Hle1|intros; by apply stop_returned|]. intros c1.
    change (negb (0 =? 0)%Z) with false. cbn [s_cur]. rewrite E2. by apply Hd.
Qed.

Lemma value_step after fuel : array_sim after fuel -> object_sim after fuel -> value_sim after (S fuel).
Proof using Hnonneg.
  intros IHa IHo cur a n cur' a' Hl E. cbn [xjson_p_value_ fst snd] in E. pose proof (skip_ws_length cur) as Hw.
  destruct (xjson_tok_skip_ws cur) as [|c rest] eqn:Es; [done|]. cbn [length] in Hw.
  assert (forall m : fallible (xJson_ D * (list Z * xArena)),
            safe (pred (length (c :: rest))) at_cur m -> m = ok (n, (cur', a')) -> length cur' <= length cur) as Hlen.
  { intros m Hm ->. unfold at_cur in Hm. cbn in Hm. lia. }
  cbn [xjson_sax_value_ s_cur]. rewrite Es. unfold with_cur. cbn [s_arena s_ctx].
  destruct (c =? QUOTE)%Z.
  { split; [eapply Hlen; [apply string_node_safe|exact E]|]. intros b ctx Hle. apply (string_delivered _ a); [cbn; lia|done|done]. }
  destruct (c =? 123)%Z.
  { destruct (bracket_sim EvObjectBegin EvObjectEnd [125%Z] VObject (xjson_p_object_ fuel after []) (xjson_sax_object_ fuel after)
        member_events rest a n cur' a') as [Hl1 Hd]; [done|done| |lia|exact E|split; [lia|exact Hd]].
    intros cur1 a1 ch cur2 a2 Hl1 Eo. destruct (IHo [] cur1 a1 ch cur2 a2 Hl1 Eo) as (new & -> & ? & ?). done. }
  destruct (c =? 91)%Z.
  { destruct (bracket_sim EvArrayBegin EvArrayEnd [93%Z] VArray (xjson_p_array_ fuel after []) (xjson_sax_array_ fuel after)
        element_events rest a n cur' a') as [Hl1 Hd]; [done|done| |lia|exact E|split; [lia|exact Hd]].
    intros cur1 a1 ch cur2 a2 Hl1 Eo. destruct (IHa [] cur1 a1 ch cur2 a2 Hl1 Eo) as (new & -> & ? & ?). done. }
  destruct (c =? 116)%Z.
  { split; [eapply Hlen; [apply literal_safe|exact E]|]. intros b ctx Hle. by apply (literal_delivered _ (VBool 1) (EvBool 1) _ a). }
  destruct (c =? 102)%Z.
  { split; [eapply Hlen; [apply literal_safe|exact E]|]. intros b ctx Hle. by apply (literal_delivered _ (VBool 0) (EvBool 0) _ a). }
  destruct (c =? 110)%Z.
  { split; [eapply Hlen; [apply literal_safe|exact E]|]. intros b ctx Hle. by apply (literal_delivered _ VNull EvNull _ a). }
  destruct (_ || _); [|done]. split; [|intros b ctx Hle; by apply (number_delivered after _ a)].
  unfold xjson_p_number_ in E. cbn [fst snd] in E. apply fbind_inv in E as ([x cur1] & Ex & E).
  apply fbind_inv in E as ([n1 a1] & _ & [= _ <- _]). clear - Ex Hw. unfold xjson_tok_number in Ex.
  destruct (number_scan (c :: rest)) as [[d t]|] eqn:En; [|done]. apply number_scan_length in En. cbn in En.
  destruct d; [destruct (strtod _)|destruct (strtoll _)]; try done; injection Ex as <- <-; lia.
Qed.

Lemma parsers_sim after fuel : value_sim after fuel /\ array_sim after fuel /\ object_sim after fuel.
Proof using Hnonneg.
  induction fuel as [|fuel (IHv & IHa & IHo)].
  - unfold value_sim, array_sim, object_sim. split; [|split]; by intros.
  - split; [by apply value_step|]. split; [by apply array_step|by apply object_step].
Qed.

End sax.

Arguments xJsonSaxHandler : clear implicits.


(** A handler that logs what it is given and stops with [stop] at an integer. *)
Definition log_handler (stop : Z) : xJsonSaxHandler Z (list Z) :=
  let log (x r : Z) := fun ctx : list Z => (r, ctx ++ [x]) in
  Handler (log 0%Z 0%Z) (fun b => log b 0%Z) (fun z => log z stop) (fun d => log d 0%Z)
    (fun s => log (Z.of_nat (length s)) 0%Z) (fun s => log (Z.of_nat (length s)) 0%Z)
    (log 91%Z 0%Z) (log 93%Z 0%Z) (log 123%Z 0%Z) (log 125%Z 0%Z).

Definition sample_text : list Z := Eval vm_compute in render false 0 sample ++ [0%Z].


(** A negative result of a callback inside an array comes out as -1;
    outside it comes out as it is. *)
Theorem json_sax_negative_lost :
  xJsonSaxParse (log_handler (-7)) (malloc_at 8192) (fun _ => true) (Some [55; 0]%Z) 1 [] = Some (-7, [7])%Z /\
  xJsonSaxParse (log_handler (-7)) (malloc_at 8192) (fun _ => true) (Some [91; 55; 93; 0]%Z) 3 [] = Some (-1, [91; 7])%Z.
Proof. split; vm_compute; reflexivity. Qed.
