(* ===== verification/JsonDom.v ===== *)
(** * JsonDom: building and changing documents ([libx/x/json/json.c])

    Objects and arrays are lists of children.  [free] is undefined on memory
    that did not come from [malloc]: on a node or key in a parser's arena.  A
    key is the bytes before its NUL; [strcmp] compares up to the first NUL. *)

From S2P Require Import Prelude Decimal Arena JsonTok Json JsonPrint JsonRound.

(** The bytes a C string function sees. *)
Fixpoint cstr (s : list Z) : list Z :=
  match s with
  | c :: s => if (c =? 0)%Z then [] else c :: cstr s
  | [] => []
  end.

Section dom.
Context {D : Type} `{!CDouble D}.

Abbreviation node := (xJson_ D).

(** ** Nodes *)

Definition xjson_new_ (alloc : oracle) (v : xJsonValue D node) : option node :=
  if alloc SIZEOF_XJSON then Some (Node (Meta false false None 0) v) else None.

Definition xJsonNewNull (alloc : oracle) : option node := xjson_new_ alloc VNull.
Definition xJsonNewBool (alloc : oracle) (v : Z) : option node :=
  xjson_new_ alloc (VBool (if (v =? 0)%Z then 0 else 1)%Z).
Definition xJsonNewInt (alloc : oracle) (v : Z) : option node := xjson_new_ alloc (VInt v).
Definition xJsonNewDouble (alloc : oracle) (v : D) : option node := xjson_new_ alloc (VDouble v).
Definition xJsonNewArray (alloc : oracle) : option node := xjson_new_ alloc (VArray []).
Definition xJsonNewObject (alloc : oracle) : option node := xjson_new_ alloc (VObject []).

(** [len] bytes of [str] (null: [None], then of the empty literal) are copied
    into a block of their own. *)
Definition xJsonNewStringN (alloc : oracle) (s : option (list Z)) (len : nat) : ub (option node) :=
  match xjson_new_ alloc (VString []) with
  | None => Some None
  | Some _ =>
      if negb (alloc (Z.of_nat len + 1)%Z) then Some None else
      bytes ← mem_read (default [0%Z] s) 0 len;
      Some (Some (Node (Meta false false None 0) (VString bytes)))
  end.

(** [str] with its NUL. *)
Definition xJsonNewString (alloc : oracle) (s : option (list Z)) : ub (option node) :=
  xJsonNewStringN alloc s (match s with Some s => length (cstr s) | None => 0 end).

(** The children first, then the key, the string and the node: defined when
    all of it came from [malloc]. *)
Fixpoint xjson_free_subtree_ (n : node) : ub unit :=
  match n with Node m v =>
    _ ← (match v with
         | VArray c | VObject c =>
             (fix all (c : list node) : ub unit :=
                match c with [] => Some tt | n :: c => _ ← xjson_free_subtree_ n; all c end) c
         | _ => Some tt
         end);
    if m_arena m then None else Some tt
  end.

(** An owned node is left alone; a node of a parse tree takes the arena with
    it. *)
Definition xJsonFree (n : option node) : ub unit :=
  match n with
  | None => Some tt
  | Some n =>
      if m_owned (meta n) then Some tt
      else if m_arena (meta n) then Some tt
      else xjson_free_subtree_ n
  end.

(** ** Objects *)

Definition key_is (key : list Z) (n : node) : bool :=
  match m_key (meta n) with Some k => bool_decide (cstr k = cstr key) | None => false end.

(** The place of the first child with the key, or behind the last child. *)
Fixpoint xjson_obj_find_ (c : list node) (key : list Z) : nat :=
  match c with
  | [] => 0
  | n :: c => if key_is key n then 0 else S (xjson_obj_find_ c key)
  end.

Definition xJsonObjectGet (obj : option node) (key : option (list Z)) : ub (option node) :=
  match obj, key with
  | Some n, Some key => match value n with VObject c => Some (c !! xjson_obj_find_ c key) | _ => None end
  | _, _ => Some None
  end.

(** [free(v->key)] *)
Definition free_key (v : node) : ub unit :=
  match m_key (meta v) with Some _ => if m_arena (meta v) then None else Some tt | None => Some tt end.

(** The result ([true] for 0) and the object.  The copy of the key is not
    checked for null. *)
Definition xJsonObjectSet (alloc : oracle) (obj : option node) (key : list Z) (val : option node)
    : ub (bool * option node) :=
  match obj, val with
  | Some (Node m (VObject c)), Some v =>
      let v := set_owned v in
      _ ← free_key v;
      let klen := length (cstr key) in
      let copy := if alloc (Z.of_nat klen + 1)%Z then Some (cstr key) else None in
      let v := set_key copy klen v in
      let i := xjson_obj_find_ c key in
      match c !! i with
      | Some old =>
          _ ← xjson_free_subtree_ old;
          Some (true, Some (Node m (VObject (<[i := v]> c))))
      | None => Some (true, Some (Node m (VObject (c ++ [v]))))
      end
  | _, _ => Some (false, obj)
  end.

Definition xJsonObjectDel (obj : option node) (key : option (list Z)) : ub (option node) :=
  match obj, key with
  | Some (Node m (VObject c)), Some key =>
      let i := xjson_obj_find_ c key in
      match c !! i with
      | Some victim => _ ← xjson_free_subtree_ victim; Some (Some (Node m (VObject (delete i c))))
      | None => Some obj
      end
  | _, _ => Some obj
  end.

Definition xJsonObjectSize (obj : node) : ub nat :=
  match value obj with VObject c => Some (length c) | _ => None end.

(** *** Iterator *)

(** The children of the object, and the place of the current one. *)
Record xJsonIterator_ := Iterator {
  it_obj : list node;
  it_cur : option nat;
}.

Definition xJsonNewIterator (alloc : oracle) (obj : option node) : option xJsonIterator_ :=
  match obj with
  | Some (Node _ (VObject c)) => if alloc 24%Z then Some (Iterator c None) else None
  | _ => None
  end.

Definition xJsonIteratorNext (it : xJsonIterator_) : bool * xJsonIterator_ :=
  let next := match it_cur it with Some i => S i | None => 0 end in
  let cur := if decide (next < length (it_obj it)) then Some next else None in
  (bool_decide (cur <> None), Iterator (it_obj it) cur).

Definition xJsonIteratorValue (it : xJsonIterator_) : option node := i ← it_cur it; it_obj it !! i.
Definition xJsonIteratorKey (it : xJsonIterator_) : option (option (list Z) * nat) :=
  n ← xJsonIteratorValue it; Some (m_key (meta n), m_key_len (meta n)).

(** ** Arrays *)

(** The index from the front; [None] for one before it. *)
Definition norm_idx (c : list node) (idx : Z) : option nat :=
  let idx := if (idx <? 0)%Z then (idx + Z.of_nat (length c))%Z else idx in
  if (idx <? 0)%Z then None else Some (Z.to_nat idx).

Definition xjson_arr_nth_ (c : list node) (idx : Z) : option node := i ← norm_idx c idx; c !! i.

(** A place before an element or behind the last one. *)
Definition xjson_arr_ptr_at_ (c : list node) (idx : Z) : option nat :=
  i ← norm_idx c idx; if decide (i <= length c) then Some i else None.

Definition xJsonArrayGet (arr : option node) (idx : Z) : option node :=
  match arr with Some (Node _ (VArray c)) => xjson_arr_nth_ c idx | _ => None end.

Definition xJsonArraySet (arr : option node) (idx : Z) (val : option node) : ub (bool * option node) :=
  match arr, val with
  | Some (Node m (VArray c)), Some v =>
      match xjson_arr_ptr_at_ c idx with
      | Some i =>
          match c !! i with
          | Some old =>
              _ ← xjson_free_subtree_ old;
              Some (true, Some (Node m (VArray (<[i := set_owned v]> c))))
          | None => Some (false, arr)
          end
      | None => Some (false, arr)
      end
  | _, _ => Some (false, arr)
  end.

Definition xJsonArrayAppend (arr : option node) (val : option node) : bool * option node :=
  match arr, val with
  | Some (Node m (VArray c)), Some v => (true, Some (Node m (VArray (c ++ [set_owned v]))))
  | _, _ => (false, arr)
  end.

Definition xJsonArrayInsert (arr : option node) (idx : Z) (val : option node) : bool * option node :=
  match arr, val with
  | Some (Node m (VArray c)), Some v =>
      match xjson_arr_ptr_at_ c idx with
      | Some i => (true, Some (Node m (VArray (take i c ++ set_owned v :: drop i c))))
      | None => (false, arr)
      end
  | _, _ => (false, arr)
  end.

Definition xJsonArrayRemove (arr : option node) (idx : Z) : ub (option node) :=
  match arr with
  | Some (Node m (VArray c)) =>
      match xjson_arr_ptr_at_ c idx with
      | Some i =>
          match c !! i with
          | Some victim => _ ← xjson_free_subtree_ victim; Some (Some (Node m (VArray (delete i c))))
          | None => Some arr
          end
      | None => Some arr
      end
  | _ => Some arr
  end.

Definition xJsonArraySize (arr : node) : ub nat :=
  match value arr with VArray c => Some (length c) | _ => None end.

(** ** Trees built with [malloc] *)

Inductive malloced : node -> Prop :=
  | malloced_node m v :
      m_arena m = false ->
      (forall c, v = VArray c \/ v = VObject c -> Forall malloced c) ->
      malloced (Node m v).

Lemma free_malloced n : malloced n -> xjson_free_subtree_ n = Some tt.
Proof.
  induction n as [m|m b|m z|m d|m s|m c IH|m c IH] using node_ind; intros H; inversion H as [? ? Hm Hc]; subst;
    cbn [xjson_free_subtree_]; try by rewrite Hm.
  all: specialize (Hc c ltac:(auto)); clear H; induction IH as [|n c Hn IHc IH]; [cbn; by rewrite Hm|];
    apply Forall_cons in Hc as [Hn' Hc]; rewrite Hn by done; cbn [mbind option_bind]; by apply IH.
Qed.

Lemma malloced_meta n : malloced n -> m_arena (meta n) = false.
Proof. by intros [m v Hm _]. Qed.

Lemma free_key_malloced n : malloced n -> free_key n = Some tt.
Proof. intros H. unfold free_key. rewrite malloced_meta by done. by destruct (m_key _). Qed.

Lemma malloced_set_owned n : malloced n -> malloced (set_owned n).
Proof. intros [m v Hm Hc]. by constructor. Qed.

Lemma malloced_set_key k l n : malloced n -> malloced (set_key k l n).
Proof. intros [m v Hm Hc]. by constructor. Qed.

(** ** An object as a map *)

(** A C string. *)
Definition text (k : list Z) : Prop := 0%Z ∉ k.

Lemma cstr_text k : text k -> cstr k = k.
Proof.
  unfold text. induction k as [|c k IH]; [done|]. rewrite not_elem_of_cons. intros [Hc Hk]. cbn [cstr].
  rewrite (proj2 (Z.eqb_neq c 0)) by done. by rewrite IH.
Qed.

Definition key_of (n : node) : list Z := default [] (m_key (meta n)).

Definition obj_ok (c : list node) : Prop :=
  Forall (fun n => malloced n /\ m_key (meta n) = Some (key_of n) /\ m_key_len (meta n) = length (key_of n) /\ text (key_of n)) c /\
  NoDup (key_of <$> c).

Definition to_map (c : list node) : gmap (list Z) (xJsonValue D node) :=
  list_to_map ((fun n => (key_of n, value n)) <$> c).

Lemma to_map_keys c : ((fun n => (key_of n, value n)) <$> c).*1 = key_of <$> c.
Proof. rewrite <- list_fmap_compose. done. Qed.

Lemma to_map_lookup c i n : obj_ok c -> c !! i = Some n -> to_map c !! key_of n = Some (value n).
Proof.
  intros [_ Hnd] Hi. apply elem_of_list_to_map; [by rewrite to_map_keys|].
  apply list_elem_of_fmap. exists n. split; [done|]. by apply list_elem_of_lookup_2 in Hi.
Qed.

(** The search finds the key, or the end when it is not there. *)
Lemma find_spec c key :
  obj_ok c -> text key ->
  (exists n, c !! xjson_obj_find_ c key = Some n /\ key_of n = key) \/
  (xjson_obj_find_ c key = length c /\ key ∉ key_of <$> c).
Proof.
  intros [H _] Hk. induction H as [|n c (Hm & Ek & _ & Ht) Hc IH]; [right; split; [done|apply not_elem_of_nil]|]. cbn [xjson_obj_find_].
  unfold key_is. rewrite Ek, !cstr_text by done. case_bool_decide as Heq; [left; by exists n|].
  destruct IH as [(n' & E & En)|[E Hn]].
  - left. exists n'. done.
  - right. cbn [length]. rewrite E, fmap_cons. split; [done|]. rewrite not_elem_of_cons. by split.
Qed.

Lemma to_map_cons n c : to_map (n :: c) = <[key_of n := value n]> (to_map c).
Proof. done. Qed.

Lemma to_map_fresh c k : k ∉ key_of <$> c -> to_map c !! k = None.
Proof. intros H. apply not_elem_of_list_to_map. by rewrite to_map_keys. Qed.

Lemma to_map_insert c i old v :
  NoDup (key_of <$> c) -> c !! i = Some old -> key_of v = key_of old ->
  to_map (<[i := v]> c) = <[key_of old := value v]> (to_map c).
Proof.
  revert i. induction c as [|n c IH]; intros i Hnd Hi Hk; [done|]. rewrite fmap_cons in Hnd.
  apply NoDup_cons in Hnd as [Hn Hnd]. destruct i as [|i]; cbn in Hi.
  - injection Hi as ->. cbn [insert list_insert]. rewrite !to_map_cons, Hk. by rewrite insert_insert_eq.
  - cbn [insert list_insert]. rewrite !to_map_cons, IH by done. apply insert_insert_ne. intros Heq.
    apply Hn. rewrite Heq. apply list_elem_of_fmap. exists old. split; [done|]. by apply list_elem_of_lookup_2 in Hi.
Qed.

Lemma to_map_delete c i old :
  NoDup (key_of <$> c) -> c !! i = Some old -> to_map (delete i c) = delete (key_of old) (to_map c).
Proof.
  revert i. induction c as [|n c IH]; intros i Hnd Hi; [done|]. rewrite fmap_cons in Hnd.
  apply NoDup_cons in Hnd as [Hn Hnd]. destruct i as [|i]; cbn in Hi.
  - injection Hi as ->. cbn [delete list_delete]. rewrite to_map_cons. by rewrite delete_insert_id by (by apply to_map_fresh).
  - cbn [delete list_delete]. rewrite !to_map_cons, IH by done. symmetry. apply delete_insert_ne. intros Heq.
    apply Hn. rewrite <- Heq. apply list_elem_of_fmap. exists old. split; [done|]. by apply list_elem_of_lookup_2 in Hi.
Qed.

Lemma to_map_snoc c v : key_of v ∉ key_of <$> c -> to_map (c ++ [v]) = <[key_of v := value v]> (to_map c).
Proof.
  induction c as [|n c IH]; [done|]. rewrite fmap_cons, not_elem_of_cons. intros [Hn Hc].
  rewrite <- app_comm_cons, !to_map_cons, IH by done. by apply insert_insert_ne.
Qed.

(** What [xJsonObjectSet] makes of the value. *)
Definition placed (key : list Z) (v : node) : node := set_key (Some key) (length key) (set_owned v).

Lemma placed_member key v :
  malloced v -> text key ->
  malloced (placed key v) /\ m_key (meta (placed key v)) = Some key /\ m_key_len (meta (placed key v)) = length key /\
  key_of (placed key v) = key /\ value (placed key v) = value v.
Proof.
  intros Hm Hk. split; [by apply malloced_set_key, malloced_set_owned|]. by destruct v.
Qed.

Definition member_ok (n : node) : Prop :=
  malloced n /\ m_key (meta n) = Some (key_of n) /\ m_key_len (meta n) = length (key_of n) /\ text (key_of n).

Lemma placed_ok key v : malloced v -> text key -> member_ok (placed key v).
Proof.
  intros Hm Hk. destruct (placed_member key v Hm Hk) as (? & Ek & El & Eo & _). unfold member_ok. by rewrite Eo.
Qed.

Lemma free_key_owned v : malloced v -> free_key (set_owned v) = Some tt.
Proof. intros. by apply free_key_malloced, malloced_set_owned. Qed.

Section object.
Context (m : xJsonMeta) (c : list node) (key : list Z) (v : node) (alloc : oracle).
Hypotheses (Hok : obj_ok c) (Hk : text key) (Hv : malloced v) (Halloc : alloc (Z.of_nat (length key) + 1)%Z = true).

Lemma object_get :
  exists r, xJsonObjectGet (Some (Node m (VObject c))) (Some key) = Some r /\ value <$> r = to_map c !! key.
Proof using Hok Hk.
  clear Hv Halloc alloc v.
  cbn [xJsonObjectGet value]. eexists. split; [reflexivity|]. destruct (find_spec c key Hok Hk) as [(n & Hi & <-)|[Hi Hn]].
  - rewrite Hi. symmetry. by apply to_map_lookup with (i := xjson_obj_find_ c (key_of n)).
  - rewrite Hi, lookup_ge_None_2 by done. symmetry. by apply to_map_fresh.
Qed.

Lemma object_set :
  exists c', xJsonObjectSet alloc (Some (Node m (VObject c))) key (Some v) = Some (true, Some (Node m (VObject c'))) /\
    obj_ok c' /\ to_map c' = <[key := value v]> (to_map c) /\
    key_of <$> c' = (key_of <$> c) ++ (if decide (key ∈ key_of <$> c) then [] else [key]).
Proof using All.
  pose proof (placed_ok key v Hv Hk) as Hp. destruct (placed_member key v Hv Hk) as (_ & _ & _ & Ho & Ev).
  cbn [xJsonObjectSet]. rewrite free_key_owned, cstr_text, Halloc by done. cbn [mbind option_bind].
  fold (placed key v). destruct Hok as [Hall Hnd]. destruct (find_spec c key Hok Hk) as [(n & Hi & Hn)|[Hi Hn]].
  - rewrite Hi, free_malloced by (by destruct (Forall_lookup_1 _ _ _ _ Hall Hi)). cbn [mbind option_bind].
    eexists. split; [reflexivity|].
    assert (key_of <$> <[xjson_obj_find_ c key := placed key v]> c = key_of <$> c) as Ekeys.
    { rewrite list_fmap_insert, Ho. apply list_insert_id. by rewrite list_lookup_fmap, Hi, <- Hn. }
    split; [split|split].
    + by apply Forall_insert.
    + by rewrite Ekeys.
    + rewrite (to_map_insert c _ n) by (done || congruence). by rewrite Hn, Ev.
    + rewrite Ekeys. rewrite decide_True; [by rewrite app_nil_r|]. apply list_elem_of_fmap. exists n.
      split; [done|]. by apply list_elem_of_lookup_2 in Hi.
  - rewrite Hi, lookup_ge_None_2 by done. eexists. split; [reflexivity|].
    assert (key_of <$> c ++ [placed key v] = (key_of <$> c) ++ [key]) as Ekeys by (rewrite fmap_app; cbn; by rewrite Ho).
    split; [split|split].
    + apply Forall_app. split; [done|]. by constructor.
    + rewrite Ekeys. apply NoDup_app. split; [done|]. split; [|apply NoDup_singleton].
      intros x Hx ->%list_elem_of_singleton. done.
    + rewrite to_map_snoc by (by rewrite Ho). by rewrite Ho, Ev.
    + rewrite Ekeys. by rewrite decide_False.
Qed.

Lemma object_del :
  exists c', xJsonObjectDel (Some (Node m (VObject c))) (Some key) = Some (Some (Node m (VObject c'))) /\
    obj_ok c' /\ to_map c' = delete key (to_map c).
Proof using Hok Hk.
  clear Hv Halloc alloc v.
  cbn [xJsonObjectDel]. destruct Hok as [Hall Hnd]. destruct (find_spec c key Hok Hk) as [(n & Hi & Hn)|[Hi Hn]].
  - rewrite Hi, free_malloced by (by destruct (Forall_lookup_1 _ _ _ _ Hall Hi)). cbn [mbind option_bind].
    eexists. split; [reflexivity|]. split; [split|].
    + by apply Forall_delete.
    + rewrite (list_fmap_delete key_of). eapply sublist_NoDup; [exact Hnd|]. apply sublist_delete.
    + rewrite (to_map_delete c _ n) by done. by rewrite Hn.
  - rewrite Hi, lookup_ge_None_2 by done. eexists. split; [reflexivity|]. split; [done|].
    symmetry. apply delete_id. by apply to_map_fresh.
Qed.

Lemma object_size : xJsonObjectSize (Node m (VObject c)) = Some (size (to_map c)).
Proof using Hok.
  clear Hv Halloc alloc v Hk key.
  destruct Hok as [_ Hnd]. cbn. f_equal. clear - Hnd. induction c as [|n l IH]; [done|].
  rewrite fmap_cons in Hnd. apply NoDup_cons in Hnd as [Hn Hnd]. rewrite to_map_cons.
  rewrite map_size_insert_None by (by apply to_map_fresh). cbn. by rewrite IH.
Qed.
End object.


(** ** Arrays *)

Lemma norm_idx_range (c : list node) idx :
  (- Z.of_nat (length c) <= idx < Z.of_nat (length c))%Z ->
  exists i, norm_idx c idx = Some i /\ i < length c /\ Z.of_nat i = (idx mod Z.of_nat (length c))%Z.
Proof.
  intros H. unfold norm_idx. destruct (Z.ltb_spec idx 0).
  - rewrite (proj2 (Z.ltb_ge _ _)) by lia. eexists. split; [reflexivity|]. split; [lia|].
    rewrite Z2Nat.id by lia. rewrite <- (Z_mod_plus_full idx 1), Z.mul_1_l. by rewrite Z.mod_small by lia.
  - rewrite (proj2 (Z.ltb_ge _ _)) by lia. eexists. split; [reflexivity|]. split; [lia|].
    rewrite Z2Nat.id by lia. by rewrite Z.mod_small by lia.
Qed.

(** On an array built with [malloc] an index counts from the front, or
    from the end when it is negative.  Setting an element in range replaces
    just that one and removing it closes the gap; inserting in front of it
    moves it and the following ones up; out of range the first two change
    nothing. *)
Theorem json_array_ops m c idx v :
  Forall malloced c ->
  let arr := Some (Node m (VArray c)) in
  if decide (- Z.of_nat (length c) <= idx < Z.of_nat (length c))%Z then
    exists l x r, c = l ++ x :: r /\ Z.of_nat (length l) = (idx mod Z.of_nat (length c))%Z /\
      xJsonArrayGet arr idx = Some x /\
      xJsonArraySet arr idx (Some v) = Some (true, Some (Node m (VArray (l ++ set_owned v :: r)))) /\
      xJsonArrayInsert arr idx (Some v) = (true, Some (Node m (VArray (l ++ set_owned v :: x :: r)))) /\
      xJsonArrayRemove arr idx = Some (Some (Node m (VArray (l ++ r))))
  else
    xJsonArrayGet arr idx = None /\ xJsonArraySet arr idx (Some v) = Some (false, arr) /\
    xJsonArrayRemove arr idx = Some arr.
Proof.
  intros Hc arr. subst arr. unfold xJsonArrayGet, xJsonArraySet, xJsonArrayInsert, xJsonArrayRemove, xjson_arr_nth_, xjson_arr_ptr_at_.
  case_decide as Hr.
  - destruct (norm_idx_range c idx Hr) as (i & -> & Hi & Ei). cbn [mbind option_bind].
    rewrite decide_True by lia. destruct (lookup_lt_is_Some_2 c i Hi) as [x Hx]. rewrite Hx.
    rewrite free_malloced by (by eapply Forall_lookup_1). cbn [mbind option_bind].
    exists (take i c), x, (drop (S i) c). rewrite insert_take_drop, delete_take_drop by done.
    rewrite (take_drop_middle c i x Hx). split; [done|]. split; [rewrite length_take; lia|].
    do 2 (split; [done|]). split; [by rewrite (drop_S c x i Hx)|done].
  - unfold norm_idx. destruct (Z.ltb_spec idx 0).
    + rewrite (proj2 (Z.ltb_lt (idx + Z.of_nat (length c)) 0)) by lia. done.
    + rewrite (proj2 (Z.ltb_ge idx 0)) by lia. cbn [mbind option_bind].
      case_decide; rewrite ?(lookup_ge_None_2 c) by lia; done.
Qed.

(** ** Iteration *)

Fixpoint iterate (fuel : nat) (it : xJsonIterator_) : list (option node) :=
  match fuel with
  | 0 => []
  | S fuel =>
      let '(more, it) := xJsonIteratorNext it in
      if more then xJsonIteratorValue it :: iterate fuel it else []
  end.

Lemma iterate_from c i fuel :
  length c - i < fuel -> i <= length c ->
  iterate fuel (Iterator c (if decide (i = 0) then None else Some (pred i))) = Some <$> drop i c.
Proof.
  revert i. induction fuel as [|fuel IH]; intros i Hf Hi; [lia|]. cbn [iterate]. unfold xJsonIteratorNext. cbn [it_obj it_cur].
  assert (match (if decide (i = 0) then None else Some (pred i)) with Some i => S i | None => 0 end = i) as ->
    by (case_decide; lia).
  case_decide as Hlt.
  - rewrite bool_decide_true by done. destruct (lookup_lt_is_Some_2 c i Hlt) as [x Hx].
    rewrite (drop_S c x i Hx), fmap_cons. unfold xJsonIteratorValue at 1. cbn [it_obj it_cur mbind option_bind].
    rewrite Hx. f_equal. rewrite <- (IH (S i)) by lia. by rewrite decide_False by lia.
  - rewrite bool_decide_false by tauto. rewrite drop_ge by lia. done.
Qed.

(** The iterator gives every member once, in order, and then stops. *)
Lemma json_iterate m c alloc it :
  xJsonNewIterator alloc (Some (Node m (VObject c))) = Some it -> iterate (S (length c)) it = Some <$> c.
Proof.
  cbn [xJsonNewIterator]. destruct (alloc 24%Z); [|done]. intros [= <-]. by apply (iterate_from c 0); lia.
Qed.

(** ** What parse trees and failed allocations do *)

(** Deleting a member of a parsed document frees memory of its arena:
    undefined behaviour. *)
Theorem json_parsed_del_undefined m (c : list node) i x :
  let n := parsed (Node m (VObject c)) in
  c !! i = Some x -> m_key (meta x) <> None -> xJsonObjectDel (Some n) (m_key (meta x)) = None.
Proof.
  intros n Hi Hk. subst n. cbn [parsed xJsonObjectDel]. destruct (m_key (meta x)) as [k|] eqn:Ek; [|done].
  set (c' := (fun x => set_key (m_key (meta x)) (m_key_len (meta x)) (set_owned (parsed x))) <$> c).
  assert (exists y, c' !! xjson_obj_find_ c' k = Some y /\ m_arena (meta y) = true) as (y & -> & Ha).
  { assert (Forall (fun y => m_arena (meta y) = true) c') as Har.
    { apply Forall_fmap, Forall_true. by intros [m0 []]. }
    assert (exists y, y ∈ c' /\ key_is k y = true) as (y & Hy & Hky).
    { exists (set_key (m_key (meta x)) (m_key_len (meta x)) (set_owned (parsed x))). split.
      - apply list_elem_of_fmap. exists x. split; [done|]. by apply list_elem_of_lookup_2 in Hi.
      - rewrite Ek. unfold key_is. assert (m_key (meta (set_key (Some k) (m_key_len (meta x)) (set_owned (parsed x)))) = Some k) as ->
          by (by destruct x as [m0 []]). by apply bool_decide_eq_true. }
    clear -Har Hy Hky. induction c' as [|z c' IH]; [by apply not_elem_of_nil in Hy|].
    apply Forall_cons in Har as [Hz Har]. cbn [xjson_obj_find_]. destruct (key_is k z) eqn:Ez; [by exists z|].
    cbn. apply IH; [done|]. apply elem_of_cons in Hy as [->|Hy]; [congruence|done]. }
  clear -Ha. destruct y as [my v]. cbn in Ha. cbn [xjson_free_subtree_]. rewrite Ha. by destruct (match v with VNull => _ | _ => _ end).
Qed.

End dom.

(** The document [{"a":[true]}] built by hand. *)
Definition built : list (xJson_ Z) :=
  [Node (Meta true false (Some [97%Z]) 1) (VArray [Node (Meta true false None 0) (VBool 1%Z)])].

Lemma malloced_leaf (m : xJsonMeta) (v : xJsonValue Z (xJson_ Z)) :
  m_arena m = false -> (forall c, v <> VArray c /\ v <> VObject c) -> malloced (Node m v).
Proof. intros Hm Hv. constructor; [done|]. intros c [-> | ->]; by destruct (Hv c). Qed.

Lemma built_ok : obj_ok built.
Proof.
  split; [|apply NoDup_singleton]. apply Forall_cons. split; [|done]. split; [|split; [done|split; [done|]]].
  - constructor; [done|]. intros c [[= <-]|[=]]. apply Forall_cons. split; [|done]. by apply malloced_leaf.
  - unfold text. intros Hx%list_elem_of_singleton. discriminate.
Qed.


Lemma json_array_ops_witness :
  let m := Meta false false None 0 in
  let elem z : xJson_ Z := Node m (VInt z) in
  let c := [elem 1; elem 2]%Z in
  Forall malloced c /\
  exists l x r, c = l ++ x :: r /\ Z.of_nat (length l) = 1%Z /\
    xJsonArraySet (Some (Node m (VArray c))) (-1) (Some (elem 9%Z)) =
    Some (true, Some (Node m (VArray (l ++ set_owned (elem 9%Z) :: r)))).
Proof.
  intros m elem c. assert (Forall malloced c) as Hc.
  { apply Forall_cons. split; [by apply malloced_leaf|]. apply Forall_cons. split; [by apply malloced_leaf|done]. }
  split; [exact Hc|]. pose proof (json_array_ops m c (-1) (elem 9%Z) Hc) as H.
  rewrite decide_True in H by (cbn; lia). destruct H as (l & x & r & E & El & _ & Es & _).
  exists l, x, r. split; [exact E|]. split; [exact El|exact Es].
Defined.

Lemma json_parsed_del_undefined_witness :
  xJsonObjectDel (Some (parsed (Node (Meta false false None 0) (VObject built)))) (Some [97%Z]) = None.
Proof.
  refine (json_parsed_del_undefined (Meta false false None 0) built 0
            (Node (Meta true false (Some [97%Z]) 1) (VArray [Node (Meta true false None 0) (VBool 1%Z)])) eq_refl _).
  intros E. discriminate E.
Defined.

(** The copy of a new key is not checked: when it cannot be allocated the
    call still succeeds, the member cannot be found again, and serializing the
    object reads through a null pointer. *)
Theorem json_set_key_lost :
  let m := Meta false false None 0 in
  exists o, xJsonObjectSet (fun _ => false) (Some (Node m (VObject []) : xJson_ Z)) [98%Z] (Some (Node m (VInt 7%Z))) = Some (true, Some o) /\
    xJsonObjectGet (Some o) (Some [98%Z]) = Some None /\
    xJsonStringify (fun _ => true) (fun k => replicate k 0%Z) (Some o) = None.
Proof. eexists. split; [reflexivity|]. split; vm_compute; reflexivity. Qed.
